(* ===== verification/_CoqProject ===== *)
-Q . S2P
Prelude.v
Base64.v
Paths.v
FileNames.v
FileUsage.v
Commands.v
World.v
Shortcut.v
Handlers.v
Lifecycle.v
Messages.v
Progress.v
Supervisor.v
Errors.v
Children.v
Framing.v
EventLoop.v
Recorder.v
Pipes.v
Hashing.v
Storage.v
ObjCache.v
HashCache.v
Fingerprint.v
Entries.v
CacheGc.v
StoreEntry.v
FileSystem.v
Replay.v
Restore.v
Fbb.v
FbbFormat.v
FbbBuild.v
FbbStore.v
Cycle.v
Signals.v
IcEnv.v
Startup.v
FileActions.v
IcFileOps.v
Settings.v
IcInit.v
