(* ===== verification/Prelude.v ===== *)
(** * Firebuild: a verification library of the supervisor

    Firebuild accelerates builds: the intercepted processes of a build report what they do
    to a supervisor, which keeps a model of them, and, when a process has finished without
    doing anything that could not be tracked, stores its inputs and outputs in a cache from
    which a later run of the same process is replayed ("shortcut").  The library models the
    supervisor (src/src/firebuild), the parts of src/src/common it shares with the
    interceptor, and the interceptor's own bookkeeping (src/src/interceptor).

    ** The parts of the program and where they are modelled

    - Shared C strings, machine integers, the [outcome] monad ([Ret], [Abort] for a failed
      assertion or a null dereference, [OutOfFuel]): this file.
    - Text forms of hashes and subkeys (base64.cc, subkey.h, ascii_hash.h): [Base64].
    - Canonical paths and lists of locations (common/firebuild_common.c): [Paths]; interned
      file names (file_name.{h,cc}): [FileNames].
    - What is known of a file, and how knowledge is merged (file_info.h,
      file_usage_update.{h,cc}, file_usage.{h,cc}): [FileUsage].
    - Recognising, resolving and rewriting commands (exe_matcher, env.h, hash_cache.cc:
      resolve_command, command_rewriter.cc): [Commands].
    - The state of the supervisor (process.h, execed_process.h, file_fd.h, process_tree.h)
      as the record [World.world] and the state monad [M]: [World].  Each handle_* function
      of process.cc is a definition of [Handlers]; construction, matching, termination,
      finalization and garbage collection of processes (process.cc, forked_process.cc,
      execed_process.cc, process_tree.cc, sigchild_callback.cc) are in [Lifecycle]; the
      dispatch of messages (message_processor.cc, process_fbb_adaptor.h) in [Messages].
      What these send to pipes and to the processes is a log of events in the world.
    - Below the dispatch: the byte stream of a connection (linear_buffer.h,
      MessageProcessor::ic_conn_readcb, intercept.c: fb_send_msg) in [Framing], the event
      loop (epoll.{h,cc}) in [EventLoop].
    - Pipes routed through the supervisor (pipe.{h,cc}) in [Pipes], their recorders
      (pipe_recorder.{h,cc}) in [Recorder]; [Pipes] uses [EventLoop] for its callbacks and
      timers, [Framing] for its buffer and [Recorder] for what it records.
    - Hashes of data, files and directories (hash.cc): [Hashing].  The blob cache
      (blob_cache.{h,cc}, utils.cc: fb_copy_file_range) is a tree of files in [Storage], the
      object cache (obj_cache.{h,cc}) in [ObjCache], the hash cache (hash_cache.{h,cc}) in
      [HashCache].
    - The cacher (execed_process_cacher.cc): fingerprint() in [Fingerprint]; the entries of
      fbbstore.def and is_entry_usable() in [Entries]; gc() and the accounting of the size of
      the cache in [CacheGc]; store() in [StoreEntry]; shortcut(), find_shortcut() and
      apply_shortcut() in [Replay], over the file system of [FileSystem]; what applying a
      shortcut does is proved in [Restore].  store() takes the file usages of [FileUsage],
      the recorders of [Recorder] and the hash cache; shortcut() takes the object, hash and
      blob caches and logs what it registers at the parent and sends to pipes.
    - The generated serializer of messages (common/fbb/tpl.{h,c}) is in [Fbb], as functions
      of the message definitions: the layout of the wire structure, builders with their
      setters, measuring, serializing to byte memory, and the getters of both forms.
      [FbbFormat] describes what is written, [FbbBuild] what the setters build, and
      [FbbStore] has the definitions of fbbstore.def and how entries are built and read.
      [Cycle] composes storing with finding.
    - The interceptor, which runs in the intercepted processes (src/src/interceptor): the
      delaying of signals and the global lock (intercept.{h,c}) as an interleaving of the
      activities of a thread in [Signals]; the environment of children (env.c) in [IcEnv];
      what is passed to the interceptor in the environment (config.cc, intercept.c:
      store_entries(), fb_ic_init()) in [Startup], and how that environment is made and
      reported (config.cc: get_sanitized_env(), modify_config()) in [Settings]; collecting
      the shared libraries and reopening descriptors (fb_ic_init()) in [IcInit]; the table of
      posix_spawn file actions
      (intercept.c: psfa_*, firebuild_common.c: voidp_array) in [FileActions]; open flags and
      notification states (ic_file_ops.c) in [IcFileOps].

    The interfaces between the parts are classes: [Config] (options), [Sys] (answers of the
    system calls the supervisor makes), [Cacher] (what the message processor needs of the
    cacher, with its laws [CacherOk]), [Entry.Serializer] (what the caches need of the
    serializer, with its laws [Entry.SerializerOk], discharged in [FbbStore]).

    ** What the theorems show

    - The whole supervisor: under any sequence of connections, messages, hang-ups, SIGCHLDs
      and garbage collections, and for a cacher with the laws [CacherOk], a connection on
      which a process has signed in belongs to that process alone, which is running if it
      still exists (and exists, unless it is below a process that was collected), disabled
      shortcutting stays disabled with its reason, states only advance ([Supervisor], on the
      lemmas of [Progress]).  A system call that could not be tracked disables shortcutting of its
      exec point ([Errors]); disabling bubbles up exactly to the given ancestor, with the reason, and the
      cached ancestor pointer is always the nearest shortcutable one ([Shortcut]).
    - Knowledge of files: merging is conjunction on the set of initial states, but for the
      cases that the theorem lists, and what open() is recorded as is sound, but for reading
      only with O_CREAT or O_TRUNC ([FileUsage]).
    - Paths, names, encodings, commands: equivalence with short reference definitions,
      canonical forms, order and injectivity ([Paths], [FileNames], [Base64], [Commands],
      [Children]).
    - Bytes: messages are received as sent however the stream is cut; buffers are queues;
      a round of the event loop whose events are still registered after the clean-up of missed
      closes terminates and calls only live callbacks; timers; recorders
      record exactly what arrives; a pipe forwards in order and exactly once and keeps its
      invariant under every event that can happen, data being replayed to it while its timer
      runs excepted ([Framing], [EventLoop], [Recorder], [Pipes]).
    - Storing: all ways of hashing agree; what is stored in the blob and object caches is
      retrieved unchanged, as long as the setting of compress_cache is, and the hash cache answers as the files themselves would on every
      changing file system in which metadata tells versions apart ([Hashing], [Storage],
      [ObjCache], [HashCache]); garbage collection keeps exactly what is referenced and
      usable, terminates, and goes on until the cache is small enough or all rounds have been
      made ([CacheGc]).
    - Shortcutting: equal fingerprints mean equal processes up to collisions of the hash
      ([Fingerprint]); the inputs of a stored entry describe exactly the file systems that
      the process could have found, and its outputs hold what it produced, if that can be read
      ([StoreEntry]); the first fitting one of shortcut_tries + 1 entries is found ([Replay]);
      applying an applicable entry succeeds, has exactly the recorded effects, registers exactly
      the recorded inputs and outputs, and changes nothing else ([Restore]).
    - Serialized messages, for all message definitions: setters change one field each, and a
      message with its required fields set can be serialized ([FbbBuild]); it fills exactly
      the measured memory, and reads back the same ([FbbFormat]); so do cache entries
      ([FbbStore]).  So an entry that was stored is found again, or one that is not older and
      fits ([Cycle]).
    - The interceptor: signals are neither lost nor handled in the middle of the
      interceptor's own work, whatever the interleaving, and the lock is never taken twice
      ([Signals]); the environment for a child fits into its buffer, sets what is needed and
      can be undone, also where the library was already listed ([IcEnv]); the locations arrive as exported, and exactly when reading them
      ends ([Startup]); every variable of the build's environment is what the configuration asks for, which needs no
      fixup, and is reported independently of the run ([Settings]); up to which number the
      shared libraries are collected, and that descriptors are reopened as told ([IcInit]);
      file actions are found for the object that they were added to
      ([FileActions]); the flags of a mode are the documented ones where the plus sign comes
      second ([IcFileOps]).

    Theorems about concrete runs that end in a failed assertion, a lost byte or a stale
    pointer document what the code does where it departs from its intent; the theorems above
    whose conditions exclude such runs name them.

    ** Bounds and fuel

    Recursion that is not structural takes fuel and returns [OutOfFuel] without it.  Walks
    over the process tree run with the number of processes, which bounds every path
    ([Lifecycle]); [Framing.Frame.read_loop] with the number of buffered bytes plus one,
    since each message consumes some; [Pipes.Pipe.forward] is proved to return with two more
    than the number of bytes and chunks still to arrive, on traffic of less than 2^30 bytes
    (sizes are kept at their machine width); for [EventLoop.Epoll.process_all_events] the
    fuel is shown to exist.
    Reading and copying loops run with the size of the file plus one, since each round moves
    at least a byte.  [CacheGc.CacheGc.gc] needs at most 17 rounds because the kept ratio,
    computed in binary64 as in the code, falls by 0.05 a round from 0.8.  Walks to the root
    of a path run with its length.  The loop of [Startup.Startup.store_entries] is given the
    length of the value plus two, and shown not to end with any fuel where it hangs.

    ** Not modelled

    - The intercepted functions (src/src/interceptor/generate_interceptors) are C code
      generated from templates: what they send is the input of the model of the supervisor.
      The messages are decoded values in [Messages]; their serialized form is that of [Fbb]
      for the definitions of fbbcomm.def.  The signal mask is not modelled in [Signals]:
      raise() and arriving signals run the wrapper at once, also while a handler of the same
      signal runs; increments and bit operations on thread-local variables are single steps.
    - Report and debug output, which only print.
    - Configuration files, read by libconfig, and the command line: their values are the class
      [Config] and the parameters of [Settings].
    - main() (firebuild.cc), which puts the parts together, and the statistics of the cacher.
    - Parallel runs that share a cache directory.  Files change between the operations of the
      supervisor, but not during one.
    - XXH3 and zstd are third-party libraries: parameters.
    - kqueue and macOS variants: the Linux build is modelled. *)

From stdpp Require Import base list strings gmap sorting.
From Stdlib Require Import ZArith Lia Ascii.

#[export] Set Default Goal Selector "!".

(** * C strings *)

(** A C string is the list of its characters without the terminating NUL. *)
Abbreviation cstr := (list ascii).

Definition NUL : ascii := Ascii.zero.

(** A string literal as a C string. *)
Definition cs (s : string) : cstr := String.list_ascii_of_string s.

(** [char_at s i] is [s[i]], reading the terminating NUL one past the end. *)
Definition char_at (s : cstr) (i : nat) : ascii := nth i s NUL.

(** The characters after which a path component starts and ends. *)
Definition slash : ascii := "/"%char.
Definition dot : ascii := "."%char.

(** Unsigned value of a character. *)
Definition byte_of (a : ascii) : Z := Z.of_N (N_of_ascii a).

(** [memcmp(a, b, n)] on buffers of equal length [n]: lexicographic
    comparison of unsigned bytes. *)
Fixpoint memcmp (a b : cstr) : comparison :=
  match a, b with
  | x :: a', y :: b' =>
      match Z.compare (byte_of x) (byte_of y) with
      | Eq => memcmp a' b'
      | c => c
      end
  | [], [] => Eq
  | [], _ :: _ => Lt
  | _ :: _, [] => Gt
  end.

(** [strcmp] compares the strings including their terminators, so that a proper
    prefix is smaller; on NUL-free strings this is the same lexicographic
    comparison. *)
Definition strcmp (a b : cstr) : comparison := memcmp a b.

Create HintDb fb discriminated.

(** * Tactics *)

(** Split every conjunction and existential of the context and clean up. *)
Ltac splits := repeat match goal with
  | |- _ /\ _ => split
  end.

(** Linear arithmetic with division and modulo by constants. *)
Ltac dlia := Z.to_euclidean_division_equations; lia.

(** Reduce a boolean hypothesis or goal to its propositional meaning. *)
Ltac bool_prop :=
  repeat match goal with
  | H : (_ && _)%bool = true |- _ => apply andb_true_iff in H; destruct H
  | H : (_ || _)%bool = false |- _ => apply orb_false_iff in H; destruct H
  | H : negb _ = true |- _ => apply negb_true_iff in H
  | H : negb _ = false |- _ => apply negb_false_iff in H
  | H : (_ =? _)%Z = true |- _ => apply Z.eqb_eq in H
  | H : (_ =? _)%Z = false |- _ => apply Z.eqb_neq in H
  | H : (_ <? _)%Z = true |- _ => apply Z.ltb_lt in H
  | H : (_ <? _)%Z = false |- _ => apply Z.ltb_ge in H
  | H : (_ <=? _)%Z = true |- _ => apply Z.leb_le in H
  | H : (_ <=? _)%Z = false |- _ => apply Z.leb_gt in H
  end.

(** Case distinction on the decision in the goal. *)
Ltac decide_goal := match goal with |- context [decide ?P] => destruct (decide P) end.

(** Evaluate the decisions on closed propositions in a hypothesis. *)
Ltac eval_decides H :=
  repeat match type of H with
  | context [bool_decide ?P] =>
      let b := eval vm_compute in (bool_decide P) in
      match b with
      | true => change (bool_decide P) with true in H
      | false => change (bool_decide P) with false in H
      end
  end; cbn [negb andb orb] in H.

(** * Bytes *)

Lemma byte_of_range a : (0 <= byte_of a < 256)%Z.
Proof.
  unfold byte_of. pose proof (N_ascii_bounded a) as H. lia.
Qed.

Lemma byte_of_inj a b : byte_of a = byte_of b -> a = b.
Proof.
  unfold byte_of. intros H.
  rewrite <- (ascii_N_embedding a), <- (ascii_N_embedding b). f_equal. lia.
Qed.
#[export] Hint Resolve byte_of_range : fb.

Lemma memcmp_refl a : memcmp a a = Eq.
Proof. induction a; simpl; [done|]. by rewrite Z.compare_refl. Qed.

Lemma memcmp_eq a b : memcmp a b = Eq <-> a = b.
Proof.
  split; [|intros ->; apply memcmp_refl].
  revert b. induction a as [|x a IH]; intros [|y b]; simpl; try done.
  destruct (Z.compare_spec (byte_of x) (byte_of y)) as [E| |]; try done.
  intros Hm. f_equal; [by apply byte_of_inj|by apply IH].
Qed.

(** * Digit strings *)

(** Value of a big-endian digit list in base [b]. *)
Fixpoint digits_value (b : Z) (acc : Z) (ds : list Z) : Z :=
  match ds with
  | [] => acc
  | d :: ds' => digits_value b (b * acc + d)%Z ds'
  end.

Fixpoint lex_compare (a b : list Z) : comparison :=
  match a, b with
  | x :: a', y :: b' =>
      match Z.compare x y with Eq => lex_compare a' b' | c => c end
  | [], [] => Eq
  | [], _ :: _ => Lt
  | _ :: _, [] => Gt
  end.

Definition digits_below (b : Z) (ds : list Z) : Prop :=
  Forall (fun d => 0 <= d < b)%Z ds.

Section Digits.
Context (b : Z) (Hb : (1 <= b)%Z).

Lemma digits_value_mono ds es x y :
  length ds = length es -> digits_below b ds -> digits_below b es ->
  (x < y)%Z -> (digits_value b x ds < digits_value b y es)%Z.
Proof.
  revert es x y. induction ds as [|d ds IH]; intros [|e es] x y Hl Hd He Hxy;
    simpl in *; try done.
  apply Forall_cons in Hd as [Hd Hds]. apply Forall_cons in He as [He Hes].
  apply IH; auto; nia.
Qed.

(** On digit lists of equal length the lexicographic order is the order of
    the numbers they denote. *)
Lemma lex_compare_value ds es x :
  length ds = length es -> digits_below b ds -> digits_below b es ->
  lex_compare ds es = Z.compare (digits_value b x ds) (digits_value b x es).
Proof.
  revert es x. induction ds as [|d ds IH]; intros [|e es] x Hl Hd He;
    simpl in *; try done.
  - by rewrite Z.compare_refl.
  - apply Forall_cons in Hd as [Hd Hds]. apply Forall_cons in He as [He Hes].
    destruct (Z.compare_spec d e) as [->|Hlt|Hgt].
    + apply IH; auto.
    + symmetry. apply Z.compare_lt_iff, digits_value_mono; auto; lia.
    + symmetry. apply Z.compare_gt_iff, digits_value_mono; auto; lia.
Qed.
End Digits.

(** * Outcomes *)

(** Result of code that may fail an [assert()] or call [abort()], or (in the
    fuelled loops) not be given enough fuel. *)
Inductive outcome (A : Type) : Type :=
| Ret (a : A)
| Abort
| OutOfFuel.
Arguments Ret {A} a.
Arguments Abort {A}.
Arguments OutOfFuel {A}.

#[export] Instance outcome_ret : MRet outcome := fun A a => Ret a.
#[export] Instance outcome_bind : MBind outcome := fun A B f m =>
  match m with
  | Ret a => f a
  | Abort => Abort
  | OutOfFuel => OutOfFuel
  end.

(** [assert(b)]; the build keeps assertions enabled. *)
Definition assert (b : bool) : outcome unit := if b then Ret tt else Abort.

Lemma outcome_bind_Ret {A B} (m : outcome A) (f : A -> outcome B) b :
  m ≫= f = Ret b -> exists a, m = Ret a /\ f a = Ret b.
Proof. destruct m; cbn; [eauto|done|done]. Qed.

Lemma assert_Ret b u : assert b = Ret u -> b = true.
Proof. by destruct b. Qed.

(** Decompose a hypothesis [m ≫= f = Ret _] step by step. *)
Ltac inv_bind :=
  repeat match goal with
  | H : (_ ≫= _) = Ret _ |- _ =>
      let a := fresh "a" in let H1 := fresh "Hb" in
      apply outcome_bind_Ret in H as (a & H1 & H)
  | H : assert _ = Ret _ |- _ => apply assert_Ret in H
  end.

(** * Errno values and open flags (Linux) *)

Local Open Scope Z_scope.
Definition ENOENT := 2.
Definition EINTR := 4.
Definition EIO := 5.
Definition EBADF := 9.
Definition EACCES := 13.
Definition EBUSY := 16.
Definition EEXIST := 17.
Definition ENOTDIR := 20.
Definition EISDIR := 21.
Definition EINVAL := 22.
Definition ENFILE := 23.
Definition ENAMETOOLONG := 36.

Definition O_RDONLY := 0.
Definition O_WRONLY := 1.
Definition O_RDWR := 2.
Definition O_ACCMODE := 3.
Definition O_CREAT := 64.
Definition O_EXCL := 128.
Definition O_NOCTTY := 256.
Definition O_TRUNC := 512.
Definition O_APPEND := 1024.
Definition O_NONBLOCK := 2048.
Definition O_DIRECTORY := 65536.
Definition O_NOFOLLOW := 131072.
Definition O_CLOEXEC := 524288.
Definition O_TMPFILE := 4259840.

(** [flags & bit] as a condition. *)
Definition has (flags bit : Z) : bool := negb (Z.land flags bit =? 0).

(** [is_rdonly], [is_wronly], [is_rdwr], [is_write]
    (src/common/firebuild_common.h). *)
Definition is_rdonly (flags : Z) : bool := Z.land flags O_ACCMODE =? O_RDONLY.
Definition is_wronly (flags : Z) : bool := Z.land flags O_ACCMODE =? O_WRONLY.
Definition is_rdwr (flags : Z) : bool := Z.land flags O_ACCMODE =? O_RDWR.
Definition is_write (flags : Z) : bool := is_wronly flags || is_rdwr flags.

(** File mode bits. *)
Definition S_IFMT := 61440.
Definition S_ISREG (mode : Z) : bool := Z.land mode S_IFMT =? 32768.
Definition S_ISDIR (mode : Z) : bool := Z.land mode S_IFMT =? 16384.
Definition S_ISLNK (mode : Z) : bool := Z.land mode S_IFMT =? 40960.
Definition mode_bits : Z := 4095.
Definition S_IRUSR := 256.
Definition S_IWUSR := 128.
Definition S_IXUSR := 64.
