(* ===== verification/Base64.v ===== *)
(** The base64-like ASCII encoding of hashes and cache subkeys:
    src/firebuild/base64.{h,cc}, subkey.h, ascii_hash.h and the ASCII part of
    hash.{h,cc}.  Bytes are integers in [0, 256); an output buffer is the list
    of characters written to it. *)

From stdpp Require Import base list strings.
From Stdlib Require Import ZArith Lia Ascii.
From S2P Require Import Prelude.

Local Open Scope Z_scope.

Module Base64.

(** [kEncodeMap], the 64 characters in ASCII order. *)
Definition kEncodeMap : cstr :=
  cs "+0123456789ABCDEFGHIJKLMNOPQRSTUVWXYZ^abcdefghijklmnopqrstuvwxyz".

(** [kEncodeMap[i]]. *)
Definition enc (i : Z) : ascii := char_at kEncodeMap (Z.to_nat i).

(** Wrap-around of the unsigned temporaries. *)
Definition u32 (z : Z) : Z := z mod 2 ^ 32.
Definition u16 (z : Z) : Z := z mod 2 ^ 16.

Definition in_byte (inp : list Z) (i : nat) : Z := nth i inp 0.

Definition encode_3byte_block (inp : list Z) : cstr :=
  let val := u32 (Z.lor (Z.lor (Z.shiftl (in_byte inp 0) 16)
                               (Z.shiftl (in_byte inp 1) 8))
                        (in_byte inp 2)) in
  [enc (Z.shiftr val 18);
   enc (Z.land (Z.shiftr val 12) 63);
   enc (Z.land (Z.shiftr val 6) 63);
   enc (Z.land val 63)].

Definition encode_2byte_block (inp : list Z) : cstr :=
  let val := u16 (Z.lor (Z.shiftl (in_byte inp 0) 8) (in_byte inp 1)) in
  [enc (Z.land (Z.shiftr val 10) 63);
   enc (Z.land (Z.shiftr val 4) 63);
   enc (Z.land (Z.shiftl val 2) 63)].

Definition encode_1byte_block (inp : list Z) : cstr :=
  let val := in_byte inp 0 in
  [enc (Z.shiftr val 2);
   enc (Z.land (Z.shiftl val 4) 63)].

(** [encode(in, out, in_length)]: the characters written to [out], the
    terminating NUL included; [None] is the [abort()] of unsupported lengths. *)
Definition encode (inp : list Z) (in_length : Z) : option cstr :=
  if in_length =? 16 then
    Some (encode_3byte_block inp ++
          encode_3byte_block (drop 3 inp) ++
          encode_3byte_block (drop 6 inp) ++
          encode_3byte_block (drop 9 inp) ++
          encode_3byte_block (drop 12 inp) ++
          encode_1byte_block (drop 15 inp) ++ [NUL])
  else if in_length =? 8 then
    Some (encode_3byte_block inp ++
          encode_3byte_block (drop 3 inp) ++
          encode_2byte_block (drop 6 inp) ++ [NUL])
  else None.

Definition in_range (lo hi c : ascii) : bool :=
  (byte_of lo <=? byte_of c) && (byte_of c <=? byte_of hi).

(** The character test of the loop of [valid_ascii]. *)
Definition valid_char (c : ascii) : bool :=
  in_range "A" "Z" c || in_range "a" "z" c || in_range "0" "9" c ||
  bool_decide (c = "+"%char) || bool_decide (c = "^"%char).

(** [valid_ascii(str, length)] on a buffer [str]: the first [length] characters
    are in the alphabet and the next one is NUL. *)
Fixpoint valid_ascii (str : cstr) (len : nat) : bool :=
  match len with
  | O => bool_decide (char_at str 0 = NUL)
  | S n => if valid_char (char_at str 0) then valid_ascii (tail str) n else false
  end.

(** * The digits behind the characters *)

(** Base-64 digits of a block. *)
Definition digits3 (inp : list Z) : list Z :=
  let v := in_byte inp 0 * 65536 + in_byte inp 1 * 256 + in_byte inp 2 in
  [v / 262144; v / 4096 mod 64; v / 64 mod 64; v mod 64].
Definition digits2 (inp : list Z) : list Z :=
  let v := in_byte inp 0 * 256 + in_byte inp 1 in
  [v / 1024; v / 16 mod 64; v * 4 mod 64].
Definition digits1 (inp : list Z) : list Z :=
  let v := in_byte inp 0 in [v / 4; v * 16 mod 64].

Definition bytes (inp : list Z) : Prop := digits_below 256 inp.

Lemma in_byte_range inp i : bytes inp -> 0 <= in_byte inp i < 256.
Proof.
  intros H. unfold in_byte. destruct (decide (i < length inp)%nat) as [Hi|Hi].
  - unfold bytes, digits_below in H. rewrite List.Forall_forall in H.
    apply H, nth_In; done.
  - rewrite nth_overflow; lia.
Qed.

Lemma bytes_drop n inp : bytes inp -> bytes (drop n inp).
Proof. intros H. by apply Forall_drop. Qed.
#[local] Hint Resolve bytes_drop in_byte_range : fb.

Lemma lor_shift a b n : 0 <= n -> 0 <= b < 2 ^ n -> Z.lor (Z.shiftl a n) b = a * 2 ^ n + b.
Proof.
  intros Hn Hb. rewrite Z.shiftl_mul_pow2 by lia.
  symmetry. rewrite <- Z.add_lor_land.
  replace (Z.land (a * 2 ^ n) b) with 0; [by rewrite Z.add_0_r|].
  symmetry. apply Z.bits_inj'. intros k Hk. rewrite Z.land_spec, Z.bits_0.
  destruct (Z.lt_ge_cases k n).
  - rewrite <- Z.shiftl_mul_pow2 by lia. rewrite Z.shiftl_spec_low by lia. done.
  - destruct (decide (b = 0)) as [->|]; [by rewrite Z.bits_0, andb_false_r|].
    rewrite (Z.bits_above_log2 b k); [by rewrite andb_false_r|lia|].
    apply Z.log2_lt_pow2; [lia|]. apply Z.lt_le_trans with (2 ^ n); [lia|].
    apply Z.pow_le_mono_r; lia.
Qed.

Lemma land63 a : Z.land a 63 = a mod 64.
Proof. exact (Z.land_ones a 6 ltac:(lia)). Qed.

Ltac arith_shift :=
  rewrite ?land63, ?Z.shiftr_div_pow2, ?Z.shiftl_mul_pow2 by lia.

Lemma encode_3byte_digits inp :
  bytes inp -> encode_3byte_block inp = enc <$> digits3 inp.
Proof.
  intros H. unfold encode_3byte_block, digits3.
  pose proof (in_byte_range _ 0 H). pose proof (in_byte_range _ 1 H).
  pose proof (in_byte_range _ 2 H).
  rewrite (Z.shiftl_mul_pow2 (in_byte inp 1)) by lia.
  rewrite (lor_shift (in_byte inp 0)) by lia.
  replace (in_byte inp 0 * 2 ^ 16 + in_byte inp 1 * 2 ^ 8)
    with (Z.shiftl (in_byte inp 0 * 2 ^ 8 + in_byte inp 1) 8)
    by (rewrite Z.shiftl_mul_pow2 by lia; lia).
  rewrite lor_shift by lia. unfold u32. rewrite Z.mod_small by lia.
  arith_shift. simpl. repeat f_equal; lia.
Qed.

Lemma encode_2byte_digits inp :
  bytes inp -> encode_2byte_block inp = enc <$> digits2 inp.
Proof.
  intros H. unfold encode_2byte_block, digits2.
  pose proof (in_byte_range _ 0 H). pose proof (in_byte_range _ 1 H).
  rewrite lor_shift by lia. unfold u16. rewrite Z.mod_small by lia.
  arith_shift. change (2 ^ 10) with 1024. change (2 ^ 8) with 256.
  rewrite (Z.mod_small (_ / 1024)) by dlia. done.
Qed.

Lemma encode_1byte_digits inp :
  bytes inp -> encode_1byte_block inp = enc <$> digits1 inp.
Proof.
  intros H. unfold encode_1byte_block, digits1.
  pose proof (in_byte_range _ 0 H). arith_shift. simpl. repeat f_equal; lia.
Qed.

Lemma digits3_below inp : bytes inp -> digits_below 64 (digits3 inp).
Proof.
  intros H. pose proof (in_byte_range _ 0 H). pose proof (in_byte_range _ 1 H).
  pose proof (in_byte_range _ 2 H).
  unfold digits3. repeat apply List.Forall_cons; try apply List.Forall_nil; dlia.
Qed.

Lemma digits2_below inp : bytes inp -> digits_below 64 (digits2 inp).
Proof.
  intros H. pose proof (in_byte_range _ 0 H). pose proof (in_byte_range _ 1 H).
  unfold digits2. repeat apply List.Forall_cons; try apply List.Forall_nil; dlia.
Qed.

Lemma digits1_below inp : bytes inp -> digits_below 64 (digits1 inp).
Proof.
  intros H. pose proof (in_byte_range _ 0 H).
  unfold digits1. repeat apply List.Forall_cons; try apply List.Forall_nil; dlia.
Qed.

Lemma digits_below_app b l k :
  digits_below b l -> digits_below b k -> digits_below b (l ++ k).
Proof. intros. by apply Forall_app_2. Qed.
#[local] Hint Resolve digits3_below digits2_below digits1_below digits_below_app : fb.

(** All base-64 digits of an 8- or 16-byte input. *)
Definition digits8 (inp : list Z) : list Z :=
  digits3 inp ++ digits3 (drop 3 inp) ++ digits2 (drop 6 inp).
Definition digits16 (inp : list Z) : list Z :=
  digits3 inp ++ digits3 (drop 3 inp) ++ digits3 (drop 6 inp) ++
  digits3 (drop 9 inp) ++ digits3 (drop 12 inp) ++ digits1 (drop 15 inp).

Lemma encode8_digits inp :
  bytes inp -> encode inp 8 = Some ((enc <$> digits8 inp) ++ [NUL]).
Proof.
  intros H. unfold encode, digits8. rewrite Z.eqb_refl.
  change (8 =? 16) with false. cbv iota.
  rewrite !encode_3byte_digits, encode_2byte_digits by auto with fb.
  by rewrite !fmap_app, <- !app_assoc.
Qed.

Lemma encode16_digits inp :
  bytes inp -> encode inp 16 = Some ((enc <$> digits16 inp) ++ [NUL]).
Proof.
  intros H. unfold encode, digits16. rewrite Z.eqb_refl.
  rewrite !encode_3byte_digits, encode_1byte_digits by auto with fb.
  by rewrite !fmap_app, <- !app_assoc.
Qed.

Lemma digits8_below inp : bytes inp -> digits_below 64 (digits8 inp).
Proof. intros. unfold digits8. auto 10 with fb. Qed.
Lemma digits16_below inp : bytes inp -> digits_below 64 (digits16 inp).
Proof. intros. unfold digits16. auto 15 with fb. Qed.

(** The digits denote the number the bytes denote, shifted to a whole number of
    base-64 digits. *)
Ltac expose_bytes H :=
  repeat match type of H with
  | bytes (_ :: _) =>
      let H1 := fresh "Hb" in apply Forall_cons in H as [H1 H]
  end.

Lemma digits8_value inp :
  bytes inp -> length inp = 8%nat ->
  digits_value 64 0 (digits8 inp) = 4 * digits_value 256 0 inp.
Proof.
  intros H Hl. do 8 (destruct inp as [|? inp]; [done|]). destruct inp; [|done].
  expose_bytes H. unfold digits8, digits3, digits2, in_byte. simpl. dlia.
Qed.

Lemma digits16_value inp :
  bytes inp -> length inp = 16%nat ->
  digits_value 64 0 (digits16 inp) = 16 * digits_value 256 0 inp.
Proof.
  intros H Hl. do 16 (destruct inp as [|? inp]; [done|]). destruct inp; [|done].
  expose_bytes H. unfold digits16, digits3, digits1, in_byte. simpl. dlia.
Qed.

(** [kEncodeMap] is in ASCII order, checked on all 64 entries. *)
Definition zseq (n : nat) : list Z := Z.of_nat <$> seq 0 n.

Lemma elem_of_zseq n d : 0 <= d < Z.of_nat n -> In d (zseq n).
Proof.
  intros H. unfold zseq. apply in_map_iff. exists (Z.to_nat d).
  split; [lia|]. apply in_seq. lia.
Qed.

Lemma enc_compare d e :
  0 <= d < 64 -> 0 <= e < 64 -> Z.compare (byte_of (enc d)) (byte_of (enc e)) = Z.compare d e.
Proof.
  intros Hd He.
  assert (forallb (fun d => forallb (fun e =>
            bool_decide (Z.compare (byte_of (enc d)) (byte_of (enc e)) = Z.compare d e))
            (zseq 64)) (zseq 64) = true) as Hall by (vm_compute; reflexivity).
  rewrite forallb_forall in Hall.
  specialize (Hall d (elem_of_zseq 64 d Hd)). rewrite forallb_forall in Hall.
  exact (bool_decide_eq_true_1 _ (Hall e (elem_of_zseq 64 e He))).
Qed.

Lemma enc_valid d : 0 <= d < 64 -> valid_char (enc d) = true.
Proof.
  intros Hd.
  assert (forallb (fun d => valid_char (enc d)) (zseq 64) = true) as Hall
    by (vm_compute; reflexivity).
  rewrite forallb_forall in Hall. exact (Hall d (elem_of_zseq 64 d Hd)).
Qed.

Lemma memcmp_enc ds es :
  digits_below 64 ds -> digits_below 64 es ->
  memcmp (enc <$> ds) (enc <$> es) = lex_compare ds es.
Proof.
  intros Hd. revert es. induction Hd as [|d ds Hd Hds IH]; intros es He.
  - by destruct es.
  - destruct es as [|e es]; [done|]. apply Forall_cons in He as [He Hes].
    cbn [fmap list_fmap memcmp lex_compare]. rewrite (enc_compare d e Hd He). destruct (d ?= e); auto.
Qed.

Lemma valid_ascii_enc ds :
  digits_below 64 ds -> valid_ascii ((enc <$> ds) ++ [NUL]) (length ds) = true.
Proof.
  induction 1 as [|d ds Hd Hds IH]; [done|]. cbn [fmap list_fmap length app].
  cbn [valid_ascii]. unfold char_at at 1. cbn [nth tail]. by rewrite enc_valid.
Qed.

(** The ASCII forms of two 8-byte inputs sort like the inputs. *)
Lemma encode8_order a b :
  bytes a -> bytes b -> length a = 8%nat -> length b = 8%nat ->
  memcmp (enc <$> digits8 a) (enc <$> digits8 b) =
  Z.compare (digits_value 256 0 a) (digits_value 256 0 b).
Proof.
  intros Ha Hb La Lb. rewrite memcmp_enc by auto using digits8_below.
  rewrite (lex_compare_value 64 ltac:(lia) _ _ 0) by auto using digits8_below.
  rewrite !digits8_value by done.
  destruct (Z.compare_spec (digits_value 256 0 a) (digits_value 256 0 b)) as [->|?|?].
  - apply Z.compare_refl.
  - apply Z.compare_lt_iff. lia.
  - apply Z.compare_gt_iff. lia.
Qed.

Lemma encode16_order a b :
  bytes a -> bytes b -> length a = 16%nat -> length b = 16%nat ->
  memcmp (enc <$> digits16 a) (enc <$> digits16 b) =
  Z.compare (digits_value 256 0 a) (digits_value 256 0 b).
Proof.
  intros Ha Hb La Lb. rewrite memcmp_enc by auto using digits16_below.
  rewrite (lex_compare_value 64 ltac:(lia) _ _ 0) by auto using digits16_below.
  rewrite !digits16_value by done.
  destruct (Z.compare_spec (digits_value 256 0 a) (digits_value 256 0 b)) as [->|?|?].
  - apply Z.compare_refl.
  - apply Z.compare_lt_iff. lia.
  - apply Z.compare_gt_iff. lia.
Qed.

End Base64.

(** * Subkeys (subkey.h) *)
Module Subkey.
Import Base64.

Definition kAsciiLength : nat := 11.

(** Bytes of [htobe64(key)] as they lie in memory: most significant first. *)
Definition be64 (key : Z) : list Z :=
  [key / 2 ^ 56 mod 256; key / 2 ^ 48 mod 256; key / 2 ^ 40 mod 256; key / 2 ^ 32 mod 256;
   key / 2 ^ 24 mod 256; key / 2 ^ 16 mod 256; key / 2 ^ 8 mod 256; key mod 256].

(** [explicit Subkey(uint64_t key)] and [Subkey(const unsigned char digest[8])]:
    the twelve characters of [str_]. *)
Definition of_digest (digest : list Z) : option cstr := encode digest 8.
Definition of_key (key : Z) : option cstr := of_digest (be64 key).

(** The [Subkey] constructor from a C string [str]: copies [kAsciiLength + 1] characters and
    forces the last one to NUL. *)
Definition of_str (str : cstr) : cstr :=
  <[kAsciiLength := NUL]> (char_at str <$> seq 0 (kAsciiLength + 1)).

(** [operator<]. *)
Definition less (a b : cstr) : bool :=
  match memcmp (take kAsciiLength a) (take kAsciiLength b) with Lt => true | _ => false end.

Definition valid (str : cstr) : bool := valid_ascii str kAsciiLength.

Lemma be64_bytes key : bytes (be64 key).
Proof.
  unfold be64, bytes. repeat apply List.Forall_cons; try apply List.Forall_nil; dlia.
Qed.

Lemma be64_value key : 0 <= key < 2 ^ 64 -> digits_value 256 0 (be64 key) = key.
Proof. intros H. unfold be64. cbn [digits_value]. dlia. Qed.

Lemma of_key_digits key :
  of_key key = Some ((enc <$> digits8 (be64 key)) ++ [NUL]).
Proof. apply encode8_digits, be64_bytes. Qed.

Lemma take_key key :
  take kAsciiLength ((enc <$> digits8 (be64 key)) ++ [NUL]) = enc <$> digits8 (be64 key).
Proof. rewrite take_app_le by done. by apply take_ge. Qed.

Lemma of_key_compare a b :
  0 <= a < 2 ^ 64 -> 0 <= b < 2 ^ 64 ->
  memcmp (enc <$> digits8 (be64 a)) (enc <$> digits8 (be64 b)) = Z.compare a b.
Proof. intros Ha Hb. rewrite encode8_order by auto using be64_bytes. by rewrite !be64_value. Qed.

(** Subkeys sort like the 64-bit numbers they encode: [operator<] on the
    ASCII forms of two keys is [<] on the keys, so that iterating over subkeys
    in ASCII order visits the entries in key order. *)
Theorem subkey_order_preserving a b sa sb :
  0 <= a < 2 ^ 64 -> 0 <= b < 2 ^ 64 ->
  of_key a = Some sa -> of_key b = Some sb ->
  less sa sb = (a <? b).
Proof.
  intros Ha Hb Ea Eb. rewrite of_key_digits in Ea, Eb.
  apply (inj Some) in Ea, Eb. subst sa sb. unfold less. by rewrite !take_key, of_key_compare.
Qed.

Lemma subkey_order_preserving_witness :
  exists sa sb, of_key 5 = Some sa /\ of_key 70000 = Some sb /\ less sa sb = (5 <? 70000).
Proof.
  do 2 eexists. split; [reflexivity|]. split; [reflexivity|].
  apply (subkey_order_preserving 5 70000); [lia|lia|reflexivity|reflexivity].
Defined.

(** Encoding a 64-bit key never aborts, and yields eleven characters of the
    base64 alphabet followed by the terminator, i.e. a string that
    [Subkey::valid_ascii] accepts and that the constructor from a C string copies
    unchanged. *)
Theorem subkey_valid_ascii key :
  exists s, of_key key = Some s /\ length s = S kAsciiLength /\
            valid s = true /\ of_str s = s.
Proof.
  eexists. split; [apply of_key_digits|]. split; [done|]. split; [|done].
  unfold valid. apply (valid_ascii_enc (digits8 (be64 key))), digits8_below, be64_bytes.
Qed.

End Subkey.

(** * ASCII hashes (hash.h, hash.cc, ascii_hash.h) *)
Module Hash.
Import Base64.

Definition kAsciiLength : nat := 22.

(** A hash is an [XXH128_hash_t]: its two 64-bit halves. *)
Record t := mk { high64 : Z; low64 : Z }.

#[global] Instance t_eq_dec : EqDecision t.
Proof. solve_decision. Defined.

(** The halves are 64-bit unsigned integers. *)
Definition wf (h : t) : Prop := 0 <= high64 h < 2 ^ 64 /\ 0 <= low64 h < 2 ^ 64.

(** [Hash()]. *)
Definition zero : t := mk 0 0.

(** [operator==]. *)
Definition eqb (a b : t) : bool := (high64 a =? high64 b) && (low64 a =? low64 b).

Definition valid_ascii (str : cstr) : bool := Base64.valid_ascii str kAsciiLength.

(** [AsciiHash::operator==]: [memcmp] on the first [kAsciiLength] characters. *)
Definition ascii_eqb (a b : cstr) : bool :=
  match memcmp (take kAsciiLength a) (take kAsciiLength b) with Eq => true | _ => false end.

(** The [AsciiHash] constructor from a C string. *)
Definition ascii_of_str (str : cstr) : cstr := char_at str <$> seq 0 (kAsciiLength + 1).

Section ToAscii.
(** [XXH128_canonicalFromHash] of the xxHash library: the 16 bytes of the
    canonical representation of a hash. *)
Context (canonicalFromHash : t -> list Z).

(** [Hash::to_ascii(char *out)]. *)
Definition to_ascii (h : t) : option cstr :=
  out ← encode (canonicalFromHash h) 16;
  Some (<[kAsciiLength := NUL]> out).

(** Documented behaviour of the library: the canonical form is 16 bytes and
    determines the hash. *)
Context (canonical_length : forall h, length (canonicalFromHash h) = 16%nat)
        (canonical_bytes : forall h, bytes (canonicalFromHash h))
        (canonical_inj : forall h k, wf h -> wf k ->
                          canonicalFromHash h = canonicalFromHash k -> h = k).

Lemma to_ascii_digits h :
  to_ascii h = Some ((enc <$> digits16 (canonicalFromHash h)) ++ [NUL]).
Proof. unfold to_ascii. by rewrite encode16_digits by auto. Qed.

Lemma digits_value_inj a b :
  bytes a -> bytes b -> length a = length b ->
  digits_value 256 0 a = digits_value 256 0 b -> a = b.
Proof.
  intros Ha Hb Hl Hv.
  pose proof (lex_compare_value 256 ltac:(lia) a b 0 Hl Ha Hb) as E.
  rewrite Hv, Z.compare_refl in E. clear -E.
  revert b E. induction a as [|x a IH]; intros [|y b] E; try done.
  simpl in E. destruct (Z.compare_spec x y) as [->|?|?]; try done.
  f_equal. by apply IH.
Qed.

(** The ASCII form determines the hash. *)
Lemma to_ascii_inj h k : wf h -> wf k -> to_ascii h = to_ascii k -> h = k.
Proof.
  intros Wh Wk E. rewrite !to_ascii_digits in E. apply (inj Some) in E.
  apply app_inv_tail in E. apply canonical_inj; [done..|]. apply digits_value_inj; auto.
  { by rewrite !canonical_length. }
  apply Z.compare_eq_iff. rewrite <- encode16_order by auto. rewrite E. apply memcmp_refl.
Qed.

(** The ASCII form of a hash is 22 characters of the alphabet and a
    terminator, and identifies the hash: two hashes have the same ASCII form
    (as compared by [AsciiHash::operator==]) exactly when they are equal, so
    that cache file names never confuse two blobs. *)
Theorem hash_ascii_injective h k :
  wf h -> wf k -> exists sh sk, to_ascii h = Some sh /\ to_ascii k = Some sk /\
    length sh = S kAsciiLength /\ valid_ascii sh = true /\
    ascii_eqb sh sk = eqb h k.
Proof.
  intros Wh Wk. do 2 eexists. splits; [apply to_ascii_digits|apply to_ascii_digits|done| |].
  - apply (valid_ascii_enc (digits16 _)), digits16_below; auto.
  - unfold ascii_eqb. rewrite !take_app_le, !take_ge by done.
    rewrite encode16_order by auto.
    destruct (Z.compare_spec (digits_value 256 0 (canonicalFromHash h))
                             (digits_value 256 0 (canonicalFromHash k))) as [E|E|E].
    + apply digits_value_inj in E; [|auto|auto|by rewrite !canonical_length].
      apply canonical_inj in E as ->; [|done..]. unfold eqb. by rewrite !Z.eqb_refl.
    + symmetry. apply not_true_is_false. intros [E1 E2]%andb_true_iff.
      apply Z.eqb_eq in E1, E2. destruct h, k; simpl in *; subst. lia.
    + symmetry. apply not_true_is_false. intros [E1 E2]%andb_true_iff.
      apply Z.eqb_eq in E1, E2. destruct h, k; simpl in *; subst. lia.
Qed.
End ToAscii.

(** The big-endian canonical form, as the library documents it. *)
Definition canonical_be (h : t) : list Z := Subkey.be64 (high64 h) ++ Subkey.be64 (low64 h).

Lemma canonical_be_inj h k : wf h -> wf k -> canonical_be h = canonical_be k -> h = k.
Proof.
  intros [Hh Hl] [Kh Kl] E. apply app_inj_1 in E as [E1 E2]; [|done].
  destruct h, k; simpl in *. f_equal.
  - by rewrite <- (Subkey.be64_value high65), E1, Subkey.be64_value.
  - by rewrite <- (Subkey.be64_value low65), E2, Subkey.be64_value.
Qed.

Lemma hash_ascii_injective_witness :
  exists sh sk, to_ascii canonical_be (mk 7 9) = Some sh /\
    to_ascii canonical_be (mk 7 10) = Some sk /\
    length sh = S kAsciiLength /\ valid_ascii sh = true /\
    ascii_eqb sh sk = eqb (mk 7 9) (mk 7 10).
Proof.
  apply (hash_ascii_injective canonical_be).
  - reflexivity.
  - intros h. apply Forall_app_2; apply Subkey.be64_bytes.
  - apply canonical_be_inj.
  - split; simpl; lia.
  - split; simpl; lia.
Defined.

End Hash.
