(* ===== verification/Paths.v ===== *)
(** Path handling of src/common/firebuild_common.c: canonical form of path
    names and membership in a sorted array of locations.  A path is a C string,
    i.e. a NUL-free list of characters. *)

From stdpp Require Import base list strings sorting.
From Stdlib Require Import ZArith Lia Ascii.
From S2P Require Import Prelude.

Module Paths.

(** [path_is_absolute] (src/common/platform.h). *)
Definition path_is_absolute (p : cstr) : bool := bool_decide (char_at p 0 = slash).

Fixpoint is_prefix (n s : cstr) : bool :=
  match n, s with
  | [], _ => true
  | x :: n', y :: s' => bool_decide (x = y) && is_prefix n' s'
  | _ :: _, [] => false
  end.

(** [strstr(s, needle)]: offset of the first occurrence. *)
Fixpoint strstr (s needle : cstr) : option nat :=
  if is_prefix needle s then Some O
  else match s with
       | [] => None
       | _ :: s' => S <$> strstr s' needle
       end.

(** [is_canonical(path, length)]. *)
Definition is_canonical (path : cstr) : bool :=
  if bool_decide (char_at path 0 = NUL) then true
  else
    let length := length path in
    if (bool_decide (char_at path 0 = dot) && bool_decide (char_at path 1 = slash))
       || ((2 <=? length)%nat && bool_decide (char_at path (length - 1) = slash))
       || ((2 <=? length)%nat && bool_decide (char_at path (length - 2) = slash)
                              && bool_decide (char_at path (length - 1) = dot))
       || bool_decide (is_Some (strstr path (cs "//")))
       || bool_decide (is_Some (strstr path (cs "/./")))
    then false else true.

(** [while (src[0] == '/' || (src[0] == '.' && (src[1] == '/' || src[1] == '\0')))
    src++;] *)
Fixpoint skip_run (src : cstr) : cstr :=
  match src with
  | [] => []
  | c :: src' =>
      if bool_decide (c = slash)
         || (bool_decide (c = dot) &&
             (bool_decide (char_at src' 0 = slash) || bool_decide (char_at src' 0 = NUL)))
      then skip_run src' else src
  end.

(** [while (src[0] != '/' && src[0] != '\0') *dst++ = *src++;]: the copied
    characters and the remaining input. *)
Fixpoint take_component (src : cstr) : cstr * cstr :=
  match src with
  | [] => ([], [])
  | c :: src' =>
      if bool_decide (c = slash) then ([], src)
      else let '(comp, rest) := take_component src' in (c :: comp, rest)
  end.

(** The outer loop of [make_canonical].  The buffer is rewritten in place with
    [dst <= src], so the characters still to be read are never overwritten: the
    loop is a function of the unread suffix [src] and the written prefix [dst].
    Each round consumes at least one character, hence [fuel = length src] is
    enough ([canon_loop_fuel]). *)
Fixpoint canon_loop (fuel : nat) (src dst : cstr) (add_slash : bool) : cstr :=
  match fuel, src with
  | _, [] => dst
  | O, _ => dst
  | S fuel', _ =>
      let '(src1, dst1) :=
        if bool_decide (char_at src 0 = slash)
        then (skip_run src, if add_slash then dst ++ [slash] else dst)
        else (src, dst) in
      let '(comp, src2) := take_component src1 in
      canon_loop fuel' src2 (dst1 ++ comp) true
  end.

(** The tail of [make_canonical]: an empty result becomes ".", a trailing slash
    is stripped unless it is the whole path. *)
Definition canon_finish (dst : cstr) : cstr :=
  let dst := if decide (dst = []) then [dot] else dst in
  if (1 <? length dst)%nat && bool_decide (char_at dst (length dst - 1) = slash)
  then take (length dst - 1) dst else dst.

(** The quick code path: only a trailing "/" or "/." may need fixing. *)
Definition canon_quick (path : cstr) : cstr :=
  let len := length path in
  let len := if (2 <=? len)%nat && bool_decide (char_at path (len - 1) = dot)
                && bool_decide (char_at path (len - 2) = slash)
             then len - 1 else len in
  let len := if (2 <=? len)%nat && bool_decide (char_at path (len - 1) = slash)
             then len - 1 else len in
  take len path.

(** [make_canonical(path, original_length)]: the resulting string. *)
Definition make_canonical (path : cstr) : cstr :=
  if bool_decide (char_at path 0 = NUL) then []
  else if negb (bool_decide (char_at path 0 = dot) && bool_decide (char_at path 1 = slash)) then
    let a := strstr path (cs "//") in
    let b := strstr path (cs "/./") in
    match a, b with
    | None, None => canon_quick path
    | _, _ =>
        let k := match a, b with
                 | Some a, Some b => if (a <? b)%nat then a else b
                 | Some a, None => a
                 | None, Some b => b
                 | None, None => O
                 end in
        canon_finish (canon_loop (length path) (drop k path) (take k path) true)
    end
  else canon_finish (canon_loop (length path) (drop 1 path) [] false).

(** [while (location_len > 0 && location[location_len - 1] == '/') location_len--;] *)
Fixpoint rstrip_len (location : cstr) (location_len : nat) : nat :=
  match location_len with
  | O => O
  | S n => if bool_decide (char_at location n = slash) then rstrip_len location n
           else location_len
  end.

(** [is_path_at_locations(path, len, location_array)]. *)
Fixpoint is_path_at_locations (path : cstr) (location_array : list cstr) : bool :=
  match location_array with
  | [] => false
  | location :: rest =>
      let path_len := length path in
      let location_len := rstrip_len location (length location) in
      if (path_len <? location_len)%nat then is_path_at_locations path rest
      else if negb (bool_decide (char_at path location_len = slash))
              && (location_len <? path_len)%nat
      then is_path_at_locations path rest
      else match memcmp (take location_len location) (take location_len path) with
           | Lt => is_path_at_locations path rest
           | Gt => false
           | Eq => if (path_len =? location_len)%nat then true
                   else if bool_decide (char_at path location_len = slash) then true
                   else is_path_at_locations path rest
           end
  end.

(** [is_in_sorted_cstring_view_array(str, len, array)]. *)
Fixpoint is_in_sorted_cstring_view_array (str : cstr) (array : list cstr) : bool :=
  match array with
  | [] => false
  | entry :: rest =>
      if negb (length str =? length entry)%nat then is_in_sorted_cstring_view_array str rest
      else match memcmp entry str with
           | Lt => is_in_sorted_cstring_view_array str rest
           | Eq => true
           | Gt => false
           end
  end.

(** The unit tests next to [make_canonical] in the source. *)
Example make_canonical_tests :
  Forall (fun ab => make_canonical (cs (fst ab)) = cs (snd ab))
   [("/", "/"); ("/etc/hosts", "/etc/hosts"); ("/usr/bin/", "/usr/bin");
    ("/usr/bin/.", "/usr/bin"); ("/usr/./bin", "/usr/bin"); ("/./usr/bin", "/usr/bin");
    ("//", "/"); ("", ""); (".", "."); ("/.", "/"); ("./", "."); ("/./././", "/");
    ("./././.", "."); ("//foo//bar//", "/foo/bar");
    ("/././foo/././bar/././", "/foo/bar");
    ("///.//././/.///foo//.//bar//.", "/foo/bar"); ("////foo/../bar", "/foo/../bar");
    ("/foo/bar/../../../../../", "/foo/bar/../../../../..");
    ("/.foo/.bar/..quux", "/.foo/.bar/..quux"); ("foo", "foo"); ("foo/bar", "foo/bar");
    ("././foo/./bar/./.", "foo/bar")]%string.
Proof. repeat constructor. Qed.

(** * Reference definition: components *)

(** The components of a path: [split] at every slash. *)
Fixpoint split (s : cstr) : list cstr :=
  match s with
  | [] => [[]]
  | c :: s' =>
      if bool_decide (c = slash) then [] :: split s'
      else match split s' with
           | [] => [[c]]
           | h :: t => (c :: h) :: t
           end
  end.

(** A component that denotes a directory entry: neither empty nor ".". *)
Definition good (c : cstr) : bool := negb (bool_decide (c = []) || bool_decide (c = [dot])).

Definition comps (s : cstr) : list cstr := List.filter good (split s).

(** Every component preceded by a slash. *)
Definition render_tail (l : list cstr) : cstr := flat_map (fun c => slash :: c) l.

(** The canonical spelling of a path with the given components. *)
Definition render (absolute : bool) (l : list cstr) : cstr :=
  match l with
  | [] => if absolute then [slash] else [dot]
  | c :: l' => (if absolute then [slash] else []) ++ c ++ render_tail l'
  end.

(** Reference: keep the entries of the path and whether it is absolute. *)
Definition canonical_ref (path : cstr) : cstr :=
  if decide (path = []) then [] else render (path_is_absolute path) (comps path).

(** * Lemmas on [split] and [comps] *)

Lemma split_cons_exists s : exists h t, split s = h :: t.
Proof.
  induction s as [|c s (h & t & E)]; simpl; [eauto|].
  rewrite E. case_bool_decide; eauto.
Qed.

Lemma split_app a b : split (a ++ slash :: b) = split a ++ split b.
Proof.
  induction a as [|c a IH]; [done|]. simpl. rewrite IH.
  destruct (split_cons_exists a) as (h & t & ->). by case_bool_decide.
Qed.

Lemma split_noslash c : slash ∉ c -> split c = [c].
Proof.
  induction c as [|x c IH]; [done|]. intros [Hx Hc]%not_elem_of_cons.
  simpl. rewrite IH by done. by rewrite bool_decide_eq_false_2.
Qed.

Lemma split_comp c r : slash ∉ c -> split (c ++ slash :: r) = c :: split r.
Proof. intros H. by rewrite split_app, split_noslash. Qed.

(** Joining the components with slashes gives the path back. *)
Lemma join_split s h t : split s = h :: t -> s = h ++ render_tail t.
Proof.
  revert h t. induction s as [|c s IH]; intros h t; simpl.
  - by intros [= <- <-].
  - destruct (split_cons_exists s) as (h' & t' & E). rewrite E. case_bool_decide.
    + intros [= <- <-]. simpl. subst c. f_equal. by apply IH.
    + intros [= <- <-]. simpl. f_equal. by apply IH.
Qed.

Lemma comps_app a b : comps (a ++ slash :: b) = comps a ++ comps b.
Proof. unfold comps. by rewrite split_app, List.filter_app. Qed.

Lemma comps_slash s : comps (slash :: s) = comps s.
Proof. exact (comps_app [] s). Qed.

Lemma comps_comp c r : slash ∉ c -> good c = true -> comps (c ++ slash :: r) = c :: comps r.
Proof. intros Hc Hg. unfold comps. rewrite split_comp by done. simpl. by rewrite Hg. Qed.

Lemma comps_single c : slash ∉ c -> good c = true -> comps c = [c].
Proof. intros Hc Hg. unfold comps. rewrite split_noslash by done. simpl. by rewrite Hg. Qed.

Lemma split_elem s c : c ∈ split s -> slash ∉ c.
Proof.
  revert c. induction s as [|x s IH]; simpl; intros c Hin.
  - apply list_elem_of_singleton in Hin as ->. apply not_elem_of_nil.
  - destruct (split_cons_exists s) as (h & t & E). rewrite E in *.
    case_bool_decide as Hx; apply elem_of_cons in Hin as [->|Hin].
    + apply not_elem_of_nil.
    + by apply IH.
    + apply not_elem_of_cons. split; [done|]. apply IH. by left.
    + apply IH. by right.
Qed.

Lemma comps_good s c : c ∈ comps s -> good c = true /\ (slash ∉ c).
Proof.
  unfold comps. rewrite list_elem_of_In, List.filter_In, <- list_elem_of_In.
  intros [Hin Hg]. split; [done|]. by eapply split_elem.
Qed.

(** * The loop *)

Lemma take_component_spec s c r :
  take_component s = (c, r) ->
  s = c ++ r /\ (slash ∉ c) /\ (r = [] \/ exists r', r = slash :: r').
Proof.
  revert c r. induction s as [|x s IH]; intros c r; simpl.
  - intros [= <- <-]. splits; [done|apply not_elem_of_nil|by left].
  - case_bool_decide as Hx.
    + intros [= <- <-]. subst x. splits; [done|apply not_elem_of_nil|eauto].
    + destruct (take_component s) as [c' r'] eqn:E. intros [= <- <-].
      destruct (IH c' r' eq_refl) as (-> & Hc & Hr). splits; [done| |done].
      by apply not_elem_of_cons.
Qed.

Lemma skip_run_cons c s :
  skip_run (c :: s) =
    if bool_decide (c = slash)
       || (bool_decide (c = dot) &&
           (bool_decide (char_at s 0 = slash) || bool_decide (char_at s 0 = NUL)))
    then skip_run s else c :: s.
Proof. done. Qed.

Lemma comps_skip_run s : NUL ∉ s -> comps (skip_run s) = comps s.
Proof.
  induction s as [|c s IH]; [done|]. intros [Hc Hs]%not_elem_of_cons.
  rewrite skip_run_cons.
  destruct (bool_decide (c = slash)) eqn:E1; cbn [orb].
  { apply bool_decide_eq_true in E1 as ->. by rewrite IH, comps_slash. }
  destruct (bool_decide (c = dot)) eqn:E2; cbn [andb]; [|done].
  apply bool_decide_eq_true in E2 as ->.
  destruct s as [|d s]; [done|]. unfold char_at; cbn [nth].
  apply not_elem_of_cons in Hs as [Hd Hs].
  rewrite (bool_decide_eq_false_2 (d = NUL)), orb_false_r by done.
  destruct (decide (d = slash)) as [->|Hd'];
    [rewrite bool_decide_eq_true_2 by done|by rewrite bool_decide_eq_false_2].
  rewrite IH by (by apply not_elem_of_cons).
  change (dot :: slash :: s) with ([dot] ++ slash :: s).
  rewrite comps_app, comps_slash. done.
Qed.

(** After a run was skipped, the next component is a directory entry. *)
Lemma skip_run_next s c r :
  NUL ∉ s -> take_component (skip_run s) = (c, r) -> skip_run s <> [] -> good c = true.
Proof.
  induction s as [|x s IH]; [done|]. intros [Hx Hs]%not_elem_of_cons.
  rewrite skip_run_cons.
  destruct (bool_decide (x = slash)) eqn:E1; cbn [orb]; [by apply IH|].
  destruct (bool_decide (x = dot) && _) eqn:E2; [by apply IH|].
  intros Ht _. simpl in Ht. rewrite E1 in Ht.
  destruct (take_component s) as [c' r'] eqn:Et. injection Ht as <- <-.
  apply take_component_spec in Et as (-> & Hc & Hr).
  unfold good. rewrite (bool_decide_eq_false_2 (x :: c' = [])) by done.
  cbn [orb]. apply negb_true_iff, bool_decide_eq_false_2. intros [= -> ->].
  destruct Hr as [->|[r'' ->]]; unfold char_at in E2; simpl in E2;
    rewrite ?bool_decide_eq_true_2 in E2; done.
Qed.

Lemma skip_run_suffix s : exists p, s = p ++ skip_run s.
Proof.
  induction s as [|c s [p IH]]; simpl; [by exists []|].
  case_match; [|by exists []]. exists (c :: p). simpl. by f_equal.
Qed.

Lemma NUL_app_inv a b : NUL ∉ a ++ b -> (NUL ∉ a) /\ (NUL ∉ b).
Proof. rewrite elem_of_app. tauto. Qed.

Lemma canon_loop_nil fuel dst add : canon_loop fuel [] dst add = dst.
Proof. by destruct fuel. Qed.

(** One round of the loop started at a slash. *)
Lemma canon_round fuel s dst add :
  NUL ∉ s -> exists c r,
    canon_loop (S fuel) (slash :: s) dst add =
      canon_loop fuel r ((if add then dst ++ [slash] else dst) ++ c) true /\
    (length r <= length s)%nat /\ (NUL ∉ r) /\ (r = [] \/ exists r', r = slash :: r') /\
    ((c = [] /\ r = [] /\ comps s = []) \/
     (good c = true /\ (slash ∉ c) /\ comps s = c :: comps r)).
Proof.
  intros Hs. cbn [canon_loop]. rewrite bool_decide_eq_true_2 by done.
  change (skip_run (slash :: s)) with (skip_run s).
  destruct (take_component (skip_run s)) as [c r] eqn:Et. exists c, r.
  split; [done|]. pose proof (take_component_spec _ _ _ Et) as (Es & Hc & Hr).
  destruct (skip_run_suffix s) as [p Ep]. rewrite Es in Ep.
  assert (NUL ∉ r) as Hnr.
  { rewrite Ep in Hs. by apply NUL_app_inv in Hs as [_ [_ ?]%NUL_app_inv]. }
  splits; [rewrite Ep, !length_app; lia|done|done|].
  rewrite <- (comps_skip_run s) by done.
  destruct (decide (skip_run s = [])) as [E|E].
  - left. rewrite E in *. symmetry in Es. by apply app_eq_nil in Es as [-> ->].
  - right. pose proof (skip_run_next s c r Hs Et E) as Hg. splits; [done..|].
    rewrite Es. destruct Hr as [->|[r' ->]].
    + rewrite app_nil_r. by apply comps_single.
    + by rewrite comps_comp, comps_slash.
Qed.

(** The loop appends every remaining directory entry after a slash, and possibly
    one trailing slash. *)
Lemma canon_loop_spec fuel s dst :
  NUL ∉ s -> (length s <= fuel)%nat -> (s = [] \/ exists s', s = slash :: s') ->
  exists t, canon_loop fuel s dst true = dst ++ render_tail (comps s) ++ t /\
    (t = [] \/ t = [slash]) /\ (s <> [] -> comps s = [] -> t = [slash]).
Proof.
  revert s dst. induction fuel as [|fuel IH]; intros s dst Hs Hf Hshape.
  - destruct s; [|simpl in Hf; lia]. exists []. simpl. rewrite app_nil_r. splits; [done|by left|done].
  - destruct Hshape as [->|[s' ->]]; [exists []; simpl; rewrite app_nil_r; splits; [done|by left|done]|].
    apply not_elem_of_cons in Hs as [_ Hs]. simpl in Hf.
    destruct (canon_round fuel s' dst true Hs) as (c & r & -> & Hl & Hn & Hr & Hcase).
    rewrite comps_slash. destruct Hcase as [(-> & -> & ->)|(Hg & Hc & Hcs)].
    + exists [slash]. rewrite canon_loop_nil, !app_nil_r. splits; [done|by right|done].
    + destruct (IH r ((dst ++ [slash]) ++ c) Hn ltac:(lia) Hr) as (t & -> & Ht & _).
      exists t. rewrite Hcs. simpl. rewrite <- !app_assoc. splits; done.
Qed.

(** The fuel given by [make_canonical] is enough: more does not change the
    result. *)
Lemma canon_loop_fuel fuel s dst add :
  NUL ∉ s -> (length s <= fuel)%nat -> (s = [] \/ exists s', s = slash :: s') ->
  canon_loop fuel s dst add = canon_loop (length s) s dst add.
Proof.
  remember (length s) as n eqn:En. assert (length s <= n)%nat as Hn by lia. clear En.
  revert fuel s dst add Hn. induction n as [|n IH]; intros fuel s dst add Hn Hs Hf Hshape.
  - destruct s; [by rewrite !canon_loop_nil|simpl in Hn; lia].
  - destruct Hshape as [->|[s' ->]]; [by rewrite !canon_loop_nil|].
    destruct fuel as [|fuel]; [lia|].
    apply not_elem_of_cons in Hs as [_ Hs]. simpl in Hn.
    cbn [canon_loop]. rewrite bool_decide_eq_true_2 by done.
    change (skip_run (slash :: s')) with (skip_run s').
    destruct (take_component (skip_run s')) as [c r] eqn:Et.
    pose proof (take_component_spec _ _ _ Et) as (Es & Hc & Hr).
    destruct (skip_run_suffix s') as [p Ep]. rewrite Es in Ep. rewrite Ep in Hs.
    apply NUL_app_inv in Hs as [_ [_ Hs]%NUL_app_inv].
    assert (length s' = length p + (length c + length r))%nat as El
      by (rewrite Ep at 1; by rewrite !length_app).
    apply IH; [lia|done|lia|done].
Qed.

(** * Occurrences of "//" and "/./" *)

Lemma strstr_none s n : strstr s n = None -> forall j, (j <= length s)%nat -> is_prefix n (drop j s) = false.
Proof.
  induction s as [|c s IH]; simpl; intros H j Hj.
  - rewrite drop_nil. by destruct (is_prefix n []).
  - destruct (is_prefix n (c :: s)) eqn:E; [done|].
    destruct (strstr s n) eqn:E2; [done|]. destruct j; [done|]. simpl. apply IH; auto; lia.
Qed.

Lemma strstr_some s n k :
  strstr s n = Some k ->
  is_prefix n (drop k s) = true /\ (k <= length s)%nat /\
  forall j, (j < k)%nat -> is_prefix n (drop j s) = false.
Proof.
  revert k. induction s as [|c s IH]; simpl; intros k H.
  - destruct (is_prefix n []) eqn:E; simplify_eq. splits; [done|simpl; lia|lia].
  - destruct (is_prefix n (c :: s)) eqn:E; simplify_eq.
    { splits; [done|lia|lia]. }
    destruct (strstr s n) as [k'|] eqn:E2; simplify_eq/=.
    destruct (IH k' eq_refl) as (H1 & H2 & H3). splits; [done|lia|].
    intros [|j] Hj; [done|]. simpl. apply H3. lia.
Qed.

(** No "//" and no "/./" starts inside [P], where [P] is followed by a slash. *)
Definition clean (P X : cstr) : Prop :=
  forall j, (j < length P)%nat ->
    is_prefix (cs "//") (drop j (P ++ slash :: X)) = false /\
    is_prefix (cs "/./") (drop j (P ++ slash :: X)) = false.

Lemma head_split_bad s h t :
  split s = h :: t -> good h = false ->
  s = [] \/ (exists s', s = slash :: s') \/ s = [dot] \/ exists s', s = dot :: slash :: s'.
Proof.
  intros E Hg. apply join_split in E. unfold good in Hg.
  apply negb_false_iff, orb_true_iff in Hg as [Hg|Hg]; apply bool_decide_eq_true in Hg as ->;
    destruct t as [|c t]; simpl in E; subst; eauto 6.
Qed.

(** In a path without "//" and "/./" every component but the first is a
    directory entry. *)
Lemma clean_split P X : clean P X -> Forall (fun c => good c = true) (tail (split P)).
Proof.
  induction P as [|c P IH]; intros Hc; [constructor|].
  assert (clean P X) as HcP.
  { intros j Hj. apply (Hc (S j)). simpl; lia. }
  destruct (split_cons_exists P) as (h & t & E). simpl. specialize (IH HcP).
  rewrite E in IH |- *. case_bool_decide as Hsl; simpl; [|done].
  constructor; [|done]. subst c.
  destruct (Hc 0) as [H1 H2]; [simpl; lia|]. simpl in H1, H2.
  apply not_false_iff_true. intros Hb.
  destruct (head_split_bad _ _ _ E Hb) as [->|[[s' ->]|[->|[s' ->]]]]; done.
Qed.

Lemma filter_all (l : list cstr) : Forall (fun c => good c = true) l -> List.filter good l = l.
Proof. induction 1; simpl; [done|]. rewrite H. by f_equal. Qed.

Lemma last_render_tail l x :
  l <> [] -> Forall (fun c => good c = true) l -> Forall (fun c => slash ∉ c) l ->
  last (x ++ render_tail l) <> Some slash.
Proof.
  intros Hne Hg Hs. destruct l as [|c l] using rev_ind; [done|]. clear IHl Hne.
  apply Forall_app in Hg as [_ Hg], Hs as [_ Hs].
  apply Forall_cons in Hg as [Hg _], Hs as [Hs _].
  unfold render_tail. rewrite flat_map_app. cbn [flat_map]. rewrite app_nil_r.
  destruct c as [|y c] using rev_ind; [done|]. clear IHc.
  replace (slash :: c ++ [y]) with ((slash :: c) ++ [y]) by done.
  rewrite !app_assoc, last_snoc. intros [= ->]. apply Hs.
  apply elem_of_app. right. by apply list_elem_of_singleton.
Qed.

(** A path that is already in canonical form up to a following slash: it is the
    rendering of its own entries and does not end in a slash. *)
Lemma clean_render P X :
  P <> [] -> P <> [dot] -> (forall s, P <> dot :: slash :: s) -> clean P X ->
  comps P <> [] /\ render (path_is_absolute P) (comps P) = P /\ last P <> Some slash.
Proof.
  intros Hne Hnd Hnds Hc. pose proof (clean_split P X Hc) as Hg.
  destruct (split_cons_exists P) as (h & t & E).
  pose proof (comps_good P) as Hcg. unfold comps in *. rewrite E in *. simpl in Hg.
  pose proof (join_split P h t E) as Ej. simpl.
  rewrite (filter_all t Hg) in *. destruct (good h) eqn:Hh.
  - assert (slash ∉ h) as Hsh by (apply Hcg; simpl; rewrite Hh, filter_all by done; by left).
    assert (Forall (fun c => slash ∉ c) t) as Hst.
    { apply List.Forall_forall. intros c Hin. apply Hcg. simpl. rewrite Hh, filter_all by done.
      right. by apply list_elem_of_In. }
    assert (path_is_absolute P = false) as ->.
    { unfold path_is_absolute. apply bool_decide_eq_false_2. rewrite Ej.
      destruct h as [|x h]; [done|]. unfold char_at. simpl. intros ->. apply Hsh. by left. }
    splits; [done|exact (eq_sym Ej)|].
    destruct t as [|c t].
    + rewrite Ej. simpl. rewrite app_nil_r. intros Hl. apply last_Some_elem_of in Hl. done.
    + rewrite Ej. apply last_render_tail; done.
  - assert (h = []) as ->.
    { destruct (head_split_bad _ _ _ E Hh) as [->|[[s' ->]|[->|[s' ->]]]].
      - by destruct Hne.
      - simpl in E. by injection E.
      - by destruct Hnd.
      - by destruct (Hnds s'). }
    assert (t <> []) as Ht by (intros ->; done).
    assert (Forall (fun c => slash ∉ c) t) as Hst.
    { apply List.Forall_forall. intros c Hin. apply Hcg. simpl. rewrite filter_all by done.
      by apply list_elem_of_In. }
    assert (path_is_absolute P = true) as ->.
    { unfold path_is_absolute. apply bool_decide_eq_true_2. rewrite Ej. by destruct t. }
    splits; [done| |].
    + destruct t as [|c t]; [done|]. exact (eq_sym Ej).
    + rewrite Ej. apply last_render_tail; done.
Qed.

(** * [make_canonical] computes the canonical spelling *)

Lemma last_char_at s : s <> [] -> last s = Some (char_at s (length s - 1)).
Proof.
  destruct s as [|x s] using rev_ind; [done|]. intros _.
  rewrite last_snoc, length_app. simpl. unfold char_at.
  rewrite Nat.add_sub, app_nth2, Nat.sub_diag by lia. done.
Qed.

(** The end of the loop strips the trailing slash and nothing else. *)
Lemma canon_finish_spec x t :
  x <> [] -> last x <> Some slash -> t = [] \/ t = [slash] -> canon_finish (x ++ t) = x.
Proof.
  intros Hne Hl Ht. unfold canon_finish.
  rewrite (decide_False (P := x ++ t = [])) by (by destruct x).
  assert (0 < length x)%nat by (destruct x; simpl; [done|lia]).
  destruct Ht as [-> | ->].
  - rewrite app_nil_r. rewrite last_char_at in Hl by done.
    rewrite bool_decide_eq_false_2, andb_false_r by congruence. done.
  - rewrite length_app. simpl. rewrite Nat.add_sub.
    unfold char_at. rewrite app_nth2, Nat.sub_diag by lia. simpl.
    destruct (Nat.ltb_spec 1 (length x + 1)); [|lia]. simpl.
    rewrite take_app_le by lia. apply take_ge. lia.
Qed.

Lemma render_not_slash absolute l :
  l <> [] -> Forall (fun c => good c = true) l -> Forall (fun c => slash ∉ c) l ->
  render absolute l <> [] /\ last (render absolute l) <> Some slash.
Proof.
  intros Hne Hg Hs. destruct l as [|c l]; [done|].
  pose proof (last_render_tail (c :: l) [] ltac:(done) Hg Hs) as H.
  change (last (slash :: render false (c :: l)) <> Some slash) in H.
  assert (render false (c :: l) <> []) as Hr.
  { apply Forall_cons in Hg as [Hg _]. destruct c; [done|]. done. }
  assert (last (render false (c :: l)) <> Some slash) as Hl.
  { destruct (render false (c :: l)); done. }
  destruct absolute; [|done]. split; [done|].
  change (render true (c :: l)) with (slash :: render false (c :: l)).
  by destruct (render false (c :: l)).
Qed.

Lemma comps_forall s :
  Forall (fun c => good c = true) (comps s) /\ Forall (fun c => slash ∉ c) (comps s).
Proof.
  split; apply List.Forall_forall; intros c Hc%list_elem_of_In; by apply (comps_good s).
Qed.

Lemma render_app absolute l k :
  l <> [] -> render absolute (l ++ k) = render absolute l ++ render_tail k.
Proof.
  destruct l as [|c l]; [done|]. intros _. simpl. unfold render_tail.
  rewrite flat_map_app. by rewrite !app_assoc.
Qed.

Lemma path_is_absolute_app a b : a <> [] -> path_is_absolute (a ++ b) = path_is_absolute a.
Proof. by destruct a. Qed.

(** The slow path, started at the first "//" or "/./". *)
Lemma slow_path P X fuel :
  NUL ∉ P ++ slash :: X -> (length (slash :: X) <= fuel)%nat ->
  P <> [dot] -> (forall s, P <> dot :: slash :: s) -> clean P X ->
  canon_finish (canon_loop fuel (slash :: X) P true) =
  render (path_is_absolute (P ++ slash :: X)) (comps (P ++ slash :: X)).
Proof.
  intros Hn Hf Hnd Hnds Hc. apply NUL_app_inv in Hn as [_ Hn].
  destruct (canon_loop_spec fuel (slash :: X) P Hn Hf) as (t & -> & Ht & Ht'); [eauto|].
  rewrite comps_app, comps_slash in *. rewrite app_assoc.
  destruct (decide (P = [])) as [->|Hne].
  - simpl app. change (comps []) with (@nil cstr).
    assert (path_is_absolute (slash :: X) = true) as -> by done.
    destruct (decide (comps X = [])) as [Ecs|Ecs].
    { rewrite (Ht' ltac:(done) Ecs), Ecs. done. }
    assert (render_tail (comps X) = render true (comps X)) as -> by (by destruct (comps X)).
    destruct (comps_forall X) as [Hg Hs].
    destruct (render_not_slash true _ Ecs Hg Hs). by apply canon_finish_spec.
  - destruct (clean_render P X Hne Hnd Hnds Hc) as (Hcne & Hr & Hl).
    rewrite path_is_absolute_app, render_app, Hr by done.
    apply canon_finish_spec; [by destruct P| |done].
    destruct (decide (comps X = [])) as [->|Ecs]; [simpl; by rewrite app_nil_r|].
    destruct (comps_forall X) as [Hg Hs]. by apply last_render_tail.
Qed.

Lemma strstr_cons_none c s n :
  strstr (c :: s) n = None -> is_prefix n (c :: s) = false /\ strstr s n = None.
Proof.
  simpl. destruct (is_prefix n (c :: s)); [done|]. by destruct (strstr s n).
Qed.

Lemma clean_end s :
  strstr s (cs "//") = None -> strstr s (cs "/./") = None ->
  last s <> Some slash -> (forall q, s <> q ++ [slash; dot]) -> clean s [].
Proof.
  induction s as [|c s IH]; [intros; intros j Hj; simpl in Hj; lia|].
  intros [Ha Ha']%strstr_cons_none [Hb Hb']%strstr_cons_none Hl Hq.
  assert (s <> [] -> clean s []) as Hcs.
  { intros Hne. apply IH; [done..| |].
    - by destruct s.
    - intros q ->. by apply (Hq (c :: q)). }
  intros [|j] Hj.
  - destruct s as [|d [|e s]].
    + simpl in Hl |- *. rewrite (bool_decide_eq_false_2 (slash = c)) by congruence. done.
    + simpl in Ha |- *. split; [done|].
      destruct (decide (slash = c)) as [<-|]; [|by rewrite bool_decide_eq_false_2].
      destruct (decide (dot = d)) as [<-|]; [by destruct (Hq [])|].
      rewrite (bool_decide_eq_false_2 (dot = d)) by done. by rewrite andb_false_r.
    + done.
  - destruct s; [simpl in Hj; lia|]. apply Hcs; [done|simpl in Hj |- *; lia].
Qed.

Lemma clean_prefix P X :
  strstr (P ++ slash :: X) (cs "//") = None -> strstr (P ++ slash :: X) (cs "/./") = None ->
  clean P X.
Proof.
  intros Ha Hb j Hj. split; apply strstr_none; auto; rewrite length_app; lia.
Qed.

Lemma comps_snoc_slash P : comps (P ++ [slash]) = comps P.
Proof. rewrite comps_app. change (comps []) with (@nil cstr). by rewrite app_nil_r. Qed.

Lemma comps_snoc_dot P : comps (P ++ [slash; dot]) = comps P.
Proof. rewrite comps_app. change (comps [dot]) with (@nil cstr). by rewrite app_nil_r. Qed.

Lemma char_at_app_r (a b : cstr) i : char_at (a ++ b) (length a + i) = char_at b i.
Proof. unfold char_at. rewrite app_nth2 by lia. f_equal. lia. Qed.

Lemma quick_dot P :
  P <> [] -> last P <> Some slash -> canon_quick (P ++ [slash; dot]) = P.
Proof.
  intros Hne Hl. assert (1 <= length P)%nat by (destruct P; simpl; [done|lia]).
  unfold canon_quick. rewrite length_app. simpl length.
  replace (length P + 2 - 1)%nat with (length P + 1)%nat by lia.
  replace (length P + 2 - 2)%nat with (length P + 0)%nat by lia.
  rewrite !char_at_app_r, (proj2 (Nat.leb_le 2 (length P + 2))) by lia.
  change (char_at [slash; dot] 1) with dot. change (char_at [slash; dot] 0) with slash.
  rewrite !bool_decide_eq_true_2 by done. cbn [andb].
  replace (length P + 1 - 1)%nat with (length P + 0)%nat by lia.
  rewrite char_at_app_r, (proj2 (Nat.leb_le 2 (length P + 1))) by lia.
  rewrite bool_decide_eq_true_2 by done. cbn [andb].
  rewrite take_app_le by lia. apply take_ge. lia.
Qed.

Lemma quick_slash P : P <> [] -> canon_quick (P ++ [slash]) = P.
Proof.
  intros Hne. assert (1 <= length P)%nat by (destruct P; simpl; [done|lia]).
  unfold canon_quick. rewrite length_app. simpl length.
  replace (length P + 1 - 1)%nat with (length P + 0)%nat by lia.
  rewrite char_at_app_r, (bool_decide_eq_false_2 (char_at [slash] 0 = dot)) by done.
  rewrite andb_false_r. cbn [andb].
  replace (length P + 1 - 1)%nat with (length P + 0)%nat by lia.
  rewrite char_at_app_r, (proj2 (Nat.leb_le 2 (length P + 1))) by lia.
  rewrite bool_decide_eq_true_2 by done. cbn [andb].
  rewrite take_app_le by lia. apply take_ge. lia.
Qed.

Lemma quick_same s :
  last s <> Some slash -> (forall q, s <> q ++ [slash; dot]) -> canon_quick s = s.
Proof.
  intros Hl Hq. unfold canon_quick.
  destruct s as [|x s] using rev_ind; [done|]. clear IHs.
  rewrite last_snoc in Hl. rewrite length_app. simpl length.
  destruct s as [|y s] using rev_ind; [done|]. clear IHs.
  rewrite length_app. simpl length. rewrite <- app_assoc. simpl app.
  replace (length s + 1 + 1 - 1)%nat with (length s + 1)%nat by lia.
  replace (length s + 1 + 1 - 2)%nat with (length s + 0)%nat by lia.
  rewrite !char_at_app_r.
  change (char_at [y; x] 1) with x. change (char_at [y; x] 0) with y.
  destruct (bool_decide (x = dot) && bool_decide (y = slash)) eqn:E.
  { apply andb_true_iff in E as [->%bool_decide_eq_true ->%bool_decide_eq_true].
    exfalso. apply (Hq s). by rewrite <- app_assoc. }
  rewrite <- andb_assoc, E, andb_false_r.
  replace (length s + 1 + 1 - 1)%nat with (length s + 1)%nat by lia.
  rewrite char_at_app_r. change (char_at [y; x] 1) with x.
  rewrite (bool_decide_eq_false_2 (x = slash)), andb_false_r by congruence.
  apply take_ge. rewrite length_app. simpl. lia.
Qed.

Lemma ends_dot_dec (s : cstr) :
  (exists q, s = q ++ [slash; dot]) \/ (forall q, s <> q ++ [slash; dot]).
Proof.
  destruct (decide (suffix [slash; dot] s)) as [[q ->]|H]; [eauto|].
  right. intros q ->. apply H. by exists q.
Qed.

Lemma quick_path path :
  path <> [] -> (forall s, path <> dot :: slash :: s) ->
  strstr path (cs "//") = None -> strstr path (cs "/./") = None ->
  canon_quick path = render (path_is_absolute path) (comps path).
Proof.
  intros Hne Hnds Ha Hb.
  destruct (decide (last path = Some slash)) as [Hl|Hl].
  { apply last_Some in Hl as [P ->]. destruct (decide (P = [])) as [->|HP]; [done|].
    rewrite quick_slash, path_is_absolute_app, comps_snoc_slash by done.
    destruct (clean_render P [] HP) as (_ & -> & _); [| |by apply clean_prefix|done].
    - intros ->. by apply (Hnds []).
    - intros s ->. by apply (Hnds (s ++ [slash])). }
  destruct (ends_dot_dec path) as [[P ->]|Hq].
  { destruct (decide (P = [])) as [->|HP]; [done|].
    destruct (clean_render P [dot] HP) as (_ & HPr & HPl); [| |by apply clean_prefix|].
    - intros ->. by apply (Hnds [dot]).
    - intros s ->. by apply (Hnds (s ++ [slash; dot])).
    - rewrite quick_dot, path_is_absolute_app, comps_snoc_dot by done. done. }
  rewrite quick_same by done.
  destruct (decide (path = [dot])) as [->|Hnd]; [done|].
  destruct (clean_render path [] Hne Hnd Hnds) as (_ & -> & _); [|done].
  by apply clean_end.
Qed.

Lemma NUL_head path : NUL ∉ path -> path <> [] -> char_at path 0 <> NUL.
Proof. destruct path as [|c p]; [done|]. intros [H _]%not_elem_of_cons _.
  unfold char_at. simpl. congruence.
Qed.

(** Where the slow path starts: a slash with nothing to fix before it. *)
Lemma first_occurrence path k :
  let a := strstr path (cs "//") in
  let b := strstr path (cs "/./") in
  match a, b with
  | Some a, Some b => if (a <? b)%nat then a else b
  | Some a, None => a
  | None, Some b => b
  | None, None => O
  end = k -> a <> None \/ b <> None ->
  exists X, path = take k path ++ slash :: X /\ drop k path = slash :: X /\
            clean (take k path) X.
Proof.
  intros a b Hk Hab.
  assert ((exists X, drop k path = slash :: X) /\
          forall j, (j < k)%nat -> is_prefix (cs "//") (drop j path) = false /\
                              is_prefix (cs "/./") (drop j path) = false) as [[X HX] Hj].
  { assert (forall k n, is_prefix (slash :: n) (drop k path) = true ->
                   exists X, drop k path = slash :: X) as Hsl.
    { intros k' n H. destruct (drop k' path) as [|c X]; [done|]. simpl in H.
      apply andb_true_iff in H as [<-%bool_decide_eq_true _]. eauto. }
    unfold a, b in *. clear a b.
    destruct (strstr path (cs "//")) as [a|] eqn:Ea;
      destruct (strstr path (cs "/./")) as [b|] eqn:Eb; [..|by destruct Hab].
    - apply strstr_some in Ea as (Ha1 & Ha2 & Ha3), Eb as (Hb1 & Hb2 & Hb3).
      destruct (Nat.ltb_spec a b); subst k; (split; [by eapply Hsl|]);
        intros j Hj; split; auto with lia.
    - apply strstr_some in Ea as (Ha1 & Ha2 & Ha3). subst k. split; [by eapply Hsl|].
      intros j Hj. split; [by apply Ha3|apply strstr_none; [done|lia]].
    - apply strstr_some in Eb as (Hb1 & Hb2 & Hb3). subst k. split; [by eapply Hsl|].
      intros j Hj. split; [apply strstr_none; [done|lia]|by apply Hb3]. }
  assert (path = take k path ++ slash :: X) as Hp by (rewrite <- HX; by rewrite take_drop).
  exists X. splits; [done|done|]. intros j Hjl. rewrite <- Hp. apply Hj.
  rewrite length_take in Hjl. lia.
Qed.

Lemma slow_case path k X :
  NUL ∉ path -> (forall s, path <> dot :: slash :: s) ->
  path = take k path ++ slash :: X /\ drop k path = slash :: X /\ clean (take k path) X ->
  canon_finish (canon_loop (length path) (drop k path) (take k path) true) =
  render (path_is_absolute path) (comps path).
Proof.
  intros Hn Hnds (Hp & -> & Hc). remember (take k path) as P eqn:EP. clear EP.
  subst path. apply slow_path; [done| | | |done].
  - rewrite length_app. lia.
  - intros ->. by apply (Hnds X).
  - intros s ->. by apply (Hnds (s ++ slash :: X)).
Qed.

Lemma make_canonical_ref path :
  NUL ∉ path -> make_canonical path = canonical_ref path.
Proof.
  intros Hn. unfold make_canonical, canonical_ref.
  destruct (decide (path = [])) as [->|Hne]; [done|].
  rewrite bool_decide_eq_false_2 by (by apply NUL_head).
  destruct (bool_decide (char_at path 0 = dot) && bool_decide (char_at path 1 = slash)) eqn:Eds;
    cbn [negb].
  - apply andb_true_iff in Eds as [E1%bool_decide_eq_true E2%bool_decide_eq_true].
    destruct path as [|c [|d s]]; [done|done|]. unfold char_at in E1, E2. simpl in E1, E2.
    subst c d. cbn [drop]. repeat apply not_elem_of_cons in Hn as [_ Hn].
    change (dot :: slash :: s) with ([dot] ++ slash :: s). rewrite comps_app.
    change (comps [dot]) with (@nil cstr). cbn [app length].
    change (path_is_absolute (dot :: slash :: s)) with false.
    destruct (canon_round (S (length s)) s [] false Hn)
      as (c & r & -> & Hl & Hnr & Hr & Hcase). cbn [app].
    destruct Hcase as [(-> & -> & ->)|(Hg & Hc & Hcs)].
    { by rewrite canon_loop_nil. }
    destruct (canon_loop_spec (S (length s)) r c Hnr ltac:(lia) Hr) as (t & -> & Ht & _).
    rewrite Hcs. rewrite app_assoc.
    change (c ++ render_tail (comps r)) with (render false (c :: comps r)).
    rewrite <- Hcs. destruct (comps_forall s) as [Fg Fs].
    destruct (render_not_slash false (comps s)); [by rewrite Hcs|done|done|].
    by apply canon_finish_spec.
  - assert (forall s, path <> dot :: slash :: s) as Hnds by (by intros s ->).
    assert (forall k, strstr path (cs "//") <> None \/ strstr path (cs "/./") <> None ->
              match strstr path (cs "//"), strstr path (cs "/./") with
              | Some a, Some b => if (a <? b)%nat then a else b
              | Some a, None => a | None, Some b => b | None, None => O
              end = k ->
              canon_finish (canon_loop (length path) (drop k path) (take k path) true) =
              render (path_is_absolute path) (comps path)) as Hslow.
    { intros k Hab Hk. destruct (first_occurrence path k Hk Hab) as [X HX].
      by eapply slow_case. }
    destruct (strstr path (cs "//")) as [a|] eqn:Ea;
      destruct (strstr path (cs "/./")) as [b|] eqn:Eb;
      [apply Hslow; auto..|by apply quick_path].
Qed.

(** C40. [make_canonical], an in-place rewrite with a fast path for well-behaved
    names, computes the canonical spelling of its argument: the directory
    entries of the path (every component except the empty ones and "."), in
    order, separated by single slashes, absolute exactly when the input is, and
    "." when a relative path has no entries. *)
Theorem make_canonical_correct path :
  NUL ∉ path -> make_canonical path = canonical_ref path.
Proof. apply make_canonical_ref. Qed.

Lemma make_canonical_correct_witness :
  (NUL ∉ cs "./a//b/.") /\ make_canonical (cs "./a//b/.") = canonical_ref (cs "./a//b/.").
Proof.
  assert (NUL ∉ cs "./a//b/.") as H by (apply (bool_decide_eq_true_1 _); vm_compute; reflexivity).
  split; [exact H|exact (make_canonical_correct _ H)].
Defined.

(** * Canonical paths *)

Lemma tail_good_strstr s :
  Forall (fun c => good c = true) (tail (split s)) ->
  strstr s (cs "//") = None /\ strstr s (cs "/./") = None.
Proof.
  induction s as [|c s IH]; [done|]. cbn [split].
  destruct (split_cons_exists s) as (h & t & E). rewrite E. intros Hg.
  assert (Forall (fun c => good c = true) (tail (split s))) as Ht.
  { rewrite E. case_bool_decide; simpl in Hg; [by apply Forall_cons in Hg as [_ Hg]|done]. }
  destruct (IH Ht) as [Ha Hb].
  assert (is_prefix (cs "//") (c :: s) = false /\ is_prefix (cs "/./") (c :: s) = false)
    as [H1 H2].
  { destruct (decide (c = slash)) as [->|Hc].
    - rewrite bool_decide_eq_true_2 in Hg by done. simpl in Hg.
      apply Forall_cons in Hg as [Hg _].
      assert (slash ∉ h) as Hsl by (apply (split_elem s); rewrite E; by left).
      apply join_split in E. subst s. destruct h as [|x h]; [done|].
      apply not_elem_of_cons in Hsl as [Hx Hsl]. simpl.
      rewrite (bool_decide_eq_false_2 (slash = x)) by done. split; [done|].
      destruct h as [|y h].
      + rewrite (bool_decide_eq_false_2 (dot = x)); [done|]. intros <-. done.
      + apply not_elem_of_cons in Hsl as [Hy _]. simpl.
        rewrite (bool_decide_eq_false_2 (slash = y)) by done. by rewrite andb_false_r.
    - simpl. rewrite !(bool_decide_eq_false_2 (slash = c)) by congruence. done. }
  split.
  - change (strstr (c :: s) (cs "//")) with
      (if is_prefix (cs "//") (c :: s) then Some O else S <$> strstr s (cs "//")).
    by rewrite H1, Ha.
  - change (strstr (c :: s) (cs "/./")) with
      (if is_prefix (cs "/./") (c :: s) then Some O else S <$> strstr s (cs "/./")).
    by rewrite H2, Hb.
Qed.

Lemma split_render_false l :
  l <> [] -> Forall (fun c => slash ∉ c) l -> split (render false l) = l.
Proof.
  destruct l as [|c l]; [done|]. intros _ H. apply Forall_cons in H as [Hc H].
  revert c Hc. induction H as [|d l Hd Hl IH]; intros c Hc.
  - simpl. rewrite app_nil_r. by apply split_noslash.
  - change (render false (c :: d :: l)) with (c ++ slash :: render false (d :: l)).
    rewrite split_comp by done. f_equal. by apply IH.
Qed.

(** Every rendering of directory entries is canonical. *)
Lemma render_canonical absolute l :
  Forall (fun c => good c = true) l -> Forall (fun c => slash ∉ c) l ->
  is_canonical (render absolute l) = true.
Proof.
  intros Hg Hs. destruct (decide (l = [])) as [->|Hne]; [by destruct absolute|].
  set (s := render absolute l).
  assert (exists h, split s = h :: tail (split s) /\ h <> [dot] /\
                    Forall (fun c => good c = true) (tail (split s))) as (h & Hh & Hd & Ht).
  { unfold s. destruct absolute.
    - assert (render true l = slash :: render false l) as -> by (by destruct l).
      simpl. rewrite split_render_false by done. by exists [].
    - rewrite split_render_false by done. destruct l as [|c l]; [done|].
      apply Forall_cons in Hg as [Hc Hg]. exists c. splits; [done| |done].
      by intros ->. }
  destruct (tail_good_strstr s Ht) as [Ha Hb].
  destruct (render_not_slash absolute l Hne Hg Hs) as [Hsne Hl]. fold s in Hsne, Hl.
  unfold is_canonical. rewrite Ha, Hb.
  rewrite !(bool_decide_eq_false_2 (is_Some None)) by (by intros [? ?]).
  rewrite last_char_at in Hl by done.
  rewrite (bool_decide_eq_false_2 (char_at s (length s - 1) = slash)) by congruence.
  case_bool_decide as Hn; [done|]. rewrite !orb_false_r, andb_false_r, orb_false_r.
  match goal with |- (if ?b then _ else _) = _ => enough (b = false) as -> by done end.
  apply orb_false_iff. split; apply andb_false_iff.
  - destruct s as [|x [|y s']]; [done|by right|]. unfold char_at. simpl nth.
    destruct (decide (y = slash)) as [->|]; [|right; by apply bool_decide_eq_false_2].
    left. apply bool_decide_eq_false_2. intros ->. simpl in Hh. congruence.
  - destruct (ends_dot_dec s) as [[q Eq]|Hq].
    + exfalso. rewrite Eq, split_app in Ht. change (split [dot]) with [[dot]] in Ht.
      destruct (split_cons_exists q) as (h' & t' & E'). rewrite E' in Ht. simpl in Ht.
      apply Forall_app in Ht as [_ Ht]. apply Forall_cons in Ht as [Ht _]. done.
    + destruct (decide (char_at s (length s - 1) = dot)) as [Ed|];
        [left|right; by apply bool_decide_eq_false_2].
      destruct (Nat.leb_spec 2 (length s)); [|done]. simpl.
      apply bool_decide_eq_false_2. intros Es.
      destruct s as [|x s'] using rev_ind; [done|]. clear IHs'.
      destruct s' as [|y s'] using rev_ind; [simpl in *; lia|]. clear IHs'.
      apply (Hq s'). rewrite <- app_assoc in Ed, Es |- *. simpl in Ed, Es |- *.
      rewrite length_app in Ed, Es. simpl in Ed, Es.
      replace (length s' + 2 - 1)%nat with (length s' + 1)%nat in Ed by lia.
      replace (length s' + 2 - 2)%nat with (length s' + 0)%nat in Es by lia.
      rewrite char_at_app_r in Ed, Es. unfold char_at in Ed, Es. simpl in Ed, Es. by subst.
Qed.

Lemma make_canonical_fixpoint path :
  NUL ∉ path ->
  is_canonical (make_canonical path) = true /\
  (is_canonical path = true -> make_canonical path = path).
Proof.
  intros Hn. split.
  - rewrite make_canonical_ref by done. unfold canonical_ref.
    destruct (decide (path = [])) as [->|Hne]; [done|].
    destruct (comps_forall path). by apply render_canonical.
  - intros Hc. destruct (decide (path = [])) as [->|Hne]; [done|].
    unfold is_canonical in Hc. unfold make_canonical.
    rewrite bool_decide_eq_false_2 in Hc |- * by (by apply NUL_head).
    destruct (bool_decide (char_at path 0 = dot) && bool_decide (char_at path 1 = slash));
      [done|]. cbn [negb orb] in Hc |- *.
    destruct (_ && bool_decide (char_at path (length path - 1) = slash)) eqn:E1; [done|].
    destruct (_ && bool_decide (char_at path (length path - 1) = dot)) eqn:E2; [done|].
    cbn [orb] in Hc.
    destruct (strstr path (cs "//")); [done|]. destruct (strstr path (cs "/./")); [done|].
    unfold canon_quick. cbv zeta. rewrite <- andb_assoc, (andb_comm (bool_decide (_ = dot))).
    rewrite andb_assoc, E2, E1. by apply take_ge.
Qed.

(** The result of [make_canonical] always passes [is_canonical], the
    supervisor's test for names that need no rewriting, and a canonical name is
    left unchanged: the two functions agree on what canonical means. *)
Theorem make_canonical_canonical path :
  NUL ∉ path ->
  is_canonical (make_canonical path) = true /\
  (is_canonical path = true -> make_canonical path = path).
Proof. apply make_canonical_fixpoint. Qed.

Lemma make_canonical_canonical_witness :
  is_canonical (make_canonical (cs ".//x/./y/")) = true /\
  make_canonical (cs "/x/../y") = cs "/x/../y".
Proof.
  split.
  - apply make_canonical_canonical. apply (bool_decide_eq_true_1 _). vm_compute. reflexivity.
  - apply make_canonical_canonical; [|vm_compute; reflexivity].
    apply (bool_decide_eq_true_1 _). vm_compute. reflexivity.
Defined.

(** * Locations *)

(** A location without its trailing slashes. *)
Definition rstrip (location : cstr) : cstr :=
  take (rstrip_len location (length location)) location.

(** Reference: [path] is the location itself or lies below it. *)
Definition at_location (path location : cstr) : Prop :=
  path = rstrip location \/ exists r, path = rstrip location ++ slash :: r.

(** The array is sorted with [cstring_view_array_sort], i.e. by [strcmp]. *)
Definition sorted_locations (l : list cstr) : Prop :=
  StronglySorted (fun a b => strcmp a b <> Gt) l.

Lemma rstrip_len_spec l n :
  (n <= length l)%nat ->
  exists m, (rstrip_len l n + m = n)%nat /\ take n l = take (rstrip_len l n) l ++ replicate m slash.
Proof.
  induction n as [|n IH]; intros Hn; [by exists 0%nat|].
  cbn [rstrip_len]. case_bool_decide as Hc.
  - destruct IH as (m & Hm & E); [lia|]. exists (S m). split; [lia|].
    rewrite (take_S_r l n slash), E, <- app_assoc.
    + f_equal. by rewrite <- replicate_S_end.
    + unfold char_at in Hc. rewrite <- Hc.
      rewrite nth_lookup. destruct (lookup_lt_is_Some_2 l n) as [x Hx]; [lia|]. by rewrite Hx.
  - exists 0%nat. split; [lia|]. by rewrite app_nil_r.
Qed.

Lemma rstrip_spec l : exists m, l = rstrip l ++ replicate m slash.
Proof.
  destruct (rstrip_len_spec l (length l)) as (m & _ & E); [lia|].
  exists m. rewrite take_ge in E by lia. exact E.
Qed.

Lemma rstrip_length l : length (rstrip l) = rstrip_len l (length l).
Proof.
  destruct (rstrip_len_spec l (length l)) as (m & Hm & _); [lia|].
  unfold rstrip. rewrite length_take. lia.
Qed.

Lemma rstrip_take l : take (length (rstrip l)) l = rstrip l.
Proof. by rewrite rstrip_length. Qed.

(** First difference behind a [memcmp] result. *)
Lemma memcmp_gt a b :
  length a = length b -> memcmp a b = Gt ->
  exists p x y a' b', a = p ++ x :: a' /\ b = p ++ y :: b' /\ (byte_of y < byte_of x)%Z.
Proof.
  revert b. induction a as [|x a IH]; intros [|y b] Hl; try done. simpl.
  destruct (Z.compare_spec (byte_of x) (byte_of y)) as [E%byte_of_inj|E|E]; intros H; try done.
  - subst y. destruct (IH b) as (p & x' & y' & a' & b' & -> & -> & Hlt); [simpl in Hl; lia|done|].
    by exists (x :: p), x', y', a', b'.
  - by exists [], x, y, a, b.
Qed.

Lemma memcmp_app_l p a b : memcmp (p ++ a) (p ++ b) = memcmp a b.
Proof. induction p; simpl; [done|]. by rewrite Z.compare_refl. Qed.

Lemma memcmp_cons_gt x y a b : (byte_of y < byte_of x)%Z -> memcmp (x :: a) (y :: b) = Gt.
Proof. intros H. simpl. by rewrite (proj2 (Z.compare_gt_iff _ _)). Qed.

Lemma memcmp_longer x a : memcmp (x :: a) [] = Gt.
Proof. done. Qed.

(** When a location compares greater than the path, no later location of a
    sorted array can contain the path.  Several trailing slashes on a location
    would break this. *)
Lemma greater_excludes path L L' :
  memcmp (rstrip L) (take (length (rstrip L)) path) = Gt ->
  (length (rstrip L) <= length path)%nat ->
  strcmp L L' <> Gt -> (forall q, L' <> q ++ [slash; slash]) -> ~ at_location path L'.
Proof.
  intros Hgt Hlen Hle Hone Hat.
  destruct (rstrip_spec L) as [m EL]. destruct (rstrip_spec L') as [m' EL'].
  apply memcmp_gt in Hgt as (p & x & y & l1 & p1 & E1 & E2 & Hxy);
    [|rewrite length_take; lia].
  assert (exists w, path = p ++ y :: w) as [w Ew].
  { exists (p1 ++ drop (length (rstrip L)) path).
    rewrite <- (take_drop (length (rstrip L)) path) at 1. rewrite E2. by rewrite <- app_assoc. }
  assert (exists v, L = p ++ x :: v) as [v Ev].
  { exists (l1 ++ replicate m slash). rewrite EL at 1. rewrite E1. by rewrite <- app_assoc. }
  apply Hle. rewrite Ev. unfold strcmp.
  assert (m' = 0 \/ m' = 1)%nat as Hm'.
  { destruct m' as [|[|m']]; [auto|auto|]. exfalso.
    apply (Hone (rstrip L' ++ replicate m' slash)). rewrite EL' at 1.
    rewrite <- app_assoc. f_equal. by rewrite !replicate_S_end, <- app_assoc. }
  set (l' := rstrip L') in *.
  assert (exists u, path = l' ++ u /\ (u = [] \/ exists r, u = slash :: r)) as (u & Eu & Hu).
  { destruct Hat as [->|[r ->]]; [exists []; rewrite app_nil_r; auto|eauto]. }
  rewrite Eu in Ew. destruct (app_eq_inv _ _ _ _ Ew) as [[k [Hk1 Hk2]]|[k [Hk1 Hk2]]].
  - (* the stripped later location extends beyond [p]: the difference decides *)
    rewrite EL', Hk1, <- app_assoc, memcmp_app_l.
    destruct k as [|z k]; simplify_eq/=.
    + destruct Hu as [Hr|[r Hr]]; simplify_eq.
      destruct Hm' as [-> | ->]; [done|]. by apply memcmp_cons_gt.
    + by apply memcmp_cons_gt.
  - (* it ends within [p] *)
    rewrite Hk1, <- app_assoc, EL', memcmp_app_l.
    destruct Hu as [->|[r ->]]; [by destruct k|].
    destruct k as [|z k]; simplify_eq/=.
    + destruct Hm' as [-> | ->]; [done|]. by apply memcmp_cons_gt.
    + destruct Hm' as [-> | ->]; [done|]. cbn [replicate].
      change (memcmp ([slash] ++ (k ++ x :: v)) ([slash] ++ []) = Gt).
      rewrite memcmp_app_l. by destruct k.
Qed.

Lemma at_location_length path L :
  at_location path L -> (length (rstrip L) <= length path)%nat /\
  take (length (rstrip L)) path = rstrip L /\
  (length path = length (rstrip L) \/ char_at path (length (rstrip L)) = slash).
Proof.
  intros [->|[r ->]].
  - splits; [done|by apply take_ge|by left].
  - rewrite length_app. splits; [lia|by rewrite take_app_length|right].
    replace (length (rstrip L)) with (length (rstrip L) + 0)%nat at 1 by lia.
    by rewrite char_at_app_r.
Qed.

Lemma at_location_intro path L :
  (length (rstrip L) <= length path)%nat ->
  rstrip L = take (length (rstrip L)) path ->
  length path = length (rstrip L) \/ char_at path (length (rstrip L)) = slash ->
  at_location path L.
Proof.
  intros Hl Ht [He|He].
  - left. by rewrite Ht, take_ge by lia.
  - destruct (decide (length path = length (rstrip L))) as [E|E].
    { left. by rewrite Ht, take_ge by lia. }
    right. exists (drop (S (length (rstrip L))) path).
    rewrite <- (take_drop (length (rstrip L)) path) at 1. rewrite <- Ht. f_equal.
    unfold char_at in He. rewrite nth_lookup in He.
    destruct (lookup_lt_is_Some_2 path (length (rstrip L))) as [c Hc]; [lia|].
    rewrite Hc in He. simpl in He. subst c. by apply drop_S.
Qed.

(** [is_path_at_locations], which stops at the first location greater than
    the path, decides on an array sorted by [strcmp] whether some location is
    the path itself or one of its parent directories, for locations that end in
    at most one slash. *)
Theorem is_path_at_locations_correct path locations :
  sorted_locations locations ->
  Forall (fun l => forall q, l <> q ++ [slash; slash]) locations ->
  is_path_at_locations path locations = true <->
  Exists (at_location path) locations.
Proof.
  intros Hs Hf. induction Hs as [|L rest Hs IH HL]; simpl.
  { split; [done|]. intros H. by apply Exists_nil in H. }
  apply Forall_cons in Hf as [_ Hf]. specialize (IH Hf). rewrite Exists_cons.
  rewrite <- !rstrip_length, rstrip_take.
  assert (forall b, b = true <-> Exists (at_location path) rest ->
            ~ at_location path L ->
            (b = true <-> at_location path L \/ Exists (at_location path) rest)) as Hskip
    by (intros; tauto).
  pose proof (at_location_length path L) as Hlen.
  destruct (Nat.ltb_spec (length path) (length (rstrip L))) as [Hlt|Hge].
  { apply Hskip; [done|]. intros (?&?&?)%Hlen. lia. }
  destruct (decide (char_at path (length (rstrip L)) = slash)) as [Hc|Hc].
  - rewrite bool_decide_eq_true_2 by done. cbn [negb andb].
    destruct (memcmp (rstrip L) (take (length (rstrip L)) path)) eqn:Em.
    + apply memcmp_eq in Em. split; [left|by intros _; case_match].
      apply at_location_intro; auto.
    + apply Hskip; [done|]. intros (?&Et&?)%Hlen. rewrite Et, memcmp_refl in Em. done.
    + split; [done|]. intros [(?&Et&?)%Hlen|Hex].
      { rewrite Et, memcmp_refl in Em. done. }
      apply Exists_exists in Hex as (L' & Hin & Hat).
      rewrite List.Forall_forall in HL, Hf.
      apply list_elem_of_In in Hin. by destruct (greater_excludes path L L' Em Hge (HL _ Hin) (Hf _ Hin)).
  - rewrite bool_decide_eq_false_2 by done. cbn [negb andb].
    destruct (Nat.ltb_spec (length (rstrip L)) (length path)) as [Hlt|Hle].
    { apply Hskip; [done|]. intros (?&?&[?|?])%Hlen; [lia|done]. }
    destruct (Nat.eqb_spec (length path) (length (rstrip L))); [|lia].
    destruct (memcmp (rstrip L) (take (length (rstrip L)) path)) eqn:Em.
    + apply memcmp_eq in Em. split; [left|done]. apply at_location_intro; auto.
    + apply Hskip; [done|]. intros (?&Et&?)%Hlen. rewrite Et, memcmp_refl in Em. done.
    + split; [done|]. intros [(?&Et&?)%Hlen|Hex].
      { rewrite Et, memcmp_refl in Em. done. }
      apply Exists_exists in Hex as (L' & Hin & Hat).
      rewrite List.Forall_forall in HL, Hf.
      apply list_elem_of_In in Hin. by destruct (greater_excludes path L L' Em Hge (HL _ Hin) (Hf _ Hin)).
Qed.

Lemma is_path_at_locations_correct_witness :
  is_path_at_locations (cs "/usr/bin/cc") [cs "/etc"; cs "/usr/"] = true <->
  Exists (at_location (cs "/usr/bin/cc")) [cs "/etc"; cs "/usr/"].
Proof.
  apply is_path_at_locations_correct.
  - repeat constructor; vm_compute; discriminate.
  - repeat (apply Forall_cons_2 || apply Forall_nil_2); intros q E;
      apply (f_equal (fun l => take 2 (rev l))) in E; rewrite rev_app_distr in E;
      vm_compute in E; discriminate.
Defined.

(** A location with several trailing slashes defeats the early exit: on the
    sorted array ["/a/-y"; "/a//"] the path "/a/-x" is below the second location
    (its trailing slashes are ignored), but [is_path_at_locations] answers
    false. *)
Theorem is_path_at_locations_trailing_slashes :
  sorted_locations [cs "/a/-y"; cs "/a//"] /\
  at_location (cs "/a/-x") (cs "/a//") /\
  is_path_at_locations (cs "/a/-x") [cs "/a//"] = true /\
  is_path_at_locations (cs "/a/-x") [cs "/a/-y"; cs "/a//"] = false.
Proof.
  splits; [|right; exists (cs "-x"); reflexivity|reflexivity|reflexivity].
  repeat constructor; vm_compute; discriminate.
Qed.

End Paths.
