(* ===== verification/FileNames.v ===== *)
(** Path operations on interned file names: src/firebuild/file_name.{h,cc},
    [base_name] of src/firebuild/utils.cc and the path arithmetic of
    [Process::get_absolute] (src/firebuild/process.cc).  [FileName::Get] interns a
    name, so it is the identity on paths; the flags it computes for a new name are
    functions of the path and the configured locations. *)

From stdpp Require Import base list strings sorting.
From Stdlib Require Import ZArith Lia Ascii.
From S2P Require Import Prelude Paths.

Module FileName.
Import Paths.

(** Position of the last slash before position [n] ([strrchr] for [n] the length):
    the loop of [GetParentDir]. *)
Fixpoint last_slash (name : cstr) (n : nat) : option nat :=
  match n with
  | O => None
  | S m => if bool_decide (char_at name m = slash) then Some m else last_slash name m
  end.

(** [GetParentDir(name, length)]. *)
Definition GetParentDir (name : cstr) : option cstr :=
  match last_slash name (length name) with
  | None => None
  | Some slash_pos =>
      if (length name =? 1)%nat then None
      else if (slash_pos =? 0)%nat then Some [slash]
      else Some (take slash_pos name)
  end.

Definition parent_dir (name : cstr) : option cstr := GetParentDir name.

(** [base_name(path)] and [without_dirs()]. *)
Definition base_name (path : cstr) : cstr :=
  match last_slash path (length path) with
  | Some p => drop (S p) path
  | None => path
  end.
Definition without_dirs (name : cstr) : cstr := base_name name.

(** [buf = dir [+ "/"] + name]; reading the last character of an empty [dir] is out
    of bounds. *)
Definition join_dir (dir name : cstr) : outcome cstr :=
  match last dir with
  | None => Abort
  | Some c => Ret (if bool_decide (c = slash) then dir ++ name else dir ++ slash :: name)
  end.

(** [GetCanonicalized(name, length, wd)]. *)
Definition GetCanonicalized (name : cstr) (wd : cstr) : outcome cstr :=
  let canonicalized_name := if is_canonical name then name else make_canonical name in
  if path_is_absolute canonicalized_name then Ret canonicalized_name
  else join_dir wd canonicalized_name.

(** [Process::get_absolute], given the name [dir] of the directory descriptor
    ([None] when it is not known). *)
Definition get_absolute (dir : option cstr) (name : cstr) : outcome (option cstr) :=
  if path_is_absolute name then Ret (Some name)
  else match dir with
       | None => Ret None
       | Some dir =>
           if bool_decide (name = []) || bool_decide (name = [dot]) then Ret (Some dir)
           else match last dir with
                | None => Abort
                | Some c =>
                    let separator_needed := negb (bool_decide (c = slash)) in
                    assert (separator_needed || (length dir =? 1)%nat) ≫= fun _ =>
                    r ← join_dir dir name; Ret (Some r)
                end
       end.

(** * Parents *)

Lemma last_slash_none name n : slash ∉ take n name -> (n <= length name)%nat -> last_slash name n = None.
Proof.
  revert name. induction n as [|n IH]; intros name Hn Hl; [done|]. cbn.
  destruct (lookup_lt_is_Some_2 name n) as [c Hc]; [lia|].
  assert (char_at name n = c) as ->.
  { unfold char_at. by apply nth_lookup_Some with (d := NUL) in Hc. }
  rewrite (take_S_r _ _ _ Hc) in Hn. apply not_elem_of_app in Hn as [Hn Hs].
  rewrite bool_decide_eq_false_2; [apply IH; [done|lia]|].
  intros ->. apply Hs. by apply list_elem_of_singleton.
Qed.

Lemma last_slash_app a c : slash ∉ c -> last_slash (a ++ slash :: c) (length a + S (length c)) = Some (length a).
Proof.
  intros Hc. induction c as [|x c IH] using rev_ind.
  - cbn [length]. rewrite Nat.add_1_r. cbn. unfold char_at.
    rewrite app_nth2, Nat.sub_diag by lia. cbn. by rewrite bool_decide_eq_true_2.
  - apply not_elem_of_app in Hc as [Hc Hx]. rewrite length_app. cbn [length].
    replace (length a + S (length c + 1))%nat with (S (length a + S (length c))) by lia. cbn.
    assert (char_at (a ++ slash :: c ++ [x]) (length a + S (length c)) = x) as ->.
    { unfold char_at. rewrite app_nth2 by lia.
      replace (length a + S (length c) - length a)%nat with (S (length c)) by lia. cbn.
      rewrite app_nth2, Nat.sub_diag by lia. done. }
    rewrite bool_decide_eq_false_2 by (intros ->; apply Hx; by apply list_elem_of_singleton).
    rewrite <- (IH Hc).
    (* the scan below the last character does not see it *)
    assert (forall m b d, (m <= length b)%nat -> last_slash (b ++ d) m = last_slash b m) as Hpre.
    { clear. induction m as [|m IH]; intros b d Hm; [done|]. cbn. unfold char_at.
      rewrite app_nth1 by lia. case_bool_decide; [done|]. apply IH. lia. }
    replace (a ++ slash :: c ++ [x]) with ((a ++ slash :: c) ++ [x]) by (by rewrite <- app_assoc).
    apply Hpre. rewrite length_app. cbn. lia.
Qed.

Definition entries (l : list cstr) : Prop :=
  Forall (fun c => good c = true) l /\ Forall (fun c => slash ∉ c) l.

Lemma render_true_snoc l c : render true (l ++ [c]) = match l with [] => [] | _ => render true l end ++ slash :: c.
Proof.
  destruct l as [|d l].
  - cbn. by rewrite app_nil_r.
  - rewrite render_app by done. cbn [render_tail flat_map]. by rewrite app_nil_r.
Qed.

Lemma render_true_ne l : render true l <> [].
Proof. by destruct l. Qed.

(** The parent of a canonical absolute path is the canonical path with the last
    directory entry removed, and only "/" has none: following [parent_dir()] walks
    through exactly the ancestors of the path. *)
Theorem parent_dir_correct l :
  entries l ->
  parent_dir (render true l) =
    match last l with None => None | Some _ => Some (render true (removelast l)) end.
Proof.
  intros [Hg Hs]. destruct l as [|c l _] using rev_ind; [done|].
  rewrite last_snoc, removelast_last. unfold parent_dir, GetParentDir.
  apply Forall_app in Hg as [_ Hg], Hs as [_ Hs].
  apply Forall_cons in Hg as [Hg _], Hs as [Hs _].
  assert (c <> []) by (by intros ->).
  rewrite render_true_snoc. set (a := match l with [] => [] | _ => render true l end).
  assert (Hl : length (a ++ slash :: c) = (length a + S (length c))%nat).
  { rewrite length_app. cbn. lia. }
  rewrite Hl, last_slash_app by done.
  destruct c as [|x c]; [done|].
  replace (length a + S (length (x :: c)) =? 1)%nat with false
    by (symmetry; apply Nat.eqb_neq; cbn; lia).
  destruct l as [|d l]; [done|].
  assert (a <> []) by apply render_true_ne.
  destruct a as [|y a'] eqn:Ea; [done|]. cbn [length Nat.eqb].
  f_equal. rewrite <- Ea. replace (S (length a')) with (length a) by (by rewrite Ea).
  by rewrite take_app_length.
Qed.

Lemma parent_dir_correct_witness : parent_dir (cs "/usr/lib") = Some (cs "/usr").
Proof.
  apply (parent_dir_correct [cs "usr"; cs "lib"]). split.
  - repeat constructor.
  - repeat constructor; apply (bool_decide_eq_true_1 _); vm_compute; reflexivity.
Defined.

(** * Joining *)

Lemma render_comps_canonical s :
  s <> [] -> NUL ∉ s -> is_canonical s = true -> s = render (path_is_absolute s) (comps s).
Proof.
  intros Hne Hn Hc. destruct (make_canonical_fixpoint s Hn) as [_ H].
  rewrite <- (H Hc) at 1. rewrite make_canonical_ref by done.
  unfold canonical_ref. by rewrite decide_False.
Qed.

(** Resolving a relative canonical name against a canonical absolute directory
    gives the canonical absolute path made of the directory's entries followed by
    the name's, so names built by [get_absolute()] never need canonicalization
    again. *)
Theorem get_absolute_correct d name :
  entries d -> NUL ∉ name -> is_canonical name = true -> path_is_absolute name = false ->
  get_absolute (Some (render true d)) name = Ret (Some (render true (d ++ comps name))).
Proof.
  intros [Hg Hs] Hn Hc Ha. unfold get_absolute. rewrite Ha.
  destruct (decide (name = [])) as [->|Hne].
  { cbn. rewrite app_nil_r. done. }
  pose proof (render_comps_canonical name Hne Hn Hc) as Hr. rewrite Ha in Hr.
  rewrite bool_decide_eq_false_2 by done. cbn [orb].
  destruct (decide (comps name = [])) as [Ec|Ec].
  { rewrite Ec in Hr. cbn in Hr. subst name. cbn. by rewrite app_nil_r. }
  destruct (comps_forall name) as [Ng Ns].
  rewrite bool_decide_eq_false_2; cycle 1.
  { intros E. apply Ec. by rewrite E. }
  assert (Ht : slash :: name = render_tail (comps name)).
  { rewrite Hr at 1. by destruct (comps name). }
  unfold join_dir. destruct (decide (d = [])) as [->|Hd].
  - cbn [render last app length]. rewrite bool_decide_eq_true_2 by done. cbn [negb orb Nat.eqb].
    change (Ret (Some (slash :: name)) = Ret (Some (render true (comps name)))).
    rewrite Ht. by destruct (comps name).
  - destruct (render_not_slash true d Hd Hg Hs) as [Hrne Hl].
    destruct (last (render true d)) as [c|] eqn:El.
    + rewrite bool_decide_eq_false_2 by congruence. cbn.
      rewrite render_app by done. by rewrite Ht.
    + apply last_None in El. done.
Qed.

Lemma get_absolute_correct_witness :
  get_absolute (Some (cs "/home/u")) (cs "src/a.c") = Ret (Some (cs "/home/u/src/a.c")).
Proof.
  apply (get_absolute_correct [cs "home"; cs "u"] (cs "src/a.c")).
  - split; repeat constructor; apply (bool_decide_eq_true_1 _); vm_compute; reflexivity.
  - apply (bool_decide_eq_true_1 _); vm_compute; reflexivity.
  - vm_compute. reflexivity.
  - vm_compute. reflexivity.
Defined.

(** [GetCanonicalized()] on an empty relative name, or on one that denotes the
    directory itself, does not return a canonical name: it appends a separator to
    the directory, so that the result differs from the interned name of the same
    directory. *)
Theorem get_canonicalized_dot :
  GetCanonicalized (cs ".") (cs "/home/u") = Ret (cs "/home/u/.") /\
  is_canonical (cs "/home/u/.") = false /\
  GetCanonicalized (cs "") (cs "/home/u") = Ret (cs "/home/u/") /\
  is_canonical (cs "/home/u/") = false.
Proof. repeat split; vm_compute; reflexivity. Qed.

End FileName.
