(* ===== verification/FileUsage.v ===== *)
(** What a process knows about a file: src/firebuild/file_info.h,
    file_usage.{h,cc} and file_usage_update.{h,cc}.

    [FileName] objects are interned (see FileNames.v), so a [FileName] pointer
    is modelled by the path it denotes.  [FileUsage] objects are interned as
    well ([FileUsage::Get]), so pointer equality is equality of values.  The
    [mutable] members of [FileUsageUpdate], filled in lazily, are modelled by
    returning the updated object. *)

From stdpp Require Import base list strings option.
From Stdlib Require Import ZArith Lia Ascii.
From S2P Require Import Prelude Base64.

Local Open Scope Z_scope.

(** * FileInfo (file_info.h) *)
Module FileInfo.

Inductive FileType := DONTKNOW | EXIST | NOTEXIST | NOTEXIST_OR_ISREG | ISREG | ISDIR.

#[global] Instance FileType_eq_dec : EqDecision FileType.
Proof. solve_decision. Defined.

Definition FILE_TYPE_MAX : Z := 5.

Definition file_type_to_int (t : FileType) : Z :=
  match t with
  | DONTKNOW => 0 | EXIST => 1 | NOTEXIST => 2
  | NOTEXIST_OR_ISREG => 3 | ISREG => 4 | ISDIR => 5
  end.

(** [None] is the [abort()] of the default case. *)
Definition int_to_file_type (t : Z) : option FileType :=
  if t =? 0 then Some DONTKNOW else if t =? 1 then Some EXIST
  else if t =? 2 then Some NOTEXIST else if t =? 3 then Some NOTEXIST_OR_ISREG
  else if t =? 4 then Some ISREG else if t =? 5 then Some ISDIR else None.

(** [size_] is -1 when the size is not known; [hash_known_ ? hash_ : unknown]
    is an option. *)
Record t := mk {
  type_ : FileType;
  size_ : Z;
  hash_ : option Hash.t;
  mode_ : Z;
  mode_mask_ : Z
}.

#[global] Instance t_eq_dec : EqDecision t.
Proof. solve_decision. Defined.

(** [FileInfo(type)]. *)
Definition of_type (type : FileType) : t := mk type (-1) None 0 0.

Definition size_known (i : t) : bool := 0 <=? size_ i.
Definition hash_known (i : t) : bool := bool_decide (is_Some (hash_ i)).

Definition set_type (type : FileType) (i : t) : t :=
  mk type (size_ i) (hash_ i) (mode_ i) (mode_mask_ i).
Definition set_size (size : Z) (i : t) : t :=
  mk (type_ i) size (hash_ i) (mode_ i) (mode_mask_ i).
(** Both overloads of [set_hash]. *)
Definition set_hash (hash : option Hash.t) (i : t) : t :=
  mk (type_ i) (size_ i) hash (mode_ i) (mode_mask_ i).
(** Set or clear the bits enabled by the mask. *)
Definition set_mode_bits (mode mask : Z) (i : t) : t :=
  mk (type_ i) (size_ i) (hash_ i)
     (Z.lor (Z.ldiff (mode_ i) mask) (Z.land mode mask))
     (Z.lor (mode_mask_ i) mask).

(** The comments on the fields, as an invariant: the size only for (possibly
    missing) regular files, and 0 for a possibly missing one; the hash only for
    regular files and directories; no mode bit outside the mask. *)
Definition wf (i : t) : Prop :=
  (size_known i = true -> type_ i = ISREG \/ type_ i = NOTEXIST_OR_ISREG) /\
  (type_ i = NOTEXIST_OR_ISREG -> size_known i = true -> size_ i = 0) /\
  (hash_known i = true -> type_ i = ISREG \/ type_ i = ISDIR) /\
  Z.land (mode_ i) (mode_mask_ i) = mode_ i.

(** ** What a FileInfo says about the file system *)

(** The state of a file system entry, as far as [FileInfo] describes it (the mode
    bits are treated separately). *)
Inductive entry :=
| Absent
| Regular (size : Z) (hash : Hash.t)
| Directory (hash : Hash.t).

Definition size_ok (i : t) (size : Z) : Prop := size_known i = true -> size_ i = size.
Definition hash_ok (i : t) (hash : Hash.t) : Prop := forall h, hash_ i = Some h -> h = hash.

(** [sat i e]: the entry [e] is one of those [i] allows. *)
Definition sat (i : t) (e : entry) : Prop :=
  match type_ i, e with
  | DONTKNOW, _ => True
  | EXIST, Absent => False
  | EXIST, _ => True
  | NOTEXIST, Absent => True
  | NOTEXIST, _ => False
  | NOTEXIST_OR_ISREG, Absent => True
  | NOTEXIST_OR_ISREG, Regular s _ => size_ok i s
  | NOTEXIST_OR_ISREG, Directory _ => False
  | ISREG, Regular s h => size_ok i s /\ hash_ok i h
  | ISREG, _ => False
  | ISDIR, Directory h => hash_ok i h
  | ISDIR, _ => False
  end.

(** The type of the entries that two types both allow. *)
Definition type_meet (a b : FileType) : option FileType :=
  match a, b with
  | DONTKNOW, x | x, DONTKNOW => Some x
  | EXIST, NOTEXIST | NOTEXIST, EXIST => None
  | EXIST, NOTEXIST_OR_ISREG | NOTEXIST_OR_ISREG, EXIST => Some ISREG
  | EXIST, x | x, EXIST => Some x
  | NOTEXIST, (NOTEXIST | NOTEXIST_OR_ISREG) | NOTEXIST_OR_ISREG, NOTEXIST => Some NOTEXIST
  | NOTEXIST_OR_ISREG, NOTEXIST_OR_ISREG => Some NOTEXIST_OR_ISREG
  | NOTEXIST_OR_ISREG, ISREG | ISREG, (NOTEXIST_OR_ISREG | ISREG) => Some ISREG
  | ISDIR, ISDIR => Some ISDIR
  | _, _ => None
  end.

Lemma size_ok_unknown i s : size_known i = false -> size_ok i s.
Proof. unfold size_ok. congruence. Qed.

Lemma hash_ok_unknown i h : hash_ i = None -> hash_ok i h.
Proof. unfold hash_ok. congruence. Qed.
#[export] Hint Resolve size_ok_unknown hash_ok_unknown : fb.

Lemma wf_no_size i :
  wf i -> type_ i <> ISREG -> type_ i <> NOTEXIST_OR_ISREG -> size_known i = false.
Proof. intros (H1 & _) ? ?. destruct (size_known i); [|done]. by destruct (H1 eq_refl). Qed.

Lemma hash_known_Some i : hash_known i = true <-> exists h, hash_ i = Some h.
Proof. unfold hash_known. by rewrite bool_decide_eq_true. Qed.

Lemma hash_known_None i : hash_known i = false <-> hash_ i = None.
Proof.
  unfold hash_known. rewrite bool_decide_eq_false, eq_None_not_Some. done.
Qed.

Lemma wf_no_hash i :
  wf i -> type_ i <> ISREG -> type_ i <> ISDIR -> hash_ i = None.
Proof.
  intros (_ & _ & H3 & _) ? ?. apply hash_known_None.
  destruct (hash_known i); [|done]. by destruct (H3 eq_refl).
Qed.

Lemma wf_size_ok i :
  wf i -> type_ i <> ISREG -> type_ i <> NOTEXIST_OR_ISREG -> forall s, size_ok i s.
Proof. intros. apply size_ok_unknown. by apply wf_no_size. Qed.

Lemma wf_hash_ok i :
  wf i -> type_ i <> ISREG -> type_ i <> ISDIR -> forall h, hash_ok i h.
Proof. intros. apply hash_ok_unknown. by apply wf_no_hash. Qed.

Lemma sat_regular i s h : wf i -> sat i (Regular s h) -> size_ok i s /\ hash_ok i h.
Proof.
  intros W. pose proof (wf_size_ok i W). pose proof (wf_hash_ok i W). unfold sat.
  destruct (type_ i); naive_solver.
Qed.

Lemma sat_directory i h : wf i -> sat i (Directory h) -> hash_ok i h.
Proof.
  intros W. pose proof (wf_hash_ok i W). unfold sat. destruct (type_ i); naive_solver.
Qed.

(** A [FileInfo] that has the meet of two types, sizes and hashes allows exactly
    the entries both allow. *)
Lemma sat_meet i j k e :
  wf i -> wf j -> type_meet (type_ i) (type_ j) = Some (type_ k) ->
  (type_ k = ISREG \/ type_ k = NOTEXIST_OR_ISREG ->
     forall s, size_ok k s <-> size_ok i s /\ size_ok j s) ->
  (type_ k = ISREG \/ type_ k = ISDIR ->
     forall h, hash_ok k h <-> hash_ok i h /\ hash_ok j h) ->
  sat k e <-> sat i e /\ sat j e.
Proof.
  intros Wi Wj Hm Hs Hh. unfold sat.
  pose proof (wf_size_ok i Wi) as Si. pose proof (wf_size_ok j Wj) as Sj.
  pose proof (wf_hash_ok i Wi) as Hi. pose proof (wf_hash_ok j Wj) as Hj. clear Wi Wj.
  destruct (type_ i), (type_ j); (injection Hm as Hm; rewrite <- Hm in *) || discriminate Hm;
    destruct e;
    try specialize (Hs ltac:(auto) size); try specialize (Hh ltac:(auto) hash);
    try specialize (Si ltac:(done) ltac:(done) size); try specialize (Sj ltac:(done) ltac:(done) size);
    try specialize (Hi ltac:(done) ltac:(done) hash); try specialize (Hj ltac:(done) ltac:(done) hash);
    tauto.
Qed.

Lemma sat_disjoint i j e :
  type_meet (type_ i) (type_ j) = None -> sat i e -> sat j e -> False.
Proof. unfold sat. by destruct (type_ i), (type_ j), e. Qed.

Lemma int_file_type t : int_to_file_type (file_type_to_int t) = Some t.
Proof. by destruct t. Qed.

Lemma set_mode_bits_wf mode mask i : wf i -> wf (set_mode_bits mode mask i).
Proof.
  intros (H1 & H2 & H3 & H4). unfold wf. splits; [done..|]. cbn [mode_ mode_mask_ set_mode_bits].
  apply Z.bits_inj'. intros n Hn. apply (f_equal (fun z => Z.testbit z n)) in H4.
  rewrite !Z.land_spec, !Z.lor_spec, Z.land_spec, Z.ldiff_spec in *.
  destruct (Z.testbit (mode_ i) n), (Z.testbit (mode_mask_ i) n), (Z.testbit mode n),
    (Z.testbit mask n); done.
Qed.

(** The masked bits take the new value, the others keep theirs. *)
Lemma set_mode_bits_spec mode mask i n :
  0 <= n ->
  Z.testbit (mode_ (set_mode_bits mode mask i)) n =
    (if Z.testbit mask n then Z.testbit mode n else Z.testbit (mode_ i) n) /\
  Z.testbit (mode_mask_ (set_mode_bits mode mask i)) n =
    Z.testbit (mode_mask_ i) n || Z.testbit mask n.
Proof.
  intros Hn. cbn [mode_ mode_mask_ set_mode_bits].
  rewrite !Z.lor_spec, Z.land_spec, Z.ldiff_spec.
  destruct (Z.testbit (mode_ i) n), (Z.testbit mode n), (Z.testbit mask n); done.
Qed.

End FileInfo.

(** * The outside world seen by file usage updates *)

Record stat_t := { st_mode : Z; st_size : Z }.

(** Answers of the file system and of the hash cache: [stat64()], [lstat64()],
    [HashCache::get_hash()] (hash, is_dir, size) and [HashCache::get_statinfo()]
    (is_dir).  An error carries the errno value. *)
Record Env := {
  env_stat : cstr -> Z + stat_t;
  env_lstat : cstr -> Z + stat_t;
  env_get_hash : cstr -> Z -> Z + (Hash.t * bool * Z);
  env_get_statinfo : cstr -> option bool
}.

(** * FileUsageUpdate (file_usage_update.h, file_usage_update.cc) *)
Module FileUsageUpdate.
Import FileInfo.

(** [type_computer_] and [hash_computer_] are member function pointers that are
    null or one fixed function each; they are modelled by booleans. *)
Record t := mk {
  initial_state_ : FileInfo.t;
  filename_ : cstr;
  max_writers_ : Z;
  type_computer_ : bool;
  hash_computer_ : bool;
  written_ : bool;
  mode_changed_ : bool;
  tmp_file_ : bool;
  generation_ : Z;
  parent_type_ : FileType;
  unknown_err_ : Z;
  timestamp_source_ : option cstr
}.

(** The constructors; [generation] is [filename->generation()]. *)
Definition make (filename : cstr) (generation : Z) (info : FileInfo.t)
    (written mode_changed : bool) : t :=
  mk info filename 0 false false written mode_changed false generation DONTKNOW 0 None.
Definition make_type (filename : cstr) (generation : Z) (type : FileType)
    (written mode_changed : bool) : t :=
  make filename generation (of_type type) written mode_changed.

(** Field updates. *)
Definition set_state (f : FileInfo.t -> FileInfo.t) (u : t) : t :=
  mk (f (initial_state_ u)) (filename_ u) (max_writers_ u) (type_computer_ u)
     (hash_computer_ u) (written_ u) (mode_changed_ u) (tmp_file_ u) (generation_ u)
     (parent_type_ u) (unknown_err_ u) (timestamp_source_ u).
Definition set_initial_type (ty : FileType) : t -> t := set_state (set_type ty).
Definition set_initial_size (size : Z) : t -> t := set_state (set_size size).
Definition set_initial_hash (h : Hash.t) : t -> t := set_state (set_hash (Some h)).
Definition set_initial_mode_bits (mode mask : Z) : t -> t := set_state (set_mode_bits mode mask).
Definition set_computers (type hash : bool) (u : t) : t :=
  mk (initial_state_ u) (filename_ u) (max_writers_ u) type hash
     (written_ u) (mode_changed_ u) (tmp_file_ u) (generation_ u)
     (parent_type_ u) (unknown_err_ u) (timestamp_source_ u).
Definition set_max_writers (n : Z) (u : t) : t :=
  mk (initial_state_ u) (filename_ u) n (type_computer_ u) (hash_computer_ u)
     (written_ u) (mode_changed_ u) (tmp_file_ u) (generation_ u)
     (parent_type_ u) (unknown_err_ u) (timestamp_source_ u).
Definition set_written (b : bool) (u : t) : t :=
  mk (initial_state_ u) (filename_ u) (max_writers_ u) (type_computer_ u) (hash_computer_ u)
     b (mode_changed_ u) (tmp_file_ u) (generation_ u)
     (parent_type_ u) (unknown_err_ u) (timestamp_source_ u).
Definition set_mode_changed (b : bool) (u : t) : t :=
  mk (initial_state_ u) (filename_ u) (max_writers_ u) (type_computer_ u) (hash_computer_ u)
     (written_ u) b (tmp_file_ u) (generation_ u)
     (parent_type_ u) (unknown_err_ u) (timestamp_source_ u).
Definition set_tmp_file (b : bool) (u : t) : t :=
  mk (initial_state_ u) (filename_ u) (max_writers_ u) (type_computer_ u) (hash_computer_ u)
     (written_ u) (mode_changed_ u) b (generation_ u)
     (parent_type_ u) (unknown_err_ u) (timestamp_source_ u).
Definition set_generation (g : Z) (u : t) : t :=
  mk (initial_state_ u) (filename_ u) (max_writers_ u) (type_computer_ u) (hash_computer_ u)
     (written_ u) (mode_changed_ u) (tmp_file_ u) g
     (parent_type_ u) (unknown_err_ u) (timestamp_source_ u).
Definition set_parent_type (ty : FileType) (u : t) : t :=
  mk (initial_state_ u) (filename_ u) (max_writers_ u) (type_computer_ u) (hash_computer_ u)
     (written_ u) (mode_changed_ u) (tmp_file_ u) (generation_ u)
     ty (unknown_err_ u) (timestamp_source_ u).
Definition set_unknown_err (e : Z) (u : t) : t :=
  mk (initial_state_ u) (filename_ u) (max_writers_ u) (type_computer_ u) (hash_computer_ u)
     (written_ u) (mode_changed_ u) (tmp_file_ u) (generation_ u)
     (parent_type_ u) e (timestamp_source_ u).
Definition set_timestamp_source (src : option cstr) (u : t) : t :=
  mk (initial_state_ u) (filename_ u) (max_writers_ u) (type_computer_ u) (hash_computer_ u)
     (written_ u) (mode_changed_ u) (tmp_file_ u) (generation_ u)
     (parent_type_ u) (unknown_err_ u) src.

Definition initial_size_known (u : t) : bool := size_known (initial_state_ u).
Definition initial_hash_known (u : t) : bool := hash_known (initial_state_ u) || hash_computer_ u.

Section WithEnv.
Context (E : Env).

Definition type_computer_open_rdonly (u : t) : t :=
  match env_get_hash E (filename_ u) (max_writers_ u) with
  | inl errno => set_unknown_err errno u
  | inr (hash, is_dir, size) =>
      let u := if is_dir : bool
               then set_initial_hash hash (set_initial_type ISDIR u)
               else set_initial_hash hash
                      (set_initial_size size (set_initial_type ISREG u)) in
      set_computers false false u
  end.

(** [get_initial_type(&type)]: [None] is a false return value. *)
Definition get_initial_type (u : t) : option FileType * t :=
  let u := if type_computer_ u then type_computer_open_rdonly u else u in
  if unknown_err_ u =? 0 then (Some (type_ (initial_state_ u)), u) else (None, u).

Definition hash_computer (u : t) : t :=
  let u' := match env_get_hash E (filename_ u) (max_writers_ u) with
            | inl errno => set_unknown_err errno u
            | inr (hash, _, _) => set_initial_hash hash u
            end in
  set_computers (type_computer_ u') false u'.

(** [get_initial_hash(&hash)].  Reading [hash_] when it was never set yields
    the zero hash. *)
Definition get_initial_hash (u : t) : outcome (option Hash.t * t) :=
  assert (negb (type_computer_ u) &&
          (bool_decide (type_ (initial_state_ u) = ISREG)
           || bool_decide (type_ (initial_state_ u) = ISDIR))) ≫= fun _ =>
  let u := if hash_computer_ u then hash_computer u else u in
  if unknown_err_ u =? 0
  then Ret (Some (default Hash.zero (hash_ (initial_state_ u))), u)
  else Ret (None, u).

(** [update_from_enotdir(filename)]; [parent_dir] is [filename->parent_dir()],
    which is dereferenced when [filename] itself cannot be stat()ed. *)
Definition update_from_enotdir (filename : cstr) (parent_dir : option cstr) (u : t)
    : outcome t :=
  match env_get_statinfo E filename with
  | Some is_dir =>
      let u := if is_dir : bool
               then set_unknown_err ENOTDIR (set_initial_type ISDIR u)
               else set_initial_type ISREG u in
      Ret (set_parent_type ISDIR u)
  | None =>
      match parent_dir with
      | None => Abort
      | Some parent_dir =>
          match env_get_statinfo E parent_dir with
          | Some true =>
              Ret (set_unknown_err ENOTDIR (set_initial_type ISDIR (set_parent_type ISDIR u)))
          | Some false => Ret (set_initial_type DONTKNOW (set_parent_type ISREG u))
          | None => Ret (set_unknown_err ENOTDIR (set_parent_type DONTKNOW u))
          end
      end
  end.

(** The successful open-for-writing branch of [get_from_open_params]: cases
    A..F of the table in the source.  [inl] is an early return. *)
Definition open_write_params (filename : cstr) (flags mode_with_umask : Z) (tmp_file : bool)
    (u : t) : outcome (t + t) :=
  if has flags O_CREAT && has flags O_EXCL then
    (* C + F *)
    Ret (inr (set_tmp_file tmp_file (set_parent_type ISDIR
               (set_mode_changed true (set_initial_type NOTEXIST u)))))
  else if has flags O_TRUNC then
    assert (negb tmp_file) ≫= fun _ =>
    if negb (has flags O_CREAT) then
      (* A *)
      Ret (inr (set_initial_type ISREG u))
    else
      (* B *)
      match env_stat E filename with
      | inl errno => Ret (inl (set_unknown_err errno u))
      | inr st =>
          if 0 <? st_size st then Ret (inl (set_unknown_err EEXIST u))
          else
            let u := set_initial_type NOTEXIST_OR_ISREG u in
            let u := if negb (Z.land (st_mode st) mode_bits =? mode_with_umask)
                     then set_initial_type ISREG u
                     else set_mode_changed true u in
            Ret (inr (set_parent_type ISDIR u))
      end
  else
    assert (negb tmp_file) ≫= fun _ =>
    if negb (has flags O_CREAT) then
      (* D *)
      let u := set_initial_type ISREG u in
      Ret (inr (set_computers (type_computer_ u) true u))
    else
      (* E *)
      match env_stat E filename with
      | inl errno => Ret (inl (set_unknown_err errno u))
      | inr st =>
          let u := if 0 <? st_size st
                   then let u := set_initial_type ISREG u in
                        set_computers (type_computer_ u) true u
                   else set_initial_type NOTEXIST_OR_ISREG u in
          let u := set_initial_size (st_size st) u in
          let u := if negb (Z.land (st_mode st) mode_bits =? mode_with_umask)
                   then set_initial_type ISREG u
                   else set_mode_changed true u in
          Ret (inr (set_parent_type ISDIR u))
      end.

(** [get_from_open_params(filename, flags, mode_with_umask, err, tmp_file)];
    [generation] and [parent_dir] are those of [filename]. *)
Definition get_from_open_params (filename : cstr) (generation : Z) (parent_dir : option cstr)
    (flags mode_with_umask err : Z) (tmp_file : bool) : outcome t :=
  let update := make_type filename generation DONTKNOW false false in
  if err =? 0 then
    if is_write flags then
      r ← open_write_params filename flags mode_with_umask tmp_file update;
      match r with
      | inl update => Ret update
      | inr update =>
          Ret (set_max_writers 1 (set_written true (set_parent_type ISDIR update)))
      end
    else Ret (set_computers true true update)
  else if is_write flags then
    if err =? ENOENT then
      if negb (has flags O_CREAT) then Ret (set_initial_type NOTEXIST update)
      else Ret (set_parent_type NOTEXIST update)
    else if err =? EEXIST then
      if negb tmp_file then
        assert (has flags O_CREAT && has flags O_EXCL) ≫= fun _ =>
        Ret (set_initial_type EXIST update)
      else
        Ret (set_unknown_err err (set_tmp_file tmp_file (set_initial_type DONTKNOW update)))
    else if err =? ENOTDIR then update_from_enotdir filename parent_dir update
    else if err =? EINVAL then
      let update := set_initial_type DONTKNOW update in
      let update := if tmp_file
                    then set_tmp_file tmp_file (set_initial_type DONTKNOW update)
                    else update in
      Ret (set_unknown_err err update)
    else Ret (set_unknown_err err update)
  else
    assert (negb tmp_file) ≫= fun _ =>
    if err =? ENOENT then Ret (set_initial_type NOTEXIST update)
    else if err =? ENOTDIR then update_from_enotdir filename parent_dir update
    else Ret (set_unknown_err err update).

(** [get_from_mkdir_params(filename, err, tmp_dir)]; [read_only] is
    [filename->is_in_read_only_location()]. *)
Definition get_from_mkdir_params (filename : cstr) (generation : Z) (read_only : bool)
    (err : Z) (tmp_dir : bool) : t :=
  let update := make_type filename generation DONTKNOW false false in
  if err =? 0 then
    set_tmp_file tmp_dir (set_mode_changed true (set_written true
      (set_parent_type ISDIR (set_initial_type NOTEXIST update))))
  else if err =? EEXIST then set_initial_type ISDIR update
  else if err =? ENOENT then set_parent_type NOTEXIST (set_initial_type NOTEXIST update)
  else if err =? EINVAL then
    let update := set_initial_type DONTKNOW update in
    let update := if tmp_dir then set_tmp_file tmp_dir update else update in
    set_unknown_err err update
  else if err =? EACCES then
    if read_only then set_initial_type NOTEXIST update
    else set_unknown_err err (set_initial_type DONTKNOW update)
  else set_unknown_err err update.

(** [get_from_stat_params(filename, mode, size, err)]. *)
Definition get_from_stat_params (filename : cstr) (generation mode size err : Z) : t :=
  let update := make_type filename generation DONTKNOW false false in
  if err =? 0 then
    if S_ISREG mode then
      set_initial_size size (set_initial_mode_bits mode mode_bits (set_initial_type ISREG update))
    else if S_ISDIR mode then
      set_initial_mode_bits mode mode_bits (set_initial_type ISDIR update)
    else if S_ISLNK mode then set_initial_type DONTKNOW update
    else set_initial_type NOTEXIST update
  else set_initial_type NOTEXIST update.

(** [get_oldfile_usage_from_rename_params(old_name, new_name, error)]: read the
    hash from the new location, take the generation from the old name. *)
Definition get_oldfile_usage_from_rename_params (new_name : cstr)
    (new_generation : Z) (new_parent : option cstr) (old_generation error : Z) : outcome t :=
  update ← get_from_open_params new_name new_generation new_parent O_RDONLY 0 error false;
  Ret (set_generation old_generation (set_mode_changed true (set_written true update))).

(** [get_newfile_usage_from_rename_params(new_name, error)]. *)
Definition get_newfile_usage_from_rename_params (new_name : cstr) (generation : Z) : t :=
  make_type new_name generation DONTKNOW true true.

End WithEnv.
End FileUsageUpdate.

(** * FileUsage (file_usage.h, file_usage.cc) *)
Module FileUsage.
Import FileInfo.
Module U := FileUsageUpdate.

Record t := mk {
  initial_state_ : FileInfo.t;
  written_ : bool;
  mode_changed_ : bool;
  tmp_file_ : bool;
  propagated_ : bool;
  generation_ : Z;
  timestamp_source_ : option cstr;
  unknown_err_ : Z
}.

#[global] Instance t_eq_dec : EqDecision t.
Proof. solve_decision. Defined.

(** [FileUsage(type)] with the default member initializers, which is also
    [FileUsage::Get(type)]. *)
Definition Get (type : FileType) : t := mk (of_type type) false false false true 0 None 0.

Definition initial_type (fu : t) : FileType := type_ (initial_state_ fu).
Definition initial_size_known (fu : t) : bool := size_known (initial_state_ fu).
Definition initial_hash_known (fu : t) : bool := hash_known (initial_state_ fu).

Definition with_state (f : FileInfo.t -> FileInfo.t) (fu : t) : t :=
  mk (f (initial_state_ fu)) (written_ fu) (mode_changed_ fu) (tmp_file_ fu) (propagated_ fu)
     (generation_ fu) (timestamp_source_ fu) (unknown_err_ fu).

Section WithEnv.
Context (E : Env).

(** [if (!initial_size_known() && update.initial_size_known())
    tmp.set_initial_size(update.initial_size());] *)
Definition adopt_size (fu : t) (update : U.t) (tmp : t) : t :=
  if negb (initial_size_known fu) && U.initial_size_known update
  then with_state (set_size (size_ (U.initial_state_ update))) tmp
  else tmp.

(** [if (!initial_hash_known() && update.initial_hash_known())] with the lazy
    computation; an inner [None] is [return nullptr]. *)
Definition adopt_hash (fu : t) (update : U.t) (tmp : t) : outcome (option t * U.t) :=
  if negb (initial_hash_known fu) && U.initial_hash_known update
  then
    r ← U.get_initial_hash E update;
    match r with
    | (Some h, update) => Ret (Some (with_state (set_hash (Some h)) tmp), update)
    | (None, update) => Ret (None, update)
    end
  else Ret (Some tmp, update).

(** The [switch (initial_type())] of [merge]. *)
Definition merge_initial (fu : t) (ut : FileType) (update : U.t) (tmp : t)
    : outcome (option t * U.t) :=
  let copy_over := adopt_hash fu update
                     (adopt_size fu update (with_state (set_type ut) tmp)) in
  match initial_type fu with
  | DONTKNOW => copy_over
  | EXIST =>
      if bool_decide (ut = NOTEXIST) then Ret (None, update)
      else if bool_decide (ut = NOTEXIST_OR_ISREG) then
        let tmp := with_state (set_type ISREG) tmp in
        if U.initial_size_known update then
          assert (size_ (U.initial_state_ update) =? 0) ≫= fun _ =>
          Ret (Some (with_state (set_size (size_ (U.initial_state_ update))) tmp), update)
        else Ret (Some tmp, update)
      else copy_over
  | NOTEXIST =>
      if negb (bool_decide (ut = DONTKNOW)) && negb (bool_decide (ut = NOTEXIST))
         && negb (bool_decide (ut = NOTEXIST_OR_ISREG))
      then Ret (None, update) else Ret (Some tmp, update)
  | NOTEXIST_OR_ISREG => Ret (Some tmp, update)
  | ISREG =>
      if negb (bool_decide (ut = DONTKNOW)) && negb (bool_decide (ut = EXIST))
         && negb (bool_decide (ut = NOTEXIST_OR_ISREG)) && negb (bool_decide (ut = ISREG))
      then Ret (None, update)
      else adopt_hash fu update (adopt_size fu update tmp)
  | ISDIR =>
      if negb (bool_decide (ut = DONTKNOW)) && negb (bool_decide (ut = EXIST))
         && negb (bool_decide (ut = ISDIR))
      then Ret (None, update)
      else adopt_hash fu update tmp
  end.

(** The part of [merge] after the initial state was dealt with. *)
Definition merge_rest (fu : t) (update : U.t) (propagated : bool) (tmp : t) : t :=
  let st := initial_state_ tmp in
  let ust := U.initial_state_ update in
  let st := if negb (mode_changed_ fu)
               && (negb (mode_ (initial_state_ fu) =? mode_ ust)
                   || negb (mode_mask_ (initial_state_ fu) =? mode_mask_ ust))
            then set_mode_bits (mode_ ust) (mode_mask_ ust) st else st in
  mk st
     (if negb (written_ fu) && U.written_ update then true else written_ tmp)
     (if negb (mode_changed_ fu) && U.mode_changed_ update then true else mode_changed_ tmp)
     (if negb (tmp_file_ fu) && U.tmp_file_ update then true else tmp_file_ tmp)
     propagated
     (generation_ tmp)
     (U.timestamp_source_ update)
     (unknown_err_ tmp).

(** [merge(update, propagated)].  The inner [None] is a [nullptr] result.
    Since usages are interned, returning [this] when nothing changed and
    [FileUsage::Get(tmp)] otherwise is returning the value [tmp]. *)
Definition merge (fu : t) (update : U.t) (propagated : bool) : outcome (option t * U.t) :=
  let gen := U.generation_ update in
  assert ((generation_ fu =? gen)
          || ((generation_ fu =? 0) && bool_decide (initial_type fu = DONTKNOW))
          || ((generation_ fu + 1) mod 2 ^ 32 =? gen)) ≫= fun _ =>
  let tmp := mk (initial_state_ fu) (written_ fu) (mode_changed_ fu) (tmp_file_ fu)
                (propagated_ fu) gen (timestamp_source_ fu) (unknown_err_ fu) in
  if negb (written_ fu) then
    match U.get_initial_type E update with
    | (None, update) => Ret (None, update)
    | (Some ut, update) =>
        r ← merge_initial fu ut update tmp;
        match r with
        | (None, update) => Ret (None, update)
        | (Some tmp, update) => Ret (Some (merge_rest fu update propagated tmp), update)
        end
    end
  else Ret (Some (merge_rest fu update propagated tmp), update).

(** ** Knowledge and merging *)

(** The invariant of updates: the state is well formed, and what is still to be
    computed lazily is consistent with the known type. *)
Definition wf_update (u : U.t) : Prop :=
  FileInfo.wf (U.initial_state_ u) /\
  (U.type_computer_ u = true ->
     type_ (U.initial_state_ u) = DONTKNOW /\ U.hash_computer_ u = true) /\
  (U.type_computer_ u = false -> U.hash_computer_ u = true ->
     type_ (U.initial_state_ u) = ISREG \/ type_ (U.initial_state_ u) = ISDIR).

Definition wf (fu : t) : Prop := FileInfo.wf (initial_state_ fu).

(** A failing hash computation reports a nonzero errno. *)
Context (env_errno : forall f w e, env_get_hash E f w = inl e -> e <> 0).

Lemma sat_ext i j e :
  type_ i = type_ j -> size_ i = size_ j -> hash_ i = hash_ j -> sat i e <-> sat j e.
Proof.
  intros H1 H2 H3. unfold sat, size_ok, hash_ok, size_known. by rewrite H1, H2, H3.
Qed.

Lemma type_computer_wf u :
  wf_update u -> U.type_computer_ u = true ->
  let v := U.type_computer_open_rdonly E u in
  wf_update v /\ (U.unknown_err_ v = 0 -> U.type_computer_ v = false).
Proof.
  intros (W & W2 & W3) Etc. destruct (W2 Etc) as [Ht Hh].
  pose proof (wf_no_hash _ W ltac:(congruence) ltac:(congruence)) as Hno.
  pose proof (wf_no_size _ W ltac:(congruence) ltac:(congruence)) as Hns.
  destruct W as (H1 & H2 & H3 & H4). unfold U.type_computer_open_rdonly.
  destruct (env_get_hash E _ _) as [e|[[h []] sz]] eqn:Eh; cbv zeta.
  - split; [done|]. intros He. by apply env_errno in Eh.
  - split; [|done]. split; [|done]. unfold FileInfo.wf. cbn. splits; [|done|by right|done].
    unfold size_known in *. cbn. by rewrite Hns.
  - split; [|done]. split; [|done]. unfold FileInfo.wf. cbn. splits; auto. done.
Qed.

Lemma get_initial_type_spec u r u' :
  wf_update u -> U.get_initial_type E u = (r, u') ->
  wf_update u' /\
  match r with
  | Some ut => U.unknown_err_ u' = 0 /\ U.type_computer_ u' = false /\
               type_ (U.initial_state_ u') = ut
  | None => U.unknown_err_ u' <> 0
  end.
Proof.
  intros Hwf. unfold U.get_initial_type. destruct (U.type_computer_ u) eqn:Etc.
  - destruct (type_computer_wf u Hwf Etc) as [Hv Ht]. cbv zeta in Hv, Ht.
    destruct (Z.eqb_spec (U.unknown_err_ (U.type_computer_open_rdonly E u)) 0);
      intros [= <- <-]; auto.
  - destruct (Z.eqb_spec (U.unknown_err_ u) 0); intros [= <- <-]; auto.
Qed.

(** What [adopt_hash] does to the usage and to the update. *)
Lemma adopt_hash_spec fu u tmp r u' :
  wf_update u -> U.type_computer_ u = false -> adopt_hash fu u tmp = Ret (r, u') ->
  match r with
  | None => U.unknown_err_ u' <> 0
  | Some tmp' =>
      wf_update u' /\ type_ (U.initial_state_ u') = type_ (U.initial_state_ u) /\
      size_ (U.initial_state_ u') = size_ (U.initial_state_ u) /\
      type_ (initial_state_ tmp') = type_ (initial_state_ tmp) /\
      size_ (initial_state_ tmp') = size_ (initial_state_ tmp) /\
      (initial_hash_known fu = true /\ hash_ (initial_state_ tmp') = hash_ (initial_state_ tmp) \/
       initial_hash_known fu = false /\ hash_ (U.initial_state_ u') = None /\
         hash_ (initial_state_ tmp') = hash_ (initial_state_ tmp) \/
       initial_hash_known fu = false /\
         hash_ (initial_state_ tmp') = hash_ (U.initial_state_ u'))
  end.
Proof.
  intros Hwf Htc. unfold adopt_hash. destruct (initial_hash_known fu) eqn:Ef; cbn [negb andb].
  { intros [= <- <-]. by splits; auto. }
  destruct (U.initial_hash_known u) eqn:Eu; cycle 1.
  { intros [= <- <-]. splits; auto. unfold U.initial_hash_known in Eu.
    apply orb_false_iff in Eu as [Eu%hash_known_None _]. auto. }
  intros H. inv_bind. destruct a as [o v]. unfold U.get_initial_hash in Hb. inv_bind.
  rename Hb into Hb1. rename Hb0 into Hty. rename Hb1 into Hb0.
  apply andb_true_iff in Hty as [_ Hty].
  apply orb_true_iff in Hty. rewrite !bool_decide_eq_true in Hty.
  destruct (U.hash_computer_ u) eqn:Ehc.
  - unfold U.hash_computer in Hb0.
    destruct (env_get_hash E _ _) as [e|[[h d] sz]] eqn:Eh; cbn in Hb0.
    + pose proof (env_errno _ _ _ Eh) as He. apply Z.eqb_neq in He. rewrite He in Hb0.
      injection Hb0 as <- <-. injection H as <- <-. cbn. by apply Z.eqb_neq.
    + destruct (Z.eqb_spec (U.unknown_err_ u) 0); injection Hb0 as <- <-;
        injection H as <- <-; [|done].
      cbn. splits; auto. destruct Hwf as ((H1 & H2 & H3 & H4) & H5 & H6).
      split; [|by rewrite Htc]. unfold FileInfo.wf. cbn. splits; auto.
  - unfold U.initial_hash_known in Eu. rewrite Ehc, orb_false_r in Eu.
    apply hash_known_Some in Eu as [h Eh]. rewrite Eh in Hb0. cbn in Hb0.
    destruct (Z.eqb_spec (U.unknown_err_ u) 0); injection Hb0 as <- <-;
      injection H as <- <-; [|done]. cbn. rewrite Eh. by splits; auto 6.
Qed.

(** The type, size and hash of the result of [merge_initial]. *)
Lemma merge_initial_spec fu ut u tmp tmp' u' :
  wf fu -> wf_update u -> U.type_computer_ u = false -> type_ (U.initial_state_ u) = ut ->
  initial_state_ tmp = initial_state_ fu ->
  merge_initial fu ut u tmp = Ret (Some tmp', u') ->
  wf_update u' /\ type_ (U.initial_state_ u') = ut /\
  size_ (U.initial_state_ u') = size_ (U.initial_state_ u).
Proof.
  intros Wf Wu Htc Hty Htmp. unfold merge_initial.
  assert (K : forall x, adopt_hash fu u x = Ret (Some tmp', u') ->
    wf_update u' /\ type_ (U.initial_state_ u') = ut /\
    size_ (U.initial_state_ u') = size_ (U.initial_state_ u)).
  { intros x Hx. pose proof (adopt_hash_spec _ _ _ _ _ Wu Htc Hx) as (? & ? & ? & _).
    splits; congruence. }
  assert (K' : forall x, Ret (Some x, u) = Ret (Some tmp', u') ->
    wf_update u' /\ type_ (U.initial_state_ u') = ut /\
    size_ (U.initial_state_ u') = size_ (U.initial_state_ u)).
  { by intros x [= <- <-]. }
  intros H. destruct (initial_type fu); repeat case_match; eauto; try done; inv_bind; eauto.
Qed.

Lemma adopt_size_state fu u tmp :
  type_ (initial_state_ (adopt_size fu u tmp)) = type_ (initial_state_ tmp) /\
  hash_ (initial_state_ (adopt_size fu u tmp)) = hash_ (initial_state_ tmp) /\
  size_ (initial_state_ (adopt_size fu u tmp)) =
    (if negb (initial_size_known fu) && U.initial_size_known u
     then size_ (U.initial_state_ u) else size_ (initial_state_ tmp)).
Proof. unfold adopt_size. by destruct (negb _ && _). Qed.

(** Adopting size and hash is the conjunction of what the usage and the update
    know, for an update of the type [ut] the usage ends up with. *)
Lemma adopt_size_exact fu u tmp s :
  initial_state_ tmp = initial_state_ fu \/ initial_state_ tmp = set_type (type_ (U.initial_state_ u)) (initial_state_ fu) ->
  (exists s0, size_ok (initial_state_ fu) s0 /\ size_ok (U.initial_state_ u) s0) ->
  size_ok (initial_state_ (adopt_size fu u tmp)) s <->
  size_ok (initial_state_ fu) s /\ size_ok (U.initial_state_ u) s.
Proof.
  intros Htmp (s0 & Hs1 & Hs2). destruct (adopt_size_state fu u tmp) as (_ & _ & Hsz).
  unfold initial_size_known, U.initial_size_known in *.
  assert (Ht : size_ (initial_state_ tmp) = size_ (initial_state_ fu)).
  { by destruct Htmp as [-> | ->]. }
  rewrite Ht in Hsz. unfold size_ok, size_known in *. rewrite Hsz.
  destruct (Z.leb_spec 0 (size_ (initial_state_ fu))), (Z.leb_spec 0 (size_ (U.initial_state_ u)));
    cbn [negb andb] in *;
    repeat match goal with |- context [?a <=? ?b] => destruct (Z.leb_spec a b) end;
    try lia; naive_solver lia.
Qed.

Lemma adopt_hash_exact fu u tmp tmp' u' h :
  wf_update u -> U.type_computer_ u = false -> adopt_hash fu u tmp = Ret (Some tmp', u') ->
  hash_ (initial_state_ tmp) = hash_ (initial_state_ fu) ->
  (exists h0, hash_ok (initial_state_ fu) h0 /\ hash_ok (U.initial_state_ u') h0) ->
  hash_ok (initial_state_ tmp') h <->
  hash_ok (initial_state_ fu) h /\ hash_ok (U.initial_state_ u') h.
Proof.
  intros Wu Htc Ha Htmp (h0 & H1 & H2).
  pose proof (adopt_hash_spec _ _ _ _ _ Wu Htc Ha) as (_ & _ & _ & _ & _ & Hc).
  unfold hash_ok, initial_hash_known in *.
  destruct Hc as [[[hf Hf]%hash_known_Some E1] | [(Hf%hash_known_None & E1 & E2) | [Hf%hash_known_None E1]]].
  - rewrite E1, Htmp, Hf in *. specialize (H1 _ eq_refl) as ->. naive_solver.
  - rewrite E2, Htmp, E1, Hf. naive_solver.
  - rewrite E1, Hf. naive_solver.
Qed.

Lemma copy_over_exact fu u tmp tmp' u' :
  wf fu -> wf_update u -> U.type_computer_ u = false ->
  initial_type fu = DONTKNOW \/ initial_type fu = EXIST ->
  initial_state_ tmp = initial_state_ fu ->
  adopt_hash fu u (adopt_size fu u
    (with_state (set_type (type_ (U.initial_state_ u))) tmp)) = Ret (Some tmp', u') ->
  type_meet (initial_type fu) (type_ (U.initial_state_ u)) = Some (type_ (U.initial_state_ u)) ->
  forall e, sat (initial_state_ tmp') e <->
            sat (initial_state_ fu) e /\ sat (U.initial_state_ u') e.
Proof.
  intros Wf Wu Htc Hty Htmp Ha Hm.
  assert (Sf : size_known (initial_state_ fu) = false /\ hash_ (initial_state_ fu) = None).
  { unfold initial_type in Hty. split; [apply wf_no_size|apply wf_no_hash]; auto;
      destruct Hty; congruence. }
  destruct Sf as [Sf Hf].
  pose proof (adopt_hash_spec _ _ _ _ _ Wu Htc Ha) as ((Wu' & _) & T' & S' & T & S & _).
  set (x := with_state _ tmp) in *.
  destruct (adopt_size_state fu u x) as (T2 & H2 & S2).
  intros e. apply sat_meet; [done..| | |].
  - rewrite T', T, T2. exact Hm.
  - intros _ s.
    assert (HS : forall i j, size_ i = size_ j -> size_ok i s <-> size_ok j s).
    { intros i j E1. unfold size_ok, size_known. by rewrite E1. }
    rewrite (HS _ _ S), (HS _ _ S'). apply adopt_size_exact.
    + right. subst x. cbn. by rewrite Htmp.
    + exists (size_ (U.initial_state_ u)). split; [auto with fb|done].
  - intros _ h. eapply adopt_hash_exact; [done..| |].
    + rewrite H2. subst x. cbn. by rewrite Htmp.
    + destruct (hash_ (U.initial_state_ u')) as [h0|] eqn:E0;
        [exists h0|exists Hash.zero]; (split; [auto with fb|]); unfold hash_ok; rewrite E0; naive_solver.
Qed.

Lemma size_ok_ext i j s : size_ i = size_ j -> size_ok i s <-> size_ok j s.
Proof. intros H. unfold size_ok, size_known. by rewrite H. Qed.

(** The same for a usage whose type is kept. *)
Lemma keep_type_exact fu u tmp tmp' u' (adopts_size : bool) :
  wf fu -> wf_update u -> U.type_computer_ u = false ->
  initial_state_ tmp = initial_state_ fu ->
  adopt_hash fu u (if adopts_size then adopt_size fu u tmp else tmp) = Ret (Some tmp', u') ->
  type_meet (initial_type fu) (type_ (U.initial_state_ u)) = Some (initial_type fu) ->
  (adopts_size = false -> initial_type fu = ISDIR) ->
  (adopts_size = true -> initial_type fu = ISREG) ->
  (exists e0, sat (initial_state_ fu) e0 /\ sat (U.initial_state_ u') e0) ->
  forall e, sat (initial_state_ tmp') e <->
            sat (initial_state_ fu) e /\ sat (U.initial_state_ u') e.
Proof.
  intros Wf Wu Htc Htmp Ha Hm Hd Hr (e0 & C1 & C2).
  pose proof (adopt_hash_spec _ _ _ _ _ Wu Htc Ha) as ((Wu' & _) & T' & S' & T & S & _).
  destruct (adopt_size_state fu u tmp) as (T2 & H2 & S2).
  assert (T3 : type_ (initial_state_ tmp') = initial_type fu).
  { rewrite T. destruct adopts_size; [rewrite T2|]; by rewrite Htmp. }
  unfold initial_type in *. intros e. apply sat_meet; [done..| | |].
  - by rewrite T', T3.
  - rewrite T3. intros Hty s. destruct adopts_size; [|rewrite Hd in Hty by done; naive_solver].
    rewrite (size_ok_ext _ _ _ S), (size_ok_ext _ _ _ S'). apply adopt_size_exact; [by left|].
    destruct e0 as [|s0 h0|h0]; [unfold sat in C1; by rewrite Hr in C1| |
      unfold sat in C1; by rewrite Hr in C1].
    exists s0. rewrite <- (size_ok_ext _ _ _ S').
    split; by eapply sat_regular.
  - intros _ h. eapply adopt_hash_exact; [done..| |].
    + destruct adopts_size; [rewrite H2|]; by rewrite Htmp.
    + destruct e0 as [|s0 h0|h0];
        [|by exists h0; split; eapply sat_regular|by exists h0; split; apply sat_directory].
      unfold sat in C1. by destruct adopts_size; [rewrite Hr in C1|rewrite Hd in C1].
Qed.

Lemma merge_rest_sat fu u p tmp e :
  sat (initial_state_ (merge_rest fu u p tmp)) e <-> sat (initial_state_ tmp) e.
Proof. unfold merge_rest. cbn. destruct (_ && _); apply sat_ext; done. Qed.

(** An update whose state is not looked at any further, in the cases where the
    usage already knows that the file did not exist. *)
Lemma notexist_exact i j :
  type_ i = NOTEXIST -> type_meet NOTEXIST (type_ j) = Some NOTEXIST ->
  forall e, sat i e <-> sat i e /\ sat j e.
Proof. intros H1 H2 e. unfold sat. rewrite H1. destruct (type_ j), e; naive_solver. Qed.

Lemma exist_reg_exact i j k :
  FileInfo.wf i -> FileInfo.wf j -> type_ i = EXIST -> type_ j = NOTEXIST_OR_ISREG ->
  type_ k = ISREG -> hash_ k = hash_ i ->
  size_ k = (if size_known j then size_ j else size_ i) ->
  forall e, sat k e <-> sat i e /\ sat j e.
Proof.
  intros Wi Wj Ti Tj Tk Hk Sk e.
  pose proof (wf_no_size i Wi ltac:(congruence) ltac:(congruence)) as Si.
  pose proof (wf_no_hash i Wi ltac:(congruence) ltac:(congruence)) as Hi.
  pose proof (wf_no_hash j Wj ltac:(congruence) ltac:(congruence)) as Hj.
  apply sat_meet; [done..| | |].
  - by rewrite Ti, Tj, Tk.
  - intros _ s. unfold size_ok in *. unfold size_known in *. rewrite Sk.
    destruct (0 <=? size_ j) eqn:Ej; rewrite ?Ej, ?Si; naive_solver.
  - intros _ h. unfold hash_ok. rewrite Hk, Hi, Hj. naive_solver.
Qed.

Lemma merge_initial_exact fu u tmp tmp' u' :
  wf fu -> wf_update u -> U.type_computer_ u = false ->
  initial_state_ tmp = initial_state_ fu ->
  merge_initial fu (type_ (U.initial_state_ u)) u tmp = Ret (Some tmp', u') ->
  initial_type fu <> NOTEXIST_OR_ISREG ->
  ~ (initial_type fu = EXIST /\ type_ (U.initial_state_ u') = DONTKNOW) ->
  (exists e0, sat (initial_state_ fu) e0 /\ sat (U.initial_state_ u') e0) ->
  forall e, sat (initial_state_ tmp') e <->
            sat (initial_state_ fu) e /\ sat (U.initial_state_ u') e.
Proof.
  intros Wf Wu Htc Htmp Hm Hn He C.
  destruct (merge_initial_spec _ _ _ _ _ _ Wf Wu Htc eq_refl Htmp Hm) as (Wu' & T' & _).
  unfold merge_initial in Hm. destruct (initial_type fu) eqn:Ef; [| | |done| |].
  - apply (copy_over_exact fu u tmp); auto; by rewrite Ef.
  - rewrite T' in He. destruct (type_ (U.initial_state_ u)) eqn:Eu; eval_decides Hm;
      try (apply (copy_over_exact fu u tmp); auto; rewrite ?Ef, ?Eu; done); [naive_solver|].
    unfold U.initial_size_known in Hm.
    destruct (size_known (U.initial_state_ u)) eqn:Es; inv_bind; injection Hm as <- <-;
      (apply exist_reg_exact; [apply Wf|apply Wu|done|done|done|cbn; by rewrite Htmp|]);
      rewrite Es; cbn; by rewrite ?Htmp.
  - intros e. destruct (type_ (U.initial_state_ u)) eqn:Eu; eval_decides Hm;
      try done; injection Hm as <- <-; rewrite Htmp; (apply notexist_exact; [done|]);
      by rewrite Eu.
  - destruct (type_ (U.initial_state_ u)) eqn:Eu; eval_decides Hm; try done;
      apply (keep_type_exact fu u tmp tmp' u' true); auto; rewrite ?Ef, ?Eu; done.
  - destruct (type_ (U.initial_state_ u)) eqn:Eu; eval_decides Hm; try done;
      apply (keep_type_exact fu u tmp tmp' u' false); auto; rewrite ?Ef, ?Eu; done.
Qed.

Lemma merge_initial_conflict fu u tmp u' :
  wf_update u -> U.type_computer_ u = false ->
  merge_initial fu (type_ (U.initial_state_ u)) u tmp = Ret (None, u') ->
  U.unknown_err_ u' <> 0 \/
  u' = u /\ type_meet (initial_type fu) (type_ (U.initial_state_ u)) = None.
Proof.
  intros Wu Htc Hm.
  assert (K : forall x, adopt_hash fu u x = Ret (None, u') -> U.unknown_err_ u' <> 0).
  { intros x Hx. exact (adopt_hash_spec _ _ _ _ _ Wu Htc Hx). }
  unfold merge_initial in Hm.
  destruct (initial_type fu), (type_ (U.initial_state_ u)); eval_decides Hm;
    try (left; exact (K _ Hm)); try (injection Hm as <-; by right); try done.
  destruct (U.initial_size_known u); inv_bind; done.
Qed.

(** Unfold a [merge] into a not yet written usage. *)
Lemma merge_unwritten fu u p r u' :
  wf_update u -> written_ fu = false -> merge fu u p = Ret (r, u') ->
  (r = None /\ U.unknown_err_ u' <> 0) \/
  exists v tmp o, wf_update v /\ U.type_computer_ v = false /\ U.unknown_err_ v = 0 /\
    initial_state_ tmp = initial_state_ fu /\ written_ tmp = false /\
    mode_changed_ tmp = mode_changed_ fu /\ tmp_file_ tmp = tmp_file_ fu /\
    generation_ tmp = U.generation_ u /\
    merge_initial fu (type_ (U.initial_state_ v)) v tmp = Ret (o, u') /\
    r = (tmp1 ← o; Some (merge_rest fu u' p tmp1)).
Proof.
  intros Wu Hw Hm. unfold merge in Hm. inv_bind. rewrite Hw in Hm. cbn [negb] in Hm.
  destruct (U.get_initial_type E u) as [o v] eqn:Eg.
  destruct (get_initial_type_spec _ _ _ Wu Eg) as [Wv Hv].
  destruct o as [ut|]; [|injection Hm as <- <-; by left].
  destruct Hv as (Hv1 & Hv2 & <-). right. inv_bind. destruct a0 as [o w].
  exists v. eexists. exists o. splits; [done..| | | | | | |].
  7: { destruct o; injection Hm as <- <-; done. }
  6: { rewrite Hb0. by destruct o; injection Hm as _ ->. }
  all: done.
Qed.

(** The two cases in which the update is not looked at, or replaces what is known. *)
Lemma merge_initial_kept fu ut u tmp tmp' u' :
  initial_type fu = NOTEXIST_OR_ISREG -> merge_initial fu ut u tmp = Ret (Some tmp', u') -> tmp' = tmp.
Proof. unfold merge_initial. intros ->. by intros [= -> _]. Qed.

Lemma merge_initial_lost fu u tmp tmp' u' :
  wf fu -> wf_update u -> U.type_computer_ u = false -> initial_state_ tmp = initial_state_ fu ->
  merge_initial fu (type_ (U.initial_state_ u)) u tmp = Ret (Some tmp', u') ->
  initial_type fu = EXIST -> type_ (U.initial_state_ u') = DONTKNOW -> type_ (initial_state_ tmp') = DONTKNOW.
Proof.
  intros Wf Wu Htc Htmp Hm Ef Eu.
  destruct (merge_initial_spec _ _ _ _ _ _ Wf Wu Htc eq_refl Htmp Hm) as (_ & T' & _). rewrite T' in Eu.
  unfold merge_initial in Hm. rewrite Ef, Eu in Hm. eval_decides Hm.
  pose proof (adopt_hash_spec _ _ _ _ _ Wu Htc Hm) as (_ & _ & _ & T & _).
  rewrite T. by destruct (adopt_size_state fu u (with_state (set_type DONTKNOW) tmp)) as (-> & _).
Qed.

(** C37. What an accepted merge knows of the initial state of the file, for an update whose lazy
    computation is done and does not contradict the usage.  For a file that has been written, and
    in the transient state [NOTEXIST_OR_ISREG], nothing changes.  Otherwise the merged usage is the
    conjunction of knowledge: the initial states that it allows are exactly those that both the
    usage and the update allow.  The exception is an [EXIST] usage with an update that knows nothing
    ([DONTKNOW]), after which all states are allowed ([merge_exist_loses_knowledge] is an instance).
    A failing hash computation is assumed to report an error; the hash cache does not always do that
    ([hash_failure_without_errno] is what happens then). *)
Theorem merge_exact fu u p fu' u' :
  wf fu -> wf_update u ->
  merge fu u p = Ret (Some fu', u') ->
  (exists e0, sat (initial_state_ fu) e0 /\ sat (U.initial_state_ u') e0) ->
  forall e, sat (initial_state_ fu') e <->
    if written_ fu || bool_decide (initial_type fu = NOTEXIST_OR_ISREG) then sat (initial_state_ fu) e
    else if bool_decide (initial_type fu = EXIST) && bool_decide (type_ (U.initial_state_ u') = DONTKNOW) then True
    else sat (initial_state_ fu) e /\ sat (U.initial_state_ u') e.
Proof.
  intros Wf Wu Hm C e. destruct (written_ fu) eqn:Hw; cbn [orb].
  { unfold merge in Hm. inv_bind. rewrite Hw in Hm. cbn [negb] in Hm. injection Hm as <- _. by rewrite merge_rest_sat. }
  destruct (merge_unwritten _ _ _ _ _ Wu Hw Hm)
    as [[? _]|(v & tmp & [tmp1|] & Wv & Htc & _ & Htmp & _ & _ & _ & _ & Hi & [= ->])]; [done|].
  rewrite merge_rest_sat. case_bool_decide as E1.
  { rewrite (merge_initial_kept _ _ _ _ _ _ E1 Hi). by rewrite Htmp. }
  destruct (bool_decide _ && _) eqn:E2.
  - rewrite andb_true_iff, !bool_decide_eq_true in E2. destruct E2 as [E2 E3].
    unfold sat. by rewrite (merge_initial_lost _ _ _ _ _ Wf Wv Htc Htmp Hi E2 E3).
  - apply andb_false_iff in E2. rewrite !bool_decide_eq_false in E2. eapply merge_initial_exact; [done..| |done]. tauto.
Qed.

(** Merging fails only for a reason: a [nullptr] result means that either
    the update carries an error, or no initial state of the file is allowed by
    both the usage and the update. *)
Theorem merge_conflict fu u p u' :
  wf_update u -> merge fu u p = Ret (None, u') ->
  U.unknown_err_ u' <> 0 \/
  forall e, ~ (sat (initial_state_ fu) e /\ sat (U.initial_state_ u') e).
Proof.
  intros Wu Hm. destruct (written_ fu) eqn:Hw.
  { unfold merge in Hm. inv_bind. by rewrite Hw in Hm. }
  destruct (merge_unwritten _ _ _ _ _ Wu Hw Hm)
    as [[_ ?]|(v & tmp & [tmp1|] & Wv & Htc & _ & Htmp & _ & _ & _ & _ & Hi & ?)];
    [by left|done|].
  destruct (merge_initial_conflict _ _ _ _ Wv Htc Hi) as [|[-> Hd]]; [by left|right].
  intros e [S1 S2]. by eapply sat_disjoint.
Qed.

(** ** Preservation of the invariant *)

Lemma wf_set_type ty i :
  FileInfo.wf i -> size_known i = false -> hash_ i = None -> FileInfo.wf (set_type ty i).
Proof.
  intros (_ & _ & _ & H4) Hs Hh. unfold FileInfo.wf. unfold size_known in *. cbn.
  rewrite Hs. splits; try done. intros [h Hk]%hash_known_Some. by cbn in Hk; rewrite Hh in Hk.
Qed.

Lemma adopt_size_wf fu u tmp :
  wf tmp -> wf_update u ->
  (U.initial_size_known u = true -> type_ (initial_state_ tmp) = ISREG \/
     type_ (initial_state_ tmp) = type_ (U.initial_state_ u)) ->
  wf (adopt_size fu u tmp).
Proof.
  intros Wt ((U1 & U2 & _) & _) Hty. unfold adopt_size, wf.
  destruct (negb _ && _) eqn:Eb; [|done]. bool_prop. destruct Wt as (H1 & H2 & H3 & H4).
  unfold FileInfo.wf. cbn. specialize (U1 ltac:(done)). specialize (Hty ltac:(done)).
  splits; try done.
  - intros _. destruct Hty as [-> | ->]; auto.
  - intros Hn _. apply U2; [|done]. destruct Hty; congruence.
Qed.

Lemma adopt_hash_wf fu u tmp tmp' u' :
  wf tmp -> wf_update u -> U.type_computer_ u = false ->
  adopt_hash fu u tmp = Ret (Some tmp', u') ->
  type_ (initial_state_ tmp) = type_ (U.initial_state_ u) \/
  type_ (initial_state_ tmp) = ISREG \/ type_ (initial_state_ tmp) = ISDIR ->
  wf tmp'.
Proof.
  intros Wt Wu Htc Ha Hty. unfold adopt_hash in Ha.
  destruct (negb _ && _); [|by injection Ha as <- <-].
  inv_bind. destruct a as [[h|] v]; [|done]. injection Ha as <- <-.
  unfold U.get_initial_hash in Hb. inv_bind. bool_prop.
  rewrite orb_true_iff, !bool_decide_eq_true in *.
  destruct Wt as (H1 & H2 & H3 & H4). unfold wf, FileInfo.wf. cbn. splits; try done.
  intros _. naive_solver congruence.
Qed.

Lemma merge_initial_wf fu u tmp tmp' u' :
  wf fu -> wf_update u -> U.type_computer_ u = false ->
  initial_state_ tmp = initial_state_ fu ->
  merge_initial fu (type_ (U.initial_state_ u)) u tmp = Ret (Some tmp', u') -> wf tmp'.
Proof.
  intros Wf Wu Htc Htmp Hm.
  assert (Wt : wf tmp) by (unfold wf; by rewrite Htmp).
  assert (Tt : type_ (initial_state_ tmp) = initial_type fu) by (by rewrite Htmp).
  assert (K : initial_type fu = DONTKNOW \/ initial_type fu = EXIST ->
    size_known (initial_state_ tmp) = false /\ hash_ (initial_state_ tmp) = None).
  { intros Hty. split; [apply wf_no_size|apply wf_no_hash]; auto; rewrite Tt;
      destruct Hty; congruence. }
  assert (C : initial_type fu = DONTKNOW \/ initial_type fu = EXIST ->
    adopt_hash fu u (adopt_size fu u (with_state (set_type (type_ (U.initial_state_ u))) tmp)) =
    Ret (Some tmp', u') -> wf tmp').
  { intros [Hs0 Hh0]%K Ha. eapply adopt_hash_wf; [|done..|].
    - apply adopt_size_wf; [by apply wf_set_type|done|by right].
    - left. by destruct (adopt_size_state fu u
        (with_state (set_type (type_ (U.initial_state_ u))) tmp)) as (-> & _). }
  unfold merge_initial in Hm.
  destruct (initial_type fu) eqn:Ef; [by auto| | | | |].
  - destruct (type_ (U.initial_state_ u)) eqn:Eu; eval_decides Hm; auto; [done|].
    assert (Wi : wf (with_state (set_type ISREG) tmp)).
    { destruct K; [by auto|]. by apply wf_set_type. }
    destruct (U.initial_size_known u); inv_bind; injection Hm as <- <-; [|done].
    destruct Wi as (H1 & H2 & H3 & H4). unfold wf, FileInfo.wf. cbn. splits; auto. done.
  - repeat case_match; by simplify_eq.
  - by simplify_eq.
  - case_match; [done|]. destruct (adopt_size_state fu u tmp) as (T2 & _).
    eapply adopt_hash_wf; [|done..|]; [by apply adopt_size_wf; auto|]. rewrite T2. auto.
  - case_match; [done|]. eapply adopt_hash_wf; [|done..|]; auto.
Qed.

Lemma merge_rest_wf fu u p tmp : wf tmp -> wf (merge_rest fu u p tmp).
Proof.
  intros W. unfold merge_rest, wf. cbn. destruct (_ && _); [|done]. by apply set_mode_bits_wf.
Qed.

(** The members of a usage other than the type, size and hash. *)
Definition frame (fu : t) : bool * bool * bool * Z * Z * Z :=
  (written_ fu, mode_changed_ fu, tmp_file_ fu, generation_ fu,
   mode_ (initial_state_ fu), mode_mask_ (initial_state_ fu)).

Lemma adopt_frame fu u tmp tmp' u' :
  adopt_hash fu u tmp = Ret (Some tmp', u') -> frame tmp' = frame tmp.
Proof.
  unfold adopt_hash. destruct (negb _ && _); [|by intros [= <- <-]].
  intros H. inv_bind. destruct a as [[h|] v]; [|done]. by injection H as <- <-.
Qed.

Lemma adopt_size_frame fu u tmp : frame (adopt_size fu u tmp) = frame tmp.
Proof. unfold adopt_size. by destruct (negb _ && _). Qed.

Lemma merge_initial_frame fu ut u tmp tmp' u' :
  merge_initial fu ut u tmp = Ret (Some tmp', u') -> frame tmp' = frame tmp.
Proof.
  unfold merge_initial. intros H.
  destruct (initial_type fu); repeat case_match; try done; inv_bind; simplify_eq; try done;
    apply adopt_frame in H; by rewrite ?adopt_size_frame in H.
Qed.

(** C38. Every accepted update keeps the usage well formed, moves it to the
    update's generation, only ever sets the written, mode-changed and
    temporary-file marks, and leaves the initial type, size and hash alone once
    the file was written, the initial mode alone once the mode was changed. *)
Theorem merge_invariant fu u p fu' u' :
  wf fu -> wf_update u -> merge fu u p = Ret (Some fu', u') ->
  wf fu' /\ generation_ fu' = U.generation_ u /\ propagated_ fu' = p /\
  written_ fu' = (written_ fu || U.written_ u') /\
  mode_changed_ fu' = (mode_changed_ fu || U.mode_changed_ u') /\
  tmp_file_ fu' = (tmp_file_ fu || U.tmp_file_ u') /\
  (written_ fu = true ->
     type_ (initial_state_ fu') = type_ (initial_state_ fu) /\
     size_ (initial_state_ fu') = size_ (initial_state_ fu) /\
     hash_ (initial_state_ fu') = hash_ (initial_state_ fu)) /\
  (mode_changed_ fu = true ->
     mode_ (initial_state_ fu') = mode_ (initial_state_ fu) /\
     mode_mask_ (initial_state_ fu') = mode_mask_ (initial_state_ fu)).
Proof.
  intros Wf Wu Hm. destruct (written_ fu) eqn:Hw.
  { unfold merge in Hm. inv_bind. rewrite Hw in Hm. cbn in Hm. injection Hm as <- <-.
    split; [by apply merge_rest_wf|]. unfold merge_rest. cbn. rewrite Hw. cbn.
    destruct (mode_changed_ fu), (tmp_file_ fu); cbn;
      splits; repeat case_match; try done; naive_solver. }
  destruct (merge_unwritten _ _ _ _ _ Wu Hw Hm) as [[? _]|(v & tmp & [tmp1|] & Wv & Htc & _ &
    Htmp & Hwt & Hmt & Htt & Hgt & Hi & [= ->])]; [done|].
  pose proof (merge_initial_wf _ _ _ _ _ Wf Wv Htc Htmp Hi) as Wt.
  apply merge_initial_frame in Hi. unfold frame in Hi. simplify_eq.
  split; [by apply merge_rest_wf|]. unfold merge_rest. cbn. rewrite Hw.
  destruct (mode_changed_ fu) eqn:Em, (tmp_file_ fu) eqn:Et; cbn;
    splits; repeat case_match; try done; try congruence; intros; split; congruence.
Qed.

End WithEnv.

(** ** Updates derived from system calls *)

Ltac wf_leaf := unfold wf_update, FileInfo.wf; cbn; splits; try done; auto.

Lemma open_params_wf E f gen parent flags mode err tmp u :
  U.get_from_open_params E f gen parent flags mode err tmp = Ret u -> wf_update u.
Proof.
  unfold U.get_from_open_params, U.update_from_enotdir, U.open_write_params. intros H.
  repeat (case_match; inv_bind; simplify_eq); try discriminate; try solve [wf_leaf];
    wf_leaf; unfold size_known in *; cbn in *; intros; bool_prop; lia.
Qed.

Lemma stat_params_wf f gen mode size err : wf_update (U.get_from_stat_params f gen mode size err).
Proof.
  unfold U.get_from_stat_params. repeat case_match; try solve [wf_leaf].
  - split; [|done]. cbn -[set_mode_bits].
    pose proof (set_mode_bits_wf mode mode_bits (of_type ISREG)) as W.
    destruct W as (W1 & W2 & W3 & W4); [by wf_leaf|]. unfold FileInfo.wf. splits; auto; done.
  - split; [|done]. cbn -[set_mode_bits]. apply set_mode_bits_wf. by wf_leaf.
Qed.

(** What [open()] does to an entry of the file system with mode bits [m0]: the
    errno, or the entry and mode bits afterwards; [empty] is the hash of an empty
    file. *)
Definition posix_open (empty : Hash.t) (flags mode_with_umask : Z) (e0 : entry) (m0 : Z)
    : Z + entry * Z :=
  let excl := has flags O_CREAT && has flags O_EXCL in
  match e0 with
  | Absent => if has flags O_CREAT then inr (Regular 0 empty, mode_with_umask) else inl ENOENT
  | Regular _ _ =>
      if excl then inl EEXIST
      else if has flags O_TRUNC then inr (Regular 0 empty, m0) else inr (e0, m0)
  | Directory _ =>
      if excl then inl EEXIST
      else if is_write flags || has flags O_CREAT then inl EISDIR else inr (e0, m0)
  end.

(** The answers of [E] about [f] are those for the entry [e] with mode bits [m]. *)
Definition describes (E : Env) (f : cstr) (e : entry) (m : Z) : Prop :=
  match e with
  | Absent => env_stat E f = inl ENOENT
  | Regular s h =>
      (exists st, env_stat E f = inr st /\ st_size st = s /\ Z.land (st_mode st) mode_bits = m) /\
      forall w, env_get_hash E f w = inr (h, false, s)
  | Directory h =>
      (exists st, env_stat E f = inr st /\ Z.land (st_mode st) mode_bits = m) /\
      forall w, exists s, env_get_hash E f w = inr (h, true, s)
  end.

Definition open_result (r : Z + entry * Z) : Z := match r with inl e => e | inr _ => 0 end.

(** Completing the type and the hash of an update, as [merge] does. *)
Definition complete (E : Env) (u : U.t) : outcome (option FileType * U.t) :=
  match U.get_initial_type E u with
  | (None, u) => Ret (None, u)
  | (Some ty, u) =>
      if U.initial_hash_known u
      then r ← U.get_initial_hash E u; Ret (Some ty, snd r)
      else Ret (Some ty, u)
  end.

Definition valid_entry (e : entry) : Prop :=
  match e with Regular s _ => 0 <= s | _ => True end.

(** The successful opening for reading only. *)
Lemma open_rdonly_sound E f gen e m o u' :
  valid_entry e -> describes E f e m -> e <> Absent ->
  complete E (U.set_computers true true (U.make_type f gen DONTKNOW false false)) = Ret (o, u') ->
  sat (U.initial_state_ u') e.
Proof.
  intros Hv Hd Hn Hc. unfold complete, U.get_initial_type in Hc. cbn -[U.get_initial_hash] in Hc.
  unfold U.type_computer_open_rdonly in Hc. cbn -[U.get_initial_hash] in Hc.
  destruct e as [|s h|h]; [done| |].
  - destruct Hd as [_ Hd]. rewrite Hd in Hc. cbn in Hc. injection Hc as <- <-. cbn.
    split; unfold size_ok, hash_ok; cbn; naive_solver.
  - destruct Hd as [_ Hd]. destruct (Hd 0) as [s Hs]. rewrite Hs in Hc. cbn in Hc.
    injection Hc as <- <-. cbn. unfold hash_ok. cbn. naive_solver.
Qed.

(** A failed [open()]. *)
Lemma open_failed_sound E f gen parent empty flags mode e0 m0 err u o u' :
  posix_open empty flags mode e0 m0 = inl err ->
  U.get_from_open_params E f gen parent flags mode err false = Ret u ->
  complete E u = Ret (Some o, u') -> sat (U.initial_state_ u') e0.
Proof.
  intros Ep Hu Hc. unfold U.get_from_open_params, posix_open in *.
  destruct (has flags O_CREAT), (has flags O_EXCL), (has flags O_TRUNC), (is_write flags), e0; cbn in Ep, Hu;
    simplify_eq; cbn in *; simplify_eq; cbn in *; by simplify_eq.
Qed.

(** Completing an update whose type is known. *)
Lemma complete_spec E u o u' :
  U.type_computer_ u = false -> complete E u = Ret (Some o, u') ->
  U.unknown_err_ u = 0 /\
  (U.hash_computer_ u = false -> U.initial_state_ u' = U.initial_state_ u) /\
  (U.hash_computer_ u = true -> forall h d s,
     env_get_hash E (U.filename_ u) (U.max_writers_ u) = inr (h, d, s) ->
     U.initial_state_ u' = set_hash (Some h) (U.initial_state_ u)).
Proof.
  intros Htc. unfold complete, U.get_initial_type. rewrite Htc.
  destruct (Z.eqb_spec (U.unknown_err_ u) 0) as [He|]; [|done]. split; [done|].
  destruct (U.initial_hash_known u) eqn:Ek.
  - inv_bind. unfold U.get_initial_hash in *. inv_bind. injection H as _ <-.
    destruct (U.hash_computer_ u) eqn:Ec; (split; [done|] || (split; [|done])).
    + intros _ h d s Hh. unfold U.hash_computer in Hb. rewrite Hh in Hb. cbn in Hb.
      rewrite He in Hb. cbn in Hb. by injection Hb as <-.
    + intros _. by destruct (_ =? 0); injection Hb as <-.
  - unfold U.initial_hash_known in Ek. apply orb_false_iff in Ek as [_ Ek]. rewrite Ek.
    injection H as _ <-. done.
Qed.

Ltac sat_leaf := cbn; unfold size_ok, hash_ok; cbn; splits; intros; simplify_eq; try done; lia.

(** A successful [open()] for writing. *)
Lemma open_write_sound E f gen empty flags mode e0 m0 e1 m1 r o u' :
  valid_entry e0 -> is_write flags = true ->
  posix_open empty flags mode e0 m0 = inr (e1, m1) -> describes E f e1 m1 ->
  U.open_write_params E f flags mode false (U.make_type f gen DONTKNOW false false) = Ret r ->
  complete E (match r with
              | inl u => u
              | inr u => U.set_max_writers 1 (U.set_written true (U.set_parent_type ISDIR u))
              end) = Ret (Some o, u') ->
  sat (U.initial_state_ u') e0.
Proof.
  intros Hv Hw Ep Hd Hu Hc. unfold U.open_write_params, posix_open in *. rewrite Hw in Ep.
  destruct (has flags O_CREAT && has flags O_EXCL) eqn:Ecx.
  { (* C + F *)
    injection Hu as <-. apply complete_spec in Hc as (_ & Hc & _); [|done].
    rewrite Hc by done. by destruct e0. }
  destruct (has flags O_TRUNC) eqn:Et; cbn in Hu; destruct (has flags O_CREAT) eqn:Ec;
    cbn in Hu, Ep.
  - (* B *) assert (e1 = Regular 0 empty /\ (e0 = Absent -> m1 = mode) /\ forall h, e0 <> Directory h)
      as (-> & Hm & He) by (destruct e0; naive_solver).
    destruct Hd as [(st & Es & Hsz & Hmo) _]. rewrite Es, Hsz in Hu. cbn in Hu. injection Hu as <-.
    apply complete_spec in Hc as (_ & Hc & _); [|by destruct (_ =? _)].
    rewrite Hc by (by destruct (_ =? _)). rewrite Hmo.
    destruct e0 as [|s h|h]; [rewrite Hm, Z.eqb_refl by done; done| |naive_solver].
    destruct (m1 =? mode); sat_leaf.
  - (* A *) injection Hu as <-. apply complete_spec in Hc as (_ & Hc & _); [|done].
    rewrite Hc by done. destruct e0; try done; sat_leaf.
  - (* E *) assert ((e0 = Absent /\ e1 = Regular 0 empty /\ m1 = mode) \/
      (e1 = e0 /\ exists s h, e0 = Regular s h)) as He by (destruct e0; naive_solver).
    destruct He as [(-> & -> & ->)|(-> & s & h & ->)];
      destruct Hd as [(st & Es & Hsz & Hmo) Hh]; rewrite Es, Hsz in Hu; cbn in Hu;
      injection Hu as <-.
    + rewrite Hmo, Z.eqb_refl in Hc. apply complete_spec in Hc as (_ & Hc & _); [|done].
      by rewrite Hc.
    + rewrite Hmo in Hc. cbn in Hv.
      apply complete_spec in Hc as (_ & Hc1 & Hc2);
        [|by destruct (_ <? _), (_ =? _)].
      destruct (Z.ltb_spec 0 s).
      * rewrite (Hc2 ltac:(by destruct (m1 =? mode)) h false s) by (destruct (m1 =? mode); apply Hh).
        destruct (m1 =? mode); sat_leaf.
      * rewrite Hc1 by (by destruct (_ =? _)).
        destruct (m1 =? mode); sat_leaf.
  - (* D *) injection Hu as <-. apply complete_spec in Hc as (_ & _ & Hc); [|done].
    destruct e0 as [|s h|h]; [done| |done]. simplify_eq. destruct Hd as [_ Hh].
    erewrite Hc by (done || apply Hh). sat_leaf.
Qed.


(** No assertion of [get_from_open_params()] fails. *)
Lemma open_params_returns E f gen parent empty flags mode e0 m0 :
  exists u, U.get_from_open_params E f gen parent flags mode (open_result (posix_open empty flags mode e0 m0)) false = Ret u.
Proof.
  assert (Hres : forall err, (err = EEXIST -> has flags O_CREAT && has flags O_EXCL = true) -> err = ENOENT \/ err = EEXIST \/ err = EISDIR ->
    exists u, U.get_from_open_params E f gen parent flags mode err false = Ret u).
  { intros err Hx He. unfold U.get_from_open_params. destruct He as [->|[->| ->]]; cbn; destruct (is_write flags); cbn; eauto.
    - destruct (has flags O_CREAT); cbn; eauto.
    - rewrite Hx by done. cbn. eauto. }
  destruct (posix_open empty flags mode e0 m0) as [err|[e1 m1]] eqn:Ep; cbn [open_result].
  - apply Hres; unfold posix_open in Ep; destruct e0; repeat case_match; simplify_eq; auto; try done; intros; by simplify_eq.
  - unfold U.get_from_open_params, U.open_write_params. cbn. destruct (is_write flags); [|eauto].
    destruct (has flags O_CREAT), (has flags O_EXCL), (has flags O_TRUNC); cbn; eauto;
      destruct (env_stat E f) as [|st]; cbn; eauto; destruct (0 <? st_size st); cbn; eauto.
Qed.

(** C39. Recording an [open()] call is sound for the calls that the table in the source (cases A to
    F) is about, and for those that fail with ENOENT, EEXIST or EISDIR ([posix_open] says when the
    call has which result): whatever the file was before the call,
    [get_from_open_params()] fails no assertion, and the knowledge it extracts from the flags, the
    result and the file's state after the call (lazy hashing included) allows that initial state,
    unless the update is marked with an unknown error.  Two kinds of calls are left out: opening for
    reading only with O_CREAT or O_TRUNC, where the code is wrong ([open_rdonly_creat_unsound]), and
    temporary files (tmp_file), for which nothing is claimed. *)
Theorem open_params_sound E f gen parent empty flags mode e0 m0 :
  valid_entry e0 ->
  is_write flags = true \/ (has flags O_CREAT = false /\ has flags O_TRUNC = false) ->
  (forall e1 m1, posix_open empty flags mode e0 m0 = inr (e1, m1) -> describes E f e1 m1) ->
  exists u, U.get_from_open_params E f gen parent flags mode
      (open_result (posix_open empty flags mode e0 m0)) false = Ret u /\
    forall o u', complete E u = Ret (Some o, u') -> sat (U.initial_state_ u') e0.
Proof.
  intros Hv Hfl Hd. destruct (open_params_returns E f gen parent empty flags mode e0 m0) as [u Hu]. exists u. split; [done|].
  intros o u' Hc.
  destruct (posix_open empty flags mode e0 m0) as [err|[e1 m1]] eqn:Ep; cbn [open_result] in Hu;
    [by eapply open_failed_sound|].
  specialize (Hd _ _ eq_refl). unfold U.get_from_open_params in Hu. cbn [Z.eqb] in Hu.
  destruct (is_write flags) eqn:Ew.
  - apply outcome_bind_Ret in Hu as (r & Hr & Hu).
    eapply open_write_sound; eauto. by destruct r; injection Hu as ->.
  - injection Hu as <-. destruct Hfl as [|[Hcr Htr]]; [done|].
    assert (e1 = e0 /\ e0 <> Absent) as [-> ?].
    { unfold posix_open in Ep. destruct e0; rewrite ?Hcr, ?Htr, ?Ew in Ep; cbn in Ep; naive_solver. }
    by eapply open_rdonly_sound.
Qed.

(** ** Concrete runs *)

(** A file system in which every path is the regular file with five bytes and
    mode 0644. *)
Definition demo_hash : Hash.t := Hash.mk 7 9.
Definition demo_env : Env := {|
  env_stat _ := inr {| st_mode := 33188; st_size := 5 |};
  env_lstat _ := inr {| st_mode := 33188; st_size := 5 |};
  env_get_hash _ _ := inr (demo_hash, false, 5);
  env_get_statinfo _ := Some false
|}.

Definition demo_name : cstr := cs "/tmp/a".

(** The update of a successful [open(O_RDONLY)], the usage after it, and the same
    for a preceding [access()]-like check. *)
Definition demo_open : U.t :=
  U.set_computers true true (U.make_type demo_name 0 DONTKNOW false false).
Definition demo_exist : t := mk (of_type EXIST) false false false false 0 None 0.
Definition demo_info : FileInfo.t := FileInfo.mk ISREG 5 (Some demo_hash) 0 0.

Lemma demo_errno f w e : env_get_hash demo_env f w = inl e -> e <> 0.
Proof. done. Qed.

Lemma demo_open_wf : wf_update demo_open.
Proof. by wf_leaf. Qed.

Lemma demo_exist_wf : wf demo_exist.
Proof. unfold wf. by wf_leaf. Qed.

Lemma merge_exact_witness :
  exists fu' u', merge demo_env demo_exist demo_open false = Ret (Some fu', u') /\
    forall e, sat (initial_state_ fu') e <->
              sat (initial_state_ demo_exist) e /\ sat (U.initial_state_ u') e.
Proof.
  destruct (merge demo_env demo_exist demo_open false) as [[[fu'|] u']| |] eqn:Em; vm_compute in Em; try discriminate Em.
  exists fu', u'. split; [reflexivity|].
  pose proof (merge_exact demo_env demo_errno demo_exist demo_open false fu' u' demo_exist_wf demo_open_wf Em) as H.
  injection Em as <- <-. intros e. apply H.
  exists (Regular 5 demo_hash). vm_compute. split; [done|]. split; [done|]. by intros h [= <-].
Defined.

Lemma merge_conflict_witness :
  exists u', merge demo_env (Get NOTEXIST) demo_open false = Ret (None, u') /\
    (U.unknown_err_ u' <> 0 \/
     forall e, ~ (sat (initial_state_ (Get NOTEXIST)) e /\ sat (U.initial_state_ u') e)).
Proof.
  eexists. split; [vm_compute; reflexivity|].
  eapply (merge_conflict demo_env demo_errno (Get NOTEXIST) demo_open false).
  - apply demo_open_wf.
  - vm_compute. reflexivity.
Defined.

Lemma merge_invariant_witness :
  exists fu' u', merge demo_env demo_exist demo_open false = Ret (Some fu', u') /\
    wf fu' /\ generation_ fu' = 0.
Proof.
  eexists _, _. split; [vm_compute; reflexivity|].
  pose proof (merge_invariant demo_env demo_errno demo_exist demo_open false _ _
    demo_exist_wf demo_open_wf ltac:(vm_compute; reflexivity)) as (H1 & H2 & _).
  exact (conj H1 H2).
Defined.

Lemma open_params_sound_witness :
  exists u u', U.get_from_open_params demo_env demo_name 0 None (O_RDWR + O_CREAT) 420 0 false = Ret u /\
    complete demo_env u = Ret (Some ISREG, u') /\
    sat (U.initial_state_ u') (Regular 5 demo_hash).
Proof.
  destruct (open_params_sound demo_env demo_name 0 None Hash.zero (O_RDWR + O_CREAT) 420
            (Regular 5 demo_hash) 420) as (u & Hu & Hs).
  - vm_compute. discriminate.
  - left. reflexivity.
  - intros e1 m1 [= <- <-]. split; [|done]. eexists. split; [done|]. done.
  - exists u. vm_compute in Hu. injection Hu as <-. eexists. split; [vm_compute; reflexivity|].
    split; [vm_compute; reflexivity|]. apply (Hs ISREG). vm_compute. reflexivity.
Defined.

(** Knowing nothing new must not lose knowledge, but it does in one case:
    merging an update that knows nothing ([DONTKNOW]) into a usage that knows the
    file existed ([EXIST]) yields a usage that allows the file to be absent. *)
Theorem merge_exist_loses_knowledge E :
  exists fu', merge E demo_exist (U.make_type demo_name 0 DONTKNOW false false) false
                = Ret (Some fu', U.make_type demo_name 0 DONTKNOW false false) /\
    ~ sat (initial_state_ demo_exist) Absent /\ sat (initial_state_ fu') Absent.
Proof. eexists. split; [vm_compute; reflexivity|]. by split; [intros H|]. Qed.

(** A read-only open that creates the file ([O_RDONLY|O_CREAT] on a missing
    path, which makes it an empty regular file) is recorded as if the file had
    been there before: the recorded knowledge excludes the true initial state. *)
Theorem open_rdonly_creat_unsound empty E f gen parent mode :
  describes E f (Regular 0 empty) mode ->
  posix_open empty (O_RDONLY + O_CREAT) mode Absent 0 = inr (Regular 0 empty, mode) /\
  exists u u', U.get_from_open_params E f gen parent (O_RDONLY + O_CREAT) mode 0 false = Ret u /\
    complete E u = Ret (Some ISREG, u') /\ ~ sat (U.initial_state_ u') Absent.
Proof.
  intros [_ Hh]. split; [done|]. eexists _, _. split; [vm_compute; reflexivity|].
  unfold complete, U.get_initial_type, U.type_computer_open_rdonly. cbn. rewrite Hh. cbn.
  by split; [|intros H].
Qed.

Lemma open_rdonly_creat_unsound_witness :
  let E := {| env_stat _ := inr {| st_mode := 33188; st_size := 0 |};
              env_lstat _ := inl ENOENT;
              env_get_hash _ _ := inr (Hash.zero, false, 0);
              env_get_statinfo _ := Some false |} in
  exists u, U.get_from_open_params E demo_name 0 None (O_RDONLY + O_CREAT) 420 0 false = Ret u.
Proof.
  intros E.
  destruct (open_rdonly_creat_unsound Hash.zero E demo_name 0 None 420) as (_ & u & _ & H & _).
  - split; [|done]. eexists. split; [reflexivity|]. split; reflexivity.
  - exists u. exact H.
Defined.

(** [HashCache::get_hash()] may refuse to hash a file that has writers without
    touching [errno].  When [errno] happens to be 0 at that point, the failure goes
    unnoticed: opening the file for writing without truncation then records the
    all-zero hash as the known initial content of the file, and opening it for
    reading fails the assertion that guards the lazy hash. *)
Theorem hash_failure_without_errno E f gen :
  (forall w, env_get_hash E f w = inl 0) ->
  exists u fu' u',
    U.get_from_open_params E f gen None O_WRONLY 0 0 false = Ret u /\
    merge E (mk (of_type DONTKNOW) false false false false gen None 0) u false
      = Ret (Some fu', u') /\
    hash_ (initial_state_ fu') = Some Hash.zero /\
    merge E (mk (of_type DONTKNOW) false false false false gen None 0)
      (U.set_computers true true (U.make_type f gen DONTKNOW false false)) false = Abort.
Proof.
  intros H. eexists _, _, _. split; [reflexivity|]. unfold merge. cbn -[Z.pow].
  rewrite !Z.eqb_refl. cbn -[Z.pow]. unfold U.get_initial_hash, U.hash_computer,
    U.get_initial_type, U.type_computer_open_rdonly. cbn -[Z.pow]. rewrite !H. cbn -[Z.pow].
  split; [reflexivity|]. by split.
Qed.

Lemma hash_failure_without_errno_witness :
  exists u, U.get_from_open_params
    {| env_stat _ := inl ENOENT; env_lstat _ := inl ENOENT; env_get_hash _ _ := inl 0;
       env_get_statinfo _ := None |} demo_name 0 None O_WRONLY 0 0 false = Ret u.
Proof.
  destruct (hash_failure_without_errno
    {| env_stat _ := inl ENOENT; env_lstat _ := inl ENOENT; env_get_hash _ _ := inl 0;
       env_get_statinfo _ := None |} demo_name 0) as (u & _ & _ & H & _).
  - intros w. reflexivity.
  - exists u. exact H.
Defined.
End FileUsage.
