(* ===== verification/Commands.v ===== *)
(** Recognising, resolving and rewriting the commands that are about to be executed:
    [ExeMatcher] (exe_matcher.{h,cc}), [Env::get_var] (env.h),
    [HashCache::resolve_command] (hash_cache.cc), [CommandRewriter]
    (command_rewriter.cc) and the counterpart of the latter in
    [ProcessFactory::getExecedProcess] (process_factory.cc). *)

From stdpp Require Import base list strings option gmap sets.
From Stdlib Require Import ZArith Lia Ascii.
From S2P Require Import Prelude Paths FileNames FileUsage.

(** * ExeMatcher *)

Module ExeMatcher.

Record t := mk { base_names_ : gset cstr; full_names_ : gset cstr }.

(** [exe.rfind('/')] and the part after it. *)
Definition exe_base (exe : cstr) : cstr := FileName.base_name exe.

Definition empty : t := mk ∅ ∅.

Definition add (m : t) (name : cstr) : t :=
  if bool_decide (slash ∈ name) then mk (base_names_ m) ({[name]} ∪ full_names_ m)
  else mk ({[name]} ∪ base_names_ m) (full_names_ m).

(** [match(exe)]. *)
Definition match_str (m : t) (exe : cstr) : bool :=
  bool_decide (exe_base exe ∈ base_names_ m) || bool_decide (exe ∈ full_names_ m).

(** [match(exe_file, executed_file, arg0)]. *)
Definition match_files (m : t) (exe_file : cstr) (executed_file : option cstr) (arg0 : cstr) : bool :=
  match_str m exe_file || match_str m arg0
  || (if bool_decide (executed_file = Some exe_file) then false
      else match executed_file with Some e => match_str m e | None => false end).

(** * What it recognises *)

(** A name without a slash stands for every executable with that base name, a path
    for itself. *)
Definition denotes (name exe : cstr) : Prop :=
  if bool_decide (slash ∈ name) then exe = name else exe_base exe = name.

Lemma match_add m name exe :
  match_str (add m name) exe = true <-> denotes name exe \/ match_str m exe = true.
Proof.
  unfold match_str, add, denotes. rewrite !orb_true_iff, !bool_decide_eq_true.
  case_bool_decide; cbn; rewrite elem_of_union, elem_of_singleton; tauto.
Qed.

(** A matcher built from the names of a configuration list recognises exactly
    the executables that one of the names denotes, whatever the order of the names. *)
Theorem match_str_correct names exe :
  match_str (fold_left add names empty) exe = true <-> exists name, name ∈ names /\ denotes name exe.
Proof.
  assert (H : forall m, match_str (fold_left add names m) exe = true <->
              (exists name, name ∈ names /\ denotes name exe) \/ match_str m exe = true).
  { induction names as [|n names IH]; intros m; cbn [fold_left].
    - split; [by right|]. by intros [(n & Hn & _)|H]; [inversion Hn|].
    - rewrite IH, match_add. setoid_rewrite elem_of_cons. naive_solver. }
  rewrite H. split; [|by left]. intros [|Hm]; [done|]. vm_compute in Hm. done.
Qed.

End ExeMatcher.

(** * Environment variables *)

(** [Env::get_var(env, var)]: the value of the first definition of [var]. *)
Fixpoint get_var (env : list cstr) (var : cstr) : option cstr :=
  match env with
  | [] => None
  | e :: env =>
      if (S (length var) <=? length e)%nat && bool_decide (take (length var) e = var)
         && bool_decide (char_at e (length var) = "="%char)
      then Some (drop (S (length var)) e)
      else get_var env var
  end.

(** * Looking up a command on PATH *)

Module Resolve.

(** The pieces of [path] between the colons, which the cursor of the loop visits. *)
Fixpoint path_elements (path : cstr) : list cstr :=
  match path with
  | [] => [[]]
  | c :: path' =>
      if bool_decide (c = ":"%char) then [] :: path_elements path'
      else match path_elements path' with
           | e :: es => (c :: e) :: es
           | [] => [[c]]
           end
  end.

(** The candidate for one element of PATH; [None] if it is skipped. *)
Definition candidate (element cmd : cstr) (wd : option cstr) : option cstr :=
  let dir := if Paths.is_canonical element then element else Paths.make_canonical element in
  let c := dir ++ slash :: cmd in
  if Paths.path_is_absolute c then Some c
  else match wd with
       | None => None
       | Some wd => Some (wd ++ slash :: c)
       end.

(** The loop: the command found, [paths_checked] and [paths_checked_is_dir]. *)
Fixpoint resolve_loop (E : Env) (elements : list cstr) (cmd : cstr) (wd : option cstr)
    (checked checked_is_dir : list cstr) : option cstr * list cstr * list cstr :=
  match elements with
  | [] => (None, checked, checked_is_dir)
  | e :: es =>
      match candidate e cmd wd with
      | None => resolve_loop E es cmd wd checked checked_is_dir
      | Some c =>
          match env_get_statinfo E c with
          | Some false => (Some c, checked, checked_is_dir)
          | Some true => resolve_loop E es cmd wd checked (checked_is_dir ++ [c])
          | None => resolve_loop E es cmd wd (checked ++ [c]) checked_is_dir
          end
      end
  end.

Definition resolve_command (E : Env) (cmd : cstr) (path : option cstr) (wd : option cstr)
    : outcome (option cstr * list cstr * list cstr) :=
  assert (negb (Paths.path_is_absolute cmd)) ≫= fun _ =>
  match path with
  | None => Ret (None, [], [])
  | Some path =>
      if (length cmd =? 0)%nat then Ret (None, [], [])
      else Ret (resolve_loop E (path_elements path) cmd wd [] [])
  end.

(** * What it finds *)

(** The search of the shells: the first candidate that is not a directory; the
    candidates passed over are reported by what they are. *)
Definition search (E : Env) (cands : list cstr) (r : option cstr * list cstr * list cstr) : Prop :=
  exists before after,
    cands = before ++ after /\
    Forall (fun c => env_get_statinfo E c <> Some false) before /\
    r.1.2 = filter (fun c => env_get_statinfo E c = None) before /\
    r.2 = filter (fun c => env_get_statinfo E c = Some true) before /\
    match r.1.1 with
    | Some c => head after = Some c /\ env_get_statinfo E c = Some false
    | None => after = []
    end.

Lemma search_cons E c cands r ck dirs :
  env_get_statinfo E c <> Some false ->
  search E cands (r, ck, dirs) ->
  search E (c :: cands)
    (r, (if decide (env_get_statinfo E c = None) then [c] else []) ++ ck,
        (if decide (env_get_statinfo E c = Some true) then [c] else []) ++ dirs).
Proof.
  intros Hc (before & after & -> & Hb & H1 & H2 & H3). cbn in *. subst ck dirs.
  exists (c :: before), after. cbn [fst snd]. rewrite !filter_cons.
  splits; [done|by constructor|repeat case_decide; done|repeat case_decide; done|done].
Qed.

Lemma resolve_loop_search E elements cmd wd cands :
  Forall2 (fun e c => candidate e cmd wd = Some c) elements cands ->
  forall ck dirs, exists r ck' dirs',
    resolve_loop E elements cmd wd ck dirs = (r, ck ++ ck', dirs ++ dirs') /\
    search E cands (r, ck', dirs').
Proof.
  induction 1 as [|e c elements cands Hc _ IH]; intros ck dirs; cbn [resolve_loop].
  { exists None, [], []. rewrite !app_nil_r. split; [done|]. exists [], []. by splits. }
  rewrite Hc. destruct (env_get_statinfo E c) as [[]|] eqn:Ec.
  - destruct (IH ck (dirs ++ [c])) as (r & ck' & dirs' & -> & Hs).
    exists r, ck', ([c] ++ dirs'). rewrite <- app_assoc. split; [done|].
    pose proof (search_cons E c cands r ck' dirs' ltac:(congruence) Hs) as H. by rewrite Ec in H.
  - exists (Some c), [], []. rewrite !app_nil_r. split; [done|].
    exists [], (c :: cands). by splits.
  - destruct (IH (ck ++ [c]) dirs) as (r & ck' & dirs' & -> & Hs).
    exists r, ([c] ++ ck'), dirs'. rewrite <- app_assoc. split; [done|].
    pose proof (search_cons E c cands r ck' dirs' ltac:(congruence) Hs) as H. by rewrite Ec in H.
Qed.

(** The candidate of an absolute directory other than "/". *)
Lemma candidate_absolute element cmd wd :
  NUL ∉ element -> Paths.path_is_absolute element = true -> Paths.comps element <> [] ->
  (slash ∉ cmd) -> Paths.good cmd = true ->
  candidate element cmd wd = Some (Paths.render true (Paths.comps element ++ [cmd])).
Proof.
  intros Hn Ha Hc Hs Hg. unfold candidate.
  assert (Hne : element <> []) by (by intros ->).
  assert ((if Paths.is_canonical element then element else Paths.make_canonical element)
          = Paths.render true (Paths.comps element)) as ->.
  { destruct (Paths.make_canonical_fixpoint element Hn) as [_ Hfix].
    assert (Hr : Paths.make_canonical element = Paths.render true (Paths.comps element)).
    { rewrite Paths.make_canonical_ref by done. unfold Paths.canonical_ref.
      by rewrite decide_False, Ha by done. }
    destruct (Paths.is_canonical element); [|done]. rewrite <- Hr. symmetry. by apply Hfix. }
  rewrite FileName.render_true_snoc.
  destruct (Paths.comps element) as [|c l]; [done|]. done.
Qed.

(** Looking up a command name on a PATH made of absolute directories finds what
    the shell would run: the candidates are the canonical paths of the command in
    the directories, in order, the result is the first that exists and is not a
    directory, and every candidate tried before it is reported in the right list. *)
Theorem resolve_command_correct E cmd path wd :
  cmd <> [] -> (slash ∉ cmd) -> Paths.good cmd = true ->
  Forall (fun e => (NUL ∉ e) /\ Paths.path_is_absolute e = true /\ Paths.comps e <> [])
         (path_elements path) ->
  exists r, resolve_command E cmd (Some path) wd = Ret r /\
    search E ((fun e => Paths.render true (Paths.comps e ++ [cmd])) <$> path_elements path) r.
Proof.
  intros Hne Hs Hg Hall. unfold resolve_command.
  assert (Paths.path_is_absolute cmd = false) as ->.
  { destruct cmd as [|c cmd]; [done|]. apply bool_decide_eq_false_2. cbn. intros ->.
    apply Hs. by left. }
  cbn [negb assert mbind outcome_bind]. destruct (Nat.eqb_spec (length cmd) 0) as [H0|_].
  { by destruct cmd. }
  edestruct (resolve_loop_search E (path_elements path) cmd wd) as (r & ck & dirs & Hr & Hsr).
  2: { eexists. split; [by rewrite Hr|]. exact Hsr. }
  apply Forall2_fmap_r, Forall_Forall2_diag. eapply Forall_impl; [exact Hall|].
  intros e (H1 & H2 & H3). by apply candidate_absolute.
Qed.

Definition demo_env : Env := {|
  env_stat _ := inl ENOENT;
  env_lstat _ := inl ENOENT;
  env_get_hash _ _ := inl ENOENT;
  env_get_statinfo c := if bool_decide (c = cs "/bin/ls") then Some false else None
|}.

Lemma resolve_command_correct_witness :
  resolve_command demo_env (cs "ls") (Some (cs "/usr//bin:/bin")) (Some (cs "/work"))
    = Ret (Some (cs "/bin/ls"), [cs "/usr/bin/ls"], []) /\
  exists r, resolve_command demo_env (cs "ls") (Some (cs "/usr//bin:/bin")) (Some (cs "/work"))
    = Ret r /\ search demo_env [cs "/usr/bin/ls"; cs "/bin/ls"] r.
Proof.
  split; [vm_compute; reflexivity|].
  apply (resolve_command_correct demo_env (cs "ls") (cs "/usr//bin:/bin")).
  - discriminate.
  - apply (bool_decide_eq_true_1 _). vm_compute. reflexivity.
  - reflexivity.
  - repeat constructor; first [apply (bool_decide_eq_true_1 _); vm_compute; reflexivity | reflexivity | discriminate].
Defined.

(** The elements of PATH that stand for the current directory are not looked up
    there: the empty element yields the command in the root directory, and "." a
    path in the working directory that is not in canonical form. *)
Theorem resolve_current_directory cmd wd :
  candidate [] cmd (Some wd) = Some (slash :: cmd) /\
  candidate [dot] cmd (Some wd) = Some (wd ++ cs "/./" ++ cmd) /\
  (wd <> [] -> NUL ∉ wd -> Paths.is_canonical (wd ++ cs "/./" ++ cmd) = false).
Proof.
  splits; [done|done|]. intros Hne Hn.
  unfold Paths.is_canonical.
  rewrite bool_decide_eq_false_2.
  2: { destruct wd as [|c wd]; [done|]. cbn. intros ->. apply Hn. by left. }
  destruct (Paths.strstr (wd ++ cs "/./" ++ cmd) (cs "/./")) eqn:Es.
  { rewrite !(bool_decide_eq_true_2 (is_Some (Some n))) by done. by rewrite orb_true_r. }
  pose proof (Paths.strstr_none _ _ Es (length wd)) as H. rewrite drop_app_length in H.
  rewrite length_app in H. specialize (H ltac:(lia)). discriminate H.
Qed.

Lemma resolve_current_directory_witness :
  Paths.is_canonical (cs "/work" ++ cs "/./" ++ cs "ls") = false.
Proof.
  apply (resolve_current_directory (cs "ls") (cs "/work")).
  - discriminate.
  - apply (bool_decide_eq_true_1 _). vm_compute. reflexivity.
Defined.

End Resolve.

(** * CommandRewriter *)

Module CommandRewriter.

Definition has_argument (arg : cstr) (args : list cstr) : bool := bool_decide (arg ∈ args).

(** [args->insert(args->begin() + position, ...)]; undefined past the end. *)
Definition insert_at (position : nat) (new_args args : list cstr) : outcome (list cstr) :=
  if (position <=? length args)%nat then Ret (take position args ++ new_args ++ drop position args)
  else Abort.

Section WithMatcher.
Context (dont_shortcut_matcher : ExeMatcher.t).

(** [add_argument(...)]: the arguments and whether they were modified. *)
Definition add_argument (pattern arg : cstr) (position : nat) (executable_name : cstr)
    (args : list cstr) : outcome (list cstr * bool) :=
  if bool_decide (executable_name = pattern)
     && negb (ExeMatcher.match_str dont_shortcut_matcher executable_name)
     && negb (has_argument arg args)
  then args ← insert_at position [arg] args; Ret (args, true)
  else Ret (args, false).

(** The loop of [replace_argument], which skips what it has inserted. *)
Fixpoint replace_loop (old_arg : cstr) (new_args args : list cstr) : list cstr * bool :=
  match args with
  | [] => ([], false)
  | a :: args =>
      let '(r, b) := replace_loop old_arg new_args args in
      if bool_decide (a = old_arg) then (new_args ++ r, true) else (a :: r, b)
  end.

Definition replace_argument (pattern old_arg : cstr) (new_args : list cstr) (executable_name : cstr)
    (args : list cstr) : list cstr * bool :=
  if bool_decide (executable_name = pattern)
     && negb (ExeMatcher.match_str dont_shortcut_matcher executable_name)
  then replace_loop old_arg new_args args else (args, false).

Definition emit_pch_new_args : list cstr := [cs "-emit-pch"; cs "-fno-pch-timestamp"].
Definition emit_pch_new_xclang_args : list cstr :=
  [cs "-emit-pch"; cs "-Xclang"; cs "-fno-pch-timestamp"].

(** The rewriting of the arguments of known commands. *)
Definition rewrite_known (args : list cstr) : outcome (list cstr * bool) :=
  match args with
  | [] => Ret (args, false)
  | arg0 :: _ =>
      let executable_name := FileName.base_name arg0 in
      if bool_decide (executable_name = cs "sphinx-build")
         && negb (has_argument (cs "--fresh-env") args)
      then add_argument (cs "sphinx-build") (cs "-E")
             (if has_argument (cs "-M") args then 5 else 1) executable_name args
      else if Paths.is_prefix (cs "clang") executable_name
              && negb (has_argument (cs "-fno-pch-timestamp") args)
      then Ret (replace_argument executable_name (cs "-emit-pch")
                  (if has_argument (cs "-cc1") args then emit_pch_new_args
                   else emit_pch_new_xclang_args) executable_name args)
      else Ret (args, false)
  end.

Definition QEMU_LIBC_SYSCALLS_OPTION : cstr := cs "-libc-syscalls".

(** What [maybe_rewrite()] leaves in its four parameters. *)
Record rewritten := mkRewritten {
  rw_executable : option cstr;
  rw_args : list cstr;
  rewritten_executable : bool;
  rewritten_args : bool
}.

(** [maybe_rewrite(...)]; [is_static] is the answer of [HashCache::get_is_static()]
    where it succeeds, and false for a null path. *)
Definition maybe_rewrite (qemu_user : option cstr) (is_static : cstr -> bool)
    (executable : option cstr) (args : list cstr) : outcome rewritten :=
  r ← rewrite_known args;
  let '(args, changed) := r in
  match qemu_user, executable with
  | Some q, Some exe =>
      if is_static exe then
        let args := match args with
                    | a :: rest => if bool_decide (slash ∈ a) then args else exe :: rest
                    | [] => []
                    end in
        Ret (mkRewritten (Some q) (q :: QEMU_LIBC_SYSCALLS_OPTION :: args) true true)
      else Ret (mkRewritten executable args false changed)
  | _, _ => Ret (mkRewritten executable args false changed)
  end.

End WithMatcher.

(** [ProcessFactory::getExecedProcess]: the executable and the arguments without the
    emulator, and whether it was used. *)
Definition strip_qemu (qemu_user : option cstr) (executable : cstr) (args : list cstr) (wd : cstr)
    : outcome (cstr * list cstr * bool) :=
  match args with
  | _ :: opt :: arg0 :: rest =>
      if bool_decide (qemu_user = Some executable) && bool_decide (opt = QEMU_LIBC_SYSCALLS_OPTION)
      then e ← FileName.GetCanonicalized arg0 wd; Ret (e, arg0 :: rest, true)
      else Ret (executable, args, false)
  | _ => Ret (executable, args, false)
  end.

(** * What rewriting does *)

Section Rewriting.
Context (m : ExeMatcher.t).

Lemma replace_loop_spec old new args :
  head new = Some old ->
  let '(r, b) := replace_loop old new args in
  sublist args r /\ (b = true <-> old ∈ args) /\ (b = false -> r = args) /\
  (b = true -> forall a, a ∈ new -> a ∈ r) /\
  (b = true -> (1 < length new)%nat -> (length args < length r)%nat).
Proof.
  intros Hh. assert (Hnew : exists rest, new = old :: rest).
  { destruct new as [|x rest]; [done|]. injection Hh as ->. by eexists. }
  destruct Hnew as [rest ->]. clear Hh.
  induction args as [|a args IH]; cbn; [splits; try done; split; [done|]; intros H; inversion H|].
  destruct (replace_loop old (old :: rest) args) as [r b].
  destruct IH as (H1 & H2 & H3 & H4 & H5). case_bool_decide as Ha; cbn.
  - subst a. splits; [|split; [by left|done]|done| |].
    + apply sublist_skip. by apply sublist_inserts_l.
    + intros _ a. rewrite !elem_of_cons, elem_of_app. tauto.
    + intros _ Hl. cbn. rewrite length_app. apply sublist_length in H1. lia.
  - splits; [by apply sublist_skip| |intros Hb; by rewrite H3| |].
    + rewrite elem_of_cons. split; [intros Hb; right; by apply H2|].
      intros [->|Hin]; [done|by apply H2].
    + intros Hb x Hx. right. by apply H4.
    + intros Hb Hl. cbn. specialize (H5 Hb Hl). lia.
Qed.

(** The head of a command line is kept by every rewriting. *)
Lemma insert_at_spec n new args r :
  insert_at n new args = Ret r ->
  sublist args r /\ (forall a, a ∈ new -> a ∈ r) /\ length r = (length args + length new)%nat /\
  ((0 < n)%nat -> head r = head args \/ args = []).
Proof.
  unfold insert_at. destruct (Nat.leb_spec n (length args)) as [Hn|]; [|done]. intros [= <-].
  splits.
  - rewrite <- (take_drop n args) at 1. apply sublist_app; [done|by apply sublist_inserts_l].
  - intros a Ha. rewrite !elem_of_app. tauto.
  - rewrite !length_app, length_take, length_drop. lia.
  - intros H0. destruct args as [|a args]; [by right|]. left. destruct n; [lia|]. done.
Qed.

Definition pch_args (b : bool) : list cstr :=
  if b then emit_pch_new_args else emit_pch_new_xclang_args.

Lemma pch_args_spec b :
  head (pch_args b) = Some (cs "-emit-pch") /\ (1 < length (pch_args b))%nat /\
  cs "-fno-pch-timestamp" ∈ pch_args b.
Proof.
  splits; [by destruct b|destruct b; cbn; lia|].
  destruct b; apply (bool_decide_eq_true_1 _); reflexivity.
Qed.

Lemma rewrite_sphinx_again args arg0 :
  head args = Some arg0 -> FileName.base_name arg0 = cs "sphinx-build" ->
  cs "-E" ∈ args \/ ExeMatcher.match_str m (cs "sphinx-build") = true ->
  rewrite_known m args = Ret (args, false).
Proof.
  intros Hh Hn H. unfold rewrite_known. destruct args as [|a args]; [done|].
  injection Hh as ->. rewrite Hn, bool_decide_eq_true_2 by done.
  destruct (has_argument (cs "--fresh-env") (arg0 :: args)); cbn [negb andb]; [done|].
  unfold add_argument. rewrite bool_decide_eq_true_2 by done. cbn [andb].
  destruct H as [H| ->]; [|done]. unfold has_argument at 1.
  rewrite (bool_decide_eq_true_2 (cs "-E" ∈ _)) by done. by rewrite andb_false_r.
Qed.

Lemma rewrite_clang_again args arg0 :
  head args = Some arg0 -> Paths.is_prefix (cs "clang") (FileName.base_name arg0) = true ->
  cs "-fno-pch-timestamp" ∈ args \/ (cs "-emit-pch" ∉ args) \/
    ExeMatcher.match_str m (FileName.base_name arg0) = true ->
  rewrite_known m args = Ret (args, false).
Proof.
  intros Hh Hn H. unfold rewrite_known. destruct args as [|a args]; [done|].
  injection Hh as ->. rewrite (bool_decide_eq_false_2 (_ = cs "sphinx-build")).
  2: { intros E. rewrite E in Hn. done. }
  cbn [andb]. rewrite Hn. unfold has_argument at 1.
  destruct H as [H|[H|H]]; [by rewrite bool_decide_eq_true_2| |];
    (case_bool_decide; cbn [negb andb]; [done|]); f_equal; unfold replace_argument;
    rewrite bool_decide_eq_true_2 by done; cbn [andb].
  - case_match; [|done]. change (replace_loop (cs "-emit-pch")
      (pch_args (has_argument (cs "-cc1") (arg0 :: args))) (arg0 :: args) = (arg0 :: args, false)).
    set (bb := has_argument _ _). destruct (pch_args_spec bb) as (Hh & _).
    pose proof (replace_loop_spec _ _ (arg0 :: args) Hh) as Hr. destruct (replace_loop _ _ _) as [r b].
    destruct Hr as (_ & Hb & Hsame & _). destruct b; [exfalso; by apply H, Hb|]. by rewrite Hsame.
  - by rewrite H.
Qed.

(** Rewriting a known command only ever inserts arguments: the original command
    line remains an ordered subsequence after the program name, the flag reports
    exactly whether anything was inserted, and rewriting the result again changes
    nothing. *)
Theorem rewrite_known_correct args args' b :
  rewrite_known m args = Ret (args', b) ->
  sublist args args' /\ head args' = head args /\ (b = true <-> args' <> args) /\
  rewrite_known m args' = Ret (args', false).
Proof.
  intros H. assert (Hsame : b = false -> args' = args ->
    sublist args args' /\ head args' = head args /\ (b = true <-> args' <> args) /\
    rewrite_known m args' = Ret (args', false)).
  { intros -> ->. by splits. }
  unfold rewrite_known in H. destruct args as [|arg0 rest] eqn:Eargs; [injection H as <- <-; auto|].
  rewrite <- Eargs in *. assert (Hhd : head args = Some arg0) by (by rewrite Eargs).
  case_match eqn:Esph; [|case_match eqn:Ecl; [|injection H as <- <-; by auto]].
  - apply andb_true_iff in Esph as [En%bool_decide_eq_true _]. unfold add_argument in H.
    case_match; [|injection H as <- <-; by auto].
    destruct (insert_at _ _ args) as [r| |] eqn:Ei; cbn in H; [|done|done]. injection H as <- <-.
    apply insert_at_spec in Ei as (H1 & H2 & H3 & H4). specialize (H4 ltac:(case_match; lia)).
    assert (Hr : head r = Some arg0) by (destruct H4 as [->| ->]; done).
    splits; [done|by rewrite Hr|split; [intros _ ->; cbn in H3; lia|done]|].
    apply (rewrite_sphinx_again r arg0); [done..|]. left. apply H2. by left.
  - apply andb_true_iff in Ecl as [Ecl Ets]. injection H as H. unfold replace_argument in H.
    case_match; [|injection H as <- <-; by auto].
    change (replace_loop (cs "-emit-pch") (pch_args (has_argument (cs "-cc1") args)) args
            = (args', b)) in H.
    destruct (pch_args_spec (has_argument (cs "-cc1") args)) as (Hp1 & Hp2 & Hp3).
    pose proof (replace_loop_spec _ _ args Hp1) as Hr.
    rewrite H in Hr. destruct Hr as (H1 & H2 & H3 & H4 & H5). destruct b; [|by auto].
    assert (Hr : head args' = Some arg0).
    { rewrite Eargs in H. cbn [replace_loop] in H. destruct (replace_loop _ _ rest) as [r0 b0].
      rewrite bool_decide_eq_false_2 in H; [by injection H as <- _|]. intros ->. done. }
    splits; [done|by rewrite Hr|split; [intros _ ->; specialize (H5 eq_refl); lia|done]|].
    apply (rewrite_clang_again args' arg0); [done..|]. left. by apply H4.
Qed.

(** A statically linked command is run by the emulator, and the supervisor gets
    the command back when the emulated process signs in: the emulator and its option
    are stripped, and the executable and arguments are those of the original command,
    with the program name replaced by the path where it would not lead back to the
    executable. *)
Theorem qemu_roundtrip q is_static exe args a rest b wd :
  rewrite_known m args = Ret (a :: rest, b) -> is_static exe = true ->
  Paths.is_canonical exe = true -> Paths.path_is_absolute exe = true ->
  exists r, maybe_rewrite m (Some q) is_static (Some exe) args = Ret r /\
    rw_executable r = Some q /\ rewritten_executable r = true /\ rewritten_args r = true /\
    strip_qemu (Some q) q (rw_args r) wd =
      if decide (slash ∈ a)
      then FileName.GetCanonicalized a wd ≫= fun e => Ret (e, a :: rest, true)
      else Ret (exe, exe :: rest, true).
Proof.
  intros Hk Hs Hc Ha. unfold maybe_rewrite. rewrite Hk. cbn [mbind outcome_bind]. rewrite Hs.
  eexists. splits; [done|done|done|done|]. cbn [rw_args]. destruct (decide (slash ∈ a)) as [Hi|Hi].
  - rewrite bool_decide_eq_true_2 by done. unfold strip_qemu. by rewrite !bool_decide_eq_true_2.
  - rewrite bool_decide_eq_false_2 by done. unfold strip_qemu. rewrite !bool_decide_eq_true_2 by done.
    cbn [andb]. unfold FileName.GetCanonicalized. by rewrite Hc, Ha.
Qed.

End Rewriting.

Lemma rewrite_known_correct_witness :
  let args := cs <$> ["clang"; "-cc1"; "-emit-pch"; "a.h"]%string in
  let args' := cs <$> ["clang"; "-cc1"; "-emit-pch"; "-fno-pch-timestamp"; "a.h"]%string in
  sublist args args' /\ head args' = head args /\ (true = true <-> args' <> args) /\
  rewrite_known ExeMatcher.empty args' = Ret (args', false).
Proof.
  cbv zeta. apply (rewrite_known_correct ExeMatcher.empty). vm_compute. reflexivity.
Defined.

Lemma qemu_roundtrip_witness :
  exists r, maybe_rewrite ExeMatcher.empty (Some (cs "/usr/bin/qemu-x86_64")) (fun _ => true)
              (Some (cs "/bin/busybox")) [cs "busybox"; cs "ls"] = Ret r /\
    rw_executable r = Some (cs "/usr/bin/qemu-x86_64") /\
    rewritten_executable r = true /\ rewritten_args r = true /\
    strip_qemu (Some (cs "/usr/bin/qemu-x86_64")) (cs "/usr/bin/qemu-x86_64") (rw_args r) (cs "/")
      = Ret (cs "/bin/busybox", [cs "/bin/busybox"; cs "ls"], true).
Proof.
  apply (qemu_roundtrip ExeMatcher.empty (cs "/usr/bin/qemu-x86_64") (fun _ => true)
           (cs "/bin/busybox") [cs "busybox"; cs "ls"] (cs "busybox") [cs "ls"] false (cs "/"));
    vm_compute; reflexivity.
Defined.

(** The position at which "-E" is inserted for [sphinx-build -M] assumes that the
    mode and the two directories follow: on a shorter command line the insertion is
    past the end of the vector, which is undefined. *)
Theorem sphinx_short_command_line args :
  head args = Some (cs "sphinx-build") -> cs "-M" ∈ args -> (cs "-E" ∉ args) ->
  (cs "--fresh-env" ∉ args) -> (length args < 5)%nat ->
  rewrite_known ExeMatcher.empty args = Abort.
Proof.
  intros Hh HM HE HF Hl. unfold rewrite_known. destruct args as [|a args]; [done|].
  assert (a = cs "sphinx-build") as -> by (by injection Hh). unfold has_argument.
  rewrite (bool_decide_eq_false_2 (cs "--fresh-env" ∈ _)) by done.
  rewrite (bool_decide_eq_true_2 (cs "-M" ∈ _)) by done.
  change (FileName.base_name (cs "sphinx-build")) with (cs "sphinx-build").
  rewrite bool_decide_eq_true_2 by done. cbn [negb andb]. unfold add_argument, has_argument.
  rewrite (bool_decide_eq_false_2 (cs "-E" ∈ _)) by done. rewrite bool_decide_eq_true_2 by done.
  cbn [negb andb]. change (ExeMatcher.match_str ExeMatcher.empty (cs "sphinx-build")) with false.
  cbn [negb andb]. unfold insert_at. cbv iota. destruct (Nat.leb_spec 5 (length (cs "sphinx-build" :: args))); [|done].
  lia.
Qed.

Lemma sphinx_short_command_line_witness :
  rewrite_known ExeMatcher.empty [cs "sphinx-build"; cs "-M"; cs "help"] = Abort.
Proof.
  apply sphinx_short_command_line; [reflexivity|..|cbn; lia];
    apply (bool_decide_eq_true_1 _); vm_compute; reflexivity.
Defined.

End CommandRewriter.
