(* ===== verification/World.v ===== *)
(** The supervisor's state: processes, their file descriptors, the open file
    descriptions behind them, and the table of files open for writing.

    A [Process *] is the process' [fb_pid_], the key of [w_procs]; a null pointer is
    [None].  [ExecedProcess] and [ForkedProcess] are the two alternatives of
    [kind_].  A [FileName *] is the path it denotes, since names are interned.  A
    [shared_ptr<FileOFD>] is the description's id with an explicit reference count;
    a [Pipe *] is an id, and every call made on a [Pipe] is appended to [w_log], as
    are the messages sent to the intercepted processes and the other effects on the
    outside.  The state is threaded through the monad [M], in which [Abort] is a
    failed assertion or the dereferencing of a null pointer. *)

From stdpp Require Import base list strings option gmap sets.
From Stdlib Require Import ZArith Lia Ascii.
From S2P Require Import Prelude Base64 Paths FileNames FileUsage Commands.

Local Open Scope Z_scope.

(** * Data *)

Definition pid_ref := nat.

(** file_fd.h *)
Inductive fd_type :=
| FD_UNINITIALIZED | FD_IGNORED | FD_FILE | FD_PIPE_IN | FD_PIPE_OUT | FD_SPECIAL
| FD_SCM_RIGHTS.

#[global] Instance fd_type_eq_dec : EqDecision fd_type.
Proof. solve_decision. Defined.


(** An open file description; [use_count] is that of the [shared_ptr]s to it. *)
Record FileOFD := mkOFD {
  id_ : nat;
  type_ : fd_type;
  filename_ : option cstr;
  flags_ : Z;
  opened_by_ : option pid_ref;
  use_count : nat
}.

Definition set_id_ (v : nat) (r : FileOFD) : FileOFD := mkOFD
  v (type_ r) (filename_ r) (flags_ r) (opened_by_ r) (use_count r).
Definition set_type_ (v : fd_type) (r : FileOFD) : FileOFD := mkOFD
  (id_ r) v (filename_ r) (flags_ r) (opened_by_ r) (use_count r).
Definition set_filename_ (v : option cstr) (r : FileOFD) : FileOFD := mkOFD
  (id_ r) (type_ r) v (flags_ r) (opened_by_ r) (use_count r).
Definition set_flags_ (v : Z) (r : FileOFD) : FileOFD := mkOFD
  (id_ r) (type_ r) (filename_ r) v (opened_by_ r) (use_count r).
Definition set_opened_by_ (v : option pid_ref) (r : FileOFD) : FileOFD := mkOFD
  (id_ r) (type_ r) (filename_ r) (flags_ r) v (use_count r).
Definition set_use_count (v : nat) (r : FileOFD) : FileOFD := mkOFD
  (id_ r) (type_ r) (filename_ r) (flags_ r) (opened_by_ r) v.

(** A file descriptor; [ffd_id] is the identity of the object, which the pipes use as a
    key.  [close_on_fork_] is set on macOS only and left out. *)
Record FileFD := mkFFD {
  ffd_id : nat;
  ofd_ : nat;
  pipe_ : option nat;
  cloexec_ : bool;
  close_on_popen_ : bool
}.

Definition set_ffd_id (v : nat) (r : FileFD) : FileFD := mkFFD
  v (ofd_ r) (pipe_ r) (cloexec_ r) (close_on_popen_ r).
Definition set_ofd_ (v : nat) (r : FileFD) : FileFD := mkFFD
  (ffd_id r) v (pipe_ r) (cloexec_ r) (close_on_popen_ r).
Definition set_pipe_ (v : option nat) (r : FileFD) : FileFD := mkFFD
  (ffd_id r) (ofd_ r) v (cloexec_ r) (close_on_popen_ r).
Definition set_cloexec_ (v : bool) (r : FileFD) : FileFD := mkFFD
  (ffd_id r) (ofd_ r) (pipe_ r) v (close_on_popen_ r).
Definition set_close_on_popen_ (v : bool) (r : FileFD) : FileFD := mkFFD
  (ffd_id r) (ofd_ r) (pipe_ r) (cloexec_ r) v.

(** execed_process_env.h *)
Inductive LaunchType :=
| LAUNCH_TYPE_SYSTEM | LAUNCH_TYPE_POPEN | LAUNCH_TYPE_POSIX_SPAWN | LAUNCH_TYPE_OTHER.

#[global] Instance LaunchType_eq_dec : EqDecision LaunchType.
Proof. solve_decision. Defined.

(** The vector of shared pointers to the descriptors, null where nothing is open. *)
Abbreviation fd_table := (list (option FileFD)).

Record ExecedProcessEnv := mkEnv {
  argv_ : list cstr;
  launch_type_ : LaunchType;
  type_flags_ : Z;
  env_fds_ : option fd_table
}.

(** execed_process.h; [recorder] is the id of the recorder. *)
Record inherited_file_t := mkInherited {
  if_type : fd_type;
  if_fds : list Z;
  if_recorder : option nat;
  if_filename : option cstr;
  if_flags : Z;
  if_start_offset : Z
}.

(** Why a process can't be shortcut: the constant text, and what the code appends to
    it. *)
Inductive reason_detail :=
| DFd (fd : Z) (name : option cstr)
| DFile (name : cstr)
| DStr (str : cstr)
| DArgs (argv : list cstr)
| DWriter (name : cstr) (other_pid : Z) (other_args : cstr)
| DMerge (name : cstr).

Record reason_t := Reason { r_text : string; r_detail : option reason_detail }.
Coercion plain (s : string) : reason_t := Reason s None.

Inductive process_state := FB_PROC_RUNNING | FB_PROC_TERMINATED | FB_PROC_FINALIZED.

#[global] Instance process_state_eq_dec : EqDecision process_state.
Proof. solve_decision. Defined.

(** What an [ExecedProcess] has beyond a [Process] (execed_process.h). *)
Record Execed := mkExeced {
  can_shortcut_ : bool;
  was_shortcut_ : bool;
  qemu_user_used_ : bool;
  jobserver_fd_r_ : Z;
  jobserver_fd_w_ : Z;
  fork_point_ : option pid_ref;
  maybe_shortcutable_ancestor_ : option pid_ref;
  utime_u_ : Z;
  stime_u_ : Z;
  children_cpu_time_u_ : Z;
  shortcut_cpu_time_ms_ : Z;
  initial_wd_ : cstr;
  wds_ : gset cstr;
  failed_wds_ : gset cstr;
  args_ : list cstr;
  env_vars_ : list cstr;
  executable_ : cstr;
  executed_path_ : cstr;
  original_executed_path_ : cstr;
  libs_ : list cstr;
  file_usages_ : gmap cstr FileUsage.t;
  created_pipes_ : list nat;
  inherited_files_ : list inherited_file_t;
  cant_shortcut_reason_ : option reason_t;
  cant_shortcut_proc_ : option pid_ref;
  shortcut_result_ : option string;
  jobserver_fifo_ : option cstr
}.

Definition set_can_shortcut_ (v : bool) (r : Execed) : Execed := mkExeced
  v (was_shortcut_ r) (qemu_user_used_ r) (jobserver_fd_r_ r) (jobserver_fd_w_ r)
    (fork_point_ r) (maybe_shortcutable_ancestor_ r) (utime_u_ r) (stime_u_ r)
    (children_cpu_time_u_ r) (shortcut_cpu_time_ms_ r) (initial_wd_ r) (wds_ r) (failed_wds_ r)
    (args_ r) (env_vars_ r) (executable_ r) (executed_path_ r) (original_executed_path_ r)
    (libs_ r) (file_usages_ r) (created_pipes_ r) (inherited_files_ r) (cant_shortcut_reason_ r)
    (cant_shortcut_proc_ r) (shortcut_result_ r) (jobserver_fifo_ r).
Definition set_was_shortcut_ (v : bool) (r : Execed) : Execed := mkExeced
  (can_shortcut_ r) v (qemu_user_used_ r) (jobserver_fd_r_ r) (jobserver_fd_w_ r)
    (fork_point_ r) (maybe_shortcutable_ancestor_ r) (utime_u_ r) (stime_u_ r)
    (children_cpu_time_u_ r) (shortcut_cpu_time_ms_ r) (initial_wd_ r) (wds_ r) (failed_wds_ r)
    (args_ r) (env_vars_ r) (executable_ r) (executed_path_ r) (original_executed_path_ r)
    (libs_ r) (file_usages_ r) (created_pipes_ r) (inherited_files_ r) (cant_shortcut_reason_ r)
    (cant_shortcut_proc_ r) (shortcut_result_ r) (jobserver_fifo_ r).
Definition set_qemu_user_used_ (v : bool) (r : Execed) : Execed := mkExeced
  (can_shortcut_ r) (was_shortcut_ r) v (jobserver_fd_r_ r) (jobserver_fd_w_ r) (fork_point_ r)
    (maybe_shortcutable_ancestor_ r) (utime_u_ r) (stime_u_ r) (children_cpu_time_u_ r)
    (shortcut_cpu_time_ms_ r) (initial_wd_ r) (wds_ r) (failed_wds_ r) (args_ r) (env_vars_ r)
    (executable_ r) (executed_path_ r) (original_executed_path_ r) (libs_ r) (file_usages_ r)
    (created_pipes_ r) (inherited_files_ r) (cant_shortcut_reason_ r) (cant_shortcut_proc_ r)
    (shortcut_result_ r) (jobserver_fifo_ r).
Definition set_jobserver_fd_r_ (v : Z) (r : Execed) : Execed := mkExeced
  (can_shortcut_ r) (was_shortcut_ r) (qemu_user_used_ r) v (jobserver_fd_w_ r) (fork_point_ r)
    (maybe_shortcutable_ancestor_ r) (utime_u_ r) (stime_u_ r) (children_cpu_time_u_ r)
    (shortcut_cpu_time_ms_ r) (initial_wd_ r) (wds_ r) (failed_wds_ r) (args_ r) (env_vars_ r)
    (executable_ r) (executed_path_ r) (original_executed_path_ r) (libs_ r) (file_usages_ r)
    (created_pipes_ r) (inherited_files_ r) (cant_shortcut_reason_ r) (cant_shortcut_proc_ r)
    (shortcut_result_ r) (jobserver_fifo_ r).
Definition set_jobserver_fd_w_ (v : Z) (r : Execed) : Execed := mkExeced
  (can_shortcut_ r) (was_shortcut_ r) (qemu_user_used_ r) (jobserver_fd_r_ r) v (fork_point_ r)
    (maybe_shortcutable_ancestor_ r) (utime_u_ r) (stime_u_ r) (children_cpu_time_u_ r)
    (shortcut_cpu_time_ms_ r) (initial_wd_ r) (wds_ r) (failed_wds_ r) (args_ r) (env_vars_ r)
    (executable_ r) (executed_path_ r) (original_executed_path_ r) (libs_ r) (file_usages_ r)
    (created_pipes_ r) (inherited_files_ r) (cant_shortcut_reason_ r) (cant_shortcut_proc_ r)
    (shortcut_result_ r) (jobserver_fifo_ r).
Definition set_fork_point_ (v : option pid_ref) (r : Execed) : Execed := mkExeced
  (can_shortcut_ r) (was_shortcut_ r) (qemu_user_used_ r) (jobserver_fd_r_ r)
    (jobserver_fd_w_ r) v (maybe_shortcutable_ancestor_ r) (utime_u_ r) (stime_u_ r)
    (children_cpu_time_u_ r) (shortcut_cpu_time_ms_ r) (initial_wd_ r) (wds_ r) (failed_wds_ r)
    (args_ r) (env_vars_ r) (executable_ r) (executed_path_ r) (original_executed_path_ r)
    (libs_ r) (file_usages_ r) (created_pipes_ r) (inherited_files_ r) (cant_shortcut_reason_ r)
    (cant_shortcut_proc_ r) (shortcut_result_ r) (jobserver_fifo_ r).
Definition set_maybe_shortcutable_ancestor_ (v : option pid_ref) (r : Execed) : Execed := mkExeced
  (can_shortcut_ r) (was_shortcut_ r) (qemu_user_used_ r) (jobserver_fd_r_ r)
    (jobserver_fd_w_ r) (fork_point_ r) v (utime_u_ r) (stime_u_ r) (children_cpu_time_u_ r)
    (shortcut_cpu_time_ms_ r) (initial_wd_ r) (wds_ r) (failed_wds_ r) (args_ r) (env_vars_ r)
    (executable_ r) (executed_path_ r) (original_executed_path_ r) (libs_ r) (file_usages_ r)
    (created_pipes_ r) (inherited_files_ r) (cant_shortcut_reason_ r) (cant_shortcut_proc_ r)
    (shortcut_result_ r) (jobserver_fifo_ r).
Definition set_utime_u_ (v : Z) (r : Execed) : Execed := mkExeced
  (can_shortcut_ r) (was_shortcut_ r) (qemu_user_used_ r) (jobserver_fd_r_ r)
    (jobserver_fd_w_ r) (fork_point_ r) (maybe_shortcutable_ancestor_ r) v (stime_u_ r)
    (children_cpu_time_u_ r) (shortcut_cpu_time_ms_ r) (initial_wd_ r) (wds_ r) (failed_wds_ r)
    (args_ r) (env_vars_ r) (executable_ r) (executed_path_ r) (original_executed_path_ r)
    (libs_ r) (file_usages_ r) (created_pipes_ r) (inherited_files_ r) (cant_shortcut_reason_ r)
    (cant_shortcut_proc_ r) (shortcut_result_ r) (jobserver_fifo_ r).
Definition set_stime_u_ (v : Z) (r : Execed) : Execed := mkExeced
  (can_shortcut_ r) (was_shortcut_ r) (qemu_user_used_ r) (jobserver_fd_r_ r)
    (jobserver_fd_w_ r) (fork_point_ r) (maybe_shortcutable_ancestor_ r) (utime_u_ r) v
    (children_cpu_time_u_ r) (shortcut_cpu_time_ms_ r) (initial_wd_ r) (wds_ r) (failed_wds_ r)
    (args_ r) (env_vars_ r) (executable_ r) (executed_path_ r) (original_executed_path_ r)
    (libs_ r) (file_usages_ r) (created_pipes_ r) (inherited_files_ r) (cant_shortcut_reason_ r)
    (cant_shortcut_proc_ r) (shortcut_result_ r) (jobserver_fifo_ r).
Definition set_children_cpu_time_u_ (v : Z) (r : Execed) : Execed := mkExeced
  (can_shortcut_ r) (was_shortcut_ r) (qemu_user_used_ r) (jobserver_fd_r_ r)
    (jobserver_fd_w_ r) (fork_point_ r) (maybe_shortcutable_ancestor_ r) (utime_u_ r)
    (stime_u_ r) v (shortcut_cpu_time_ms_ r) (initial_wd_ r) (wds_ r) (failed_wds_ r) (args_ r)
    (env_vars_ r) (executable_ r) (executed_path_ r) (original_executed_path_ r) (libs_ r)
    (file_usages_ r) (created_pipes_ r) (inherited_files_ r) (cant_shortcut_reason_ r)
    (cant_shortcut_proc_ r) (shortcut_result_ r) (jobserver_fifo_ r).
Definition set_shortcut_cpu_time_ms_ (v : Z) (r : Execed) : Execed := mkExeced
  (can_shortcut_ r) (was_shortcut_ r) (qemu_user_used_ r) (jobserver_fd_r_ r)
    (jobserver_fd_w_ r) (fork_point_ r) (maybe_shortcutable_ancestor_ r) (utime_u_ r)
    (stime_u_ r) (children_cpu_time_u_ r) v (initial_wd_ r) (wds_ r) (failed_wds_ r) (args_ r)
    (env_vars_ r) (executable_ r) (executed_path_ r) (original_executed_path_ r) (libs_ r)
    (file_usages_ r) (created_pipes_ r) (inherited_files_ r) (cant_shortcut_reason_ r)
    (cant_shortcut_proc_ r) (shortcut_result_ r) (jobserver_fifo_ r).
Definition set_initial_wd_ (v : cstr) (r : Execed) : Execed := mkExeced
  (can_shortcut_ r) (was_shortcut_ r) (qemu_user_used_ r) (jobserver_fd_r_ r)
    (jobserver_fd_w_ r) (fork_point_ r) (maybe_shortcutable_ancestor_ r) (utime_u_ r)
    (stime_u_ r) (children_cpu_time_u_ r) (shortcut_cpu_time_ms_ r) v (wds_ r) (failed_wds_ r)
    (args_ r) (env_vars_ r) (executable_ r) (executed_path_ r) (original_executed_path_ r)
    (libs_ r) (file_usages_ r) (created_pipes_ r) (inherited_files_ r) (cant_shortcut_reason_ r)
    (cant_shortcut_proc_ r) (shortcut_result_ r) (jobserver_fifo_ r).
Definition set_wds_ (v : gset cstr) (r : Execed) : Execed := mkExeced
  (can_shortcut_ r) (was_shortcut_ r) (qemu_user_used_ r) (jobserver_fd_r_ r)
    (jobserver_fd_w_ r) (fork_point_ r) (maybe_shortcutable_ancestor_ r) (utime_u_ r)
    (stime_u_ r) (children_cpu_time_u_ r) (shortcut_cpu_time_ms_ r) (initial_wd_ r) v
    (failed_wds_ r) (args_ r) (env_vars_ r) (executable_ r) (executed_path_ r)
    (original_executed_path_ r) (libs_ r) (file_usages_ r) (created_pipes_ r)
    (inherited_files_ r) (cant_shortcut_reason_ r) (cant_shortcut_proc_ r) (shortcut_result_ r)
    (jobserver_fifo_ r).
Definition set_failed_wds_ (v : gset cstr) (r : Execed) : Execed := mkExeced
  (can_shortcut_ r) (was_shortcut_ r) (qemu_user_used_ r) (jobserver_fd_r_ r)
    (jobserver_fd_w_ r) (fork_point_ r) (maybe_shortcutable_ancestor_ r) (utime_u_ r)
    (stime_u_ r) (children_cpu_time_u_ r) (shortcut_cpu_time_ms_ r) (initial_wd_ r) (wds_ r) v
    (args_ r) (env_vars_ r) (executable_ r) (executed_path_ r) (original_executed_path_ r)
    (libs_ r) (file_usages_ r) (created_pipes_ r) (inherited_files_ r) (cant_shortcut_reason_ r)
    (cant_shortcut_proc_ r) (shortcut_result_ r) (jobserver_fifo_ r).
Definition set_args_ (v : list cstr) (r : Execed) : Execed := mkExeced
  (can_shortcut_ r) (was_shortcut_ r) (qemu_user_used_ r) (jobserver_fd_r_ r)
    (jobserver_fd_w_ r) (fork_point_ r) (maybe_shortcutable_ancestor_ r) (utime_u_ r)
    (stime_u_ r) (children_cpu_time_u_ r) (shortcut_cpu_time_ms_ r) (initial_wd_ r) (wds_ r)
    (failed_wds_ r) v (env_vars_ r) (executable_ r) (executed_path_ r)
    (original_executed_path_ r) (libs_ r) (file_usages_ r) (created_pipes_ r)
    (inherited_files_ r) (cant_shortcut_reason_ r) (cant_shortcut_proc_ r) (shortcut_result_ r)
    (jobserver_fifo_ r).
Definition set_env_vars_ (v : list cstr) (r : Execed) : Execed := mkExeced
  (can_shortcut_ r) (was_shortcut_ r) (qemu_user_used_ r) (jobserver_fd_r_ r)
    (jobserver_fd_w_ r) (fork_point_ r) (maybe_shortcutable_ancestor_ r) (utime_u_ r)
    (stime_u_ r) (children_cpu_time_u_ r) (shortcut_cpu_time_ms_ r) (initial_wd_ r) (wds_ r)
    (failed_wds_ r) (args_ r) v (executable_ r) (executed_path_ r) (original_executed_path_ r)
    (libs_ r) (file_usages_ r) (created_pipes_ r) (inherited_files_ r) (cant_shortcut_reason_ r)
    (cant_shortcut_proc_ r) (shortcut_result_ r) (jobserver_fifo_ r).
Definition set_executable_ (v : cstr) (r : Execed) : Execed := mkExeced
  (can_shortcut_ r) (was_shortcut_ r) (qemu_user_used_ r) (jobserver_fd_r_ r)
    (jobserver_fd_w_ r) (fork_point_ r) (maybe_shortcutable_ancestor_ r) (utime_u_ r)
    (stime_u_ r) (children_cpu_time_u_ r) (shortcut_cpu_time_ms_ r) (initial_wd_ r) (wds_ r)
    (failed_wds_ r) (args_ r) (env_vars_ r) v (executed_path_ r) (original_executed_path_ r)
    (libs_ r) (file_usages_ r) (created_pipes_ r) (inherited_files_ r) (cant_shortcut_reason_ r)
    (cant_shortcut_proc_ r) (shortcut_result_ r) (jobserver_fifo_ r).
Definition set_executed_path_ (v : cstr) (r : Execed) : Execed := mkExeced
  (can_shortcut_ r) (was_shortcut_ r) (qemu_user_used_ r) (jobserver_fd_r_ r)
    (jobserver_fd_w_ r) (fork_point_ r) (maybe_shortcutable_ancestor_ r) (utime_u_ r)
    (stime_u_ r) (children_cpu_time_u_ r) (shortcut_cpu_time_ms_ r) (initial_wd_ r) (wds_ r)
    (failed_wds_ r) (args_ r) (env_vars_ r) (executable_ r) v (original_executed_path_ r)
    (libs_ r) (file_usages_ r) (created_pipes_ r) (inherited_files_ r) (cant_shortcut_reason_ r)
    (cant_shortcut_proc_ r) (shortcut_result_ r) (jobserver_fifo_ r).
Definition set_original_executed_path_ (v : cstr) (r : Execed) : Execed := mkExeced
  (can_shortcut_ r) (was_shortcut_ r) (qemu_user_used_ r) (jobserver_fd_r_ r)
    (jobserver_fd_w_ r) (fork_point_ r) (maybe_shortcutable_ancestor_ r) (utime_u_ r)
    (stime_u_ r) (children_cpu_time_u_ r) (shortcut_cpu_time_ms_ r) (initial_wd_ r) (wds_ r)
    (failed_wds_ r) (args_ r) (env_vars_ r) (executable_ r) (executed_path_ r) v (libs_ r)
    (file_usages_ r) (created_pipes_ r) (inherited_files_ r) (cant_shortcut_reason_ r)
    (cant_shortcut_proc_ r) (shortcut_result_ r) (jobserver_fifo_ r).
Definition set_libs_ (v : list cstr) (r : Execed) : Execed := mkExeced
  (can_shortcut_ r) (was_shortcut_ r) (qemu_user_used_ r) (jobserver_fd_r_ r)
    (jobserver_fd_w_ r) (fork_point_ r) (maybe_shortcutable_ancestor_ r) (utime_u_ r)
    (stime_u_ r) (children_cpu_time_u_ r) (shortcut_cpu_time_ms_ r) (initial_wd_ r) (wds_ r)
    (failed_wds_ r) (args_ r) (env_vars_ r) (executable_ r) (executed_path_ r)
    (original_executed_path_ r) v (file_usages_ r) (created_pipes_ r) (inherited_files_ r)
    (cant_shortcut_reason_ r) (cant_shortcut_proc_ r) (shortcut_result_ r) (jobserver_fifo_ r).
Definition set_file_usages_ (v : gmap cstr FileUsage.t) (r : Execed) : Execed := mkExeced
  (can_shortcut_ r) (was_shortcut_ r) (qemu_user_used_ r) (jobserver_fd_r_ r)
    (jobserver_fd_w_ r) (fork_point_ r) (maybe_shortcutable_ancestor_ r) (utime_u_ r)
    (stime_u_ r) (children_cpu_time_u_ r) (shortcut_cpu_time_ms_ r) (initial_wd_ r) (wds_ r)
    (failed_wds_ r) (args_ r) (env_vars_ r) (executable_ r) (executed_path_ r)
    (original_executed_path_ r) (libs_ r) v (created_pipes_ r) (inherited_files_ r)
    (cant_shortcut_reason_ r) (cant_shortcut_proc_ r) (shortcut_result_ r) (jobserver_fifo_ r).
Definition set_created_pipes_ (v : list nat) (r : Execed) : Execed := mkExeced
  (can_shortcut_ r) (was_shortcut_ r) (qemu_user_used_ r) (jobserver_fd_r_ r)
    (jobserver_fd_w_ r) (fork_point_ r) (maybe_shortcutable_ancestor_ r) (utime_u_ r)
    (stime_u_ r) (children_cpu_time_u_ r) (shortcut_cpu_time_ms_ r) (initial_wd_ r) (wds_ r)
    (failed_wds_ r) (args_ r) (env_vars_ r) (executable_ r) (executed_path_ r)
    (original_executed_path_ r) (libs_ r) (file_usages_ r) v (inherited_files_ r)
    (cant_shortcut_reason_ r) (cant_shortcut_proc_ r) (shortcut_result_ r) (jobserver_fifo_ r).
Definition set_inherited_files_ (v : list inherited_file_t) (r : Execed) : Execed := mkExeced
  (can_shortcut_ r) (was_shortcut_ r) (qemu_user_used_ r) (jobserver_fd_r_ r)
    (jobserver_fd_w_ r) (fork_point_ r) (maybe_shortcutable_ancestor_ r) (utime_u_ r)
    (stime_u_ r) (children_cpu_time_u_ r) (shortcut_cpu_time_ms_ r) (initial_wd_ r) (wds_ r)
    (failed_wds_ r) (args_ r) (env_vars_ r) (executable_ r) (executed_path_ r)
    (original_executed_path_ r) (libs_ r) (file_usages_ r) (created_pipes_ r) v
    (cant_shortcut_reason_ r) (cant_shortcut_proc_ r) (shortcut_result_ r) (jobserver_fifo_ r).
Definition set_cant_shortcut_reason_ (v : option reason_t) (r : Execed) : Execed := mkExeced
  (can_shortcut_ r) (was_shortcut_ r) (qemu_user_used_ r) (jobserver_fd_r_ r)
    (jobserver_fd_w_ r) (fork_point_ r) (maybe_shortcutable_ancestor_ r) (utime_u_ r)
    (stime_u_ r) (children_cpu_time_u_ r) (shortcut_cpu_time_ms_ r) (initial_wd_ r) (wds_ r)
    (failed_wds_ r) (args_ r) (env_vars_ r) (executable_ r) (executed_path_ r)
    (original_executed_path_ r) (libs_ r) (file_usages_ r) (created_pipes_ r)
    (inherited_files_ r) v (cant_shortcut_proc_ r) (shortcut_result_ r) (jobserver_fifo_ r).
Definition set_cant_shortcut_proc_ (v : option pid_ref) (r : Execed) : Execed := mkExeced
  (can_shortcut_ r) (was_shortcut_ r) (qemu_user_used_ r) (jobserver_fd_r_ r)
    (jobserver_fd_w_ r) (fork_point_ r) (maybe_shortcutable_ancestor_ r) (utime_u_ r)
    (stime_u_ r) (children_cpu_time_u_ r) (shortcut_cpu_time_ms_ r) (initial_wd_ r) (wds_ r)
    (failed_wds_ r) (args_ r) (env_vars_ r) (executable_ r) (executed_path_ r)
    (original_executed_path_ r) (libs_ r) (file_usages_ r) (created_pipes_ r)
    (inherited_files_ r) (cant_shortcut_reason_ r) v (shortcut_result_ r) (jobserver_fifo_ r).
Definition set_shortcut_result_ (v : option string) (r : Execed) : Execed := mkExeced
  (can_shortcut_ r) (was_shortcut_ r) (qemu_user_used_ r) (jobserver_fd_r_ r)
    (jobserver_fd_w_ r) (fork_point_ r) (maybe_shortcutable_ancestor_ r) (utime_u_ r)
    (stime_u_ r) (children_cpu_time_u_ r) (shortcut_cpu_time_ms_ r) (initial_wd_ r) (wds_ r)
    (failed_wds_ r) (args_ r) (env_vars_ r) (executable_ r) (executed_path_ r)
    (original_executed_path_ r) (libs_ r) (file_usages_ r) (created_pipes_ r)
    (inherited_files_ r) (cant_shortcut_reason_ r) (cant_shortcut_proc_ r) v (jobserver_fifo_ r).
Definition set_jobserver_fifo_ (v : option cstr) (r : Execed) : Execed := mkExeced
  (can_shortcut_ r) (was_shortcut_ r) (qemu_user_used_ r) (jobserver_fd_r_ r)
    (jobserver_fd_w_ r) (fork_point_ r) (maybe_shortcutable_ancestor_ r) (utime_u_ r)
    (stime_u_ r) (children_cpu_time_u_ r) (shortcut_cpu_time_ms_ r) (initial_wd_ r) (wds_ r)
    (failed_wds_ r) (args_ r) (env_vars_ r) (executable_ r) (executed_path_ r)
    (original_executed_path_ r) (libs_ r) (file_usages_ r) (created_pipes_ r)
    (inherited_files_ r) (cant_shortcut_reason_ r) (cant_shortcut_proc_ r) (shortcut_result_ r)
    v.

(** What a [ForkedProcess] has beyond a [Process] (forked_process.h). *)
Record Forked := mkForked {
  exit_status_ : Z;
  exec_point_ : option pid_ref;
  on_finalized_ack_id_ : Z;
  been_waited_for_ : bool;
  orphan_ : bool;
  has_orphan_descendant_ : bool;
  on_finalized_ack_fd_ : Z
}.

Definition set_exit_status_ (v : Z) (r : Forked) : Forked := mkForked
  v (exec_point_ r) (on_finalized_ack_id_ r) (been_waited_for_ r) (orphan_ r)
    (has_orphan_descendant_ r) (on_finalized_ack_fd_ r).
Definition set_exec_point_ (v : option pid_ref) (r : Forked) : Forked := mkForked
  (exit_status_ r) v (on_finalized_ack_id_ r) (been_waited_for_ r) (orphan_ r)
    (has_orphan_descendant_ r) (on_finalized_ack_fd_ r).
Definition set_on_finalized_ack_id_ (v : Z) (r : Forked) : Forked := mkForked
  (exit_status_ r) (exec_point_ r) v (been_waited_for_ r) (orphan_ r) (has_orphan_descendant_ r)
    (on_finalized_ack_fd_ r).
Definition set_been_waited_for_ (v : bool) (r : Forked) : Forked := mkForked
  (exit_status_ r) (exec_point_ r) (on_finalized_ack_id_ r) v (orphan_ r)
    (has_orphan_descendant_ r) (on_finalized_ack_fd_ r).
Definition set_orphan_ (v : bool) (r : Forked) : Forked := mkForked
  (exit_status_ r) (exec_point_ r) (on_finalized_ack_id_ r) (been_waited_for_ r) v
    (has_orphan_descendant_ r) (on_finalized_ack_fd_ r).
Definition set_has_orphan_descendant_ (v : bool) (r : Forked) : Forked := mkForked
  (exit_status_ r) (exec_point_ r) (on_finalized_ack_id_ r) (been_waited_for_ r) (orphan_ r) v
    (on_finalized_ack_fd_ r).
Definition set_on_finalized_ack_fd_ (v : Z) (r : Forked) : Forked := mkForked
  (exit_status_ r) (exec_point_ r) (on_finalized_ack_id_ r) (been_waited_for_ r) (orphan_ r)
    (has_orphan_descendant_ r) v.

Inductive Kind := KExeced (x : Execed) | KForked (f : Forked).

(** A [Process] (process.h). *)
Record Process := mkProcess {
  parent_ : option pid_ref;
  state_ : process_state;
  pid_ : Z;
  ppid_ : Z;
  exec_count_ : Z;
  wd_ : cstr;
  umask_ : Z;
  fds_ : option fd_table;
  fork_children_ : list pid_ref;
  system_child_ : option pid_ref;
  has_pending_popen_ : bool;
  fd2popen_child_ : gmap Z pid_ref;
  expected_child_ : option ExecedProcessEnv;
  exec_pending_ : bool;
  posix_spawn_pending_ : bool;
  exec_child_ : option pid_ref;
  mtime_to_file_ : gmap (Z * Z) cstr;
  kind_ : Kind
}.

Definition set_parent_ (v : option pid_ref) (r : Process) : Process := mkProcess
  v (state_ r) (pid_ r) (ppid_ r) (exec_count_ r) (wd_ r) (umask_ r) (fds_ r) (fork_children_ r)
    (system_child_ r) (has_pending_popen_ r) (fd2popen_child_ r) (expected_child_ r)
    (exec_pending_ r) (posix_spawn_pending_ r) (exec_child_ r) (mtime_to_file_ r) (kind_ r).
Definition set_state_ (v : process_state) (r : Process) : Process := mkProcess
  (parent_ r) v (pid_ r) (ppid_ r) (exec_count_ r) (wd_ r) (umask_ r) (fds_ r)
    (fork_children_ r) (system_child_ r) (has_pending_popen_ r) (fd2popen_child_ r)
    (expected_child_ r) (exec_pending_ r) (posix_spawn_pending_ r) (exec_child_ r)
    (mtime_to_file_ r) (kind_ r).
Definition set_pid_ (v : Z) (r : Process) : Process := mkProcess
  (parent_ r) (state_ r) v (ppid_ r) (exec_count_ r) (wd_ r) (umask_ r) (fds_ r)
    (fork_children_ r) (system_child_ r) (has_pending_popen_ r) (fd2popen_child_ r)
    (expected_child_ r) (exec_pending_ r) (posix_spawn_pending_ r) (exec_child_ r)
    (mtime_to_file_ r) (kind_ r).
Definition set_ppid_ (v : Z) (r : Process) : Process := mkProcess
  (parent_ r) (state_ r) (pid_ r) v (exec_count_ r) (wd_ r) (umask_ r) (fds_ r)
    (fork_children_ r) (system_child_ r) (has_pending_popen_ r) (fd2popen_child_ r)
    (expected_child_ r) (exec_pending_ r) (posix_spawn_pending_ r) (exec_child_ r)
    (mtime_to_file_ r) (kind_ r).
Definition set_exec_count_ (v : Z) (r : Process) : Process := mkProcess
  (parent_ r) (state_ r) (pid_ r) (ppid_ r) v (wd_ r) (umask_ r) (fds_ r) (fork_children_ r)
    (system_child_ r) (has_pending_popen_ r) (fd2popen_child_ r) (expected_child_ r)
    (exec_pending_ r) (posix_spawn_pending_ r) (exec_child_ r) (mtime_to_file_ r) (kind_ r).
Definition set_wd_ (v : cstr) (r : Process) : Process := mkProcess
  (parent_ r) (state_ r) (pid_ r) (ppid_ r) (exec_count_ r) v (umask_ r) (fds_ r)
    (fork_children_ r) (system_child_ r) (has_pending_popen_ r) (fd2popen_child_ r)
    (expected_child_ r) (exec_pending_ r) (posix_spawn_pending_ r) (exec_child_ r)
    (mtime_to_file_ r) (kind_ r).
Definition set_umask_ (v : Z) (r : Process) : Process := mkProcess
  (parent_ r) (state_ r) (pid_ r) (ppid_ r) (exec_count_ r) (wd_ r) v (fds_ r)
    (fork_children_ r) (system_child_ r) (has_pending_popen_ r) (fd2popen_child_ r)
    (expected_child_ r) (exec_pending_ r) (posix_spawn_pending_ r) (exec_child_ r)
    (mtime_to_file_ r) (kind_ r).
Definition set_fds_ (v : option fd_table) (r : Process) : Process := mkProcess
  (parent_ r) (state_ r) (pid_ r) (ppid_ r) (exec_count_ r) (wd_ r) (umask_ r) v
    (fork_children_ r) (system_child_ r) (has_pending_popen_ r) (fd2popen_child_ r)
    (expected_child_ r) (exec_pending_ r) (posix_spawn_pending_ r) (exec_child_ r)
    (mtime_to_file_ r) (kind_ r).
Definition set_fork_children_ (v : list pid_ref) (r : Process) : Process := mkProcess
  (parent_ r) (state_ r) (pid_ r) (ppid_ r) (exec_count_ r) (wd_ r) (umask_ r) (fds_ r) v
    (system_child_ r) (has_pending_popen_ r) (fd2popen_child_ r) (expected_child_ r)
    (exec_pending_ r) (posix_spawn_pending_ r) (exec_child_ r) (mtime_to_file_ r) (kind_ r).
Definition set_system_child_ (v : option pid_ref) (r : Process) : Process := mkProcess
  (parent_ r) (state_ r) (pid_ r) (ppid_ r) (exec_count_ r) (wd_ r) (umask_ r) (fds_ r)
    (fork_children_ r) v (has_pending_popen_ r) (fd2popen_child_ r) (expected_child_ r)
    (exec_pending_ r) (posix_spawn_pending_ r) (exec_child_ r) (mtime_to_file_ r) (kind_ r).
Definition set_has_pending_popen_ (v : bool) (r : Process) : Process := mkProcess
  (parent_ r) (state_ r) (pid_ r) (ppid_ r) (exec_count_ r) (wd_ r) (umask_ r) (fds_ r)
    (fork_children_ r) (system_child_ r) v (fd2popen_child_ r) (expected_child_ r)
    (exec_pending_ r) (posix_spawn_pending_ r) (exec_child_ r) (mtime_to_file_ r) (kind_ r).
Definition set_fd2popen_child_ (v : gmap Z pid_ref) (r : Process) : Process := mkProcess
  (parent_ r) (state_ r) (pid_ r) (ppid_ r) (exec_count_ r) (wd_ r) (umask_ r) (fds_ r)
    (fork_children_ r) (system_child_ r) (has_pending_popen_ r) v (expected_child_ r)
    (exec_pending_ r) (posix_spawn_pending_ r) (exec_child_ r) (mtime_to_file_ r) (kind_ r).
Definition set_expected_child_ (v : option ExecedProcessEnv) (r : Process) : Process := mkProcess
  (parent_ r) (state_ r) (pid_ r) (ppid_ r) (exec_count_ r) (wd_ r) (umask_ r) (fds_ r)
    (fork_children_ r) (system_child_ r) (has_pending_popen_ r) (fd2popen_child_ r) v
    (exec_pending_ r) (posix_spawn_pending_ r) (exec_child_ r) (mtime_to_file_ r) (kind_ r).
Definition set_exec_pending_ (v : bool) (r : Process) : Process := mkProcess
  (parent_ r) (state_ r) (pid_ r) (ppid_ r) (exec_count_ r) (wd_ r) (umask_ r) (fds_ r)
    (fork_children_ r) (system_child_ r) (has_pending_popen_ r) (fd2popen_child_ r)
    (expected_child_ r) v (posix_spawn_pending_ r) (exec_child_ r) (mtime_to_file_ r) (kind_ r).
Definition set_posix_spawn_pending_ (v : bool) (r : Process) : Process := mkProcess
  (parent_ r) (state_ r) (pid_ r) (ppid_ r) (exec_count_ r) (wd_ r) (umask_ r) (fds_ r)
    (fork_children_ r) (system_child_ r) (has_pending_popen_ r) (fd2popen_child_ r)
    (expected_child_ r) (exec_pending_ r) v (exec_child_ r) (mtime_to_file_ r) (kind_ r).
Definition set_exec_child_ (v : option pid_ref) (r : Process) : Process := mkProcess
  (parent_ r) (state_ r) (pid_ r) (ppid_ r) (exec_count_ r) (wd_ r) (umask_ r) (fds_ r)
    (fork_children_ r) (system_child_ r) (has_pending_popen_ r) (fd2popen_child_ r)
    (expected_child_ r) (exec_pending_ r) (posix_spawn_pending_ r) v (mtime_to_file_ r)
    (kind_ r).
Definition set_mtime_to_file_ (v : gmap (Z * Z) cstr) (r : Process) : Process := mkProcess
  (parent_ r) (state_ r) (pid_ r) (ppid_ r) (exec_count_ r) (wd_ r) (umask_ r) (fds_ r)
    (fork_children_ r) (system_child_ r) (has_pending_popen_ r) (fd2popen_child_ r)
    (expected_child_ r) (exec_pending_ r) (posix_spawn_pending_ r) (exec_child_ r) v (kind_ r).
Definition set_kind_ (v : Kind) (r : Process) : Process := mkProcess
  (parent_ r) (state_ r) (pid_ r) (ppid_ r) (exec_count_ r) (wd_ r) (umask_ r) (fds_ r)
    (fork_children_ r) (system_child_ r) (has_pending_popen_ r) (fd2popen_child_ r)
    (expected_child_ r) (exec_pending_ r) (posix_spawn_pending_ r) (exec_child_ r)
    (mtime_to_file_ r) v.

(** process_tree.h *)
Record pending_pipe_t := mkPendingPipe { pp_flags : Z; pp_fd0 : Z; pp_fd1 : Z }.

(** A fork child that waits for its parent's message; [fork_child_ref] is the
    connection whose process pointer is to be filled in. *)
Record fork_child_sock := mkForkChildSock {
  fcs_sock : Z;
  fcs_child_pid : Z;
  fcs_ack_num : Z;
  fcs_fork_child_ref : Z
}.

Record exec_child_sock := mkExecChildSock { ecs_sock : Z; ecs_incomplete_child : pid_ref }.

Record pending_parent_ack := mkParentAck { ppa_ack_num : Z; ppa_sock : Z }.

Record pending_popen_t := mkPendingPopen {
  po_type_flags : Z;
  po_child : option pid_ref;
  po_child_conn : Z;
  po_parent_conn : Z;
  po_ack_num : Z;
  po_fd : Z
}.

(** The "scproc_resp" message. *)
Record scproc_resp := mkResp {
  sr_dont_intercept : bool;
  sr_shortcut : bool;
  sr_exit_status : option Z;
  sr_fds_appended_to : list Z;
  sr_seekable_fds : list (Z * Z);
  sr_reopen_fds : list (list Z)
}.

(** Effects outside the supervisor's own state, in the order they happen. *)
Inductive event :=
| EvAck (fd_conn ack_num : Z)                       (* ack_msg() *)
| EvPipeCreated (fd_conn : Z) (result : Z + Z * Z)  (* "pipe_created": errno or two fds *)
| EvClose (fd : Z)                                  (* close() of a supervisor fd *)
| EvSetNonblock (fd flags : Z)                      (* fcntl(F_SETFL) *)
| EvBumpFdAge (fd : Z)
| EvKill (pid : Z)                                  (* kill(pid, SIGTERM) *)
| EvError (what : string) (arg : Z)                 (* fb_error() *)
| EvPipeNew (pipe : nat) (fd0 : Z) (creator : option pid_ref)
| EvPipeAddFd1 (pipe : nat) (fd1 : Z) (ffd : nat) (proc : option pid_ref)
| EvPipeDup (pipe src dst : nat)                    (* handle_dup() *)
| EvPipeClose (pipe ffd : nat)                      (* handle_close() *)
| EvPipeDrain (pipe ffd : nat)                      (* drain_fd1_end() *)
| EvPipeFinish (pipe : nat)
| EvRecorderDeactivate (recorder : nat)
| EvPipeDrainAll (pipe : nat)                       (* drain() *)
| EvPipeReopen (pipe : nat) (fd1 : Z) (ffd : nat) (proc : pid_ref) (parent : option pid_ref)
    (recorder : option nat)                         (* add_fd1_and_proc() *)
| EvScprocResp (fd_conn : Z) (resp : scproc_resp) (fifo_fds : list Z)
| EvPopenFd (fd_conn ack_num fd : Z)                (* "popen_fd" *)
| EvRewrittenArgs (fd_conn : Z) (path : option cstr) (args : option (list cstr))
| EvNotShortcutting                                 (* ExecedProcessCacher::not_shortcutting() *)
| EvStore (proc : pid_ref)                          (* ExecedProcessCacher::store() *)
| EvEraseFingerprint (proc : pid_ref)
| EvDelListener.                                    (* the listening socket is closed *)

(** The whole state.  [w_conns] holds the process pointer of every connection
    ([ConnectionContext]), [child_ret] and [listener] are the globals of firebuild.cc. *)
Record World := mkWorld {
  w_procs : gmap pid_ref Process;
  w_fb_pid_counter : nat;
  w_ofds : gmap nat FileOFD;
  w_ofd_counter : nat;
  w_ffd_counter : nat;
  w_pipe_counter : nat;
  write_ofds_db_ : gmap cstr (Z * pid_ref);
  generation_db_ : gmap cstr Z;
  root_ : option pid_ref;
  inherited_fd_pipes_ : list nat;
  pid2proc_ : gmap Z pid_ref;
  ppid2fork_child_sock_ : gmap Z fork_child_sock;
  pid2exec_child_sock_ : gmap Z exec_child_sock;
  pid2posix_spawn_child_sock_ : gmap Z exec_child_sock;
  ppid2pending_parent_ack_ : gmap Z pending_parent_ack;
  proc2pending_pipe_ : gmap pid_ref pending_pipe_t;
  proc2pending_popen_ : gmap pid_ref pending_popen_t;
  proc_gc_queue_ : list pid_ref;
  w_conns : gmap Z (option pid_ref);
  w_recorder_counter : nat;
  child_ret : Z;
  listener : Z;
  w_log : list event
}.

Definition set_w_procs (v : gmap pid_ref Process) (r : World) : World := mkWorld
  v (w_fb_pid_counter r) (w_ofds r) (w_ofd_counter r) (w_ffd_counter r) (w_pipe_counter r)
    (write_ofds_db_ r) (generation_db_ r) (root_ r) (inherited_fd_pipes_ r) (pid2proc_ r)
    (ppid2fork_child_sock_ r) (pid2exec_child_sock_ r) (pid2posix_spawn_child_sock_ r)
    (ppid2pending_parent_ack_ r) (proc2pending_pipe_ r) (proc2pending_popen_ r)
    (proc_gc_queue_ r) (w_conns r) (w_recorder_counter r) (child_ret r) (listener r) (w_log r).
Definition set_w_fb_pid_counter (v : nat) (r : World) : World := mkWorld
  (w_procs r) v (w_ofds r) (w_ofd_counter r) (w_ffd_counter r) (w_pipe_counter r)
    (write_ofds_db_ r) (generation_db_ r) (root_ r) (inherited_fd_pipes_ r) (pid2proc_ r)
    (ppid2fork_child_sock_ r) (pid2exec_child_sock_ r) (pid2posix_spawn_child_sock_ r)
    (ppid2pending_parent_ack_ r) (proc2pending_pipe_ r) (proc2pending_popen_ r)
    (proc_gc_queue_ r) (w_conns r) (w_recorder_counter r) (child_ret r) (listener r) (w_log r).
Definition set_w_ofds (v : gmap nat FileOFD) (r : World) : World := mkWorld
  (w_procs r) (w_fb_pid_counter r) v (w_ofd_counter r) (w_ffd_counter r) (w_pipe_counter r)
    (write_ofds_db_ r) (generation_db_ r) (root_ r) (inherited_fd_pipes_ r) (pid2proc_ r)
    (ppid2fork_child_sock_ r) (pid2exec_child_sock_ r) (pid2posix_spawn_child_sock_ r)
    (ppid2pending_parent_ack_ r) (proc2pending_pipe_ r) (proc2pending_popen_ r)
    (proc_gc_queue_ r) (w_conns r) (w_recorder_counter r) (child_ret r) (listener r) (w_log r).
Definition set_w_ofd_counter (v : nat) (r : World) : World := mkWorld
  (w_procs r) (w_fb_pid_counter r) (w_ofds r) v (w_ffd_counter r) (w_pipe_counter r)
    (write_ofds_db_ r) (generation_db_ r) (root_ r) (inherited_fd_pipes_ r) (pid2proc_ r)
    (ppid2fork_child_sock_ r) (pid2exec_child_sock_ r) (pid2posix_spawn_child_sock_ r)
    (ppid2pending_parent_ack_ r) (proc2pending_pipe_ r) (proc2pending_popen_ r)
    (proc_gc_queue_ r) (w_conns r) (w_recorder_counter r) (child_ret r) (listener r) (w_log r).
Definition set_w_ffd_counter (v : nat) (r : World) : World := mkWorld
  (w_procs r) (w_fb_pid_counter r) (w_ofds r) (w_ofd_counter r) v (w_pipe_counter r)
    (write_ofds_db_ r) (generation_db_ r) (root_ r) (inherited_fd_pipes_ r) (pid2proc_ r)
    (ppid2fork_child_sock_ r) (pid2exec_child_sock_ r) (pid2posix_spawn_child_sock_ r)
    (ppid2pending_parent_ack_ r) (proc2pending_pipe_ r) (proc2pending_popen_ r)
    (proc_gc_queue_ r) (w_conns r) (w_recorder_counter r) (child_ret r) (listener r) (w_log r).
Definition set_w_pipe_counter (v : nat) (r : World) : World := mkWorld
  (w_procs r) (w_fb_pid_counter r) (w_ofds r) (w_ofd_counter r) (w_ffd_counter r) v
    (write_ofds_db_ r) (generation_db_ r) (root_ r) (inherited_fd_pipes_ r) (pid2proc_ r)
    (ppid2fork_child_sock_ r) (pid2exec_child_sock_ r) (pid2posix_spawn_child_sock_ r)
    (ppid2pending_parent_ack_ r) (proc2pending_pipe_ r) (proc2pending_popen_ r)
    (proc_gc_queue_ r) (w_conns r) (w_recorder_counter r) (child_ret r) (listener r) (w_log r).
Definition set_write_ofds_db_ (v : gmap cstr (Z * pid_ref)) (r : World) : World := mkWorld
  (w_procs r) (w_fb_pid_counter r) (w_ofds r) (w_ofd_counter r) (w_ffd_counter r)
    (w_pipe_counter r) v (generation_db_ r) (root_ r) (inherited_fd_pipes_ r) (pid2proc_ r)
    (ppid2fork_child_sock_ r) (pid2exec_child_sock_ r) (pid2posix_spawn_child_sock_ r)
    (ppid2pending_parent_ack_ r) (proc2pending_pipe_ r) (proc2pending_popen_ r)
    (proc_gc_queue_ r) (w_conns r) (w_recorder_counter r) (child_ret r) (listener r) (w_log r).
Definition set_generation_db_ (v : gmap cstr Z) (r : World) : World := mkWorld
  (w_procs r) (w_fb_pid_counter r) (w_ofds r) (w_ofd_counter r) (w_ffd_counter r)
    (w_pipe_counter r) (write_ofds_db_ r) v (root_ r) (inherited_fd_pipes_ r) (pid2proc_ r)
    (ppid2fork_child_sock_ r) (pid2exec_child_sock_ r) (pid2posix_spawn_child_sock_ r)
    (ppid2pending_parent_ack_ r) (proc2pending_pipe_ r) (proc2pending_popen_ r)
    (proc_gc_queue_ r) (w_conns r) (w_recorder_counter r) (child_ret r) (listener r) (w_log r).
Definition set_root_ (v : option pid_ref) (r : World) : World := mkWorld
  (w_procs r) (w_fb_pid_counter r) (w_ofds r) (w_ofd_counter r) (w_ffd_counter r)
    (w_pipe_counter r) (write_ofds_db_ r) (generation_db_ r) v (inherited_fd_pipes_ r)
    (pid2proc_ r) (ppid2fork_child_sock_ r) (pid2exec_child_sock_ r)
    (pid2posix_spawn_child_sock_ r) (ppid2pending_parent_ack_ r) (proc2pending_pipe_ r)
    (proc2pending_popen_ r) (proc_gc_queue_ r) (w_conns r) (w_recorder_counter r) (child_ret r)
    (listener r) (w_log r).
Definition set_inherited_fd_pipes_ (v : list nat) (r : World) : World := mkWorld
  (w_procs r) (w_fb_pid_counter r) (w_ofds r) (w_ofd_counter r) (w_ffd_counter r)
    (w_pipe_counter r) (write_ofds_db_ r) (generation_db_ r) (root_ r) v (pid2proc_ r)
    (ppid2fork_child_sock_ r) (pid2exec_child_sock_ r) (pid2posix_spawn_child_sock_ r)
    (ppid2pending_parent_ack_ r) (proc2pending_pipe_ r) (proc2pending_popen_ r)
    (proc_gc_queue_ r) (w_conns r) (w_recorder_counter r) (child_ret r) (listener r) (w_log r).
Definition set_pid2proc_ (v : gmap Z pid_ref) (r : World) : World := mkWorld
  (w_procs r) (w_fb_pid_counter r) (w_ofds r) (w_ofd_counter r) (w_ffd_counter r)
    (w_pipe_counter r) (write_ofds_db_ r) (generation_db_ r) (root_ r) (inherited_fd_pipes_ r) v
    (ppid2fork_child_sock_ r) (pid2exec_child_sock_ r) (pid2posix_spawn_child_sock_ r)
    (ppid2pending_parent_ack_ r) (proc2pending_pipe_ r) (proc2pending_popen_ r)
    (proc_gc_queue_ r) (w_conns r) (w_recorder_counter r) (child_ret r) (listener r) (w_log r).
Definition set_ppid2fork_child_sock_ (v : gmap Z fork_child_sock) (r : World) : World := mkWorld
  (w_procs r) (w_fb_pid_counter r) (w_ofds r) (w_ofd_counter r) (w_ffd_counter r)
    (w_pipe_counter r) (write_ofds_db_ r) (generation_db_ r) (root_ r) (inherited_fd_pipes_ r)
    (pid2proc_ r) v (pid2exec_child_sock_ r) (pid2posix_spawn_child_sock_ r)
    (ppid2pending_parent_ack_ r) (proc2pending_pipe_ r) (proc2pending_popen_ r)
    (proc_gc_queue_ r) (w_conns r) (w_recorder_counter r) (child_ret r) (listener r) (w_log r).
Definition set_pid2exec_child_sock_ (v : gmap Z exec_child_sock) (r : World) : World := mkWorld
  (w_procs r) (w_fb_pid_counter r) (w_ofds r) (w_ofd_counter r) (w_ffd_counter r)
    (w_pipe_counter r) (write_ofds_db_ r) (generation_db_ r) (root_ r) (inherited_fd_pipes_ r)
    (pid2proc_ r) (ppid2fork_child_sock_ r) v (pid2posix_spawn_child_sock_ r)
    (ppid2pending_parent_ack_ r) (proc2pending_pipe_ r) (proc2pending_popen_ r)
    (proc_gc_queue_ r) (w_conns r) (w_recorder_counter r) (child_ret r) (listener r) (w_log r).
Definition set_pid2posix_spawn_child_sock_ (v : gmap Z exec_child_sock) (r : World) : World := mkWorld
  (w_procs r) (w_fb_pid_counter r) (w_ofds r) (w_ofd_counter r) (w_ffd_counter r)
    (w_pipe_counter r) (write_ofds_db_ r) (generation_db_ r) (root_ r) (inherited_fd_pipes_ r)
    (pid2proc_ r) (ppid2fork_child_sock_ r) (pid2exec_child_sock_ r) v
    (ppid2pending_parent_ack_ r) (proc2pending_pipe_ r) (proc2pending_popen_ r)
    (proc_gc_queue_ r) (w_conns r) (w_recorder_counter r) (child_ret r) (listener r) (w_log r).
Definition set_ppid2pending_parent_ack_ (v : gmap Z pending_parent_ack) (r : World) : World := mkWorld
  (w_procs r) (w_fb_pid_counter r) (w_ofds r) (w_ofd_counter r) (w_ffd_counter r)
    (w_pipe_counter r) (write_ofds_db_ r) (generation_db_ r) (root_ r) (inherited_fd_pipes_ r)
    (pid2proc_ r) (ppid2fork_child_sock_ r) (pid2exec_child_sock_ r)
    (pid2posix_spawn_child_sock_ r) v (proc2pending_pipe_ r) (proc2pending_popen_ r)
    (proc_gc_queue_ r) (w_conns r) (w_recorder_counter r) (child_ret r) (listener r) (w_log r).
Definition set_proc2pending_pipe_ (v : gmap pid_ref pending_pipe_t) (r : World) : World := mkWorld
  (w_procs r) (w_fb_pid_counter r) (w_ofds r) (w_ofd_counter r) (w_ffd_counter r)
    (w_pipe_counter r) (write_ofds_db_ r) (generation_db_ r) (root_ r) (inherited_fd_pipes_ r)
    (pid2proc_ r) (ppid2fork_child_sock_ r) (pid2exec_child_sock_ r)
    (pid2posix_spawn_child_sock_ r) (ppid2pending_parent_ack_ r) v (proc2pending_popen_ r)
    (proc_gc_queue_ r) (w_conns r) (w_recorder_counter r) (child_ret r) (listener r) (w_log r).
Definition set_proc2pending_popen_ (v : gmap pid_ref pending_popen_t) (r : World) : World := mkWorld
  (w_procs r) (w_fb_pid_counter r) (w_ofds r) (w_ofd_counter r) (w_ffd_counter r)
    (w_pipe_counter r) (write_ofds_db_ r) (generation_db_ r) (root_ r) (inherited_fd_pipes_ r)
    (pid2proc_ r) (ppid2fork_child_sock_ r) (pid2exec_child_sock_ r)
    (pid2posix_spawn_child_sock_ r) (ppid2pending_parent_ack_ r) (proc2pending_pipe_ r) v
    (proc_gc_queue_ r) (w_conns r) (w_recorder_counter r) (child_ret r) (listener r) (w_log r).
Definition set_proc_gc_queue_ (v : list pid_ref) (r : World) : World := mkWorld
  (w_procs r) (w_fb_pid_counter r) (w_ofds r) (w_ofd_counter r) (w_ffd_counter r)
    (w_pipe_counter r) (write_ofds_db_ r) (generation_db_ r) (root_ r) (inherited_fd_pipes_ r)
    (pid2proc_ r) (ppid2fork_child_sock_ r) (pid2exec_child_sock_ r)
    (pid2posix_spawn_child_sock_ r) (ppid2pending_parent_ack_ r) (proc2pending_pipe_ r)
    (proc2pending_popen_ r) v (w_conns r) (w_recorder_counter r) (child_ret r) (listener r)
    (w_log r).
Definition set_w_conns (v : gmap Z (option pid_ref)) (r : World) : World := mkWorld
  (w_procs r) (w_fb_pid_counter r) (w_ofds r) (w_ofd_counter r) (w_ffd_counter r)
    (w_pipe_counter r) (write_ofds_db_ r) (generation_db_ r) (root_ r) (inherited_fd_pipes_ r)
    (pid2proc_ r) (ppid2fork_child_sock_ r) (pid2exec_child_sock_ r)
    (pid2posix_spawn_child_sock_ r) (ppid2pending_parent_ack_ r) (proc2pending_pipe_ r)
    (proc2pending_popen_ r) (proc_gc_queue_ r) v (w_recorder_counter r) (child_ret r)
    (listener r) (w_log r).
Definition set_w_recorder_counter (v : nat) (r : World) : World := mkWorld
  (w_procs r) (w_fb_pid_counter r) (w_ofds r) (w_ofd_counter r) (w_ffd_counter r)
    (w_pipe_counter r) (write_ofds_db_ r) (generation_db_ r) (root_ r) (inherited_fd_pipes_ r)
    (pid2proc_ r) (ppid2fork_child_sock_ r) (pid2exec_child_sock_ r)
    (pid2posix_spawn_child_sock_ r) (ppid2pending_parent_ack_ r) (proc2pending_pipe_ r)
    (proc2pending_popen_ r) (proc_gc_queue_ r) (w_conns r) v (child_ret r) (listener r)
    (w_log r).
Definition set_child_ret (v : Z) (r : World) : World := mkWorld
  (w_procs r) (w_fb_pid_counter r) (w_ofds r) (w_ofd_counter r) (w_ffd_counter r)
    (w_pipe_counter r) (write_ofds_db_ r) (generation_db_ r) (root_ r) (inherited_fd_pipes_ r)
    (pid2proc_ r) (ppid2fork_child_sock_ r) (pid2exec_child_sock_ r)
    (pid2posix_spawn_child_sock_ r) (ppid2pending_parent_ack_ r) (proc2pending_pipe_ r)
    (proc2pending_popen_ r) (proc_gc_queue_ r) (w_conns r) (w_recorder_counter r) v (listener r)
    (w_log r).
Definition set_listener (v : Z) (r : World) : World := mkWorld
  (w_procs r) (w_fb_pid_counter r) (w_ofds r) (w_ofd_counter r) (w_ffd_counter r)
    (w_pipe_counter r) (write_ofds_db_ r) (generation_db_ r) (root_ r) (inherited_fd_pipes_ r)
    (pid2proc_ r) (ppid2fork_child_sock_ r) (pid2exec_child_sock_ r)
    (pid2posix_spawn_child_sock_ r) (ppid2pending_parent_ack_ r) (proc2pending_pipe_ r)
    (proc2pending_popen_ r) (proc_gc_queue_ r) (w_conns r) (w_recorder_counter r) (child_ret r)
    v (w_log r).
Definition set_w_log (v : list event) (r : World) : World := mkWorld
  (w_procs r) (w_fb_pid_counter r) (w_ofds r) (w_ofd_counter r) (w_ffd_counter r)
    (w_pipe_counter r) (write_ofds_db_ r) (generation_db_ r) (root_ r) (inherited_fd_pipes_ r)
    (pid2proc_ r) (ppid2fork_child_sock_ r) (pid2exec_child_sock_ r)
    (pid2posix_spawn_child_sock_ r) (ppid2pending_parent_ack_ r) (proc2pending_pipe_ r)
    (proc2pending_popen_ r) (proc_gc_queue_ r) (w_conns r) (w_recorder_counter r) (child_ret r)
    (listener r) v.

(** * The monad *)

Definition M (A : Type) : Type := World -> outcome (World * A).

#[export] Instance M_ret : MRet M := fun A a w => Ret (w, a).
#[export] Instance M_bind : MBind M := fun A B f m w =>
  match m w with
  | Ret (w', a) => f a w'
  | Abort => Abort
  | OutOfFuel => OutOfFuel
  end.

Definition ret {A} (a : A) : M A := fun w => Ret (w, a).
Definition abortM {A} : M A := fun _ => Abort.
Definition out_of_fuel {A} : M A := fun _ => OutOfFuel.
Definition gets {A} (f : World -> A) : M A := fun w => Ret (w, f w).
Definition modify (f : World -> World) : M unit := fun w => Ret (f w, tt).
Definition assertM (b : bool) : M unit := if b then ret tt else abortM.
Definition lift {A} (m : outcome A) : M A := fun w =>
  match m with Ret a => Ret (w, a) | Abort => Abort | OutOfFuel => OutOfFuel end.
(** Dereferencing a pointer that must not be null. *)
Definition deref {A} (o : option A) : M A :=
  match o with Some a => ret a | None => abortM end.
Definition log (e : event) : M unit := modify (fun w => set_w_log (w_log w ++ [e]) w).
Definition when (b : bool) (m : M unit) : M unit := if b then m else ret tt.

Fixpoint mforM {A} (l : list A) (f : A -> M unit) : M unit :=
  match l with
  | [] => ret tt
  | a :: l' => f a ≫= fun _ => mforM l' f
  end.

(** Access to the processes. *)
Definition proc (p : pid_ref) : M Process := gets (fun w => w_procs w !! p) ≫= deref.
Definition upd_proc (p : pid_ref) (f : Process -> Process) : M unit :=
  pr ← proc p; modify (fun w => set_w_procs (<[p := f pr]> (w_procs w)) w).
Definition execed (p : pid_ref) : M Execed :=
  pr ← proc p; match kind_ pr with KExeced x => ret x | KForked _ => abortM end.
Definition forked (p : pid_ref) : M Forked :=
  pr ← proc p; match kind_ pr with KForked f => ret f | KExeced _ => abortM end.
Definition upd_execed (p : pid_ref) (f : Execed -> Execed) : M unit :=
  x ← execed p; upd_proc p (set_kind_ (KExeced (f x))).
Definition upd_forked (p : pid_ref) (f : Forked -> Forked) : M unit :=
  x ← forked p; upd_proc p (set_kind_ (KForked (f x))).

(** * Configuration *)

(** The global configuration ([ignore_locations], [read_only_locations],
    [Options::generate_report()], [quirks], [min_cpu_time_u]) and what the system
    answers while one message is handled: [sys_errno] is the value of [errno] left by
    the last failed call, [sys_pipe2] the answers of the successive [pipe2()] calls,
    [sys_remap] is [Epoll::remap_to_not_added_fd()] for the descriptors that are in the
    epoll set, [sys_pipe_finished] is [Pipe::finished()] and [sys_is_static]
    [HashCache::get_is_static()]. *)
Class Config := {
  ignore_locations : list cstr;
  read_only_locations : list cstr;
  generate_report : bool;
  quirk_ignore_statfs : bool;
  quirk_lto_wrapper : bool;
  quirk_ignore_time_queries : bool;
  min_cpu_time_u : Z;
  shortcut_allow_list_matcher : option ExeMatcher.t;
  dont_intercept_matcher : ExeMatcher.t;
  dont_shortcut_matcher : ExeMatcher.t;
  skip_cache_matcher : ExeMatcher.t;
  qemu_user : option cstr;
  glibc_2_38 : bool;               (* FB_GLIBC_PREREQ (2, 38) *)
  FIREBUILD_VERSION : cstr;
  supervisor_pid : Z;              (* getpid() *)
  child_pid : Z                    (* the top process *)
}.

Class Sys := {
  sys_env : Env;
  sys_errno : Z;
  sys_pipe2 : nat -> Z + Z * Z;
  sys_remap : Z -> option Z;
  sys_pipe_finished : nat -> bool;
  sys_is_static : cstr -> bool
}.

Section WithConfig.
Context {C : Config} {S0 : Sys}.

Definition is_in_ignore_location (name : cstr) : bool :=
  Paths.is_path_at_locations name ignore_locations.
Definition is_in_read_only_location (name : cstr) : bool :=
  Paths.is_path_at_locations name read_only_locations.

(** * Basic accessors *)

(** [exec_point()], [fork_point()] and [parent_exec_point()]. *)
Definition exec_point (p : pid_ref) : M (option pid_ref) :=
  pr ← proc p;
  ret (match kind_ pr with KExeced _ => Some p | KForked f => exec_point_ f end).
Definition fork_point (p : pid_ref) : M (option pid_ref) :=
  pr ← proc p;
  ret (match kind_ pr with KExeced x => fork_point_ x | KForked _ => Some p end).
Definition parent_exec_point (p : pid_ref) : M (option pid_ref) :=
  pr ← proc p;
  match parent_ pr with Some q => exec_point q | None => ret None end.
(** [exec_point()->...] *)
Definition exec_point_nn (p : pid_ref) : M pid_ref := exec_point p ≫= deref.

Definition can_shortcut (p : pid_ref) : M bool := x ← execed p; ret (can_shortcut_ x).

(** The number of processes, which bounds the length of every chain of parents. *)
Definition chain_fuel : M nat := gets (fun w => S (size (w_procs w))).

(** [generation()] and [writers_count()] (file_name.h). *)
Definition generation (name : cstr) : M Z :=
  o ← gets (fun w => generation_db_ w !! name);
  match o with
  | Some g => assertM (0 <? g) ≫= fun _ => ret g
  | None => ret 0
  end.
Definition writers_count_in (w : World) (name : cstr) : Z :=
  match write_ofds_db_ w !! name with Some (n, _) => n | None => 0 end.

(** The file system as seen through [HashCache::get_hash()], which refuses ignored
    files and files with too many writers without setting [errno]. *)
Definition env_in (w : World) : Env := {|
  env_stat := env_stat sys_env;
  env_lstat := env_lstat sys_env;
  env_get_hash f max_writers :=
    if is_in_ignore_location f then inl sys_errno
    else if max_writers <? writers_count_in w f then inl sys_errno
    else env_get_hash sys_env f max_writers;
  env_get_statinfo := env_get_statinfo sys_env
|}.
Definition env : M Env := gets env_in.

(** * Disabling shortcutting (execed_process.{h,cc}) *)

(** The loop of [next_shortcutable_ancestor()], also that of
    [disable_shortcutting_bubble_up_to_excl()]: follow
    [maybe_shortcutable_ancestor_] to a process that can be shortcut. *)
Fixpoint skip_disabled (fuel : nat) (next : option pid_ref) : M (option pid_ref) :=
  match next with
  | None => ret None
  | Some q =>
      match fuel with
      | O => out_of_fuel
      | S fuel =>
          x ← execed q;
          if can_shortcut_ x then ret (Some q)
          else skip_disabled fuel (maybe_shortcutable_ancestor_ x)
      end
  end.

Definition next_shortcutable_ancestor (p : pid_ref) : M (option pid_ref) :=
  x ← execed p;
  match maybe_shortcutable_ancestor_ x with
  | None => ret None
  | Some m =>
      xm ← execed m;
      if can_shortcut_ xm then ret (Some m)
      else
        fuel ← chain_fuel;
        next ← skip_disabled fuel (maybe_shortcutable_ancestor_ xm);
        upd_execed p (set_maybe_shortcutable_ancestor_ next) ≫= fun _ =>
        ret next
  end.

Definition closest_shortcut_point (p : pid_ref) : M (option pid_ref) :=
  b ← can_shortcut p;
  if b : bool then ret (Some p) else next_shortcutable_ancestor p.

(** [disable_shortcutting_only_this(reason, p)]. *)
Definition disable_shortcutting_only_this (this : pid_ref) (reason : reason_t)
    (p : option pid_ref) : M unit :=
  x ← execed this;
  if can_shortcut_ x then
    upd_execed this (set_can_shortcut_ false) ≫= fun _ =>
    assertM (bool_decide (cant_shortcut_reason_ x = None)) ≫= fun _ =>
    upd_execed this (set_cant_shortcut_reason_ (Some reason)) ≫= fun _ =>
    assertM (bool_decide (cant_shortcut_proc_ x = None)) ≫= fun _ =>
    upd_execed this (set_cant_shortcut_proc_ (Some (default this p))) ≫= fun _ =>
    mforM (inherited_files_ x) (fun inherited_file =>
      match if_recorder inherited_file with
      | Some r =>
          assertM (bool_decide (if_type inherited_file = FD_PIPE_OUT)) ≫= fun _ =>
          log (EvRecorderDeactivate r)
      | None => ret tt
      end)
  else ret tt.

(** [disable_shortcutting_bubble_up_to_excl(stop, reason, p, shortcutable_ancestor,
    shortcutable_ancestor_is_set)]; the last two arguments are one option. *)
Fixpoint bubble_up_to_excl (fuel : nat) (this : pid_ref) (stop : option pid_ref)
    (reason : reason_t) (p : option pid_ref) (shortcutable_ancestor : option (option pid_ref))
    : M unit :=
  match fuel with
  | O => out_of_fuel
  | S fuel =>
      if bool_decide (Some this = stop) then ret tt
      else
        let p := Some (default this p) in
        disable_shortcutting_only_this this reason p ≫= fun _ =>
        nsa ← next_shortcutable_ancestor this;
        match nsa with
        | None => ret tt
        | Some _ =>
            shortcutable_ancestor ←
              match shortcutable_ancestor with
              | Some a => ret a
              | None => n ← chain_fuel; skip_disabled n stop
              end;
            upd_execed this (set_maybe_shortcutable_ancestor_ shortcutable_ancestor) ≫= fun _ =>
            pe ← parent_exec_point this;
            match pe with
            | Some q => bubble_up_to_excl fuel q stop reason p (Some shortcutable_ancestor)
            | None => ret tt
            end
        end
  end.

Definition disable_shortcutting_bubble_up_to_excl (this : pid_ref) (stop : option pid_ref)
    (reason : reason_t) (p : option pid_ref) : M unit :=
  fuel ← chain_fuel; bubble_up_to_excl fuel this stop reason p None.

Definition disable_shortcutting_bubble_up (this : pid_ref) (reason : reason_t)
    (p : option pid_ref) : M unit :=
  disable_shortcutting_bubble_up_to_excl this None reason p.

(** [get_fd(fd)] (process.h). *)
Definition get_fd (p : pid_ref) (fd : Z) : M (option FileFD) :=
  pr ← proc p;
  fds ← deref (fds_ pr);
  ret (if (fd <? 0) || (Z.of_nat (length fds) <=? fd) then None
       else mjoin (fds !! Z.to_nat fd)).

Definition ofd_of (f : FileFD) : M FileOFD := gets (fun w => w_ofds w !! ofd_ f) ≫= deref.

(** [reason_with_fd(reason, fd)] and the overloads of
    [disable_shortcutting_bubble_up] that add a detail when a report is made. *)
Definition reason_with_fd (this : pid_ref) (reason : string) (fd : Z) : M reason_t :=
  f ← get_fd this fd;
  name ← match f with
         | Some f => ofd ← ofd_of f; ret (filename_ ofd)
         | None => ret None
         end;
  ret (Reason reason (Some (DFd fd name))).

Definition disable_shortcutting_bubble_up_to_excl_fd (this : pid_ref) (stop : option pid_ref)
    (reason : string) (fd : Z) : M unit :=
  r ← if generate_report then reason_with_fd this reason fd else ret (plain reason);
  disable_shortcutting_bubble_up_to_excl this stop r None.
Definition disable_shortcutting_bubble_up_fd (this : pid_ref) (reason : string) (fd : Z) : M unit :=
  r ← if generate_report then reason_with_fd this reason fd else ret (plain reason);
  disable_shortcutting_bubble_up this r None.
Definition disable_shortcutting_bubble_up_file (this : pid_ref) (reason : string) (file : cstr)
    : M unit :=
  disable_shortcutting_bubble_up this
    (if generate_report then Reason reason (Some (DFile file)) else plain reason) None.
Definition disable_shortcutting_bubble_up_str (this : pid_ref) (reason : string)
    (detail : reason_detail) : M unit :=
  disable_shortcutting_bubble_up this
    (if generate_report then Reason reason (Some detail) else plain reason) None.

(** The walk of [common_exec_ancestor(other)] up the two branches in parallel. *)
Fixpoint common_ancestor_loop (fuel : nat) (curr_this curr_other : option pid_ref)
    (my_ancestors others_ancestors : gset pid_ref) : M pid_ref :=
  match fuel with
  | O => out_of_fuel
  | S fuel =>
      match curr_this with
      | Some t =>
          if bool_decide (t ∈ others_ancestors) then ret t
          else
            t' ← parent_exec_point t;
            common_ancestor_other fuel t' curr_other ({[t]} ∪ my_ancestors) others_ancestors
      | None => common_ancestor_other fuel None curr_other my_ancestors others_ancestors
      end
  end
with common_ancestor_other (fuel : nat) (curr_this curr_other : option pid_ref)
    (my_ancestors others_ancestors : gset pid_ref) : M pid_ref :=
  match fuel with
  | O => out_of_fuel
  | S fuel =>
      match curr_other with
      | Some o =>
          if bool_decide (o ∈ my_ancestors) then ret o
          else
            o' ← parent_exec_point o;
            common_ancestor_again fuel curr_this o' my_ancestors ({[o]} ∪ others_ancestors)
      | None => common_ancestor_again fuel curr_this None my_ancestors others_ancestors
      end
  end
with common_ancestor_again (fuel : nat) (curr_this curr_other : option pid_ref)
    (my_ancestors others_ancestors : gset pid_ref) : M pid_ref :=
  match fuel with
  | O => out_of_fuel
  | S fuel =>
      match curr_this, curr_other with
      | None, None => abortM
      | _, _ => common_ancestor_loop fuel curr_this curr_other my_ancestors others_ancestors
      end
  end.

Definition common_exec_ancestor (this other : pid_ref) : M pid_ref :=
  n ← chain_fuel;
  common_ancestor_loop (3 * n + 3) (Some this) (Some other) ∅ ∅.

(** [args_to_short_string()]. *)
Definition args_to_short_string (args : list cstr) : cstr :=
  match args with
  | [] => []
  | a0 :: rest =>
      let str := FileNames.FileName.base_name a0 ++ flat_map (fun a => " "%char :: a) rest in
      if (length str <=? 65)%nat then str
      else
        let one_run := (65 / 2 - 5)%nat in
        take one_run str ++ cs "[...]" ++ drop (length str - one_run) str
  end.

(** * Registering file usages (execed_process.cc) *)

(** The bubbling loop of [register_file_usage_update].  [fu_old] starts as a value
    different from every pointer ([None]); [rec] is the recursive call. *)
Fixpoint register_loop (rec : pid_ref -> cstr -> FileUsageUpdate.t -> M bool) (n : nat)
    (this : pid_ref) (name : cstr) (proc : option pid_ref) (fu_old : option (option FileUsage.t))
    (fu_new : option FileUsage.t) (update : FileUsageUpdate.t) (propagated : bool) : M bool :=
  match proc with
  | None => ret true
  | Some q =>
      if bool_decide (Some fu_new = fu_old) then ret true
      else
        match n with
        | O => out_of_fuel
        | S n =>
            x ← execed q;
            let fu := file_usages_ x !! name in
            let store_and_go_on fu_old fu_new update :=
              (* Update the previous value or insert a new one. *)
              match fu_new with
              | None => abortM
              | Some v =>
                  upd_execed q (fun x => set_file_usages_ (<[name := v]> (file_usages_ x)) x)
                  ≫= fun _ =>
                  next ← next_shortcutable_ancestor q;
                  register_loop rec n this name next fu_old fu_new update true
              end in
            if bool_decide (Some fu = fu_old) then store_and_go_on fu_old fu_new update
            else
              let gen := FileUsageUpdate.generation_ update in
              let parallel :=
                match fu with
                | None => false
                | Some v => negb (FileUsage.generation_ v =? gen)
                            && negb ((FileUsage.generation_ v + 1) mod 2 ^ 32 =? gen)
                end in
              if parallel then
                disable_shortcutting_only_this q
                  (if generate_report then Reason "A parallel process modified" (Some (DFile name))
                   else plain "A parallel process modified the file") None ≫= fun _ =>
                next ← next_shortcutable_ancestor q;
                match next with
                | Some q' => rec q' name update
                | None => ret true
                end
              else
                E ← env;
                r ← lift (FileUsage.merge E (default (FileUsage.Get FileInfo.DONTKNOW) fu)
                            update propagated);
                match r with
                | (None, _) =>
                    disable_shortcutting_bubble_up_str this
                      "Could not register unsupported file usage combination" (DMerge name)
                    ≫= fun _ => ret false
                | (Some v, update) => store_and_go_on (Some fu) (Some v) update
                end
        end
  end.

(** [register_file_usage_update(name, update)] with the call to
    [register_parent_directory(name, parent_type)]. *)
Fixpoint register_with_fuel (fuel : nat) (this : pid_ref) (name : cstr)
    (update : FileUsageUpdate.t) {struct fuel} : M bool :=
  match fuel with
  | O => out_of_fuel
  | S fuel =>
      x ← execed this;
      if is_in_ignore_location name || bool_decide (Some name = jobserver_fifo_ x) then ret true
      else
        let direct := can_shortcut_ x || generate_report in
        proc ← if direct then ret (Some this) else next_shortcutable_ancestor this;
        match proc with
        | None => ret true
        | Some q =>
            when (negb (bool_decide (FileUsageUpdate.parent_type_ update = FileInfo.DONTKNOW)))
              (match FileNames.FileName.parent_dir name with
               | None => ret tt
               | Some parent_dir =>
                   if bool_decide (parent_dir = [slash]) then ret tt
                   else
                     gen ← generation parent_dir;
                     register_with_fuel fuel q parent_dir
                       (FileUsageUpdate.make_type parent_dir gen
                          (FileUsageUpdate.parent_type_ update) false false) ≫= fun _ => ret tt
               end) ≫= fun _ =>
            n ← chain_fuel;
            register_loop (register_with_fuel fuel) n this name proc None None update (negb direct)
        end
  end.

Definition register_file_usage_update (this : pid_ref) (name : cstr) (update : FileUsageUpdate.t)
    : M bool :=
  n ← chain_fuel; register_with_fuel (S n) this name update.

(** * Files open for writing (file_name.cc) *)

(** [FileUsageUpdate(name, type, written, mode_changed)]. *)
Definition new_update (name : cstr) (type : FileInfo.FileType) (written mode_changed : bool)
    : M FileUsageUpdate.t :=
  gen ← generation name;
  ret (FileUsageUpdate.make_type name gen type written mode_changed).

Definition set_writers (name : cstr) (v : option (Z * pid_ref)) : M unit :=
  modify (fun w => set_write_ofds_db_ (partial_alter (fun _ => v) name (write_ofds_db_ w)) w).

Definition open_for_writing (name : cstr) (opener : option pid_ref) : M unit :=
  if is_in_ignore_location name then ret tt
  else
    this ← deref opener;
    o ← gets (fun w => write_ofds_db_ w !! name);
    match o with
    | Some (n, other) =>
        assertM (0 <? n) ≫= fun _ =>
        set_writers name (Some (n + 1, other)) ≫= fun _ =>
        x ← execed this;
        if negb (bool_decide (this = other)) && negb (bool_decide (Some name = jobserver_fifo_ x))
        then
          common_ancestor ← common_exec_ancestor this other;
          other_pr ← proc other;
          other_x ← execed other;
          let detail := Some (DWriter name (pid_ other_pr) (args_to_short_string (args_ other_x))) in
          when (negb (bool_decide (common_ancestor = this)))
            (disable_shortcutting_bubble_up_to_excl this (Some common_ancestor)
               (Reason "Opened a file for writing which file is already opened for writing by" detail) None) ≫= fun _ =>
          when (negb (bool_decide (common_ancestor = other)))
            (disable_shortcutting_bubble_up_to_excl other (Some common_ancestor)
               (Reason "An other process opened a file for writing which file is already opened for writing by" detail) None
             ≫= fun _ => set_writers name (Some (n + 1, common_ancestor)))
        else ret tt
    | None =>
        set_writers name (Some (1, this)) ≫= fun _ =>
        g ← gets (fun w => generation_db_ w !! name);
        match g with
        | Some g =>
            assertM (g <? 2 ^ 32 - 1) ≫= fun _ =>
            modify (fun w => set_generation_db_ (<[name := g + 1]> (generation_db_ w)) w) ≫= fun _ =>
            update ← new_update name FileInfo.DONTKNOW false false;
            register_file_usage_update this name update ≫= fun _ => ret tt
        | None => modify (fun w => set_generation_db_ (<[name := 1]> (generation_db_ w)) w)
        end
    end.

Definition close_for_writing (name : cstr) : M unit :=
  if is_in_ignore_location name then ret tt
  else
    o ← gets (fun w => write_ofds_db_ w !! name);
    match o with
    | None => abortM
    | Some (n, other) =>
        assertM (0 <? n) ≫= fun _ =>
        if 1 <? n then set_writers name (Some (n - 1, other)) else set_writers name None
    end.

(** * Open file descriptions and file descriptors (file_fd.{h,cc}) *)

Definition FILE_CREATION_FLAGS : Z :=
  Z.lor O_CLOEXEC (Z.lor O_CREAT (Z.lor O_DIRECTORY (Z.lor O_EXCL (Z.lor O_NOCTTY
    (Z.lor O_NOFOLLOW O_TRUNC))))).

(** The constructor of [FileOFD], held by one new [shared_ptr]. *)
Definition new_FileOFD (type : fd_type) (filename : option cstr) (flags : Z)
    (opened_by : option pid_ref) : M nat :=
  id ← gets w_ofd_counter;
  let flags := Z.ldiff flags FILE_CREATION_FLAGS in
  modify (fun w => set_w_ofd_counter (S id)
            (set_w_ofds (<[id := mkOFD id type filename flags opened_by 1]> (w_ofds w)) w)) ≫= fun _ =>
  match filename with
  | Some name =>
      when (is_write flags)
        (opened_by ← deref opened_by; ep ← exec_point opened_by; open_for_writing name ep)
  | None => ret tt
  end ≫= fun _ =>
  ret id.

(** Copying and destroying a [shared_ptr<FileOFD>]; the last one runs [~FileOFD]. *)
Definition share_ofd (id : nat) : M unit :=
  o ← gets (fun w => w_ofds w !! id) ≫= deref;
  modify (fun w => set_w_ofds (<[id := set_use_count (S (use_count o)) o]> (w_ofds w)) w).
Definition release_ofd (id : nat) : M unit :=
  o ← gets (fun w => w_ofds w !! id) ≫= deref;
  match use_count o with
  | S (S n) => modify (fun w => set_w_ofds (<[id := set_use_count (S n) o]> (w_ofds w)) w)
  | _ =>
      modify (fun w => set_w_ofds (delete id (w_ofds w)) w) ≫= fun _ =>
      match filename_ o with
      | Some name => when (is_write (flags_ o)) (close_for_writing name)
      | None => ret tt
      end
  end.

Definition fresh_ffd : M nat :=
  id ← gets w_ffd_counter; modify (fun w => set_w_ffd_counter (S id) w) ≫= fun _ => ret id.

(** [FileFD(flags, type, opened_by)]. *)
Definition new_FileFD_type (flags : Z) (type : fd_type) (opened_by : option pid_ref) : M FileFD :=
  ofd ← new_FileOFD type None flags opened_by;
  id ← fresh_ffd; ret (mkFFD id ofd None (has flags O_CLOEXEC) false).
(** [FileFD(flags, pipe, opened_by, close_on_popen)]. *)
Definition new_FileFD_pipe (flags : Z) (pipe : option nat) (opened_by : option pid_ref)
    (close_on_popen : bool) : M FileFD :=
  ofd ← new_FileOFD (if is_write flags then FD_PIPE_OUT else FD_PIPE_IN) None flags opened_by;
  id ← fresh_ffd; ret (mkFFD id ofd pipe (has flags O_CLOEXEC) close_on_popen).
(** [FileFD(ffd_src, cloexec)]. *)
Definition new_FileFD_dup (src : FileFD) (cloexec : bool) : M FileFD :=
  share_ofd (ofd_ src) ≫= fun _ =>
  id ← fresh_ffd;
  match pipe_ src with Some pp => log (EvPipeDup pp (ffd_id src) id) | None => ret tt end ≫= fun _ =>
  ret (mkFFD id (ofd_ src) (pipe_ src) cloexec false).
(** [FileFD(filename, flags, opened_by)]. *)
Definition new_FileFD_name (filename : cstr) (flags : Z) (opened_by : option pid_ref) : M FileFD :=
  ofd ← new_FileOFD (if is_in_ignore_location filename then FD_IGNORED else FD_FILE)
          (Some filename) flags opened_by;
  id ← fresh_ffd; ret (mkFFD id ofd None (has flags O_CLOEXEC) false).
(** The copy constructor. *)
Definition copy_FileFD (src : FileFD) : M FileFD :=
  share_ofd (ofd_ src) ≫= fun _ =>
  id ← fresh_ffd; ret (set_ffd_id id src).
(** The destructor. *)
Definition drop_FileFD (f : FileFD) : M unit := release_ofd (ofd_ f).
(** [set_pipe(nullptr)]: the calls it makes. *)
Definition clear_pipe (f : FileFD) : M unit :=
  match pipe_ f with Some pp => log (EvPipeClose pp (ffd_id f)) | None => ret tt end.

End WithConfig.
