(* ===== verification/Shortcut.v ===== *)
(** Which processes can still be shortcut: correctness of
    [ExecedProcess::disable_shortcutting_bubble_up_to_excl] and of the cached
    pointer [maybe_shortcutable_ancestor_] (src/firebuild/execed_process.{h,cc}). *)

From stdpp Require Import base list strings option gmap sets.
From Stdlib Require Import ZArith Lia Ascii.
From S2P Require Import Prelude World.

Module Shortcut.

(** * The tree of execed processes *)

Definition execed_of (w : World) (p : pid_ref) : option Execed :=
  match w_procs w !! p with
  | Some pr => match kind_ pr with KExeced x => Some x | KForked _ => None end
  | None => None
  end.

Definition exec_point_of (w : World) (p : pid_ref) : option pid_ref :=
  match w_procs w !! p with
  | Some pr => match kind_ pr with KExeced _ => Some p | KForked f => exec_point_ f end
  | None => None
  end.

(** The nearest execed process above. *)
Definition parent_x (w : World) (p : pid_ref) : option pid_ref :=
  match w_procs w !! p with
  | Some pr => match parent_ pr with Some q => exec_point_of w q | None => None end
  | None => None
  end.

Definition can (w : World) (p : pid_ref) : bool :=
  match execed_of w p with Some x => can_shortcut_ x | None => false end.

Definition maybe (w : World) (p : pid_ref) : option pid_ref :=
  match execed_of w p with Some x => maybe_shortcutable_ancestor_ x | None => None end.

(** [q] is an execed process strictly above [p]. *)
Inductive above (w : World) (p q : pid_ref) : Prop :=
| above_parent : parent_x w p = Some q -> above w p q
| above_step r : parent_x w p = Some r -> above w r q -> above w p q.

(** What disabling shortcutting does not change: everything but the four members
    that describe it. *)
Definition erase (x : Execed) : Execed :=
  set_can_shortcut_ true (set_maybe_shortcutable_ancestor_ None
    (set_cant_shortcut_reason_ None (set_cant_shortcut_proc_ None x))).
Definition erase_proc (pr : Process) : Process :=
  match kind_ pr with
  | KExeced x => set_kind_ (KExeced (erase x)) pr
  | KForked _ => pr
  end.
Definition same_shape (w w' : World) : Prop :=
  erase_proc <$> w_procs w = erase_proc <$> w_procs w' /\
  w_fb_pid_counter w = w_fb_pid_counter w' /\ w_ofds w = w_ofds w' /\
  w_ofd_counter w = w_ofd_counter w' /\ w_ffd_counter w = w_ffd_counter w' /\
  w_pipe_counter w = w_pipe_counter w' /\ write_ofds_db_ w = write_ofds_db_ w' /\
  generation_db_ w = generation_db_ w' /\ proc2pending_pipe_ w = proc2pending_pipe_ w'.

#[global] Instance same_shape_equiv : Equivalence same_shape.
Proof.
  split.
  - intros w. by repeat split.
  - intros w w' (? & ? & ? & ? & ? & ? & ? & ? & ?). by repeat split.
  - intros a b c (? & ? & ? & ? & ? & ? & ? & ? & ?) (? & ? & ? & ? & ? & ? & ? & ? & ?).
    repeat split; congruence.
Qed.

Lemma shape_lookup w w' p pr :
  same_shape w w' -> w_procs w !! p = Some pr ->
  exists pr', w_procs w' !! p = Some pr' /\ erase_proc pr = erase_proc pr'.
Proof.
  intros [H _] Hp. apply (f_equal (fun m => m !! p)) in H. rewrite !lookup_fmap, Hp in H.
  destruct (w_procs w' !! p) as [pr'|]; [|done]. injection H as H. eauto.
Qed.

Lemma erase_proc_exec_point pr pr' p :
  erase_proc pr = erase_proc pr' ->
  match kind_ pr with KExeced _ => Some p | KForked f => exec_point_ f end =
  match kind_ pr' with KExeced _ => Some p | KForked f => exec_point_ f end.
Proof.
  unfold erase_proc. intros H.
  destruct (kind_ pr) eqn:E1, (kind_ pr') eqn:E2; [done| | |congruence];
    apply (f_equal kind_) in H; rewrite ?E1, ?E2 in H; by cbn in H.
Qed.

Lemma erase_proc_parent pr pr' : erase_proc pr = erase_proc pr' -> parent_ pr = parent_ pr'.
Proof.
  unfold erase_proc. intros H%(f_equal parent_).
  by destruct (kind_ pr), (kind_ pr').
Qed.

Lemma exec_point_of_shape w w' p : same_shape w w' -> exec_point_of w p = exec_point_of w' p.
Proof.
  intros H. unfold exec_point_of. destruct (w_procs w !! p) as [pr|] eqn:E.
  - destruct (shape_lookup _ _ _ _ H E) as (pr' & -> & He). by apply erase_proc_exec_point.
  - destruct (w_procs w' !! p) as [pr'|] eqn:E'; [|done].
    symmetry in H. destruct (shape_lookup _ _ _ _ H E') as (? & ? & _). congruence.
Qed.

Lemma parent_x_shape w w' p : same_shape w w' -> parent_x w p = parent_x w' p.
Proof.
  intros H. unfold parent_x. destruct (w_procs w !! p) as [pr|] eqn:E.
  - destruct (shape_lookup _ _ _ _ H E) as (pr' & -> & He).
    rewrite (erase_proc_parent _ _ He). destruct (parent_ pr'); [|done].
    by apply exec_point_of_shape.
  - destruct (w_procs w' !! p) as [pr'|] eqn:E'; [|done].
    symmetry in H. destruct (shape_lookup _ _ _ _ H E') as (? & ? & _). congruence.
Qed.

Lemma above_shape w w' p q : same_shape w w' -> above w p q -> above w' p q.
Proof.
  intros H. induction 1 as [p q Hp|p q r Hp _ IH].
  - apply above_parent. by rewrite <- (parent_x_shape w w').
  - apply above_step with r; [|done]. by rewrite <- (parent_x_shape w w').
Qed.

Lemma execed_of_shape w w' p : same_shape w w' -> is_Some (execed_of w p) -> is_Some (execed_of w' p).
Proof.
  intros H. unfold execed_of. destruct (w_procs w !! p) as [pr|] eqn:E; [|by intros []].
  destruct (shape_lookup _ _ _ _ H E) as (pr' & -> & He).
  unfold erase_proc in He. destruct (kind_ pr) eqn:E1; [|by intros []].
  destruct (kind_ pr') eqn:E2; [by eauto|].
  apply (f_equal kind_) in He. rewrite E2 in He. by cbn in He.
Qed.

(** * Well-formed trees *)

(** Every link of the tree leads to an execed process that exists, the tree has no
    cycles, and the members that explain why shortcutting was disabled are set
    exactly when it is. *)
Record tree_ok (w : World) : Prop := {
  tree_parent : forall p pr q, w_procs w !! p = Some pr -> parent_ pr = Some q ->
    is_Some (w_procs w !! q);
  tree_exec_point : forall p q, exec_point_of w p = Some q -> is_Some (execed_of w q);
  tree_acyclic : exists rank : pid_ref -> nat, forall p q,
    parent_x w p = Some q -> (rank q < rank p)%nat;
  tree_reason : forall p x, execed_of w p = Some x -> can_shortcut_ x = true ->
    cant_shortcut_reason_ x = None /\ cant_shortcut_proc_ x = None;
  tree_recorders : forall p x i, execed_of w p = Some x -> i ∈ inherited_files_ x ->
    is_Some (if_recorder i) -> if_type i = FD_PIPE_OUT
}.

(** The cached pointer of [p] leads to an execed process above [p] and skips only
    processes that can't be shortcut. *)
Definition skip_ok (w : World) (p : pid_ref) : Prop :=
  match maybe w p with
  | Some m => above w p m /\ forall r, above w p r -> can w r = true -> r = m \/ above w m r
  | None => forall r, above w p r -> can w r = false
  end.

Definition skips_ok (w : World) : Prop := forall p, is_Some (execed_of w p) -> skip_ok w p.

(** The execed processes above [p], nearest first. *)
Fixpoint chain (w : World) (p : pid_ref) (l : list pid_ref) : Prop :=
  match l with
  | [] => parent_x w p = None
  | q :: l' => parent_x w p = Some q /\ chain w q l'
  end.

Lemma chain_exists w p : tree_ok w -> exists l, chain w p l.
Proof.
  intros W. destruct (tree_acyclic w W) as [rank Hr].
  remember (rank p) as n eqn:Hn. revert p Hn.
  induction n as [n IH] using lt_wf_ind. intros p ->.
  destruct (parent_x w p) as [q|] eqn:E; [|by exists []].
  destruct (IH (rank q) (Hr _ _ E) q eq_refl) as [l Hl]. by exists (q :: l).
Qed.

Lemma chain_above w p l q : chain w p l -> q ∈ l <-> above w p q.
Proof.
  revert p. induction l as [|r l IH]; intros p Hc; cbn in Hc.
  - split; [by intros ?%not_elem_of_nil|]. intros Ha. destruct Ha; congruence.
  - destruct Hc as [Hp Hc]. rewrite elem_of_cons, (IH r Hc). split.
    + intros [->|Ha]; [by apply above_parent|by apply above_step with r].
    + intros [Hq|r' Hr' Ha]; [left; congruence|right]. by replace r with r' by congruence.
Qed.

Lemma chain_rank w (rank : pid_ref -> nat) p l :
  (forall p q, parent_x w p = Some q -> (rank q < rank p)%nat) -> chain w p l ->
  Forall (fun q => (rank q < rank p)%nat) l /\ NoDup (p :: l).
Proof.
  intros Hr. revert p. induction l as [|q l IH]; intros p Hc; cbn in Hc.
  - split; [done|]. apply NoDup_singleton.
  - destruct Hc as [Hp Hc]. destruct (IH q Hc) as [Hf Hn]. apply Hr in Hp.
    assert (Forall (fun q => (rank q < rank p)%nat) (q :: l)) as Hall.
    { constructor; [done|]. eapply Forall_impl; [done|]. cbn. lia. }
    split; [done|]. constructor; [|done]. intros Hin.
    rewrite Forall_forall in Hall. apply Hall in Hin. lia.
Qed.

Lemma parent_x_execed w p q : tree_ok w -> parent_x w p = Some q -> is_Some (execed_of w q).
Proof.
  intros W. unfold parent_x. destruct (w_procs w !! p); [|done].
  destruct (parent_ p0); [|done]. apply (tree_exec_point w W).
Qed.

Lemma chain_execed w p l : tree_ok w -> chain w p l -> Forall (fun q => is_Some (execed_of w q)) l.
Proof.
  intros W. revert p. induction l as [|q l IH]; intros p Hc; [done|].
  destruct Hc as [Hp Hc]. constructor; [by eapply parent_x_execed|by eapply IH].
Qed.

Lemma execed_of_proc w p : is_Some (execed_of w p) -> is_Some (w_procs w !! p).
Proof. unfold execed_of. destruct (w_procs w !! p); [done|by intros []]. Qed.

(** The chain above a process is shorter than the number of processes. *)
Lemma chain_length w p l :
  tree_ok w -> is_Some (execed_of w p) -> chain w p l -> (S (length l) <= size (w_procs w))%nat.
Proof.
  intros W Hp Hc. destruct (tree_acyclic w W) as [rank Hr].
  destruct (chain_rank w rank p l Hr Hc) as [_ Hn].
  pose proof (chain_execed w p l W Hc) as He.
  replace (S (length l)) with (length (p :: l)) by done.
  rewrite <- size_dom. unfold size, set_size.
  apply submseteq_length, NoDup_submseteq; [done|]. intros x Hx.
  apply elem_of_elements, elem_of_dom. apply execed_of_proc.
  apply elem_of_cons in Hx as [->|Hx]; [done|]. rewrite Forall_forall in He. by apply He.
Qed.


Lemma chain_suffix w p l m :
  chain w p l -> m ∈ l -> exists l', chain w m l' /\ (length l' < length l)%nat.
Proof.
  revert p. induction l as [|q l IH]; intros p Hc Hm; [by apply not_elem_of_nil in Hm|].
  destruct Hc as [Hp Hc]. apply elem_of_cons in Hm as [->|Hm].
  - exists l. split; [done|]. cbn. lia.
  - destruct (IH q Hc Hm) as (l' & Hl' & ?). exists l'. split; [done|]. cbn. lia.
Qed.

Lemma above_trans w p q r : above w p q -> above w q r -> above w p r.
Proof. induction 1; intros; eauto using above. Qed.

(** The execed processes above a process are linearly ordered. *)
Lemma above_linear w p q r : above w p q -> above w p r -> q = r \/ above w q r \/ above w r q.
Proof.
  intros Hq. revert r. induction Hq as [p q Hp|p q s Hp Hs IH]; intros r [Hr|t Ht Hr].
  - left. congruence.
  - right. left. by replace q with t by congruence.
  - right. right. by replace r with s by congruence.
  - apply IH. by replace s with t by congruence.
Qed.

Lemma above_irrefl w p : tree_ok w -> ~ above w p p.
Proof.
  intros W. destruct (tree_acyclic w W) as [rank Hr].
  assert (forall a b, above w a b -> (rank b < rank a)%nat) as H.
  { induction 1 as [a b Hp|a b c Hp _ IH]; apply Hr in Hp; lia. }
  intros Ha%H. lia.
Qed.

(** [r] is the nearest process that can be shortcut above [p]. *)
Definition nearest_above (w : World) (p : pid_ref) (r : option pid_ref) : Prop :=
  match r with
  | Some m => above w p m /\ can w m = true /\
              forall s, above w p s -> can w s = true -> s = m \/ above w m s
  | None => forall s, above w p s -> can w s = false
  end.

(** The same, starting from [p] itself. *)
Definition nearest_from (w : World) (p : pid_ref) (r : option pid_ref) : Prop :=
  if can w p then r = Some p else nearest_above w p r.

(** Following a cached pointer keeps the nearest process. *)
Lemma nearest_skip w p m r :
  skip_ok w p -> maybe w p = Some m -> nearest_from w m r -> nearest_above w p r.
Proof.
  unfold skip_ok. intros Hs Hm. rewrite Hm in Hs. destruct Hs as [Ha Hs]. unfold nearest_from.
  destruct (can w m) eqn:Em.
  - intros ->. done.
  - intros Hn. destruct r as [k|]; cbn in *.
    + destruct Hn as (H1 & H2 & H3). splits; [by eapply above_trans|done|].
      intros s Has Hcs. destruct (Hs s Has Hcs) as [->|]; [congruence|]. by apply H3.
    + intros s Has. destruct (can w s) eqn:E; [|done].
      destruct (Hs s Has E) as [->|H]; [congruence|]. rewrite (Hn s H) in E. done.
Qed.

Lemma nearest_none w p : skip_ok w p -> maybe w p = None -> nearest_above w p None.
Proof. unfold skip_ok. intros Hs Hm. by rewrite Hm in Hs. Qed.

(** * Running the code on well-formed trees *)

Lemma execed_run w p x : execed_of w p = Some x -> execed p w = Ret (w, x).
Proof.
  unfold execed_of, execed, proc, gets, deref, mbind, M_bind. intros H.
  destruct (w_procs w !! p); [|done]. cbn. destruct (kind_ p0); by simplify_eq.
Qed.

Lemma bind_run {A B} (m : M A) (f : A -> M B) w w' a :
  m w = Ret (w', a) -> (m ≫= f) w = f a w'.
Proof. unfold mbind, M_bind. by intros ->. Qed.

Definition put_x (w : World) (p : pid_ref) (x : Execed) : World :=
  match w_procs w !! p with
  | Some pr => set_w_procs (<[p := set_kind_ (KExeced x) pr]> (w_procs w)) w
  | None => w
  end.

Lemma upd_execed_run w p x f :
  execed_of w p = Some x -> upd_execed p f w = Ret (put_x w p (f x), tt).
Proof.
  intros H. unfold upd_execed. unfold mbind at 1, M_bind at 1. rewrite (execed_run _ _ _ H).
  unfold execed_of in H. unfold upd_proc, proc, gets, deref, mbind, M_bind, modify, put_x.
  destruct (w_procs w !! p); done.
Qed.

Lemma put_x_lookup w p x y q :
  execed_of w p = Some x ->
  execed_of (put_x w p y) q = if decide (p = q) then Some y else execed_of w q.
Proof.
  unfold execed_of, put_x. intros H. destruct (w_procs w !! p) as [pr|] eqn:E; [|done]. cbn.
  destruct (decide (p = q)) as [->|Hn].
  - by rewrite lookup_insert_eq.
  - by rewrite lookup_insert_ne.
Qed.

Lemma put_x_shape w p x y :
  execed_of w p = Some x -> erase x = erase y -> same_shape w (put_x w p y).
Proof.
  unfold execed_of, put_x. intros H He. destruct (w_procs w !! p) as [pr|] eqn:E; [|done].
  destruct (kind_ pr) as [x'|] eqn:Ek; [|done]. injection H as ->.
  split; [|by repeat split]. cbn. rewrite fmap_insert. symmetry. apply insert_id.
  rewrite lookup_fmap, E. cbn. f_equal. unfold erase_proc. rewrite Ek. cbn. by rewrite He.
Qed.

Lemma put_x_size w p x : size (w_procs (put_x w p x)) = size (w_procs w).
Proof.
  unfold put_x. destruct (w_procs w !! p) eqn:E; [|done]. cbn.
  by rewrite map_size_insert_Some.
Qed.


Lemma shape_size w w' : same_shape w w' -> size (w_procs w) = size (w_procs w').
Proof.
  intros [H _]. rewrite <- (map_size_fmap erase_proc (w_procs w)), H. apply map_size_fmap.
Qed.

Lemma shape_execed w w' p x' :
  same_shape w w' -> execed_of w' p = Some x' ->
  exists x, execed_of w p = Some x /\ erase x = erase x'.
Proof.
  intros H Hx. symmetry in H. unfold execed_of in *.
  destruct (w_procs w' !! p) as [pr|] eqn:E; [|done].
  destruct (shape_lookup _ _ _ _ H E) as (pr' & -> & He).
  destruct (kind_ pr) as [y|] eqn:E1; [|done]. injection Hx as ->.
  unfold erase_proc in He. rewrite E1 in He. apply (f_equal kind_) in He.
  destruct (kind_ pr') as [z|] eqn:E2; [|rewrite E2 in He; by cbn in He].
  exists z. split; [done|].
  exact (eq_sym (f_equal (fun k => match k with KExeced y => y | KForked _ => z end) He)).
Qed.

(** A change of the shortcutting members that keeps the reasons consistent keeps the
    tree well formed. *)
Lemma tree_ok_shape w w' :
  same_shape w w' -> tree_ok w ->
  (forall p x, execed_of w' p = Some x -> can_shortcut_ x = true ->
     cant_shortcut_reason_ x = None /\ cant_shortcut_proc_ x = None) ->
  tree_ok w'.
Proof.
  intros H W Hr. split.
  - intros p pr q Hp Hq. destruct (shape_lookup w' w p pr ltac:(by symmetry) Hp) as (pr' & Hp' & He).
    destruct (tree_parent w W p pr' q Hp') as [prq Hprq]; [by rewrite <- (erase_proc_parent _ _ He)|].
    destruct (shape_lookup _ _ _ _ H Hprq) as (? & ? & _). eauto.
  - intros p q Hp. rewrite <- (exec_point_of_shape w w') in Hp by done.
    eapply execed_of_shape; [done|]. by eapply tree_exec_point.
  - destruct (tree_acyclic w W) as [rank Hk]. exists rank. intros p q.
    rewrite <- (parent_x_shape w w') by done. apply Hk.
  - exact Hr.
  - intros p x i Hx Hi. destruct (shape_execed _ _ _ _ H Hx) as (y & Hy & He).
    apply (f_equal inherited_files_) in He. cbn in He.
    eapply (tree_recorders w W p y); [done|]. by rewrite He.
Qed.

Lemma skip_ok_mono w w' p :
  same_shape w w' -> (forall q, can w' q = true -> can w q = true) -> maybe w' p = maybe w p ->
  skip_ok w p -> skip_ok w' p.
Proof.
  intros H Hc Hm. pose proof H as H'. symmetry in H'. unfold skip_ok. rewrite Hm.
  destruct (maybe w p) as [m|].
  - intros [Ha Hs]. split; [by eapply above_shape|]. intros r Hr Hcr.
    destruct (Hs r); eauto using above_shape.
  - intros Hs r Hr. destruct (can w' r) eqn:E; [|done].
    apply Hc in E. rewrite (Hs r) in E by (by eapply above_shape). done.
Qed.

Lemma nearest_skip_ok w p r : maybe w p = r -> nearest_above w p r -> skip_ok w p.
Proof. unfold skip_ok. intros ->. destruct r as [m|]; [|done]. by intros (? & _ & ?). Qed.

Lemma nearest_above_eq w w' p r :
  same_shape w w' -> (forall q, can w' q = can w q) -> nearest_above w p r -> nearest_above w' p r.
Proof.
  intros H Hc. pose proof H as H'. symmetry in H'. destruct r as [m|]; cbn.
  - intros (H1 & H2 & H3). splits; [by eapply above_shape|by rewrite Hc|].
    intros s Hs. rewrite Hc. intros Hcs. destruct (H3 s); eauto using above_shape.
  - intros H1 s Hs. rewrite Hc. apply H1. by eapply above_shape.
Qed.

(** The cached pointers of [p] and of everything above it are sound. *)
Definition skips_from (w : World) (p : pid_ref) : Prop :=
  forall q, q = p \/ above w p q -> is_Some (execed_of w q) -> skip_ok w q.

Lemma skips_from_above w p q : skips_from w p -> above w p q -> skips_from w q.
Proof. intros K Ha r [->|Hr]; apply K; eauto using above_trans. Qed.

Lemma skips_ok_from w p : skips_ok w -> skips_from w p.
Proof. intros K q _. apply K. Qed.

Lemma skip_disabled_step w n q x :
  execed_of w q = Some x -> can_shortcut_ x = false ->
  skip_disabled (S n) (Some q) w = skip_disabled n (maybe_shortcutable_ancestor_ x) w.
Proof.
  intros Hx Hc. cbn [skip_disabled]. unfold mbind, M_bind. by rewrite (execed_run _ _ _ Hx), Hc.
Qed.

Lemma skip_disabled_run w n : forall l q,
  tree_ok w -> skips_from w q -> chain w q l -> is_Some (execed_of w q) -> (length l < n)%nat ->
  exists r, skip_disabled n (Some q) w = Ret (w, r) /\ nearest_from w q r.
Proof.
  induction n as [|n IH]; intros l q W K Hc [x Hx] Hl; [lia|]. cbn [skip_disabled].
  unfold mbind at 1, M_bind at 1. rewrite (execed_run _ _ _ Hx). unfold nearest_from, can.
  rewrite Hx. destruct (can_shortcut_ x) eqn:Ec; [by eexists|].
  pose proof (K q ltac:(by left) ltac:(by eexists)) as Kq.
  assert (Hm : maybe w q = maybe_shortcutable_ancestor_ x) by (unfold maybe; by rewrite Hx).
  destruct (maybe_shortcutable_ancestor_ x) as [m|].
  - assert (above w q m) as Ha by (unfold skip_ok in Kq; rewrite Hm in Kq; apply Kq).
    apply (chain_above w q l m Hc) in Ha as Hin.
    destruct (chain_suffix _ _ _ _ Hc Hin) as (l' & Hl' & Hlt).
    pose proof (chain_execed w q l W Hc) as He. rewrite Forall_forall in He.
    destruct (IH l' m W (skips_from_above _ _ _ K Ha) Hl' (He m Hin) ltac:(lia)) as (r & Hr & Hn).
    exists r. split; [done|]. by eapply nearest_skip.
  - exists None. split; [by destruct n|]. by apply nearest_none.
Qed.

(** [next_shortcutable_ancestor()] finds the nearest process above that can be
    shortcut and does nothing but shorten the cached pointer. *)
Lemma next_shortcutable_ancestor_run w p x :
  tree_ok w -> skips_from w p -> execed_of w p = Some x ->
  exists w' r, next_shortcutable_ancestor p w = Ret (w', r) /\ nearest_above w p r /\
    (w' = w \/ w' = put_x w p (set_maybe_shortcutable_ancestor_ r x)).
Proof.
  intros W K Hx. pose proof (K p ltac:(by left) ltac:(by eexists)) as Kp.
  unfold next_shortcutable_ancestor. unfold mbind at 1, M_bind at 1.
  rewrite (execed_run _ _ _ Hx).
  assert (Hm : maybe w p = maybe_shortcutable_ancestor_ x) by (unfold maybe; by rewrite Hx).
  destruct (maybe_shortcutable_ancestor_ x) as [m|].
  2: { exists w, None. splits; [done|by apply nearest_none|by left]. }
  assert (above w p m) as Ha by (unfold skip_ok in Kp; rewrite Hm in Kp; apply Kp).
  destruct (chain_exists w p W) as [l Hl].
  apply (chain_above w p l m Hl) in Ha as Hin.
  pose proof (chain_execed w p l W Hl) as He. rewrite Forall_forall in He.
  destruct (He m Hin) as [xm Hxm]. unfold mbind at 1, M_bind at 1. rewrite (execed_run _ _ _ Hxm).
  destruct (can_shortcut_ xm) eqn:Ec.
  { exists w, (Some m). splits; [done| |by left].
    eapply nearest_skip; [done..|]. unfold nearest_from, can. by rewrite Hxm, Ec. }
  pose proof (skips_from_above _ _ _ K Ha) as Km.
  destruct (chain_suffix _ _ _ _ Hl Hin) as (l' & Hl' & Hlen).
  pose proof (chain_length w m l' W ltac:(by eexists) Hl') as Hsz.
  destruct (skip_disabled_run w (S (S (size (w_procs w)))) l' m W Km Hl' ltac:(by eexists)
              ltac:(lia)) as (r & Hr & Hn).
  rewrite (skip_disabled_step _ _ _ _ Hxm Ec) in Hr.
  unfold chain_fuel, mbind, M_bind, gets. rewrite Hr. rewrite (upd_execed_run _ _ _ _ Hx).
  eexists _, r. splits; [done| |by right]. by eapply nearest_skip.
Qed.

(** ** What is recorded *)

Definition reason_of (w : World) (p : pid_ref) : option (option reason_t * option pid_ref) :=
  (fun x => (cant_shortcut_reason_ x, cant_shortcut_proc_ x)) <$> execed_of w p.

(** Everything but the processes and the log. *)
Definition others (w : World) : World := set_w_procs ∅ (set_w_log [] w).

(** Deactivating the recorders of the inherited files. *)
Definition deactivations (l : list inherited_file_t) : list event :=
  omap (fun i => EvRecorderDeactivate <$> if_recorder i) l.

(** [w'] is [w] with some processes disabled for [reason], which is [src]'s: these and no others
    have it, and what has been logged is that their recorders were deactivated. *)
Record marked (reason : reason_t) (src : pid_ref) (w w' : World) : Prop := {
  m_mono q : can w' q = true -> can w q = true;
  m_now q : can w q = true -> can w' q = false -> reason_of w' q = Some (Some reason, Some src);
  m_same q : can w' q = can w q -> reason_of w' q = reason_of w q;
  m_files q : inherited_files_ <$> execed_of w' q = inherited_files_ <$> execed_of w q;
  m_log : exists evs, w_log w' = w_log w ++ evs /\ forall ev, ev ∈ evs <->
    exists q x, execed_of w q = Some x /\ can w q = true /\ can w' q = false /\ ev ∈ deactivations (inherited_files_ x);
  m_others : others w' = others w
}.

Lemma marked_refl reason src w : marked reason src w w.
Proof.
  split; try done; [congruence|]. exists []. split; [by rewrite app_nil_r|]. intros ev. split; [by intros []%elem_of_nil|].
  intros (q & x & _ & H1 & H2 & _). congruence.
Qed.

Lemma marked_trans reason src w1 w2 w3 : marked reason src w1 w2 -> marked reason src w2 w3 -> marked reason src w1 w3.
Proof.
  intros [A1 A2 A3 A4 (e1 & A5 & A6) A7] [B1 B2 B3 B4 (e2 & B5 & B6) B7]. split.
  - auto.
  - intros q H1 H3. destruct (can w2 q) eqn:E; [by apply B2|]. rewrite B3 by congruence. by apply A2.
  - intros q H. destruct (can w2 q) eqn:E2; destruct (can w1 q) eqn:E1.
    + rewrite B3, A3 by congruence. done.
    + by rewrite (A1 q E2) in E1.
    + by rewrite (B1 q H) in E2.
    + rewrite B3, A3 by congruence. done.
  - intros q. by rewrite B4, A4.
  - exists (e1 ++ e2). split; [by rewrite B5, A5, app_assoc|]. intros ev. rewrite elem_of_app, A6, B6. split.
    + intros [(q & x & Hx & H1 & H2 & He)|(q & x & Hx & H1 & H2 & He)].
      * exists q, x. split_and!; try done. destruct (can w3 q) eqn:E; [|done]. by rewrite (B1 q E) in H2.
      * pose proof (A4 q) as Hf. rewrite Hx in Hf. destruct (execed_of w1 q) as [y|] eqn:Ey; [|done]. cbn in Hf.
        exists q, y. split_and!; [done|by apply A1|done|]. by injection Hf as <-.
    + intros (q & x & Hx & H1 & H2 & He). destruct (can w2 q) eqn:E; [right|left; by exists q, x].
      pose proof (A4 q) as Hf. rewrite Hx in Hf. destruct (execed_of w2 q) as [y|] eqn:Ey; [|done]. cbn in Hf.
      exists q, y. split_and!; [done..|]. injection Hf as Hf. by rewrite Hf.
  - congruence.
Qed.

Lemma put_x_others w p y : others (put_x w p y) = others w.
Proof. unfold put_x. by destruct (w_procs w !! p). Qed.

Lemma put_x_log w p y : w_log (put_x w p y) = w_log w.
Proof. unfold put_x. by destruct (w_procs w !! p). Qed.

Lemma put_maybe_marked reason src w p x r : execed_of w p = Some x -> marked reason src w (put_x w p (set_maybe_shortcutable_ancestor_ r x)).
Proof.
  intros Hx. set (w' := put_x _ _ _). assert (L : forall q, execed_of w' q = if decide (p = q) then Some (set_maybe_shortcutable_ancestor_ r x) else execed_of w q)
    by (intros; by apply (put_x_lookup _ _ _ _ _ Hx)).
  assert (C : forall q, can w' q = can w q) by (intros q; unfold can; rewrite L; destruct (decide (p = q)) as [<-|]; [by rewrite Hx|done]).
  split.
  - intros q. by rewrite C.
  - intros q. rewrite C. congruence.
  - intros q _. unfold reason_of. rewrite L. destruct (decide (p = q)) as [<-|]; [by rewrite Hx|done].
  - intros q. rewrite L. destruct (decide (p = q)) as [<-|]; [by rewrite Hx|done].
  - exists []. split; [unfold w'; by rewrite put_x_log, app_nil_r|]. intros ev. split; [by intros []%elem_of_nil|].
    intros (q & y & _ & H1 & H2 & _). rewrite C in H2. congruence.
  - apply put_x_others.
Qed.

(** ** Disabling one process *)

Lemma recorders_run l w :
  (forall i, i ∈ l -> is_Some (if_recorder i) -> if_type i = FD_PIPE_OUT) ->
  mforM l (fun inherited_file =>
      match if_recorder inherited_file with
      | Some r =>
          assertM (bool_decide (if_type inherited_file = FD_PIPE_OUT)) ≫= fun _ =>
          log (EvRecorderDeactivate r)
      | None => ret tt
      end) w = Ret (set_w_log (w_log w ++ deactivations l) w, tt).
Proof.
  revert w. induction l as [|i l IH]; intros w H.
  - cbn. rewrite app_nil_r. by destruct w.
  - assert (Hl : forall j, j ∈ l -> is_Some (if_recorder j) -> if_type j = FD_PIPE_OUT) by (intros j Hj; apply H; by right).
    cbn [mforM]. unfold mbind at 1, M_bind at 1. unfold deactivations. cbn [omap list_omap]. fold (deactivations l).
    destruct (if_recorder i) as [r|] eqn:E; cbn [fmap option_fmap option_map].
    + unfold mbind at 1, M_bind at 1. rewrite bool_decide_eq_true_2; cycle 1.
      { apply H; [by left|]. by rewrite E. }
      cbn. rewrite IH by done. cbn. by rewrite <- app_assoc.
    + cbn. by apply IH.
Qed.

Lemma set_log_shape w l : same_shape w (set_w_log l w).
Proof. by repeat split. Qed.

Lemma disabled_marked reason src w w3 p x y :
  execed_of w p = Some x -> can_shortcut_ x = true -> can_shortcut_ y = false ->
  cant_shortcut_reason_ y = Some reason -> cant_shortcut_proc_ y = Some src -> inherited_files_ y = inherited_files_ x ->
  (forall q, execed_of w3 q = if decide (p = q) then Some y else execed_of w q) ->
  others w3 = others w -> w_log w3 = w_log w ->
  marked reason src w (set_w_log (w_log w3 ++ deactivations (inherited_files_ x)) w3).
Proof.
  intros Hx Hc Hy Hr Hs Hf L Ho Hl. set (w' := set_w_log _ _). change (forall q, execed_of w' q = if decide (p = q) then Some y else execed_of w q) in L.
  assert (C : forall q, can w' q = if decide (p = q) then false else can w q)
    by (intros q; unfold can; rewrite L; by destruct (decide (p = q))).
  assert (Cp : can w p = true) by (unfold can; by rewrite Hx). split.
  - intros q. rewrite C. by destruct (decide (p = q)).
  - intros q H1. rewrite C. unfold reason_of. rewrite L. destruct (decide (p = q)); [|congruence]. intros _. cbn. by rewrite Hr, Hs.
  - intros q. rewrite C. unfold reason_of. rewrite L. destruct (decide (p = q)) as [<-|]; [congruence|done].
  - intros q. rewrite L. destruct (decide (p = q)) as [<-|]; [|done]. rewrite Hx. cbn. by rewrite Hf.
  - exists (deactivations (inherited_files_ x)). split; [cbn; by rewrite Hl|]. intros ev. split.
    + intros He. exists p, x. rewrite C, decide_True by done. done.
    + intros (q & z & Hz & H1 & H2 & He). rewrite C in H2. destruct (decide (p = q)) as [<-|]; [|congruence]. by rewrite Hx in Hz; injection Hz as <-.
  - exact Ho.
Qed.

Lemma disable_only_this_run w p x reason src :
  tree_ok w -> execed_of w p = Some x ->
  exists w', disable_shortcutting_only_this p reason src w = Ret (w', tt) /\
    same_shape w w' /\ tree_ok w' /\ can w' p = false /\
    (forall q, q <> p -> can w' q = can w q) /\ (forall q, maybe w' q = maybe w q) /\
    marked reason (default p src) w w'.
Proof.
  intros W Hx. unfold disable_shortcutting_only_this. unfold mbind at 1, M_bind at 1.
  rewrite (execed_run _ _ _ Hx). destruct (can_shortcut_ x) eqn:Ec; cycle 1.
  { exists w. splits; try done; [unfold can; by rewrite Hx|apply marked_refl]. }
  destruct (tree_reason w W p x Hx Ec) as [Hr Hp].
  rewrite !bool_decide_eq_true_2 by done.
  set (x1 := set_can_shortcut_ false x).
  set (x2 := set_cant_shortcut_reason_ (Some reason) x1).
  set (x3 := set_cant_shortcut_proc_ (Some (default p src)) x2).
  set (w1 := put_x w p x1). set (w2 := put_x w1 p x2). set (w3 := put_x w2 p x3).
  assert (E1 : execed_of w1 p = Some x1).
  { unfold w1. rewrite (put_x_lookup _ _ _ _ _ Hx). by rewrite decide_True. }
  assert (E2 : execed_of w2 p = Some x2).
  { unfold w2. rewrite (put_x_lookup _ _ _ _ _ E1). by rewrite decide_True. }
  rewrite (bind_run _ _ _ _ _ (upd_execed_run w p x _ Hx)). fold x1 w1.
  rewrite (bind_run (assertM true) _ w1 w1 tt eq_refl).
  rewrite (bind_run _ _ _ _ _ (upd_execed_run w1 p x1 _ E1)). fold x2 w2.
  rewrite (bind_run (assertM true) _ w2 w2 tt eq_refl).
  rewrite (bind_run _ _ _ _ _ (upd_execed_run w2 p x2 _ E2)). fold x3 w3.
  rewrite recorders_run by (intros i; by apply (tree_recorders w W p)).
  assert (L : forall q, execed_of w3 q = if decide (p = q) then Some x3 else execed_of w q).
  { intros q. unfold w3. rewrite (put_x_lookup _ _ _ _ _ E2). destruct (decide (p = q)); [done|].
    unfold w2. rewrite (put_x_lookup _ _ _ _ _ E1), decide_False by done.
    unfold w1. by rewrite (put_x_lookup _ _ _ _ _ Hx), decide_False by done. }
  assert (S : same_shape w w3).
  { transitivity w1; [by eapply put_x_shape|]. transitivity w2; by eapply put_x_shape. }
  eexists. splits; [done|by transitivity w3| | | | |].
  - eapply tree_ok_shape; [transitivity w3; [exact S|apply set_log_shape]|done|].
    intros q y Hy. change (execed_of w3 q = Some y) in Hy. rewrite L in Hy.
    destruct (decide (p = q)); [|by apply (tree_reason w W q)]. by injection Hy as <-.
  - unfold can. change (match execed_of w3 p with Some x => can_shortcut_ x | None => false end = false).
    by rewrite L, decide_True.
  - intros q Hq. unfold can at 1.
    change (match execed_of w3 q with Some x => can_shortcut_ x | None => false end = can w q).
    by rewrite L, decide_False.
  - intros q. unfold maybe at 1.
    change (match execed_of w3 q with Some x => maybe_shortcutable_ancestor_ x | None => None end
            = maybe w q).
    rewrite L. unfold maybe. destruct (decide (p = q)) as [<-|]; [by rewrite Hx|done].
  - apply (disabled_marked reason (default p src) w w3 p x x3); try done; unfold w3, w2, w1.
    + by rewrite !put_x_others.
    + by rewrite !put_x_log.
Qed.


(** ** Bubbling up *)

(** [q] is [p] or above it. *)
Definition from (w : World) (p q : pid_ref) : Prop := q = p \/ above w p q.

(** [stop] is null, [p] or above [p]. *)
Definition valid_stop (w : World) (p : pid_ref) (stop : option pid_ref) : Prop :=
  match stop with None => True | Some s => from w p s end.

(** The processes from [p] up to, and excluding, [stop]. *)
Definition segment (w : World) (p : pid_ref) (stop : option pid_ref) (q : pid_ref) : Prop :=
  from w p q /\ match stop with None => True | Some s => ~ from w s q end.

(** The process that the cached pointers of the visited processes will lead to. *)
Definition target_ok (w : World) (stop a : option pid_ref) : Prop :=
  match stop with None => a = None | Some s => nearest_from w s a end.

Lemma from_shape w w' p q : same_shape w w' -> from w p q <-> from w' p q.
Proof.
  intros H. pose proof H as H'. symmetry in H'. unfold from.
  split; intros [|]; eauto using above_shape.
Qed.

Lemma segment_shape w w' p stop q : same_shape w w' -> segment w p stop q <-> segment w' p stop q.
Proof.
  intros H. unfold segment. rewrite (from_shape w w') by done.
  destruct stop; [|done]. by rewrite (from_shape w w' p0) by done.
Qed.

Lemma from_trans w p q r : from w p q -> from w q r -> from w p r.
Proof. intros [->|] [->|]; unfold from; eauto using above_trans. Qed.

Lemma nearest_from_mono w w' p r :
  same_shape w w' -> (forall q, from w p q -> can w' q = can w q) ->
  nearest_from w p r -> nearest_from w' p r.
Proof.
  intros H Hc. pose proof H as H'. symmetry in H'. unfold nearest_from.
  rewrite (Hc p) by (by left). destruct (can w p); [done|]. destruct r as [m|]; cbn.
  - intros (H1 & H2 & H3). splits; [by eapply above_shape| |].
    + rewrite Hc by (by right). done.
    + intros s Hs. assert (above w p s) by (by eapply above_shape).
      rewrite Hc by (by right). intros Hcs. destruct (H3 s); eauto using above_shape.
  - intros H1 s Hs. assert (above w p s) by (by eapply above_shape).
    rewrite Hc by (by right). by apply H1.
Qed.

Lemma put_maybe_can w p x r q :
  execed_of w p = Some x -> can (put_x w p (set_maybe_shortcutable_ancestor_ r x)) q = can w q.
Proof.
  intros Hx. unfold can. rewrite (put_x_lookup _ _ _ _ _ Hx).
  destruct (decide (p = q)) as [<-|]; [by rewrite Hx|done].
Qed.

Lemma put_maybe_maybe w p x r q :
  execed_of w p = Some x ->
  maybe (put_x w p (set_maybe_shortcutable_ancestor_ r x)) q =
    if decide (p = q) then r else maybe w q.
Proof.
  intros Hx. unfold maybe. rewrite (put_x_lookup _ _ _ _ _ Hx). by destruct (decide (p = q)).
Qed.

Lemma put_maybe_tree w p x r :
  tree_ok w -> execed_of w p = Some x ->
  tree_ok (put_x w p (set_maybe_shortcutable_ancestor_ r x)).
Proof.
  intros W Hx. eapply tree_ok_shape; [by eapply put_x_shape|done|]. intros q y.
  rewrite (put_x_lookup _ _ _ _ _ Hx). destruct (decide (p = q)); [|apply (tree_reason w W)].
  intros [= <-]. cbn. intros Hc. exact (tree_reason w W p x Hx Hc).
Qed.

(** Once everything below the stop is disabled, the target is a sound pointer. *)
Lemma target_skip_ok w p stop a :
  tree_ok w -> valid_stop w p stop -> stop <> Some p ->
  maybe w p = a -> target_ok w stop a ->
  (forall q, segment w p stop q -> can w q = false) -> skip_ok w p.
Proof.
  intros W Hv Hne Hm Ht Hseg. unfold skip_ok. rewrite Hm. destruct stop as [s|]; cbn in *.
  - destruct Hv as [->|Hv]; [done|].
    assert (Hsplit : forall r, above w p r -> can w r = true -> from w s r).
    { intros r Hr Hcr. destruct (above_linear w p s r Hv Hr) as [->|[H|H]]; [by left|by right|].
      rewrite (Hseg r) in Hcr; [done|]. split; [by right|].
      intros [->|H2]; [exact (above_irrefl _ _ W H)|].
      exact (above_irrefl _ _ W (above_trans _ _ _ _ H H2)). }
    unfold nearest_from in Ht. destruct (can w s) eqn:Es.
    + subst a. rewrite Ht. split; [done|]. intros r Hr Hcr. by apply Hsplit.
    + destruct a as [m|]; cbn in Ht.
      * destruct Ht as (H1 & H2 & H3). split; [by eapply above_trans|].
        intros r Hr Hcr. destruct (Hsplit r Hr Hcr) as [->|H]; [congruence|]. by apply H3.
      * intros r Hr. destruct (can w r) eqn:Er; [|done].
        destruct (Hsplit r Hr Er) as [->|H]; [congruence|]. by rewrite (Ht r H) in Er.
  - subst a. rewrite Ht. intros r Hr. apply Hseg. split; [by right|done].
Qed.


Lemma skips_from_mono w w' p :
  same_shape w w' -> (forall q, can w' q = true -> can w q = true) ->
  (forall q, from w p q -> maybe w' q = maybe w q) -> skips_from w p -> skips_from w' p.
Proof.
  intros H Hc Hm K q Hq He. fold (from w' p q) in Hq. rewrite <- (from_shape w w') in Hq by done.
  apply (skip_ok_mono w w'); auto. apply K; [done|]. by eapply execed_of_shape; [symmetry|].
Qed.

Lemma next_effect w p x :
  tree_ok w -> skips_from w p -> execed_of w p = Some x ->
  exists w' r, next_shortcutable_ancestor p w = Ret (w', r) /\ nearest_above w p r /\
    same_shape w w' /\ tree_ok w' /\ (forall q, can w' q = can w q) /\
    (forall q, q <> p -> maybe w' q = maybe w q) /\ skips_from w' p /\
    forall reason src, marked reason src w w'.
Proof.
  intros W K Hx. destruct (next_shortcutable_ancestor_run w p x W K Hx) as (w' & r & Hr & Hn & Hw).
  exists w', r. split; [done|]. split; [done|]. destruct Hw as [->| ->]; [splits; by try intros; try apply marked_refl|].
  assert (S : same_shape w (put_x w p (set_maybe_shortcutable_ancestor_ r x)))
    by (by eapply put_x_shape).
  assert (Hc : forall q, can (put_x w p (set_maybe_shortcutable_ancestor_ r x)) q = can w q)
    by (intros; by apply put_maybe_can).
  splits; [done|by apply put_maybe_tree|done| | |intros; by apply put_maybe_marked].
  - intros q Hq. rewrite (put_maybe_maybe _ _ _ _ _ Hx). by rewrite decide_False.
  - intros q Hq He. destruct (decide (p = q)) as [<-|Hne].
    + apply nearest_skip_ok with r; [|by eapply nearest_above_eq].
      rewrite (put_maybe_maybe _ _ _ _ _ Hx). by rewrite decide_True.
    + eapply (skip_ok_mono w); [done| | |].
      * intros t. by rewrite Hc.
      * rewrite (put_maybe_maybe _ _ _ _ _ Hx). by rewrite decide_False.
      * fold (from (put_x w p (set_maybe_shortcutable_ancestor_ r x)) p q) in Hq.
        rewrite <- (from_shape w) in Hq by done. apply K; [done|].
        by eapply execed_of_shape; [symmetry|].
Qed.

Lemma segment_step w p q0 stop q :
  tree_ok w -> parent_x w p = Some q0 -> valid_stop w p stop -> stop <> Some p ->
  segment w p stop q <-> q = p \/ segment w q0 stop q.
Proof.
  intros W Hp Hv Hne.
  assert (Hf : forall r, above w p r <-> from w q0 r).
  { intros r. split.
    - intros [Hr|t Ht Hr]; [left; congruence|right]. by replace q0 with t by congruence.
    - intros [->|Hr]; [by apply above_parent|by apply above_step with q0]. }
  unfold segment. unfold from at 1. rewrite Hf. destruct stop as [s|]; [|tauto].
  cbn in Hv. destruct Hv as [->|Hv]; [done|].
  assert (~ from w s p) as Hns.
  { intros [->|H]; [exact (above_irrefl _ _ W Hv)|].
    exact (above_irrefl _ _ W (above_trans _ _ _ _ Hv H)). }
  split; [tauto|]. intros [->|]; [tauto|tauto].
Qed.

(** What bubbling up from [p] to [stop] achieves. *)
Record bubbled (w : World) (p : pid_ref) (stop : option pid_ref) (w' : World) : Prop := {
  b_shape : same_shape w w';
  b_tree : tree_ok w';
  b_seg : forall q, segment w p stop q -> can w' q = false;
  b_rest : forall q, ~ segment w p stop q -> can w' q = can w q;
  b_from : skips_from w' p;
  b_maybe : forall q, ~ from w p q -> maybe w' q = maybe w q
}.

Lemma parent_exec_point_run w p x :
  tree_ok w -> execed_of w p = Some x -> parent_exec_point p w = Ret (w, parent_x w p).
Proof.
  intros W Hx. destruct (execed_of_proc w p ltac:(by eexists)) as [pr Hpr].
  unfold parent_exec_point, proc, gets, deref, mbind, M_bind, parent_x. rewrite Hpr.
  cbn [ret]. unfold ret. destruct (parent_ pr) as [q|] eqn:Eq; [|done].
  destruct (tree_parent w W p pr q Hpr Eq) as [prq Hq].
  unfold exec_point, exec_point_of, proc, gets, deref, mbind, M_bind. by rewrite Hq.
Qed.


Lemma stop_not_below w p s : tree_ok w -> above w p s -> ~ from w s p.
Proof.
  intros W Hv [->|H]; [exact (above_irrefl _ _ W Hv)|].
  exact (above_irrefl _ _ W (above_trans _ _ _ _ Hv H)).
Qed.

Lemma segment_self w p stop :
  tree_ok w -> valid_stop w p stop -> stop <> Some p -> segment w p stop p.
Proof.
  intros W Hv Hne. split; [by left|]. destruct stop as [s|]; [|done].
  destruct Hv as [->|Hv]; [done|]. by apply stop_not_below.
Qed.

Lemma chain_shape w w' p l : same_shape w w' -> chain w p l -> chain w' p l.
Proof.
  intros H. revert p. induction l as [|q l IH]; intros p; cbn; rewrite (parent_x_shape w w') by done;
    [done|]. intros [? ?]. auto.
Qed.

(** The target of the cached pointers, given or computed. *)
Lemma target_run w p stop a :
  tree_ok w -> skips_from w p -> valid_stop w p stop -> stop <> Some p ->
  match a with Some t => target_ok w stop t | None => True end ->
  exists t, match a with
            | Some t => ret t
            | None => n ← chain_fuel; skip_disabled n stop
            end w = Ret (w, t) /\ target_ok w stop t.
Proof.
  intros W K Hv Hne Ha. destruct a as [t|]; [by exists t|]. destruct stop as [s|].
  - destruct Hv as [->|Hv]; [done|].
    destruct (chain_exists w s W) as [l Hl].
    assert (is_Some (execed_of w s)) as Hs.
    { destruct (chain_exists w p W) as [l0 Hl0].
      pose proof (chain_execed w p l0 W Hl0) as He. rewrite Forall_forall in He.
      apply He. by apply (chain_above w p l0). }
    pose proof (chain_length w s l W Hs Hl).
    destruct (skip_disabled_run w (S (size (w_procs w))) l s W (skips_from_above _ _ _ K Hv)
                Hl Hs ltac:(lia)) as (r & Hr & Hn). by exists r.
  - by exists None.
Qed.

(** Disabling [p] and pointing it to the target, followed by bubbling up from the
    parent, is bubbling up from [p]. *)
Lemma bubbled_step w p q0 stop t w3 w4 :
  tree_ok w -> parent_x w p = Some q0 -> valid_stop w p stop -> stop <> Some p ->
  same_shape w w3 -> can w3 p = false -> (forall q, q <> p -> can w3 q = can w q) ->
  maybe w3 p = t -> (forall q, q <> p -> maybe w3 q = maybe w q) -> target_ok w3 stop t ->
  bubbled w3 q0 stop w4 -> bubbled w p stop w4.
Proof.
  intros W Hp Hv Hne S13 Cp Co Mp Mo Hto [B1 B2 B3 B4 B5 B6].
  assert (Hpq : ~ from w q0 p) by (apply stop_not_below; [done|]; by apply above_parent).
  assert (Hstep : forall q, segment w p stop q <-> q = p \/ segment w q0 stop q)
    by (intros q; by apply segment_step).
  assert (S14 : same_shape w w4) by (by transitivity w3).
  assert (Cseg : forall q, segment w p stop q -> can w4 q = false).
  { intros q [->|Hq]%Hstep; [|apply B3; by rewrite <- (segment_shape w w3)].
    rewrite B4; [done|]. rewrite <- (segment_shape w w3) by done. intros [H _]. exact (Hpq H). }
  assert (Crest : forall q, ~ segment w p stop q -> can w4 q = can w q).
  { intros q Hq. rewrite B4, Co; [done| |].
    - intros ->. apply Hq, Hstep. by left.
    - rewrite <- (segment_shape w w3) by done. intros H. apply Hq, Hstep. by right. }
  split; [done|done|done|done| |].
  - intros q Hq He. fold (from w4 p q) in Hq. rewrite <- (from_shape w w4) in Hq by done.
    destruct Hq as [->|Hq]; cycle 1.
    { apply B5; [|done]. fold (from w4 q0 q). rewrite <- (from_shape w w4) by done.
      destruct Hq as [Hq|r Hr Hq]; [left; congruence|right]. by replace q0 with r by congruence. }
    apply (target_skip_ok w4 p stop t); [done| |done| | |].
    + destruct stop; [|done]. cbn in Hv |- *. by rewrite <- (from_shape w w4).
    + rewrite B6; [done|]. by rewrite <- (from_shape w w3).
    + destruct stop as [s|]; [|done]. cbn in Hto, Hv |- *. destruct Hv as [->|Hv]; [done|].
      eapply (nearest_from_mono w3); [done| |done].
      intros q Hq. rewrite <- (from_shape w w3) in Hq by done.
      rewrite Crest, Co; [done| |by intros [_ H]].
      intros ->. exact (stop_not_below _ _ _ W Hv Hq).
    + intros q Hq. apply Cseg. by rewrite (segment_shape w w4).
  - intros q Hq. rewrite B6, Mo; [done| |].
    + intros ->. apply Hq. by left.
    + rewrite <- (from_shape w w3) by done. intros [->|H]; apply Hq; right;
        [by apply above_parent|by apply above_step with q0].
Qed.

Lemma bubble_run fuel : forall w p stop reason src a l,
  tree_ok w -> skips_from w p -> is_Some (execed_of w p) -> valid_stop w p stop ->
  chain w p l -> (length l < fuel)%nat ->
  match a with Some t => target_ok w stop t | None => True end ->
  exists w', bubble_up_to_excl fuel p stop reason src a w = Ret (w', tt) /\ bubbled w p stop w' /\
    marked reason (default p src) w w'.
Proof.
  induction fuel as [|fuel IH]; intros w p stop reason src a l W K [x Hx] Hv Hc Hl Ha; [lia|].
  cbn [bubble_up_to_excl]. case_bool_decide as Hstop.
  { subst stop. exists w. split; [done|]. split; [|apply marked_refl]. split; try done. by intros q [H1 H2]. }
  assert (Hne : stop <> Some p) by congruence.
  destruct (disable_only_this_run w p x reason (Some (default p src)) W Hx)
    as (w1 & Hr1 & S1 & W1 & C1 & C1' & M1 & R1).
  assert (Cm : forall q, can w1 q = true -> can w q = true).
  { intros q. destruct (decide (q = p)) as [->|Hq]; [congruence|]. by rewrite C1'. }
  assert (K1 : skips_from w1 p) by (eapply skips_from_mono; eauto).
  destruct (execed_of_shape w w1 p S1 ltac:(by eexists)) as [x1 Hx1].
  destruct (next_effect w1 p x1 W1 K1 Hx1) as (w2 & r & Hr2 & Hn & S2 & W2 & C2 & M2 & K2 & R2).
  assert (R12 : marked reason (default p src) w w2) by (eapply marked_trans; [exact R1|apply R2]).
  assert (S12 : same_shape w w2) by (by transitivity w1).
  assert (Cp : can w2 p = false) by (by rewrite C2).
  assert (Co : forall q, q <> p -> can w2 q = can w q) by (intros; rewrite C2; auto).
  rewrite (bind_run _ _ _ _ _ Hr1), (bind_run _ _ _ _ _ Hr2).
  destruct r as [m|]; cycle 1.
  { exists w2. split; [done|]. split; [|done]. split; [done|done| | |done|].
    - intros q [[->|Hq] _]; [done|]. rewrite C2. apply Hn. by eapply above_shape.
    - intros q Hq. apply Co. intros ->. by apply Hq, segment_self.
    - intros q Hq. rewrite M2, M1; [done|]. intros ->. apply Hq. by left. }
  assert (exists q0 l', l = q0 :: l') as (q0 & l' & ->).
  { destruct Hn as [Hm _]. apply (above_shape w1 w) in Hm; [|by symmetry].
    apply (chain_above w p l m Hc) in Hm. destruct l; [by apply not_elem_of_nil in Hm|eauto]. }
  destruct Hc as [Hp Hc].
  assert (Hv2 : valid_stop w2 p stop).
  { destruct stop; [|done]. cbn. by rewrite <- (from_shape w w2). }
  destruct (target_run w2 p stop a W2 K2 Hv2 Hne) as (t & Ht & Hto).
  { destruct a as [t|]; [|done]. destruct stop as [s|]; [|done]. cbn in Hv, Ha |- *.
    destruct Hv as [->|Hv]; [done|]. eapply nearest_from_mono; [done| |done].
    intros q Hq. apply Co. intros ->. exact (stop_not_below _ _ _ W Hv Hq). }
  rewrite (bind_run _ _ _ _ _ Ht).
  destruct (execed_of_shape w w2 p S12 ltac:(by eexists)) as [x2 Hx2].
  rewrite (bind_run _ _ _ _ _ (upd_execed_run w2 p x2 _ Hx2)).
  set (w3 := put_x w2 p _).
  assert (S3 : same_shape w2 w3) by (by eapply put_x_shape).
  assert (S13 : same_shape w w3) by (by transitivity w2).
  assert (W3 : tree_ok w3) by (by apply put_maybe_tree).
  assert (C3 : forall q, can w3 q = can w2 q) by (intros; by apply put_maybe_can).
  assert (M3 : forall q, maybe w3 q = if decide (p = q) then t else maybe w2 q)
    by (intros; by apply put_maybe_maybe).
  assert (Hx3 : execed_of w3 p = Some (set_maybe_shortcutable_ancestor_ t x2)).
  { unfold w3. rewrite (put_x_lookup _ _ _ _ _ Hx2). by rewrite decide_True. }
  rewrite (bind_run _ _ _ _ _ (parent_exec_point_run w3 p _ W3 Hx3)).
  rewrite <- (parent_x_shape w w3), Hp by done.
  assert (Hpq : ~ from w q0 p).
  { apply stop_not_below; [done|]. by apply above_parent. }
  destruct (IH w3 q0 stop reason (Some (default p src)) (Some t) l') as (w4 & Hw4 & B & R4).
  - done.
  - eapply (skips_from_mono w2); [done|intros q; by rewrite C3| |].
    + intros q Hq. rewrite M3, decide_False; [done|]. intros <-. apply Hpq.
      by apply (from_shape w w2).
    + eapply skips_from_above; [done|]. eapply above_shape; [exact S12|]. by apply above_parent.
  - eapply execed_of_shape; [exact S13|]. by eapply parent_x_execed.
  - destruct stop as [s|]; [|done]. cbn in Hv |- *. rewrite <- (from_shape w w3) by done.
    destruct Hv as [->|Hv]; [done|]. destruct Hv as [Hq|r Hq Hr]; [left; congruence|right].
    by replace q0 with r by congruence.
  - by eapply chain_shape.
  - cbn in Hl. lia.
  - destruct stop as [s|]; [|done]. cbn in Hto |- *.
    eapply (nearest_from_mono w2); [done| |done]. intros q _. apply C3.
  - exists w4. split; [done|]. split; [|eapply marked_trans; [exact R12|]; eapply marked_trans; [by apply (put_maybe_marked _ _ w2 p x2 t)|exact R4]].
    apply (bubbled_step w p q0 stop t w3); try done.
    + by rewrite C3.
    + intros q Hq. rewrite C3. by apply Co.
    + by rewrite M3, decide_True.
    + intros q Hq. by rewrite M3, decide_False, M2, M1.
    + destruct stop as [s|]; [|done]. cbn in Hto |- *.
      eapply (nearest_from_mono w2); [done| |done]. intros q _. apply C3.
Qed.

(** * Theorems *)

Lemma from_dec w p q : tree_ok w -> from w p q \/ ~ from w p q.
Proof.
  intros W. destruct (chain_exists w p W) as [l Hl]. unfold from.
  rewrite <- (chain_above w p l q Hl). destruct (decide (q = p)), (decide (q ∈ l)); tauto.
Qed.

Lemma segment_dec w p stop q : tree_ok w -> segment w p stop q \/ ~ segment w p stop q.
Proof.
  intros W. unfold segment. destruct (from_dec w p q W); [|tauto]. destruct stop as [s|]; [|tauto]. destruct (from_dec w s q W); tauto.
Qed.

(** C36. [disable_shortcutting_bubble_up_to_excl()] disables exactly the execed
    processes from [this] up to, and excluding, [stop]: on a well-formed tree it
    terminates without failing an assertion although it stops early as soon as the
    cached pointer says that nothing above can be shortcut any more; every process
    on that path can no longer be shortcut, and for no other process this changes.  Those that
    could be shortcut before get the reason and the process that it is about
    ([src], or [this]); all others keep what they have.  The recorders of their inherited files
    are deactivated, and nothing else is logged.  Apart from these members and the cached
    pointers, which stay sound, the processes and the rest of the state are unchanged. *)
Theorem bubble_up_correct w this stop reason src :
  tree_ok w -> skips_ok w -> is_Some (execed_of w this) -> valid_stop w this stop ->
  exists w', disable_shortcutting_bubble_up_to_excl this stop reason src w = Ret (w', tt) /\
    (forall q, segment w this stop q -> can w' q = false) /\
    (forall q, ~ segment w this stop q -> can w' q = can w q) /\
    (forall q, segment w this stop q -> can w q = true -> reason_of w' q = Some (Some reason, Some (default this src))) /\
    (forall q, ~ (segment w this stop q /\ can w q = true) -> reason_of w' q = reason_of w q) /\
    (exists evs, w_log w' = w_log w ++ evs /\ forall ev, ev ∈ evs <->
       exists q x, execed_of w q = Some x /\ segment w this stop q /\ can w q = true /\ ev ∈ deactivations (inherited_files_ x)) /\
    same_shape w w' /\ others w' = others w /\ tree_ok w' /\ skips_ok w'.
Proof.
  intros W K Hx Hv. destruct (chain_exists w this W) as [l Hl].
  pose proof (chain_length w this l W Hx Hl).
  destruct (bubble_run (S (size (w_procs w))) w this stop reason src None l W
              (skips_ok_from _ _ K) Hx Hv Hl ltac:(lia) I) as (w' & Hw' & [B1 B2 B3 B4 B5 B6] & [R1 R2 R3 _ R5 R6]).
  exists w'. splits; try done.
  - intros q Hq Hc. apply R2; auto.
  - intros q Hq. apply R3. destruct (segment_dec w this stop q W) as [Hs|Hs]; [|by apply B4].
    rewrite B3 by done. destruct (can w q) eqn:E; [|done]. by destruct Hq.
  - destruct R5 as (evs & He & Hev). exists evs. split; [done|]. intros ev. rewrite Hev. apply exist_proper. intros q. apply exist_proper. intros x.
    split; [|naive_solver]. intros (H1 & H2 & H3 & H4). split_and!; try done. destruct (segment_dec w this stop q W) as [Hs|Hs]; [done|].
    rewrite B4 in H3 by done. congruence.
  - intros q Hq. destruct (from_dec w this q W) as [Hf|Hf].
    + apply B5; [|done]. fold (from w' this q). by rewrite <- (from_shape w w').
    + apply (skip_ok_mono w w'); [done|exact R1|by apply B6|]. apply K. by eapply execed_of_shape; [symmetry|].
Qed.

(** [next_shortcutable_ancestor()] returns the nearest execed process above
    [this] that can be shortcut, or null if there is none, although it follows and
    shortens the cached pointers instead of walking the tree. *)
Theorem next_shortcutable_ancestor_correct w this :
  tree_ok w -> skips_ok w -> is_Some (execed_of w this) ->
  exists w' r, next_shortcutable_ancestor this w = Ret (w', r) /\ nearest_above w this r /\
    same_shape w w' /\ (forall q, can w' q = can w q) /\ tree_ok w' /\ skips_from w' this.
Proof.
  intros W K [x Hx].
  destruct (next_effect w this x W (skips_ok_from _ _ K) Hx)
    as (w' & r & H1 & H2 & H3 & H4 & H5 & H6 & H7 & _).
  exists w', r. by splits.
Qed.


(** * A concrete tree *)

(** The supervisor's placeholder process 0, a shell 1 started by it, its fork 2, and
    a compiler 3 exec()-ed in the fork. *)
Definition demo_execed (fork_point : pid_ref) (maybe : option pid_ref) : Execed :=
  mkExeced true false false (-1) (-1) (Some fork_point) maybe 0 0 0 0 (cs "/") ∅ ∅ [] []
    (cs "/bin/sh") (cs "/bin/sh") (cs "/bin/sh") [] ∅ [] [] None None None None.
Definition demo_forked (exec_point : option pid_ref) : Forked :=
  mkForked (-1) exec_point (-1) false false false (-1).
Definition demo_proc (parent : option pid_ref) (children : list pid_ref)
    (exec_child : option pid_ref) (st : process_state) (k : Kind) : Process :=
  mkProcess parent st 100 1 1 (cs "/") 18 (Some []) children None false ∅ None false false
    exec_child ∅ k.
Definition demo_world : World :=
  mkWorld (<[0%nat := demo_proc None [] (Some 1%nat) FB_PROC_TERMINATED
                        (KForked (demo_forked None))]>
          (<[1%nat := demo_proc (Some 0%nat) [2%nat] None FB_PROC_RUNNING
                        (KExeced (demo_execed 0 None))]>
          (<[2%nat := demo_proc (Some 1%nat) [] (Some 3%nat) FB_PROC_TERMINATED
                        (KForked (demo_forked (Some 1%nat)))]>
          (<[3%nat := demo_proc (Some 2%nat) [] None FB_PROC_RUNNING
                        (KExeced (demo_execed 2 (Some 1%nat)))]> ∅))))
    4 ∅ 0 0 0 ∅ ∅ (Some 0%nat) [] ∅ ∅ ∅ ∅ ∅ ∅ ∅ [] ∅ 0 1 (-1) [].


(** Facts about all processes of a concrete world are checked one process at a time. *)
Lemma demo_all (P : pid_ref -> Prop) :
  P 0%nat -> P 1%nat -> P 2%nat -> P 3%nat ->
  (forall p, w_procs demo_world !! p = None -> P p) -> forall p, P p.
Proof.
  intros H0 H1 H2 H3 H p. destruct p as [|[|[|[|p]]]]; [done..|]. apply H.
  cbn [demo_world w_procs]. rewrite !lookup_insert_ne by lia. apply lookup_empty.
Qed.

Lemma demo_none p : w_procs demo_world !! p = None ->
  execed_of demo_world p = None /\ exec_point_of demo_world p = None /\ parent_x demo_world p = None.
Proof. unfold execed_of, exec_point_of, parent_x. by intros ->. Qed.

Lemma demo_tree_ok : tree_ok demo_world.
Proof.
  split.
  - intros p; pattern p; apply demo_all; clear p; [..|congruence];
      intros pr q Hp Hq; vm_compute in Hp; injection Hp as <-; vm_compute in Hq; simplify_eq;
      vm_compute; by eexists.
  - intros p; pattern p; apply demo_all; clear p; [..|intros p [_ [-> _]]%demo_none; done];
      intros q Hq; vm_compute in Hq; simplify_eq; vm_compute; by eexists.
  - exists (fun n => n).
    intros p; pattern p; apply demo_all; clear p; [..|intros p [_ [_ ->]]%demo_none; done];
      intros q Hq; vm_compute in Hq; simplify_eq; lia.
  - intros p; pattern p; apply demo_all; clear p; [..|intros p [-> _]%demo_none; done];
      intros x Hx; vm_compute in Hx; simplify_eq; done.
  - intros p; pattern p; apply demo_all; clear p; [..|intros p [-> _]%demo_none; done];
      intros x i Hx; vm_compute in Hx; simplify_eq; cbn; by intros ?%not_elem_of_nil.
Qed.

Lemma demo_chain1 : chain demo_world 1 [].
Proof. vm_compute. reflexivity. Qed.
Lemma demo_chain3 : chain demo_world 3 [1%nat].
Proof. split; vm_compute; reflexivity. Qed.

Lemma demo_skips_ok : skips_ok demo_world.
Proof.
  intros p; pattern p; apply demo_all; clear p; [..|intros p [-> _]%demo_none; by intros []];
    intros He; try (vm_compute in He; by destruct He).
  - unfold skip_ok. replace (maybe demo_world 1) with (@None pid_ref) by (vm_compute; reflexivity).
    intros r Hr. apply (chain_above _ _ _ _ demo_chain1) in Hr. by apply not_elem_of_nil in Hr.
  - unfold skip_ok. replace (maybe demo_world 3) with (Some 1%nat) by (vm_compute; reflexivity).
    split.
    + apply (chain_above _ _ _ _ demo_chain3). by left.
    + intros r Hr _. apply (chain_above _ _ _ _ demo_chain3) in Hr.
      apply elem_of_cons in Hr as [->|Hr]; [by left|by apply not_elem_of_nil in Hr].
Qed.

Lemma bubble_up_correct_witness :
  exists w', disable_shortcutting_bubble_up_to_excl 3 None "connect() is not supported" None
               demo_world = Ret (w', tt) /\ can w' 3 = false /\ can w' 1 = false /\
    reason_of w' 1 = Some (Some (plain "connect() is not supported"), Some 3%nat).
Proof.
  destruct (bubble_up_correct demo_world 3 None "connect() is not supported" None)
    as (w' & H1 & H2 & _ & H3 & _).
  - apply demo_tree_ok.
  - apply demo_skips_ok.
  - vm_compute. by eexists.
  - exact I.
  - assert (Hs : segment demo_world 3 None 1) by (split; [right; apply above_parent; vm_compute; reflexivity|exact I]).
    exists w'. split; [exact H1|]. split; [apply H2; split; [by left|exact I]|]. split; [by apply H2|].
    apply H3; [exact Hs|vm_compute; reflexivity].
Defined.

Lemma next_shortcutable_ancestor_correct_witness :
  exists w' r, next_shortcutable_ancestor 3 demo_world = Ret (w', r) /\
    nearest_above demo_world 3 r.
Proof.
  destruct (next_shortcutable_ancestor_correct demo_world 3) as (w' & r & H1 & H2 & _).
  - apply demo_tree_ok.
  - apply demo_skips_ok.
  - vm_compute. by eexists.
  - exists w', r. exact (conj H1 H2).
Defined.

End Shortcut.
