(* ===== verification/Handlers.v ===== *)
(** The message handlers of [Process] (src/firebuild/process.{h,cc}): how each
    intercepted system call changes the supervisor's picture of the process, and when
    it makes the process, or its ancestors, unsuitable for shortcutting.

    A handler takes the process [this] and the fields of the message; 0 and -1 are
    the return values of the C++ functions.  Answers of system calls the supervisor
    itself makes come from [Sys] or, for [pipe2()] and the epoll set, as arguments.
    A name argument is the C string of the message ([None] when it is null), which
    the interceptor has already put into canonical form. *)

From stdpp Require Import base list strings option gmap sets.
From Stdlib Require Import ZArith Lia Ascii.
From S2P Require Import Prelude Base64 Paths FileNames FileUsage World.

Local Open Scope Z_scope.

(** Constants of the Linux headers. *)
Definition AT_FDCWD := -100.
Definition AT_REMOVEDIR := 512.
Definition AT_EMPTY_PATH := 4096.
Definition F_OK := 0.
Definition X_OK := 1.
Definition W_OK := 2.
Definition R_OK := 4.
Definition MFD_CLOEXEC := 1.
Definition SOCK_DGRAM := 2.
Definition SOCK_RAW := 3.
Definition SOCK_PACKET := 10.
Definition SOCK_CLOEXEC := 524288.
Definition SOCK_NONBLOCK := 2048.
Definition CLOSE_RANGE_CLOEXEC := 4.
Definition F_DUPFD := 0.
Definition F_SETFD := 2.
Definition F_DUPFD_CLOEXEC := 1030.
Definition FD_CLOEXEC := 1.
Definition FIOCLEX := 21585.
Definition FIONCLEX := 21584.

(** Conversion of an [unsigned int] to [int]. *)
Definition to_int (n : Z) : Z := if 2 ^ 31 <=? n then n - 2 ^ 32 else n.

Section WithConfig.
Context {C : Config} {S0 : Sys}.

(** * File descriptor tables *)

(** [vector::operator[]]; out of range is undefined. *)
Definition at_fd (fds : fd_table) (fd : Z) : M (option FileFD) :=
  if fd <? 0 then abortM else deref (fds !! Z.to_nat fd).

(** The static [add_filefd(fds, fd, ffd)] on a table: the table afterwards. *)
Definition add_filefd_to (fds : fd_table) (fd : Z) (ffd : FileFD) : M fd_table :=
  if fd <? 0 then abortM
  else
    let n := Z.to_nat fd in
    let fds := if (length fds <=? n)%nat then resize (S n) None fds else fds in
    match mjoin (fds !! n) with
    | Some old =>
        log (EvError "Fd is already tracked as being open." fd) ≫= fun _ =>
        drop_FileFD old
    | None => ret tt
    end ≫= fun _ =>
    ret (<[n := Some ffd]> fds).

(** [add_filefd(fd, ffd)]. *)
Definition add_filefd (this : pid_ref) (fd : Z) (ffd : FileFD) : M unit :=
  pr ← proc this;
  fds ← deref (fds_ pr);
  fds ← add_filefd_to fds fd ffd;
  upd_proc this (set_fds_ (Some fds)).

Definition set_fd_slot (this : pid_ref) (fd : Z) (v : option FileFD) : M unit :=
  pr ← proc this;
  fds ← deref (fds_ pr);
  at_fd fds fd ≫= fun _ =>
  upd_proc this (set_fds_ (Some (<[Z.to_nat fd := v]> fds))).

(** [add_pipe(pipe)]. *)
Definition add_pipe (this : pid_ref) (pipe : nat) : M unit :=
  ep ← exec_point_nn this;
  upd_execed ep (fun x => set_created_pipes_
    (if bool_decide (pipe ∈ created_pipes_ x) then created_pipes_ x
     else created_pipes_ x ++ [pipe]) x).

(** [drain_all_pipes()]. *)
Definition drain_all_pipes (this : pid_ref) : M unit :=
  pr ← proc this;
  fds ← deref (fds_ pr);
  mforM fds (fun file_fd =>
    match file_fd with
    | None => ret tt
    | Some f =>
        ofd ← ofd_of f;
        if negb (is_wronly (flags_ ofd)) then ret tt
        else match pipe_ f with
             | Some pp => log (EvPipeDrain pp (ffd_id f))
             | None => ret tt
             end
    end).

(** [pass_on_fds(execed)]: copy the descriptors that survive, and cut the unused end
    of the table. *)
Fixpoint pass_on_loop (execed : bool) (fds : fd_table) : M fd_table :=
  match fds with
  | [] => ret []
  | o :: fds =>
      o' ← match o with
           | None => ret None
           | Some f =>
               if execed && cloexec_ f then ret None
               else
                 f' ← copy_FileFD f;
                 ret (Some (if execed && close_on_popen_ f
                            then set_close_on_popen_ false f' else f'))
           end;
      rest ← pass_on_loop execed fds;
      ret (o' :: rest)
  end.

Fixpoint trim (fds : fd_table) : fd_table :=
  match fds with
  | [] => []
  | o :: fds =>
      match o, trim fds with
      | None, [] => []
      | _, r => o :: r
      end
  end.

Definition pass_on_fds (this : pid_ref) (execed : bool) : M fd_table :=
  pr ← proc this;
  fds ← deref (fds_ pr);
  r ← pass_on_loop execed fds;
  ret (trim r).

(** * Names *)

Definition get_fd_filename (this : pid_ref) (fd : Z) : M (option cstr) :=
  if fd =? AT_FDCWD then pr ← proc this; ret (Some (wd_ pr))
  else
    f ← get_fd this fd;
    match f with
    | Some f => ofd ← ofd_of f; ret (filename_ ofd)
    | None => ret None
    end.

Definition get_absolute (this : pid_ref) (dirfd : Z) (name : cstr) : M (option cstr) :=
  if Paths.path_is_absolute name then ret (Some name)
  else
    dir ← get_fd_filename this dirfd;
    lift (FileName.get_absolute dir name).

(** [is_qemu()]. *)
Definition is_qemu (this : pid_ref) : M bool :=
  ep ← exec_point this;
  match ep with
  | None => ret false
  | Some ep =>
      x ← execed ep;
      ret (Paths.is_prefix (cs "qemu-") (FileName.without_dirs (executable_ x)))
  end.

Definition ack (fd_conn ack_num : Z) : M unit :=
  when (negb (ack_num =? 0)) (log (EvAck fd_conn ack_num)).

(** [FileUsageUpdate::get_from_open_params] for the current state. *)
Definition open_update (name : cstr) (flags mode err : Z) (tmp_file : bool) : M FileUsageUpdate.t :=
  E ← env;
  gen ← generation name;
  lift (FileUsageUpdate.get_from_open_params E name gen (FileName.parent_dir name) flags mode err
          tmp_file).

(** The pattern that ends most handlers: register the update, or give up. *)
Definition register_or_disable (this : pid_ref) (name : cstr) (update : FileUsageUpdate.t)
    (reason : string) : M Z :=
  ep ← exec_point_nn this;
  ok ← register_file_usage_update ep name update;
  if ok : bool then ret 0
  else
    disable_shortcutting_bubble_up_file ep reason name ≫= fun _ => ret (-1).

(** [exec_point()->disable_shortcutting_bubble_up(...)] in its variants. *)
Definition disable_here (this : pid_ref) (reason : string) : M unit :=
  ep ← exec_point_nn this; disable_shortcutting_bubble_up ep reason None.
Definition disable_here_fd (this : pid_ref) (reason : string) (fd : Z) : M unit :=
  ep ← exec_point_nn this; disable_shortcutting_bubble_up_fd ep reason fd.
Definition disable_here_str (this : pid_ref) (reason : string) (d : reason_detail) : M unit :=
  ep ← exec_point_nn this; disable_shortcutting_bubble_up_str ep reason d.

(** * Closing *)

(** [handle_close(FileFD *, fd)]. *)
Definition handle_close_ffd (this : pid_ref) (file_fd : FileFD) (fd : Z) : M unit :=
  match pipe_ file_fd with
  | Some pp => log (EvPipeClose pp (ffd_id file_fd)) ≫= fun _ => clear_pipe file_fd
  | None => ret tt
  end ≫= fun _ =>
  set_fd_slot this fd None ≫= fun _ =>
  drop_FileFD file_fd.

Definition handle_close (this : pid_ref) (fd error : Z) : M Z :=
  if error =? EIO then disable_here_fd this "IO error closing fd" fd ≫= fun _ => ret (-1)
  else if error =? EINTR then disable_here_fd this "EINTR while closing fd" fd ≫= fun _ => ret (-1)
  else if error =? EBADF then
    f ← get_fd this fd;
    assertM (bool_decide (f = None)) ≫= fun _ => ret 0
  else
    f ← get_fd this fd;
    match f with
    | None =>
        disable_here_fd this
          (if error =? 0
           then "Process closed an unknown fd successfully, which means interception missed at least one open()"
           else "Process closed an unknown, but valid fd unsuccessfully, which could mean that interception missed at least one open()") fd
        ≫= fun _ => ret (-1)
    | Some file_fd => handle_close_ffd this file_fd fd ≫= fun _ => ret 0
    end.

Definition handle_force_close (this : pid_ref) (fd : Z) : M Z :=
  f ← get_fd this fd;
  match f with
  | Some _ => handle_close this fd 0
  | None => ret 0
  end.

(** [close_fds()]: from the highest descriptor down. *)
Definition close_fds (this : pid_ref) : M unit :=
  pr ← proc this;
  fds ← deref (fds_ pr);
  mforM (rev (seq 0 (length fds))) (fun i =>
    f ← get_fd this (Z.of_nat i);
    match f with
    | Some file_fd => handle_close_ffd this file_fd (Z.of_nat i)
    | None => ret tt
    end).

(** [reset_file_fd_pipe_refs()]. *)
Definition reset_file_fd_pipe_refs (this : pid_ref) : M unit :=
  pr ← proc this;
  fds ← deref (fds_ pr);
  mforM (seq 0 (length fds)) (fun i =>
    f ← get_fd this (Z.of_nat i);
    match f with
    | Some file_fd =>
        match pipe_ file_fd with
        | Some pp =>
            log (EvPipeDrain pp (ffd_id file_fd)) ≫= fun _ =>
            clear_pipe file_fd ≫= fun _ =>
            set_fd_slot this (Z.of_nat i) (Some (set_pipe_ None file_fd))
        | None => ret tt
        end
    | None => ret tt
    end).

Definition handle_close_range (this : pid_ref) (first last flags error : Z) : M Z :=
  if negb (error =? 0) then ret 0
  else
    pr ← proc this;
    fds0 ← deref (fds_ pr);
    let range_max := to_int (Z.min last ((Z.of_nat (length fds0) - 1) mod 2 ^ 32)) in
    let first := to_int first in
    mforM (seqZ first (range_max - first + 1)) (fun fd =>
      pr ← proc this;
      fds ← deref (fds_ pr);
      f ← at_fd fds fd;
      match f with
      | None => ret tt
      | Some file_fd =>
          if has flags CLOSE_RANGE_CLOEXEC
          then set_fd_slot this fd (Some (set_cloexec_ true file_fd))
          else handle_close this fd 0 ≫= fun _ => ret tt
      end) ≫= fun _ =>
    ret 0.

Definition handle_closefrom (this : pid_ref) (lowfd : Z) : M Z :=
  handle_close_range this (lowfd mod 2 ^ 32) (2 ^ 32 - 1) 0 0.

(** * Opening *)

Definition handle_pre_open (this : pid_ref) (dirfd : Z) (ar_name : cstr) : M Z :=
  name ← get_absolute this dirfd ar_name;
  match name with
  | None =>
      disable_here this "Could not find file name to mark as opened for writing" ≫= fun _ => ret (-1)
  | Some name =>
      ep ← exec_point this; open_for_writing name ep ≫= fun _ => ret 0
  end.

Definition handle_open (this : pid_ref) (dirfd : Z) (ar_name : cstr) (flags mode : Z)
    (is_openat2 : bool) (resolve_flags fd error fd_conn ack_num : Z)
    (pre_open_sent tmp_file : bool) : M Z :=
  if is_openat2 && negb (resolve_flags =? 0) then
    disable_here this "openat2() with RESOLVE_* flags is not supported" ≫= fun _ =>
    ack fd_conn ack_num ≫= fun _ => ret (-1)
  else
    let o_tmpfile_set := Z.land flags O_TMPFILE =? O_TMPFILE in
    name ← get_absolute this dirfd ar_name;
    match name with
    | None =>
        disable_here this "Invalid dirfd passed to openat()" ≫= fun _ =>
        ack fd_conn ack_num ≫= fun _ => ret (-1)
    | Some name =>
        when (0 <=? fd)
          (f ← if o_tmpfile_set then new_FileFD_type flags FD_SPECIAL (Some this)
               else new_FileFD_name name flags (Some this);
           add_filefd this fd f) ≫= fun _ =>
        when pre_open_sent (close_for_writing name) ≫= fun _ =>
        pr ← proc this;
        update ← open_update name
                   (if o_tmpfile_set then Z.lor O_RDWR O_DIRECTORY else flags)
                   (Z.ldiff (Z.land mode mode_bits) (umask_ pr)) error
                   (if o_tmpfile_set then false else tmp_file);
        r ← register_or_disable this name update "Could not register the opening of a file";
        ack fd_conn ack_num ≫= fun _ => ret r
    end.

Definition handle_freopen (this : pid_ref) (ar_name : option cstr) (flags oldfd fd error fd_conn
    ack_num : Z) (pre_open_sent : bool) : M Z :=
  match ar_name with
  | Some ar_name =>
      handle_close this oldfd 0 ≫= fun _ =>
      handle_open this AT_FDCWD ar_name flags 438 false 0 fd error fd_conn ack_num pre_open_sent
        false
  | None =>
      assertM (negb pre_open_sent) ≫= fun _ =>
      f ← get_fd this oldfd;
      filename ← match f with
                 | Some f => ofd ← ofd_of f; ret (filename_ ofd)
                 | None => ret None
                 end;
      match filename with
      | None =>
          disable_here_fd this "Could not figure out old file name for freopen(..., NULL)" oldfd
          ≫= fun _ => ack fd_conn ack_num ≫= fun _ => ret (-1)
      | Some filename =>
          handle_close this oldfd 0 ≫= fun _ =>
          handle_open this AT_FDCWD filename flags 438 false 0 fd error fd_conn ack_num
            pre_open_sent false
      end
  end.

Definition handle_dlopen (this : pid_ref) (libs : list cstr) (looked_up_filename : cstr)
    (error : bool) (fd_conn ack_num : Z) : M Z :=
  mforM libs (fun ar_name =>
    name ← get_absolute this AT_FDCWD ar_name ≫= deref;
    update ← open_update name O_RDONLY 0 0 false;
    register_or_disable this name update "Could not register loading the shared library"
    ≫= fun _ => ret tt) ≫= fun _ =>
  r ← if error then
        if bool_decide (slash ∈ looked_up_filename) then
          handle_open this AT_FDCWD looked_up_filename O_RDONLY 0 false 0 (-1) ENOENT 0 0 false
            false ≫= fun _ => ret 0
        else
          disable_here_str this "Process failed to dlopen() " (DStr looked_up_filename) ≫= fun _ =>
          ret (-1)
      else ret 0;
  ack fd_conn ack_num ≫= fun _ => ret r.

Definition handle_scandirat (this : pid_ref) (dirfd : Z) (ar_name : cstr) (error : Z) : M Z :=
  if negb (error =? 0) && negb (error =? ENOENT) then
    disable_here this "scandirat() failed" ≫= fun _ => ret (-1)
  else
    name ← get_absolute this dirfd ar_name;
    match name with
    | None => disable_here this "Invalid dirfd or filename passed to scandirat()" ≫= fun _ => ret (-1)
    | Some name =>
        update ← if error =? ENOENT then new_update name FileInfo.NOTEXIST false false
                 else open_update name (Z.lor O_RDONLY O_DIRECTORY) 0 error false;
        register_or_disable this name update "Could not register scandirat() on"
    end.

Definition handle_truncate (this : pid_ref) (ar_name : cstr) (length error : Z) : M Z :=
  name ← get_absolute this AT_FDCWD ar_name;
  match name with
  | None => disable_here this "Could not find file to truncate()" ≫= fun _ => ret (-1)
  | Some name =>
      close_for_writing name ≫= fun _ =>
      update ← open_update name (Z.lor O_WRONLY (if length =? 0 then O_TRUNC else 0)) 0 error false;
      register_or_disable this name update "Could not register truncate() on"
  end.

Definition handle_unlink (this : pid_ref) (dirfd : Z) (ar_name : cstr) (flags error : Z)
    (pre_open_sent : bool) : M Z :=
  name ← get_absolute this dirfd ar_name;
  match name with
  | None => disable_here this "Invalid dirfd passed to unlinkat()" ≫= fun _ => ret (-1)
  | Some name =>
      when pre_open_sent (close_for_writing name) ≫= fun _ =>
      if error =? 0 then
        update ← new_update name
                   (if has flags AT_REMOVEDIR then FileInfo.ISDIR else FileInfo.ISREG) true false;
        register_or_disable this name update "Could not register the unlink or rmdir"
      else if error =? ENOENT then
        update ← new_update name FileInfo.NOTEXIST false false;
        register_or_disable this name update "Could not register the unlink or rmdir"
      else ret 0
  end.

Definition handle_rmdir (this : pid_ref) (ar_name : cstr) (error : Z) (pre_open_sent : bool) : M Z :=
  handle_unlink this AT_FDCWD ar_name AT_REMOVEDIR error pre_open_sent.

Definition handle_mkdir (this : pid_ref) (dirfd : Z) (ar_name : cstr) (error : Z) (tmp_dir : bool)
    : M Z :=
  name ← get_absolute this dirfd ar_name;
  match name with
  | None => disable_here this "Invalid dirfd passed to mkdirat()" ≫= fun _ => ret (-1)
  | Some name =>
      gen ← generation name;
      register_or_disable this name
        (FileUsageUpdate.get_from_mkdir_params name gen (is_in_read_only_location name) error tmp_dir)
        "Could not register the directory creation "
  end.

(** * Attributes *)

(** Whether the call operates on the descriptor itself. *)
Definition on_fd (ar_name : option cstr) (flags : Z) : bool :=
  match ar_name with
  | None => true
  | Some n => bool_decide (n = []) && has flags AT_EMPTY_PATH
  end.

Definition handle_fstatat (this : pid_ref) (fd : Z) (ar_name : option cstr)
    (flags st_mode st_size st_mtim_sec st_mtim_nsec error : Z) : M Z :=
  (* [inl] is an early return *)
  name ← if on_fd ar_name flags then
           f ← get_fd this fd;
           match f with
           | None =>
               if error =? 0 then
                 disable_here_fd this
                   "Process fstatat()ed an unknown fd successfully, which means interception missed at least one open()" fd
                 ≫= fun _ => ret (inl (-1))
               else ret (inl 0)
           | Some f =>
               ofd ← ofd_of f;
               ret (match filename_ ofd with Some n => inr n | None => inl 0 end)
           end
         else
           n ← get_absolute this fd (default [] ar_name);
           match n with
           | None =>
               disable_here this "Invalid dirfd or filename passed to stat() variant" ≫= fun _ =>
               ret (inl (-1))
           | Some n => ret (inr n)
           end;
  match name with
  | inl r => ret r
  | inr name =>
      gen ← generation name;
      r ← register_or_disable this name
            (FileUsageUpdate.get_from_stat_params name gen st_mode st_size error)
            "Could not register fstatat() on";
      if r =? 0 then
        when (error =? 0)
          (upd_proc this (fun pr => set_mtime_to_file_
             (<[(st_mtim_sec, Z.quot st_mtim_nsec 1000 * 1000) := name]> (mtime_to_file_ pr)) pr))
        ≫= fun _ => ret 0
      else ret r
  end.

(** [is_touch_r_operation(sec, nsec, &source)]: the source file if it is one. *)
Definition is_touch_r_operation (this : pid_ref) (mtim_sec mtim_nsec : Z) : M (option cstr) :=
  pr ← proc this;
  ret (mtime_to_file_ pr !! (mtim_sec, Z.quot mtim_nsec 1000 * 1000)).

Definition handle_statfs (this : pid_ref) (a_name : option cstr) (error : Z) : M Z :=
  match a_name with
  | None =>
      if quirk_ignore_statfs then ret 0
      else
        disable_here this "fstatfs() family operating on fds is not supported" ≫= fun _ => ret (-1)
  | Some name =>
      if error =? ENOENT then
        update ← new_update name FileInfo.NOTEXIST false false;
        register_or_disable this name update "Could not register failed statfs()" ≫= fun _ => ret 0
      else if negb quirk_ignore_statfs then
        disable_here this "Successful statfs() calls are not supported." ≫= fun _ => ret (-1)
      else ret 0
  end.

Definition handle_mktemp (this : pid_ref) (name : cstr) : M Z :=
  update ← open_update name O_RDWR 0 ENOENT true;
  register_or_disable this name update "Could not register mktemp()" ≫= fun _ => ret 0.

(** The requested permission bits as (access() bit, mode bit). *)
Definition access_bits : list (Z * Z) := [(R_OK, S_IRUSR); (W_OK, S_IWUSR); (X_OK, S_IXUSR)].

Definition handle_faccessat (this : pid_ref) (dirfd : Z) (ar_name : cstr) (mode error : Z) : M Z :=
  name ← get_absolute this dirfd ar_name;
  match name with
  | None => disable_here this "Invalid dirfd or filename passed faccessat()" ≫= fun _ => ret (-1)
  | Some name =>
      update ← new_update name FileInfo.DONTKNOW false false;
      E ← env;
      let requested := List.filter (fun b => has mode (fst b)) access_bits in
      (* [None]: the file has all the bits that access() did not find *)
      let update :=
        if mode =? F_OK then
          Some (FileUsageUpdate.set_initial_type
                  (if error =? 0 then FileInfo.EXIST else FileInfo.NOTEXIST) update)
        else if error =? 0 then
          Some (foldl (fun u b => FileUsageUpdate.set_initial_mode_bits (snd b) (snd b) u)
                  (FileUsageUpdate.set_initial_type FileInfo.EXIST update) requested)
        else if error =? EACCES then
          match env_stat E name with
          | inl _ => Some (FileUsageUpdate.set_initial_type FileInfo.NOTEXIST update)
          | inr st =>
              let u := foldl (fun u b => FileUsageUpdate.set_initial_mode_bits
                                           (Z.land (st_mode st) (snd b)) (snd b) u)
                         (FileUsageUpdate.set_initial_type FileInfo.EXIST update) requested in
              if existsb (fun b => Z.land (st_mode st) (snd b) =? 0) requested
              then Some u else None
          end
        else Some (FileUsageUpdate.set_initial_type FileInfo.NOTEXIST update) in
      match update with
      | None =>
          ep ← exec_point_nn this;
          disable_shortcutting_bubble_up_file ep
            "stat() returned unexpected permission bits for" name ≫= fun _ => ret (-1)
      | Some update =>
          register_or_disable this name update "Could not register the faccessat of a file"
      end
  end.

(** [file_fd->opened_by() ? file_fd->opened_by()->exec_point() : nullptr]. *)
Definition opened_by_exec_point (f : FileFD) : M (option pid_ref) :=
  ofd ← ofd_of f;
  match opened_by_ ofd with
  | Some q => exec_point q
  | None => ret None
  end.

Definition handle_fchmodat (this : pid_ref) (fd : Z) (ar_name : option cstr) (flags error : Z)
    : M Z :=
  ep ← exec_point_nn this;
  (* [inl]: an early return; [inr]: the name and the process to register from *)
  r ← if on_fd ar_name flags then
        f ← get_fd this fd;
        match f with
        | None =>
            if error =? 0 then
              disable_here_fd this
                "Process fchmodat()ed an unknown fd successfully, which means interception missed at least one open()" fd
              ≫= fun _ => ret (inl (-1))
            else ret (inl 0)
        | Some f =>
            register_from ← opened_by_exec_point f;
            disable_shortcutting_bubble_up_to_excl ep register_from
              "fchmod() on an inherited fd not supported" None ≫= fun _ =>
            ofd ← ofd_of f;
            ret (match filename_ ofd with Some n => inr (n, register_from) | None => inl 0 end)
        end
      else
        n ← get_absolute this fd (default [] ar_name);
        match n with
        | None =>
            disable_here this "Invalid dirfd or filename passed fchmodat()" ≫= fun _ => ret (inl (-1))
        | Some n => ret (inr (n, Some ep))
        end;
  match r with
  | inl r => ret r
  | inr (name, register_from) =>
      if negb (error =? 0) then
        match register_from with
        | Some q => disable_shortcutting_bubble_up_file q "Cannot register a failed fchmodat() on" name
        | None => ret tt
        end ≫= fun _ => ret (-1)
      else
        update ← new_update name FileInfo.EXIST false true;
        match register_from with
        | Some q =>
            ok ← register_file_usage_update q name update;
            if ok : bool then ret 0
            else
              disable_shortcutting_bubble_up_file q "Could not register fchmodat() on" name
              ≫= fun _ => ret (-1)
        | None => ret 0
        end
  end.

(** * Descriptors not backed by named files *)

Definition handle_shm_open (this : pid_ref) (fd error : Z) : M Z :=
  if (fd =? -1) && (error =? ENAMETOOLONG) then ret 0
  else disable_here this "shm_open() is not supported" ≫= fun _ => ret 0.

(** [add_filefd(fd, std::make_shared<FileFD>(flags, FD_SPECIAL, this))]. *)
Definition add_special (this : pid_ref) (flags fd : Z) : M unit :=
  f ← new_FileFD_type flags FD_SPECIAL (Some this); add_filefd this fd f.

Definition cloexec_flag (b : bool) : Z := if b then O_CLOEXEC else 0.

Definition handle_memfd_create (this : pid_ref) (flags fd : Z) : M Z :=
  add_special this (cloexec_flag (has flags MFD_CLOEXEC)) fd ≫= fun _ => ret 0.
Definition handle_timerfd_create (this : pid_ref) (flags fd : Z) : M Z :=
  add_special this (cloexec_flag (has flags O_CLOEXEC)) fd ≫= fun _ => ret 0.
Definition handle_epoll_create (this : pid_ref) (flags fd : Z) : M Z :=
  add_special this (cloexec_flag (has flags O_CLOEXEC)) fd ≫= fun _ => ret 0.
Definition handle_eventfd (this : pid_ref) (flags fd : Z) : M Z :=
  add_special this (cloexec_flag (has flags O_CLOEXEC)) fd ≫= fun _ => ret 0.
Definition handle_signalfd (this : pid_ref) (oldfd flags newfd : Z) : M Z :=
  when (oldfd =? -1) (add_special this (cloexec_flag (has flags O_CLOEXEC)) newfd) ≫= fun _ =>
  ret 0.

(** [up] and [down] are the results of the two [fb_pipe2()] calls (errno or the two
    descriptors); [remap] is the new number of a descriptor already in the epoll
    set. *)
Definition handle_pipe_request (this : pid_ref) (flags fd_conn : Z) (up down : Z + Z * Z)
    (remap : Z -> option Z) : M unit :=
  pending ← gets (fun w => proc2pending_pipe_ w !! this);
  assertM (bool_decide (pending = None)) ≫= fun _ =>
  match up with
  | inl err => log (EvPipeCreated fd_conn (inl err))
  | inr (up0, up1) =>
      match down with
      | inl err =>
          log (EvPipeCreated fd_conn (inl err)) ≫= fun _ =>
          log (EvClose up0) ≫= fun _ => log (EvClose up1)
      | inr (down0, down1) =>
          let down1 := default down1 (remap down1) in
          log (EvPipeCreated fd_conn (inr (down0, up1))) ≫= fun _ =>
          log (EvClose down0) ≫= fun _ =>
          log (EvClose up1) ≫= fun _ =>
          when (negb (has flags O_NONBLOCK))
            (log (EvSetNonblock down1 (Z.lor flags O_NONBLOCK)) ≫= fun _ =>
             log (EvSetNonblock up0 (Z.lor flags O_NONBLOCK))) ≫= fun _ =>
          log (EvBumpFdAge down1) ≫= fun _ =>
          log (EvBumpFdAge up0) ≫= fun _ =>
          modify (fun w => set_proc2pending_pipe_
                    (<[this := mkPendingPipe flags down1 up0]> (proc2pending_pipe_ w)) w)
      end
  end.

Definition already_open : string :=
  "Process created an fd which is known to be open, which means interception missed at least one close()".

Definition handle_pipe_fds (this : pid_ref) (fd0 fd1 : Z) : M unit :=
  pending ← gets (fun w => proc2pending_pipe_ w !! this) ≫= deref;
  f0 ← get_fd this fd0;
  f1 ← get_fd this fd1;
  (if bool_decide (is_Some f0) then
     disable_here_fd this already_open fd0 ≫= fun _ =>
     log (EvClose (pp_fd0 pending)) ≫= fun _ => log (EvClose (pp_fd1 pending))
   else if bool_decide (is_Some f1) then
     disable_here_fd this already_open fd1 ≫= fun _ =>
     log (EvClose (pp_fd0 pending)) ≫= fun _ => log (EvClose (pp_fd1 pending))
   else
     pipe ← gets w_pipe_counter;
     modify (set_w_pipe_counter (S pipe)) ≫= fun _ =>
     log (EvPipeNew pipe (pp_fd0 pending) (Some this)) ≫= fun _ =>
     let base := Z.ldiff (pp_flags pending) O_ACCMODE in
     ffd0 ← new_FileFD_pipe (Z.lor base O_RDONLY) (Some pipe) (Some this) false;
     add_filefd this fd0 ffd0 ≫= fun _ =>
     ffd1 ← new_FileFD_pipe (Z.lor base O_WRONLY) (Some pipe) (Some this) false;
     add_filefd this fd1 ffd1 ≫= fun _ =>
     ep ← exec_point this;
     log (EvPipeAddFd1 pipe (pp_fd1 pending) (ffd_id ffd1) ep) ≫= fun _ =>
     add_pipe this pipe) ≫= fun _ =>
  modify (fun w => set_proc2pending_pipe_ (delete this (proc2pending_pipe_ w)) w).

Definition socket_flags (type : Z) : Z :=
  Z.lor O_RDWR (Z.lor (if has type SOCK_CLOEXEC then O_CLOEXEC else 0)
                      (if has type SOCK_NONBLOCK then O_NONBLOCK else 0)).

(** Track a new socket descriptor, closing the one that was thought to be open. *)
Definition add_socket (this : pid_ref) (type fd : Z) : M unit :=
  f ← get_fd this fd;
  when (bool_decide (is_Some f))
    (disable_here_fd this already_open fd ≫= fun _ => handle_close this fd 0 ≫= fun _ => ret tt)
  ≫= fun _ =>
  add_special this (socket_flags type) fd.

Definition handle_socket (this : pid_ref) (type ret_fd error : Z) : M unit :=
  if error =? 0 then
    add_socket this type ret_fd ≫= fun _ =>
    let base := Z.ldiff type (Z.lor SOCK_CLOEXEC SOCK_NONBLOCK) in
    when ((base =? SOCK_DGRAM) || (base =? SOCK_RAW) || (base =? SOCK_PACKET))
      (disable_here this "SOCK_DGRAM, SOCK_RAW and SOCK_PACKET sockets are not supported")
  else disable_here this "socket() call failed".

Definition handle_socketpair (this : pid_ref) (type fd0 fd1 error : Z) : M unit :=
  if error =? 0 then mforM [fd0; fd1] (add_socket this type)
  else disable_here this "socketpair() call failed".

Definition handle_mkfifo (this : pid_ref) (pathname : cstr) (mode error : Z) : M Z :=
  name ← get_absolute this AT_FDCWD pathname;
  match name with
  | None => disable_here this "Could not find file to create with mkfifo()" ≫= fun _ => ret (-1)
  | Some name =>
      update ← open_update name (Z.lor O_RDWR (Z.lor O_CREAT O_EXCL)) mode error true;
      r ← register_or_disable this name update "Could not register mkfifo() on";
      if negb (r =? 0) then ret r
      else
        ep ← exec_point_nn this;
        x ← execed ep;
        pe ← parent_exec_point this;
        quirk ← match pe with
                | Some q =>
                    xq ← execed q;
                    ret (quirk_lto_wrapper && bool_decide (head (args_ x) = Some (cs "make"))
                         && bool_decide (FileName.without_dirs (executable_ xq) = cs "lto-wrapper"))
                | None => ret false
                end;
        if quirk : bool then ret 0
        else disable_here this "mkfifo() is not supported" ≫= fun _ => ret 0
  end.

Definition handle_connect (this : pid_ref) (sockfd : Z) (address : option cstr) (error : Z) : M unit :=
  f ← if error =? 0 then get_fd this sockfd else ret None;
  if (error =? 0) && bool_decide (f = None) then
    disable_here_fd this
      "Process connect()-ed over and fd that was not tracked as being open, which means interception missed at least one socket()" sockfd
    ≫= fun _ => disable_here this "connect() is not supported"
  else
    match (if error =? 0 then address else None) with
    | Some address =>
        ignored ← if Paths.is_canonical address then
                    n ← get_absolute this AT_FDCWD address ≫= deref;
                    ret (is_in_ignore_location n)
                  else ret false;
        if ignored : bool then ret tt
        else disable_here_str this "connect() to the following address is not supported:" (DStr address)
    | None => disable_here this "connect() is not supported"
    end.

Definition handle_dup3 (this : pid_ref) (oldfd newfd flags error : Z) : M Z :=
  if existsb (Z.eqb error) [EBADF; EBUSY; EINTR; EINVAL; ENFILE] then ret 0
  else
    f ← get_fd this oldfd;
    match f with
    | None => disable_here_fd this already_open oldfd ≫= fun _ => ret (-1)
    | Some src =>
        if oldfd =? newfd then ret 0
        else
          handle_force_close this newfd ≫= fun _ =>
          f ← new_FileFD_dup src (has flags O_CLOEXEC);
          add_filefd this newfd f ≫= fun _ => ret 0
    end.

Definition handle_rename (this : pid_ref) (olddirfd : Z) (old_ar_name : cstr) (newdirfd : Z)
    (new_ar_name : cstr) (error : Z) : M Z :=
  old_name ← get_absolute this olddirfd old_ar_name;
  new_name ← get_absolute this newdirfd new_ar_name;
  match old_name with Some n => close_for_writing n | None => ret tt end ≫= fun _ =>
  match new_name with Some n => close_for_writing n | None => ret tt end ≫= fun _ =>
  if negb (error =? 0) then
    if error =? EEXIST then
      new_name ← deref new_name;
      update ← new_update new_name FileInfo.DONTKNOW false false;
      register_or_disable this new_name (FileUsageUpdate.set_initial_type FileInfo.EXIST update)
        "Could not register the renaming (to)"
    else disable_here this "Failed rename() is not supported" ≫= fun _ => ret (-1)
  else
    match old_name, new_name with
    | Some old_name, Some new_name =>
        E ← env;
        let is_reg := match env_lstat E new_name with
                      | inl _ => false
                      | inr st => S_ISREG (st_mode st)
                      end in
        if negb is_reg then
          ep ← exec_point_nn this;
          disable_shortcutting_bubble_up_file ep
            "Could not register the renaming of non-regular file" old_name ≫= fun _ => ret (-1)
        else
          old_gen ← generation old_name;
          new_gen ← generation new_name;
          update_old ← lift (FileUsageUpdate.get_oldfile_usage_from_rename_params E new_name new_gen
                               (FileName.parent_dir new_name) old_gen error);
          r ← register_or_disable this old_name update_old "Could not register the renaming (from)";
          if negb (r =? 0) then ret r
          else
            new_gen ← generation new_name;
            register_or_disable this new_name
              (FileUsageUpdate.get_newfile_usage_from_rename_params new_name new_gen)
              "Could not register the renaming (to)"
    | _, _ => disable_here this "Invalid dirfd passed to renameat()" ≫= fun _ => ret (-1)
    end.

Definition handle_symlink (this : pid_ref) (target : cstr) (newdirfd : Z) (new_ar_name : cstr)
    (error : Z) : M Z :=
  if error =? 0 then
    disable_here_str this "Process created a symlink" (DArgs [new_ar_name; target]) ≫= fun _ => ret (-1)
  else ret 0.

(** * Descriptor flags *)

Definition closed_fcntl : string :=
  "Process successfully fcntl'ed on fd which is known to be closed, which means interception missed at least one open()".

(** Set the close-on-exec bit, or give up if the descriptor is not known. *)
Definition set_cloexec_or_disable (this : pid_ref) (fd : Z) (b : bool) (reason : string) : M Z :=
  f ← get_fd this fd;
  match f with
  | None => disable_here_fd this reason fd ≫= fun _ => ret (-1)
  | Some file_fd => set_fd_slot this fd (Some (set_cloexec_ b file_fd)) ≫= fun _ => ret 0
  end.

Definition handle_clear_cloexec (this : pid_ref) (fd : Z) : M Z :=
  set_cloexec_or_disable this fd false
    "Process successfully cleared cloexec on fd which is known to be closed, which means interception missed at least one open()".

Definition handle_fcntl (this : pid_ref) (fd cmd arg ret_val error : Z) : M Z :=
  if cmd =? F_DUPFD then handle_dup3 this fd ret_val 0 error
  else if cmd =? F_DUPFD_CLOEXEC then handle_dup3 this fd ret_val O_CLOEXEC error
  else if cmd =? F_SETFD then
    if error =? 0 then set_cloexec_or_disable this fd (has arg FD_CLOEXEC) closed_fcntl else ret 0
  else
    disable_here_str this "Process executed unsupported fcntl " (DFd cmd None) ≫= fun _ => ret 0.

Definition handle_ioctl (this : pid_ref) (fd cmd error : Z) : M Z :=
  let closed := "Process successfully ioctl'ed on fd which is known to be closed, which means interception missed at least one open()"%string in
  if cmd =? FIOCLEX then
    if error =? 0 then set_cloexec_or_disable this fd true closed else ret 0
  else if cmd =? FIONCLEX then
    if error =? 0 then set_cloexec_or_disable this fd false closed else ret 0
  else disable_here_str this "Process executed unsupported ioctl" (DFd cmd None) ≫= fun _ => ret 0.

(** * Inherited descriptors *)

Definition handle_read_from_inherited (this : pid_ref) (fd : Z) : M unit :=
  f ← get_fd this fd;
  match f with
  | None =>
      disable_here_fd this
        "Process successfully read from fd which is known to be closed, which means interception missed at least one open()" fd
  | Some file_fd =>
      ofd ← ofd_of file_fd;
      ep ← exec_point_nn this;
      x ← execed ep;
      if bool_decide (type_ ofd = FD_PIPE_IN) && bool_decide (is_Some (pipe_ file_fd))
         && (fd =? jobserver_fd_r_ x)
      then ret tt
      else
        opener ← opened_by_exec_point file_fd;
        if bool_decide (opener = Some ep) then
          disable_here_fd this "Process sent handle_read_from_inherited for a non-inherited fd" fd
        else if bool_decide (type_ ofd = FD_IGNORED) then ret tt
        else
          disable_shortcutting_bubble_up_to_excl_fd ep opener "Process read from inherited fd " fd
  end.

Definition handle_write_to_inherited (this : pid_ref) (fd : Z) (is_pwrite : bool) : M unit :=
  f ← get_fd this fd;
  match f with
  | None =>
      disable_here_fd this
        "Process successfully wrote to fd which is known to be closed, which means interception missed at least one open()" fd
  | Some file_fd =>
      ofd ← ofd_of file_fd;
      ep ← exec_point_nn this;
      x ← execed ep;
      if bool_decide (type_ ofd = FD_PIPE_OUT) && bool_decide (is_Some (pipe_ file_fd))
         && (fd =? jobserver_fd_w_ x)
      then ret tt
      else
        opener ← opened_by_exec_point file_fd;
        if bool_decide (opener = Some ep) then
          disable_here_fd this "Process sent handle_write_to_inherited for a non-inherited fd" fd
        else if bool_decide (type_ ofd = FD_IGNORED) then ret tt
        else if is_pwrite then
          disable_shortcutting_bubble_up_to_excl_fd ep opener
            "Process called pwrite() on inherited fd " fd
        else
          when (bool_decide (pipe_ file_fd = None) && bool_decide (filename_ ofd = None))
            (disable_shortcutting_bubble_up_to_excl_fd ep opener
               "Process wrote to inherited non-pipe and non-file fd " fd)
  end.

Definition handle_seek_in_inherited (this : pid_ref) (fd : Z) (modify_offset : bool) : M unit :=
  f ← get_fd this fd;
  match f with
  | None =>
      disable_here_fd this
        "Process successfully seeked in an fd which is known to be closed, which means interception missed at least one open()" fd
  | Some file_fd =>
      ofd ← ofd_of file_fd;
      ep ← exec_point_nn this;
      opener ← opened_by_exec_point file_fd;
      if bool_decide (opener = Some ep) then
        disable_here_fd this "Process sent handle_seek_in_inherited for a non-inherited fd" fd
      else if bool_decide (type_ ofd = FD_IGNORED) then ret tt
      else
        when (modify_offset && bool_decide (pipe_ file_fd = None))
          (disable_shortcutting_bubble_up_to_excl_fd ep opener
             "Process seeked in inherited non-pipe fd " fd)
  end.

(** Set the offset of the first inherited file whose lowest descriptor is [fd]. *)
Fixpoint set_start_offset (fd offset : Z) (l : list inherited_file_t) : list inherited_file_t :=
  match l with
  | [] => []
  | i :: l' =>
      if bool_decide (head (if_fds i) = Some fd)
      then mkInherited (if_type i) (if_fds i) (if_recorder i) (if_filename i) (if_flags i) offset :: l'
      else i :: set_start_offset fd offset l'
  end.

Definition handle_inherited_fd_offset (this : pid_ref) (fd offset : Z) : M unit :=
  ep ← exec_point_nn this;
  f ← get_fd ep fd;
  match f with
  | None =>
      disable_here_fd this
        "Process reported offset for an intercepted seekable fd which is no known to be open" fd
  | Some file_fd =>
      ofd ← ofd_of file_fd;
      when (is_write (flags_ ofd))
        (disable_shortcutting_only_this ep "Inherited writable non-append fd not seeked to its end"
           None) ≫= fun _ =>
      upd_execed ep (fun x => set_inherited_files_ (set_start_offset fd offset (inherited_files_ x)) x)
  end.

Definition handle_recvmsg_scm_rights (this : pid_ref) (cloexec : bool) (fds : list Z) : M unit :=
  mforM fds (fun fd =>
    f ← get_fd this fd;
    match f with
    | Some _ =>
        disable_here_fd this
          "Process successfully received fd via SCM_RIGHTS which is known to be open, which means interception missed at least one close()" fd
    | None =>
        f ← new_FileFD_type (cloexec_flag cloexec) FD_SCM_RIGHTS (Some this);
        add_filefd this fd f
    end) ≫= fun _ =>
  disable_here this "Receiving an fd via SCM_RIGHTS is not supported".

(** * Working directory and umask *)

(** [add_wd(d)] and [handle_fail_wd(d)]: a forked process passes them on to its
    parent. *)
Fixpoint on_exec_ancestor (fuel : nat) (this : pid_ref) (f : Execed -> Execed) : M unit :=
  match fuel with
  | O => out_of_fuel
  | S fuel =>
      pr ← proc this;
      match kind_ pr with
      | KExeced _ => upd_execed this f
      | KForked _ => parent ← deref (parent_ pr); on_exec_ancestor fuel parent f
      end
  end.

Definition add_wd (this : pid_ref) (d : cstr) : M unit :=
  fuel ← chain_fuel; on_exec_ancestor fuel this (fun x => set_wds_ ({[d]} ∪ wds_ x) x).
Definition handle_fail_wd (this : pid_ref) (d : cstr) : M unit :=
  fuel ← chain_fuel; on_exec_ancestor fuel this (fun x => set_failed_wds_ ({[d]} ∪ failed_wds_ x) x).

Definition handle_set_wd (this : pid_ref) (ar_d : cstr) : M unit :=
  d ← get_absolute this AT_FDCWD ar_d ≫= deref;
  upd_proc this (set_wd_ d) ≫= fun _ => add_wd this d.

Definition handle_set_fwd (this : pid_ref) (fd : Z) : M unit :=
  f ← get_fd this fd;
  match f with
  | None =>
      disable_here_fd this
        "Process successfully fchdir()'ed to an  fd which is known to be closed, which means interception missed at least one open()" fd
  | Some f =>
      ofd ← ofd_of f;
      d ← deref (filename_ ofd);
      upd_proc this (set_wd_ d) ≫= fun _ => add_wd this d
  end.

Definition handle_umask (this : pid_ref) (old_umask new_umask : Z) : M unit :=
  pr ← proc this;
  when (negb (umask_ pr =? old_umask))
    (disable_here this "Old umask mismatches, which means interception missed at least one umask()")
  ≫= fun _ =>
  upd_proc this (set_umask_ (Z.land new_umask 511)).

End WithConfig.
