(* ===== verification/Lifecycle.v ===== *)
(** The life of a process in the supervisor's model: construction
    ([ForkedProcess], [ExecedProcess]), matching a new process with the command that
    was expected, termination, orphans, finalization and garbage collection
    (process.cc, forked_process.{h,cc}, execed_process.cc, process_tree.{h,cc}).

    The recursive functions follow the parents, the exec children or the fork
    children of a process; the number of known processes bounds the depth of all
    three, and [Lifecycle] runs them with that much fuel. *)

From stdpp Require Import base list strings option gmap sets.
From Stdlib Require Import ZArith Lia Ascii.
From S2P Require Import Prelude Base64 Paths FileNames FileUsage Commands World Handlers.

Local Open Scope Z_scope.

(** [for (...) if (!f(x)) return false; return true;] *)
Fixpoint forallM {A} (l : list A) (f : A -> M bool) : M bool :=
  match l with
  | [] => ret true
  | a :: l' => b ← f a; if b : bool then forallM l' f else ret false
  end.

(** * Matching the expected child (process.cc) *)

Section Argv.
Context {C : Config}.

(** [std::vector::operator[]]; out of range is undefined. *)
Definition at_arg (v : list cstr) (i : nat) : outcome cstr :=
  match v !! i with Some a => Ret a | None => Abort end.

(** The loop of [argv_match_from_offset], from index [i] of [expected]. *)
Fixpoint argv_match_loop (n : nat) (actual : list cstr) (actual_offset : nat) (expected : list cstr)
    (expected_offset i : nat) : outcome bool :=
  match n with
  | O => Ret true
  | S n =>
      a ← at_arg actual (actual_offset + i - expected_offset);
      e ← at_arg expected expected_offset;
      if bool_decide (a = e)
      then argv_match_loop n actual actual_offset expected expected_offset (S i)
      else Ret false
  end.

(** The sizes are compared as [size_t], whose subtraction wraps around. *)
Definition argv_match_from_offset (actual : list cstr) (actual_offset : nat) (expected : list cstr)
    (expected_offset : nat) : outcome bool :=
  if negb ((Z.of_nat (length actual) - Z.of_nat actual_offset) mod 2 ^ 64
           =? (Z.of_nat (length expected) - Z.of_nat expected_offset) mod 2 ^ 64)
  then Ret false
  else argv_match_loop (length expected - expected_offset) actual actual_offset expected
         expected_offset expected_offset.

Definition argv_matches_expectation (actual expected : list cstr) : outcome bool :=
  if (length actual =? length expected)%nat then Ret (bool_decide (actual = expected))
  else if (length expected <? length actual)%nat then
    let offset := (length actual - length expected)%nat in
    e0 ← at_arg expected 0;
    a0 ← at_arg actual offset;
    let expected_arg0_len := length e0 in
    let actual_arg0_len := length a0 in
    if bool_decide (slash ∈ e0) then
      if negb (bool_decide (a0 = e0)) then Ret false
      else argv_match_from_offset actual (offset + 1) expected 1
    else if (actual_arg0_len <=? expected_arg0_len)%nat then Ret false
    else if negb (bool_decide (char_at a0 (actual_arg0_len - expected_arg0_len - 1) = slash))
    then Ret false
    else if negb (bool_decide (drop (actual_arg0_len - expected_arg0_len) a0 = e0)) then Ret false
    else argv_match_from_offset actual (offset + 1) expected 1
  else if negb glibc_2_38 && (2 <? length expected)%nat && bool_decide (expected !! 2%nat = Some (cs "--"))
          && (2 <? length actual)%nat && negb (bool_decide (actual !! 2%nat = Some (cs "--")))
          && bool_decide (expected !! 0%nat = Some (cs "sh"))
          && bool_decide (expected !! 1%nat = Some (cs "-c"))
          && bool_decide (actual !! 0%nat = Some (cs "sh"))
          && bool_decide (actual !! 1%nat = Some (cs "-c"))
  then argv_match_from_offset actual 3 expected 4
  else Ret false.

(** [set_sh_c_command(cmd)] (execed_process_env.cc). *)
Definition set_sh_c_command (cmd : cstr) (e : ExecedProcessEnv) : ExecedProcessEnv :=
  mkEnv (argv_ e ++ [cs "sh"; cs "-c"; cs "--"; cmd]) (launch_type_ e) (type_flags_ e) (env_fds_ e).

End Argv.

Section WithConfig.
Context {C : Config} {S0 : Sys}.

(** Destruction of a table of descriptors. *)
Definition drop_fds (fds : fd_table) : M unit :=
  mforM fds (fun f => match f with Some f => drop_FileFD f | None => ret tt end).
Definition drop_env (e : ExecedProcessEnv) : M unit :=
  match env_fds_ e with Some fds => drop_fds fds | None => ret tt end.

(** [set_expected_child(ec)] (process.h). *)
Definition set_expected_child (this : pid_ref) (ec : ExecedProcessEnv) : M unit :=
  pr ← proc this;
  assertM (negb (bool_decide (is_Some (expected_child_ pr)))) ≫= fun _ =>
  upd_proc this (set_expected_child_ (Some ec)).

(** [pop_expected_child_fds(argv, launch_type_p, type_flags_p, failed)]: the
    descriptors, with the launch type and flags, if the child was expected. *)
Definition pop_expected_child_fds (this : pid_ref) (argv : list cstr) (failed : bool)
    : M (option (fd_table * LaunchType * Z)) :=
  pr ← proc this;
  match expected_child_ pr with
  | Some ec =>
      ok ← if bool_decide (launch_type_ ec = LAUNCH_TYPE_SYSTEM) && bool_decide (argv_ ec = [])
           then ret true else lift (argv_matches_expectation argv (argv_ ec));
      if ok : bool then
        upd_proc this (set_expected_child_ None) ≫= fun _ =>
        ret (match env_fds_ ec with
             | Some fds => Some (fds, launch_type_ ec, type_flags_ ec)
             | None => None
             end)
      else
        disable_here_str this "Unexpected system/popen/posix_spawn child appeared" (DArgs argv)
        ≫= fun _ =>
        drop_env ec ≫= fun _ =>
        upd_proc this (set_expected_child_ None) ≫= fun _ => ret None
  | None =>
      disable_here_str this "Unexpected system/popen/posix_spawn child" (DArgs argv) ≫= fun _ =>
      ret None
  end.

(** * Construction *)

(** The constructor of [Process]: a fresh [fb_pid_]. *)
Definition new_Process (pid ppid exec_count : Z) (wd : cstr) (umask : Z) (parent : option pid_ref)
    (fds : option fd_table) (kind : Kind) : M pid_ref :=
  p ← gets w_fb_pid_counter;
  modify (fun w => set_w_fb_pid_counter (S p)
    (set_w_procs (<[p := mkProcess parent FB_PROC_RUNNING pid ppid exec_count wd umask fds []
                          None false ∅ None false false None ∅ kind]> (w_procs w)) w)) ≫= fun _ =>
  ret p.

Definition new_ForkedProcess (pid ppid : Z) (parent : option pid_ref) (fds : fd_table) : M pid_ref :=
  parent_pr ← match parent with Some q => pr ← proc q; ret (Some pr) | None => ret None end;
  ep ← match parent with Some q => exec_point q | None => ret None end;
  p ← new_Process pid ppid 0 (match parent_pr with Some pr => wd_ pr | None => [] end)
        (match parent_pr with Some pr => umask_ pr | None => 0 end) parent (Some fds)
        (KForked (mkForked (-1) ep (-1) false false false (-1)));
  match parent with
  | Some q => upd_proc q (fun pr => set_fork_children_ (fork_children_ pr ++ [p]) pr)
  | None => ret tt
  end ≫= fun _ =>
  ret p.

(** [ProcessFactory::getForkedProcess(pid, parent)]. *)
Definition getForkedProcess (pid : Z) (parent : pid_ref) : M pid_ref :=
  pr ← proc parent;
  fds ← pass_on_fds parent false;
  new_ForkedProcess pid (pid_ pr) (Some parent) fds.

(** The "scproc_query" message. *)
Record scproc_query := mkQuery {
  sq_version : option cstr;
  sq_pid : Z;
  sq_ppid : Z;
  sq_cwd : cstr;
  sq_arg : list cstr;
  sq_env_var : list cstr;
  sq_umask : Z;
  sq_executable : cstr;
  sq_executed_path : option cstr;
  sq_original_executed_path : option cstr;
  sq_libs : list cstr;
  sq_jobserver_fds : list Z;
  sq_jobserver_fifo : option cstr
}.

(** The constructor of [ExecedProcess]. *)
Definition new_ExecedProcess (pid ppid : Z) (initial_wd executable executed_path
    original_executed_path : cstr) (args env_vars libs : list cstr) (umask : Z)
    (parent : option pid_ref) (fds : option fd_table) : M pid_ref :=
  exec_count ← match parent with Some q => pr ← proc q; ret (exec_count_ pr + 1) | None => ret 1 end;
  ep ← match parent with Some q => exec_point q | None => ret None end;
  ancestor ← match ep with Some e => closest_shortcut_point e | None => ret None end;
  p ← new_Process pid ppid exec_count initial_wd umask parent fds
        (KExeced (mkExeced true false false (-1) (-1) None ancestor 0 0 0 0 initial_wd ∅ ∅ args
                    env_vars executable executed_path original_executed_path libs ∅ [] [] None None
                    None None));
  match parent with
  | None => ret tt
  | Some q =>
      pr ← proc q;
      qemu ← if bool_decide (state_ pr = FB_PROC_TERMINATED) then ret false else is_qemu q;
      if negb (bool_decide (state_ pr = FB_PROC_TERMINATED)) && negb qemu then abortM
      else
        fp ← fork_point q;
        upd_execed p (set_fork_point_ fp) ≫= fun _ =>
        when (negb qemu) (upd_proc q (set_exec_pending_ false)) ≫= fun _ =>
        reset_file_fd_pipe_refs q ≫= fun _ =>
        upd_proc q (set_exec_child_ (Some p))
  end ≫= fun _ =>
  ret p.

(** [maybe_set_jobserver_fds(fd_r, fd_w)]. *)
Definition INT16_MAX := 32767.
Definition maybe_set_jobserver_fds (fd_r fd_w : Z) (x : Execed) : Execed :=
  let x := if (0 <=? fd_w) && (fd_r <=? INT16_MAX) then set_jobserver_fd_r_ fd_r x else x in
  if (0 <=? fd_w) && (fd_w <=? INT16_MAX) then set_jobserver_fd_w_ fd_w x else x.

(** [ProcessFactory::getExecedProcess(msg, parent, fds)]. *)
Definition getExecedProcess (msg : scproc_query) (parent : option pid_ref) (fds : option fd_table)
    : M pid_ref :=
  let executed_path := default (sq_executable msg) (sq_executed_path msg) in
  let original_executed_path := default executed_path (sq_original_executed_path msg) in
  '(executable, args, qemu_user_used) ←
     lift (CommandRewriter.strip_qemu qemu_user (sq_executable msg) (sq_arg msg) (sq_cwd msg));
  p ← new_ExecedProcess (sq_pid msg) (sq_ppid msg) (sq_cwd msg) executable executed_path
        original_executed_path args (sq_env_var msg) (sq_libs msg) (sq_umask msg) parent fds;
  upd_execed p (set_qemu_user_used_ qemu_user_used) ≫= fun _ =>
  match sq_jobserver_fifo msg with
  | Some fifo => upd_execed p (set_jobserver_fifo_ (Some fifo))
  | None =>
      match sq_jobserver_fds msg with
      | [r; w] => upd_execed p (maybe_set_jobserver_fds r w)
      | _ => ret tt
      end
  end ≫= fun _ =>
  ret p.

(** [ExecedProcess::set_parent(parent)]. *)
Definition set_parent (this parent : pid_ref) : M unit :=
  parent_ep ← exec_point_nn parent;
  upd_proc this (set_parent_ (Some parent)) ≫= fun _ =>
  fp ← fork_point parent;
  upd_execed this (set_fork_point_ fp) ≫= fun _ =>
  a ← closest_shortcut_point parent_ep;
  upd_execed this (set_maybe_shortcutable_ancestor_ a).

(** [ExecedProcess::initialize()]: grouping the inherited descriptors by the open
    file description. *)
Fixpoint add_to_group (this : pid_ref) (fd : Z) (f : FileFD) (l : list inherited_file_t)
    : M (option (list inherited_file_t)) :=
  match l with
  | [] => ret None
  | i :: l' =>
      fd0 ← deref (head (if_fds i));
      f0 ← get_fd this fd0 ≫= deref;
      if bool_decide (ofd_ f0 = ofd_ f)
      then ret (Some (mkInherited (if_type i) (if_fds i ++ [fd]) (if_recorder i) (if_filename i)
                        (if_flags i) (if_start_offset i) :: l'))
      else
        r ← add_to_group this fd f l';
        ret (match r with Some l'' => Some (i :: l'') | None => None end)
  end.

Fixpoint group_fds (this : pid_ref) (fds : list nat) (acc : list inherited_file_t)
    : M (list inherited_file_t) :=
  match fds with
  | [] => ret acc
  | i :: fds =>
      f ← get_fd this (Z.of_nat i);
      acc ← match f with
            | None => ret acc
            | Some f =>
                r ← add_to_group this (Z.of_nat i) f acc;
                match r with
                | Some acc => ret acc
                | None =>
                    ofd ← ofd_of f;
                    assertM (negb (bool_decide (type_ ofd = FD_UNINITIALIZED))) ≫= fun _ =>
                    ret (acc ++ [mkInherited (type_ ofd) [Z.of_nat i] None (filename_ ofd)
                                   (flags_ ofd) (-1)])
                end
            end;
      group_fds this fds acc
  end.

(** The size of an inherited file open for writing is taken as the start offset. *)
Definition with_start_offset (this : pid_ref) (i : inherited_file_t) : M inherited_file_t :=
  if bool_decide (if_type i = FD_FILE) then
    fd0 ← deref (head (if_fds i));
    pr ← proc this;
    fds ← deref (fds_ pr);
    f ← at_fd fds fd0 ≫= deref;
    ofd ← ofd_of f;
    name ← deref (filename_ ofd);
    E ← env;
    match env_stat E name with
    | inl _ =>
        disable_shortcutting_only_this this "Failed to stat inherited file" None ≫= fun _ => ret i
    | inr st =>
        ret (if S_ISREG (st_mode st) && is_write (flags_ ofd)
             then mkInherited (if_type i) (if_fds i) (if_recorder i) (if_filename i) (if_flags i)
                    (st_size st)
             else i)
    end
  else ret i.

Fixpoint map_inherited (this : pid_ref) (l : list inherited_file_t) : M (list inherited_file_t) :=
  match l with
  | [] => ret []
  | i :: l => i' ← with_start_offset this i; l' ← map_inherited this l; ret (i' :: l')
  end.

Definition initialize (this : pid_ref) : M unit :=
  x ← execed this;
  pe ← parent_exec_point this;
  match pe with
  | None => ret tt
  | Some q =>
      mforM (executable_ x :: libs_ x) (fun name =>
        update ← open_update name O_RDONLY 0 0 false;
        register_file_usage_update q name update ≫= fun _ => ret tt)
  end ≫= fun _ =>
  pr ← proc this;
  fds ← deref (fds_ pr);
  files ← group_fds this (seq 0 (length fds)) [];
  files ← map_inherited this files;
  upd_execed this (set_inherited_files_ files).

(** * Resource usage *)

Definition update_rusage (this : pid_ref) (utime_u stime_u : Z) : M unit :=
  ep ← exec_point this;
  match ep with
  | Some e =>
      upd_execed e (fun x => set_stime_u_ (stime_u_ x + stime_u)
                               (set_utime_u_ (utime_u_ x + utime_u) x))
  | None => ret tt
  end.
Definition resource_usage := update_rusage.

Definition aggr_cpu_time_u (x : Execed) : Z := utime_u_ x + stime_u_ x + children_cpu_time_u_ x.

(** * Finalization *)

Definition fork_parent (this : pid_ref) : M (option pid_ref) :=
  fp ← fork_point this;
  match fp with
  | Some f => pr ← proc f; ret (parent_ pr)
  | None => ret None
  end.

Fixpoint last_exec_descendant_from (fuel : nat) (this : pid_ref) : M pid_ref :=
  match fuel with
  | O => out_of_fuel
  | S fuel =>
      pr ← proc this;
      match exec_child_ pr with
      | Some c => last_exec_descendant_from fuel c
      | None => ret this
      end
  end.
Definition last_exec_descendant (this : pid_ref) : M pid_ref :=
  fuel ← chain_fuel; last_exec_descendant_from fuel this.

(** The [ForkedProcess] behind [fork_point()->...]. *)
Definition fork_point_nn (this : pid_ref) : M pid_ref := fork_point this ≫= deref.

Definition been_waited_for (this : pid_ref) : M bool :=
  fp ← fork_point_nn this; f ← forked fp; ret (been_waited_for_ f).

Fixpoint foth_fuel (fuel : nat) (this : pid_ref) : M bool :=
  match fuel with
  | O => out_of_fuel
  | S fuel =>
      pr ← proc this;
      match state_ pr with
      | FB_PROC_FINALIZED => ret true
      | FB_PROC_RUNNING => ret false
      | FB_PROC_TERMINATED =>
          fp ← fork_point_nn this;
          f ← forked fp;
          if has_orphan_descendant_ f then
            ok ← forallM (fork_children_ pr) (fun c =>
                   fc ← forked c; if orphan_ fc then ret true else foth_fuel fuel c);
            if ok : bool then
              match exec_child_ pr with Some c => foth_fuel fuel c | None => ret true end
            else ret false
          else ret false
      end
  end.
Definition finalized_or_terminated_and_has_orphan_and_finalized_children (this : pid_ref) : M bool :=
  fuel ← chain_fuel; foth_fuel fuel this.

Definition state_of (p : pid_ref) : M process_state := pr ← proc p; ret (state_ pr).

Definition any_child_not_finalized (this : pid_ref) : M bool :=
  pr ← proc this;
  if exec_pending_ pr || has_pending_popen_ pr then ret true
  else
    ec ← match exec_child_ pr with
         | Some c => s ← state_of c; ret (negb (bool_decide (s = FB_PROC_FINALIZED)))
         | None => ret false
         end;
    if ec : bool then ret true
    else
      all ← forallM (fork_children_ pr) (fun c =>
              s ← state_of c; ret (bool_decide (s = FB_PROC_FINALIZED)));
      ret (negb all).

Definition any_child_not_finalized_or_terminated_with_orphan (this : pid_ref) : M bool :=
  pr ← proc this;
  if exec_pending_ pr || has_pending_popen_ pr then ret true
  else
    ec ← match exec_child_ pr with
         | Some c =>
             b ← finalized_or_terminated_and_has_orphan_and_finalized_children c; ret (negb b)
         | None => ret false
         end;
    if ec : bool then ret true
    else
      all ← forallM (fork_children_ pr)
              finalized_or_terminated_and_has_orphan_and_finalized_children;
      ret (negb all).

(** [do { ... curr = curr->exec_child(); } while (curr);] *)
Fixpoint exec_chain (fuel : nat) (curr : pid_ref) (f : pid_ref -> M unit) : M unit :=
  match fuel with
  | O => out_of_fuel
  | S fuel =>
      f curr ≫= fun _ =>
      pr ← proc curr;
      match exec_child_ pr with Some c => exec_chain fuel c f | None => ret tt end
  end.

Fixpoint terminate_top_orphans_fuel (fuel : nat) (this : pid_ref) : M unit :=
  match fuel with
  | O => out_of_fuel
  | S fuel =>
      pr ← proc this;
      fp ← fork_point_nn this;
      f ← forked fp;
      when (orphan_ f && bool_decide (state_ pr = FB_PROC_RUNNING))
        (log (EvKill (pid_ pr)) ≫= fun _ =>
         n ← chain_fuel;
         exec_chain n this (fun curr =>
           cr ← proc curr; mforM (fork_children_ cr) (terminate_top_orphans_fuel fuel))) ≫= fun _ =>
      when (bool_decide (state_ pr = FB_PROC_TERMINATED))
        (mforM (fork_children_ pr) (terminate_top_orphans_fuel fuel) ≫= fun _ =>
         match exec_child_ pr with
         | Some c => terminate_top_orphans_fuel fuel c
         | None => ret tt
         end)
  end.
Definition terminate_top_orphans (this : pid_ref) : M unit :=
  fuel ← chain_fuel; terminate_top_orphans_fuel fuel this.

(** forked_process.{h,cc} *)
Definition has_on_finalized_ack_set (f : Forked) : bool := negb (on_finalized_ack_id_ f =? -1).

Definition maybe_send_on_finalized_ack (this : pid_ref) : M unit :=
  f ← forked this;
  when (has_on_finalized_ack_set f)
    (assertM (negb (on_finalized_ack_fd_ f =? -1)) ≫= fun _ =>
     log (EvAck (on_finalized_ack_fd_ f) (on_finalized_ack_id_ f)) ≫= fun _ =>
     upd_forked this (fun f => set_on_finalized_ack_fd_ (-1) (set_on_finalized_ack_id_ (-1) f))).

(** [set_on_finalized_ack(id, fd)], also that of [ExecedProcess]. *)
Definition set_on_finalized_ack (this : pid_ref) (id fd : Z) : M unit :=
  fp ← fork_point_nn this;
  f ← forked fp;
  assertM ((on_finalized_ack_id_ f =? -1) && (on_finalized_ack_fd_ f =? -1)) ≫= fun _ =>
  upd_forked fp (fun f => set_on_finalized_ack_fd_ fd (set_on_finalized_ack_id_ id f)).

Definition can_ack_parent_wait (this : pid_ref) : M bool :=
  pr ← proc this;
  f ← forked this;
  if bool_decide (state_ pr = FB_PROC_FINALIZED) then ret true
  else if bool_decide (state_ pr = FB_PROC_TERMINATED) && has_orphan_descendant_ f then
    b ← any_child_not_finalized_or_terminated_with_orphan this; ret (negb b)
  else ret false.

Fixpoint orphan_bubble_up (fuel : nat) (this : pid_ref) : M unit :=
  match fuel with
  | O => out_of_fuel
  | S fuel =>
      upd_forked this (set_has_orphan_descendant_ true) ≫= fun _ =>
      f ← forked this;
      can ← if has_on_finalized_ack_set f then can_ack_parent_wait this else ret false;
      when can (maybe_send_on_finalized_ack this) ≫= fun _ =>
      pr ← proc this;
      match parent_ pr with
      | Some q => fp ← fork_point_nn q; orphan_bubble_up fuel fp
      | None => ret tt
      end
  end.
Definition set_has_orphan_descendant_bubble_up (this : pid_ref) : M unit :=
  fuel ← chain_fuel; orphan_bubble_up fuel this.

(** [Process::do_finalize()] and its overrides. *)
Definition do_finalize_base (this : pid_ref) : M unit :=
  s ← state_of this;
  assertM (bool_decide (s = FB_PROC_TERMINATED)) ≫= fun _ =>
  upd_proc this (set_state_ FB_PROC_FINALIZED).

Definition do_finalize_execed (this : pid_ref) : M unit :=
  close_fds this ≫= fun _ =>
  x ← execed this;
  fp ← (if negb (was_shortcut_ x) && can_shortcut_ x
        then fp ← fork_point_nn this; f ← forked fp; ret (exit_status_ f) else ret (-1));
  when (negb (fp =? -1) && (min_cpu_time_u <=? aggr_cpu_time_u x)) (log (EvStore this)) ≫= fun _ =>
  pe ← parent_exec_point this;
  match pe with
  | Some q =>
      upd_execed q (fun y => set_shortcut_cpu_time_ms_ (shortcut_cpu_time_ms_ y + shortcut_cpu_time_ms_ x)
                     (set_children_cpu_time_u_ (children_cpu_time_u_ y + aggr_cpu_time_u x) y))
  | None => ret tt
  end ≫= fun _ =>
  do_finalize_base this ≫= fun _ =>
  mforM (created_pipes_ x) (fun p => log (EvPipeFinish p)) ≫= fun _ =>
  modify (fun w => set_proc_gc_queue_ (proc_gc_queue_ w ++ [this]) w).

Definition do_finalize_forked (this : pid_ref) : M unit :=
  maybe_send_on_finalized_ack this ≫= fun _ =>
  close_fds this ≫= fun _ =>
  do_finalize_base this.

Definition do_finalize (this : pid_ref) : M unit :=
  pr ← proc this;
  match kind_ pr with
  | KExeced _ => do_finalize_execed this
  | KForked _ => do_finalize_forked this
  end.

(** The first part of [maybe_finalize()]: whether the children permit it. *)
Definition children_permit (this : pid_ref) : M bool :=
  pending ← any_child_not_finalized this;
  if pending : bool then
    fp ← fork_point_nn this;
    fpr ← proc fp;
    f ← forked fp;
    if bool_decide (parent_ fpr = None) && has_orphan_descendant_ f then
      b ← finalized_or_terminated_and_has_orphan_and_finalized_children this;
      if b : bool then terminate_top_orphans fp ≫= fun _ => ret true else ret false
    else ret false
  else ret true.

(** The second part: whether the parent has waited for it, or can't any more. *)
Definition waiter_permits (this : pid_ref) : M bool :=
  waited ← been_waited_for this;
  if waited : bool then ret true
  else
    parent ← fork_parent this;
    match parent with
    | None => ret false
    | Some fork_parent_ptr =>
        potential_waiter ← last_exec_descendant fork_parent_ptr;
        wpr ← proc potential_waiter;
        if negb (bool_decide (state_ wpr = FB_PROC_RUNNING)) && negb (exec_pending_ wpr) then
          fp ← fork_point_nn this;
          upd_forked fp (set_orphan_ true) ≫= fun _ =>
          ep ← exec_point_nn this;
          disable_shortcutting_bubble_up ep "Orphan processes can't be shortcut" (Some ep) ≫= fun _ =>
          pfp ← fork_point_nn fork_parent_ptr;
          set_has_orphan_descendant_bubble_up pfp ≫= fun _ =>
          ret true
        else ret false
    end.

Fixpoint maybe_finalize_fuel (fuel : nat) (this : pid_ref) : M unit :=
  match fuel with
  | O => out_of_fuel
  | S fuel =>
      s ← state_of this;
      if negb (bool_decide (s = FB_PROC_TERMINATED)) then ret tt
      else
        ok ← children_permit this;
        if negb ok then ret tt
        else
          ok ← waiter_permits this;
          if negb ok then ret tt
          else
            drain_all_pipes this ≫= fun _ =>
            do_finalize this ≫= fun _ =>
            pr ← proc this;
            match parent_ pr with
            | Some q => maybe_finalize_fuel fuel q
            | None => ret tt
            end
  end.
Definition maybe_finalize (this : pid_ref) : M unit :=
  fuel ← chain_fuel; maybe_finalize_fuel fuel this.

Definition maybe_finalize_with_missed_static_exec_child (this : pid_ref) : M unit :=
  disable_here this "Process did not sign in to supervisor, perhaps statically linked or failed to link"
  ≫= fun _ =>
  upd_proc this (set_exec_pending_ false) ≫= fun _ =>
  reset_file_fd_pipe_refs this ≫= fun _ =>
  maybe_finalize this.

(** [ForkedProcess::set_been_waited_for()], also that of [ExecedProcess]. *)
Definition set_been_waited_for (this : pid_ref) : M unit :=
  fp ← fork_point_nn this;
  f ← forked fp;
  assertM (negb (been_waited_for_ f)) ≫= fun _ =>
  upd_forked fp (set_been_waited_for_ true) ≫= fun _ =>
  last ← last_exec_descendant fp;
  maybe_finalize last.

(** The loop of [finish()] over one process of the exec chain. *)
Fixpoint mark_orphans (children : list pid_ref) (orphan_found : bool) : M bool :=
  match children with
  | [] => ret orphan_found
  | c :: children =>
      f ← forked c;
      if been_waited_for_ f then mark_orphans children orphan_found
      else
        upd_forked c (set_orphan_ true) ≫= fun _ =>
        last ← last_exec_descendant c;
        maybe_finalize last ≫= fun _ =>
        mark_orphans children true
  end.

Definition finish (this : pid_ref) : M unit :=
  pr ← proc this;
  when (negb (exec_pending_ pr) && negb (has_pending_popen_ pr)) (reset_file_fd_pipe_refs this)
  ≫= fun _ =>
  upd_proc this (set_state_ FB_PROC_TERMINATED) ≫= fun _ =>
  when (bool_decide (exec_child_ pr = None) && negb (exec_pending_ pr))
    (fp ← fork_point_nn this;
     n ← chain_fuel;
     exec_chain n fp (fun curr =>
       cr ← proc curr;
       orphan_found ← mark_orphans (fork_children_ cr) false;
       when orphan_found
         (ep ← exec_point_nn curr;
          my_ep ← exec_point this;
          disable_shortcutting_bubble_up ep "Orphan processes can't be shortcut" my_ep ≫= fun _ =>
          cfp ← fork_point_nn curr;
          set_has_orphan_descendant_bubble_up cfp))) ≫= fun _ =>
  maybe_finalize this.

(** * The process tree (process_tree.{h,cc}) *)

Definition insert_process (p : pid_ref) : M unit :=
  pr ← proc p;
  modify (fun w => set_pid2proc_ (<[pid_ pr := p]> (pid2proc_ w)) w).

Definition insert (p : pid_ref) : M unit :=
  fork_point_nn p ≫= fun _ =>
  ep ← exec_point p;
  root ← gets root_;
  assertM (bool_decide (is_Some ep) || bool_decide (root = Some p)) ≫= fun _ =>
  pr ← proc p;
  when (bool_decide (parent_ pr = None) && negb (bool_decide (root = Some p)))
    (log (EvError "TODO(rbalint) handle: Process without known exec parent" (pid_ pr))) ≫= fun _ =>
  insert_process p.

(** [insert_root(root_pid, stdin_fd, stdout_fd, stderr_fd)]; [stdout_stderr_match] is
    the answer of [fdcmp()], [fd_dup] those of [fcntl(F_DUPFD_CLOEXEC)]. *)
Definition insert_root (root_pid stdin_fd stdout_fd stderr_fd : Z) (stdout_stderr_match : bool)
    (fd_dup : Z -> Z) : M unit :=
  root ← new_ForkedProcess root_pid supervisor_pid None [];
  modify (set_root_ (Some root)) ≫= fun _ =>
  upd_proc root (set_state_ FB_PROC_TERMINATED) ≫= fun _ =>
  f ← new_FileFD_pipe O_RDONLY None None false;
  add_filefd root stdin_fd f ≫= fun _ =>
  mforM [stdout_fd; stderr_fd] (fun fd =>
    if (fd =? stderr_fd) && stdout_stderr_match then
      pr ← proc root;
      fds ← deref (fds_ pr);
      src ← at_fd fds stdout_fd ≫= deref;
      f ← new_FileFD_dup src false;
      add_filefd root fd f
    else
      assertM (negb (fd_dup fd =? -1)) ≫= fun _ =>
      pipe ← gets w_pipe_counter;
      modify (set_w_pipe_counter (S pipe)) ≫= fun _ =>
      log (EvPipeNew pipe (fd_dup fd) None) ≫= fun _ =>
      modify (fun w => set_inherited_fd_pipes_ (inherited_fd_pipes_ w ++ [pipe]) w) ≫= fun _ =>
      f ← new_FileFD_pipe O_WRONLY (Some pipe) None false;
      add_filefd root fd f) ≫= fun _ =>
  insert_process root.

(** Deleting a process and its descendants. *)
Fixpoint delete_process_subtree (fuel : nat) (p : option pid_ref) : M unit :=
  match p with
  | None => ret tt
  | Some p =>
      match fuel with
      | O => out_of_fuel
      | S fuel =>
          pr ← proc p;
          delete_process_subtree fuel (exec_child_ pr) ≫= fun _ =>
          mforM (fork_children_ pr) (fun c => delete_process_subtree fuel (Some c)) ≫= fun _ =>
          match kind_ pr with
          | KExeced _ => log (EvEraseFingerprint p)
          | KForked _ => ret tt
          end ≫= fun _ =>
          match expected_child_ pr with Some e => drop_env e | None => ret tt end ≫= fun _ =>
          match fds_ pr with Some fds => drop_fds fds | None => ret tt end ≫= fun _ =>
          modify (fun w => set_w_procs (delete p (w_procs w)) w)
      end
  end.

(** One round of the loop of [GcProcesses()]. *)
Definition gc_process (have_orphan : bool) (p : pid_ref) : M unit :=
  pr ← proc p;
  (if negb generate_report then
     match parent_ pr with
     | Some q =>
         if negb have_orphan then
           upd_proc q (set_exec_child_ None) ≫= fun _ =>
           n ← chain_fuel; delete_process_subtree n (Some p)
         else
           upd_execed p (fun x => set_libs_ [] (set_env_vars_ [] (set_args_ [] (set_file_usages_ ∅ x))))
     | None =>
         upd_execed p (fun x => set_libs_ [] (set_env_vars_ [] (set_args_ [] (set_file_usages_ ∅ x))))
     end
   else upd_execed p (set_inherited_files_ [])) ≫= fun _ =>
  modify (fun w => set_proc_gc_queue_ (tail (proc_gc_queue_ w)) w).

Definition GcProcesses : M unit :=
  root ← gets root_ ≫= deref;
  f ← forked root;
  queue ← gets proc_gc_queue_;
  mforM queue (gc_process (has_orphan_descendant_ f)).

(** [FinishInheritedFdPipes()]. *)
Definition FinishInheritedFdPipes : M unit :=
  pipes ← gets inherited_fd_pipes_;
  mforM pipes (fun p => log (EvPipeFinish p)) ≫= fun _ =>
  modify (set_inherited_fd_pipes_ []).

(** * SIGCHLD (sigchild_callback.cc) *)

(** A status of [waitpid()]: the exit status, or killed by a signal. *)
Definition WIFEXITED (status : Z) : bool := Z.land status 127 =? 0.
Definition WEXITSTATUS (status : Z) : Z := Z.shiftr (Z.land status 65280) 8.

(** [save_child_status(pid, status, ret, orphan)]: the new value of [*ret]. *)
Definition save_child_status (pid status ret_val : Z) : M Z :=
  if WIFEXITED status then
    p ← gets (fun w => pid2proc_ w !! pid);
    match p with
    | Some p =>
        fp ← fork_point p;
        match fp with
        | Some f => upd_forked f (set_exit_status_ (WEXITSTATUS status))
        | None => ret tt
        end
    | None => ret tt
    end ≫= fun _ =>
    ret (WEXITSTATUS status)
  else ret ret_val.

(** [sigchild_cb()]: [reaped] are the answers of [waitpid(-1, WNOHANG)] with a
    positive pid, [no_children] whether the last answer was an error. *)
Definition sigchild_cb (reaped : list (Z * Z)) (no_children : bool) : M unit :=
  mforM reaped (fun '(pid, status) =>
    if pid =? child_pid then
      p ← gets (fun w => pid2proc_ w !! child_pid) ≫= deref;
      old ← gets child_ret;
      r ← save_child_status pid status old;
      modify (set_child_ret r) ≫= fun _ =>
      set_been_waited_for p
    else
      p ← gets (fun w => pid2proc_ w !! pid);
      match p with
      | Some p => b ← been_waited_for p; assertM (negb b)
      | None => ret tt
      end ≫= fun _ =>
      save_child_status pid status (-1) ≫= fun _ => ret tt) ≫= fun _ =>
  l ← gets listener;
  when (no_children && (0 <? l)) (log EvDelListener ≫= fun _ => modify (set_listener (-1))).

End WithConfig.
