(* ===== verification/Messages.v ===== *)
(** The message processor (message_processor.cc, process_fbb_adaptor.h,
    connection_context.h): accepting new processes, the dispatch of the interceptors'
    messages to the handlers, and the end of a connection.

    The cacher is an interface, [Cacher]: what is relied on of it is stated by
    [CacherOk] where it is needed. *)

From stdpp Require Import base list strings option gmap sets.
From Stdlib Require Import ZArith Lia Ascii.
From S2P Require Import Prelude Base64 Paths FileNames FileUsage Commands World Handlers Lifecycle.

Local Open Scope Z_scope.

(** [execed_process_cacher->fingerprint(proc)] and [->shortcut(proc, &fds_appended_to)]. *)
Class Cacher := {
  fingerprint : pid_ref -> M bool;
  cacher_shortcut : pid_ref -> M (bool * list Z)
}.

(** * Messages *)

Inductive spawn_action :=
| SaOpen (fd : Z) (pathname : cstr) (flags mode : Z)
| SaClose (fd : Z)
| SaClosefrom (lowfd : Z)
| SaDup2 (oldfd newfd : Z)
| SaChdir (pathname : cstr)
| SaFchdir (fd : Z).

(** The messages of a known process, with the fields the supervisor reads; an
    optional field is an [option], and [fallback] gives its default. *)
Inductive ic_msg :=
| Mfork_parent
| Mexec_failed
| Mrusage (utime_u stime_u : Z)
| Msystem (cmd : option cstr)
| Msystem_ret (ret_val : Z)
| Mpopen (cmd : cstr) (type_flags : Z)
| Mpopen_parent (fd : Z)
| Mpopen_failed (cmd : cstr)
| Mpclose (fd ret_val : Z) (error_no : option Z)
| Mposix_spawn (file : cstr) (file_actions : list spawn_action) (arg env : list cstr) (with_p : bool)
| Mposix_spawn_parent (arg : list cstr) (file_actions : list spawn_action) (pid : Z)
| Mposix_spawn_failed (arg : list cstr) (file_actions : list spawn_action)
| Mwait (pid : Z) (wstatus : Z) (si : option (Z * Z))
| Mpipe_request (flags : option Z)
| Mpipe_fds (fd0 fd1 : Z)
| Mexec (file : cstr) (fd : option Z) (arg env : list cstr) (with_p : bool) (utime_u stime_u : Z)
| Mpre_open (dirfd : option Z) (pathname : cstr)
| Mopen (dirfd : option Z) (pathname : cstr) (flags : Z) (mode resolve_flags ret_val error_no : option Z)
    (pre_open_sent : bool) (tmp_file : option bool)
| Mfreopen (pathname : option cstr) (flags : Z) (ret_val error_no : option Z) (pre_open_sent : bool)
| Mdlopen (libs : list cstr) (filename : option cstr) (error : bool)
| Mclose (fd : Z) (error_no : option Z)
| Mclosefrom (lowfd : Z)
| Mclose_range (first last flags : Z) (error_no : option Z)
| Mscandirat (dirfd : option Z) (dirp : option cstr) (error_no : option Z)
| Mtruncate (pathname : cstr) (length : Z) (error_no : option Z)
| Munlink (dirfd : option Z) (pathname : cstr) (flags error_no : option Z) (pre_open_sent : bool)
| Mmkdir (dirfd : option Z) (pathname : cstr) (error_no : option Z) (tmp_dir : option bool)
| Mrmdir (pathname : cstr) (error_no : option Z) (pre_open_sent : bool)
| Mdup3 (oldfd newfd : Z) (flags error_no : option Z)
| Mdup (oldfd ret_val : Z) (error_no : option Z)
| Mrename (olddirfd : option Z) (oldpath : cstr) (newdirfd : option Z) (newpath : cstr)
    (error_no : option Z)
| Msymlink (target : cstr) (newdirfd : option Z) (newpath : cstr) (error_no : option Z)
| Mfcntl (fd cmd : Z) (arg ret_val error_no : option Z)
| Mioctl (fd cmd : Z) (ret_val error_no : option Z)
| Mumask (mask ret_val : Z)
| Mchdir (pathname : cstr) (error_no : option Z)
| Mfchdir (fd : Z) (error_no : option Z)
| Mread_from_inherited (fd : Z) (is_pread : bool)
| Mwrite_to_inherited (fd : Z) (is_pwrite : bool)
| Mseek_in_inherited (fd : Z) (modify_offset : bool)
| Minherited_fd_offset (fd offset : Z)
| Mrecvmsg_scm_rights (cloexec : bool) (fds : list Z)
| Mlink
| Mfstatat (fd : option Z) (pathname : option cstr) (flags st_mode st_size st_mtim_sec st_mtim_nsec
    error_no : option Z)
| Mfaccessat (dirfd : option Z) (pathname : cstr) (mode : Z) (flags error_no : option Z)
| Mfchmodat (fd : option Z) (pathname : option cstr) (mode : Z) (flags error_no : option Z)
| Mshm_open (ret_val error_no : option Z)
| Mmemfd_create (flags ret_val : Z)
| Mtimerfd_create (flags ret_val : Z)
| Mepoll_create (flags : option Z) (ret_val : Z)
| Meventfd (flags ret_val : Z)
| Msignalfd (fd flags ret_val : Z)
| Mgetrandom (flags : option Z)
| Mfutime (fd : Z) (all_utime_now : bool) (mtim : option (Z * Z)) (error_no : option Z)
| Mutime (pathname : option cstr) (all_utime_now : bool) (mtim : option (Z * Z)) (error_no : option Z)
| Mclock_gettime
| Mclone
| Msocket (type : Z) (ret_val error_no : option Z)
| Msocketpair (type : Z) (fd0 fd1 error_no : option Z)
| Mmkfifo (pathname : cstr) (mode : Z) (error_no : option Z)
| Mconnect (sockfd : Z) (addr : option cstr) (error_no : option Z)
| Mbind (error_no : option Z)
| Mstatfs (pathname : option cstr) (error_no : option Z)
| Mmktemp (template : cstr)
| Mgethostname
| Mseccomp
| Mmac_syscall
| Mrlimit (error_no : option Z)
| Mignored                      (* fb_debug, fb_error, fchownat, ..., sysconf *)
| Mgen_call (call : cstr) (error_no : option Z).

(** The first message of a connection. *)
Inductive new_process_msg :=
| Mscproc_query (q : scproc_query)
| Mfork_child (pid ppid : Z).

Definition fallback {A} (d : A) (o : option A) : A := default d o.
Definition GRND_RANDOM := 2.
Definition CLD_EXITED := 1.
Definition STDIN_FILENO := 0.
Definition STDOUT_FILENO := 1.

Section WithConfig.
Context {C : Config} {S0 : Sys} {K : Cacher}.

(** * Answers *)

Definition reject_exec_child (fd_conn : Z) : M unit :=
  log (EvScprocResp fd_conn (mkResp true false None [] [] []) []).

Definition send_maybe_rewritten_cmd (fd_conn : Z) (executable : option cstr) (args : list cstr)
    : M unit :=
  r ← lift (CommandRewriter.maybe_rewrite dont_shortcut_matcher qemu_user sys_is_static executable
              args);
  path ← if CommandRewriter.rewritten_executable r
         then e ← deref (CommandRewriter.rw_executable r); ret (Some e) else ret None;
  log (EvRewrittenArgs fd_conn path
         (if CommandRewriter.rewritten_args r then Some (CommandRewriter.rw_args r) else None)).

(** * Accepting an exec()-ed process *)

(** [ExeMatcher::match(proc)]. *)
Definition match_proc (m : ExeMatcher.t) (p : pid_ref) : M bool :=
  x ← execed p;
  ret (ExeMatcher.match_files m (executable_ x) (Some (executed_path_ x)) (default [] (head (args_ x)))).

(** Which executables may be shortcut: the part of [accept_exec_child()] before the
    fingerprint; whether the process must not be intercepted. *)
Definition apply_matchers (this : pid_ref) : M bool :=
  match shortcut_allow_list_matcher with
  | Some m =>
      b ← match_proc m this;
      when (negb b)
        (disable_shortcutting_only_this this "Executable is not allowed to be shortcut" None
         ≫= fun _ => log EvNotShortcutting)
  | None => ret tt
  end ≫= fun _ =>
  dont_intercept ← match_proc dont_intercept_matcher this;
  (if dont_intercept : bool then
     disable_shortcutting_bubble_up this "Executable set to not be intercepted" None ≫= fun _ =>
     log EvNotShortcutting
   else
     dont ← match_proc dont_shortcut_matcher this;
     when dont
       (x ← execed this;
        pe ← parent_exec_point this;
        quirk ← match pe with
                | Some q =>
                    xq ← execed q;
                    ret (quirk_lto_wrapper && bool_decide (head (args_ x) = Some (cs "make"))
                         && bool_decide (FileName.without_dirs (executable_ xq) = cs "lto-wrapper"))
                | None => ret false
                end;
        when (negb quirk)
          (disable_shortcutting_bubble_up this "Executable set to be not shortcut" None ≫= fun _ =>
           log EvNotShortcutting))) ≫= fun _ =>
  skip ← match_proc skip_cache_matcher this;
  when skip
    (disable_shortcutting_only_this this "Executable matches skip_cache" None ≫= fun _ =>
     log EvNotShortcutting) ≫= fun _ =>
  ret dont_intercept.

(** [ExecedProcess::shortcut(fds_appended_to)]. *)
Definition shortcut (this : pid_ref) : M (bool * list Z) :=
  b ← can_shortcut this;
  if b : bool then cacher_shortcut this else ret (false, []).

(** Replace a descriptor by a new one; the old one is destroyed. *)
Definition replace_fd (this : pid_ref) (fd : Z) (f : FileFD) : M unit :=
  pr ← proc this;
  fds ← deref (fds_ pr);
  old ← at_fd fds fd;
  set_fd_slot this fd (Some f) ≫= fun _ =>
  match old with Some o => drop_FileFD o | None => ret tt end.

(** The lists that [accept_exec_child()] builds up for the answer. *)
Record reopened := mkReopened {
  ro_fifo_fds : list Z;
  ro_reopened_dups : list (list Z);
  ro_seekable : list (Z * Z)
}.

(** Reopening one inherited outgoing pipe: the file with its new recorder.  The first
    two answers of [pipe2()] are those of [accept_popen_child()]. *)
Definition reopen_pipe (this : pid_ref) (i : inherited_file_t) (acc : reopened)
    : M (inherited_file_t * reopened) :=
  fd0 ← deref (head (if_fds i));
  x ← execed this;
  if (fd0 =? jobserver_fd_w_ x) && (length (if_fds i) =? 1)%nat then ret (i, acc)
  else
    old ← get_fd this fd0 ≫= deref;
    pipe ← deref (pipe_ old);
    if sys_pipe_finished pipe then ret (i, acc)
    else
      ofd ← ofd_of old;
      f ← new_FileFD_pipe (flags_ ofd) (Some pipe) (opened_by_ ofd) false;
      set_fd_slot this fd0 (Some f) ≫= fun _ =>
      mforM (tail (if_fds i)) (fun fd =>
        d ← new_FileFD_dup f false; replace_fd this fd d) ≫= fun _ =>
      match sys_pipe2 (2 + length (ro_fifo_fds acc)) with
      | inl _ => abortM
      | inr (fifo0, fifo1) =>
          let fifo0 := default fifo0 (sys_remap fifo0) in
          log (EvBumpFdAge fifo0) ≫= fun _ =>
          log (EvSetNonblock fifo0 O_NONBLOCK) ≫= fun _ =>
          pr ← proc this;
          parent ← match parent_ pr with Some _ => parent_exec_point this | None => ret None end;
          x ← execed this;
          recorder ← if can_shortcut_ x then
                       r ← gets w_recorder_counter;
                       modify (set_w_recorder_counter (S r)) ≫= fun _ => ret (Some r)
                     else ret None;
          log (EvPipeReopen pipe fifo0 (ffd_id f) this parent recorder) ≫= fun _ =>
          drop_FileFD old ≫= fun _ =>
          ret (mkInherited (if_type i) (if_fds i)
                 (match recorder with Some _ => recorder | None => if_recorder i end)
                 (if_filename i) (if_flags i) (if_start_offset i),
               mkReopened (ro_fifo_fds acc ++ [fifo1]) (ro_reopened_dups acc ++ [if_fds i])
                 (ro_seekable acc))
      end.

Fixpoint reopen_files (this : pid_ref) (l : list inherited_file_t) (acc : reopened)
    : M (list inherited_file_t * reopened) :=
  match l with
  | [] => ret ([], acc)
  | i :: l =>
      '(i', acc) ←
        (if bool_decide (if_type i = FD_PIPE_OUT) then reopen_pipe this i acc
         else if bool_decide (if_type i = FD_FILE) then
           fd ← deref (head (if_fds i));
           f ← get_fd this fd ≫= deref;
           ofd ← ofd_of f;
           ret (i, if has (flags_ ofd) O_APPEND then acc
                   else mkReopened (ro_fifo_fds acc) (ro_reopened_dups acc)
                          (ro_seekable acc ++ [(fd, if_start_offset i)]))
         else ret (i, acc));
      '(l', acc) ← reopen_files this l acc;
      ret (i' :: l', acc)
  end.

(** [MessageProcessor::accept_exec_child(proc, fd_conn, fd0_reopen)]. *)
Definition accept_exec_child (this : pid_ref) (fd_conn fd0_reopen : Z) : M unit :=
  insert this ≫= fun _ =>
  initialize this ≫= fun _ =>
  dont_intercept ← apply_matchers this;
  can ← can_shortcut this;
  when can
    (ok ← fingerprint this;
     when (negb ok) (disable_shortcutting_bubble_up this "Could not fingerprint the process" None))
  ≫= fun _ =>
  x ← execed this;
  let inherited_files := inherited_files_ x in
  mforM inherited_files (fun i =>
    when (bool_decide (if_type i = FD_PIPE_OUT))
      (fd0 ← deref (head (if_fds i));
       f ← get_fd this fd0 ≫= deref;
       pipe ← deref (pipe_ f);
       log (EvPipeDrainAll pipe))) ≫= fun _ =>
  '(shortcutting_succeeded, fds_appended_to) ← shortcut this;
  '(resp, fifo_fds) ←
    (if shortcutting_succeeded : bool then
       fp ← fork_point_nn this;
       f ← forked fp;
       when (0 <=? fd0_reopen) (log (EvClose fd0_reopen)) ≫= fun _ =>
       ret (mkResp dont_intercept true (Some (exit_status_ f)) fds_appended_to [] [], [])
     else
       let acc := if 0 <=? fd0_reopen then mkReopened [fd0_reopen] [[STDIN_FILENO]] []
                  else mkReopened [] [] [] in
       '(files, acc) ← reopen_files this inherited_files acc;
       upd_execed this (set_inherited_files_ files) ≫= fun _ =>
       ret (mkResp dont_intercept false None [] (ro_seekable acc) (ro_reopened_dups acc),
            ro_fifo_fds acc));
  log (EvScprocResp fd_conn resp fifo_fds) ≫= fun _ =>
  mforM fifo_fds (fun fd => log (EvClose fd)).

(** * Accepting a popen()-ed and a fork()-ed process *)

(** [AddPopenedProcess(fd, proc)] and [PopPopenedProcess(fd)]. *)
Definition AddPopenedProcess (this : pid_ref) (fd : Z) (p : pid_ref) : M unit :=
  upd_proc this (fun pr => set_fd2popen_child_ (<[fd := p]> (fd2popen_child_ pr)) pr).
Definition PopPopenedProcess (this : pid_ref) (fd : Z) : M pid_ref :=
  pr ← proc this;
  p ← deref (fd2popen_child_ pr !! fd);
  upd_proc this (fun pr => set_fd2popen_child_ (delete fd (fd2popen_child_ pr)) pr) ≫= fun _ =>
  ret p.

(** The [n]-th [fb_pipe2()] of a message; failing is an assertion. *)
Definition popen_pipe (n : nat) : M (Z * Z) :=
  match sys_pipe2 n with inr p => ret p | inl _ => abortM end.

Definition set_nonblock (flags fd : Z) : M unit :=
  when (negb (has flags O_NONBLOCK)) (log (EvSetNonblock fd (Z.lor flags O_NONBLOCK))).

Definition new_pipe (fd : Z) (creator : pid_ref) : M nat :=
  pipe ← gets w_pipe_counter;
  modify (set_w_pipe_counter (S pipe)) ≫= fun _ =>
  log (EvPipeNew pipe fd (Some creator)) ≫= fun _ => ret pipe.

Definition accept_popen_child (unix_parent : pid_ref) (pending : pending_popen_t) : M unit :=
  this ← deref (po_child pending);
  AddPopenedProcess unix_parent (po_fd pending) this ≫= fun _ =>
  let flags := po_type_flags pending in
  let base := Z.ldiff flags O_ACCMODE in
  '(fd_send_to_parent, fd0_reopen) ←
    (if is_rdonly flags then
       '(down0, down1) ← popen_pipe 0;
       log (EvBumpFdAge down0) ≫= fun _ =>
       log (EvBumpFdAge down1) ≫= fun _ =>
       set_nonblock flags down1 ≫= fun _ =>
       pipe ← new_pipe down1 unix_parent;
       ffd0 ← new_FileFD_pipe (Z.lor base O_RDONLY) (Some pipe) (Some unix_parent) true;
       add_filefd unix_parent (po_fd pending) ffd0 ≫= fun _ =>
       ffd1 ← new_FileFD_pipe (Z.lor base O_WRONLY) (Some pipe) (Some unix_parent) false;
       add_filefd this STDOUT_FILENO ffd1 ≫= fun _ =>
       ret (down0, -1)
     else
       '(up0, up1) ← popen_pipe 0;
       '(down0, down1) ← popen_pipe 1;
       let up0 := default up0 (sys_remap up0) in
       mforM [up0; up1; down0; down1] (fun fd => log (EvBumpFdAge fd)) ≫= fun _ =>
       set_nonblock flags up0 ≫= fun _ =>
       set_nonblock flags down1 ≫= fun _ =>
       pipe ← new_pipe down1 unix_parent;
       ffd0 ← new_FileFD_pipe (Z.lor base O_RDONLY) (Some pipe) (Some unix_parent) false;
       add_filefd this STDIN_FILENO ffd0 ≫= fun _ =>
       ffd1 ← new_FileFD_pipe (Z.lor base O_WRONLY) (Some pipe) (Some unix_parent) true;
       add_filefd unix_parent (po_fd pending) ffd1 ≫= fun _ =>
       log (EvPipeReopen pipe up0 (ffd_id ffd1) this None None) ≫= fun _ =>
       ret (up1, down0));
  log (EvPopenFd (po_parent_conn pending) (po_ack_num pending) fd_send_to_parent) ≫= fun _ =>
  log (EvClose fd_send_to_parent) ≫= fun _ =>
  accept_exec_child this (po_child_conn pending) fd0_reopen ≫= fun _ =>
  modify (fun w => set_proc2pending_popen_ (delete unix_parent (proc2pending_popen_ w)) w) ≫= fun _ =>
  upd_proc unix_parent (set_has_pending_popen_ false).

(** [*child_ref = proc]: the connection the process belongs to. *)
Definition set_conn (conn : Z) (p : pid_ref) : M unit :=
  (gets (fun w => w_conns w !! conn) ≫= deref) ≫= fun _ =>
  modify (fun w => set_w_conns (<[conn := Some p]> (w_conns w)) w).

Definition accept_fork_child (parent : pid_ref) (parent_fd parent_ack child_ref pid child_fd
    child_ack : Z) : M unit :=
  p ← getForkedProcess pid parent;
  insert p ≫= fun _ =>
  set_conn child_ref p ≫= fun _ =>
  log (EvAck parent_fd parent_ack) ≫= fun _ =>
  log (EvAck child_fd child_ack).

(** * New connections *)

Definition pid2proc (pid : Z) : M (option pid_ref) := gets (fun w => pid2proc_ w !! pid).

(** [close_on_popen] descriptors are not inherited by a popen()-ed child. *)
Definition close_popen_fds (this : pid_ref) (type_flags : Z) : M unit :=
  handle_force_close this (if is_wronly type_flags then STDIN_FILENO else STDOUT_FILENO) ≫= fun _ =>
  pr ← proc this;
  fds ← deref (fds_ pr);
  mforM (seq 0 (length fds)) (fun i =>
    f ← get_fd this (Z.of_nat i);
    match f with
    | Some f => when (close_on_popen_ f) (handle_close this (Z.of_nat i) 0 ≫= fun _ => ret tt)
    | None => ret tt
    end).

(** [proc_new_process_msg()] for "scproc_query". *)
Definition new_execed (q : scproc_query) (fd_conn : Z) : M unit :=
  match sq_version q with
  | Some v => assertM (bool_decide (v = FIREBUILD_VERSION))
  | None => ret tt
  end ≫= fun _ =>
  let accept parent fds unix_parent launch_type :=
    p ← getExecedProcess q (Some parent) (Some fds);
    match launch_type, unix_parent with
    | LAUNCH_TYPE_SYSTEM, Some up =>
        upd_proc up (set_system_child_ (Some p)) ≫= fun _ =>
        accept_exec_child p fd_conn (-1) ≫= fun _ => set_conn fd_conn p
    | LAUNCH_TYPE_POPEN, Some up =>
        pending ← gets (fun w => proc2pending_popen_ w !! up) ≫= deref;
        assertM (bool_decide (po_child pending = None)) ≫= fun _ =>
        let pending := mkPendingPopen (po_type_flags pending) (Some p) fd_conn
                         (po_parent_conn pending) (po_ack_num pending) (po_fd pending) in
        modify (fun w => set_proc2pending_popen_ (<[up := pending]> (proc2pending_popen_ w)) w)
        ≫= fun _ =>
        when (0 <=? po_fd pending) (accept_popen_child up pending) ≫= fun _ =>
        set_conn fd_conn p
    | _, _ => accept_exec_child p fd_conn (-1) ≫= fun _ => set_conn fd_conn p
    end in
  parent ← pid2proc (sq_pid q);
  match parent with
  | Some parent =>
      pr ← proc parent;
      assertM (negb (bool_decide (state_ pr = FB_PROC_FINALIZED))) ≫= fun _ =>
      qemu ← if bool_decide (state_ pr = FB_PROC_TERMINATED) then ret true else is_qemu parent;
      if qemu : bool then
        fds ← pass_on_fds parent true;
        accept parent fds None LAUNCH_TYPE_OTHER
      else
        p ← getExecedProcess q (Some parent) (Some []);
        modify (fun w => set_pid2exec_child_sock_
                  (<[pid_ pr := mkExecChildSock fd_conn p]> (pid2exec_child_sock_ w)) w) ≫= fun _ =>
        set_conn fd_conn p
  | None =>
      if sq_ppid q =? supervisor_pid then
        root ← gets root_ ≫= deref;
        fds ← pass_on_fds root true;
        accept root fds None LAUNCH_TYPE_OTHER
      else
        unix_parent ← pid2proc (sq_ppid q);
        match unix_parent with
        | None => reject_exec_child fd_conn
        | Some up =>
            popped ← pop_expected_child_fds up (sq_arg q) false;
            let '(fds, launch_type, type_flags) := default ([], LAUNCH_TYPE_OTHER, 0) popped in
            upr ← proc up;
            if posix_spawn_pending_ upr then
              p ← getExecedProcess q None None;
              modify (fun w => set_pid2posix_spawn_child_sock_
                        (<[sq_ppid q := mkExecChildSock fd_conn p]> (pid2posix_spawn_child_sock_ w)) w)
              ≫= fun _ =>
              set_conn fd_conn p ≫= fun _ =>
              drop_fds fds
            else
              parent ← new_ForkedProcess (sq_pid q) (sq_ppid q) (Some up) fds;
              when (bool_decide (launch_type = LAUNCH_TYPE_POPEN)) (close_popen_fds parent type_flags)
              ≫= fun _ =>
              fds ← pass_on_fds parent true;
              upd_proc parent (set_state_ FB_PROC_TERMINATED) ≫= fun _ =>
              insert parent ≫= fun _ =>
              when (bool_decide (launch_type = LAUNCH_TYPE_POSIX_SPAWN))
                (ack ← gets (fun w => ppid2pending_parent_ack_ w !! pid_ upr);
                 match ack with
                 | Some a =>
                     log (EvAck (ppa_sock a) (ppa_ack_num a)) ≫= fun _ =>
                     modify (fun w => set_ppid2pending_parent_ack_
                               (delete (pid_ upr) (ppid2pending_parent_ack_ w)) w)
                 | None => ret tt
                 end) ≫= fun _ =>
              accept parent fds (Some up) launch_type
        end
  end.

(** [proc_new_process_msg()] for "fork_child". *)
Definition new_forked (pid ppid fd_conn ack_id : Z) : M unit :=
  pending ← gets (fun w => ppid2pending_parent_ack_ w !! ppid);
  match pending with
  | None =>
      queued ← gets (fun w => ppid2fork_child_sock_ w !! ppid);
      assertM (negb (bool_decide (is_Some queued))) ≫= fun _ =>
      modify (fun w => set_ppid2fork_child_sock_
                (<[ppid := mkForkChildSock fd_conn pid ack_id fd_conn]> (ppid2fork_child_sock_ w)) w)
  | Some a =>
      pproc ← pid2proc ppid ≫= deref;
      accept_fork_child pproc (ppa_sock a) (ppa_ack_num a) fd_conn pid fd_conn ack_id ≫= fun _ =>
      modify (fun w => set_ppid2pending_parent_ack_ (delete ppid (ppid2pending_parent_ack_ w)) w)
  end.

Definition proc_new_process_msg (msg : new_process_msg) (ack_id fd_conn : Z) : M unit :=
  match msg with
  | Mscproc_query q => new_execed q fd_conn
  | Mfork_child pid ppid => new_forked pid ppid fd_conn ack_id
  end.

(** * posix_spawn() *)

Definition posix_spawn_preopen_files (this : pid_ref) (actions : list spawn_action) : M unit :=
  mforM actions (fun a =>
    match a with
    | SaOpen _ pathname flags _ =>
        when (is_write flags)
          (name ← get_absolute this AT_FDCWD pathname;
           match name with
           | Some n => ep ← exec_point this; open_for_writing n ep
           | None => ret tt
           end)
    | _ => ret tt
    end).

Definition posix_spawn_unopen_files (this : pid_ref) (actions : list spawn_action) : M unit :=
  mforM actions (fun a =>
    match a with
    | SaOpen _ pathname flags _ =>
        when (is_write flags)
          (name ← get_absolute this AT_FDCWD pathname;
           match name with Some n => close_for_writing n | None => ret tt end)
    | _ => ret tt
    end).

Definition process_posix_spawn_file_actions (this : pid_ref) (actions : list spawn_action) : M unit :=
  mforM actions (fun a =>
    match a with
    | SaOpen fd pathname flags mode =>
        handle_force_close this fd ≫= fun _ =>
        handle_open this AT_FDCWD pathname flags mode false 0 fd 0 (-1) 0 (is_write flags) false
        ≫= fun _ => ret tt
    | SaClose fd => handle_force_close this fd ≫= fun _ => ret tt
    | SaClosefrom lowfd => handle_closefrom this lowfd ≫= fun _ => ret tt
    | SaDup2 oldfd newfd =>
        (if oldfd =? newfd then handle_clear_cloexec this oldfd else handle_dup3 this oldfd newfd 0 0)
        ≫= fun _ => ret tt
    | SaChdir pathname => handle_set_wd this pathname
    | SaFchdir fd => handle_set_fwd this fd
    end).

(** [resolve_command_from_msg(ic_msg, command, command_len, proc)]. *)
Definition resolve_command_from_msg (this : pid_ref) (command : cstr) (with_p : bool) (env_vars : list cstr)
    : M (option cstr) :=
  if with_p then
    pr ← proc this;
    if bool_decide (slash ∈ command)
    then n ← lift (FileName.GetCanonicalized command (wd_ pr)); ret (Some n)
    else
      E ← env;
      '(result, checked, checked_is_dir) ←
        lift (Resolve.resolve_command E command (get_var env_vars (cs "PATH")) (Some (wd_ pr)));
      ep ← exec_point this;
      match ep with
      | Some e =>
          mforM checked (fun n =>
            u ← new_update n FileInfo.NOTEXIST false false;
            register_file_usage_update e n u ≫= fun _ => ret tt) ≫= fun _ =>
          mforM checked_is_dir (fun n =>
            u ← new_update n FileInfo.ISDIR false false;
            register_file_usage_update e n u ≫= fun _ => ret tt)
      | None => ret tt
      end ≫= fun _ =>
      ret result
  else get_absolute this AT_FDCWD command.

(** * Waiting for children *)

(** The end of "system_ret", "pclose" and "wait": record the status, and tell whether
    the parent can be acknowledged now. *)
Definition child_waited (child : pid_ref) (exit_status : option Z) (reason : string)
    (ack_num fd_conn : Z) : M bool :=
  fp ← fork_point_nn child;
  match exit_status with
  | None =>
      ep ← exec_point_nn child;
      stop ← exec_point fp;
      disable_shortcutting_bubble_up_to_excl ep stop reason None
  | Some s => upd_forked fp (set_exit_status_ s)
  end ≫= fun _ =>
  set_been_waited_for child ≫= fun _ =>
  cpr ← proc child;
  if exec_pending_ cpr then
    maybe_finalize_with_missed_static_exec_child child ≫= fun _ => ret true
  else
    fp ← fork_point_nn child;
    can ← can_ack_parent_wait fp;
    if can : bool then ret true
    else set_on_finalized_ack child ack_num fd_conn ≫= fun _ => ret false.

(** The exit status in the value returned by [system()] or [pclose()]. *)
Definition status_of_ret (ret_val : Z) : option Z :=
  if (ret_val =? -1) || negb (WIFEXITED ret_val) then None else Some (WEXITSTATUS ret_val).

(** * The dispatch *)

(** [ack_num] of the message, unless the handler has dealt with it. *)
Definition done_ : M bool := ret true.
Definition no_ack : M bool := ret false.

(** The timestamps of a file were set to those of a file the process has seen. *)
Definition touch_r (this : pid_ref) (target : option cstr) (source : cstr) (reason : string) : M unit :=
  match target with
  | Some name =>
      update ← new_update name FileInfo.DONTKNOW true false;
      ep ← exec_point_nn this;
      register_file_usage_update ep name
        (FileUsageUpdate.set_timestamp_source (Some source) update) ≫= fun _ => ret tt
  | None => disable_here this reason
  end.

(** Whether the call copies a timestamp that was seen by [stat()]. *)
Definition touch_source (this : pid_ref) (all_utime_now : bool) (mtim : option (Z * Z))
    (error_no : option Z) : M (option cstr) :=
  match error_no, all_utime_now, mtim with
  | None, false, Some (sec, nsec) => is_touch_r_operation this sec nsec
  | _, _, _ => ret None
  end.

(** The process life cycle messages; the result tells whether the common ACK at the end
    is to be sent. *)
Definition lifecycle_msg (this : pid_ref) (msg : ic_msg) (ack_num fd_conn : Z) : M bool :=
  pr ← proc this;
  match msg with
  | Mfork_parent =>
      sock ← gets (fun w => ppid2fork_child_sock_ w !! pid_ pr);
      match sock with
      | None =>
          old ← gets (fun w => ppid2pending_parent_ack_ w !! pid_ pr);
          assertM (negb (bool_decide (is_Some old))) ≫= fun _ =>
          modify (fun w => set_ppid2pending_parent_ack_
                    (<[pid_ pr := mkParentAck ack_num fd_conn]> (ppid2pending_parent_ack_ w)) w)
          ≫= fun _ => no_ack
      | Some s =>
          accept_fork_child this fd_conn ack_num (fcs_fork_child_ref s) (fcs_child_pid s) (fcs_sock s)
            (fcs_ack_num s) ≫= fun _ =>
          modify (fun w => set_ppid2fork_child_sock_ (delete (pid_ pr) (ppid2fork_child_sock_ w)) w)
          ≫= fun _ => no_ack
      end
  | Mexec_failed => upd_proc this (set_exec_pending_ false) ≫= fun _ => done_
  | Mrusage utime_u stime_u => resource_usage this utime_u stime_u ≫= fun _ => done_
  | Msystem cmd =>
      assertM (bool_decide (system_child_ pr = None)) ≫= fun _ =>
      fds ← pass_on_fds this false;
      let e := mkEnv [] LAUNCH_TYPE_SYSTEM 0 (Some fds) in
      set_expected_child this (match cmd with Some c => set_sh_c_command c e | None => e end)
      ≫= fun _ => done_
  | Msystem_ret ret_val =>
      child ← deref (system_child_ pr);
      ack ← child_waited child (status_of_ret ret_val)
              "Process started by system() exited abnormally or the exit status could not be collected"
              ack_num fd_conn;
      upd_proc this (set_system_child_ None) ≫= fun _ => ret ack
  | Mpopen cmd type_flags =>
      old ← gets (fun w => proc2pending_popen_ w !! this);
      assertM (negb (bool_decide (is_Some old))) ≫= fun _ =>
      fds ← pass_on_fds this false;
      set_expected_child this
        (set_sh_c_command cmd (mkEnv [] LAUNCH_TYPE_POPEN type_flags (Some fds))) ≫= fun _ =>
      modify (fun w => set_proc2pending_popen_
                (<[this := mkPendingPopen type_flags None (-1) (-1) 0 (-1)]> (proc2pending_popen_ w)) w)
      ≫= fun _ =>
      upd_proc this (set_has_pending_popen_ true) ≫= fun _ => done_
  | Mpopen_parent fd =>
      pending ← gets (fun w => proc2pending_popen_ w !! this) ≫= deref;
      assertM (po_fd pending =? -1) ≫= fun _ =>
      let pending := mkPendingPopen (po_type_flags pending) (po_child pending) (po_child_conn pending)
                       fd_conn ack_num fd in
      modify (fun w => set_proc2pending_popen_ (<[this := pending]> (proc2pending_popen_ w)) w)
      ≫= fun _ =>
      when (bool_decide (is_Some (po_child pending))) (accept_popen_child this pending) ≫= fun _ =>
      no_ack
  | Mpopen_failed cmd =>
      r ← pop_expected_child_fds this [cs "sh"; cs "-c"; cs "--"; cmd] true;
      match r with Some (fds, _, _) => drop_fds fds | None => ret tt end ≫= fun _ => done_
  | Mpclose fd ret_val error_no =>
      match error_no with
      | None =>
          child ← PopPopenedProcess this fd;
          child_waited child (status_of_ret ret_val)
            "Process started by popen() exited abnormally or the exit status could not be collected"
            ack_num fd_conn
      | Some _ => done_
      end
  | Mposix_spawn file file_actions arg env_vars with_p =>
      fds ← pass_on_fds this false;
      set_expected_child this (mkEnv arg LAUNCH_TYPE_POSIX_SPAWN 0 (Some fds)) ≫= fun _ =>
      upd_proc this (set_posix_spawn_pending_ true) ≫= fun _ =>
      posix_spawn_preopen_files this file_actions ≫= fun _ =>
      executable ← resolve_command_from_msg this file with_p env_vars;
      send_maybe_rewritten_cmd fd_conn executable arg ≫= fun _ => no_ack
  | Mposix_spawn_parent arg file_actions pid =>
      fork_child ← getForkedProcess pid this;
      insert fork_child ≫= fun _ =>
      process_posix_spawn_file_actions fork_child file_actions ≫= fun _ =>
      upd_proc this (set_posix_spawn_pending_ false) ≫= fun _ =>
      sock ← gets (fun w => pid2posix_spawn_child_sock_ w !! pid_ pr);
      match sock with
      | Some s =>
          let child := ecs_incomplete_child s in
          upd_proc fork_child (set_exec_child_ (Some child)) ≫= fun _ =>
          set_parent child fork_child ≫= fun _ =>
          fds ← pass_on_fds fork_child true;
          upd_proc child (set_fds_ (Some fds)) ≫= fun _ =>
          accept_exec_child child (ecs_sock s) (-1) ≫= fun _ =>
          modify (fun w => set_pid2posix_spawn_child_sock_
                    (delete (pid_ pr) (pid2posix_spawn_child_sock_ w)) w)
      | None =>
          r ← pop_expected_child_fds this arg false;
          match r with Some (fds, _, _) => drop_fds fds | None => ret tt end ≫= fun _ =>
          upd_proc fork_child (set_exec_pending_ true)
      end ≫= fun _ =>
      upd_proc fork_child (set_state_ FB_PROC_TERMINATED) ≫= fun _ => done_
  | Mposix_spawn_failed arg file_actions =>
      r ← pop_expected_child_fds this arg true;
      match r with Some (fds, _, _) => drop_fds fds | None => ret tt end ≫= fun _ =>
      upd_proc this (set_posix_spawn_pending_ false) ≫= fun _ =>
      posix_spawn_unopen_files this file_actions ≫= fun _ => done_
  | Mwait pid wstatus si =>
      child ← pid2proc pid ≫= deref;
      let status :=
        match si with
        | Some (si_code, si_status) => if si_code =? CLD_EXITED then Some si_status else None
        | None => if WIFEXITED wstatus then Some (WEXITSTATUS wstatus) else None
        end in
      child_waited child status "Process exited abnormally" ack_num fd_conn
  | Mexec file fd arg env_vars with_p utime_u stime_u =>
      update_rusage this utime_u stime_u ≫= fun _ =>
      upd_proc this (set_exec_pending_ true) ≫= fun _ =>
      executable ←
        match fd with
        | Some fd =>
            f ← if fd =? -1 then ret None else get_fd this fd;
            name ← match f with Some f => ofd ← ofd_of f; ret (filename_ ofd) | None => ret None end;
            n ← deref name; ret (Some n)
        | None => resolve_command_from_msg this file with_p env_vars
        end;
      send_maybe_rewritten_cmd fd_conn executable arg ≫= fun _ => no_ack
  | _ => abortM
  end.

(** [ProcessFBBAdaptor::handle()]: the fields of a message become the arguments of a
    handler.  An omitted pointer that the handler would dereference aborts. *)
Definition err (error_no : option Z) : Z := fallback 0 error_no.
Definition no_name (n : option cstr) (needed : bool) : M cstr :=
  if needed then deref n else ret (default [] n).

Definition handle_syscall (this : pid_ref) (msg : ic_msg) (ack_num fd_conn : Z) : M Z :=
  let unit_ m := m ≫= fun _ : unit => ret 0 in
  match msg with
  | Mpre_open dirfd n => handle_pre_open this (fallback AT_FDCWD dirfd) n
  | Mopen dirfd n flags mode resolve_flags ret_val error_no pre_open_sent tmp_file =>
      handle_open this (fallback AT_FDCWD dirfd) n flags (fallback 0 mode)
        (bool_decide (is_Some resolve_flags)) (fallback 0 resolve_flags) (fallback (-1) ret_val)
        (err error_no) fd_conn ack_num pre_open_sent (fallback false tmp_file)
  | Mfreopen n flags ret_val error_no pre_open_sent =>
      let oldfd := fallback (-1) ret_val in
      handle_freopen this n flags oldfd (fallback (-1) ret_val) (err error_no) fd_conn ack_num
        pre_open_sent
  | Mdlopen libs filename error =>
      n ← no_name filename error; handle_dlopen this libs n error fd_conn ack_num
  | Mclose fd error_no => handle_close this fd (err error_no)
  | Mclosefrom lowfd => handle_closefrom this lowfd
  | Mclose_range first last flags error_no => handle_close_range this first last flags (err error_no)
  | Mscandirat dirfd dirp error_no =>
      n ← no_name dirp ((err error_no =? 0) || (err error_no =? ENOENT));
      handle_scandirat this (fallback AT_FDCWD dirfd) n (err error_no)
  | Mtruncate n length error_no => handle_truncate this n length (err error_no)
  | Munlink dirfd n flags error_no pre_open_sent =>
      handle_unlink this (fallback AT_FDCWD dirfd) n (fallback 0 flags) (err error_no) pre_open_sent
  | Mmkdir dirfd n error_no tmp_dir =>
      handle_mkdir this (fallback AT_FDCWD dirfd) n (err error_no) (fallback false tmp_dir)
  | Mrmdir n error_no pre_open_sent => handle_rmdir this n (err error_no) pre_open_sent
  | Mdup3 oldfd newfd flags error_no =>
      handle_dup3 this oldfd newfd (fallback 0 flags) (err error_no)
  | Mdup oldfd ret_val error_no => handle_dup3 this oldfd ret_val 0 (err error_no)
  | Mrename olddirfd oldpath newdirfd newpath error_no =>
      handle_rename this (fallback AT_FDCWD olddirfd) oldpath (fallback AT_FDCWD newdirfd) newpath
        (err error_no)
  | Msymlink target newdirfd newpath error_no =>
      handle_symlink this target (fallback AT_FDCWD newdirfd) newpath (err error_no)
  | Mfcntl fd cmd arg ret_val error_no =>
      handle_fcntl this fd cmd (fallback 0 arg) (fallback (-1) ret_val) (err error_no)
  | Mioctl fd cmd _ error_no => handle_ioctl this fd cmd (err error_no)
  | Mumask mask ret_val => unit_ (handle_umask this ret_val mask)
  | Mchdir n error_no =>
      unit_ (if err error_no =? 0 then handle_set_wd this n else handle_fail_wd this n)
  | Mfchdir fd error_no => unit_ (when (err error_no =? 0) (handle_set_fwd this fd))
  | Mread_from_inherited fd _ => unit_ (handle_read_from_inherited this fd)
  | Mwrite_to_inherited fd is_pwrite => unit_ (handle_write_to_inherited this fd is_pwrite)
  | Mseek_in_inherited fd modify_offset => unit_ (handle_seek_in_inherited this fd modify_offset)
  | Minherited_fd_offset fd offset => unit_ (handle_inherited_fd_offset this fd offset)
  | Mrecvmsg_scm_rights cloexec fds => unit_ (handle_recvmsg_scm_rights this cloexec fds)
  | Mfstatat fd n flags st_mode st_size st_mtim_sec st_mtim_nsec error_no =>
      handle_fstatat this (fallback AT_FDCWD fd) n (fallback 0 flags) (fallback 0 st_mode)
        (fallback 0 st_size) (fallback 0 st_mtim_sec) (fallback 0 st_mtim_nsec) (err error_no)
  | Mfaccessat dirfd n mode _ error_no =>
      handle_faccessat this (fallback AT_FDCWD dirfd) n mode (err error_no)
  | Mfchmodat fd n _ flags error_no =>
      handle_fchmodat this (fallback AT_FDCWD fd) n (fallback 0 flags) (err error_no)
  | Mshm_open ret_val error_no => handle_shm_open this (fallback (-1) ret_val) (err error_no)
  | Mmemfd_create flags ret_val => handle_memfd_create this flags ret_val
  | Mtimerfd_create flags ret_val => handle_timerfd_create this flags ret_val
  | Mepoll_create flags ret_val => handle_epoll_create this (fallback 0 flags) ret_val
  | Meventfd flags ret_val => handle_eventfd this flags ret_val
  | Msignalfd fd flags ret_val => handle_signalfd this fd flags ret_val
  | Mpipe_request flags =>
      unit_ (handle_pipe_request this (fallback 0 flags) fd_conn (sys_pipe2 0) (sys_pipe2 1) sys_remap)
  | Mpipe_fds fd0 fd1 => unit_ (handle_pipe_fds this fd0 fd1)
  | Msocket type ret_val error_no =>
      unit_ (handle_socket this type (fallback (-1) ret_val) (err error_no))
  | Msocketpair type fd0 fd1 error_no =>
      unit_ (handle_socketpair this type (fallback (-1) fd0) (fallback (-1) fd1) (err error_no))
  | Mmkfifo n mode error_no => handle_mkfifo this n mode (err error_no)
  | Mconnect sockfd addr error_no => unit_ (handle_connect this sockfd addr (err error_no))
  | Mstatfs n error_no => handle_statfs this n (err error_no)
  | Mmktemp template => handle_mktemp this template
  | _ => abortM
  end.

(** The messages that the dispatch deals with itself. *)
Definition other_msg (this : pid_ref) (msg : ic_msg) : M unit :=
  match msg with
  | Mlink => disable_here this "Creating a hard link is not supported"
  | Mgetrandom flags =>
      let pathname := if has (fallback 0 flags) GRND_RANDOM then "/dev/random"%string
                      else "/dev/urandom"%string in
      when (negb (is_in_ignore_location (cs pathname)))
        (ep ← exec_point_nn this;
         disable_shortcutting_bubble_up ep (Reason "Using is not allowed" (Some (DStr (cs pathname)))) None)
  | Mfutime fd all_utime_now mtim error_no =>
      f ← get_fd this fd;
      o ← match f with Some f => ofd ← ofd_of f; ret (Some ofd) | None => ret None end;
      let written := match o with Some ofd => is_write (flags_ ofd) | None => false end in
      if negb (bool_decide (is_Some error_no)) && written && all_utime_now then ret tt
      else
        src ← touch_source this all_utime_now mtim error_no;
        match src with
        | Some s =>
            touch_r this (match o with Some ofd => filename_ ofd | None => None end) s
              "Can't file file changing file timestamps of"
        | None => disable_here this "Changing file timestamps is not supported"
        end
  | Mutime pathname all_utime_now mtim error_no =>
      src ← touch_source this all_utime_now mtim error_no;
      match src with
      | Some s =>
          target ← match pathname with
                   | Some n =>
                       pr ← proc this;
                       c ← lift (FileName.GetCanonicalized n (wd_ pr)); ret (Some c)
                   | None => ret None
                   end;
          touch_r this target s "Changing timestamp with utime() without filename"
      | None => disable_here this "Changing file timestamps is not supported"
      end
  | Mclock_gettime =>
      if quirk_ignore_time_queries then ret tt
      else disable_here this "Time queries such as clock_gettime() prevent shortcutting unless the ignore-time-queries quirk is set."
  | Mclone => disable_here this "clone() is not supported"
  | Mbind error_no =>
      when (negb (bool_decide (is_Some error_no)))
        (disable_here this "Successfully binding network sockets is not supported")
  | Mgethostname | Mseccomp | Mmac_syscall | Mignored => ret tt
  | Mrlimit error_no =>
      when (bool_decide (is_Some error_no)) (disable_here this "Changing resource limits failed")
  | Mgen_call call error_no =>
      ep ← exec_point_nn this;
      disable_shortcutting_bubble_up ep
        (Reason (if err error_no =? 0 then "is not supported" else "failed, is not supported")
           (Some (DStr call))) None
  | _ => abortM
  end.

(** Which function of the three handles a message, and whether the handler sends the
    ACK itself. *)
Inductive msg_class := CLifecycle | CSyscall (acked : bool) | COther.
Definition class_of (msg : ic_msg) : msg_class :=
  match msg with
  | Mfork_parent | Mexec_failed | Mrusage _ _ | Msystem _ | Msystem_ret _ | Mpopen _ _
  | Mpopen_parent _ | Mpopen_failed _ | Mpclose _ _ _ | Mposix_spawn _ _ _ _ _
  | Mposix_spawn_parent _ _ _ | Mposix_spawn_failed _ _ | Mwait _ _ _ | Mexec _ _ _ _ _ _ _ =>
      CLifecycle
  | Mopen _ _ _ _ _ _ _ _ _ | Mfreopen _ _ _ _ _ | Mdlopen _ _ _ => CSyscall true
  | Mlink | Mgetrandom _ | Mfutime _ _ _ _ | Mutime _ _ _ _ | Mclock_gettime | Mclone | Mbind _
  | Mgethostname | Mseccomp | Mmac_syscall | Mignored | Mrlimit _ | Mgen_call _ _ => COther
  | _ => CSyscall false
  end.

(** [proc_ic_msg(fbbcomm_buf, ack_num, fd_conn, proc)]. *)
Definition proc_ic_msg (msg : ic_msg) (ack_num fd_conn : Z) (this : pid_ref) : M unit :=
  send_ack ←
    match class_of msg with
    | CLifecycle => lifecycle_msg this msg ack_num fd_conn
    | CSyscall acked => handle_syscall this msg ack_num fd_conn ≫= fun _ => ret (negb acked)
    | COther => other_msg this msg ≫= fun _ => ret true
    end;
  when (send_ack && negb (ack_num =? 0)) (log (EvAck fd_conn ack_num)).

(** * Connections *)

(** A new connection of an interceptor. *)
Definition conn_open (conn : Z) : M unit :=
  old ← gets (fun w => w_conns w !! conn);
  assertM (negb (bool_decide (is_Some old))) ≫= fun _ =>
  modify (fun w => set_w_conns (<[conn := None]> (w_conns w)) w).

(** [~ConnectionContext()]. *)
Definition conn_close (conn : Z) : M unit :=
  ctx ← gets (fun w => w_conns w !! conn) ≫= deref;
  match ctx with
  | Some p =>
      pr ← proc p;
      sock ← gets (fun w => pid2exec_child_sock_ w !! pid_ pr);
      match sock with
      | Some s =>
          fds ← pass_on_fds p true;
          upd_proc (ecs_incomplete_child s) (set_fds_ (Some fds)) ≫= fun _ =>
          accept_exec_child (ecs_incomplete_child s) (ecs_sock s) (-1) ≫= fun _ =>
          modify (fun w => set_pid2exec_child_sock_ (delete (pid_ pr) (pid2exec_child_sock_ w)) w)
      | None => ret tt
      end ≫= fun _ =>
      finish p
  | None => ret tt
  end ≫= fun _ =>
  assertM (0 <=? conn) ≫= fun _ =>
  log (EvClose conn) ≫= fun _ =>
  modify (fun w => set_w_conns (delete conn (w_conns w)) w).

(** The messages that one [ic_conn_readcb()] finds complete in the buffer.  The process
    of the connection is looked up once, before the loop: a message that arrives
    together with the first one of a connection is still taken for a first message. *)
Inductive packet := PNew (msg : new_process_msg) | PMsg (msg : ic_msg).

Definition conn_packet (conn ack_id : Z) (proc : option pid_ref) (m : packet) : M unit :=
  match proc, m with
  | Some p, PMsg msg => proc_ic_msg msg ack_id conn p
  | None, PNew msg => proc_new_process_msg msg ack_id conn
  | None, PMsg _ => ret tt
  | Some _, PNew _ => abortM
  end.

Definition conn_message (conn : Z) (l : list (Z * packet)) : M unit :=
  proc ← gets (fun w => w_conns w !! conn) ≫= deref;
  mforM l (fun '(ack_id, m) => conn_packet conn ack_id proc m).

End WithConfig.
