(* ===== verification/Progress.v ===== *)
(** Progress of the supervisor's state: whatever messages arrive, shortcutting that
    was disabled is never enabled again, the recorded reason stays, processes only
    move forward through their states, and nothing that was logged is taken back.

    [steps R m] says that every successful run of [m] is related by [R]; it is proved
    for a handler by composing the facts of the operations it is made of, which the
    hint database [steps] collects. *)

From stdpp Require Import base list strings option gmap sets.
From Stdlib Require Import ZArith Lia Ascii.
From S2P Require Import Prelude Paths FileNames FileUsage Commands World Shortcut Handlers Lifecycle Messages.

Local Open Scope Z_scope.

Definition steps {A} (R : World -> World -> Prop) (m : M A) : Prop :=
  forall w w' a, m w = Ret (w', a) -> R w w'.

Create HintDb steps discriminated.

Section Steps.
Context (R : World -> World -> Prop) {HR : PreOrder R}.

Lemma steps_ret {A} (a : A) : steps R (ret a).
Proof. intros w w' b [= <- <-]. reflexivity. Qed.
Lemma steps_abort {A} : steps R (abortM (A := A)).
Proof. by intros w w' b H. Qed.
Lemma steps_fuel {A} : steps R (out_of_fuel (A := A)).
Proof. by intros w w' b H. Qed.
Lemma steps_gets {A} (f : World -> A) : steps R (gets f).
Proof. intros w w' b [= <- <-]. reflexivity. Qed.
Lemma steps_lift {A} (m : outcome A) : steps R (lift m).
Proof. intros w w' b H. unfold lift in H. destruct m; by simplify_eq. Qed.
Lemma steps_deref {A} (o : option A) : steps R (deref o).
Proof. destruct o; [apply steps_ret|apply steps_abort]. Qed.
Lemma steps_assert b : steps R (assertM b).
Proof. destruct b; [apply steps_ret|apply steps_abort]. Qed.
Lemma steps_bind {A B} (m : M A) (f : A -> M B) :
  steps R m -> (forall a, steps R (f a)) -> steps R (m ≫= f).
Proof.
  intros Hm Hf w w' b H. unfold mbind, M_bind in H.
  destruct (m w) as [[w1 a]| |] eqn:E; [|done|done].
  transitivity w1; [by eapply Hm|by eapply Hf].
Qed.
Lemma steps_when b m : steps R m -> steps R (when b m).
Proof. destruct b; [done|]. intros _. apply steps_ret. Qed.
Lemma steps_forM {A} (l : list A) f : (forall a, steps R (f a)) -> steps R (mforM l f).
Proof.
  intros Hf. induction l as [|a l IH]; [apply steps_ret|]. cbn.
  by apply steps_bind.
Qed.
End Steps.

#[export] Hint Resolve steps_ret steps_abort steps_fuel steps_gets steps_lift steps_deref
  steps_assert : steps.

(** Break a computation into its operations; [steps_rule] holds the rules of the
    iterators defined later. *)
Ltac steps_rule := fail.
Ltac steps_tac :=
  repeat first
    [ progress cbv zeta
    | solve [eauto 2 with steps typeclass_instances]
    | apply steps_bind; [typeclasses eauto| |intros ?]
    | apply steps_when; [typeclasses eauto|]
    | apply steps_forM; [typeclasses eauto|intros ?]
    | steps_rule
    | match goal with
      | |- steps _ (match ?x with _ => _ end) => destruct x
      end ].

Module Progress.

(** * The order *)

Definition state_rank (s : process_state) : nat :=
  match s with FB_PROC_RUNNING => 0 | FB_PROC_TERMINATED => 1 | FB_PROC_FINALIZED => 2 end.

Definition exec_adv (x x' : Execed) : Prop :=
  (can_shortcut_ x' = true -> can_shortcut_ x = true) /\
  (forall r, can_shortcut_ x = false -> cant_shortcut_reason_ x = Some r ->
     cant_shortcut_reason_ x' = Some r) /\
  (was_shortcut_ x = true -> was_shortcut_ x' = true) /\
  executable_ x' = executable_ x /\ initial_wd_ x' = initial_wd_ x.

Definition fork_adv (f f' : Forked) : Prop :=
  exec_point_ f' = exec_point_ f /\
  (been_waited_for_ f = true -> been_waited_for_ f' = true) /\
  (orphan_ f = true -> orphan_ f' = true) /\
  (has_orphan_descendant_ f = true -> has_orphan_descendant_ f' = true).

Definition kind_adv (k k' : Kind) : Prop :=
  match k, k' with
  | KExeced x, KExeced x' => exec_adv x x'
  | KForked f, KForked f' => fork_adv f f'
  | _, _ => False
  end.

Definition proc_adv (pr pr' : Process) : Prop :=
  pid_ pr' = pid_ pr /\ ppid_ pr' = ppid_ pr /\ exec_count_ pr' = exec_count_ pr /\
  (state_rank (state_ pr) <= state_rank (state_ pr'))%nat /\ kind_adv (kind_ pr) (kind_ pr').

(** Numbers are not given out before their time. *)
Definition bounded (w : World) : Prop :=
  forall p : pid_ref, (w_fb_pid_counter w <= p)%nat -> w_procs w !! p = None.

(** A process waiting to be collected is not running. *)
Definition queue_ok (w : World) : Prop :=
  forall p : pid_ref, p ∈ proc_gc_queue_ w -> (p < w_fb_pid_counter w)%nat /\
    forall pr, w_procs w !! p = Some pr -> state_ pr <> FB_PROC_RUNNING.

(** What happens to the processes numbered below [N], the number of processes when
    the message arrived; those in [T] may terminate.  [advances] is the order: no
    process disappears or comes back, each one only moves forward, only those that do
    not run are queued for collection, and the connections are left alone. *)
Record advances_ (N : nat) (T : pid_ref -> Prop) (w w' : World) : Prop := {
  adv_procs : forall (p : pid_ref) pr, (p < N)%nat -> w_procs w !! p = Some pr ->
    exists pr', w_procs w' !! p = Some pr' /\ proc_adv pr pr' /\
      (state_ pr = FB_PROC_RUNNING -> ~ T p -> state_ pr' = FB_PROC_RUNNING);
  adv_gone : forall (p : pid_ref), (p < N)%nat -> w_procs w !! p = None -> w_procs w' !! p = None;
  adv_bounded : bounded w -> bounded w';
  adv_counter : (w_fb_pid_counter w <= w_fb_pid_counter w')%nat;
  adv_conns : w_conns w' = w_conns w;
  adv_generation : forall n g, generation_db_ w !! n = Some g ->
    exists g', generation_db_ w' !! n = Some g' /\ g <= g';
  adv_log : exists evs, w_log w' = w_log w ++ evs;
  adv_queue : bounded w -> queue_ok w -> queue_ok w'
}.

Definition advances (N : nat) (T : pid_ref -> Prop) (w w' : World) : Prop :=
  (N <= w_fb_pid_counter w)%nat -> advances_ N T w w'.

#[export] Instance exec_adv_preorder : PreOrder exec_adv.
Proof.
  split.
  - intros x. unfold exec_adv. by splits.
  - intros x y z (A1 & A2 & A3 & A4 & A5) (B1 & B2 & B3 & B4 & B5). unfold exec_adv.
    splits; [by auto| |by auto|congruence|congruence].
    intros r Hc Hr. apply B2; [|by apply A2]. destruct (can_shortcut_ y); [|done].
    specialize (A1 eq_refl). congruence.
Qed.

#[export] Instance fork_adv_preorder : PreOrder fork_adv.
Proof.
  split.
  - intros f. unfold fork_adv. by splits.
  - intros f g h (A1 & A2 & A3 & A4) (B1 & B2 & B3 & B4). unfold fork_adv.
    splits; [congruence|by auto..].
Qed.

#[export] Instance proc_adv_preorder : PreOrder proc_adv.
Proof.
  split.
  - intros pr. unfold proc_adv, kind_adv. splits; try done. by destruct (kind_ pr).
  - intros a b c (A1 & A2 & A3 & A4 & A5) (B1 & B2 & B3 & B4 & B5). unfold proc_adv.
    splits; [congruence..|lia|]. unfold kind_adv in *.
    destruct (kind_ a), (kind_ b), (kind_ c); try done; etransitivity; eauto.
Qed.

#[export] Instance advances_preorder N T : PreOrder (advances N T).
Proof.
  split.
  - intros w _. split; [intros p pr _ Hp; exists pr; by splits|done|done|done|done|
      intros; eexists; split; [eassumption|lia]| |done]. exists []. by rewrite app_nil_r.
  - intros a b c HA HB HN. destruct (HA HN) as [A1 A2 A0 A3 A4 A5 [e1 A6] A7].
    destruct (HB ltac:(lia)) as [B1 B2 B0 B3 B4 B5 [e2 B6] B7]. split.
    + intros p pr Hlt Hp. destruct (A1 _ _ Hlt Hp) as (pr1 & Hp1 & ? & R1).
      destruct (B1 _ _ Hlt Hp1) as (pr2 & Hp2 & ? & R2). exists pr2.
      splits; [done|by etransitivity|by auto].
    + auto.
    + auto.
    + lia.
    + congruence.
    + intros n g Hg. destruct (A5 _ _ Hg) as (g1 & Hg1 & ?).
      destruct (B5 _ _ Hg1) as (g2 & Hg2 & ?). exists g2. split; [done|lia].
    + exists (e1 ++ e2). by rewrite B6, A6, app_assoc.
    + auto.
Qed.

Lemma proc_adv_same pr pr' :
  pid_ pr' = pid_ pr -> ppid_ pr' = ppid_ pr -> exec_count_ pr' = exec_count_ pr ->
  state_ pr' = state_ pr -> kind_ pr' = kind_ pr -> proc_adv pr pr'.
Proof.
  intros ? ? ? Hs Hk. unfold proc_adv, kind_adv. rewrite Hs, Hk. splits; try done.
  by destruct (kind_ pr).
Qed.

Lemma exec_adv_same x x' :
  can_shortcut_ x' = can_shortcut_ x -> cant_shortcut_reason_ x' = cant_shortcut_reason_ x ->
  was_shortcut_ x' = was_shortcut_ x -> executable_ x' = executable_ x ->
  initial_wd_ x' = initial_wd_ x -> exec_adv x x'.
Proof. intros H1 H2 H3 H4 H5. unfold exec_adv. rewrite H1, H2, H3. by splits. Qed.

Lemma bind_Ret {A B} (m : M A) (f : A -> M B) w r :
  (m ≫= f) w = Ret r -> exists w1 a, m w = Ret (w1, a) /\ f a w1 = Ret r.
Proof. unfold mbind, M_bind. destruct (m w) as [[w1 a]| |] eqn:E; [by eauto|done|done]. Qed.

Lemma execed_Ret p w w' x :
  execed p w = Ret (w', x) -> w' = w /\ Shortcut.execed_of w p = Some x.
Proof.
  unfold execed, Shortcut.execed_of, proc, gets, deref, mbind, M_bind.
  destruct (w_procs w !! p) as [pr|]; [|done]. cbn.
  destruct (kind_ pr); [|done]. by intros [= <- <-].
Qed.

(** What is relied on of the cacher: its operations change the supervisor's state only
    in ways that advance it. *)
Class CacherOk {K : Cacher} : Prop := {
  fingerprint_advances : forall N T p, steps (advances N T) (fingerprint p);
  cacher_shortcut_advances : forall N T p, steps (advances N T) (cacher_shortcut p)
}.

(** The rest is about a fixed bound and set of terminating processes. *)
Section Order.
Context {N : nat} {T : pid_ref -> Prop}.
Local Abbreviation adv := (advances N T).

(** * The operations *)

Lemma advances_frame w w' :
  w_procs w' = w_procs w -> w_fb_pid_counter w' = w_fb_pid_counter w ->
  w_conns w' = w_conns w -> generation_db_ w' = generation_db_ w ->
  proc_gc_queue_ w' = proc_gc_queue_ w ->
  (exists evs, w_log w' = w_log w ++ evs) -> adv w w'.
Proof.
  intros H1 H2 H3 H4 H6 H5 _. split; unfold bounded, queue_ok; rewrite ?H1, ?H2, ?H4, ?H6;
    [intros p pr _ Hp; exists pr; by splits|done|done|done|done|
     intros; eexists; split; [eassumption|lia]|done|done].
Qed.

(** A change of the state that touches neither processes, their queue, generations nor
    the log. *)
Lemma adv_modify f :
  (forall w, w_procs (f w) = w_procs w /\ w_fb_pid_counter (f w) = w_fb_pid_counter w /\
             w_conns (f w) = w_conns w /\
             generation_db_ (f w) = generation_db_ w /\
             proc_gc_queue_ (f w) = proc_gc_queue_ w /\ w_log (f w) = w_log w) ->
  steps adv (modify f).
Proof.
  intros Hf w w' a [= <- <-]. destruct (Hf w) as (? & ? & ? & ? & ? & Hl).
  apply advances_frame; try done. exists []. by rewrite app_nil_r.
Qed.

Lemma adv_log_ev e : steps adv (log e).
Proof. intros w w' a [= <- <-]. apply advances_frame; try done. by exists [e]. Qed.

Lemma adv_proc p : steps adv (proc p).
Proof. unfold proc. steps_tac. Qed.
Hint Resolve adv_log_ev adv_proc : steps.
Lemma adv_execed p : steps adv (execed p).
Proof. unfold execed. steps_tac. Qed.
Lemma adv_forked p : steps adv (forked p).
Proof. unfold forked. steps_tac. Qed.
Hint Resolve adv_execed adv_forked : steps.

(** Replacing one process. *)
Lemma adv_replace w (p : pid_ref) pr pr' :
  w_procs w !! p = Some pr ->
  ((p < N)%nat -> proc_adv pr pr' /\
     (state_ pr = FB_PROC_RUNNING -> ~ T p -> state_ pr' = FB_PROC_RUNNING)) ->
  (state_ pr' = FB_PROC_RUNNING -> state_ pr = FB_PROC_RUNNING) ->
  adv w (set_w_procs (<[p := pr']> (w_procs w)) w).
Proof.
  intros Hp Hadv Hst _. split; cbn; [| | |done|done|intros; eexists; split; [eassumption|lia]|
    exists []; by rewrite app_nil_r|].
  - intros q qr Hlt Hq. destruct (decide (p = q)) as [<-|Hne].
    + rewrite lookup_insert_eq. exists pr'. split; [done|]. simplify_eq. by apply Hadv.
    + rewrite lookup_insert_ne by done. exists qr. by splits.
  - intros q Hlt Hq. rewrite lookup_insert_ne by congruence. done.
  - intros Hb q Hle. cbn in Hle. cbn. rewrite lookup_insert_ne; [by apply Hb|].
    intros <-. specialize (Hb p Hle). congruence.
  - intros _ Hq q Hin. destruct (Hq q Hin) as [? Hrun]. split; [done|cbn].
    destruct (decide (p = q)) as [<-|Hne]; [|by rewrite lookup_insert_ne].
    rewrite lookup_insert_eq. intros ? [= <-] Hr. by eapply Hrun, Hst.
Qed.

Lemma adv_upd_proc (p : pid_ref) f :
  ((p < N)%nat -> forall pr, proc_adv pr (f pr) /\ state_ (f pr) = state_ pr) ->
  (forall pr, state_ (f pr) = FB_PROC_RUNNING -> state_ pr = FB_PROC_RUNNING) ->
  steps adv (upd_proc p f).
Proof.
  intros Hf Hst w w' a H. unfold upd_proc, proc, gets, deref, mbind, M_bind, modify in H.
  destruct (w_procs w !! p) as [pr|] eqn:E; [|discriminate H]. cbn in H. injection H as <- <-.
  apply (adv_replace w p pr); [done| |by apply Hst].
  intros Hlt. destruct (Hf Hlt pr) as [? ->]. by split.
Qed.

(** The kind of a process may change as long as it advances. *)
Lemma adv_upd_execed p f : (forall x, exec_adv x (f x)) -> steps adv (upd_execed p f).
Proof.
  intros Hf w w' a H. unfold upd_execed, execed, upd_proc, proc, gets, deref, mbind, M_bind,
    modify in H.
  destruct (w_procs w !! p) as [pr|] eqn:E; [|discriminate H]. cbn in H.
  destruct (kind_ pr) as [x|] eqn:Ek; [|discriminate H]. cbn in H. rewrite E in H. cbn in H.
  injection H as <- <-. apply (adv_replace w p pr); [done| |done]. intros _.
  unfold proc_adv, kind_adv. cbn. rewrite Ek. splits; auto.
Qed.

Lemma adv_upd_forked p f : (forall x, fork_adv x (f x)) -> steps adv (upd_forked p f).
Proof.
  intros Hf w w' a H. unfold upd_forked, forked, upd_proc, proc, gets, deref, mbind, M_bind,
    modify in H.
  destruct (w_procs w !! p) as [pr|] eqn:E; [|discriminate H]. cbn in H.
  destruct (kind_ pr) as [|x] eqn:Ek; [discriminate H|]. cbn in H. rewrite E in H. cbn in H.
  injection H as <- <-. apply (adv_replace w p pr); [done| |done]. intros _.
  unfold proc_adv, kind_adv. cbn. rewrite Ek. splits; auto.
Qed.

Hint Extern 3 (steps (advances _ _) (modify _)) => (apply adv_modify; intros; done) : steps.
Hint Extern 3 (steps (advances _ _) (upd_proc _ _)) =>
  (apply adv_upd_proc; intros; [split; [by apply proc_adv_same|done]|done]) : steps.
Hint Extern 3 (steps (advances _ _) (upd_execed _ _)) =>
  (apply adv_upd_execed; intros; by apply exec_adv_same) : steps.
Hint Extern 3 (steps (advances _ _) (upd_forked _ _)) =>
  (apply adv_upd_forked; intros; unfold fork_adv; cbn; by splits) : steps.

Lemma adv_put w p x y :
  Shortcut.execed_of w p = Some x -> exec_adv x y -> adv w (Shortcut.put_x w p y).
Proof.
  unfold Shortcut.execed_of, Shortcut.put_x. intros Hx Hxy.
  destruct (w_procs w !! p) as [pr|] eqn:E; [|done].
  destruct (kind_ pr) as [z|] eqn:Ek; [|done]. injection Hx as ->.
  apply (adv_replace w p pr); [done| |done]. intros _.
  unfold proc_adv, kind_adv. cbn. rewrite Ek. by splits.
Qed.

(** [disable_shortcutting_only_this()] sets the reason of a process that had none. *)
Lemma adv_disable_only_this p reason src :
  steps adv (disable_shortcutting_only_this p reason src).
Proof.
  intros w w' a H. unfold disable_shortcutting_only_this in H.
  apply bind_Ret in H as (w0 & x & Hx & H). apply execed_Ret in Hx as [-> Hx].
  destruct (can_shortcut_ x) eqn:Ec; [|injection H as <- <-; reflexivity].
  set (x1 := set_can_shortcut_ false x) in *.
  rewrite (Shortcut.bind_run _ _ _ _ _ (Shortcut.upd_execed_run w p x _ Hx)) in H. fold x1 in H.
  assert (E1 : Shortcut.execed_of (Shortcut.put_x w p x1) p = Some x1).
  { rewrite (Shortcut.put_x_lookup _ _ _ _ _ Hx). by rewrite decide_True. }
  apply bind_Ret in H as (w1 & u1 & Ha1 & H).
  destruct (bool_decide (cant_shortcut_reason_ x = None)) eqn:Hr; [|discriminate].
  injection Ha1 as <- <-. apply bool_decide_eq_true in Hr.
  set (x2 := set_cant_shortcut_reason_ (Some reason) x1).
  rewrite (Shortcut.bind_run _ _ _ _ _ (Shortcut.upd_execed_run _ p x1 _ E1)) in H. fold x2 in H.
  assert (E2 : Shortcut.execed_of (Shortcut.put_x (Shortcut.put_x w p x1) p x2) p = Some x2).
  { rewrite (Shortcut.put_x_lookup _ _ _ _ _ E1). by rewrite decide_True. }
  transitivity (Shortcut.put_x w p x1).
  { apply (adv_put w p x); [done|]. unfold exec_adv. cbn. by splits. }
  transitivity (Shortcut.put_x (Shortcut.put_x w p x1) p x2).
  { apply (adv_put _ p x1); [done|]. unfold exec_adv. cbn. splits; try done. congruence. }
  revert H. generalize (Shortcut.put_x (Shortcut.put_x w p x1) p x2). intros w2 H.
  revert w2 w' a H. change (steps adv (assertM (bool_decide (cant_shortcut_proc_ x = None)) ≫= fun _ =>
    upd_execed p (set_cant_shortcut_proc_ (Some (default p src))) ≫= fun _ =>
    mforM (inherited_files_ x) (fun inherited_file =>
      match if_recorder inherited_file with
      | Some r =>
          assertM (bool_decide (if_type inherited_file = FD_PIPE_OUT)) ≫= fun _ =>
          log (EvRecorderDeactivate r)
      | None => ret tt
      end))).
  steps_tac.
Qed.
Hint Resolve adv_disable_only_this : steps.

Lemma adv_skip_disabled n q : steps adv (skip_disabled n q).
Proof. revert q. induction n as [|n IH]; intros [q|]; cbn; steps_tac. Qed.
Hint Resolve adv_skip_disabled : steps.

Lemma adv_chain_fuel : steps adv chain_fuel.
Proof. apply steps_gets, _. Qed.
Lemma adv_exec_point p : steps adv (exec_point p).
Proof. unfold exec_point. steps_tac. Qed.
Hint Resolve adv_chain_fuel adv_exec_point : steps.
Lemma adv_parent_exec_point p : steps adv (parent_exec_point p).
Proof. unfold parent_exec_point. steps_tac. Qed.
Lemma adv_exec_point_nn p : steps adv (exec_point_nn p).
Proof. unfold exec_point_nn. steps_tac. Qed.
Lemma adv_next p : steps adv (next_shortcutable_ancestor p).
Proof. unfold next_shortcutable_ancestor. steps_tac. Qed.
Hint Resolve adv_parent_exec_point adv_exec_point_nn adv_next : steps.

Lemma adv_bubble n p stop reason src a : steps adv (bubble_up_to_excl n p stop reason src a).
Proof. revert p src a. induction n as [|n IH]; intros p src a; cbn; steps_tac. Qed.
Hint Resolve adv_bubble : steps.


Lemma adv_get_fd p fd : steps adv (get_fd p fd).
Proof. unfold get_fd. steps_tac. Qed.
Lemma adv_ofd_of f : steps adv (ofd_of f).
Proof. unfold ofd_of. steps_tac. Qed.
Lemma adv_bubble_up_to_excl p stop reason src :
  steps adv (disable_shortcutting_bubble_up_to_excl p stop reason src).
Proof. unfold disable_shortcutting_bubble_up_to_excl. steps_tac. Qed.
Lemma adv_gen_of name : steps adv (generation name).
Proof. unfold generation. steps_tac. Qed.
Hint Resolve adv_get_fd adv_ofd_of adv_bubble_up_to_excl adv_gen_of : steps.
Lemma adv_bubble_up p reason src : steps adv (disable_shortcutting_bubble_up p reason src).
Proof. unfold disable_shortcutting_bubble_up. steps_tac. Qed.
Hint Resolve adv_bubble_up : steps.

Lemma adv_common_ancestor n : forall t o m s,
  steps adv (common_ancestor_loop n t o m s) /\
  steps adv (common_ancestor_other n t o m s) /\
  steps adv (common_ancestor_again n t o m s).
Proof.
  induction n as [|n IH]; intros t o m s; [by split_and!; apply steps_fuel|].
  assert (A1 : forall t o m s, steps adv (common_ancestor_loop n t o m s)) by (intros; apply IH).
  assert (A2 : forall t o m s, steps adv (common_ancestor_other n t o m s)) by (intros; apply IH).
  assert (A3 : forall t o m s, steps adv (common_ancestor_again n t o m s)) by (intros; apply IH).
  split_and!; cbn; steps_tac.
Qed.

Lemma adv_common_exec_ancestor p q : steps adv (common_exec_ancestor p q).
Proof.
  unfold common_exec_ancestor. apply steps_bind; [typeclasses eauto|steps_tac|].
  intros n. apply adv_common_ancestor.
Qed.
Lemma adv_set_writers name v : steps adv (set_writers name v).
Proof. unfold set_writers. steps_tac. Qed.
Hint Resolve adv_common_exec_ancestor adv_set_writers : steps.

Section WithConfig.
Context {C : Config} {S0 : Sys}.

Lemma adv_env : steps adv env.
Proof. apply steps_gets, _. Qed.
Lemma adv_reason_with_fd p r fd : steps adv (reason_with_fd p r fd).
Proof. unfold reason_with_fd. steps_tac. Qed.
Hint Resolve adv_env adv_reason_with_fd : steps.
Lemma adv_bubble_fd p r fd : steps adv (disable_shortcutting_bubble_up_fd p r fd).
Proof. unfold disable_shortcutting_bubble_up_fd. steps_tac. Qed.
Lemma adv_bubble_excl_fd p s r fd : steps adv (disable_shortcutting_bubble_up_to_excl_fd p s r fd).
Proof. unfold disable_shortcutting_bubble_up_to_excl_fd. steps_tac. Qed.
Lemma adv_bubble_file p r f : steps adv (disable_shortcutting_bubble_up_file p r f).
Proof. unfold disable_shortcutting_bubble_up_file. steps_tac. Qed.
Lemma adv_bubble_str p r d : steps adv (disable_shortcutting_bubble_up_str p r d).
Proof. unfold disable_shortcutting_bubble_up_str. steps_tac. Qed.
Hint Resolve adv_bubble_fd adv_bubble_excl_fd adv_bubble_file adv_bubble_str : steps.

Lemma adv_register_loop rec n this name q fu_old fu_new update propagated :
  (forall p name u, steps adv (rec p name u)) ->
  steps adv (register_loop rec n this name q fu_old fu_new update propagated).
Proof.
  intros Hrec. revert q fu_old fu_new update propagated.
  induction n as [|n IH]; intros q fu_old fu_new update propagated; cbn; steps_tac.
Qed.

Lemma adv_register_with_fuel n this name update :
  steps adv (register_with_fuel n this name update).
Proof.
  revert this name update. induction n as [|n IH]; intros this name update; [apply steps_fuel|].
  cbn [register_with_fuel]. pose proof (adv_register_loop (register_with_fuel n)). steps_tac.
Qed.

Lemma adv_register this name update : steps adv (register_file_usage_update this name update).
Proof. pose proof adv_register_with_fuel. unfold register_file_usage_update. steps_tac. Qed.
Lemma adv_new_update name ty wr mc : steps adv (new_update name ty wr mc).
Proof. unfold new_update. steps_tac. Qed.
Hint Resolve adv_register adv_new_update : steps.

(** Opening a new generation of a file only increases its number. *)
Lemma adv_next_generation name (k : M unit) :
  steps adv k ->
  steps adv
    (g ← gets (fun w => generation_db_ w !! name);
     match g with
     | Some g =>
         assertM (g <? 2 ^ 32 - 1) ≫= fun _ =>
         modify (fun w => set_generation_db_ (<[name := g + 1]> (generation_db_ w)) w) ≫= fun _ => k
     | None => modify (fun w => set_generation_db_ (<[name := 1]> (generation_db_ w)) w)
     end).
Proof.
  intros Hk w w' a H. apply bind_Ret in H as (w1 & g & [= <- <-] & H).
  assert (Hset : forall v, (forall g, generation_db_ w !! name = Some g -> g <= v) ->
    adv w (set_generation_db_ (<[name := v]> (generation_db_ w)) w)).
  { intros v Hv _. split; cbn; [intros p pr _ Hp; exists pr; by splits|done|done|done|done| |
      exists []; by rewrite app_nil_r|done].
    intros n g Hg. destruct (decide (name = n)) as [<-|Hne].
    - rewrite lookup_insert_eq. exists v. split; [done|]. by apply Hv.
    - rewrite lookup_insert_ne by done. exists g. split; [done|lia]. }
  destruct (generation_db_ w !! name) as [g|] eqn:Eg.
  - apply bind_Ret in H as (w1 & u1 & Ha & H).
    destruct (g <? 2 ^ 32 - 1); [|discriminate]. injection Ha as <- <-.
    apply bind_Ret in H as (w2 & u2 & [= <- <-] & H).
    etransitivity; [|by eapply Hk]. apply Hset. intros g' [= <-]. lia.
  - injection H as <- <-. apply Hset. done.
Qed.

Lemma adv_open_for_writing name opener : steps adv (open_for_writing name opener).
Proof.
  unfold open_for_writing. destruct (is_in_ignore_location name); [steps_tac|].
  apply steps_bind; [typeclasses eauto|steps_tac|intros this].
  apply steps_bind; [typeclasses eauto|steps_tac|intros o].
  destruct o as [[n other]|]; [steps_tac|].
  apply steps_bind; [typeclasses eauto|steps_tac|intros _].
  apply adv_next_generation. steps_tac.
Qed.
Lemma adv_close_for_writing name : steps adv (close_for_writing name).
Proof. unfold close_for_writing. steps_tac. Qed.
Hint Resolve adv_open_for_writing adv_close_for_writing : steps.

Lemma adv_new_FileOFD ty fn fl ob : steps adv (new_FileOFD ty fn fl ob).
Proof. unfold new_FileOFD. steps_tac. Qed.
Lemma adv_share_ofd id : steps adv (share_ofd id).
Proof. unfold share_ofd. steps_tac. Qed.
Lemma adv_release_ofd id : steps adv (release_ofd id).
Proof. unfold release_ofd. steps_tac. Qed.
Lemma adv_fresh_ffd : steps adv fresh_ffd.
Proof. unfold fresh_ffd. steps_tac. Qed.
Hint Resolve adv_new_FileOFD adv_share_ofd adv_release_ofd adv_fresh_ffd : steps.

(** * The handlers *)

Lemma adv_new_FileFD_type fl ty ob : steps adv (new_FileFD_type fl ty ob).
Proof. unfold new_FileFD_type. steps_tac. Qed.
Lemma adv_new_FileFD_pipe fl pp ob c : steps adv (new_FileFD_pipe fl pp ob c).
Proof. unfold new_FileFD_pipe. steps_tac. Qed.
Lemma adv_new_FileFD_dup src c : steps adv (new_FileFD_dup src c).
Proof. unfold new_FileFD_dup. steps_tac. Qed.
Lemma adv_new_FileFD_name n fl ob : steps adv (new_FileFD_name n fl ob).
Proof. unfold new_FileFD_name. steps_tac. Qed.
Lemma adv_copy_FileFD f : steps adv (copy_FileFD f).
Proof. unfold copy_FileFD. steps_tac. Qed.
Lemma adv_drop_FileFD f : steps adv (drop_FileFD f).
Proof. unfold drop_FileFD. steps_tac. Qed.
Lemma adv_clear_pipe f : steps adv (clear_pipe f).
Proof. unfold clear_pipe. steps_tac. Qed.
Lemma adv_at_fd fds fd : steps adv (at_fd fds fd).
Proof. unfold at_fd. steps_tac. Qed.
Hint Resolve adv_new_FileFD_type adv_new_FileFD_pipe adv_new_FileFD_dup adv_new_FileFD_name adv_copy_FileFD adv_drop_FileFD adv_clear_pipe adv_at_fd : steps.
Lemma adv_add_filefd_to fds fd f : steps adv (add_filefd_to fds fd f).
Proof. unfold add_filefd_to. steps_tac. Qed.
Hint Resolve adv_add_filefd_to : steps.
Lemma adv_add_filefd p fd f : steps adv (add_filefd p fd f).
Proof. unfold add_filefd. steps_tac. Qed.
Lemma adv_set_fd_slot p fd v : steps adv (set_fd_slot p fd v).
Proof. unfold set_fd_slot. steps_tac. Qed.
Lemma adv_add_pipe p pp : steps adv (add_pipe p pp).
Proof. unfold add_pipe. steps_tac. Qed.
Lemma adv_drain_all_pipes p : steps adv (drain_all_pipes p).
Proof. unfold drain_all_pipes. steps_tac. Qed.
Lemma adv_get_fd_filename p fd : steps adv (get_fd_filename p fd).
Proof. unfold get_fd_filename. steps_tac. Qed.
Lemma adv_ack c n : steps adv (ack c n).
Proof. unfold ack. steps_tac. Qed.
Hint Resolve adv_add_filefd adv_set_fd_slot adv_add_pipe adv_drain_all_pipes adv_get_fd_filename adv_ack : steps.
Lemma adv_get_absolute p fd n : steps adv (get_absolute p fd n).
Proof. unfold get_absolute. steps_tac. Qed.
Lemma adv_is_qemu p : steps adv (is_qemu p).
Proof. unfold is_qemu. steps_tac. Qed.
Lemma adv_open_update n fl m e t : steps adv (open_update n fl m e t).
Proof. unfold open_update. steps_tac. Qed.
Lemma adv_register_or_disable p n u r : steps adv (register_or_disable p n u r).
Proof. unfold register_or_disable. steps_tac. Qed.
Lemma adv_disable_here p r : steps adv (disable_here p r).
Proof. unfold disable_here. steps_tac. Qed.
Lemma adv_disable_here_fd p r fd : steps adv (disable_here_fd p r fd).
Proof. unfold disable_here_fd. steps_tac. Qed.
Lemma adv_disable_here_str p r d : steps adv (disable_here_str p r d).
Proof. unfold disable_here_str. steps_tac. Qed.
Hint Resolve adv_get_absolute adv_is_qemu adv_open_update adv_register_or_disable adv_disable_here adv_disable_here_fd adv_disable_here_str : steps.
Lemma adv_handle_close_ffd p f fd : steps adv (handle_close_ffd p f fd).
Proof. unfold handle_close_ffd. steps_tac. Qed.
Hint Resolve adv_handle_close_ffd : steps.
Lemma adv_handle_close p fd e : steps adv (handle_close p fd e).
Proof. unfold handle_close. steps_tac. Qed.
Hint Resolve adv_handle_close : steps.
Lemma adv_handle_force_close p fd : steps adv (handle_force_close p fd).
Proof. unfold handle_force_close. steps_tac. Qed.
Lemma adv_close_fds p : steps adv (close_fds p).
Proof. unfold close_fds. steps_tac. Qed.
Lemma adv_reset_file_fd_pipe_refs p : steps adv (reset_file_fd_pipe_refs p).
Proof. unfold reset_file_fd_pipe_refs. steps_tac. Qed.
Lemma adv_handle_close_range p a b c d : steps adv (handle_close_range p a b c d).
Proof. unfold handle_close_range. steps_tac. Qed.
Hint Resolve adv_handle_force_close adv_close_fds adv_reset_file_fd_pipe_refs adv_handle_close_range : steps.
Lemma adv_handle_closefrom p a : steps adv (handle_closefrom p a).
Proof. unfold handle_closefrom. steps_tac. Qed.
Lemma adv_handle_pre_open p fd n : steps adv (handle_pre_open p fd n).
Proof. unfold handle_pre_open. steps_tac. Qed.
Lemma adv_handle_open p a b c d e f g h i j k l : steps adv (handle_open p a b c d e f g h i j k l).
Proof. unfold handle_open. steps_tac. Qed.
Hint Resolve adv_handle_closefrom adv_handle_pre_open adv_handle_open : steps.
Lemma adv_handle_freopen p a b c d e f g h : steps adv (handle_freopen p a b c d e f g h).
Proof. unfold handle_freopen. steps_tac. Qed.
Lemma adv_handle_dlopen p a b c d e : steps adv (handle_dlopen p a b c d e).
Proof. unfold handle_dlopen. steps_tac. Qed.
Lemma adv_handle_scandirat p a b c : steps adv (handle_scandirat p a b c).
Proof. unfold handle_scandirat. steps_tac. Qed.
Lemma adv_handle_truncate p a b c : steps adv (handle_truncate p a b c).
Proof. unfold handle_truncate. steps_tac. Qed.
Lemma adv_handle_unlink p a b c d e : steps adv (handle_unlink p a b c d e).
Proof. unfold handle_unlink. steps_tac. Qed.
Hint Resolve adv_handle_freopen adv_handle_dlopen adv_handle_scandirat adv_handle_truncate adv_handle_unlink : steps.
Lemma adv_handle_rmdir p a b c : steps adv (handle_rmdir p a b c).
Proof. unfold handle_rmdir. steps_tac. Qed.
Lemma adv_handle_mkdir p a b c d : steps adv (handle_mkdir p a b c d).
Proof. unfold handle_mkdir. steps_tac. Qed.
Lemma adv_handle_fstatat p a b c d e f g h : steps adv (handle_fstatat p a b c d e f g h).
Proof. unfold handle_fstatat. steps_tac. Qed.
Lemma adv_handle_statfs p a b : steps adv (handle_statfs p a b).
Proof. unfold handle_statfs. steps_tac. Qed.
Lemma adv_handle_mktemp p a : steps adv (handle_mktemp p a).
Proof. unfold handle_mktemp. steps_tac. Qed.
Lemma adv_handle_faccessat p a b c d : steps adv (handle_faccessat p a b c d).
Proof. unfold handle_faccessat. steps_tac. Qed.
Lemma adv_opened_by_exec_point f : steps adv (opened_by_exec_point f).
Proof. unfold opened_by_exec_point. steps_tac. Qed.
Hint Resolve adv_handle_rmdir adv_handle_mkdir adv_handle_fstatat adv_handle_statfs adv_handle_mktemp adv_handle_faccessat adv_opened_by_exec_point : steps.
Lemma adv_handle_fchmodat p a b c d : steps adv (handle_fchmodat p a b c d).
Proof. unfold handle_fchmodat. steps_tac. Qed.
Lemma adv_handle_shm_open p a b : steps adv (handle_shm_open p a b).
Proof. unfold handle_shm_open. steps_tac. Qed.
Lemma adv_add_special p a b : steps adv (add_special p a b).
Proof. unfold add_special. steps_tac. Qed.
Hint Resolve adv_handle_fchmodat adv_handle_shm_open adv_add_special : steps.
Lemma adv_handle_memfd_create p a b : steps adv (handle_memfd_create p a b).
Proof. unfold handle_memfd_create. steps_tac. Qed.
Lemma adv_handle_timerfd_create p a b : steps adv (handle_timerfd_create p a b).
Proof. unfold handle_timerfd_create. steps_tac. Qed.
Lemma adv_handle_epoll_create p a b : steps adv (handle_epoll_create p a b).
Proof. unfold handle_epoll_create. steps_tac. Qed.
Lemma adv_handle_eventfd p a b : steps adv (handle_eventfd p a b).
Proof. unfold handle_eventfd. steps_tac. Qed.
Lemma adv_handle_signalfd p a b c : steps adv (handle_signalfd p a b c).
Proof. unfold handle_signalfd. steps_tac. Qed.
Lemma adv_handle_pipe_request p a b c d e : steps adv (handle_pipe_request p a b c d e).
Proof. unfold handle_pipe_request. steps_tac. Qed.
Lemma adv_handle_pipe_fds p a b : steps adv (handle_pipe_fds p a b).
Proof. unfold handle_pipe_fds. steps_tac. Qed.
Lemma adv_add_socket p a b : steps adv (add_socket p a b).
Proof. unfold add_socket. steps_tac. Qed.
Hint Resolve adv_handle_memfd_create adv_handle_timerfd_create adv_handle_epoll_create adv_handle_eventfd adv_handle_signalfd adv_handle_pipe_request adv_handle_pipe_fds adv_add_socket : steps.
Lemma adv_handle_socket p a b c : steps adv (handle_socket p a b c).
Proof. unfold handle_socket. steps_tac. Qed.
Lemma adv_handle_socketpair p a b c d : steps adv (handle_socketpair p a b c d).
Proof. unfold handle_socketpair. steps_tac. Qed.
Lemma adv_handle_mkfifo p a b c : steps adv (handle_mkfifo p a b c).
Proof. unfold handle_mkfifo. steps_tac. Qed.
Lemma adv_handle_connect p a b c : steps adv (handle_connect p a b c).
Proof. unfold handle_connect. steps_tac. Qed.
Lemma adv_handle_dup3 p a b c d : steps adv (handle_dup3 p a b c d).
Proof. unfold handle_dup3. steps_tac. Qed.
Lemma adv_handle_rename p a b c d e : steps adv (handle_rename p a b c d e).
Proof. unfold handle_rename. steps_tac. Qed.
Lemma adv_handle_symlink p a b c d : steps adv (handle_symlink p a b c d).
Proof. unfold handle_symlink. steps_tac. Qed.
Lemma adv_set_cloexec_or_disable p a b c : steps adv (set_cloexec_or_disable p a b c).
Proof. unfold set_cloexec_or_disable. steps_tac. Qed.
Hint Resolve adv_handle_socket adv_handle_socketpair adv_handle_mkfifo adv_handle_connect adv_handle_dup3 adv_handle_rename adv_handle_symlink adv_set_cloexec_or_disable : steps.
Lemma adv_handle_clear_cloexec p a : steps adv (handle_clear_cloexec p a).
Proof. unfold handle_clear_cloexec. steps_tac. Qed.
Lemma adv_handle_fcntl p a b c d e : steps adv (handle_fcntl p a b c d e).
Proof. unfold handle_fcntl. steps_tac. Qed.
Lemma adv_handle_ioctl p a b c : steps adv (handle_ioctl p a b c).
Proof. unfold handle_ioctl. steps_tac. Qed.
Lemma adv_handle_read_from_inherited p a : steps adv (handle_read_from_inherited p a).
Proof. unfold handle_read_from_inherited. steps_tac. Qed.
Lemma adv_handle_write_to_inherited p a b : steps adv (handle_write_to_inherited p a b).
Proof. unfold handle_write_to_inherited. steps_tac. Qed.
Lemma adv_handle_seek_in_inherited p a b : steps adv (handle_seek_in_inherited p a b).
Proof. unfold handle_seek_in_inherited. steps_tac. Qed.
Lemma adv_handle_inherited_fd_offset p a b : steps adv (handle_inherited_fd_offset p a b).
Proof. unfold handle_inherited_fd_offset. steps_tac. Qed.
Lemma adv_handle_recvmsg_scm_rights p a b : steps adv (handle_recvmsg_scm_rights p a b).
Proof. unfold handle_recvmsg_scm_rights. steps_tac. Qed.
Hint Resolve adv_handle_clear_cloexec adv_handle_fcntl adv_handle_ioctl adv_handle_read_from_inherited adv_handle_write_to_inherited adv_handle_seek_in_inherited adv_handle_inherited_fd_offset adv_handle_recvmsg_scm_rights : steps.
Lemma adv_on_exec_ancestor n p f :
  (forall x, exec_adv x (f x)) -> steps adv (on_exec_ancestor n p f).
Proof.
  intros Hf. revert p. induction n as [|n IH]; intros p; cbn; [steps_tac|].
  pose proof (fun q => adv_upd_execed q f Hf). steps_tac.
Qed.
Lemma adv_add_wd p d : steps adv (add_wd p d).
Proof.
  unfold add_wd. pose proof adv_on_exec_ancestor. steps_tac.
  apply adv_on_exec_ancestor. intros. by apply exec_adv_same.
Qed.
Lemma adv_handle_fail_wd p d : steps adv (handle_fail_wd p d).
Proof.
  unfold handle_fail_wd. pose proof adv_on_exec_ancestor. steps_tac.
  apply adv_on_exec_ancestor. intros. by apply exec_adv_same.
Qed.
Hint Resolve adv_add_wd adv_handle_fail_wd : steps.
Lemma adv_handle_set_wd p d : steps adv (handle_set_wd p d).
Proof. unfold handle_set_wd. steps_tac. Qed.
Lemma adv_handle_set_fwd p d : steps adv (handle_set_fwd p d).
Proof. unfold handle_set_fwd. steps_tac. Qed.
Lemma adv_handle_umask p a b : steps adv (handle_umask p a b).
Proof. unfold handle_umask. steps_tac. Qed.
Hint Resolve adv_handle_set_wd adv_handle_set_fwd adv_handle_umask : steps.


Lemma adv_pass_on_loop e fds : steps adv (pass_on_loop e fds).
Proof. induction fds as [|o fds IH]; cbn; steps_tac. Qed.
Hint Resolve adv_pass_on_loop : steps.

Lemma adv_pass_on_fds p e : steps adv (pass_on_fds p e).
Proof. unfold pass_on_fds. steps_tac. Qed.

Hint Resolve adv_pass_on_fds : steps.


(** * Processes *)

Lemma adv_forallM {A} (l : list A) f : (forall a, steps adv (f a)) -> steps adv (forallM l f).
Proof. intros Hf. induction l as [|a l IH]; cbn; steps_tac. Qed.
Ltac steps_rule ::= apply adv_forallM; intros ?.


Lemma adv_drop_fds fds : steps adv (drop_fds fds).
Proof. unfold drop_fds. steps_tac. Qed.
Hint Resolve adv_drop_fds : steps.

Lemma adv_set_expected_child p e : steps adv (set_expected_child p e).
Proof. unfold set_expected_child. steps_tac. Qed.
Hint Resolve adv_set_expected_child : steps.

Lemma adv_drop_env e : steps adv (drop_env e).
Proof. unfold drop_env. steps_tac. Qed.
Hint Resolve adv_drop_env : steps.

Lemma adv_pop_expected_child_fds p a b : steps adv (pop_expected_child_fds p a b).
Proof. unfold pop_expected_child_fds. steps_tac. Qed.
Hint Resolve adv_pop_expected_child_fds : steps.


(** A new process gets a number that is not below the bound. *)
Lemma adv_new_Process pid ppid n wd um par fds k :
  steps adv (new_Process pid ppid n wd um par fds k).
Proof.
  intros w w' p [= <- <-] HN. split; cbn; [| | |lia|done|intros; eexists; split; [eassumption|lia]|
    exists []; by rewrite app_nil_r|].
  - intros q qr Hlt Hq. rewrite lookup_insert_ne by lia. exists qr. by splits.
  - intros q Hlt Hq. by rewrite lookup_insert_ne by lia.
  - intros Hb q Hle. cbn in Hle |- *. rewrite lookup_insert_ne by lia. apply Hb. lia.
  - intros _ Hq q Hin. destruct (Hq q Hin) as [Hlt Hrun]. split; cbn; [lia|].
    rewrite lookup_insert_ne by (unfold pid_ref in *; lia). done.
Qed.
Hint Resolve adv_new_Process : steps.

Lemma adv_new_ForkedProcess a b c d : steps adv (new_ForkedProcess a b c d).
Proof. unfold new_ForkedProcess. steps_tac. Qed.
Hint Resolve adv_new_ForkedProcess : steps.

Lemma adv_getForkedProcess a b : steps adv (getForkedProcess a b).
Proof. unfold getForkedProcess. steps_tac. Qed.
Hint Resolve adv_getForkedProcess : steps.

Lemma adv_closest_shortcut_point a : steps adv (closest_shortcut_point a).
Proof. unfold closest_shortcut_point. steps_tac. Qed.
Hint Resolve adv_closest_shortcut_point : steps.

Lemma adv_can_shortcut a : steps adv (can_shortcut a).
Proof. unfold can_shortcut. steps_tac. Qed.
Hint Resolve adv_can_shortcut : steps.

Lemma adv_fork_point a : steps adv (fork_point a).
Proof. unfold fork_point. steps_tac. Qed.
Hint Resolve adv_fork_point : steps.

Lemma adv_new_ExecedProcess a b c d e f g h i j k l : steps adv (new_ExecedProcess a b c d e f g h i j k l).
Proof. unfold new_ExecedProcess. steps_tac. Qed.
Hint Resolve adv_new_ExecedProcess : steps.


Lemma adv_maybe_set_jobserver_fds p r w : steps adv (upd_execed p (maybe_set_jobserver_fds r w)).
Proof.
  apply adv_upd_execed. intros x. unfold maybe_set_jobserver_fds. cbv zeta.
  repeat case_match; by apply exec_adv_same.
Qed.
Hint Resolve adv_maybe_set_jobserver_fds : steps.

Lemma adv_getExecedProcess a b c : steps adv (getExecedProcess a b c).
Proof. unfold getExecedProcess. steps_tac. Qed.
Hint Resolve adv_getExecedProcess : steps.

Lemma adv_set_parent a b : steps adv (set_parent a b).
Proof. unfold set_parent. steps_tac. Qed.
Hint Resolve adv_set_parent : steps.


Lemma adv_add_to_group p fd f l : steps adv (add_to_group p fd f l).
Proof. induction l as [|i l IH]; cbn; steps_tac. Qed.
Hint Resolve adv_add_to_group : steps.
Lemma adv_group_fds p fds acc : steps adv (group_fds p fds acc).
Proof. revert acc. induction fds as [|i fds IH]; intros acc; cbn; steps_tac. Qed.
Hint Resolve adv_group_fds : steps.

Lemma adv_with_start_offset a b : steps adv (with_start_offset a b).
Proof. unfold with_start_offset. steps_tac. Qed.
Hint Resolve adv_with_start_offset : steps.


Lemma adv_map_inherited p l : steps adv (map_inherited p l).
Proof. induction l as [|i l IH]; cbn; steps_tac. Qed.
Hint Resolve adv_map_inherited : steps.

Lemma adv_initialize p : steps adv (initialize p).
Proof. unfold initialize. steps_tac. Qed.
Hint Resolve adv_initialize : steps.

Lemma adv_update_rusage p a b : steps adv (update_rusage p a b).
Proof. unfold update_rusage. steps_tac. Qed.
Hint Resolve adv_update_rusage : steps.

Lemma adv_fork_parent p : steps adv (fork_parent p).
Proof. unfold fork_parent. steps_tac. Qed.
Hint Resolve adv_fork_parent : steps.

Lemma adv_fork_point_nn p : steps adv (fork_point_nn p).
Proof. unfold fork_point_nn. steps_tac. Qed.
Hint Resolve adv_fork_point_nn : steps.

Lemma adv_state_of p : steps adv (state_of p).
Proof. unfold state_of. steps_tac. Qed.
Hint Resolve adv_state_of : steps.


Lemma adv_last_exec_from n p : steps adv (last_exec_descendant_from n p).
Proof. revert p. induction n as [|n IH]; intros p; cbn; steps_tac. Qed.
Hint Resolve adv_last_exec_from : steps.

Lemma adv_last_exec_descendant p : steps adv (last_exec_descendant p).
Proof. unfold last_exec_descendant. steps_tac. Qed.
Hint Resolve adv_last_exec_descendant : steps.

Lemma adv_been_waited_for p : steps adv (been_waited_for p).
Proof. unfold been_waited_for. steps_tac. Qed.
Hint Resolve adv_been_waited_for : steps.


Lemma adv_foth_fuel n p : steps adv (foth_fuel n p).
Proof. revert p. induction n as [|n IH]; intros p; cbn; steps_tac. Qed.
Hint Resolve adv_foth_fuel : steps.

Lemma adv_finalized_or_terminated_and_has_orphan_and_finalized_children p : steps adv (finalized_or_terminated_and_has_orphan_and_finalized_children p).
Proof. unfold finalized_or_terminated_and_has_orphan_and_finalized_children. steps_tac. Qed.
Hint Resolve adv_finalized_or_terminated_and_has_orphan_and_finalized_children : steps.

Lemma adv_any_child_not_finalized p : steps adv (any_child_not_finalized p).
Proof. unfold any_child_not_finalized. steps_tac. Qed.
Hint Resolve adv_any_child_not_finalized : steps.

Lemma adv_any_child_not_finalized_or_terminated_with_orphan p : steps adv (any_child_not_finalized_or_terminated_with_orphan p).
Proof. unfold any_child_not_finalized_or_terminated_with_orphan. steps_tac. Qed.
Hint Resolve adv_any_child_not_finalized_or_terminated_with_orphan : steps.


Lemma adv_exec_chain n p f : (forall q, steps adv (f q)) -> steps adv (exec_chain n p f).
Proof. intros Hf. revert p. induction n as [|n IH]; intros p; cbn; steps_tac. Qed.
Ltac steps_rule ::= first [apply adv_forallM; intros ? | apply adv_exec_chain; intros ?].
Lemma adv_terminate n p : steps adv (terminate_top_orphans_fuel n p).
Proof.
  revert p. induction n as [|n IH]; intros p; cbn; steps_tac.
Qed.
Hint Resolve adv_terminate : steps.

Lemma adv_terminate_top_orphans p : steps adv (terminate_top_orphans p).
Proof. unfold terminate_top_orphans. steps_tac. Qed.
Hint Resolve adv_terminate_top_orphans : steps.

Lemma adv_maybe_send_on_finalized_ack p : steps adv (maybe_send_on_finalized_ack p).
Proof. unfold maybe_send_on_finalized_ack. steps_tac. Qed.
Hint Resolve adv_maybe_send_on_finalized_ack : steps.

Lemma adv_set_on_finalized_ack p a b : steps adv (set_on_finalized_ack p a b).
Proof. unfold set_on_finalized_ack. steps_tac. Qed.
Hint Resolve adv_set_on_finalized_ack : steps.

Lemma adv_can_ack_parent_wait p : steps adv (can_ack_parent_wait p).
Proof. unfold can_ack_parent_wait. steps_tac. Qed.
Hint Resolve adv_can_ack_parent_wait : steps.


Lemma adv_orphan_bubble_up n p : steps adv (orphan_bubble_up n p).
Proof. revert p. induction n as [|n IH]; intros p; cbn; steps_tac. Qed.
Hint Resolve adv_orphan_bubble_up : steps.

Lemma adv_set_has_orphan_descendant_bubble_up p : steps adv (set_has_orphan_descendant_bubble_up p).
Proof. unfold set_has_orphan_descendant_bubble_up. steps_tac. Qed.
Hint Resolve adv_set_has_orphan_descendant_bubble_up : steps.


(** Only a terminated process is finalized. *)
Lemma adv_do_finalize_base p : steps adv (do_finalize_base p).
Proof.
  intros w w' a H. unfold do_finalize_base, state_of, proc, gets, deref, upd_proc, proc, modify in H.
  apply bind_Ret in H as (w1 & s & H1 & H).
  apply bind_Ret in H1 as (w2 & pr & H1 & [= <- <-]).
  apply bind_Ret in H1 as (w3 & o & [= <- <-] & H1).
  destruct (w_procs w !! p) as [pr0|] eqn:E; [|done]. injection H1 as <- <-.
  apply bind_Ret in H as (w1 & u & H1 & H). case_bool_decide as Hs; [|done]. injection H1 as <- <-.
  apply bind_Ret in H as (w1 & pr & H1 & H).
  apply bind_Ret in H1 as (w3 & o & [= <- <-] & H1). rewrite E in H1. injection H1 as <- <-.
  injection H as <- <-. apply (adv_replace w p pr0); [done| |done]. intros _. rewrite Hs.
  split; [|done]. unfold proc_adv, kind_adv. cbn. rewrite Hs. splits; try done; [cbn; lia|].
  by destruct (kind_ pr0).
Qed.
Hint Resolve adv_do_finalize_base : steps.

Lemma do_finalize_base_done p w w' a :
  do_finalize_base p w = Ret (w', a) ->
  exists pr, w_procs w' !! p = Some pr /\ state_ pr = FB_PROC_FINALIZED.
Proof.
  intros H. unfold do_finalize_base in H. apply bind_Ret in H as (w1 & s & _ & H).
  apply bind_Ret in H as (w2 & u & _ & H). apply bind_Ret in H as (w3 & pr & _ & [= <- <-]).
  cbn. rewrite lookup_insert_eq. by eexists.
Qed.

Lemma forM_log_procs {A} (l : list A) (e : A -> event) w w' a :
  mforM l (fun x => log (e x)) w = Ret (w', a) -> w_procs w' = w_procs w.
Proof.
  revert w. induction l as [|x l IH]; intros w H; [by injection H as <- <-|].
  apply bind_Ret in H as (w1 & u & [= <- <-] & H). by rewrite (IH _ H).
Qed.

(** What is queued was just finalized. *)
Lemma adv_finalize_queue p (l : list nat) :
  steps adv (do_finalize_base p ≫= fun _ => mforM l (fun q => log (EvPipeFinish q)) ≫= fun _ =>
    modify (fun w => set_proc_gc_queue_ (proc_gc_queue_ w ++ [p]) w)).
Proof.
  intros w w' a H HN. apply bind_Ret in H as (w1 & u & H1 & H).
  destruct (do_finalize_base_done _ _ _ _ H1) as (pr & Hp & Hs).
  apply bind_Ret in H as (w2 & u2 & H2 & [= <- <-]).
  pose proof (forM_log_procs _ _ _ _ _ H2) as Hw.
  assert (Hadv : adv w w2).
  { transitivity w1; [by eapply adv_do_finalize_base|].
    revert H2. apply (steps_forM adv). intros q. apply adv_log_ev. }
  destruct (Hadv HN) as [A1 A2 A0 A3 A4 A5 A6 A7]. split; cbn; try done.
  intros Hb Hq q Hin. cbn in *. apply elem_of_app in Hin as [Hin|Hin]; [by apply (A7 Hb Hq)|].
  apply list_elem_of_singleton in Hin as ->. rewrite <- Hw in Hp. split.
  - destruct (decide (w_fb_pid_counter w2 <= p)%nat) as [Hle|]; [|unfold pid_ref in *; lia].
    specialize (A0 Hb p Hle). congruence.
  - intros pr'. rewrite Hp. intros [= <-]. by rewrite Hs.
Qed.
Hint Resolve adv_finalize_queue : steps.

Lemma adv_do_finalize_execed p : steps adv (do_finalize_execed p).
Proof. unfold do_finalize_execed. steps_tac. Qed.
Hint Resolve adv_do_finalize_execed : steps.

Lemma adv_do_finalize_forked p : steps adv (do_finalize_forked p).
Proof. unfold do_finalize_forked. steps_tac. Qed.
Hint Resolve adv_do_finalize_forked : steps.

Lemma adv_do_finalize p : steps adv (do_finalize p).
Proof. unfold do_finalize. steps_tac. Qed.
Hint Resolve adv_do_finalize : steps.

Lemma adv_children_permit p : steps adv (children_permit p).
Proof. unfold children_permit. steps_tac. Qed.
Hint Resolve adv_children_permit : steps.

Lemma adv_waiter_permits p : steps adv (waiter_permits p).
Proof. unfold waiter_permits. steps_tac. Qed.
Hint Resolve adv_waiter_permits : steps.


Lemma adv_maybe_finalize_fuel n p : steps adv (maybe_finalize_fuel n p).
Proof. revert p. induction n as [|n IH]; intros p; cbn; steps_tac. Qed.
Hint Resolve adv_maybe_finalize_fuel : steps.

Lemma adv_maybe_finalize p : steps adv (maybe_finalize p).
Proof. unfold maybe_finalize. steps_tac. Qed.
Hint Resolve adv_maybe_finalize : steps.

Lemma adv_maybe_finalize_with_missed_static_exec_child p : steps adv (maybe_finalize_with_missed_static_exec_child p).
Proof. unfold maybe_finalize_with_missed_static_exec_child. steps_tac. Qed.
Hint Resolve adv_maybe_finalize_with_missed_static_exec_child : steps.

Lemma adv_set_been_waited_for p : steps adv (set_been_waited_for p).
Proof. unfold set_been_waited_for. steps_tac. Qed.
Hint Resolve adv_set_been_waited_for : steps.


Lemma adv_mark_orphans l b : steps adv (mark_orphans l b).
Proof. revert b. induction l as [|c l IH]; intros b; cbn; steps_tac. Qed.
Hint Resolve adv_mark_orphans : steps.

Lemma adv_insert_process p : steps adv (insert_process p).
Proof. unfold insert_process. steps_tac. Qed.
Hint Resolve adv_insert_process : steps.

Lemma adv_insert p : steps adv (insert p).
Proof. unfold insert. steps_tac. Qed.
Hint Resolve adv_insert : steps.

Lemma adv_save_child_status a b c : steps adv (save_child_status a b c).
Proof. unfold save_child_status. steps_tac. Qed.
Hint Resolve adv_save_child_status : steps.

Lemma adv_sigchild_cb a b : steps adv (sigchild_cb a b).
Proof. unfold sigchild_cb. steps_tac. Qed.
Hint Resolve adv_sigchild_cb : steps.


(** * Messages *)

(** A computation whose result is a new process. *)
Definition returns_new (m : M pid_ref) : Prop :=
  forall w w' p, (N <= w_fb_pid_counter w)%nat -> m w = Ret (w', p) -> (N <= p)%nat.

Lemma returns_new_bind {A} (m : M A) (f : A -> M pid_ref) (Q : A -> Prop) :
  steps adv m -> (forall w w' a, (N <= w_fb_pid_counter w)%nat -> m w = Ret (w', a) -> Q a) ->
  (forall a, Q a -> returns_new (f a)) -> returns_new (m ≫= f).
Proof.
  intros Hm HQ Hf w w' p HN H. apply bind_Ret in H as (w1 & a & H1 & H2).
  eapply Hf; [by eapply HQ| |exact H2]. pose proof (adv_counter _ _ _ _ (Hm _ _ _ H1 HN)). lia.
Qed.

Lemma steps_bind_new {B} (m : M pid_ref) (f : pid_ref -> M B) :
  steps adv m -> returns_new m -> (forall p, (N <= p)%nat -> steps adv (f p)) ->
  steps adv (m ≫= f).
Proof.
  intros Hm Hn Hf w w' b H HN. apply bind_Ret in H as (w1 & p & H1 & H2).
  assert (HR : adv w w'); [|by apply HR].
  transitivity w1; [by eapply Hm|]. eapply Hf; [|exact H2]. by eapply Hn.
Qed.

Lemma new_Process_new pid ppid n wd um par fds k :
  returns_new (new_Process pid ppid n wd um par fds k).
Proof. intros w w' p HN [= <- <-]. done. Qed.

Lemma returns_new_ret p : (N <= p)%nat -> returns_new (ret p).
Proof. by intros Hp w w' q _ [= _ <-]. Qed.

(** Skip a computation before, or look at the process made by, the creation. *)
Ltac new_skip := eapply (returns_new_bind _ _ (fun _ => True)); [steps_tac|done|intros ? _].
Ltac new_made L := eapply (returns_new_bind _ _ (fun p => (N <= p)%nat));
  [steps_tac|intros ? ? ? ? ?; by eapply L|intros ? ?].

Lemma new_ForkedProcess_new a b c d : returns_new (new_ForkedProcess a b c d).
Proof.
  unfold new_ForkedProcess. do 2 new_skip. new_made new_Process_new. new_skip.
  by apply returns_new_ret.
Qed.
Lemma getForkedProcess_new a b : returns_new (getForkedProcess a b).
Proof. unfold getForkedProcess. do 2 new_skip. apply new_ForkedProcess_new. Qed.
Lemma new_ExecedProcess_new a b c d e f g h i j k l :
  returns_new (new_ExecedProcess a b c d e f g h i j k l).
Proof.
  unfold new_ExecedProcess. do 3 new_skip. new_made new_Process_new. new_skip.
  by apply returns_new_ret.
Qed.
Lemma getExecedProcess_new a b c : returns_new (getExecedProcess a b c).
Proof.
  unfold getExecedProcess. new_skip. destruct a0 as [[? ?] ?]. new_made new_ExecedProcess_new.
  do 2 new_skip. by apply returns_new_ret.
Qed.

(** Whatever happens to a new process. *)
Lemma adv_upd_new p f :
  (N <= p)%nat -> (forall pr, state_ (f pr) = FB_PROC_RUNNING -> state_ pr = FB_PROC_RUNNING) ->
  steps adv (upd_proc p f).
Proof. intros Hp. apply adv_upd_proc. intros Hlt. exfalso. lia. Qed.
Hint Extern 4 (steps (advances _ _) (upd_proc _ _)) =>
  (apply adv_upd_new; [assumption|intros; done]) : steps.

Section WithCacher.
Context {K : Cacher} {HK : CacherOk}.

Lemma adv_fingerprint p : steps adv (fingerprint p).
Proof. apply fingerprint_advances. Qed.
Lemma adv_cacher_shortcut p : steps adv (cacher_shortcut p).
Proof. apply cacher_shortcut_advances. Qed.
Hint Resolve adv_fingerprint adv_cacher_shortcut : steps.

Lemma adv_reject_exec_child a : steps adv (reject_exec_child a).
Proof. unfold reject_exec_child. steps_tac. Qed.
Hint Resolve adv_reject_exec_child : steps.
Lemma adv_send_maybe_rewritten_cmd a b c : steps adv (send_maybe_rewritten_cmd a b c).
Proof. unfold send_maybe_rewritten_cmd. steps_tac. Qed.
Hint Resolve adv_send_maybe_rewritten_cmd : steps.
Lemma adv_match_proc a b : steps adv (match_proc a b).
Proof. unfold match_proc. steps_tac. Qed.
Hint Resolve adv_match_proc : steps.
Lemma adv_apply_matchers a : steps adv (apply_matchers a).
Proof. unfold apply_matchers. steps_tac. Qed.
Hint Resolve adv_apply_matchers : steps.
Lemma adv_shortcut a : steps adv (shortcut a).
Proof. unfold shortcut. steps_tac. Qed.
Hint Resolve adv_shortcut : steps.
Lemma adv_replace_fd a b c : steps adv (replace_fd a b c).
Proof. unfold replace_fd. steps_tac. Qed.
Hint Resolve adv_replace_fd : steps.
Lemma adv_reopen_pipe a b c : steps adv (reopen_pipe a b c).
Proof. unfold reopen_pipe. steps_tac. Qed.
Hint Resolve adv_reopen_pipe : steps.
Lemma adv_reopen_files p l acc : steps adv (reopen_files p l acc).
Proof. revert acc. induction l as [|i l IH]; intros acc; cbn; steps_tac. Qed.
Hint Resolve adv_reopen_files : steps.
Lemma adv_accept_exec_child a b c : steps adv (accept_exec_child a b c).
Proof. unfold accept_exec_child. steps_tac. Qed.
Hint Resolve adv_accept_exec_child : steps.
Lemma adv_AddPopenedProcess a b c : steps adv (AddPopenedProcess a b c).
Proof. unfold AddPopenedProcess. steps_tac. Qed.
Hint Resolve adv_AddPopenedProcess : steps.
Lemma adv_PopPopenedProcess a b : steps adv (PopPopenedProcess a b).
Proof. unfold PopPopenedProcess. steps_tac. Qed.
Hint Resolve adv_PopPopenedProcess : steps.
Lemma adv_popen_pipe a : steps adv (popen_pipe a).
Proof. unfold popen_pipe. steps_tac. Qed.
Hint Resolve adv_popen_pipe : steps.
Lemma adv_set_nonblock a b : steps adv (set_nonblock a b).
Proof. unfold set_nonblock. steps_tac. Qed.
Hint Resolve adv_set_nonblock : steps.
Lemma adv_new_pipe a b : steps adv (new_pipe a b).
Proof. unfold new_pipe. steps_tac. Qed.
Hint Resolve adv_new_pipe : steps.
Lemma adv_accept_popen_child a b : steps adv (accept_popen_child a b).
Proof. unfold accept_popen_child. steps_tac. Qed.
Hint Resolve adv_accept_popen_child : steps.
Lemma adv_pid2proc a : steps adv (pid2proc a).
Proof. unfold pid2proc. steps_tac. Qed.
Hint Resolve adv_pid2proc : steps.
Lemma adv_close_popen_fds a b : steps adv (close_popen_fds a b).
Proof. unfold close_popen_fds. steps_tac. Qed.
Hint Resolve adv_close_popen_fds : steps.
Lemma adv_posix_spawn_preopen_files a b : steps adv (posix_spawn_preopen_files a b).
Proof. unfold posix_spawn_preopen_files. steps_tac. Qed.
Hint Resolve adv_posix_spawn_preopen_files : steps.
Lemma adv_posix_spawn_unopen_files a b : steps adv (posix_spawn_unopen_files a b).
Proof. unfold posix_spawn_unopen_files. steps_tac. Qed.
Hint Resolve adv_posix_spawn_unopen_files : steps.
Lemma adv_process_posix_spawn_file_actions a b : steps adv (process_posix_spawn_file_actions a b).
Proof. unfold process_posix_spawn_file_actions. steps_tac. Qed.
Hint Resolve adv_process_posix_spawn_file_actions : steps.
Lemma adv_resolve_command_from_msg a b c d : steps adv (resolve_command_from_msg a b c d).
Proof. unfold resolve_command_from_msg. steps_tac. Qed.
Hint Resolve adv_resolve_command_from_msg : steps.
Lemma adv_child_waited a b c d e : steps adv (child_waited a b c d e).
Proof. unfold child_waited. steps_tac. Qed.
Hint Resolve adv_child_waited : steps.
Lemma adv_touch_r a b c d : steps adv (touch_r a b c d).
Proof. unfold touch_r. steps_tac. Qed.
Hint Resolve adv_touch_r : steps.
Lemma adv_touch_source a b c d : steps adv (touch_source a b c d).
Proof. unfold touch_source. steps_tac. Qed.
Hint Resolve adv_touch_source : steps.
Lemma adv_no_name a b : steps adv (no_name a b).
Proof. unfold no_name. steps_tac. Qed.
Hint Resolve adv_no_name : steps.
Lemma adv_handle_syscall a b c d : steps adv (handle_syscall a b c d).
Proof. unfold handle_syscall. steps_tac. Qed.
Hint Resolve adv_handle_syscall : steps.
Lemma adv_other_msg a b : steps adv (other_msg a b).
Proof. unfold other_msg. steps_tac. Qed.
Hint Resolve adv_other_msg : steps.

Lemma adv_lifecycle_msg p msg a b :
  msg <> Mfork_parent -> steps adv (lifecycle_msg p msg a b).
Proof.
  intros Hne. unfold lifecycle_msg. apply steps_bind; [typeclasses eauto|steps_tac|intros pr].
  destruct msg; try done; unfold done_, no_ack, resource_usage;
    try (apply steps_bind_new; [steps_tac|apply getForkedProcess_new|intros q Hq]); steps_tac.
Qed.

End WithCacher.

End WithConfig.
End Order.

(** The facts hold for every bound and set, outside of the section too. *)
#[export] Hint Resolve
  adv_log_ev adv_proc adv_execed adv_forked adv_disable_only_this adv_skip_disabled
  adv_chain_fuel adv_exec_point adv_parent_exec_point adv_exec_point_nn adv_next adv_bubble
  adv_get_fd adv_ofd_of adv_bubble_up_to_excl adv_gen_of adv_bubble_up adv_common_exec_ancestor
  adv_set_writers adv_env adv_reason_with_fd adv_bubble_fd adv_bubble_excl_fd adv_bubble_file
  adv_bubble_str adv_register adv_new_update adv_open_for_writing adv_close_for_writing
  adv_new_FileOFD adv_share_ofd adv_release_ofd adv_fresh_ffd adv_new_FileFD_type
  adv_new_FileFD_pipe adv_new_FileFD_dup adv_new_FileFD_name adv_copy_FileFD adv_drop_FileFD
  adv_clear_pipe adv_at_fd adv_add_filefd_to adv_add_filefd adv_set_fd_slot adv_add_pipe
  adv_drain_all_pipes adv_get_fd_filename adv_ack adv_get_absolute adv_is_qemu adv_open_update
  adv_register_or_disable adv_disable_here adv_disable_here_fd adv_disable_here_str
  adv_handle_close_ffd adv_handle_close adv_handle_force_close adv_close_fds
  adv_reset_file_fd_pipe_refs adv_handle_close_range adv_handle_closefrom adv_handle_pre_open
  adv_handle_open adv_handle_freopen adv_handle_dlopen adv_handle_scandirat adv_handle_truncate
  adv_handle_unlink adv_handle_rmdir adv_handle_mkdir adv_handle_fstatat adv_handle_statfs
  adv_handle_mktemp adv_handle_faccessat adv_opened_by_exec_point adv_handle_fchmodat
  adv_handle_shm_open adv_add_special adv_handle_memfd_create adv_handle_timerfd_create
  adv_handle_epoll_create adv_handle_eventfd adv_handle_signalfd adv_handle_pipe_request
  adv_handle_pipe_fds adv_add_socket adv_handle_socket adv_handle_socketpair adv_handle_mkfifo
  adv_handle_connect adv_handle_dup3 adv_handle_rename adv_handle_symlink
  adv_set_cloexec_or_disable adv_handle_clear_cloexec adv_handle_fcntl adv_handle_ioctl
  adv_handle_read_from_inherited adv_handle_write_to_inherited adv_handle_seek_in_inherited
  adv_handle_inherited_fd_offset adv_handle_recvmsg_scm_rights adv_add_wd adv_handle_fail_wd
  adv_handle_set_wd adv_handle_set_fwd adv_handle_umask adv_pass_on_loop adv_pass_on_fds
  adv_drop_fds adv_set_expected_child adv_drop_env adv_pop_expected_child_fds adv_new_Process
  adv_new_ForkedProcess adv_getForkedProcess adv_closest_shortcut_point adv_can_shortcut
  adv_fork_point adv_new_ExecedProcess adv_maybe_set_jobserver_fds adv_getExecedProcess
  adv_set_parent adv_add_to_group adv_group_fds adv_with_start_offset adv_map_inherited
  adv_initialize adv_update_rusage adv_fork_parent adv_fork_point_nn adv_state_of
  adv_last_exec_from adv_last_exec_descendant adv_been_waited_for adv_foth_fuel
  adv_finalized_or_terminated_and_has_orphan_and_finalized_children adv_any_child_not_finalized
  adv_any_child_not_finalized_or_terminated_with_orphan adv_terminate adv_terminate_top_orphans
  adv_maybe_send_on_finalized_ack adv_set_on_finalized_ack adv_can_ack_parent_wait
  adv_orphan_bubble_up adv_set_has_orphan_descendant_bubble_up adv_do_finalize_base
  adv_do_finalize_execed adv_do_finalize_forked adv_do_finalize adv_children_permit
  adv_waiter_permits adv_maybe_finalize_fuel adv_maybe_finalize
  adv_maybe_finalize_with_missed_static_exec_child adv_set_been_waited_for adv_mark_orphans
  adv_insert_process adv_insert adv_save_child_status adv_sigchild_cb adv_fingerprint
  adv_cacher_shortcut adv_reject_exec_child adv_send_maybe_rewritten_cmd adv_match_proc
  adv_apply_matchers adv_shortcut adv_replace_fd adv_reopen_pipe adv_reopen_files
  adv_accept_exec_child adv_AddPopenedProcess adv_PopPopenedProcess adv_popen_pipe
  adv_set_nonblock adv_new_pipe adv_accept_popen_child adv_pid2proc adv_close_popen_fds
  adv_posix_spawn_preopen_files adv_posix_spawn_unopen_files
  adv_process_posix_spawn_file_actions adv_resolve_command_from_msg adv_child_waited
  adv_touch_r adv_touch_source adv_no_name adv_handle_syscall adv_other_msg : steps.
#[export] Hint Extern 3 (steps (advances _ _) (modify _)) => (apply adv_modify; intros; done) : steps.
#[export] Hint Extern 3 (steps (advances _ _) (upd_proc _ _)) =>
  (apply adv_upd_proc; intros; [split; [by apply proc_adv_same|done]|done]) : steps.
#[export] Hint Extern 3 (steps (advances _ _) (upd_execed _ _)) =>
  (apply adv_upd_execed; intros; by apply exec_adv_same) : steps.
#[export] Hint Extern 3 (steps (advances _ _) (upd_forked _ _)) =>
  (apply adv_upd_forked; intros; unfold fork_adv; cbn; by splits) : steps.

End Progress.
