(* ===== verification/Supervisor.v ===== *)
(** The supervisor as a transition system: its state changes when a connection is
    opened, when a message arrives, when a connection is closed, when a child exits,
    and when finalized processes are garbage collected (the event loop of firebuild.cc
    calls exactly these).  The theorems of this file hold for every sequence of such
    events, whatever the intercepted processes do. *)

From stdpp Require Import base list strings option gmap sets.
From Stdlib Require Import ZArith Lia Ascii.
From S2P Require Import Prelude FileUsage Commands World Shortcut Handlers Lifecycle Messages Progress.

Local Open Scope Z_scope.

Module Supervisor.
Import Progress.

Inductive input :=
| IConnect (conn : Z)
| IRead (conn : Z) (l : list (Z * packet))
| IHangup (conn : Z)
| ISigchld (reaped : list (Z * Z)) (no_children : bool)
| IGc.

Definition handle_input {C : Config} {S0 : Sys} {K : Cacher} (i : input) : M unit :=
  match i with
  | IConnect conn => conn_open conn
  | IRead conn l => conn_message conn l
  | IHangup conn => conn_close conn
  | ISigchld reaped no_children => sigchild_cb reaped no_children
  | IGc => GcProcesses
  end.

(** What [delete_process_subtree(p)] reaches: [p], what it execed, what it forked, and
    so on. *)
Inductive below (w : World) : pid_ref -> pid_ref -> Prop :=
| below_self p : below w p p
| below_exec p pr c q : w_procs w !! p = Some pr -> exec_child_ pr = Some c -> below w c q -> below w p q
| below_fork p pr c q : w_procs w !! p = Some pr -> c ∈ fork_children_ pr -> below w c q -> below w p q.

(** No process of a connection is below another process that waits to be collected. *)
Definition gc_safe (w : World) : Prop :=
  forall conn p r, w_conns w !! conn = Some (Some p) -> r ∈ proc_gc_queue_ w -> below w r p -> r = p.

(** Any number of events; the answers of the system and what the cacher does may
    differ from one to the next.  In a [safe] run every collection is [gc_safe]. *)
Inductive runs {C : Config} (safe : bool) : World -> World -> Prop :=
| runs_nil w : runs safe w w
| runs_cons w w1 w2 (S0 : Sys) (K : Cacher) (HK : CacherOk) i :
    handle_input i w = Ret (w1, tt) -> (safe = true -> i = IGc -> gc_safe w) ->
    runs safe w1 w2 -> runs safe w w2.

(** * Invariant and order *)

(** The process of a connection is running and is no other connection's; processes
    that wait to be collected are not running. *)
Record conns_ok (w : World) : Prop := {
  ok_bounded : bounded w;
  ok_running : forall conn p pr, w_conns w !! conn = Some (Some p) -> w_procs w !! p = Some pr ->
    state_ pr = FB_PROC_RUNNING;
  ok_known : forall conn p, w_conns w !! conn = Some (Some p) -> (p < w_fb_pid_counter w)%nat;
  ok_inj : forall c1 c2 p, w_conns w !! c1 = Some (Some p) -> w_conns w !! c2 = Some (Some p) -> c1 = c2;
  ok_queue : queue_ok w
}.

(** The process of a connection exists: the supervisor's pointer to it is valid. *)
Definition linked (w : World) : Prop :=
  forall conn p, w_conns w !! conn = Some (Some p) -> is_Some (w_procs w !! p).

(** No process comes back after it was deleted; one that stays has advanced. *)
Record progress (w w' : World) : Prop := {
  pg_procs : forall (p : pid_ref) pr', (p < w_fb_pid_counter w)%nat -> w_procs w' !! p = Some pr' ->
    exists pr, w_procs w !! p = Some pr /\ proc_adv pr pr';
  pg_counter : (w_fb_pid_counter w <= w_fb_pid_counter w')%nat;
  pg_generation : forall n g, generation_db_ w !! n = Some g ->
    exists g', generation_db_ w' !! n = Some g' /\ g <= g';
  pg_log : exists evs, w_log w' = w_log w ++ evs
}.

#[export] Instance progress_preorder : PreOrder progress.
Proof.
  split.
  - intros w. split; [intros p pr _ Hp; exists pr; by split|done|
      intros; eexists; split; [eassumption|lia]|]. exists []. by rewrite app_nil_r.
  - intros a b c [A1 A2 A3 [e1 A4]] [B1 B2 B3 [e2 B4]]. split.
    + intros p pr' Hlt Hp. destruct (B1 p pr' ltac:(lia) Hp) as (pr1 & Hp1 & ?).
      destruct (A1 p pr1 Hlt Hp1) as (pr & ? & ?). exists pr. split; [done|by etransitivity].
    + lia.
    + intros n g Hg. destruct (A3 _ _ Hg) as (g1 & Hg1 & ?).
      destruct (B3 _ _ Hg1) as (g2 & Hg2 & ?). exists g2. split; [done|lia].
    + exists (e1 ++ e2). by rewrite B4, A4, app_assoc.
Qed.

(** A step that leaves the connections alone; only [T] may stop running and only [D] may
    be deleted. *)
Record quiet (T D : pid_ref -> Prop) (w w' : World) : Prop := {
  q_progress : progress w w';
  q_bounded : bounded w -> bounded w';
  q_conns : w_conns w' = w_conns w;
  q_running : forall (p : pid_ref) pr pr', (p < w_fb_pid_counter w)%nat ->
    w_procs w !! p = Some pr -> w_procs w' !! p = Some pr' ->
    state_ pr = FB_PROC_RUNNING -> ~ T p -> state_ pr' = FB_PROC_RUNNING;
  q_kept : forall p : pid_ref, (p < w_fb_pid_counter w)%nat -> is_Some (w_procs w !! p) -> ~ D p ->
    is_Some (w_procs w' !! p);
  q_queue : bounded w -> queue_ok w -> queue_ok w'
}.

Definition nobody (p : pid_ref) : Prop := False.
Lemma not_nobody p : ~ nobody p.
Proof. by intros H. Qed.

#[export] Instance quiet_preorder T D : PreOrder (quiet T D).
Proof.
  split.
  - intros w. split; [reflexivity|done|done| |done|done]. intros p pr pr' _ H1 H2. by simplify_eq.
  - intros a b c [A1 A2 A3 A4 A5 A6] [B1 B2 B3 B4 B5 B6].
    pose proof (pg_counter _ _ A1) as Hle.
    split; [by etransitivity|auto|congruence| | |auto].
    + intros p pr pr' Hlt Hp Hp' Hr HT.
      destruct (pg_procs _ _ B1 p pr') as (pr1 & Hp1 & _); [lia|done|].
      eapply (B4 p pr1); [lia|done|done| |done]. by eapply (A4 p pr).
    + intros p Hlt Hp HD. apply B5; [lia| |done]. by apply A5.
Qed.

Lemma quiet_of_advances T D w w' : advances (w_fb_pid_counter w) T w w' -> quiet T D w w'.
Proof.
  intros H. destruct (H (le_n _)) as [H1 H2 H0 H3 H4 H5 H6 H7].
  assert (Hback : forall (p : pid_ref) pr', (p < w_fb_pid_counter w)%nat -> w_procs w' !! p = Some pr' ->
    exists pr, w_procs w !! p = Some pr /\ proc_adv pr pr' /\
      (state_ pr = FB_PROC_RUNNING -> ~ T p -> state_ pr' = FB_PROC_RUNNING)).
  { intros p pr' Hlt Hp. destruct (w_procs w !! p) as [pr|] eqn:E.
    - destruct (H1 p pr Hlt E) as (pr1 & Hp1 & ? & ?). simplify_eq. exists pr. by splits.
    - rewrite (H2 p Hlt E) in Hp. done. }
  split; [split|done|done| | |done]; [|done|done|done| |].
  - intros p pr' Hlt Hp. destruct (Hback p pr' Hlt Hp) as (pr & ? & ? & _). eauto.
  - intros p pr pr' Hlt Hp Hp'. destruct (Hback p pr' Hlt Hp') as (pr1 & ? & ? & ?). by simplify_eq.
  - intros p Hlt [pr Hp] _. destruct (H1 p pr Hlt Hp) as (pr' & ? & _). by exists pr'.
Qed.

Lemma steps_quiet {A} T D (m : M A) :
  (forall N, steps (advances N T) m) -> steps (quiet T D) m.
Proof. intros H w w' a Hm. apply quiet_of_advances. by eapply H. Qed.

Lemma quiet_ok D w w' : quiet nobody D w w' -> conns_ok w -> conns_ok w'.
Proof.
  intros [Hp Hb Hc Hr _ Hq] [K0 K1 K2 K3 K4].
  assert (Hcnt := pg_counter _ _ Hp).
  split; [by apply Hb| | |rewrite Hc; done|by apply Hq]; rewrite Hc.
  - intros conn p pr' Hconn Hp'. pose proof (K2 _ _ Hconn) as Hlt.
    destruct (pg_procs _ _ Hp p pr' Hlt Hp') as (pr & Hpr & _).
    eapply (Hr p pr); [done|done|done|by eapply K1|apply not_nobody].
  - intros conn p Hconn. specialize (K2 _ _ Hconn). lia.
Qed.

Lemma quiet_linked w w' : quiet nobody nobody w w' -> conns_ok w -> linked w -> linked w'.
Proof.
  intros Hq Hok Hl conn p. rewrite (q_conns _ _ _ _ Hq). intros Hc.
  apply (q_kept _ _ _ _ Hq); [by apply (ok_known _ Hok conn)|by apply (Hl conn)|apply not_nobody].
Qed.

Lemma same_progress w w' :
  w_procs w' = w_procs w -> w_fb_pid_counter w' = w_fb_pid_counter w ->
  generation_db_ w' = generation_db_ w -> w_log w' = w_log w -> progress w w'.
Proof.
  intros H1 H2 H3 H4. split; rewrite ?H1, ?H2, ?H3, ?H4.
  - intros p pr _ Hp. exists pr. by split.
  - done.
  - intros n g Hg. exists g. split; [done|lia].
  - exists []. by rewrite app_nil_r.
Qed.

(** What every event does. *)
Definition keeps (w w' : World) : Prop :=
  conns_ok w -> conns_ok w' /\ progress w w' /\ (linked w -> linked w').

#[export] Instance keeps_preorder : PreOrder keeps.
Proof.
  split.
  - intros w H. splits; [done|reflexivity|done].
  - intros a b c HA HB H. destruct (HA H) as (H1 & ? & ?). destruct (HB H1) as (? & ? & ?).
    splits; [done|by etransitivity|auto].
Qed.

Lemma steps_keeps {A} (m : M A) : steps (quiet nobody nobody) m -> steps keeps m.
Proof.
  intros H w w' a Hm Hok. specialize (H w w' a Hm).
  splits; [by eapply quiet_ok|apply H|by apply quiet_linked].
Qed.

(** * Linking a new process to a connection *)

(** A process that was just made, and is not linked yet. *)
Record unlinked (p : pid_ref) (w : World) : Prop := {
  un_ok : conns_ok w;
  un_known : (p < w_fb_pid_counter w)%nat;
  un_running : forall pr, w_procs w !! p = Some pr -> state_ pr = FB_PROC_RUNNING;
  un_free : forall conn, w_conns w !! conn <> Some (Some p)
}.

Definition links (p : pid_ref) (w w' : World) : Prop :=
  unlinked p w -> conns_ok w' /\ progress w w' /\ (linked w -> is_Some (w_procs w !! p) -> linked w').

Lemma quiet_unlinked p w w' : quiet nobody nobody w w' -> unlinked p w -> unlinked p w'.
Proof.
  intros Hq [H1 H2 H3 H4]. pose proof (quiet_ok _ _ _ Hq H1) as Hok. destruct Hq as [Hp Hb Hc Hr _ _].
  split; [done|pose proof (pg_counter _ _ Hp); lia| |by rewrite Hc].
  intros pr' Hp'. destruct (pg_procs _ _ Hp p pr' H2 Hp') as (pr & Hpr & _).
  eapply (Hr p pr); [done|done|done|by apply H3|apply not_nobody].
Qed.

Lemma links_bind_quiet {A B} p (m : M A) (f : A -> M B) :
  steps (quiet nobody nobody) m -> (forall a, steps (links p) (f a)) -> steps (links p) (m ≫= f).
Proof.
  intros Hm Hf w w' b H Hu. apply bind_Ret in H as (w1 & a & H1 & H2).
  specialize (Hm _ _ _ H1). destruct (Hf a w1 w' b H2) as (? & ? & Hl); [by eapply quiet_unlinked|].
  splits; [done|etransitivity; [apply Hm|done]|]. intros Hw Hp.
  apply Hl; [apply (quiet_linked w); [done|apply Hu|done]|].
  apply (q_kept _ _ _ _ Hm); [exact (un_known _ _ Hu)|done|apply not_nobody].
Qed.

Lemma links_bind_keeps {A B} p (m : M A) (f : A -> M B) :
  steps (links p) m -> (forall a, steps keeps (f a)) -> steps (links p) (m ≫= f).
Proof.
  intros Hm Hf w w' b H Hu. apply bind_Ret in H as (w1 & a & H1 & H2).
  destruct (Hm _ _ _ H1 Hu) as (Hok & ? & ?). destruct (Hf a w1 w' b H2 Hok) as (? & ? & ?).
  splits; [done|by etransitivity|auto].
Qed.

Lemma links_keeps {A} p (m : M A) : steps keeps m -> steps (links p) m.
Proof.
  intros H w w' a Hm Hu. destruct (H _ _ _ Hm (un_ok _ _ Hu)) as (? & ? & ?). splits; auto.
Qed.

Lemma links_set_conn conn p : steps (links p) (set_conn conn p).
Proof.
  intros w w' a H [Hok Hk Hr Hf]. unfold set_conn in H.
  apply bind_Ret in H as (w1 & u & H1 & H). apply bind_Ret in H1 as (w2 & o & [= <- <-] & H1).
  destruct (w_conns w !! conn) as [ctx|] eqn:E; [|done]. injection H1 as <- <-.
  injection H as <- <-. destruct Hok as [K0 K1 K2 K3 K4]. splits.
  - split; cbn; [done| | | |done].
    + intros c q pr. destruct (decide (conn = c)) as [<-|Hne].
      * rewrite lookup_insert_eq. intros [= <-]. apply Hr.
      * rewrite lookup_insert_ne by done. apply K1.
    + intros c q. destruct (decide (conn = c)) as [<-|Hne].
      * rewrite lookup_insert_eq. by intros [= <-].
      * rewrite lookup_insert_ne by done. apply K2.
    + intros c1 c2 q H1 H2. destruct (decide (conn = c1)) as [<-|N1], (decide (conn = c2)) as [<-|N2];
        try done; rewrite ?lookup_insert_eq in *; rewrite ?lookup_insert_ne in * by done.
      * injection H1 as <-. by apply Hf in H2.
      * injection H2 as <-. by apply Hf in H1.
      * by eapply K3.
  - by apply same_progress.
  - intros Hl Hp c q. cbn. destruct (decide (conn = c)) as [<-|Hne].
    + rewrite lookup_insert_eq. by intros [= <-].
    + rewrite lookup_insert_ne by done. apply Hl.
Qed.

(** Computations that make a process. *)
Definition makes (m : M pid_ref) : Prop :=
  forall w w' p, m w = Ret (w', p) ->
    (p < w_fb_pid_counter w')%nat /\
    exists pr, w_procs w' !! p = Some pr /\ state_ pr = FB_PROC_RUNNING.

Lemma makes_bind {A} (m : M A) f : (forall a, makes (f a)) -> makes (m ≫= f).
Proof. intros Hf w w' p H. apply bind_Ret in H as (w1 & a & _ & H2). by eapply Hf. Qed.

(** The result of a computation, whatever it does. *)
Definition gives {A} (a : A) (m : M A) : Prop := forall w w' b, m w = Ret (w', b) -> b = a.

Lemma gives_bind {A B} (m : M A) (f : A -> M B) b : (forall a, gives b (f a)) -> gives b (m ≫= f).
Proof. intros Hf w w' c H. apply bind_Ret in H as (w1 & a & _ & H2). by eapply Hf. Qed.
Lemma gives_ret {A} (a : A) : gives a (ret a).
Proof. by intros w w' b [= _ <-]. Qed.

Lemma makes_after (m : M pid_ref) (f : pid_ref -> M pid_ref) :
  makes m -> (forall p, steps (quiet nobody nobody) (f p)) -> (forall p, gives p (f p)) ->
  makes (m ≫= f).
Proof.
  intros Hm Hk Hf w w' p H. apply bind_Ret in H as (w1 & q & H1 & H2).
  pose proof (Hf q _ _ _ H2) as ->.
  destruct (Hm _ _ _ H1) as (Hlt & pr & Hpr & Hr). destruct (Hk q _ _ _ H2) as [Hp _ _ Hrun Hkept _].
  split; [pose proof (pg_counter _ _ Hp); lia|].
  destruct (Hkept q Hlt) as [pr' Hp']; [by exists pr|apply not_nobody|]. exists pr'. split; [done|].
  eapply (Hrun q pr); [done|done|done|done|apply not_nobody].
Qed.

(** Make a process, then link it. *)
Lemma keeps_link {B} (m : M pid_ref) (f : pid_ref -> M B) :
  (forall N, steps (advances N (fun _ => False)) m) -> (forall N, returns_new (N := N) m) -> makes m ->
  (forall p, steps (links p) (f p)) -> steps keeps (m ≫= f).
Proof.
  intros Hadv Hnew Hmk Hf w w' b H Hok. apply bind_Ret in H as (w1 & p & H1 & H2).
  pose proof (steps_quiet _ nobody _ Hadv _ _ _ H1) as Hq.
  destruct (Hmk _ _ _ H1) as (Hlt & pr & Hpr & Hr). pose proof (Hnew _ w w1 p (le_n _) H1) as Hge.
  destruct (Hf p w1 w' b H2) as (? & ? & Hl).
  - split; [by eapply quiet_ok|done|intros pr'; rewrite Hpr; by intros [= <-]|].
    rewrite (q_conns _ _ _ _ Hq). intros conn Hc.
    pose proof (ok_known _ Hok _ _ Hc). unfold pid_ref in *. lia.
  - splits; [done|etransitivity; [apply Hq|done]|]. intros Hw.
    apply Hl; [by apply (quiet_linked w)|by exists pr].
Qed.

(** Quiet computations, by way of [advances]. *)
Ltac steps_rule ::= first [apply adv_forallM; intros ? | apply adv_exec_chain; intros ?].
Ltac quiet_tac := apply steps_quiet; intros ?; steps_tac.
Ltac keeps_tac := apply steps_keeps; quiet_tac.
Ltac gives_tac := repeat (apply gives_bind; intros ?); apply gives_ret.

Lemma links_terminate p : steps (links p) (upd_proc p (set_state_ FB_PROC_TERMINATED)).
Proof.
  intros w w' a H [[K0 K1 K2 K3 K4] Hk Hr Hf].
  unfold upd_proc, proc, gets, deref, mbind, M_bind, modify in H.
  destruct (w_procs w !! p) as [pr|] eqn:E; [|discriminate H]. cbn in H. injection H as <- <-.
  pose proof (Hr pr eq_refl) as Hrun. splits.
  - split; cbn; [|intros c q qr Hc|done|done|].
    + intros q Hle. cbn in Hle. cbn. rewrite lookup_insert_ne; [by apply K0|].
      intros <-. unfold pid_ref in *. lia.
    + rewrite lookup_insert_ne by (intros <-; by eapply Hf). by apply (K1 c).
    + intros q Hin. destruct (K4 q Hin) as [? Hq]. split; [done|cbn].
      destruct (decide (p = q)) as [<-|Hne]; [rewrite lookup_insert_eq|by rewrite lookup_insert_ne].
      by intros ? [= <-].
  - split; cbn; [|done|intros; eexists; split; [eassumption|lia]|exists []; by rewrite app_nil_r].
    intros q qr _. destruct (decide (p = q)) as [<-|Hne].
    + rewrite lookup_insert_eq. intros [= <-]. exists pr. split; [done|].
      unfold proc_adv. cbn. rewrite Hrun. splits; [done..|cbn; lia|]. unfold kind_adv. by destruct (kind_ pr).
    + rewrite lookup_insert_ne by done. intros Hq. exists qr. by split.
  - intros Hl _ c q Hc. cbn in *. rewrite lookup_insert_ne by (intros <-; by eapply Hf). by apply (Hl c).
Qed.

Section WithConfig.
Context {C : Config} {S0 : Sys}.

Lemma new_Process_makes a b c d e f g h : makes (new_Process a b c d e f g h).
Proof.
  intros w w' p [= <- <-]. cbn. split; [lia|]. rewrite lookup_insert_eq. by eexists.
Qed.

Lemma new_ForkedProcess_makes a b c d : makes (new_ForkedProcess a b c d).
Proof.
  unfold new_ForkedProcess. do 2 (apply makes_bind; intros ?).
  apply makes_after; [apply new_Process_makes|intros p; quiet_tac|intros p; gives_tac].
Qed.
Lemma getForkedProcess_makes a b : makes (getForkedProcess a b).
Proof. unfold getForkedProcess. do 2 (apply makes_bind; intros ?). apply new_ForkedProcess_makes. Qed.
Lemma new_ExecedProcess_makes a b c d e f g h i j k l :
  makes (new_ExecedProcess a b c d e f g h i j k l).
Proof.
  unfold new_ExecedProcess. do 3 (apply makes_bind; intros ?).
  apply makes_after; [apply new_Process_makes|intros p; quiet_tac|intros p; gives_tac].
Qed.

Lemma getExecedProcess_makes a b c : makes (getExecedProcess a b c).
Proof.
  unfold getExecedProcess. apply makes_bind. intros [[? ?] ?].
  apply makes_after; [apply new_ExecedProcess_makes|intros p; quiet_tac|intros p; gives_tac].
Qed.

(** * The messages that link a process *)

Lemma keeps_accept_fork_child a b c d e f g : steps keeps (accept_fork_child a b c d e f g).
Proof.
  unfold accept_fork_child.
  apply keeps_link; [intros N; steps_tac|intros N; apply (getForkedProcess_new (T := fun _ => False))|
    apply getForkedProcess_makes|intros p].
  apply links_bind_quiet; [quiet_tac|intros _].
  apply links_bind_keeps; [apply links_set_conn|intros _]. keeps_tac.
Qed.

Lemma keeps_new_forked a b c d : steps keeps (new_forked a b c d).
Proof.
  unfold new_forked. apply steps_bind; [typeclasses eauto|keeps_tac|intros [k|]]; [|keeps_tac].
  apply steps_bind; [typeclasses eauto|keeps_tac|intros q].
  apply steps_bind; [typeclasses eauto|apply keeps_accept_fork_child|intros _; keeps_tac].
Qed.

Section WithCacher.
Context {K : Cacher} {HK : CacherOk}.

(** An execed process is made, set up, and linked. *)
Lemma keeps_link_execed {B} q parent fds (f : pid_ref -> M B) :
  (forall p, steps (links p) (f p)) -> steps keeps (getExecedProcess q parent fds ≫= f).
Proof.
  apply keeps_link; [intros N; steps_tac|
    intros N; apply (getExecedProcess_new (T := fun _ => False))|apply getExecedProcess_makes].
Qed.

Lemma links_then_conn {A} (m : M A) conn p :
  steps (quiet nobody nobody) m -> steps (links p) (m ≫= fun _ => set_conn conn p).
Proof. intros Hm. apply links_bind_quiet; [done|intros _; apply links_set_conn]. Qed.

Lemma keeps_link_forked {B} pid ppid parent fds (f : pid_ref -> M B) :
  (forall p, steps (links p) (f p)) -> steps keeps (new_ForkedProcess pid ppid parent fds ≫= f).
Proof.
  apply keeps_link; [intros N; steps_tac|
    intros N; apply (new_ForkedProcess_new (T := fun _ => False))|apply new_ForkedProcess_makes].
Qed.

(** The process of a new connection is accepted, then linked to it. *)
Lemma links_accept p up lt conn :
  steps (links p)
    match lt with
    | LAUNCH_TYPE_SYSTEM =>
        upd_proc up (set_system_child_ (Some p)) ≫= fun _ =>
        accept_exec_child p conn (-1) ≫= fun _ => set_conn conn p
    | LAUNCH_TYPE_POPEN =>
        pending ← gets (fun w => proc2pending_popen_ w !! up) ≫= deref;
        assertM (bool_decide (po_child pending = None)) ≫= fun _ =>
        modify (fun w => set_proc2pending_popen_
          (<[up := mkPendingPopen (po_type_flags pending) (Some p) conn
                     (po_parent_conn pending) (po_ack_num pending) (po_fd pending)]>
             (proc2pending_popen_ w)) w)
        ≫= fun _ =>
        when (0 <=? po_fd pending)
          (accept_popen_child up (mkPendingPopen (po_type_flags pending) (Some p) conn
                     (po_parent_conn pending) (po_ack_num pending) (po_fd pending))) ≫= fun _ =>
        set_conn conn p
    | _ => accept_exec_child p conn (-1) ≫= fun _ => set_conn conn p
    end.
Proof.
  destruct lt; repeat first [apply links_set_conn|apply links_bind_quiet; [quiet_tac|intros ?]].
Qed.

Lemma keeps_new_execed q conn : steps keeps (new_execed q conn).
Proof.
  unfold new_execed. apply steps_bind; [typeclasses eauto|keeps_tac|intros _]. cbv zeta.
  apply steps_bind; [typeclasses eauto|keeps_tac|intros parent].
  destruct parent as [parent|].
  - do 2 (apply steps_bind; [typeclasses eauto|keeps_tac|intros ?]).
    apply steps_bind; [typeclasses eauto|keeps_tac|intros []].
    + apply steps_bind; [typeclasses eauto|keeps_tac|intros fds].
      apply keeps_link_execed. intros p. apply links_then_conn. quiet_tac.
    + apply keeps_link_execed. intros p. apply links_then_conn. quiet_tac.
  - destruct (sq_ppid q =? supervisor_pid).
    { apply steps_bind; [typeclasses eauto|keeps_tac|intros root].
      apply steps_bind; [typeclasses eauto|keeps_tac|intros fds].
      apply keeps_link_execed. intros p. apply links_then_conn. quiet_tac. }
    apply steps_bind; [typeclasses eauto|keeps_tac|intros [up|]]; [|keeps_tac].
    apply steps_bind; [typeclasses eauto|keeps_tac|intros popped].
    destruct (default _ popped) as [[fds lt] tf].
    apply steps_bind; [typeclasses eauto|keeps_tac|intros upr].
    destruct (posix_spawn_pending_ upr).
    { apply keeps_link_execed. intros p. apply links_bind_quiet; [quiet_tac|intros _].
      apply links_bind_keeps; [apply links_set_conn|intros _; keeps_tac]. }
    apply keeps_link_forked. intros parent.
    do 2 (apply links_bind_quiet; [quiet_tac|intros ?]).
    apply links_bind_keeps; [apply links_terminate|intros _].
    do 2 (apply steps_bind; [typeclasses eauto|keeps_tac|intros _]).
    apply keeps_link_execed. intros p. apply links_accept.
Qed.

Lemma keeps_proc_ic_msg msg a b p : steps keeps (proc_ic_msg msg a b p).
Proof.
  unfold proc_ic_msg. apply steps_bind; [typeclasses eauto| |intros ?; keeps_tac].
  destruct (class_of msg) as [|acked|]; [|keeps_tac|keeps_tac].
  assert (msg = Mfork_parent \/ msg <> Mfork_parent) as [->|Hne]
    by (destruct msg; (by left) || (by right)).
  - cbn. apply steps_bind; [typeclasses eauto|keeps_tac|intros pr].
    apply steps_bind; [typeclasses eauto|keeps_tac|intros [k|]]; [|keeps_tac].
    apply steps_bind; [typeclasses eauto|apply keeps_accept_fork_child|intros _; keeps_tac].
  - apply steps_keeps, steps_quiet. intros N. by apply adv_lifecycle_msg.
Qed.

Lemma keeps_conn_message a l : steps keeps (conn_message a l).
Proof.
  unfold conn_message. apply steps_bind; [typeclasses eauto|keeps_tac|intros proc].
  apply steps_forM; [typeclasses eauto|intros [ack_id m]]. unfold conn_packet, proc_new_process_msg.
  destruct proc as [p|], m as [[q|pid ppid]|msg];
    first [apply keeps_proc_ic_msg|apply keeps_new_execed|apply keeps_new_forked|keeps_tac].
Qed.

Lemma keeps_conn_open a : steps keeps (conn_open a).
Proof.
  unfold conn_open. intros w w' u H [K0 K1 K2 K3 K4].
  apply bind_Ret in H as (w1 & o & [= <- <-] & H). apply bind_Ret in H as (w1 & o & H1 & H).
  destruct (w_conns w !! a) as [c|] eqn:E; [discriminate H1|]. injection H1 as <- <-.
  injection H as <- <-.
  assert (Hl : forall c p, <[a := None]> (w_conns w) !! c = Some (Some p) -> w_conns w !! c = Some (Some p)).
  { intros c p. destruct (decide (a = c)) as [<-|Hne]; [by rewrite lookup_insert_eq|].
    by rewrite lookup_insert_ne. }
  splits; [|by apply same_progress|intros HL c p Hc; by eapply HL, Hl].
  split; cbn; [done| | | |done]; eauto.
Qed.

(** * The end of a connection *)

(** The state without a connection, as it is when the connection has been closed. *)
Definition without (conn : Z) (w : World) : World := set_w_conns (delete conn (w_conns w)) w.

Lemma quiet_without T D conn w w' : quiet T D w w' -> quiet T D (without conn w) (without conn w').
Proof. intros [[P1 P2 P3 P4] B Hc R Kt Q]. split; [by split|done|cbn; congruence|done|done|done]. Qed.

Lemma progress_without conn w w' :
  progress (without conn w) (without conn w') <-> progress w w'.
Proof. split; intros [P1 P2 P3 P4]; by split. Qed.

Lemma without_ok conn w : conns_ok w -> conns_ok (without conn w).
Proof.
  intros [K0 K1 K2 K3 K4]. unfold without. split; cbn; [done| | | |done].
  - intros c p pr Hc. apply lookup_delete_Some in Hc as [_ Hc]. by apply (K1 c).
  - intros c p Hc. apply lookup_delete_Some in Hc as [_ Hc]. by apply (K2 c).
  - intros c1 c2 p H1 H2. apply lookup_delete_Some in H1 as [_ H1].
    apply lookup_delete_Some in H2 as [_ H2]. by apply (K3 c1 c2 p).
Qed.

Lemma without_linked conn w : linked w -> linked (without conn w).
Proof. intros Hl c p Hc. cbn in Hc. apply lookup_delete_Some in Hc as [_ Hc]. by apply (Hl c). Qed.

(** The process of a connection is linked to nothing else. *)
Lemma without_unlinked conn p w :
  conns_ok w -> w_conns w !! conn = Some (Some p) -> unlinked p (without conn w).
Proof.
  intros Hok Hc. split; [by apply without_ok|by apply (ok_known _ Hok conn)| |].
  - intros pr Hp. by apply (ok_running _ Hok conn p).
  - intros c Hd. cbn in Hd. apply lookup_delete_Some in Hd as [Hne Hd].
    by apply Hne, (ok_inj _ Hok conn c p).
Qed.

(** What closing a connection does: relative to the state without it. *)
Definition closes (conn : Z) (p : pid_ref) (w w' : World) : Prop :=
  unlinked p (without conn w) -> conns_ok (without conn w') /\ progress w w' /\
    (linked (without conn w) -> is_Some (w_procs w !! p) -> linked (without conn w')).

Lemma closes_bind_quiet {A B} conn p (m : M A) (f : A -> M B) :
  steps (quiet nobody nobody) m -> (forall a, steps (closes conn p) (f a)) ->
  steps (closes conn p) (m ≫= f).
Proof.
  intros Hm Hf w w' b H Hu. apply bind_Ret in H as (w1 & a & H1 & H2).
  specialize (Hm _ _ _ H1). destruct (Hf a w1 w' b H2) as (? & ? & Hl).
  - eapply quiet_unlinked; [by apply quiet_without|done].
  - splits; [done|etransitivity; [apply Hm|done]|]. intros Hw Hp. apply Hl.
    + eapply quiet_linked; [by apply quiet_without|apply Hu|done].
    + apply (q_kept _ _ _ _ Hm); [exact (un_known _ _ Hu)|done|apply not_nobody].
Qed.

Lemma closes_terminate {B} conn p (m : M B) :
  steps (quiet nobody nobody) m ->
  steps (closes conn p) (upd_proc p (set_state_ FB_PROC_TERMINATED) ≫= fun _ => m).
Proof.
  intros Hm w w' b H Hu. apply bind_Ret in H as (w1 & a & H1 & H2).
  assert (H1' : upd_proc p (set_state_ FB_PROC_TERMINATED) (without conn w) = Ret (without conn w1, a)).
  { unfold upd_proc, proc, gets, deref, mbind, M_bind, modify in *. cbn in *.
    destruct (w_procs w !! p) as [pr|]; [|discriminate H1]. cbn in *. by injection H1 as <- <-. }
  destruct (links_terminate p _ _ _ H1' Hu) as (Hok & Hp & Hl). apply progress_without in Hp.
  specialize (Hm _ _ _ H2). splits.
  - eapply quiet_ok; [by apply quiet_without|done].
  - etransitivity; [exact Hp|apply Hm].
  - intros Hw Hs. eapply quiet_linked; [by apply quiet_without|done|by apply Hl].
Qed.

Lemma closes_finish conn p : steps (closes conn p) (finish p).
Proof.
  unfold finish. do 2 (apply closes_bind_quiet; [quiet_tac|intros ?]).
  apply closes_terminate. quiet_tac.
Qed.

Lemma keeps_conn_close conn : steps keeps (conn_close conn).
Proof.
  intros w w' u H Hok. unfold conn_close in H.
  apply bind_Ret in H as (w0 & ctx & H0 & H).
  apply bind_Ret in H0 as (w0' & o & [= <- <-] & H0).
  destruct (w_conns w !! conn) as [c|] eqn:Ec; [|discriminate H0]. injection H0 as <- ->.
  apply bind_Ret in H as (w1 & u1 & H1 & H).
  assert (Hrest : w' = without conn (set_w_log (w_log w1 ++ [EvClose conn]) w1)).
  { apply bind_Ret in H as (w2 & u2 & H2 & H). destruct (0 <=? conn); [|discriminate H2].
    injection H2 as <- <-. by injection H as <- <-. }
  assert (H2 : conns_ok (without conn w1) /\ progress w w1 /\ (linked w -> linked (without conn w1))).
  { destruct ctx as [p|]; [|injection H1 as <- <-; splits; [by apply without_ok|reflexivity|
      apply without_linked]].
    match type of H1 with ?m _ = _ => assert (Hcl : steps (closes conn p) m) end.
    { do 3 (apply closes_bind_quiet; [quiet_tac|intros ?]). apply closes_finish. }
    destruct (Hcl _ _ _ H1 (without_unlinked _ _ _ Hok Ec)) as (? & ? & Hl). splits; [done..|].
    intros Hw. apply Hl; [by apply without_linked|by apply (Hw conn)]. }
  destruct H2 as (Hok1 & Hp & Hl). subst w'. splits.
  - destruct Hok1 as [K0 K1 K2 K3 K4]. by split.
  - etransitivity; [exact Hp|]. destruct Hp as [P1 P2 P3 P4].
    split; cbn; [|done|intros; eexists; split; [eassumption|lia]|by eexists].
    intros q qr _ Hq. exists qr. by split.
  - intros Hw c p Hc. exact (Hl Hw c p Hc).
Qed.

(** * Garbage collection *)

(** Processes are only cut off from the tree. *)
Definition shrinks (w w' : World) : Prop :=
  forall p pr', w_procs w' !! p = Some pr' -> exists pr, w_procs w !! p = Some pr /\
    (exec_child_ pr' = None \/ exec_child_ pr' = exec_child_ pr) /\
    fork_children_ pr' = fork_children_ pr.

#[local] Instance shrinks_preorder : PreOrder shrinks.
Proof.
  split.
  - intros w p pr Hp. exists pr. splits; [done|by right|done].
  - intros a b c A B p pr2 H2. destruct (B p pr2 H2) as (pr1 & H1 & E1 & F1).
    destruct (A p pr1 H1) as (pr & H0 & E0 & F0). exists pr. splits; [done| |congruence].
    destruct E1 as [?|E1]; [by left|]. destruct E0; [left|right]; congruence.
Qed.

Lemma shrinks_below w w' r q : shrinks w w' -> below w' r q -> below w r q.
Proof.
  intros Hs Hb. induction Hb as [p|p pr c q Hp He _ IH|p pr c q Hp Hf _ IH]; [apply below_self| |];
    destruct (Hs p pr Hp) as (pr0 & Hp0 & E & F).
  - destruct E as [E|E]; [congruence|]. eapply below_exec; [exact Hp0|rewrite <- E; exact He|done].
  - eapply below_fork; [exact Hp0|rewrite <- F; exact Hf|done].
Qed.

Lemma shrinks_same w w' : w_procs w' = w_procs w -> shrinks w w'.
Proof. intros H p pr. rewrite H. intros Hp. exists pr. splits; [done|by right|done]. Qed.
Lemma shrinks_modify f : (forall w, w_procs (f w) = w_procs w) -> steps shrinks (modify f).
Proof. intros Hf w w' a [= <- <-]. by apply shrinks_same. Qed.
Lemma shrinks_log e : steps shrinks (log e).
Proof. by apply shrinks_modify. Qed.
Hint Resolve shrinks_log : steps.
Hint Extern 3 (steps shrinks (modify _)) => (apply shrinks_modify; intros; done) : steps.

Lemma shrinks_drop_fds fds : steps shrinks (drop_fds fds).
Proof.
  unfold drop_fds, drop_FileFD, release_ofd, close_for_writing, set_writers. steps_tac.
Qed.
Hint Resolve shrinks_drop_fds : steps.

Lemma shrinks_upd_proc p f :
  (forall pr, (exec_child_ (f pr) = None \/ exec_child_ (f pr) = exec_child_ pr) /\
              fork_children_ (f pr) = fork_children_ pr) -> steps shrinks (upd_proc p f).
Proof.
  intros Hf w w' a H. apply bind_Ret in H as (w1 & pr & H1 & [= <- <-]).
  apply bind_Ret in H1 as (w2 & o & [= <- <-] & H1).
  destruct (w_procs w !! p) as [pr0|] eqn:E; [|done]. injection H1 as <- <-.
  intros q qr. cbn. destruct (decide (p = q)) as [<-|Hne].
  - rewrite lookup_insert_eq. intros [= <-]. by exists pr0.
  - rewrite lookup_insert_ne by done. intros Hq. exists qr. splits; [done|by right|done].
Qed.
Lemma shrinks_upd_execed p f : steps shrinks (upd_execed p f).
Proof.
  unfold upd_execed, execed, proc. apply steps_bind; [typeclasses eauto|steps_tac|intros x].
  apply shrinks_upd_proc. intros pr. split; [by right|done].
Qed.
Hint Resolve shrinks_upd_execed : steps.

(** A part of the collection: [D] holds of everything it may delete. *)
Definition collects (D : pid_ref -> Prop) (w w' : World) : Prop :=
  quiet nobody D w w' /\ shrinks w w'.
#[local] Instance collects_preorder D : PreOrder (collects D).
Proof. split; [intros w; split; reflexivity|intros a b c [] []; split; by etransitivity]. Qed.

Lemma steps_collects {A} D (m : M A) :
  (forall N, steps (advances N nobody) m) -> steps shrinks m -> steps (collects D) m.
Proof. intros H1 H2 w w' a H. split; [by eapply steps_quiet|by eapply H2]. Qed.

Ltac collects_tac := apply steps_collects; [intros ?; steps_tac|unfold drop_env, proc; steps_tac].

Lemma collects_delete (D : pid_ref -> Prop) p :
  D p -> steps (collects D) (modify (fun w => set_w_procs (delete p (w_procs w)) w)).
Proof.
  intros HD w w' u [= <- <-]. split.
  2: { intros q qr Hq. cbn in Hq. apply lookup_delete_Some in Hq as [_ Hq]. exists qr.
       splits; [done|by right|done]. }
  split; cbn; [split; cbn|intros Hb|done| | |].
  - intros q qr _ Hq. apply lookup_delete_Some in Hq as [_ Hq]. exists qr. by split.
  - done.
  - intros n g Hg. exists g. split; [done|lia].
  - exists []. by rewrite app_nil_r.
  - intros q Hle. cbn. destruct (decide (p = q)) as [<-|Hne]; [by rewrite lookup_delete_eq|].
    rewrite lookup_delete_ne by done. by apply Hb.
  - intros q qr qr' _ H1 H2. apply lookup_delete_Some in H2 as [_ H2]. by simplify_eq.
  - intros q _ Hs Hn. rewrite lookup_delete_ne by (intros <-; by apply Hn). done.
  - intros _ Hq q Hin. destruct (Hq q Hin) as [? Hr]. split; [done|]. intros qr Hl.
    cbn in Hl. apply lookup_delete_Some in Hl as [_ Hl]. by apply Hr.
Qed.

Lemma deref_gets_Ret {A} (f : World -> option A) w w' a :
  (gets f ≫= deref) w = Ret (w', a) -> w' = w /\ f w = Some a.
Proof.
  intros H. apply bind_Ret in H as (w1 & o & [= <- <-] & H).
  destruct (f w); [|done]. by injection H as <- <-.
Qed.

(** The loop over the fork children, given what deleting one of them does. *)
Lemma collects_forks (D : pid_ref -> Prop) (del : pid_ref -> M unit) (w0 : World) l :
  (forall c w w' u, c ∈ l -> shrinks w0 w -> del c w = Ret (w', u) -> collects D w w') ->
  forall w w' u, shrinks w0 w -> mforM l del w = Ret (w', u) -> collects D w w'.
Proof.
  intros Hd. induction l as [|c l IH]; intros w w' u Hs H; [injection H as <- <-; reflexivity|].
  apply bind_Ret in H as (w1 & u1 & H1 & H).
  assert (C1 : collects D w w1) by (eapply Hd; [by left|done|exact H1]).
  transitivity w1; [done|]. eapply IH; [|etransitivity; [exact Hs|apply C1]|exact H].
  intros c' v v' u' Hin. apply Hd. by right.
Qed.

(** Deleting a subtree deletes nothing that is not below its root. *)
Lemma collects_subtree (D : pid_ref -> Prop) n : forall o w w' u,
  delete_process_subtree n o w = Ret (w', u) ->
  (forall p q, o = Some p -> below w p q -> D q) -> collects D w w'.
Proof.
  induction n as [|n IH]; intros [p|] w w' u H HD;
    [discriminate H|injection H as <- <-; reflexivity| |injection H as <- <-; reflexivity].
  cbn in H. apply bind_Ret in H as (w0 & pr0 & H0 & H).
  apply (deref_gets_Ret (fun w => w_procs w !! _)) in H0 as [-> Ep].
  apply bind_Ret in H as (w1 & u1 & H1 & H).
  assert (C1 : collects D w w1).
  { eapply IH; [exact H1|]. intros c q Hc Hb. eapply HD; [done|]. by eapply below_exec. }
  apply bind_Ret in H as (w2 & u2 & H2 & H).
  assert (C2 : collects D w1 w2).
  { eapply (collects_forks D _ w); [|apply C1|exact H2]. intros c v v' u' Hin Hs Hv.
    eapply IH; [exact Hv|]. intros ? q [= <-] Hb. eapply HD; [done|].
    eapply below_fork; [exact Ep|exact Hin|]. by eapply shrinks_below. }
  transitivity w1; [done|]. transitivity w2; [done|].
  assert (HDp : D p) by (eapply HD; [done|apply below_self]).
  match type of H with ?m _ = _ => assert (C3 : steps (collects D) m) end; [|by eapply C3].
  apply steps_bind; [typeclasses eauto|destruct (kind_ pr0); collects_tac|intros _].
  apply steps_bind; [typeclasses eauto|destruct (expected_child_ pr0); collects_tac|intros _].
  apply steps_bind; [typeclasses eauto|destruct (fds_ pr0); collects_tac|intros _].
  by apply collects_delete.
Qed.

Lemma collects_pop D : steps (collects D) (modify (fun w => set_proc_gc_queue_ (tail (proc_gc_queue_ w)) w)).
Proof.
  intros w w' u [= <- <-]. split; [|by apply shrinks_same]. split; cbn; try done.
  - by apply same_progress.
  - intros p pr pr' _ H1 H2. by simplify_eq.
  - intros _ Hq p Hin. apply Hq. cbn in Hin. destruct (proc_gc_queue_ w); [done|by right].
Qed.

Lemma collects_gc_process (D : pid_ref -> Prop) b p w w' u :
  gc_process b p w = Ret (w', u) -> (forall q, below w p q -> D q) -> collects D w w'.
Proof.
  intros H HD. unfold gc_process in H. apply bind_Ret in H as (w0 & pr & H0 & H).
  apply (deref_gets_Ret (fun w => w_procs w !! _)) in H0 as [-> _].
  apply bind_Ret in H as (w1 & u1 & H1 & H). transitivity w1; [|by eapply collects_pop].
  destruct (negb generate_report);
    [|revert H1; apply (steps_collects D (upd_execed p _)); [intros ?; steps_tac|steps_tac]].
  destruct (parent_ pr) as [q|];
    [|revert H1; apply (steps_collects D (upd_execed p _)); [intros ?; steps_tac|steps_tac]].
  destruct (negb b);
    [|revert H1; apply (steps_collects D (upd_execed p _)); [intros ?; steps_tac|steps_tac]].
  apply bind_Ret in H1 as (w2 & u2 & H2 & H1).
  assert (C2 : collects D w w2).
  { revert H2. apply (steps_collects D (upd_proc q (set_exec_child_ None))); [intros ?; steps_tac|].
    apply shrinks_upd_proc. intros qr. split; [by left|done]. }
  apply bind_Ret in H1 as (w3 & n & [= <- <-] & H1). transitivity w2; [done|].
  eapply collects_subtree; [exact H1|]. intros ? r [= <-] Hb. apply HD.
  apply (shrinks_below w w2); [apply C2|exact Hb].
Qed.

(** Collecting keeps what is not below the queue, and what is in the queue does not run:
    so it keeps the processes of the connections. *)
Lemma keeps_GcProcesses w w' u :
  GcProcesses w = Ret (w', u) -> conns_ok w ->
  conns_ok w' /\ progress w w' /\ (gc_safe w -> linked w -> linked w').
Proof.
  intros H Hok. unfold GcProcesses in H. apply bind_Ret in H as (w0 & root & H0 & H).
  apply deref_gets_Ret in H0 as [-> _]. apply bind_Ret in H as (w0 & f & H1 & H).
  assert (w0 = w) as -> by (apply bind_Ret in H1 as (? & pr & H2 & H1);
    apply (deref_gets_Ret (fun w => w_procs w !! _)) in H2 as [-> _]; destruct (kind_ pr); [done|by injection H1 as <- <-]).
  apply bind_Ret in H as (w0 & queue & [= <- <-] & H).
  assert (C1 : collects (fun q => exists r, r ∈ proc_gc_queue_ w /\ below w r q) w w').
  { eapply (collects_forks _ _ w); [|reflexivity|exact H]. intros r v v' u' Hin Hs Hv.
    eapply collects_gc_process; [exact Hv|]. intros q Hb. exists r. split; [done|].
    by eapply shrinks_below. }
  destruct C1 as [Hq _]. splits; [by eapply quiet_ok|apply Hq|].
  intros Hsafe Hl conn p. rewrite (q_conns _ _ _ _ Hq). intros Hc.
  apply (q_kept _ _ _ _ Hq p); [by apply (ok_known _ Hok conn)|by apply (Hl conn)|].
  intros (r & Hr & Hb). pose proof (Hsafe _ _ _ Hc Hr Hb) as ->.
  destruct (Hl _ _ Hc) as [pr Hp]. destruct (ok_queue _ Hok _ Hr) as [_ Hn].
  apply (Hn pr Hp). by eapply (ok_running _ Hok).
Qed.

(** * Every event *)

Lemma keeps_handle_input i w w' u :
  handle_input i w = Ret (w', u) -> conns_ok w ->
  conns_ok w' /\ progress w w' /\ ((i = IGc -> gc_safe w) -> linked w -> linked w').
Proof.
  intros H Hok. destruct i; cbn in H; [| | | |by destruct (keeps_GcProcesses _ _ _ H Hok) as (? & ? & ?); splits; auto].
  all: match type of H with ?m _ = _ => assert (Hk : steps keeps m) end;
    [solve [auto using keeps_conn_open, keeps_conn_message, keeps_conn_close|keeps_tac]|].
  all: destruct (Hk _ _ _ H Hok) as (? & ? & ?); splits; auto.
Qed.

End WithCacher.
End WithConfig.

(** * The start *)

(** The supervisor's state before [insert_root()]. *)
Definition initial_world (listener_fd : Z) : World :=
  mkWorld ∅ 0 ∅ 0 0 0 ∅ ∅ None [] ∅ ∅ ∅ ∅ ∅ ∅ ∅ [] ∅ 0 1 listener_fd [].

Lemma initial_ok l : conns_ok (initial_world l).
Proof. split; [by intros p _|done..|]. intros p Hp. cbn in Hp. by apply not_elem_of_nil in Hp. Qed.

Lemma keeps_insert_root {C : Config} {S0 : Sys} a b c d e f : steps keeps (insert_root a b c d e f).
Proof.
  unfold insert_root. apply keeps_link; [intros N; steps_tac|
    intros N; apply (new_ForkedProcess_new (T := fun _ => False))|apply new_ForkedProcess_makes|intros p].
  apply links_bind_quiet; [quiet_tac|intros _].
  apply links_bind_keeps; [apply links_terminate|intros _]. keeps_tac.
Qed.

(** C1. Whatever events the supervisor handles, in whatever order, and as long as the
    cacher only advances the state ([CacherOk]): a connection that a process has signed
    in on belongs to that process alone, which is running if it still exists, and the
    processes queued for collection are not running; a process that cannot be shortcut
    never becomes shortcutable again and keeps the reason, no process leaves the
    terminated or finalized state or comes back, generations of files only grow and
    nothing sent is taken back.  The process of a connection moreover exists, provided
    that no process that signed in is a descendant of another one that is collected;
    [connected_process_collected] is a run of the code in which one is. *)
Theorem supervisor_progress {C : Config} safe w w' :
  conns_ok w -> runs safe w w' ->
  conns_ok w' /\ progress w w' /\
  (safe = true -> linked w -> forall conn p, w_conns w' !! conn = Some (Some p) ->
     exists pr, w_procs w' !! p = Some pr /\ state_ pr = FB_PROC_RUNNING /\
       forall conn', w_conns w' !! conn' = Some (Some p) -> conn' = conn).
Proof.
  intros Hok Hr. enough (conns_ok w' /\ progress w w' /\ (safe = true -> linked w -> linked w'))
    as (Hok' & Hp & Hl).
  { splits; [done|done|]. intros Hs Hw conn p Hc. destruct (Hl Hs Hw _ _ Hc) as [pr Hpr].
    exists pr. splits; [done|by eapply (ok_running _ Hok')|]. intros c Hc'.
    by eapply (ok_inj _ Hok'). }
  induction Hr as [w|w w1 w2 S0 K HK i H Hsafe Hr IH]; [splits; [done|reflexivity|done]|].
  destruct (keeps_handle_input i _ _ _ H Hok) as (Hok1 & Hp & Hl). destruct (IH Hok1) as (? & ? & ?).
  splits; [done|by etransitivity|]. intros Hs Hw. auto.
Qed.

(** * A run *)

Definition demo_config : Config := {|
  ignore_locations := [cs "/dev/null"];
  read_only_locations := [cs "/usr"];
  generate_report := false;
  quirk_ignore_statfs := false;
  quirk_lto_wrapper := false;
  quirk_ignore_time_queries := false;
  min_cpu_time_u := 0;
  shortcut_allow_list_matcher := None;
  dont_intercept_matcher := ExeMatcher.empty;
  dont_shortcut_matcher := ExeMatcher.empty;
  skip_cache_matcher := ExeMatcher.empty;
  qemu_user := None;
  glibc_2_38 := true;
  FIREBUILD_VERSION := cs "0.8";
  supervisor_pid := 99;
  child_pid := 100
|}.

Definition demo_sys : Sys := {|
  sys_env := FileUsage.demo_env;
  sys_errno := 0;
  sys_pipe2 n := inr (20 + 2 * Z.of_nat n, 21 + 2 * Z.of_nat n);
  sys_remap _ := None;
  sys_pipe_finished _ := false;
  sys_is_static _ := false
|}.

(** A cacher that has nothing to offer. *)
Definition demo_cacher : Cacher := {|
  fingerprint _ := ret true;
  cacher_shortcut _ := ret (false, [])
|}.
Lemma demo_cacher_ok : CacherOk (K := demo_cacher).
Proof. split; intros; apply steps_ret, _. Qed.

Definition demo_query (pid ppid : Z) (args : list cstr) : scproc_query :=
  mkQuery (Some (cs "0.8")) pid ppid (cs "/src") args [cs "PATH=/bin"] 18 (cs "/bin/sh") None None [] [] None.

(** The build command starts, reads a source file, forks a child that does something
    that cannot be cached and exits, and exits itself. *)
Definition demo_inputs : list input :=
  [ IConnect 5;
    IRead 5 [(1, (PNew (Mscproc_query (demo_query 100 99 [cs "sh"; cs "-c"; cs "make"]))))];
    IRead 5 [(2, (PMsg (Mopen None (cs "main.c") O_RDONLY None None (Some 3) None false None)))];
    IRead 5 [(3, (PMsg (Mclose 3 None)))];
    IConnect 6;
    IRead 6 [(1, (PNew (Mfork_child 101 100)))];
    IRead 5 [(4, (PMsg Mfork_parent))];
    IRead 6 [(2, (PMsg (Mgen_call (cs "ptrace") None)))];
    IHangup 6;
    IRead 5 [(5, (PMsg (Mwait 101 0 None)))];
    IHangup 5;
    ISigchld [(100, 0)] true;
    IGc ].

Fixpoint run_inputs {C : Config} {S0 : Sys} {K : Cacher} (l : list input) : M unit :=
  match l with [] => ret tt | i :: l => handle_input i ≫= fun _ => run_inputs l end.

(** A decidable reason for a collection to be safe: nothing is linked, or nothing waits. *)
Definition gc_idle (w : World) : bool :=
  forallb (fun x => bool_decide (x.2 = None)) (map_to_list (w_conns w)) || bool_decide (proc_gc_queue_ w = []).

Lemma gc_idle_safe w : gc_idle w = true -> gc_safe w.
Proof.
  intros H conn p r Hc Hr _. apply orb_true_iff in H as [H|H].
  - rewrite forallb_forall in H. specialize (H (conn, Some p)).
    assert (Hin : In (conn, Some p) (map_to_list (w_conns w)))
      by by apply list_elem_of_In, elem_of_map_to_list.
    by apply H, bool_decide_eq_true in Hin.
  - apply bool_decide_eq_true in H. rewrite H in Hr. by apply not_elem_of_nil in Hr.
Qed.

Fixpoint run_safe {C : Config} {S0 : Sys} {K : Cacher} (l : list input) (w : World) : bool :=
  match l with
  | [] => true
  | i :: l =>
      match i with IGc => gc_idle w | _ => true end &&
      match handle_input i w with Ret (w1, _) => run_safe l w1 | _ => true end
  end.

Lemma run_inputs_runs {C : Config} {S0 : Sys} {K : Cacher} {HK : CacherOk} l w w' :
  run_inputs l w = Ret (w', tt) -> runs (run_safe l w) w w'.
Proof.
  intros H. assert (G : forall b, (b = true -> run_safe l w = true) -> runs b w w'); [|by apply G].
  intros b. revert w H. induction l as [|i l IH]; intros w H Hb; [injection H as <-; apply runs_nil|].
  apply bind_Ret in H as (w1 & [] & H1 & H2). cbn in Hb. rewrite H1 in Hb.
  apply (runs_cons b w w1 w' S0 K HK i); [done| |apply IH; [done|]].
  - intros Ht ->. apply Hb, andb_true_iff in Ht as [Ht _]. by apply gc_idle_safe.
  - intros Ht. by apply Hb, andb_true_iff in Ht as [_ Ht].
Qed.

Definition world_of (o : outcome (World * unit)) : World :=
  match o with Ret (w, _) => w | _ => initial_world 0 end.
Definition demo_root : World :=
  world_of (insert_root (C := demo_config) (S0 := demo_sys) 100 0 1 2 false (fun fd => fd + 10)
              (initial_world 4)).
Definition demo_run (l : list input) : M unit :=
  run_inputs (C := demo_config) (S0 := demo_sys) (K := demo_cacher) l.
Definition demo_end : World := world_of (demo_run demo_inputs demo_root).

Lemma demo_root_ok : conns_ok demo_root.
Proof.
  assert (H : insert_root (C := demo_config) (S0 := demo_sys) 100 0 1 2 false (fun fd => fd + 10)
                (initial_world 4) = Ret (demo_root, tt)) by (vm_compute; reflexivity).
  exact (proj1 (keeps_insert_root _ _ _ _ _ _ _ _ _ H (initial_ok 4))).
Qed.

Lemma demo_root_linked : linked demo_root.
Proof.
  intros conn p H. assert (E : w_conns demo_root = ∅) by (vm_compute; reflexivity).
  rewrite E in H. discriminate H.
Qed.

Lemma supervisor_progress_witness :
  demo_run demo_inputs demo_root = Ret (demo_end, tt) /\ conns_ok demo_root /\
  conns_ok demo_end /\ progress demo_root demo_end /\
  exists conn p, w_conns (world_of (demo_run (take 8 demo_inputs) demo_root)) !! conn = Some (Some p) /\
    exists pr, w_procs (world_of (demo_run (take 8 demo_inputs) demo_root)) !! p = Some pr /\
      state_ pr = FB_PROC_RUNNING.
Proof.
  assert (H : demo_run demo_inputs demo_root = Ret (demo_end, tt)) by (vm_compute; reflexivity).
  assert (H8 : demo_run (take 8 demo_inputs) demo_root =
    Ret (world_of (demo_run (take 8 demo_inputs) demo_root), tt)) by (vm_compute; reflexivity).
  split; [exact H|]. split; [exact demo_root_ok|].
  pose proof (run_inputs_runs (HK := demo_cacher_ok) _ _ _ H) as R.
  destruct (supervisor_progress (C := demo_config) _ _ _ demo_root_ok R) as (A & B & _).
  split; [exact A|]. split; [exact B|].
  pose proof (run_inputs_runs (HK := demo_cacher_ok) _ _ _ H8) as R8.
  destruct (supervisor_progress (C := demo_config) _ _ _ demo_root_ok R8) as (_ & _ & L).
  exists 6, 2%nat. assert (Hc : w_conns (world_of (demo_run (take 8 demo_inputs) demo_root)) !! 6 =
    Some (Some 2%nat)) by (vm_compute; reflexivity).
  split; [exact Hc|].
  destruct (L ltac:(vm_compute; reflexivity) demo_root_linked 6 2%nat Hc) as (pr & Hp & Hs & _).
  exists pr. split; [exact Hp|exact Hs].
Defined.

(** A program that is started by a process that has been finalized but not yet
    collected is put below it: the next collection deletes the new process although it
    is connected, and its next message uses a dangling pointer. *)
Theorem connected_process_collected :
  exists w, demo_run (take 12 demo_inputs ++
      [IConnect 7; IRead 7 [(1, (PNew (Mscproc_query (demo_query 102 100 [cs "ls"]))))]; IGc])
      demo_root = Ret (w, tt) /\
    w_conns w !! 7 = Some (Some 4%nat) /\ w_procs w !! 4%nat = None /\
    demo_run [IRead 7 [(2, (PMsg (Mclose 3 None)))]] w = Abort.
Proof. eexists. splits; [vm_compute; reflexivity|vm_compute; reflexivity..]. Qed.

(** Garbage collection deletes finalized processes but not their entries in the
    table by PID: after a complete run the PID of the build command still refers to a
    process that is gone, and a later event that looks it up uses a dangling pointer. *)
Theorem gc_leaves_dangling_pid :
  exists w p, demo_run demo_inputs demo_root = Ret (w, tt) /\
    pid2proc_ w !! 100 = Some p /\ w_procs w !! p = None /\
    demo_run [ISigchld [(100, 0)] true] w = Abort.
Proof. exists demo_end, 1%nat. splits; vm_compute; reflexivity. Qed.

End Supervisor.
