(* ===== verification/Errors.v ===== *)
(** Failures are not silent: a system call handler that gives up (returns -1) has
    disabled shortcutting of the execed process the call belongs to, so that nothing
    that could not be tracked ends up in the cache. *)

From stdpp Require Import base list strings option gmap sets.
From Stdlib Require Import ZArith Lia Ascii.
From S2P Require Import Prelude FileUsage Commands World Shortcut Handlers Lifecycle Messages Progress Supervisor.

Local Open Scope Z_scope.

Module Errors.
Import Progress.

(** The execed process of [p] exists, and cannot be shortcut. *)
Definition cannot (w : World) (e : pid_ref) : Prop :=
  exists x, Shortcut.execed_of w e = Some x /\ can_shortcut_ x = false.
Definition disabled (w : World) (p : pid_ref) : Prop :=
  exists e, Shortcut.exec_point_of w p = Some e /\ cannot w e.

(** Computations that keep this. *)
Definition stays (w w' : World) : Prop :=
  (forall p, Shortcut.exec_point_of w' p = Shortcut.exec_point_of w p) /\
  (forall e, cannot w e -> cannot w' e).

#[export] Instance stays_preorder : PreOrder stays.
Proof.
  split; [by split|]. intros a b c [A1 A2] [B1 B2]. split; [intros p; by rewrite B1|by auto].
Qed.

Lemma stays_disabled w w' p : stays w w' -> disabled w p -> disabled w' p.
Proof. intros [H1 H2] (e & He & Hc). exists e. rewrite H1. split; [done|by apply H2]. Qed.

Lemma stays_log e : steps stays (log e).
Proof. by intros w w' a [= <- <-]. Qed.
Lemma stays_proc p : steps stays (proc p).
Proof. unfold proc. steps_tac. Qed.
Lemma stays_execed p : steps stays (execed p).
Proof. pose proof stays_proc. unfold execed. steps_tac. Qed.
Hint Resolve stays_log stays_proc stays_execed : steps.

Lemma stays_upd_execed p f :
  (forall x, can_shortcut_ x = false -> can_shortcut_ (f x) = false) -> steps stays (upd_execed p f).
Proof.
  intros Hf w w' a H. unfold upd_execed, execed, upd_proc, proc, gets, deref, mbind, M_bind, modify in H.
  destruct (w_procs w !! p) as [pr|] eqn:E; [|discriminate H]. cbn in H.
  destruct (kind_ pr) as [x|] eqn:Ek; [|discriminate H]. cbn in H. rewrite E in H. cbn in H.
  injection H as <- <-. unfold stays, cannot, Shortcut.exec_point_of, Shortcut.execed_of. cbn. split.
  - intros q. destruct (decide (p = q)) as [<-|Hne]; [|by rewrite lookup_insert_ne].
    by rewrite lookup_insert_eq, E, Ek.
  - intros q (y & Hy & Hc). destruct (decide (p = q)) as [<-|Hne].
    + rewrite lookup_insert_eq. cbn. rewrite E, Ek in Hy. injection Hy as ->. exists (f y). by auto.
    + rewrite lookup_insert_ne by done. by exists y.
Qed.
Hint Extern 3 (steps stays (upd_execed _ _)) => (apply stays_upd_execed; intros; done) : steps.

Lemma stays_skip_disabled n q : steps stays (skip_disabled n q).
Proof. revert q. induction n as [|n IH]; intros [q|]; cbn; steps_tac. Qed.
Hint Resolve stays_skip_disabled : steps.
Lemma stays_chain_fuel : steps stays chain_fuel.
Proof. apply steps_gets, _. Qed.
Hint Resolve stays_chain_fuel : steps.
Lemma stays_next p : steps stays (next_shortcutable_ancestor p).
Proof. unfold next_shortcutable_ancestor. steps_tac. Qed.
Lemma stays_only_this p r q : steps stays (disable_shortcutting_only_this p r q).
Proof. unfold disable_shortcutting_only_this. steps_tac. Qed.
Lemma stays_exec_point p : steps stays (exec_point p).
Proof. unfold exec_point. steps_tac. Qed.
Hint Resolve stays_next stays_only_this stays_exec_point : steps.
Lemma stays_parent_exec_point p : steps stays (parent_exec_point p).
Proof. unfold parent_exec_point. steps_tac. Qed.
Hint Resolve stays_parent_exec_point : steps.
Lemma stays_bubble n p stop reason src a : steps stays (bubble_up_to_excl n p stop reason src a).
Proof. revert p src a. induction n as [|n IH]; intros p src a; cbn; steps_tac. Qed.


(** What holds after a computation, wherever it started. *)
Definition after {A} (P : World -> Prop) (m : M A) : Prop :=
  forall w w' a, m w = Ret (w', a) -> P w'.

Lemma after_bind {A B} P (m : M A) (f : A -> M B) : (forall a, after P (f a)) -> after P (m ≫= f).
Proof. intros Hf w w' b H. apply bind_Ret in H as (w1 & a & _ & H2). by eapply Hf. Qed.

Lemma after_then {A B} (P : World -> Prop) (m : M A) (f : A -> M B) :
  (forall w w', stays w w' -> P w -> P w') -> after P m -> (forall a, steps stays (f a)) ->
  after P (m ≫= f).
Proof.
  intros HP Hm Hf w w' b H. apply bind_Ret in H as (w1 & a & H1 & H2).
  eapply HP; [by eapply Hf|by eapply Hm].
Qed.

Lemma stays_cannot e w w' : stays w w' -> cannot w e -> cannot w' e.
Proof. intros [_ H]. apply H. Qed.

Lemma after_only_this p r q : after (fun w => cannot w p) (disable_shortcutting_only_this p r q).
Proof.
  intros w w' a H. unfold disable_shortcutting_only_this in H.
  apply bind_Ret in H as (w0 & x & Hx & H). apply execed_Ret in Hx as [-> Hx].
  destruct (can_shortcut_ x) eqn:Ec; [|injection H as <- <-; by exists x].
  rewrite (Shortcut.bind_run _ _ _ _ _ (Shortcut.upd_execed_run w p x _ Hx)) in H.
  match type of H with ?m _ = _ => assert (Hs : steps stays m) by steps_tac end.
  apply (stays_cannot _ _ _ (Hs _ _ _ H)). exists (set_can_shortcut_ false x). split; [|done].
  rewrite (Shortcut.put_x_lookup _ _ _ _ _ Hx). by rewrite decide_True.
Qed.

Lemma after_bubble_up_to_excl p stop r q :
  stop <> Some p -> after (fun w => cannot w p) (disable_shortcutting_bubble_up_to_excl p stop r q).
Proof.
  intros Hne. unfold disable_shortcutting_bubble_up_to_excl.
  apply after_bind. intros [|n]; [by intros w w' a H|]. cbn [bubble_up_to_excl].
  rewrite bool_decide_false by done. pose proof stays_bubble.
  apply after_then; [by eauto using stays_cannot|apply after_only_this|intros ?; steps_tac].
Qed.

Create HintDb loud.

Lemma after_bubble_up p r q : after (fun w => cannot w p) (disable_shortcutting_bubble_up p r q).
Proof. by apply after_bubble_up_to_excl. Qed.

Section WithConfig.
Context {C : Config} {S0 : Sys}.

Lemma stays_reason_with_fd p r fd : steps stays (reason_with_fd p r fd).
Proof. unfold reason_with_fd, get_fd, ofd_of. steps_tac. Qed.

(** The variants of [exec_point()->disable_shortcutting_bubble_up()]. *)
Lemma exec_point_Ret p w w1 e :
  exec_point_nn p w = Ret (w1, e) -> w1 = w /\ Shortcut.exec_point_of w p = Some e.
Proof.
  unfold exec_point_nn, exec_point, proc, gets, deref, mbind, M_bind. intros H1.
  unfold Shortcut.exec_point_of. destruct (w_procs w !! p) as [pr|]; [|done]. cbn in H1.
  destruct (kind_ pr) as [x|k]; cbn in H1; [by injection H1 as <- <-|].
  destruct (exec_point_ k); [|done]. by injection H1 as <- <-.
Qed.

Lemma after_exec_point {A} (f : pid_ref -> M A) p :
  (forall e, after (fun w => cannot w e) (f e)) -> (forall e, steps stays (f e)) ->
  after (fun w => disabled w p) (exec_point_nn p ≫= f).
Proof.
  intros Hf Hs w w' a H. apply bind_Ret in H as (w1 & e & H1 & H2).
  apply exec_point_Ret in H1 as [-> He].
  exists e. split; [|by eapply Hf]. by rewrite (proj1 (Hs e _ _ _ H2)).
Qed.

Lemma after_bubble_up_fd p r fd : after (fun w => cannot w p) (disable_shortcutting_bubble_up_fd p r fd).
Proof. unfold disable_shortcutting_bubble_up_fd. apply after_bind. intros r'. apply after_bubble_up. Qed.
Lemma stays_bubble_up p r q : steps stays (disable_shortcutting_bubble_up p r q).
Proof.
  pose proof stays_bubble.
  unfold disable_shortcutting_bubble_up, disable_shortcutting_bubble_up_to_excl. steps_tac.
Qed.
Hint Resolve stays_bubble_up stays_reason_with_fd : steps.
Lemma after_disable_here p r : after (fun w => disabled w p) (disable_here p r).
Proof. apply after_exec_point; intros e; [apply after_bubble_up|steps_tac]. Qed.
Lemma after_disable_here_fd p r fd : after (fun w => disabled w p) (disable_here_fd p r fd).
Proof.
  apply after_exec_point; intros e; [apply after_bubble_up_fd|].
  unfold disable_shortcutting_bubble_up_fd. steps_tac.
Qed.
Lemma after_disable_here_str p r d : after (fun w => disabled w p) (disable_here_str p r d).
Proof. apply after_exec_point; intros e; [apply after_bubble_up|apply stays_bubble_up]. Qed.
Lemma after_disable_file p r f :
  after (fun w => disabled w p)
    (exec_point_nn p ≫= fun e => disable_shortcutting_bubble_up_file e r f).
Proof. apply after_exec_point; intros e; [apply after_bubble_up|apply stays_bubble_up]. Qed.

(** * Handlers *)

(** A result of -1 means that shortcutting is disabled. *)
Definition loud (p : pid_ref) (m : M Z) : Prop :=
  forall w w', m w = Ret (w', -1) -> disabled w' p.

(** The same of a part of a handler whose result is an early return, [inl]. *)
Definition loud_early {A} (p : pid_ref) (m : M (Z + A)) : Prop :=
  forall w w', m w = Ret (w', inl (-1)) -> disabled w' p.

Lemma loud_ret p z : z <> -1 -> loud p (ret z).
Proof. intros Hz w w' [= _ H]. done. Qed.
Lemma loud_abort p : loud p abortM.
Proof. by intros w w' H. Qed.
Lemma loud_bind {A} p (m : M A) f : (forall a, loud p (f a)) -> loud p (m ≫= f).
Proof. intros Hf w w' H. apply bind_Ret in H as (w1 & a & _ & H2). by eapply Hf. Qed.
Lemma loud_disabled {A} p (m : M A) (f : A -> M Z) :
  after (fun w => disabled w p) m -> (forall a, steps stays (f a)) -> loud p (m ≫= f).
Proof.
  intros Hm Hf w w' H. apply bind_Ret in H as (w1 & a & H1 & H2).
  eapply stays_disabled; [by eapply Hf|by eapply Hm].
Qed.

Lemma loud_exec_point {A} p (m : pid_ref -> M A) (f : A -> M Z) :
  (forall e, after (fun w => cannot w e) (m e)) -> (forall e, steps stays (m e)) ->
  (forall a, steps stays (f a)) -> loud p (exec_point_nn p ≫= fun e => m e ≫= f).
Proof.
  intros Hm Hs Hf w w' H. revert H. apply after_exec_point; intros e.
  - apply after_then; [by eauto using stays_cannot|done|done].
  - apply steps_bind; [typeclasses eauto|done|done].
Qed.

(** Registering a file usage, or disabling shortcutting when it does not fit. *)
Lemma stays_env : steps stays env.
Proof. apply steps_gets, _. Qed.
Hint Resolve stays_env : steps.
Lemma stays_register_loop rec n this name q fu_old fu_new update propagated :
  (forall p name u, steps stays (rec p name u)) ->
  steps stays (register_loop rec n this name q fu_old fu_new update propagated).
Proof.
  intros Hrec. revert q fu_old fu_new update propagated.
  induction n as [|n IH]; intros q fu_old fu_new update propagated; cbn;
    unfold disable_shortcutting_bubble_up_str; steps_tac.
Qed.
Lemma stays_register_with_fuel n this name update :
  steps stays (register_with_fuel n this name update).
Proof.
  revert this name update. induction n as [|n IH]; intros this name update; [apply steps_fuel|].
  cbn [register_with_fuel]. pose proof (stays_register_loop (register_with_fuel n)). steps_tac.
Qed.
Lemma stays_register this name update : steps stays (register_file_usage_update this name update).
Proof.
  pose proof stays_register_with_fuel. unfold register_file_usage_update. steps_tac.
Qed.

Lemma loud_register_or_disable p name u r : loud p (register_or_disable p name u r).
Proof.
  intros w w' H. unfold register_or_disable in H.
  apply bind_Ret in H as (w1 & e & H1 & H). apply exec_point_Ret in H1 as [-> He].
  apply bind_Ret in H as (w2 & [] & H2 & H); [by injection H|].
  apply bind_Ret in H as (w3 & u3 & H3 & [= <-]). exists e.
  rewrite (proj1 (stays_bubble_up _ _ _ _ _ _ H3)), (proj1 (stays_register _ _ _ _ _ _ H2)).
  split; [done|by eapply after_bubble_up].
Qed.

Lemma stays_ack a b : steps stays (ack a b).
Proof. unfold ack. steps_tac. Qed.
Hint Resolve stays_ack : steps.
Lemma loud_ack p m a b : loud p m -> loud p (m ≫= fun r => ack a b ≫= fun _ => ret r).
Proof.
  intros Hm w w' H. apply bind_Ret in H as (w1 & r & H1 & H).
  apply bind_Ret in H as (w2 & u & H2 & [= <- ->]).
  eapply stays_disabled; [by eapply stays_ack|by eapply Hm].
Qed.

Lemma early_ret {A} p (v : Z + A) : v <> inl (-1) -> loud_early p (ret v).
Proof. intros Hz w w' [= _ H]. done. Qed.
Lemma early_bind {A B} p (m : M A) (f : A -> M (Z + B)) :
  (forall a, loud_early p (f a)) -> loud_early p (m ≫= f).
Proof. intros Hf w w' H. apply bind_Ret in H as (w1 & a & _ & H2). by eapply Hf. Qed.
Lemma early_disabled {A B} p (m : M A) (f : A -> M (Z + B)) :
  after (fun w => disabled w p) m -> (forall a, steps stays (f a)) -> loud_early p (m ≫= f).
Proof.
  intros Hm Hf w w' H. apply bind_Ret in H as (w1 & a & H1 & H2).
  eapply stays_disabled; [by eapply Hf|by eapply Hm].
Qed.
Lemma loud_early_bind {A} p (m : M (Z + A)) (f : A -> M Z) :
  loud_early p m -> (forall a, loud p (f a)) ->
  loud p (m ≫= fun v => match v with inl r => ret r | inr a => f a end).
Proof.
  intros Hm Hf w w' H. apply bind_Ret in H as (w1 & [r|a] & H1 & H2); [|by eapply Hf].
  injection H2 as <- ->. by eapply Hm.
Qed.
Lemma loud_else p m (k : M Z) : loud p m -> loud p k -> loud p (m ≫= fun r => if r =? 0 then k else ret r).
Proof.
  intros Hm Hk w w' H. apply bind_Ret in H as (w1 & r & H1 & H2).
  destruct (r =? 0); [by eapply Hk|]. injection H2 as <- ->. by eapply Hm.
Qed.
Lemma loud_unless p m (k : M Z) :
  loud p m -> loud p k -> loud p (m ≫= fun r => if negb (r =? 0) then ret r else k).
Proof.
  intros Hm Hk w w' H. apply bind_Ret in H as (w1 & r & H1 & H2).
  destruct (negb (r =? 0)); [|by eapply Hk]. injection H2 as <- ->. by eapply Hm.
Qed.

(** Follow a handler to where it returns. *)
Ltac loud_tac :=
  repeat (cbv zeta; lazymatch goal with
    | |- loud _ (ret _) => apply loud_ret; done
    | |- loud _ abortM => apply loud_abort
    | |- loud _ (match ?x with _ => _ end) => destruct x
    | |- loud _ (register_or_disable _ _ _ _) => apply loud_register_or_disable
    | |- loud _ (disable_here _ _ ≫= _) =>
        apply loud_disabled; [apply after_disable_here|intros ?; steps_tac]
    | |- loud _ (disable_here_fd _ _ _ ≫= _) =>
        apply loud_disabled; [apply after_disable_here_fd|intros ?; steps_tac]
    | |- loud _ (disable_here_str _ _ _ ≫= _) =>
        apply loud_disabled; [apply after_disable_here_str|intros ?; steps_tac]
    | |- loud _ (exec_point_nn _ ≫= fun e => disable_shortcutting_bubble_up_file e _ _ ≫= _) =>
        apply loud_exec_point; [intros ?; apply after_bubble_up|intros ?; apply stays_bubble_up|
          intros ?; steps_tac]
    | |- loud _ (_ ≫= fun r => ack _ _ ≫= fun _ => ret r) => apply loud_ack
    | |- loud _ (_ ≫= fun r => if r =? 0 then _ else ret r) => apply loud_else
    | |- loud _ (_ ≫= fun r => if negb (r =? 0) then ret r else _) => apply loud_unless
    | |- loud _ (_ ≫= fun v => match v with inl r => ret r | inr a => _ end) => apply loud_early_bind
    | |- loud_early _ (ret _) => apply early_ret; by repeat case_match
    | |- loud_early _ (match ?x with _ => _ end) => destruct x
    | |- loud_early _ (disable_here _ _ ≫= _) =>
        apply early_disabled; [apply after_disable_here|intros ?; steps_tac]
    | |- loud_early _ (disable_here_fd _ _ _ ≫= _) =>
        apply early_disabled; [apply after_disable_here_fd|intros ?; steps_tac]
    | |- loud_early _ (_ ≫= _) => apply early_bind
    | |- loud _ (_ ≫= _) => apply loud_bind
    | |- forall _, _ => intros ?
    | |- _ => solve [eauto 2 with loud]
    end).

Lemma loud_handle_pre_open a b c : loud a (handle_pre_open a b c).
Proof. unfold handle_pre_open. loud_tac. Qed.
Hint Resolve loud_handle_pre_open : loud.
Lemma loud_handle_close a0 a1 a2 : loud a0 (handle_close a0 a1 a2).
Proof. unfold handle_close. loud_tac. Qed.
Hint Resolve loud_handle_close : loud.
Lemma loud_handle_force_close a0 a1 : loud a0 (handle_force_close a0 a1).
Proof. unfold handle_force_close. loud_tac. Qed.
Hint Resolve loud_handle_force_close : loud.
Lemma loud_handle_close_range a0 a1 a2 a3 a4 : loud a0 (handle_close_range a0 a1 a2 a3 a4).
Proof. unfold handle_close_range. loud_tac. Qed.
Hint Resolve loud_handle_close_range : loud.
Lemma loud_handle_closefrom a0 a1 : loud a0 (handle_closefrom a0 a1).
Proof. unfold handle_closefrom. loud_tac. Qed.
Hint Resolve loud_handle_closefrom : loud.
Lemma loud_handle_open a0 a1 a2 a3 a4 a5 a6 a7 a8 a9 a10 a11 a12 : loud a0 (handle_open a0 a1 a2 a3 a4 a5 a6 a7 a8 a9 a10 a11 a12).
Proof. unfold handle_open. loud_tac. Qed.
Hint Resolve loud_handle_open : loud.
Lemma loud_handle_freopen a0 a1 a2 a3 a4 a5 a6 a7 a8 : loud a0 (handle_freopen a0 a1 a2 a3 a4 a5 a6 a7 a8).
Proof. unfold handle_freopen. loud_tac. Qed.
Hint Resolve loud_handle_freopen : loud.
Lemma loud_handle_dlopen a0 a1 a2 a3 a4 a5 : loud a0 (handle_dlopen a0 a1 a2 a3 a4 a5).
Proof. unfold handle_dlopen. loud_tac. Qed.
Hint Resolve loud_handle_dlopen : loud.
Lemma loud_handle_scandirat a0 a1 a2 a3 : loud a0 (handle_scandirat a0 a1 a2 a3).
Proof. unfold handle_scandirat. loud_tac. Qed.
Hint Resolve loud_handle_scandirat : loud.
Lemma loud_handle_truncate a0 a1 a2 a3 : loud a0 (handle_truncate a0 a1 a2 a3).
Proof. unfold handle_truncate. loud_tac. Qed.
Hint Resolve loud_handle_truncate : loud.
Lemma loud_handle_unlink a0 a1 a2 a3 a4 a5 : loud a0 (handle_unlink a0 a1 a2 a3 a4 a5).
Proof. unfold handle_unlink. loud_tac. Qed.
Hint Resolve loud_handle_unlink : loud.
Lemma loud_handle_rmdir a0 a1 a2 a3 : loud a0 (handle_rmdir a0 a1 a2 a3).
Proof. unfold handle_rmdir. loud_tac. Qed.
Hint Resolve loud_handle_rmdir : loud.
Lemma loud_handle_mkdir a0 a1 a2 a3 a4 : loud a0 (handle_mkdir a0 a1 a2 a3 a4).
Proof. unfold handle_mkdir. loud_tac. Qed.
Hint Resolve loud_handle_mkdir : loud.
Lemma loud_handle_fstatat a0 a1 a2 a3 a4 a5 a6 a7 a8 : loud a0 (handle_fstatat a0 a1 a2 a3 a4 a5 a6 a7 a8).
Proof. unfold handle_fstatat. loud_tac. Qed.
Hint Resolve loud_handle_fstatat : loud.
Lemma loud_handle_statfs a0 a1 a2 : loud a0 (handle_statfs a0 a1 a2).
Proof. unfold handle_statfs. loud_tac. Qed.
Hint Resolve loud_handle_statfs : loud.
Lemma loud_handle_mktemp a0 a1 : loud a0 (handle_mktemp a0 a1).
Proof. unfold handle_mktemp. loud_tac. Qed.
Hint Resolve loud_handle_mktemp : loud.
Lemma loud_handle_faccessat a0 a1 a2 a3 a4 : loud a0 (handle_faccessat a0 a1 a2 a3 a4).
Proof. unfold handle_faccessat. loud_tac. Qed.
Hint Resolve loud_handle_faccessat : loud.
Lemma loud_handle_shm_open a0 a1 a2 : loud a0 (handle_shm_open a0 a1 a2).
Proof. unfold handle_shm_open. loud_tac. Qed.
Hint Resolve loud_handle_shm_open : loud.
Lemma loud_handle_memfd_create a0 a1 a2 : loud a0 (handle_memfd_create a0 a1 a2).
Proof. unfold handle_memfd_create. loud_tac. Qed.
Hint Resolve loud_handle_memfd_create : loud.
Lemma loud_handle_timerfd_create a0 a1 a2 : loud a0 (handle_timerfd_create a0 a1 a2).
Proof. unfold handle_timerfd_create. loud_tac. Qed.
Hint Resolve loud_handle_timerfd_create : loud.
Lemma loud_handle_epoll_create a0 a1 a2 : loud a0 (handle_epoll_create a0 a1 a2).
Proof. unfold handle_epoll_create. loud_tac. Qed.
Hint Resolve loud_handle_epoll_create : loud.
Lemma loud_handle_eventfd a0 a1 a2 : loud a0 (handle_eventfd a0 a1 a2).
Proof. unfold handle_eventfd. loud_tac. Qed.
Hint Resolve loud_handle_eventfd : loud.
Lemma loud_handle_signalfd a0 a1 a2 a3 : loud a0 (handle_signalfd a0 a1 a2 a3).
Proof. unfold handle_signalfd. loud_tac. Qed.
Hint Resolve loud_handle_signalfd : loud.
Lemma loud_handle_mkfifo a0 a1 a2 a3 : loud a0 (handle_mkfifo a0 a1 a2 a3).
Proof. unfold handle_mkfifo. loud_tac. Qed.
Hint Resolve loud_handle_mkfifo : loud.
Lemma loud_handle_dup3 a0 a1 a2 a3 a4 : loud a0 (handle_dup3 a0 a1 a2 a3 a4).
Proof. unfold handle_dup3. loud_tac. Qed.
Hint Resolve loud_handle_dup3 : loud.
Lemma loud_handle_rename a0 a1 a2 a3 a4 a5 : loud a0 (handle_rename a0 a1 a2 a3 a4 a5).
Proof. unfold handle_rename. loud_tac. Qed.
Hint Resolve loud_handle_rename : loud.
Lemma loud_handle_symlink a0 a1 a2 a3 a4 : loud a0 (handle_symlink a0 a1 a2 a3 a4).
Proof. unfold handle_symlink. loud_tac. Qed.
Hint Resolve loud_handle_symlink : loud.
Lemma loud_set_cloexec_or_disable a0 a1 a2 a3 : loud a0 (set_cloexec_or_disable a0 a1 a2 a3).
Proof. unfold set_cloexec_or_disable. loud_tac. Qed.
Hint Resolve loud_set_cloexec_or_disable : loud.
Lemma loud_handle_clear_cloexec a0 a1 : loud a0 (handle_clear_cloexec a0 a1).
Proof. unfold handle_clear_cloexec. loud_tac. Qed.
Hint Resolve loud_handle_clear_cloexec : loud.
Lemma loud_handle_fcntl a0 a1 a2 a3 a4 a5 : loud a0 (handle_fcntl a0 a1 a2 a3 a4 a5).
Proof. unfold handle_fcntl. loud_tac. Qed.
Hint Resolve loud_handle_fcntl : loud.
Lemma loud_handle_ioctl a0 a1 a2 a3 : loud a0 (handle_ioctl a0 a1 a2 a3).
Proof. unfold handle_ioctl. loud_tac. Qed.
Hint Resolve loud_handle_ioctl : loud.

Lemma stays_ofd_of f : steps stays (ofd_of f).
Proof. unfold ofd_of. steps_tac. Qed.
Hint Resolve stays_ofd_of : steps.
Lemma stays_opened_by f : steps stays (opened_by_exec_point f).
Proof. unfold opened_by_exec_point. steps_tac. Qed.
Lemma stays_bubble_up_to_excl p stop r q : steps stays (disable_shortcutting_bubble_up_to_excl p stop r q).
Proof. pose proof stays_bubble. unfold disable_shortcutting_bubble_up_to_excl. steps_tac. Qed.
Lemma stays_get_fd p fd : steps stays (get_fd p fd).
Proof. unfold get_fd. steps_tac. Qed.
Hint Resolve stays_opened_by stays_bubble_up_to_excl stays_get_fd : steps.
Lemma stays_exec_point_nn p : steps stays (exec_point_nn p).
Proof. unfold exec_point_nn. steps_tac. Qed.
Hint Resolve stays_exec_point_nn : steps.
Lemma stays_get_absolute p d n : steps stays (get_absolute p d n).
Proof. unfold get_absolute, get_fd_filename. steps_tac. Qed.
Hint Resolve stays_get_absolute : steps.
Lemma stays_disable_here p r : steps stays (disable_here p r).
Proof. unfold disable_here. steps_tac. Qed.
Lemma stays_disable_here_fd p r fd : steps stays (disable_here_fd p r fd).
Proof. unfold disable_here_fd, disable_shortcutting_bubble_up_fd. steps_tac. Qed.
Hint Resolve stays_disable_here stays_disable_here_fd : steps.
Lemma stays_modify f : (forall w, w_procs (f w) = w_procs w) -> steps stays (modify f).
Proof.
  intros Hf w w' a [= <- <-]. unfold stays, cannot, Shortcut.exec_point_of, Shortcut.execed_of.
  by rewrite Hf.
Qed.
Lemma stays_new_update n t a b : steps stays (new_update n t a b).
Proof.
  pose proof stays_modify. unfold new_update, generation. steps_tac.
Qed.
Lemma stays_disable_file p r f : steps stays (disable_shortcutting_bubble_up_file p r f).
Proof. apply stays_bubble_up. Qed.
Hint Resolve stays_new_update stays_disable_file stays_register : steps.

(** [fchmodat()] registers at the process that opened the descriptor; the processes
    below it have been disabled before. *)
Lemma inherited_fchmod p ep f w w' v :
  Shortcut.exec_point_of w p = Some ep ->
  (rf ← opened_by_exec_point f;
   disable_shortcutting_bubble_up_to_excl ep rf "fchmod() on an inherited fd not supported" None ≫= fun _ =>
   ofd ← ofd_of f;
   ret (match filename_ ofd with Some n => inr (n, rf) | None => inl 0 end)) w = Ret (w', v) ->
  v <> inl (-1) /\ forall n rf, v = inr (n, rf) -> disabled w' p \/ rf = Some ep.
Proof.
  intros He H. apply bind_Ret in H as (w1 & rf & H1 & H). apply bind_Ret in H as (w2 & u & H2 & H).
  apply bind_Ret in H as (w3 & ofd & H3 & H). injection H as <- <-.
  split; [by destruct (filename_ ofd)|]. intros n rf' Hv.
  destruct (filename_ ofd); [|done]. injection Hv as _ <-.
  destruct (decide (rf = Some ep)) as [->|Hne]; [by right|left].
  pose proof (stays_opened_by _ _ _ _ H1) as S1.
  pose proof (stays_bubble_up_to_excl _ _ _ _ _ _ _ H2) as S2.
  pose proof (stays_ofd_of _ _ _ _ H3) as S3.
  apply (stays_disabled _ _ _ S3). exists ep. rewrite (proj1 S2), (proj1 S1). split; [done|].
  by eapply after_bubble_up_to_excl.
Qed.

Lemma loud_handle_fchmodat a0 a1 a2 a3 a4 : loud a0 (handle_fchmodat a0 a1 a2 a3 a4).
Proof.
  intros w w' H. unfold handle_fchmodat in H.
  apply bind_Ret in H as (w0 & ep & H1 & H). apply exec_point_Ret in H1 as [-> He].
  apply bind_Ret in H as (w1 & v & H1 & H).
  assert (S1 : stays w w1).
  { match type of H1 with ?m _ = _ => assert (Hs : steps stays m) by steps_tac end. by eapply Hs. }
  assert (Hv : (v = inl (-1) -> disabled w1 a0) /\
    forall n rf, v = inr (n, rf) -> disabled w1 a0 \/ rf = Some ep).
  { clear H. destruct (on_fd a2 a3).
    - apply bind_Ret in H1 as (w2 & [f|] & H2 & H1).
      + destruct (inherited_fchmod a0 ep f w2 w1 v) as [? ?]; [|done|done].
        by rewrite (proj1 (stays_get_fd _ _ _ _ _ H2)).
      + destruct (a4 =? 0); [|injection H1 as <- <-; done].
        apply bind_Ret in H1 as (w3 & u & H3 & [= <- <-]).
        split; [|done]. intros _. by eapply after_disable_here_fd.
    - apply bind_Ret in H1 as (w2 & [n|] & H2 & H1); [injection H1 as <- <-; split; [done|]|].
      + intros ? ? [= _ <-]. by right.
      + apply bind_Ret in H1 as (w3 & u & H3 & [= <- <-]).
        split; [|done]. intros _. by eapply after_disable_here. }
  destruct Hv as [Hl Hr]. destruct v as [r|[n rf]]; [injection H as <- ->; by apply Hl|].
  rewrite <- (proj1 S1) in He. clear H1 S1 Hl.
  destruct (Hr n rf eq_refl) as [Hd| ->].
  - match type of H with ?m _ = _ => assert (Hs : steps stays m) by (destruct rf; steps_tac) end.
    eapply stays_disabled; [by eapply Hs|done].
  - destruct (negb (a4 =? 0)).
    + apply bind_Ret in H as (w2 & u & H2 & [= <-]). exists ep.
      rewrite (proj1 (stays_disable_file _ _ _ _ _ _ H2)). split; [done|by eapply after_bubble_up].
    + apply bind_Ret in H as (w2 & up & H2 & H). apply bind_Ret in H as (w3 & [] & H3 & H); [by injection H|].
      apply bind_Ret in H as (w4 & u & H4 & [= <-]). exists ep.
      rewrite (proj1 (stays_disable_file _ _ _ _ _ _ H4)), (proj1 (stays_register _ _ _ _ _ _ H3)),
        (proj1 (stays_new_update _ _ _ _ _ _ _ H2)).
      split; [done|by eapply after_bubble_up].
Qed.
Hint Resolve loud_handle_fchmodat : loud.

(** C2. A system call that the supervisor cannot track is never ignored: whenever a
    handler reports failure by returning -1, shortcutting of the execed process the
    call was made in has been disabled, whatever the message and the state were. *)
Theorem failure_disables_shortcutting this msg ack_num fd_conn w w' :
  handle_syscall this msg ack_num fd_conn w = Ret (w', -1) -> disabled w' this.
Proof.
  revert w w'. change (loud this (handle_syscall this msg ack_num fd_conn)).
  unfold handle_syscall. destruct msg; loud_tac.
Qed.

End WithConfig.

(** The build command of the example run closes a descriptor it never opened. *)
Definition demo_started : World :=
  Supervisor.world_of (Supervisor.demo_run (take 2 Supervisor.demo_inputs) Supervisor.demo_root).
Definition demo_failed : World :=
  match handle_syscall (C := Supervisor.demo_config) (S0 := Supervisor.demo_sys) 1%nat (Mclose 77 None) 1 5
          demo_started with Ret (w, _) => w | _ => demo_started end.

Lemma failure_disables_shortcutting_witness :
  Shortcut.can demo_started 1%nat = true /\ disabled demo_failed 1%nat.
Proof.
  split; [vm_compute; reflexivity|].
  apply (failure_disables_shortcutting (C := Supervisor.demo_config) (S0 := Supervisor.demo_sys)
    1%nat (Mclose 77 None) 1 5 demo_started demo_failed).
  vm_compute. reflexivity.
Defined.

End Errors.
