(* ===== verification/Children.v ===== *)
(** Recognising the children started by system(), popen() and posix_spawn(): the
    command line of a new process against the one its parent announced
    ([argv_matches_expectation], src/firebuild/process.cc). *)

From stdpp Require Import base list strings option.
From Stdlib Require Import ZArith Lia Ascii.
From S2P Require Import Prelude Commands World Lifecycle.

Local Open Scope Z_scope.

Module Children.

(** What the program name may become: the comment of [argv_matches_expectation]
    explains that it stays the same when it has a slash, and that it is prefixed by a
    path when it has none and names a script. *)
Definition arg0_becomes (expected actual : cstr) : Prop :=
  if decide (slash ∈ expected) then actual = expected
  else exists dir, actual = dir ++ slash :: expected.

(** The test of the code on the two names. *)
Definition arg0_test (e0 a0 : cstr) : bool :=
  if bool_decide (slash ∈ e0) then bool_decide (a0 = e0)
  else negb (length a0 <=? length e0)%nat &&
       (bool_decide (char_at a0 (length a0 - length e0 - 1) = slash) &&
        bool_decide (drop (length a0 - length e0) a0 = e0)).

Lemma arg0_test_spec e0 a0 : arg0_test e0 a0 = true <-> arg0_becomes e0 a0.
Proof.
  unfold arg0_test, arg0_becomes. case_bool_decide as Hs; [by rewrite decide_True, bool_decide_eq_true|].
  rewrite decide_False by done. rewrite !andb_true_iff, negb_true_iff, !bool_decide_eq_true, Nat.leb_gt.
  split.
  - intros (Hl & Hc & Hd). exists (take (length a0 - length e0 - 1) a0).
    rewrite <- (take_drop (length a0 - length e0 - 1) a0) at 1. f_equal.
    unfold char_at in Hc. rewrite nth_lookup in Hc.
    destruct (a0 !! (length a0 - length e0 - 1)%nat) as [c|] eqn:E;
      [|apply lookup_ge_None in E; lia]. cbn in Hc. subst c.
    rewrite (drop_S _ _ _ E). f_equal. rewrite <- Hd at 2. f_equal. lia.
  - intros [dir ->]. rewrite length_app. cbn [length].
    replace (length dir + S (length e0) - length e0 - 1)%nat with (length dir) by lia.
    replace (length dir + S (length e0) - length e0)%nat with (length dir + 1)%nat by lia.
    split_and!; [lia| |].
    + unfold char_at. by rewrite app_nth2, Nat.sub_diag by lia.
    + rewrite drop_app_ge by lia. replace (length dir + 1 - length dir)%nat with 1%nat by lia. done.
Qed.

(** The loop compares every remaining argument with the first expected one. *)
Lemma argv_match_loop_spec front rest e0 e1 args k :
  argv_match_loop (length rest - k) (front ++ rest) (length front) (e0 :: e1 :: args) 1 (1 + k) =
  Ret (forallb (fun a => bool_decide (a = e1)) (drop k rest)).
Proof.
  remember (length rest - k)%nat as n eqn:Hn. revert k Hn.
  induction n as [|n IH]; intros k Hn; [rewrite drop_ge by lia; done|].
  destruct (lookup_lt_is_Some_2 rest k) as [a Ha]; [lia|].
  assert (Hat : at_arg (front ++ rest) (length front + (1 + k) - 1) = Ret a).
  { unfold at_arg. rewrite lookup_app_r by lia.
    by replace (length front + (1 + k) - 1 - length front)%nat with k by lia; rewrite Ha. }
  cbn [argv_match_loop]. rewrite Hat, (drop_S _ _ _ Ha). cbn.
  destruct (bool_decide (a = e1)); [|done].
  apply (IH (S k)). lia.
Qed.

Lemma argv_match_loop_nil front e0 :
  argv_match_loop 0 front (length front) [e0] 1 1 = Ret true.
Proof. done. Qed.

(** The test on the arguments after the program name. *)
Definition tail_test (args rest : list cstr) : bool :=
  match args with [] => true | e1 :: _ => forallb (fun a => bool_decide (a = e1)) rest end.

Lemma from_offset_spec front rest e0 args :
  length rest = length args ->
  argv_match_from_offset (front ++ rest) (length front) (e0 :: args) 1 = Ret (tail_test args rest).
Proof.
  intros Hl. unfold argv_match_from_offset.
  replace (Z.of_nat (length (front ++ rest)) - Z.of_nat (length front))
    with (Z.of_nat (length (e0 :: args)) - Z.of_nat 1) by (rewrite length_app; cbn; lia).
  rewrite Z.eqb_refl. cbn [negb]. replace (length (e0 :: args) - 1)%nat with (length rest) by (cbn; lia).
  destruct args as [|e1 args]; [by destruct rest|].
  pose proof (argv_match_loop_spec front rest e0 e1 args 0) as H.
  rewrite Nat.sub_0_r, drop_0 in H. exact H.
Qed.

(** The command line of a script: its interpreters and their options come first. *)
Lemma interpreted_spec {C : Config} interp a0 rest e0 args :
  interp <> [] -> length rest = length args ->
  argv_matches_expectation (interp ++ a0 :: rest) (e0 :: args) =
  Ret (arg0_test e0 a0 && tail_test args rest).
Proof.
  intros Hi Hl. unfold argv_matches_expectation.
  assert (Hlen : length (interp ++ a0 :: rest) = (length interp + length (e0 :: args))%nat)
    by (rewrite length_app; cbn; lia).
  assert (Hne : (length interp <> 0)%nat) by (by destruct interp).
  rewrite (proj2 (Nat.eqb_neq _ _)) by lia. rewrite (proj2 (Nat.ltb_lt _ _)) by lia.
  rewrite Hlen. replace (length interp + length (e0 :: args) - length (e0 :: args))%nat
    with (length interp) by lia.
  assert (Ha : at_arg (interp ++ a0 :: rest) (length interp) = Ret a0).
  { unfold at_arg. by rewrite lookup_app_r, Nat.sub_diag by lia. }
  assert (Hf : argv_match_from_offset (interp ++ a0 :: rest) (length interp + 1) (e0 :: args) 1 =
               Ret (tail_test args rest)).
  { pose proof (from_offset_spec (interp ++ [a0]) rest e0 args Hl) as H.
    rewrite length_app, <- app_assoc in H. exact H. }
  change (at_arg (e0 :: args) 0) with (Ret e0). rewrite Ha, Hf. unfold arg0_test. cbn -[Nat.leb].
  destruct (bool_decide (slash ∈ e0)); [by destruct (bool_decide (a0 = e0))|].
  destruct (length a0 <=? length e0)%nat; [done|].
  destruct (bool_decide (char_at _ _ = _)); [|done]. by destruct (bool_decide (drop _ _ = _)).
Qed.

(** The child of a script with at most one argument is recognised exactly: behind
    any interpreters, the announced command line must appear with its program name
    unchanged or, if it had no slash, prefixed by a path. *)
Theorem argv_interpreted {C : Config} interp a0 rest e0 args :
  interp <> [] -> length rest = length args -> (length args <= 1)%nat ->
  argv_matches_expectation (interp ++ a0 :: rest) (e0 :: args) = Ret true <->
  arg0_becomes e0 a0 /\ rest = args.
Proof.
  intros Hi Hl H1. rewrite interpreted_spec, <- arg0_test_spec by done.
  assert (Ht : tail_test args rest = bool_decide (rest = args)).
  { destruct args as [|e1 [|]], rest as [|r1 [|]]; cbn in *; try lia; [done|].
    rewrite andb_true_r. apply bool_decide_ext. split; congruence. }
  rewrite Ht. split.
  - intros [= H]. apply andb_true_iff in H as [? H]. by apply bool_decide_eq_true in H.
  - intros [-> ->]. by rewrite bool_decide_true.
Qed.

Lemma argv_interpreted_witness :
  argv_matches_expectation (C := Build_Config [] [] false false false false 0 None ExeMatcher.empty
    ExeMatcher.empty ExeMatcher.empty None true [] 0 0)
    [cs "/bin/sh"; cs "./foo"; cs "x"] [cs "foo"; cs "x"] = Ret true.
Proof.
  apply (argv_interpreted [cs "/bin/sh"] (cs "./foo") [cs "x"] (cs "foo") [cs "x"]); [done|done|done|].
  split; [|done]. unfold arg0_becomes. rewrite decide_False by (by apply (bool_decide_eq_true_1 _)).
  by exists (cs ".").
Defined.

(** With two arguments or more that differ the child of a script is never
    recognised, even when its command line is the announced one behind an
    interpreter: every argument is compared with the first announced one. *)
Theorem argv_script_arguments {C : Config} interp a0 e0 a b rest :
  interp <> [] -> a <> b ->
  argv_matches_expectation (interp ++ a0 :: a :: b :: rest) (e0 :: a :: b :: rest) = Ret false.
Proof.
  intros Hi Hab. rewrite interpreted_spec by done. cbn.
  rewrite (bool_decide_false (b = a)) by congruence. by rewrite !andb_false_r.
Qed.

Lemma argv_script_arguments_witness :
  argv_matches_expectation (C := Build_Config [] [] false false false false 0 None ExeMatcher.empty
    ExeMatcher.empty ExeMatcher.empty None true [] 0 0)
    [cs "/bin/sh"; cs "./foo"; cs "x"; cs "y"] [cs "./foo"; cs "x"; cs "y"] = Ret false.
Proof.
  apply (argv_script_arguments [cs "/bin/sh"] (cs "./foo") (cs "./foo") (cs "x") (cs "y") []); done.
Defined.

(** With a C library that does not pass "--" to the shell, any command matches the
    one announced by system() or popen(): the commands are not compared. *)
Theorem argv_old_libc_command {C : Config} cmd cmd' :
  glibc_2_38 = false -> cmd' <> cs "--" ->
  argv_matches_expectation [cs "sh"; cs "-c"; cmd'] [cs "sh"; cs "-c"; cs "--"; cmd] = Ret true.
Proof.
  intros Hg Hc. unfold argv_matches_expectation. rewrite Hg. cbn -[cs].
  by rewrite !bool_decide_true, bool_decide_false by congruence.
Qed.

Lemma argv_old_libc_command_witness :
  argv_matches_expectation (C := Build_Config [] [] false false false false 0 None ExeMatcher.empty
    ExeMatcher.empty ExeMatcher.empty None false [] 0 0)
    [cs "sh"; cs "-c"; cs "rm -f x"] [cs "sh"; cs "-c"; cs "--"; cs "make"] = Ret true.
Proof. by apply (argv_old_libc_command (cs "make") (cs "rm -f x")). Defined.

End Children.
