(* ===== verification/Framing.v ===== *)
(** Receiving messages: the buffer of a connection ([LinearBuffer],
    src/firebuild/linear_buffer.h) and the loop of [ic_conn_readcb()]
    (src/firebuild/message_processor.cc) that cuts the received bytes into messages
    (src/common/README_MSG_FRAME.txt). *)

From stdpp Require Import base list option numbers.
From Stdlib Require Import ZArith Lia.
From S2P Require Import Prelude.

Local Open Scope Z_scope.

(** Bytes are numbers in [0, 256). *)
Definition is_byte (b : Z) : Prop := 0 <= b < 256.
Definition u64 (n : Z) : Z := n mod 2 ^ 64.

Module LinearBuffer.

(** The allocated block is a list of cells, [None] where nothing has been written. *)
Record t := mk {
  size_ : Z;
  buffer_ : list (option Z);
  data_start_offset_ : Z;
  length_ : Z
}.

Definition new : t := mk (8 * 1024) (replicate (8 * 1024) None) 0 0.

(** The cells of [data()], up to [length()]. *)
Definition data (b : t) : list (option Z) :=
  take (Z.to_nat (length_ b)) (drop (Z.to_nat (data_start_offset_ b)) (buffer_ b)).

(** [memcpy(&buffer_[at], bytes, n)]; writing past the block is undefined. *)
Definition write_at (buf : list (option Z)) (at_ : Z) (bytes : list (option Z)) : outcome (list (option Z)) :=
  if (0 <=? at_) && (at_ + Z.of_nat (length bytes) <=? Z.of_nat (length buf)) then
    Ret (take (Z.to_nat at_) buf ++ bytes ++ drop (Z.to_nat at_ + length bytes) buf)
  else Abort.

(** [realloc(buffer_, size)]: the new cells are not initialized. *)
Definition realloc (buf : list (option Z)) (size : Z) : list (option Z) :=
  resize (Z.to_nat size) None buf.

Definition ensure_space (howmuch : Z) (b : t) : outcome t :=
  assert (0 <=? howmuch) ≫= fun _ =>
  b ← if 256 * 1024 <? data_start_offset_ b then
        buf ← write_at (buffer_ b) 0 (data b);
        Ret (mk (size_ b) buf 0 (length_ b))
      else Ret b;
  let needed_size := u64 (data_start_offset_ b + length_ b + howmuch) in
  if size_ b <? needed_size then
    let size := if u64 (size_ b * 2) <? needed_size then needed_size else u64 (size_ b * 2) in
    Ret (mk size (realloc (buffer_ b) size) (data_start_offset_ b) (length_ b))
  else Ret b.

(** Append bytes behind the data, where there is room for them. *)
Definition append (b : t) (bytes : list Z) : outcome t :=
  buf ← write_at (buffer_ b) (data_start_offset_ b + length_ b) (Some <$> bytes);
  Ret (mk (size_ b) buf (data_start_offset_ b) (u64 (length_ b + Z.of_nat (length bytes)))).

(** [add(data, len)]. *)
Definition add (bytes : list Z) (b : t) : outcome t :=
  b ← ensure_space (Z.of_nat (length bytes)) b; append b bytes.

(** [discard(howmuch)]. *)
Definition discard (howmuch : Z) (b : t) : outcome t :=
  assert (howmuch <=? length_ b) ≫= fun _ =>
  let len := length_ b - howmuch in
  Ret (mk (size_ b) (buffer_ b) (if len =? 0 then 0 else u64 (data_start_offset_ b + howmuch)) len).

(** The answer of [read(2)]: bytes, or an error code that is kept in [errno]. *)
Abbreviation answer := (list Z + Z)%type.

(** [read(fd, howmuch)].  [rd1] and [rd2] are the answers of the first and second
    [read(2)] for a requested size, [fionread] that of [ioctl(FIONREAD)].  The result is
    the number of bytes read, or -1. *)
Definition count_of (a : answer) : Z :=
  match a with inl bytes => Z.of_nat (length bytes) | inr _ => -1 end.

Definition received (a : answer) (b : t) : outcome t :=
  match a with inl bytes => append b bytes | inr _ => Ret b end.

Definition read (rd1 : Z -> answer) (fionread : Z) (rd2 : Z -> answer) (howmuch : Z) (b : t)
    : outcome (t * Z) :=
  assert (negb (howmuch =? 0)) ≫= fun _ =>
  if 0 <=? howmuch then
    b ← ensure_space howmuch b;
    b ← received (rd1 howmuch) b;
    Ret (b, count_of (rd1 howmuch))
  else
    b ← ensure_space (8 * 1024) b;
    let attempt1 := size_ b - data_start_offset_ b - length_ b in
    let received1 := count_of (rd1 attempt1) in
    if received1 <=? 0 then Ret (b, received1)
    else
      b ← received (rd1 attempt1) b;
      if received1 <? attempt1 then Ret (b, received1)
      else if fionread <=? 0 then Ret (b, received1)
      else
        b ← ensure_space fionread b;
        let received2 := count_of (rd2 fionread) in
        if received2 <=? 0 then Ret (b, received1)
        else
          b ← received (rd2 fionread) b;
          Ret (b, received1 + received2).

(** * A queue of bytes *)

(** The buffer holds [bytes]: its data is initialized and inside the block.  The
    sizes stay far away from the limits of [size_t]. *)
Record holds (b : t) (bytes : list Z) : Prop := {
  h_block : Z.of_nat (length (buffer_ b)) = size_ b;
  h_start : 0 <= data_start_offset_ b;
  h_inside : data_start_offset_ b + length_ b <= size_ b;
  h_small : 8 * 1024 <= size_ b < 2 ^ 62;
  h_data : data b = Some <$> bytes;
  h_length : length_ b = Z.of_nat (length bytes)
}.

Lemma new_holds : holds new [].
Proof. by split. Qed.

(** Writing in the middle of a block. *)
Lemma write_at_app pre old post bytes :
  length old = length bytes ->
  write_at (pre ++ old ++ post) (Z.of_nat (length pre)) bytes = Ret (pre ++ bytes ++ post).
Proof.
  intros Hl. unfold write_at. rewrite !length_app.
  rewrite (proj2 (Z.leb_le _ _)) by lia. rewrite (proj2 (Z.leb_le _ _)) by lia. cbn [andb].
  rewrite Nat2Z.id, take_app_length. do 3 f_equal.
  rewrite <- Hl, app_assoc. apply drop_app_length'. by rewrite length_app.
Qed.

(** The block of a buffer: what precedes the data, the data, and free cells. *)
Lemma holds_split b bytes :
  holds b bytes -> exists pre post, buffer_ b = pre ++ (Some <$> bytes) ++ post /\
    data_start_offset_ b = Z.of_nat (length pre) /\
    size_ b = Z.of_nat (length pre) + Z.of_nat (length bytes) + Z.of_nat (length post).
Proof.
  intros [H1 H2 H3 H4 H5 H6]. unfold data in H5.
  set (k := Z.to_nat (data_start_offset_ b)) in *. set (n := Z.to_nat (length_ b)) in *.
  exists (take k (buffer_ b)), (drop n (drop k (buffer_ b))).
  rewrite <- H5, take_drop, take_drop. split; [done|].
  rewrite length_take, !length_drop. lia.
Qed.

Lemma holds_intro pre bytes post :
  8 * 1024 <= Z.of_nat (length pre) + Z.of_nat (length bytes) + Z.of_nat (length post) < 2 ^ 62 ->
  holds (mk (Z.of_nat (length pre) + Z.of_nat (length bytes) + Z.of_nat (length post))
            (pre ++ (Some <$> bytes) ++ post) (Z.of_nat (length pre)) (Z.of_nat (length bytes))) bytes.
Proof.
  intros Hs. split; cbn; [rewrite !length_app, length_fmap; lia|lia|lia|done| |done].
  unfold data. cbn. rewrite !Nat2Z.id, drop_app_length.
  by rewrite <- (length_fmap Some bytes), take_app_length.
Qed.

(** A buffer is determined by its block. *)
Lemma holds_eq b bytes pre post :
  holds b bytes -> buffer_ b = pre ++ (Some <$> bytes) ++ post ->
  data_start_offset_ b = Z.of_nat (length pre) ->
  b = mk (Z.of_nat (length pre) + Z.of_nat (length bytes) + Z.of_nat (length post))
         (pre ++ (Some <$> bytes) ++ post) (Z.of_nat (length pre)) (Z.of_nat (length bytes)).
Proof.
  intros [H1 H2 H3 H4 H5 H6] Hb Hs. destruct b; cbn in *. subst.
  rewrite !length_app, length_fmap. f_equal; lia.
Qed.

(** Room for [n] more bytes behind the data. *)
Definition room (b : t) (n : Z) : Prop := data_start_offset_ b + length_ b + n <= size_ b.

Lemma compact_holds b bytes :
  holds b bytes ->
  exists b', (if 256 * 1024 <? data_start_offset_ b then
                buf ← write_at (buffer_ b) 0 (data b); Ret (mk (size_ b) buf 0 (length_ b))
              else Ret b) = Ret b' /\ holds b' bytes /\ data_start_offset_ b' <= 256 * 1024.
Proof.
  intros H. destruct (Z.ltb_spec (256 * 1024) (data_start_offset_ b)); [|by exists b].
  destruct (holds_split b bytes H) as (pre & post & Hb & Hs & Hz).
  rewrite Hb, (h_data _ _ H), (h_length _ _ H), Hz. set (d := Some <$> bytes) in *.
  assert (Hd : length d = length bytes) by apply length_fmap.
  assert (Hw : write_at (pre ++ d ++ post) 0 d = Ret (d ++ drop (length bytes) (pre ++ d ++ post))).
  { rewrite <- (take_drop (length bytes) (pre ++ d ++ post)) at 1.
    apply (write_at_app []). rewrite length_take, !length_app. lia. }
  rewrite Hw.
  eexists. split; [reflexivity|]. split; [|cbn; lia].
  pose proof (h_small _ _ H) as Hsm. rewrite Hz in Hsm.
  pose proof (holds_intro [] bytes (drop (length bytes) (pre ++ d ++ post))) as Hi.
  rewrite length_drop, !length_app, Hd in Hi. cbn [length app] in Hi.
  replace (Z.of_nat (length pre) + Z.of_nat (length bytes) + Z.of_nat (length post))
    with (Z.of_nat 0 + Z.of_nat (length bytes) +
          Z.of_nat (length pre + (length bytes + length post) - length bytes)) in Hsm |- * by lia.
  by apply Hi.
Qed.

Lemma ensure_space_holds n b bytes :
  holds b bytes -> 0 <= n -> Z.of_nat (length bytes) + n <= 2 ^ 60 ->
  exists b', ensure_space n b = Ret b' /\ holds b' bytes /\ room b' n.
Proof.
  intros H Hn Hsz. unfold ensure_space. rewrite (proj2 (Z.leb_le 0 n)) by done. cbn [assert].
  destruct (compact_holds b bytes H) as (b1 & E1 & H1 & Hst).
  cbn. rewrite E1. cbn. pose proof H1 as [K1 K2 K3 K4 K5 K6]. unfold u64.
  rewrite (Z.mod_small (_ + _ + _)) by lia. rewrite (Z.mod_small (_ * 2)) by lia.
  set (need := data_start_offset_ b1 + length_ b1 + n) in *.
  destruct (Z.ltb_spec (size_ b1) need); [|by exists b1].
  set (size := if size_ b1 * 2 <? need then need else size_ b1 * 2).
  assert (Hsize : need <= size < 2 ^ 62 /\ size_ b1 <= size).
  { unfold size. destruct (Z.ltb_spec (size_ b1 * 2) need); lia. }
  eexists. split; [reflexivity|]. split; [|unfold room; cbn; lia].
  destruct (holds_split b1 bytes H1) as (pre & post & Hb & Hs & Hz).
  pose proof (holds_intro pre bytes (post ++ replicate (Z.to_nat size - length (buffer_ b1)) None)) as Hi.
  rewrite length_app, length_replicate in Hi.
  assert (Hl : length (buffer_ b1) = (length pre + length bytes + length post)%nat).
  { rewrite Hb, !length_app, length_fmap. lia. }
  replace (Z.of_nat (length pre) + Z.of_nat (length bytes) +
    Z.of_nat (length post + (Z.to_nat size - length (buffer_ b1)))) with size in Hi by lia.
  rewrite Hs, K6. unfold realloc. rewrite resize_ge by lia. rewrite Hb at 1.
  rewrite <- !app_assoc. apply Hi. lia.
Qed.

Lemma append_holds b bytes more :
  holds b bytes -> room b (Z.of_nat (length more)) ->
  exists b', append b more = Ret b' /\ holds b' (bytes ++ more).
Proof.
  intros H Hr. destruct (holds_split b bytes H) as (pre & post & Hb & Hs & Hz).
  pose proof (h_small _ _ H) as Hsm. pose proof (h_length _ _ H) as Hl.
  unfold room in Hr. unfold append. rewrite Hb, Hs, Hl.
  replace (pre ++ (Some <$> bytes) ++ post) with
    ((pre ++ (Some <$> bytes)) ++ take (length more) post ++ drop (length more) post)
    by (by rewrite <- app_assoc, take_drop).
  replace (Z.of_nat (length pre) + Z.of_nat (length bytes)) with
    (Z.of_nat (length (pre ++ (Some <$> bytes)))) by (rewrite length_app, length_fmap; lia).
  rewrite write_at_app by (rewrite length_take, length_fmap; lia).
  eexists. split; [reflexivity|].
  pose proof (holds_intro pre (bytes ++ more) (drop (length more) post)) as Hi.
  rewrite length_drop, fmap_app, length_app in Hi. rewrite <- app_assoc.
  rewrite Hz. unfold u64. rewrite Z.mod_small by lia.
  replace (Z.of_nat (length pre) + Z.of_nat (length bytes + length more) +
    Z.of_nat (length post - length more)) with
    (Z.of_nat (length pre) + Z.of_nat (length bytes) + Z.of_nat (length post)) in Hi by lia.
  replace (Z.of_nat (length bytes) + Z.of_nat (length more)) with
    (Z.of_nat (length bytes + length more)) by lia.
  rewrite <- !app_assoc in Hi. apply Hi. lia.
Qed.

Lemma add_holds b bytes more :
  holds b bytes -> Z.of_nat (length bytes) + Z.of_nat (length more) <= 2 ^ 60 ->
  exists b', add more b = Ret b' /\ holds b' (bytes ++ more).
Proof.
  intros H Hsz. unfold add.
  destruct (ensure_space_holds (Z.of_nat (length more)) b bytes) as (b1 & -> & H1 & Hr); [done|lia|done|].
  by apply append_holds.
Qed.

Lemma discard_holds b bytes n :
  holds b bytes -> 0 <= n ->
  discard n b = if n <=? Z.of_nat (length bytes) then
    Ret (mk (size_ b) (buffer_ b) (if length_ b - n =? 0 then 0 else u64 (data_start_offset_ b + n))
            (length_ b - n)) else Abort.
Proof. intros H Hn. unfold discard, assert. rewrite (h_length _ _ H). by destruct (_ <=? _). Qed.

Lemma discarded_holds b bytes n :
  holds b bytes -> 0 <= n <= Z.of_nat (length bytes) ->
  holds (mk (size_ b) (buffer_ b) (if length_ b - n =? 0 then 0 else u64 (data_start_offset_ b + n))
            (length_ b - n)) (drop (Z.to_nat n) bytes).
Proof.
  intros H Hn. pose proof (h_small _ _ H) as Hsm. pose proof (h_length _ _ H) as Hl.
  pose proof (h_inside _ _ H) as Hin. pose proof (h_start _ _ H) as Hst.
  assert (Hlen : length_ b - n = Z.of_nat (length (drop (Z.to_nat n) bytes))) by (rewrite length_drop; lia).
  destruct (Z.eqb_spec (length_ b - n) 0) as [Hz|Hnz].
  - split; cbn; [apply H|lia|lia|done| |done].
    unfold data. cbn. rewrite Hz. destruct (drop (Z.to_nat n) bytes); [done|cbn in Hlen; lia].
  - unfold u64. rewrite Z.mod_small by lia.
    split; cbn; [apply H|lia|lia|done| |done].
    pose proof (h_data _ _ H) as Hd. unfold data in Hd |- *. cbn.
    rewrite fmap_drop, <- Hd, skipn_firstn_comm, drop_drop. f_equal; [lia|]. f_equal. lia.
Qed.

(** [read(2)] transfers at most what was asked for, and at most 0x7ffff000 bytes. *)
Definition honest (rd : Z -> answer) : Prop :=
  forall k bytes, rd k = inl bytes -> Z.of_nat (length bytes) <= Z.min (Z.max 0 k) 2147479552.

(** What the two system calls have delivered. *)
Definition delivers (rd1 : Z -> answer) (fionread : Z) (rd2 : Z -> answer) (n : Z) (got : list Z) : Prop :=
  (n <= 0 /\ got = []) \/
  (n = Z.of_nat (length got) /\ exists k r1 r2, got = r1 ++ r2 /\ rd1 k = inl r1 /\
     (r2 = [] \/ rd2 fionread = inl r2)).

(** The same as a function of the buffer, whose free space is what is asked for. *)
Definition transfer (rd1 : Z -> answer) (fionread : Z) (rd2 : Z -> answer) (b : t) : list Z :=
  match ensure_space (8 * 1024) b with
  | Ret b =>
      let k := size_ b - data_start_offset_ b - length_ b in
      match rd1 k with
      | inl r1 =>
          if (Z.of_nat (length r1) <? k) || (Z.of_nat (length r1) <=? 0) || (fionread <=? 0) then r1
          else match rd2 fionread with inl r2 => r1 ++ r2 | inr _ => r1 end
      | inr _ => []
      end
  | _ => []
  end.

Lemma received_holds rd k b bytes :
  honest rd -> holds b bytes -> room b k ->
  exists b' got, received (rd k) b = Ret b' /\ holds b' (bytes ++ got) /\
    match rd k with inl r => got = r | inr _ => got = [] end.
Proof.
  intros Hh H Hr. unfold received. destruct (rd k) as [r|e] eqn:E.
  - destruct (append_holds b bytes r) as (b' & -> & H'); [done| |by exists b', r].
    pose proof (Hh _ _ E). pose proof (h_inside _ _ H). unfold room in *. lia.
  - exists b, []. by rewrite app_nil_r.
Qed.

Lemma read_all_holds rd1 fionread rd2 b bytes :
  honest rd1 -> honest rd2 -> fionread < 2 ^ 31 -> holds b bytes -> Z.of_nat (length bytes) <= 2 ^ 59 ->
  exists b' n, read rd1 fionread rd2 (-1) b = Ret (b', n) /\
    holds b' (bytes ++ transfer rd1 fionread rd2 b) /\
    delivers rd1 fionread rd2 n (transfer rd1 fionread rd2 b).
Proof.
  intros Hr1 Hr2 Hf H Hsz. unfold read, transfer. cbn [Z.eqb negb assert Z.leb Z.compare].
  destruct (ensure_space_holds (8 * 1024) b bytes) as (b1 & E1 & H1 & Hroom1); [done|lia|lia|].
  unfold mbind, outcome_bind. rewrite E1. cbv zeta.
  set (k := size_ b1 - data_start_offset_ b1 - length_ b1).
  destruct (received_holds rd1 k b1 bytes) as (b2 & got1 & E2 & H2 & G1);
    [done|done|unfold room; lia|].
  destruct (rd1 k) as [r1|e] eqn:Ek; cbn [count_of] in *.
  2: { exists b1, (-1). rewrite app_nil_r. split; [done|split; [done|by left]]. }
  subst got1. pose proof (Hr1 _ _ Ek) as L1. rewrite E2.
  assert (D1 : delivers rd1 fionread rd2 (Z.of_nat (length r1)) r1).
  { right. split; [done|]. exists k, r1, []. rewrite app_nil_r. auto. }
  destruct (Z.leb_spec (Z.of_nat (length r1)) 0) as [Hz|Hz].
  { destruct r1; [|cbn in Hz; lia]. rewrite orb_true_r. cbn [orb].
    exists b1, 0. rewrite app_nil_r. split; [done|split; [done|by left]]. }
  rewrite orb_false_r.
  destruct (Z.of_nat (length r1) <? k); cbn [orb]; [by exists b2, (Z.of_nat (length r1))|].
  destruct (Z.leb_spec fionread 0) as [Hf0|Hf0]; [by exists b2, (Z.of_nat (length r1))|].
  destruct (ensure_space_holds fionread b2 (bytes ++ r1)) as (b3 & E3 & Hb3 & Hroom3);
    [done|lia|rewrite length_app; lia|].
  rewrite E3. destruct (received_holds rd2 fionread b3 (bytes ++ r1)) as (b4 & got2 & E4 & Hb4 & G2); [done..|].
  destruct (rd2 fionread) as [r2|e] eqn:Ek2; cbn [count_of].
  2: { by exists b3, (Z.of_nat (length r1)). }
  subst got2. rewrite E4. rewrite app_assoc.
  destruct (Z.leb_spec (Z.of_nat (length r2)) 0) as [Hz2|Hz2].
  { destruct r2; [|cbn in Hz2; lia]. rewrite !app_nil_r. by exists b3, (Z.of_nat (length r1)). }
  exists b4, (Z.of_nat (length r1) + Z.of_nat (length r2)).
  split; [done|split; [done|]]. right. rewrite length_app. split; [lia|]. exists k, r1, r2. auto.
Qed.

(** The first [read(2)] asks for all free space, which is at least 8kB, and if it fails or
    finds the end nothing changes. *)
Lemma ensure_8k b bytes :
  holds b bytes -> Z.of_nat (length bytes) <= 2 ^ 59 ->
  exists b1, ensure_space (8 * 1024) b = Ret b1 /\ holds b1 bytes /\
    8 * 1024 <= size_ b1 - data_start_offset_ b1 - length_ b1.
Proof.
  intros H Hsz. destruct (ensure_space_holds (8 * 1024) b bytes) as (b1 & E1 & H1 & Hroom1); [done|lia|lia|].
  exists b1. split_and!; [done|done|]. unfold room in Hroom1. lia.
Qed.

Lemma read_nothing rd1 fionread rd2 b bytes n :
  holds b bytes -> Z.of_nat (length bytes) <= 2 ^ 59 -> n <= 0 -> (forall k, count_of (rd1 k) = n) ->
  exists b', read rd1 fionread rd2 (-1) b = Ret (b', n) /\ holds b' bytes.
Proof.
  intros H Hsz Hn Hrd. destruct (ensure_8k b bytes H Hsz) as (b1 & E1 & H1 & _).
  exists b1. split; [|done]. unfold read. cbn [Z.eqb negb assert Z.leb Z.compare].
  unfold mbind, outcome_bind. rewrite E1. cbv zeta. rewrite Hrd. by rewrite (proj2 (Z.leb_le _ _) Hn).
Qed.

(** * Refinement *)

(** The operations of the buffer, and what they do to a queue of bytes. *)
Inductive op :=
| OAdd (bytes : list Z)
| ODiscard (n : Z)
| ORead (rd1 : Z -> answer) (fionread : Z) (rd2 : Z -> answer).

Definition exec (o : op) (b : t) : outcome t :=
  match o with
  | OAdd bytes => add bytes b
  | ODiscard n => discard n b
  | ORead rd1 fionread rd2 => '(b, _) ← read rd1 fionread rd2 (-1) b; Ret b
  end.

Definition queue_step (o : op) (q q' : list Z) : Prop :=
  match o with
  | OAdd bytes => q' = q ++ bytes
  | ODiscard n => q' = drop (Z.to_nat n) q
  | ORead rd1 fionread rd2 => exists n got, q' = q ++ got /\ delivers rd1 fionread rd2 n got
  end.

(** When an operation may be called. *)
Definition allowed (o : op) (q : list Z) : Prop :=
  match o with
  | OAdd bytes => Z.of_nat (length q) + Z.of_nat (length bytes) <= 2 ^ 60
  | ODiscard n => 0 <= n <= Z.of_nat (length q)
  | ORead rd1 fionread rd2 =>
      honest rd1 /\ honest rd2 /\ fionread < 2 ^ 31 /\ Z.of_nat (length q) <= 2 ^ 59
  end.

(** C8. The growing, compacting buffer implements a queue of bytes: whatever operation
    is called within its contract succeeds without touching memory outside of the
    allocated block, and takes the contents to those of the queue. *)
Theorem linear_buffer_refines_queue o b q :
  holds b q -> allowed o q ->
  exists b' q', exec o b = Ret b' /\ holds b' q' /\ queue_step o q q'.
Proof.
  intros H Ha. destruct o as [bytes|n|rd1 fionread rd2]; cbn [allowed exec queue_step] in Ha |- *.
  - destruct (add_holds b q bytes H Ha) as (b' & E & H'). by exists b', (q ++ bytes).
  - rewrite (discard_holds b q) by (done || lia). rewrite (proj2 (Z.leb_le _ _)) by lia.
    eexists _, (drop (Z.to_nat n) q). split; [reflexivity|]. split; [by apply discarded_holds|done].
  - destruct Ha as (H1 & H2 & H3 & H4).
    destruct (read_all_holds rd1 fionread rd2 b q) as (b' & n & E & H' & D); [done..|].
    exists b', (q ++ transfer rd1 fionread rd2 b). rewrite E. split; [done|split; [done|by eexists _, _]].
Qed.

Lemma linear_buffer_refines_queue_witness :
  exists b q, holds b q /\ allowed (ODiscard 2) q /\
    exists b' q', exec (ODiscard 2) b = Ret b' /\ holds b' q' /\ q' = [12].
Proof.
  destruct (add_holds new [] [10; 11; 12] new_holds) as (b & _ & H); [done|].
  exists b, [10; 11; 12]. split; [exact H|]. split; [done|].
  destruct (linear_buffer_refines_queue (ODiscard 2) b [10; 11; 12] H) as (b' & q' & E & H' & Hq); [done|].
  by exists b', q'.
Defined.

End LinearBuffer.

(** * Messages in the stream *)
Module Frame.
Import LinearBuffer.

(** The number stored in bytes, the least significant one first (the byte order of the
    hosts the program is built for). *)
Fixpoint le (l : list Z) : Z := match l with [] => 0 | b :: l => b + 256 * le l end.
Fixpoint le_bytes (n : nat) (v : Z) : list Z :=
  match n with O => [] | S n => v mod 256 :: le_bytes n (v / 256) end.

(** [msg_header]: the sizes of its fields. *)
Definition header_size : nat := 8.
Definition msg_size (header : list Z) : Z := le (take 4 header).
Definition ack_id (header : list Z) : Z := le (take 2 (drop 4 header)).

(** A message: its [ack_id] and its payload. *)
Abbreviation frame := (Z * list Z)%type.

(** Reading [n] bytes at [buf.data() + off]; uninitialized ones are undefined. *)
Definition peek (b : t) (off n : nat) : outcome (list Z) :=
  match mapM id (take n (drop off (data b))) with
  | Some bytes => if (length bytes =? n)%nat then Ret bytes else Abort
  | None => Abort
  end.

(** The loop of [ic_conn_readcb()]; the messages are what it hands to
    [proc_ic_msg()] or [proc_new_process_msg()], in this order. *)
Fixpoint read_loop (fuel : nat) (b : t) : outcome (list frame * t) :=
  match fuel with
  | O => OutOfFuel
  | S fuel =>
      if length_ b <? Z.of_nat header_size then Ret ([], b)
      else
        header ← peek b 0 header_size;
        let full_length := Z.of_nat header_size + msg_size header in
        if length_ b <? full_length then Ret ([], b)
        else
          payload ← peek b header_size (Z.to_nat (msg_size header));
          b ← discard full_length b;
          if 0 <? length_ b then
            '(rest, b) ← read_loop fuel b; Ret ((ack_id header, payload) :: rest, b)
          else Ret ([(ack_id header, payload)], b)
  end.

(** What one call of [ic_conn_readcb()] does to the connection. *)
Inductive readcb_result :=
| Again (b : t)                          (* nothing to do until more data arrives *)
| Hangup                                 (* the connection context is deleted *)
| Messages (l : list frame) (b : t).

Definition EAGAIN := 11.

(** The source narrows the result of [buf.read()] to an int, which makes no difference for the up to
    2^31 - 1 bytes that one callback receives; it is kept as it is here. *)
Definition ic_conn_readcb (ready : bool) (rd1 : Z -> answer) (fionread : Z) (rd2 : Z -> answer)
    (errno : Z) (b : t) : outcome readcb_result :=
  if negb ready then Ret Hangup
  else
    '(b, read_ret) ← read rd1 fionread rd2 (-1) b;
    if (read_ret <? 0) && (errno =? EAGAIN) then Ret (Again b)
    else if read_ret <=? 0 then Ret Hangup
    else
      '(l, b) ← read_loop (S (Z.to_nat (length_ b))) b;
      Ret (Messages l b).

(** * The messages of a byte stream *)

(** The reference: cut off complete messages, keep the incomplete rest. *)
Fixpoint parse_fuel (n : nat) (l : list Z) : list frame * list Z :=
  match n with
  | O => ([], l)
  | S n =>
      if (length l <? header_size)%nat then ([], l)
      else if Z.of_nat (length l) <? Z.of_nat header_size + msg_size l then ([], l)
      else
        let '(fs, rest) := parse_fuel n (drop (header_size + Z.to_nat (msg_size l)) l) in
        ((ack_id l, take (Z.to_nat (msg_size l)) (drop header_size l)) :: fs, rest)
  end.
Definition parse (l : list Z) : list frame * list Z := parse_fuel (length l) l.

(** Each message takes at least a header. *)
Lemma parse_fuel_enough n m l :
  (length l <= n)%nat -> (length l <= m)%nat -> parse_fuel n l = parse_fuel m l.
Proof.
  revert m l. induction n as [|n IH]; intros [|m] l Hn Hm; cbn [parse_fuel]; [done| | |].
  - destruct l; [done|cbn in *; lia].
  - destruct l; [done|cbn in *; lia].
  - destruct (Nat.ltb_spec (length l) header_size); [done|].
    destruct (_ <? _); [done|]. rewrite (IH m); [done|..]; rewrite length_drop; unfold header_size in *; lia.
Qed.

Lemma le_nonneg l : Forall is_byte l -> 0 <= le l.
Proof. induction 1 as [|b l Hb _ IH]; cbn; [done|]. unfold is_byte in Hb. lia. Qed.

(** Whether the first message is not complete yet. *)
Definition incomplete (l : list Z) : bool :=
  (length l <? header_size)%nat || (Z.of_nat (length l) <? Z.of_nat header_size + msg_size l).
Definition frame_length (l : list Z) : nat := (header_size + Z.to_nat (msg_size l))%nat.
Definition first_frame (l : list Z) : frame :=
  (ack_id l, take (Z.to_nat (msg_size l)) (drop header_size l)).

Lemma parse_step l :
  parse l = if incomplete l then ([], l)
            else let '(fs, rest) := parse (drop (frame_length l) l) in (first_frame l :: fs, rest).
Proof.
  unfold parse, incomplete. destruct l as [|b l]; [done|]. set (q := b :: l).
  change (length q) with (S (length l)) at 1. cbn [parse_fuel].
  destruct (Nat.ltb_spec (length q) header_size); [done|]. cbn [orb].
  destruct (_ <? _); [done|]. fold (frame_length q) (first_frame q).
  rewrite (parse_fuel_enough (length l) (length (drop (frame_length q) q))); [done| |done].
  rewrite length_drop. unfold frame_length, header_size. cbn in *. lia.
Qed.

Lemma parse_incomplete l : incomplete l = true -> parse l = ([], l).
Proof. intros H. by rewrite parse_step, H. Qed.

(** Induction along the messages of a stream. *)
Lemma parse_ind (P : list Z -> Prop) :
  (forall l, incomplete l = true -> P l) ->
  (forall l, incomplete l = false -> P (drop (frame_length l) l) -> P l) -> forall l, P l.
Proof.
  intros H1 H2 l. remember (length l) as n eqn:Hn. revert l Hn.
  induction n as [n IH] using lt_wf_ind. intros l ->.
  destruct (incomplete l) eqn:E; [by apply H1|]. apply H2; [done|].
  apply (IH (length (drop (frame_length l) l))); [|done].
  unfold incomplete in E. apply orb_false_iff in E as [E _]. apply Nat.ltb_ge in E.
  rewrite length_drop. unfold frame_length, header_size in *. lia.
Qed.

Lemma complete_length l :
  incomplete l = false -> (header_size <= length l)%nat /\ Z.of_nat (frame_length l) <= Z.max 8 (Z.of_nat (length l)).
Proof.
  unfold incomplete, frame_length. intros [E1 E2]%orb_false_iff.
  apply Nat.ltb_ge in E1. apply Z.ltb_ge in E2. unfold header_size in *. lia.
Qed.

(** More data does not change what has been recognised. *)
Lemma incomplete_app x y : incomplete x = false -> incomplete (x ++ y) = false.
Proof.
  unfold incomplete, msg_size. intros [E1 E2]%orb_false_iff.
  apply Nat.ltb_ge in E1. apply Z.ltb_ge in E2. unfold header_size in *.
  rewrite take_app_le by lia. rewrite length_app.
  apply orb_false_iff. rewrite Nat.ltb_ge, Z.ltb_ge. lia.
Qed.

Lemma first_frame_app x y :
  incomplete x = false -> frame_length (x ++ y) = frame_length x /\ first_frame (x ++ y) = first_frame x /\
    drop (frame_length x) (x ++ y) = drop (frame_length x) x ++ y.
Proof.
  intros E. destruct (complete_length x E) as [H1 H2]. unfold header_size in H1.
  assert (Hm : msg_size (x ++ y) = msg_size x) by (unfold msg_size; by rewrite take_app_le by lia).
  assert (Hf : (frame_length x <= length x)%nat) by lia.
  unfold frame_length, first_frame, ack_id, header_size in *. rewrite Hm. split_and!; [done| |].
  - rewrite (drop_app_le x y 4), (drop_app_le x y 8) by lia.
    rewrite (take_app_le _ y 2), (take_app_le _ y (Z.to_nat (msg_size x))) by (rewrite length_drop; lia).
    done.
  - by rewrite drop_app_le by lia.
Qed.

(** Cutting a stream into messages does not depend on how it arrives. *)
Lemma parse_app x y :
  parse (x ++ y) = let '(f1, r1) := parse x in let '(f2, r2) := parse (r1 ++ y) in (f1 ++ f2, r2).
Proof.
  induction x as [x E|x E IH] using parse_ind.
  - rewrite (parse_incomplete x E). by destruct (parse (x ++ y)).
  - rewrite (parse_step x), E, (parse_step (x ++ y)), (incomplete_app x y E).
    destruct (first_frame_app x y E) as (-> & -> & ->). rewrite IH.
    destruct (parse (drop (frame_length x) x)) as [f1 r1]. by destruct (parse (r1 ++ y)).
Qed.

(** * The loop *)

Lemma mapM_Some (l : list Z) : mapM id (Some <$> l) = Some l.
Proof. induction l as [|b l IH]; [done|]. cbn. by rewrite IH. Qed.

Lemma peek_holds b q off n :
  holds b q -> (off + n <= length q)%nat -> peek b off n = Ret (take n (drop off q)).
Proof.
  intros H Hl. unfold peek. rewrite (h_data _ _ H), <- fmap_drop, <- fmap_take, mapM_Some.
  rewrite length_take, length_drop. by rewrite (proj2 (Nat.eqb_eq _ _)) by lia.
Qed.

Lemma header_size_msg q : msg_size (take header_size q) = msg_size q.
Proof. unfold msg_size. by rewrite take_take. Qed.
Lemma header_size_ack q : ack_id (take header_size q) = ack_id q.
Proof.
  unfold ack_id. do 5 (destruct q as [|? q]; [done|]). cbn. destruct q as [|? q]; [done|].
  by destruct q as [|? q].
Qed.

Lemma read_loop_spec n b q :
  holds b q -> Forall is_byte q -> (length q <= n)%nat ->
  exists b', read_loop (S n) b = Ret (fst (parse q), b') /\ holds b' (snd (parse q)).
Proof.
  intros H Hq. revert n b H. induction q as [q E|q E IH] using parse_ind; intros n b H Hn.
  - rewrite (parse_incomplete q E). exists b. split; [|done]. cbn [read_loop fst].
    rewrite (h_length _ _ H). unfold incomplete in E.
    destruct (Z.ltb_spec (Z.of_nat (length q)) (Z.of_nat header_size)); [done|].
    destruct (Nat.ltb_spec (length q) header_size); [lia|]. cbn [orb] in E.
    rewrite (peek_holds b q) by (done || lia). unfold mbind, outcome_bind.
    by rewrite drop_0, header_size_msg, E.
  - destruct (complete_length q E) as [L1 L2]. pose proof E as E'.
    unfold incomplete in E'. apply orb_false_iff in E' as [E1 E2].
    apply Nat.ltb_ge in E1. apply Z.ltb_ge in E2.
    assert (Hm : 0 <= msg_size q) by (apply le_nonneg, Forall_take, Hq).
    rewrite (parse_step q), E. cbn [read_loop]. rewrite (h_length _ _ H).
    rewrite (proj2 (Z.ltb_ge _ _)) by lia. rewrite (peek_holds b q) by (done || lia).
    unfold mbind, outcome_bind. rewrite drop_0, header_size_msg, header_size_ack.
    rewrite (proj2 (Z.ltb_ge _ _)) by lia. rewrite (peek_holds b q) by (done || lia).
    rewrite (discard_holds b q) by (done || lia). rewrite (proj2 (Z.leb_le _ _)) by lia.
    pose proof (discarded_holds b q (Z.of_nat header_size + msg_size q) H ltac:(lia)) as H'.
    replace (Z.to_nat (Z.of_nat header_size + msg_size q)) with (frame_length q) in H'
      by (unfold frame_length; lia).
    set (b1 := mk _ _ _ _) in *. fold (first_frame q).
    assert (Hd : (length (drop (frame_length q) q) < length q)%nat)
      by (rewrite length_drop; unfold frame_length, header_size in *; lia).
    destruct (Z.ltb_spec 0 (length_ b1)) as [Hp|Hp].
    + destruct n as [|n]; [lia|].
      destruct (IH (Forall_drop _ _ _ Hq) n b1 H' ltac:(lia)) as (b' & -> & Hb').
      destruct (parse (drop (frame_length q) q)) as [fs rest]. by exists b'.
    + rewrite (h_length _ _ H') in Hp.
      destruct (drop (frame_length q) q); [|cbn in Hp; lia]. by exists b1.
Qed.

(** * Messages on the wire *)

(** A message the interceptor sends: its acknowledgement number and the serialized
    payload; [fb_send_msg()] puts the header before it, with [fd_count] zero. *)
Record sent := mkSent { s_ack_id : Z; s_payload : list Z }.
Definition fb_send_msg (m : sent) : list Z :=
  le_bytes 4 (Z.of_nat (length (s_payload m))) ++ le_bytes 2 (s_ack_id m) ++
  le_bytes 2 0 ++ s_payload m.
Definition sent_ok (m : sent) : Prop :=
  0 <= s_ack_id m < 2 ^ 16 /\ Z.of_nat (length (s_payload m)) < 2 ^ 32 /\ Forall is_byte (s_payload m).
Definition frame_of (m : sent) : frame := (s_ack_id m, s_payload m).

Lemma length_le_bytes n v : length (le_bytes n v) = n.
Proof. revert v. induction n as [|n IH]; intros v; cbn; [done|]. by rewrite IH. Qed.
Lemma le_bytes_bytes n v : Forall is_byte (le_bytes n v).
Proof.
  revert v. induction n as [|n IH]; intros v; cbn; constructor; [|done].
  unfold is_byte. apply Z.mod_pos_bound. lia.
Qed.
Lemma le_le_bytes n v : 0 <= v < 256 ^ Z.of_nat n -> le (le_bytes n v) = v.
Proof.
  revert v. induction n as [|n IH]; intros v Hv; cbn [le le_bytes]; [cbn in Hv; lia|].
  rewrite Nat2Z.inj_succ, Z.pow_succ_r in Hv by lia.
  rewrite IH; [dlia|]. split; [apply Z.div_pos; lia|]. apply Z.div_lt_upper_bound; lia.
Qed.

Lemma encode_bytes m : sent_ok m -> Forall is_byte (fb_send_msg m).
Proof. intros (_ & _ & H). unfold fb_send_msg. by repeat apply Forall_app_2; try apply le_bytes_bytes. Qed.

Lemma stream_bytes ms : Forall sent_ok ms -> Forall is_byte (concat (fb_send_msg <$> ms)).
Proof.
  induction 1; [constructor|]. rewrite fmap_cons. cbn [concat].
  by apply Forall_app_2; [apply encode_bytes|].
Qed.

Lemma encode_first m rest :
  sent_ok m -> incomplete (fb_send_msg m ++ rest) = false /\
    first_frame (fb_send_msg m ++ rest) = frame_of m /\ drop (frame_length (fb_send_msg m ++ rest)) (fb_send_msg m ++ rest) = rest.
Proof.
  intros (H1 & H2 & H3). unfold fb_send_msg. rewrite <- !app_assoc.
  set (h1 := le_bytes 4 _). set (h2 := le_bytes 2 (s_ack_id m)). set (h3 := le_bytes 2 0).
  assert (L1 : length h1 = 4%nat) by apply length_le_bytes.
  assert (L2 : length h2 = 2%nat) by apply length_le_bytes.
  assert (L3 : length h3 = 2%nat) by apply length_le_bytes.
  set (q := h1 ++ h2 ++ h3 ++ s_payload m ++ rest).
  assert (Hm : msg_size q = Z.of_nat (length (s_payload m))).
  { unfold msg_size, q. rewrite take_app_length' by done. apply le_le_bytes. cbn. lia. }
  assert (Ha : ack_id q = s_ack_id m).
  { unfold ack_id, q. rewrite drop_app_length', take_app_length' by done. apply le_le_bytes. cbn. lia. }
  assert (Hq : drop 8 q = s_payload m ++ rest).
  { unfold q. rewrite !app_assoc, <- (app_assoc _ (s_payload m)). apply drop_app_length'.
    rewrite !length_app. lia. }
  assert (Lq : length q = (8 + length (s_payload m) + length rest)%nat).
  { unfold q. rewrite !length_app. lia. }
  unfold incomplete, first_frame, frame_length, frame_of, header_size. rewrite Hm, Ha, Nat2Z.id, Hq, Lq.
  split_and!.
  - apply orb_false_iff. rewrite Nat.ltb_ge, Z.ltb_ge. lia.
  - by rewrite take_app_length.
  - by rewrite <- drop_drop, Hq, drop_app_length.
Qed.

Lemma parse_stream ms rest :
  Forall sent_ok ms -> incomplete rest = true ->
  parse (concat (fb_send_msg <$> ms) ++ rest) = (frame_of <$> ms, rest).
Proof.
  intros Hms Hr. induction Hms as [|m ms Hm _ IH]; [by apply parse_incomplete|].
  rewrite !fmap_cons. cbn [concat]. rewrite <- app_assoc, parse_step.
  destruct (encode_first m (concat (fb_send_msg <$> ms) ++ rest) Hm) as (-> & -> & ->). by rewrite IH.
Qed.

(** * A connection over time *)

(** A connection that receives [bytes] in any number of reads, and the messages that
    are processed on the way. *)
Inductive receives : t -> list Z -> list frame -> t -> Prop :=
| receives_nil b : receives b [] [] b
| receives_again b b1 b2 bytes l rd1 fionread rd2 :
    honest rd1 -> honest rd2 -> fionread < 2 ^ 31 ->
    ic_conn_readcb true rd1 fionread rd2 EAGAIN b = Ret (Again b1) ->
    receives b1 bytes l b2 -> receives b bytes l b2
| receives_some b b1 b2 bytes l1 l2 rd1 fionread rd2 errno :
    honest rd1 -> honest rd2 -> fionread < 2 ^ 31 ->
    ic_conn_readcb true rd1 fionread rd2 errno b = Ret (Messages l1 b1) ->
    receives b1 bytes l2 b2 ->
    receives b (transfer rd1 fionread rd2 b ++ bytes) (l1 ++ l2) b2.

Lemma readcb_spec rd1 fionread rd2 errno b q :
  honest rd1 -> honest rd2 -> fionread < 2 ^ 31 -> holds b q -> Z.of_nat (length q) <= 2 ^ 59 ->
  Forall is_byte (q ++ transfer rd1 fionread rd2 b) ->
  exists r, ic_conn_readcb true rd1 fionread rd2 errno b = Ret r /\
    match r with
    | Hangup => transfer rd1 fionread rd2 b = []
    | Again b' => holds b' q /\ transfer rd1 fionread rd2 b = []
    | Messages l b' => l = fst (parse (q ++ transfer rd1 fionread rd2 b)) /\
        holds b' (snd (parse (q ++ transfer rd1 fionread rd2 b)))
    end.
Proof.
  intros H1 H2 H3 H Hsz Hby. unfold ic_conn_readcb. cbn [negb].
  destruct (read_all_holds rd1 fionread rd2 b q) as (b1 & n & E & Hb1 & D); [done..|].
  unfold mbind, outcome_bind. rewrite E. set (got := transfer rd1 fionread rd2 b) in *.
  assert (Hn : n <= 0 -> got = []).
  { intros Hn. destruct D as [[_ ->]|[-> _]]; [done|]. destruct got; [done|cbn in Hn; lia]. }
  destruct ((n <? 0) && (errno =? EAGAIN)) eqn:Ea.
  { apply andb_true_iff in Ea as [Ea _]. apply Z.ltb_lt in Ea. rewrite Hn in Hb1 |- * by lia.
    rewrite app_nil_r in Hb1. by eexists. }
  destruct (Z.leb_spec n 0); [eexists; split; [reflexivity|]; by apply Hn|].
  destruct (read_loop_spec (Z.to_nat (length_ b1)) b1 (q ++ got)) as (b2 & -> & Hb2);
    [done|done|rewrite (h_length _ _ Hb1); lia|]. by eexists.
Qed.

Lemma parse_rest_incomplete l : incomplete (snd (parse l)) = true.
Proof.
  induction l as [l E|l E IH] using parse_ind; [by rewrite parse_incomplete|].
  rewrite parse_step, E. by destruct (parse (drop (frame_length l) l)).
Qed.

Lemma parse_rest_bytes l : Forall is_byte l -> Forall is_byte (snd (parse l)) /\ (length (snd (parse l)) <= length l)%nat.
Proof.
  induction l as [l E|l E IH] using parse_ind; intros H; [by rewrite parse_incomplete|].
  rewrite parse_step, E. destruct (IH (Forall_drop _ _ _ H)) as [IH1 IH2].
  destruct (parse (drop (frame_length l) l)) as [fs rest]. cbn in *. split; [done|].
  rewrite length_drop in IH2. lia.
Qed.

Lemma receives_parse b bytes l b' q :
  receives b bytes l b' -> holds b q -> incomplete q = true -> Forall is_byte (q ++ bytes) ->
  Z.of_nat (length (q ++ bytes)) <= 2 ^ 59 ->
  l = fst (parse (q ++ bytes)) /\ holds b' (snd (parse (q ++ bytes))).
Proof.
  intros Hr. revert q. induction Hr as [b|b b1 b2 bytes l rd1 fionread rd2 H1 H2 H3 E Hr IH|
    b b1 b2 bytes l1 l2 rd1 fionread rd2 errno H1 H2 H3 E Hr IH]; intros q H Hq Hby Hsz.
  - rewrite app_nil_r, parse_incomplete by done. by split.
  - destruct (read_all_holds rd1 fionread rd2 b q H1 H2 H3 H) as (b3 & n & E3 & Hb3 & D);
      [rewrite length_app in Hsz; lia|].
    unfold ic_conn_readcb, mbind, outcome_bind in E. cbn [negb] in E. rewrite E3 in E.
    destruct (Z.ltb_spec n 0) as [Hn|Hn]; cbn [andb Z.eqb EAGAIN Pos.eqb] in E.
    + injection E as <-. destruct D as [[_ Ht]|[-> _]]; [|lia]. rewrite Ht, app_nil_r in Hb3.
      by apply IH.
    + destruct (n <=? 0); [done|]. destruct (read_loop _ _) as [[? ?]| |]; done.
  - rewrite app_assoc in Hby, Hsz |- *. set (got := transfer rd1 fionread rd2 b) in *.
    destruct (readcb_spec rd1 fionread rd2 errno b q) as (r & E' & Hres); [done..| | |].
    { rewrite !length_app in Hsz. lia. } { by apply Forall_app in Hby as [? _]. }
    fold got in Hres. rewrite E in E'. injection E' as <-. destruct Hres as [-> Hb1].
    rewrite (parse_app (q ++ got) bytes). pose proof (parse_rest_incomplete (q ++ got)) as Hi.
    pose proof (parse_rest_bytes (q ++ got) (proj1 (proj1 (Forall_app _ _ _) Hby))) as [Hb Hl].
    destruct (parse (q ++ got)) as [f1 r1]. cbn in *.
    destruct (IH r1 Hb1 Hi) as [-> Hb2].
    { apply Forall_app in Hby as [_ ?]. by apply Forall_app_2. }
    { rewrite !length_app in *. lia. }
    by destruct (parse (r1 ++ bytes)).
Qed.

(** C6. The messages that the supervisor processes are exactly those that were sent, in
    the order they were sent, however the bytes are cut into reads; what remains in the
    buffer is the beginning of the next one. *)
Theorem messages_as_sent b bytes l ms rest :
  receives new bytes l b -> bytes = concat (fb_send_msg <$> ms) ++ rest ->
  Forall sent_ok ms -> Forall is_byte rest -> incomplete rest = true ->
  Z.of_nat (length bytes) <= 2 ^ 59 ->
  l = frame_of <$> ms /\ holds b rest.
Proof.
  intros Hr -> Hms Hrest Hi Hsz.
  destruct (receives_parse _ _ _ _ [] Hr new_holds) as [-> Hb]; [done| |done|].
  - cbn [app]. apply Forall_app_2; [by apply stream_bytes|done].
  - cbn [app] in *. by rewrite parse_stream in Hb |- *.
Qed.

(** C7. Reading from a connection always comes to an end: for every state of the buffer
    and every answer of the system the callback returns, and asks for no memory outside
    of the buffer. *)
Theorem readcb_returns rd1 fionread rd2 errno b q :
  honest rd1 -> honest rd2 -> fionread < 2 ^ 31 -> holds b q -> Z.of_nat (length q) <= 2 ^ 59 ->
  Forall is_byte (q ++ transfer rd1 fionread rd2 b) ->
  exists r, ic_conn_readcb true rd1 fionread rd2 errno b = Ret r.
Proof.
  intros H1 H2 H3 H Hsz Hby. destruct (readcb_spec rd1 fionread rd2 errno b q) as (r & Hr & _); [done..|].
  by exists r.
Qed.

(** Two messages that arrive in two pieces. *)
Definition demo_messages : list sent := [mkSent 1 [7; 8; 9]; mkSent 0 []].
Lemma demo_messages_ok : Forall sent_ok demo_messages.
Proof. repeat constructor; vm_compute; congruence. Qed.
Definition demo_bytes : list Z := concat (fb_send_msg <$> demo_messages).
Definition demo_read (chunk : list Z) (k : Z) : answer := inl (take (Z.to_nat k) chunk).

Lemma demo_read_honest chunk : (length chunk <= 100)%nat -> honest (demo_read chunk).
Proof. intros Hc k bytes [= <-]. rewrite length_take. lia. Qed.

Definition demo_buffer (r : outcome readcb_result) : t :=
  match r with Ret (Messages _ b) => b | _ => new end.
Definition demo_b1 : t := demo_buffer (ic_conn_readcb true (demo_read (take 5 demo_bytes)) 0 (demo_read []) 0 new).
Definition demo_b2 : t := demo_buffer (ic_conn_readcb true (demo_read (drop 5 demo_bytes)) 0 (demo_read []) 0 demo_b1).

Lemma receives_step b b1 b2 all bytes l l1 l2 chunk :
  (length chunk <= 100)%nat ->
  ic_conn_readcb true (demo_read chunk) 0 (demo_read []) 0 b = Ret (Messages l1 b1) ->
  all = transfer (demo_read chunk) 0 (demo_read []) b ++ bytes -> l = l1 ++ l2 ->
  receives b1 bytes l2 b2 -> receives b all l b2.
Proof.
  intros Hc E -> -> Hr. apply (receives_some b b1 b2 bytes l1 l2 _ _ _ 0); try done.
  - by apply demo_read_honest.
  - apply demo_read_honest. cbn. lia.
Qed.

Lemma demo_receives : receives new demo_bytes (frame_of <$> demo_messages) demo_b2.
Proof.
  apply (receives_step new demo_b1 demo_b2 _ (drop 5 demo_bytes) _ [] (frame_of <$> demo_messages)
    (take 5 demo_bytes)); [vm_compute; lia|vm_compute; reflexivity..|].
  apply (receives_step demo_b1 demo_b2 demo_b2 _ [] _ (frame_of <$> demo_messages) []
    (drop 5 demo_bytes)); [vm_compute; lia|vm_compute; reflexivity..|apply receives_nil].
Qed.

Lemma messages_as_sent_witness : holds demo_b2 [].
Proof.
  apply (messages_as_sent demo_b2 demo_bytes (frame_of <$> demo_messages) demo_messages []);
    [exact demo_receives|vm_compute; reflexivity|exact demo_messages_ok|by constructor|done|vm_compute; discriminate].
Defined.

Lemma readcb_returns_witness :
  exists r, ic_conn_readcb true (demo_read demo_bytes) 0 (demo_read []) 0 new = Ret r.
Proof.
  apply (readcb_returns (demo_read demo_bytes) 0 (demo_read []) 0 new []);
    [(apply demo_read_honest; vm_compute; lia)..|done|exact new_holds|done|].
  assert (E : transfer (demo_read demo_bytes) 0 (demo_read []) new = demo_bytes) by (vm_compute; reflexivity).
  rewrite E. exact (stream_bytes _ demo_messages_ok).
Defined.

End Frame.
