(* ===== verification/EventLoop.v ===== *)
(** The event loop: [Epoll] (src/firebuild/epoll.{h,cc}) with its table of callbacks
    by file descriptor, its timers and the dispatching of events, and the [timespec]
    arithmetic of src/firebuild/utils.h. *)

From stdpp Require Import base list option numbers relations.
From Stdlib Require Import ZArith Lia.
From S2P Require Import Prelude.

Local Open Scope Z_scope.

(** * Time *)
Module Timespec.

Record timespec := mkTs { tv_sec : Z; tv_nsec : Z }.

Definition timespecadd (a b : timespec) : timespec :=
  let sec := tv_sec a + tv_sec b in
  let nsec := tv_nsec a + tv_nsec b in
  if 1000 * 1000 * 1000 <=? nsec then mkTs (sec + 1) (nsec - 1000 * 1000 * 1000) else mkTs sec nsec.

Definition timespecsub (a b : timespec) : timespec :=
  let sec := tv_sec a - tv_sec b in
  let nsec := tv_nsec a - tv_nsec b in
  if nsec <? 0 then mkTs (sec - 1) (nsec + 1000 * 1000 * 1000) else mkTs sec nsec.

(** [timespeccmp(a, b, <)]. *)
Definition timespec_lt (a b : timespec) : bool :=
  if tv_sec a =? tv_sec b then tv_nsec a <? tv_nsec b else tv_sec a <? tv_sec b.

(** A normalized time and the nanoseconds it stands for. *)
Definition ts_ok (a : timespec) : Prop := 0 <= tv_nsec a < 1000 * 1000 * 1000.
Definition ns (a : timespec) : Z := tv_sec a * (1000 * 1000 * 1000) + tv_nsec a.

Lemma timespecadd_ns a b : ns (timespecadd a b) = ns a + ns b.
Proof. unfold timespecadd, ns. case_match; cbn; lia. Qed.
Lemma timespecadd_ok a b : ts_ok a -> ts_ok b -> ts_ok (timespecadd a b).
Proof. unfold timespecadd, ts_ok. intros ??. case_match; cbn; lia. Qed.
Lemma timespecsub_ns a b : ns (timespecsub a b) = ns a - ns b.
Proof. unfold timespecsub, ns. case_match; cbn; lia. Qed.
Lemma timespecsub_ok a b : ts_ok a -> ts_ok b -> ts_ok (timespecsub a b).
Proof. unfold timespecsub, ts_ok. intros ??. case_match; cbn; lia. Qed.
Lemma timespec_lt_ns a b : ts_ok a -> ts_ok b -> timespec_lt a b = (ns a <? ns b).
Proof. unfold timespec_lt, ts_ok, ns. intros ??. case_match; lia. Qed.

End Timespec.
Import Timespec.

(** * The table of callbacks and the timers *)
Module Epoll.
Section Epoll.

(** Functions that are registered as callbacks, and the user data passed to them. *)
Context {fn data : Type}.

Record fd_context := mkFdContext {
  callback : option fn;
  callback_user_data : option data
}.

Record timer_context := mkTimer {
  t_callback : option fn;
  t_user_data : option data;
  when_ : timespec
}.

(** The events of [epoll_wait()]: the fd (-1 once it was deleted) and the event bits. *)
Record t := mk {
  fds_ : Z;
  fd_contexts_ : list fd_context;
  closed_context_fds_ : list Z;
  timer_contexts_ : list timer_context;
  largest_timer_id_ : Z;
  next_timer_ : Z;
  events_ : list (Z * Z);
  event_count_ : Z;
  event_current_ : Z
}.

Definition new : t := mk 0 [] [] [] (-1) (-1) [] 0 0.

Definition set_contexts (fds : Z) (l : list fd_context) (e : t) : t :=
  mk fds l (closed_context_fds_ e) (timer_contexts_ e) (largest_timer_id_ e) (next_timer_ e)
    (events_ e) (event_count_ e) (event_current_ e).
Definition set_closed (l : list Z) (e : t) : t :=
  mk (fds_ e) (fd_contexts_ e) l (timer_contexts_ e) (largest_timer_id_ e) (next_timer_ e)
    (events_ e) (event_count_ e) (event_current_ e).
Definition set_timers (l : list timer_context) (largest next : Z) (e : t) : t :=
  mk (fds_ e) (fd_contexts_ e) (closed_context_fds_ e) l largest next
    (events_ e) (event_count_ e) (event_current_ e).
Definition set_events (l : list (Z * Z)) (count current : Z) (e : t) : t :=
  mk (fds_ e) (fd_contexts_ e) (closed_context_fds_ e) (timer_contexts_ e) (largest_timer_id_ e)
    (next_timer_ e) l count current.

(** Indexing a vector; out of range is undefined. *)
Definition at_ {A} (l : list A) (i : Z) : outcome A :=
  if i <? 0 then Abort else match l !! Z.to_nat i with Some x => Ret x | None => Abort end.
Definition vset {A} (l : list A) (i : Z) (x : A) : list A := <[Z.to_nat i := x]> l.
Definition size {A} (l : list A) : Z := Z.of_nat (length l).

Definition is_null {A} (o : option A) : bool := match o with None => true | _ => false end.

Definition ensure_room_fd (fd : Z) (e : t) : t :=
  if size (fd_contexts_ e) <=? fd then
    set_contexts (fds_ e) (resize (Z.to_nat (fd + 1)) (mkFdContext None None) (fd_contexts_ e)) e
  else e.

Definition is_added_fd (fd : Z) (e : t) : outcome bool :=
  if fd <? size (fd_contexts_ e) then
    c ← at_ (fd_contexts_ e) fd; Ret (negb (is_null (callback c)))
  else Ret false.

(** [remap_to_not_added_fd()]; [dup_ret] is the answer of [dup(fd)].  The body of the
    loop runs once. *)
Definition remap_to_not_added_fd (dup_ret fd : Z) (e : t) : outcome (t * Z) :=
  c ← at_ (fd_contexts_ e) fd;
  assert (negb (is_null (callback c))) ≫= fun _ =>
  added ← is_added_fd dup_ret e;
  if (added : bool) then Ret (e, -1)
  else Ret (set_closed (closed_context_fds_ e ++ [fd]) e, dup_ret).

(** [add_fd()]; [ctl_ok] tells whether [epoll_ctl()] succeeded. *)
Definition add_fd (ctl_ok : bool) (fd : Z) (f : fn) (user_data : option data) (e : t) : outcome t :=
  let e := ensure_room_fd fd e in
  c ← at_ (fd_contexts_ e) fd;
  assert (is_null (callback c)) ≫= fun _ =>
  assert ctl_ok ≫= fun _ =>
  Ret (set_contexts (fds_ e + 1) (vset (fd_contexts_ e) fd (mkFdContext (Some f) user_data)) e).

(** Mark the first event of [fd] at or after index [i]. *)
Fixpoint unmark (fd : Z) (n : nat) (i : nat) (l : list (Z * Z)) : list (Z * Z) :=
  match n with
  | O => l
  | S n =>
      match l !! i with
      | Some (fd', ev) => if fd' =? fd then <[i := (-1, ev)]> l else unmark fd n (S i) l
      | None => l
      end
  end.

Definition del_fd (fd : Z) (e : t) : outcome t :=
  let e := ensure_room_fd fd e in
  c ← at_ (fd_contexts_ e) fd;
  assert (negb (is_null (callback c))) ≫= fun _ =>
  assert (0 <? fds_ e) ≫= fun _ =>
  let e := set_contexts (fds_ e - 1)
             (vset (fd_contexts_ e) fd (mkFdContext None (callback_user_data c))) e in
  let start := event_current_ e + 1 in
  Ret (set_events (unmark fd (Z.to_nat (event_count_ e - start)) (Z.to_nat start) (events_ e))
         (event_count_ e) (event_current_ e) e).

Definition maybe_del_fd (fd : Z) (e : t) : outcome t :=
  added ← is_added_fd fd e;
  if (added : bool) then del_fd fd e else Ret e.

(** ** Timers *)

(** The first slot without a callback, or the number of slots looked at. *)
Fixpoint first_free (l : list timer_context) : Z :=
  match l with
  | [] => 0
  | c :: l => if is_null (t_callback c) then 0 else 1 + first_free l
  end.

Definition sooner (l : list timer_context) (i j : Z) : outcome bool :=
  a ← at_ l i; b ← at_ l j; Ret (timespec_lt (when_ a) (when_ b)).

(** Milliseconds as a [timespec]. *)
Definition delay (ms : Z) : timespec := mkTs (Z.quot ms 1000) (Z.rem ms 1000 * 1000 * 1000).

(** [add_timer(ms, ...)] at the time [now]; the result is the id. *)
Definition add_timer (now : timespec) (ms : Z) (f : fn) (user_data : option data) (e : t)
    : outcome (t * Z) :=
  let timer_id := first_free (take (Z.to_nat (largest_timer_id_ e + 1)) (timer_contexts_ e)) in
  let grow := largest_timer_id_ e <? timer_id in
  let largest := if grow then largest_timer_id_ e + 1 else largest_timer_id_ e in
  let l := if grow && (timer_id =? size (timer_contexts_ e))
           then resize (Z.to_nat (timer_id + 1)) (mkTimer None None (mkTs 0 0)) (timer_contexts_ e)
           else timer_contexts_ e in
  at_ l timer_id ≫= fun _ =>
  let l := vset l timer_id (mkTimer (Some f) user_data (timespecadd now (delay ms))) in
  earlier ← (if next_timer_ e <? 0 then Ret true else sooner l timer_id (next_timer_ e));
  Ret (set_timers l largest (if (earlier : bool) then timer_id else next_timer_ e) e, timer_id).

(** The largest index below [n] that has a callback. *)
Fixpoint cap_largest (l : list timer_context) (n : nat) : Z :=
  match n with
  | O => -1
  | S k =>
      match l !! k with
      | Some c => if is_null (t_callback c) then cap_largest l k else Z.of_nat k
      | None => Z.of_nat k
      end
  end.

(** One step of the loop that looks for the timer that elapses next. *)
Definition closest (l : list timer_context) (next i : Z) : outcome Z :=
  c ← at_ l i;
  if is_null (t_callback c) then Ret next
  else if next <? 0 then Ret i
  else earlier ← sooner l i next; Ret (if (earlier : bool) then i else next).

Fixpoint scan_next (l : list timer_context) (i : Z) (n : nat) (next : Z) : outcome Z :=
  match n with
  | O => Ret next
  | S n => next ← closest l next i; scan_next l (i + 1) n next
  end.

Definition del_timer (timer_id : Z) (e : t) : outcome t :=
  c ← at_ (timer_contexts_ e) timer_id;
  assert (negb (is_null (t_callback c))) ≫= fun _ =>
  let l := vset (timer_contexts_ e) timer_id (mkTimer None (t_user_data c) (when_ c)) in
  let largest := cap_largest l (Z.to_nat (largest_timer_id_ e + 1)) in
  next ← (if timer_id =? next_timer_ e then scan_next l 0 (Z.to_nat (largest + 1)) (-1)
          else Ret (next_timer_ e));
  Ret (set_timers l largest next e).

(** ** Waiting *)

(** Conversion to a 32-bit [int]. *)
Definition i32 (n : Z) : Z := (n + 2 ^ 31) mod 2 ^ 32 - 2 ^ 31.

(** The decision [wait()] takes at the time [now]: return at once, or call
    [epoll_wait()] with a timeout in milliseconds, -1 meaning none. *)
Inductive wait_call := NoWait | EpollWait (timeout_ms : Z).

Definition wait_for (now : timespec) (e : t) : outcome wait_call :=
  if 0 <=? next_timer_ e then
    c ← at_ (timer_contexts_ e) (next_timer_ e);
    if timespec_lt (when_ c) now then Ret NoWait
    else
      let diff := timespecsub (when_ c) now in
      Ret (EpollWait (i32 (tv_sec diff * 1000 + Z.quot (tv_nsec diff) (1000 * 1000))))
  else Ret (EpollWait (-1)).

(** [wait()]; [answer] are the events [epoll_wait()] returns for a timeout, or an error. *)
Definition wait (now : timespec) (answer : Z -> option (list (Z * Z))) (e : t) : outcome t :=
  w ← wait_for now e;
  match w with
  | NoWait => Ret (set_events (events_ e) 0 (event_current_ e) e)
  | EpollWait timeout_ms =>
      match answer timeout_ms with
      | Some evs => Ret (set_events (evs ++ drop (length evs) (events_ e)) (size evs) (event_current_ e) e)
      | None => Ret (set_events (events_ e) (-1) (event_current_ e) e)
      end
  end.

(** ** Dispatching *)

(** A call of a registered callback. *)
Inductive call :=
| FdCall (f : fn) (user_data : option data) (fd events : Z)
| TimerCall (f : fn) (user_data : option data) (timer_id : Z).

Definition EPOLLHUP : Z := 16.

Section Dispatch.

(** The rest of the program: what a callback does to its own state and to this object,
    and the closing of a file descriptor. *)
Context {St : Type} (run : call -> St -> t -> outcome (St * t)) (os_close : Z -> St -> St).

Definition delete_closed_fd_context (fd : Z) (s : St) (e : t) : outcome (St * t) :=
  c ← at_ (fd_contexts_ e) fd;
  match callback_user_data c with
  | Some d =>
      match callback c with
      | Some f => run (FdCall f (Some d) fd EPOLLHUP) s e
      | None => Abort
      end
  | None => Ret (s, e)
  end.

Fixpoint closed_loop (fuel : nat) (s : St) (e : t) : outcome (St * t) :=
  match closed_context_fds_ e with
  | [] => Ret (s, e)
  | fd :: _ =>
      match fuel with
      | O => OutOfFuel
      | S fuel =>
          '(s, e) ← delete_closed_fd_context fd s e;
          closed_loop fuel (os_close fd s) (set_closed (tail (closed_context_fds_ e)) e)
      end
  end.

(** The callback of one event. *)
Definition dispatch_event (s : St) (e : t) : outcome (St * t) :=
  '(fd, ev) ← at_ (events_ e) (event_current_ e);
  if 0 <=? fd then
    c ← at_ (fd_contexts_ e) fd;
    match callback c with
    | Some f => run (FdCall f (callback_user_data c) fd ev) s e
    | None => Abort
    end
  else Ret (s, e).

Fixpoint event_loop (fuel : nat) (s : St) (e : t) : outcome (St * t) :=
  if event_current_ e <? event_count_ e then
    match fuel with
    | O => OutOfFuel
    | S fuel =>
        '(s, e) ← dispatch_event s e;
        event_loop fuel s (set_events (events_ e) (event_count_ e) (event_current_ e + 1) e)
    end
  else Ret (s, e).

Fixpoint timer_loop (fuel : nat) (now : timespec) (i : Z) (s : St) (e : t) : outcome (St * t) :=
  if i <=? largest_timer_id_ e then
    match fuel with
    | O => OutOfFuel
    | S fuel =>
        c ← at_ (timer_contexts_ e) i;
        match t_callback c with
        | Some f =>
            if timespec_lt (when_ c) now then
              '(s, e) ← run (TimerCall f (t_user_data c) i) s e;
              e ← del_timer i e;
              timer_loop fuel now (i + 1) s e
            else timer_loop fuel now (i + 1) s e
        | None => timer_loop fuel now (i + 1) s e
        end
    end
  else Ret (s, e).

(** [process_all_events()]; [now] is the time read before the timers are looked at, and
    [fuel] bounds the rounds of each loop. *)
Definition process_all_events (fuel : nat) (now : timespec) (s : St) (e : t) : outcome (St * t) :=
  '(s, e) ← closed_loop fuel s e;
  '(s, e) ← event_loop fuel s (set_events (events_ e) (event_count_ e) 0 e);
  if 0 <=? largest_timer_id_ e then timer_loop fuel now 0 s e else Ret (s, e).

(** [~Epoll()]: the file descriptors that are still registered, from [fd] on. *)
Fixpoint destroy_from (n : nat) (fd : Z) (s : St) (e : t) : outcome (St * t) :=
  match n with
  | O => Ret (s, e)
  | S n =>
      if fd <? size (fd_contexts_ e) then
        c ← at_ (fd_contexts_ e) fd;
        '(s, e) ← (if is_null (callback c) then Ret (s, e)
                   else delete_closed_fd_context fd (os_close fd s) e);
        destroy_from n (fd + 1) s e
      else Ret (s, e)
  end.

Definition destroy (s : St) (e : t) : outcome (St * t) :=
  destroy_from (length (fd_contexts_ e)) 0 s e.

End Dispatch.

(** * The timers form a table with its earliest entry at hand *)

(** Slot [i] of [l] is the timer [c]. *)
Definition tm (l : list timer_context) (i : nat) (c : timer_context) : Prop :=
  l !! i = Some c /\ t_callback c <> None.

Record timers_ok (e : t) : Prop := {
  tk_largest : -1 <= largest_timer_id_ e < size (timer_contexts_ e);
  tk_top : forall i c, tm (timer_contexts_ e) i c -> Z.of_nat i <= largest_timer_id_ e;
  tk_top_active : 0 <= largest_timer_id_ e ->
    exists c, tm (timer_contexts_ e) (Z.to_nat (largest_timer_id_ e)) c;
  tk_none : next_timer_ e < 0 -> forall i c, ~ tm (timer_contexts_ e) i c;
  tk_next : 0 <= next_timer_ e -> exists c, tm (timer_contexts_ e) (Z.to_nat (next_timer_ e)) c /\
    forall i c', tm (timer_contexts_ e) i c' -> ns (when_ c) <= ns (when_ c');
  tk_norm : forall i c, tm (timer_contexts_ e) i c -> ts_ok (when_ c)
}.

Lemma at_Some {A} (l : list A) (i : nat) x : l !! i = Some x -> at_ l (Z.of_nat i) = Ret x.
Proof. intros H. unfold at_. rewrite (proj2 (Z.ltb_ge _ _)) by lia. by rewrite Nat2Z.id, H. Qed.

Lemma at_Some_Z {A} (l : list A) (i : Z) x : 0 <= i -> l !! Z.to_nat i = Some x -> at_ l i = Ret x.
Proof. intros Hi H. rewrite <- (Z2Nat.id i) by done. by apply at_Some. Qed.

Lemma tm_insert l k new i c :
  (k < length l)%nat -> t_callback new <> None ->
  tm (<[k := new]> l) i c <-> (i = k /\ c = new) \/ (i <> k /\ tm l i c).
Proof.
  intros Hk Hn. unfold tm. destruct (decide (i = k)) as [->|Hne].
  - rewrite list_lookup_insert_eq by done. naive_solver.
  - rewrite list_lookup_insert_ne by done. naive_solver.
Qed.

Lemma tm_delete l k dead i c :
  (k < length l)%nat -> t_callback dead = None ->
  tm (<[k := dead]> l) i c <-> i <> k /\ tm l i c.
Proof.
  intros Hk Hn. unfold tm. destruct (decide (i = k)) as [->|Hne].
  - rewrite list_lookup_insert_eq by done. naive_solver.
  - rewrite list_lookup_insert_ne by done. naive_solver.
Qed.

Lemma tm_resize l n dead i c :
  (length l <= n)%nat -> t_callback dead = None -> tm (resize n dead l) i c <-> tm l i c.
Proof.
  intros Hl Hn. unfold tm. rewrite resize_ge by done. rewrite lookup_app.
  destruct (l !! i) as [x|] eqn:E; [done|].
  rewrite lookup_replicate. naive_solver.
Qed.

Lemma first_free_spec l :
  0 <= first_free l <= Z.of_nat (length l) /\
  (first_free l < Z.of_nat (length l) -> forall c, ~ tm l (Z.to_nat (first_free l)) c).
Proof.
  induction l as [|c l [IH1 IH2]]; cbn [first_free length]; [by split; [lia|lia]|].
  unfold is_null. destruct (t_callback c) eqn:E.
  - split; [lia|]. intros Hlt c'. rewrite Z.add_comm, Z2Nat.inj_add, Nat.add_comm by lia.
    apply IH2. lia.
  - split; [lia|]. intros _ c' [H1 H2]. change (Z.to_nat 0) with 0%nat in H1. cbn in H1. congruence.
Qed.

Lemma cap_largest_spec l n :
  (n <= length l)%nat ->
  -1 <= cap_largest l n < Z.of_nat n /\
  (0 <= cap_largest l n -> exists c, tm l (Z.to_nat (cap_largest l n)) c) /\
  (forall i c, tm l i c -> (i < n)%nat -> Z.of_nat i <= cap_largest l n).
Proof.
  induction n as [|n IH]; intros Hn; cbn [cap_largest]; [split_and!; intros; lia|].
  destruct (lookup_lt_is_Some_2 l n) as [c Hc]; [lia|]. rewrite Hc.
  destruct IH as (H1 & H2 & H3); [lia|]. unfold is_null.
  destruct (t_callback c) eqn:E; split_and!; try lia; try done.
  - intros _. exists c. rewrite Nat2Z.id. by split; [|rewrite E].
  - intros i c' Hi Hlt. destruct (decide (i = n)) as [->|]; [|by apply (H3 i c'); [|lia]].
    destruct Hi. by simplify_eq.
Qed.

(** [next] is the earliest timer among the first [k] slots. *)
Definition earliest (l : list timer_context) (k : nat) (next : Z) : Prop :=
  (next < 0 /\ next = -1 /\ forall i c, (i < k)%nat -> ~ tm l i c) \/
  (0 <= next < Z.of_nat k /\ exists c, tm l (Z.to_nat next) c /\
     forall i c', (i < k)%nat -> tm l i c' -> ns (when_ c) <= ns (when_ c')).

Lemma sooner_ns l i j ci cj :
  0 <= i -> 0 <= j -> tm l (Z.to_nat i) ci -> tm l (Z.to_nat j) cj -> ts_ok (when_ ci) -> ts_ok (when_ cj) ->
  sooner l i j = Ret (ns (when_ ci) <? ns (when_ cj)).
Proof.
  intros Hi0 Hj0 [Hi _] [Hj _] Ti Tj. unfold sooner, mbind, outcome_bind.
  by rewrite (at_Some_Z _ _ _ Hi0 Hi), (at_Some_Z _ _ _ Hj0 Hj), timespec_lt_ns.
Qed.

Lemma closest_spec l k next :
  (forall i c, tm l i c -> ts_ok (when_ c)) -> (k < length l)%nat -> earliest l k next ->
  exists next', closest l next (Z.of_nat k) = Ret next' /\ earliest l (S k) next'.
Proof.
  intros Hok Hk He. destruct (lookup_lt_is_Some_2 l k Hk) as [c Hc].
  unfold closest, mbind, outcome_bind. rewrite (at_Some _ _ _ Hc). unfold is_null.
  destruct (t_callback c) as [f|] eqn:E.
  2:{ assert (Hn : forall c', ~ tm l k c') by (intros c' [? ?]; by simplify_eq).
      eexists; split; [done|]. destruct He as [(?&?&He)|(?&c'&?&He)]; [left|right]; split_and!; try lia.
      - intros i c' Hi Ht. destruct (decide (i = k)) as [->|]; [by apply (Hn c')|by apply (He i c'); [lia|]].
      - exists c'. split; [done|]. intros i c2 Hi Ht.
        destruct (decide (i = k)) as [->|]; [by destruct (Hn c2)|apply (He i c2); [lia|done]]. }
  assert (Ht : tm l k c) by (split; [done|by rewrite E]).
  destruct He as [(?&?&He)|(?&c'&Hc'&He)].
  - rewrite (proj2 (Z.ltb_lt _ _)) by lia. eexists; split; [done|]. right. split; [lia|].
    exists c. rewrite Nat2Z.id. split; [done|]. intros i c' Hi Ht'.
    destruct (decide (i = k)) as [->|]; [destruct Ht, Ht'; by simplify_eq|].
    destruct (He i c'); [lia|done].
  - rewrite (proj2 (Z.ltb_ge _ _)) by lia.
    assert (Hs : sooner l (Z.of_nat k) next = Ret (ns (when_ c) <? ns (when_ c'))).
    { apply sooner_ns; eauto; try lia. by rewrite Nat2Z.id. }
    rewrite Hs.
    eexists; split; [done|]. right. destruct (Z.ltb_spec (ns (when_ c)) (ns (when_ c'))).
    + split; [lia|]. exists c. rewrite Nat2Z.id. split; [done|]. intros i c2 Hi Ht2.
      destruct (decide (i = k)) as [->|]; [destruct Ht, Ht2; by simplify_eq|].
      pose proof (He i c2 ltac:(lia) Ht2). lia.
    + split; [lia|]. exists c'. split; [done|]. intros i c2 Hi Ht2.
      destruct (decide (i = k)) as [->|]; [destruct Ht, Ht2; by simplify_eq|].
      apply (He i c2); [lia|done].
Qed.

Lemma scan_next_spec l n k next :
  (forall i c, tm l i c -> ts_ok (when_ c)) -> (k + n <= length l)%nat -> earliest l k next ->
  exists next', scan_next l (Z.of_nat k) n next = Ret next' /\ earliest l (k + n) next'.
Proof.
  intros Hok. revert k next. induction n as [|n IH]; intros k next Hk He; cbn [scan_next].
  - rewrite Nat.add_0_r. eauto.
  - destruct (closest_spec l k next Hok ltac:(lia) He) as (next1 & Hc & He1).
    unfold mbind, outcome_bind. rewrite Hc.
    replace (Z.of_nat k + 1) with (Z.of_nat (S k)) by lia.
    rewrite <- Nat.add_succ_comm in Hk |- *. by apply IH.
Qed.

Lemma delay_ok ms : 0 <= ms -> ts_ok (delay ms) /\ ns (delay ms) = ms * (1000 * 1000).
Proof.
  intros H. unfold delay, ts_ok, ns. cbn [tv_sec tv_nsec].
  rewrite Z.quot_div_nonneg, Z.rem_mod_nonneg by lia. dlia.
Qed.

(** The slot that [add_timer()] takes, and the table it takes it from. *)
Lemma add_slot e :
  timers_ok e ->
  let id := first_free (take (Z.to_nat (largest_timer_id_ e + 1)) (timer_contexts_ e)) in
  let grow := largest_timer_id_ e <? id in
  let l := if grow && (id =? size (timer_contexts_ e))
           then resize (Z.to_nat (id + 1)) (mkTimer None None (mkTs 0 0)) (timer_contexts_ e)
           else timer_contexts_ e in
  0 <= id < size l /\ id <= largest_timer_id_ e + 1 /\
  (forall i c, tm l i c <-> tm (timer_contexts_ e) i c) /\
  (forall c, ~ tm (timer_contexts_ e) (Z.to_nat id) c).
Proof.
  intros [Hl Htop _ _ _ _]. intros id grow.
  set (ts := timer_contexts_ e) in *. unfold size in *.
  destruct (first_free_spec (take (Z.to_nat (largest_timer_id_ e + 1)) ts)) as [H1 H2]. fold id in H1, H2.
  rewrite length_take_le in H1, H2 by lia.
  assert (Hno : forall c, ~ tm ts (Z.to_nat id) c).
  { intros c Hc. pose proof (Htop _ _ Hc). destruct (H2 ltac:(lia) c). destruct Hc as [Hc ?].
    split; [|done]. rewrite lookup_take_lt by lia. done. }
  cbv zeta. destruct (grow && (id =? Z.of_nat (length ts))) eqn:E; split_and!; try lia; try done.
  - rewrite length_resize. lia.
  - intros i c. apply tm_resize; [lia|done].
  - subst grow. lia.
Qed.

(** Filling a free slot keeps the table in order when the bound and the earliest timer
    are updated as [add_timer()] does. *)
Lemma insert_timer_ok e l id new next :
  timers_ok e -> ts_ok (when_ new) -> 0 <= id < size l -> id <= largest_timer_id_ e + 1 ->
  size (timer_contexts_ e) <= size l ->
  (forall i c, tm l i c <-> (i = Z.to_nat id /\ c = new) \/ tm (timer_contexts_ e) i c) ->
  (if next_timer_ e <? 0 then next = id
   else exists c, tm (timer_contexts_ e) (Z.to_nat (next_timer_ e)) c /\
     next = if ns (when_ new) <? ns (when_ c) then id else next_timer_ e) ->
  timers_ok (set_timers l (if largest_timer_id_ e <? id then largest_timer_id_ e + 1 else largest_timer_id_ e) next e).
Proof.
  intros [Hlg Htop Htact Hnone Hnext Hnorm] Hnew Hid Hle Hsz Hin Hn.
  assert (Hme : tm l (Z.to_nat id) new) by (apply Hin; tauto).
  split; cbn [timer_contexts_ largest_timer_id_ next_timer_ set_timers].
  - destruct (Z.ltb_spec (largest_timer_id_ e) id); lia.
  - intros i c [[-> ->]|Hi]%Hin; [|pose proof (Htop _ _ Hi)];
      destruct (Z.ltb_spec (largest_timer_id_ e) id); lia.
  - intros Hpos. destruct (Z.ltb_spec (largest_timer_id_ e) id).
    + exists new. by replace (largest_timer_id_ e + 1) with id by lia.
    + destruct (Htact Hpos) as [c Hc]. exists c. apply Hin. tauto.
  - intros Hneg. destruct (Z.ltb_spec (next_timer_ e) 0); [lia|].
    destruct Hn as (c & _ & ->).
    destruct (Z.ltb_spec (ns (when_ new)) (ns (when_ c))); lia.
  - intros Hpos. destruct (Z.ltb_spec (next_timer_ e) 0) as [Hlt|Hge].
    + subst next. exists new. split; [done|]. intros i c [[-> ->]|Hi]%Hin; [done|].
      by destruct (Hnone Hlt i c).
    + destruct (Hnext Hge) as (c & Hc & Hmin), Hn as (c' & Hc' & ->).
      assert (c' = c) as -> by (destruct Hc, Hc'; congruence).
      destruct (Z.ltb_spec (ns (when_ new)) (ns (when_ c))).
      * exists new. split; [done|]. intros i c2 [[-> ->]|Hi]%Hin; [done|].
        pose proof (Hmin _ _ Hi). lia.
      * exists c. split; [apply Hin; tauto|]. intros i c2 [[-> ->]|Hi]%Hin; [done|eauto].
  - intros i c [[-> ->]|Hi]%Hin; eauto.
Qed.

Lemma add_timer_correct now ms f d e :
  timers_ok e -> ts_ok now -> 0 <= ms ->
  let new := mkTimer (Some f) d (timespecadd now (delay ms)) in
  exists e' id, add_timer now ms f d e = Ret (e', Z.of_nat id) /\ timers_ok e' /\
    (forall c, ~ tm (timer_contexts_ e) id c) /\
    forall i c, tm (timer_contexts_ e') i c <-> (i = id /\ c = new) \/ tm (timer_contexts_ e) i c.
Proof.
  intros Hok Hnow Hms new. pose proof (add_slot e Hok) as Hs. cbv zeta in Hs.
  unfold add_timer. cbv zeta.
  set (id := first_free _) in *. set (l := if _ && _ then _ else _) in *.
  destruct Hs as (Hid & Hle & Hl & Hno). fold new.
  destruct (lookup_lt_is_Some_2 l (Z.to_nat id)) as [c0 Hc0]; [unfold size in *; lia|].
  assert (Hnewok : ts_ok (when_ new)) by (apply timespecadd_ok; [done|by apply delay_ok]).
  assert (Hin : forall i c, tm (vset l id new) i c <-> (i = Z.to_nat id /\ c = new) \/ tm (timer_contexts_ e) i c).
  { intros i c. unfold vset. rewrite tm_insert, Hl; [|unfold size in *; lia|done].
    split; [tauto|]. intros [?|Hi]; [tauto|]. right. split; [|done]. intros ->. by apply (Hno c). }
  assert (Hsz : size (timer_contexts_ e) <= size l).
  { unfold l. case_match eqn:E; [|done]. unfold size in *. rewrite length_resize. lia. }
  assert (Hsz' : size (vset l id new) = size l) by (unfold size, vset; by rewrite length_insert).
  unfold mbind, outcome_bind. rewrite (at_Some_Z l id c0) by (done || lia).
  destruct (Z.ltb_spec (next_timer_ e) 0) as [Hlt|Hge].
  - eexists _, (Z.to_nat id). rewrite Z2Nat.id by lia. split_and!; [done| |done|done].
    apply (insert_timer_ok e _ id new); rewrite ?Hsz'; try done.
    by rewrite (proj2 (Z.ltb_lt _ _) Hlt).
  - destruct (tk_next _ Hok Hge) as (c & Hc & _).
    rewrite (sooner_ns _ id (next_timer_ e) new c); [|lia|done|apply Hin; tauto|apply Hin; tauto|done|by eapply tk_norm].
    eexists _, (Z.to_nat id). rewrite Z2Nat.id by lia. split_and!; [done| |done|done].
    apply (insert_timer_ok e _ id new); rewrite ?Hsz'; try done.
    rewrite (proj2 (Z.ltb_ge _ _) Hge). by exists c.
Qed.

Lemma del_timer_correct id c e :
  timers_ok e -> tm (timer_contexts_ e) id c ->
  exists e', del_timer (Z.of_nat id) e = Ret e' /\ timers_ok e' /\
    forall i c', tm (timer_contexts_ e') i c' <-> i <> id /\ tm (timer_contexts_ e) i c'.
Proof.
  intros [Hlg Htop Htact Hnone Hnext Hnorm] Hc. unfold del_timer, mbind, outcome_bind.
  rewrite (at_Some _ _ _ (proj1 Hc)).
  assert (Hnn : is_null (t_callback c) = false) by (destruct Hc as [_ Hc]; by destruct (t_callback c)).
  rewrite Hnn. cbn [negb assert]. cbv zeta. set (dead := mkTimer None _ _).
  pose proof (Htop _ _ Hc). pose proof (lookup_lt_Some _ _ _ (proj1 Hc)) as Hlt. unfold size in *.
  assert (Hin : forall i c', tm (vset (timer_contexts_ e) (Z.of_nat id) dead) i c' <-> i <> id /\ tm (timer_contexts_ e) i c').
  { intros i c'. unfold vset. rewrite Nat2Z.id. by apply tm_delete. }
  set (l := vset _ _ _) in *.
  assert (Hll : length l = length (timer_contexts_ e)) by apply length_insert.
  destruct (cap_largest_spec l (Z.to_nat (largest_timer_id_ e + 1))) as (H1 & H2 & H3); [lia|].
  set (largest := cap_largest l _) in *.
  assert (Htop' : forall i c', tm l i c' -> Z.of_nat i <= largest).
  { intros i c' Hi. apply (H3 i c' Hi). destruct (proj1 (Hin i c') Hi) as [_ Hi']. pose proof (Htop _ _ Hi'). lia. }
  assert (Hnorm' : forall i c', tm l i c' -> ts_ok (when_ c')) by (intros i c' [_ Hi]%Hin; eauto).
  destruct (Z.eqb_spec (Z.of_nat id) (next_timer_ e)) as [Heq|Hne].
  - destruct (scan_next_spec l (Z.to_nat (largest + 1)) 0 (-1) Hnorm') as (next & Hs & He); [lia| |].
    { left. split_and!; [lia|done|lia]. }
    change (Z.of_nat 0) with 0 in Hs. rewrite Hs. eexists; split; [done|]. split; [|done].
    split; cbn [timer_contexts_ largest_timer_id_ next_timer_ set_timers]; try done.
    + unfold size. lia.
    + intros Hneg i c' Hi. pose proof (Htop' _ _ Hi). destruct He as [(?&?&He)|?]; [|lia].
      apply (He i c'); [lia|done].
    + intros Hpos. destruct He as [?|(?&c'&Hc'&He)]; [lia|]. exists c'. split; [done|].
      intros i c2 Hi. pose proof (Htop' _ _ Hi). apply (He i c2); [lia|done].
  - eexists; split; [done|]. split; [|done].
    split; cbn [timer_contexts_ largest_timer_id_ next_timer_ set_timers]; try done.
    + unfold size. lia.
    + intros Hneg i c' [_ Hi]%Hin. by apply (Hnone Hneg i c').
    + intros Hpos. destruct (Hnext Hpos) as (c' & Hc' & Hmin). exists c'. split; [apply Hin; split; [lia|done]|].
      intros i c2 [_ Hi]%Hin. eauto.
Qed.

Lemma i32_small n : 0 <= n < 2 ^ 31 -> i32 n = n.
Proof. intros H. unfold i32. rewrite Z.mod_small by lia. lia. Qed.

(** [wait()] sleeps until the earliest timer: without timers it waits for events only;
    with a timer that has elapsed it does not wait at all; otherwise the timeout it passes
    to [epoll_wait()] is not negative, ends no later than any timer is due, and less than a
    millisecond before the earliest one (for timers due within 2^31 milliseconds, which
    [int timeout_ms] can hold). *)
Theorem wait_bounds now e :
  timers_ok e -> ts_ok now ->
  (forall i c, tm (timer_contexts_ e) i c -> ns (when_ c) - ns now < 2 ^ 31 * (1000 * 1000)) ->
  match wait_for now e with
  | Ret NoWait => exists i c, tm (timer_contexts_ e) i c /\ ns (when_ c) < ns now
  | Ret (EpollWait ms) =>
      (ms = -1 /\ forall i c, ~ tm (timer_contexts_ e) i c) \/
      (0 <= ms /\
       (forall i c, tm (timer_contexts_ e) i c -> ns now + ms * (1000 * 1000) <= ns (when_ c)) /\
       exists i c, tm (timer_contexts_ e) i c /\ ns (when_ c) < ns now + (ms + 1) * (1000 * 1000))
  | _ => False
  end.
Proof.
  intros Hok Hnow Hfar. unfold wait_for.
  destruct (Z.leb_spec 0 (next_timer_ e)) as [Hge|Hlt].
  2:{ left. split; [done|]. intros i c. by apply (tk_none _ Hok Hlt). }
  destruct (tk_next _ Hok Hge) as (c & Hc & Hmin). unfold mbind, outcome_bind.
  rewrite (at_Some_Z _ _ c Hge (proj1 Hc)).
  pose proof (tk_norm _ Hok _ _ Hc) as Hn. pose proof (Hfar _ _ Hc) as Hf.
  rewrite timespec_lt_ns by done. destruct (Z.ltb_spec (ns (when_ c)) (ns now)); [eauto|].
  pose proof (timespecsub_ns (when_ c) now) as Hs. pose proof (timespecsub_ok _ _ Hn Hnow) as Hso.
  set (d := timespecsub _ _) in *. unfold ns in Hs at 1. unfold ts_ok in Hso. right.
  rewrite Z.quot_div_nonneg by lia. pose proof (Z.mul_div_le (tv_nsec d) (1000 * 1000) ltac:(lia)).
  pose proof (Z.mul_succ_div_gt (tv_nsec d) (1000 * 1000) ltac:(lia)).
  set (q := tv_nsec d / (1000 * 1000)) in *.
  rewrite i32_small by lia. split_and!; [lia| |].
  - intros i c' Hi. pose proof (Hmin _ _ Hi). lia.
  - exists (Z.to_nat (next_timer_ e)), c. split; [done|lia].
Qed.

(** * Every event is dispatched to a registered callback *)

(** File descriptor [fd] is registered. *)
Definition added (l : list fd_context) (fd : Z) : Prop :=
  exists c f, 0 <= fd /\ l !! Z.to_nat fd = Some c /\ callback c = Some f.

Definition registered (l : list fd_context) : nat :=
  length (filter (fun c => callback c <> None) l).

(** The object between two calls of its operations: [fds()] is the number of registered
    file descriptors and the timers are in order. *)
Record ok (e : t) : Prop := {
  ok_count : fds_ e = Z.of_nat (registered (fd_contexts_ e));
  ok_timers : timers_ok e
}.

(** The events that are still to be processed belong to registered file descriptors,
    each to another one. *)
Record live (e : t) : Prop := {
  lv_range : -1 <= event_current_ e /\ event_count_ e <= Z.of_nat (length (events_ e));
  lv_added : forall i fd ev, event_current_ e < Z.of_nat i < event_count_ e ->
    events_ e !! i = Some (fd, ev) -> 0 <= fd -> added (fd_contexts_ e) fd;
  lv_distinct : forall i j fd ev ev', event_current_ e < Z.of_nat i < event_count_ e ->
    event_current_ e < Z.of_nat j < event_count_ e ->
    events_ e !! i = Some (fd, ev) -> events_ e !! j = Some (fd, ev') -> 0 <= fd -> i = j
}.

(** What a callback may do with the object: the operations of its interface.  While the
    callback of timer [self] runs at the time [now], it does not delete this timer and the
    clock does not go backwards. *)
Inductive api (now : timespec) (self : option nat) : t -> t -> Prop :=
| api_add ctl fd f d e e' : add_fd ctl fd f d e = Ret e' -> api now self e e'
| api_del fd e e' : del_fd fd e = Ret e' -> api now self e e'
| api_maybe_del fd e e' : maybe_del_fd fd e = Ret e' -> api now self e e'
| api_remap dup_ret fd e e' r : remap_to_not_added_fd dup_ret fd e = Ret (e', r) -> api now self e e'
| api_add_timer now' ms f d e e' r : ts_ok now' -> ns now <= ns now' -> 0 <= ms ->
    add_timer now' ms f d e = Ret (e', r) -> api now self e e'
| api_del_timer id e e' : Some id <> self -> del_timer (Z.of_nat id) e = Ret e' -> api now self e e'.

Lemma at_Ret {A} (l : list A) i x : at_ l i = Ret x -> 0 <= i /\ l !! Z.to_nat i = Some x.
Proof. unfold at_. destruct (Z.ltb_spec i 0); [done|]. case_match; intros; simplify_eq; eauto. Qed.

Lemma registered_app l l' : registered (l ++ l') = (registered l + registered l')%nat.
Proof. unfold registered. by rewrite list.filter_app, length_app. Qed.

Lemma registered_insert l i c c' :
  l !! i = Some c ->
  (registered (<[i := c']> l) + (if is_null (callback c) then 0 else 1) =
   registered l + (if is_null (callback c') then 0 else 1))%nat.
Proof.
  intros H. pose proof (lookup_lt_Some _ _ _ H).
  rewrite <- (take_drop_middle _ _ _ H) at 2. rewrite insert_take_drop by done.
  rewrite !registered_app. unfold registered. rewrite !list.filter_cons. unfold is_null.
  destruct (callback c), (callback c'); repeat case_decide; cbn; try done; lia.
Qed.

Lemma registered_replicate n d : registered (replicate n (mkFdContext None d)) = 0%nat.
Proof.
  induction n as [|n IH]; [done|]. cbn [replicate]. unfold registered in *.
  rewrite list.filter_cons. by case_decide.
Qed.

Lemma ensure_room_spec fd e :
  registered (fd_contexts_ (ensure_room_fd fd e)) = registered (fd_contexts_ e) /\
  (forall x, added (fd_contexts_ (ensure_room_fd fd e)) x <-> added (fd_contexts_ e) x).
Proof.
  unfold ensure_room_fd. destruct (Z.leb_spec (size (fd_contexts_ e)) fd) as [Hle|]; [|done].
  unfold size in Hle. cbn [fd_contexts_ set_contexts]. rewrite resize_ge by lia. split.
  - rewrite registered_app, registered_replicate. lia.
  - intros x. unfold added. split; intros (c & f & Hx & Hl & Hc); exists c, f; split_and!; try done.
    + apply lookup_app_Some in Hl as [Hl|[_ [-> _]%lookup_replicate]]; [done|done].
    + by apply lookup_app_l_Some.
Qed.

(** The other fields of the object. *)
Definition same_timers (e e' : t) : Prop :=
  timer_contexts_ e' = timer_contexts_ e /\ largest_timer_id_ e' = largest_timer_id_ e /\
  next_timer_ e' = next_timer_ e.
Definition same_events (e e' : t) : Prop :=
  event_count_ e' = event_count_ e /\ event_current_ e' = event_current_ e.

Lemma same_timers_ok e e' : same_timers e e' -> timers_ok e -> timers_ok e'.
Proof. intros (H1 & H2 & H3) []. split; rewrite ?H1, ?H2, ?H3; done. Qed.

Lemma added_insert l fd c :
  0 <= fd < size l -> forall x,
  added (vset l fd c) x <-> (x = fd /\ callback c <> None) \/ (x <> fd /\ added l x).
Proof.
  unfold size. intros Hfd x. unfold added, vset. destruct (decide (x = fd)) as [->|Hne].
  - split.
    + intros (c' & f & _ & Hl & Hc). rewrite list_lookup_insert_eq in Hl by lia. naive_solver.
    + intros [[_ Hc]|[]]; [|done]. destruct (callback c) as [f|] eqn:E; [|done].
      exists c, f. split_and!; [lia| |done]. by apply list_lookup_insert_eq; lia.
  - split.
    + intros (c' & f & Hx & Hl & Hc). rewrite list_lookup_insert_ne in Hl by lia. naive_solver.
    + intros [[]|[_ (c' & f & Hx & Hl & Hc)]]; [done|]. exists c', f.
      rewrite list_lookup_insert_ne by lia. done.
Qed.

Lemma add_fd_spec ctl fd f d e e' :
  add_fd ctl fd f d e = Ret e' ->
  ~ added (fd_contexts_ e) fd /\ fds_ e' = fds_ e + 1 /\
  registered (fd_contexts_ e') = S (registered (fd_contexts_ e)) /\
  (forall x, added (fd_contexts_ e') x <-> x = fd \/ added (fd_contexts_ e) x) /\
  same_timers e e' /\ same_events e e' /\ events_ e' = events_ e.
Proof.
  unfold add_fd. cbv zeta. intros H. inv_bind. simplify_eq.
  destruct (ensure_room_spec fd e) as [Hr Ha].
  apply at_Ret in Hb as [Hfd Hl]. pose proof (lookup_lt_Some _ _ _ Hl) as Hlt.
  assert (Hna : ~ added (fd_contexts_ (ensure_room_fd fd e)) fd).
  { intros (c & f' & _ & Hl' & Hc). simplify_eq. by rewrite Hc in Hb0. }
  split; [by rewrite <- Ha|]. cbn [fds_ fd_contexts_ set_contexts events_ set_events event_count_ event_current_].
  assert (Hsame : same_timers e (ensure_room_fd fd e) /\ same_events e (ensure_room_fd fd e) /\
    fds_ (ensure_room_fd fd e) = fds_ e /\ events_ (ensure_room_fd fd e) = events_ e).
  { unfold ensure_room_fd. by case_match. }
  destruct Hsame as (H1 & H2 & H3 & H4). rewrite H3. split; [done|]. split.
  { pose proof (registered_insert _ _ _ (mkFdContext (Some f) d) Hl) as Hi.
    rewrite Hb0 in Hi. cbn [is_null callback] in Hi. unfold vset. lia. }
  split; [|by split_and!]. intros x. rewrite added_insert by (unfold size; lia). rewrite Ha. cbn.
  split; [naive_solver|]. intros [->|Hx]; [by left|]. destruct (decide (x = fd)) as [->|]; [by left|by right].
Qed.

Lemma unmark_lookup fd n i l j x :
  unmark fd n i l !! j = Some x -> l !! j = Some x \/ fst x = -1.
Proof.
  revert i. induction n as [|n IH]; intros i; cbn [unmark]; [by left|].
  destruct (l !! i) as [[fd' ev]|] eqn:E; [|by left]. case_match; [|by apply IH].
  intros H'. destruct (decide (j = i)) as [->|Hne].
  - rewrite list_lookup_insert_eq in H' by (by eapply lookup_lt_Some). right. by simplify_eq.
  - rewrite list_lookup_insert_ne in H' by done. by left.
Qed.

Lemma unmark_gone fd n i l j x :
  (forall a b ev ev', (i <= a < i + n)%nat -> (i <= b < i + n)%nat ->
     l !! a = Some (fd, ev) -> l !! b = Some (fd, ev') -> a = b) ->
  0 <= fd -> (i <= j < i + n)%nat -> unmark fd n i l !! j = Some x -> fst x <> fd.
Proof.
  revert i. induction n as [|n IH]; intros i Hd Hfd Hj; cbn [unmark]; [lia|].
  destruct (l !! i) as [[fd' ev]|] eqn:E.
  2:{ intros Hx. apply lookup_lt_Some in Hx. apply lookup_ge_None in E. lia. }
  destruct (Z.eqb_spec fd' fd) as [->|Hne].
  - intros Hx. destruct (decide (j = i)) as [->|Hji].
    + rewrite list_lookup_insert_eq in Hx by (by eapply lookup_lt_Some). simplify_eq. cbn. lia.
    + rewrite list_lookup_insert_ne in Hx by done. destruct x as [fd' ev']. cbn. intros ->.
      apply Hji. eapply (Hd j i); eauto; lia.
  - destruct (decide (j = i)) as [->|Hji].
    + intros [Hx|Hx]%unmark_lookup; [simplify_eq; done|lia].
    + apply IH; [|done|lia]. intros a b ev1 ev2 Ha Hb. apply Hd; lia.
Qed.

Lemma length_unmark fd n i l : length (unmark fd n i l) = length l.
Proof.
  revert i. induction n as [|n IH]; intros i; cbn [unmark]; [done|].
  destruct (l !! i) as [[fd' ev]|]; [|done]. case_match; [apply length_insert|apply IH].
Qed.

Lemma del_fd_spec fd e e' :
  del_fd fd e = Ret e' ->
  added (fd_contexts_ e) fd /\ fds_ e' = fds_ e - 1 /\
  S (registered (fd_contexts_ e')) = registered (fd_contexts_ e) /\
  (forall x, added (fd_contexts_ e') x <-> x <> fd /\ added (fd_contexts_ e) x) /\
  same_timers e e' /\ same_events e e' /\
  events_ e' = unmark fd (Z.to_nat (event_count_ e - (event_current_ e + 1)))
                 (Z.to_nat (event_current_ e + 1)) (events_ e).
Proof.
  unfold del_fd. cbv zeta. intros H. inv_bind. simplify_eq.
  destruct (ensure_room_spec fd e) as [Hr Ha].
  apply at_Ret in Hb as [Hfd Hl]. pose proof (lookup_lt_Some _ _ _ Hl) as Hlt.
  apply negb_true_iff in Hb0.
  assert (Hna : added (fd_contexts_ (ensure_room_fd fd e)) fd).
  { unfold is_null in Hb0. destruct (callback a) as [f|] eqn:E; [|done]. by exists a, f. }
  split; [by rewrite <- Ha|]. cbn [fds_ fd_contexts_ set_contexts events_ set_events event_count_ event_current_].
  assert (Hsame : same_timers e (ensure_room_fd fd e) /\ same_events e (ensure_room_fd fd e) /\
    fds_ (ensure_room_fd fd e) = fds_ e /\ events_ (ensure_room_fd fd e) = events_ e).
  { unfold ensure_room_fd. by case_match. }
  destruct Hsame as (H1 & [H2 H2'] & H3 & H4). rewrite H2, H2', H3, H4. split; [done|]. split.
  { pose proof (registered_insert _ _ _ (mkFdContext None (callback_user_data a)) Hl) as Hi.
    rewrite Hb0 in Hi. cbn [is_null callback] in Hi. unfold vset. lia. }
  split; [|by split_and!]. intros x. rewrite added_insert by (unfold size; lia). rewrite Ha. cbn. naive_solver.
Qed.

Lemma set_timers_others l n k e : same_events e (set_timers l n k e) /\
  events_ (set_timers l n k e) = events_ e /\ fd_contexts_ (set_timers l n k e) = fd_contexts_ e /\
  fds_ (set_timers l n k e) = fds_ e.
Proof. done. Qed.

(** [e'] has the contexts and events of [e]. *)
Definition same_rest (e e' : t) : Prop :=
  same_events e e' /\ events_ e' = events_ e /\ fd_contexts_ e' = fd_contexts_ e /\ fds_ e' = fds_ e.

Lemma add_timer_rest now ms f d e e' r : add_timer now ms f d e = Ret (e', r) -> same_rest e e'.
Proof. unfold add_timer. cbv zeta. intros H. inv_bind. by simplify_eq. Qed.

Lemma del_timer_rest id e e' : del_timer id e = Ret e' -> same_rest e e'.
Proof. unfold del_timer. cbv zeta. intros H. inv_bind. by simplify_eq. Qed.

Lemma remap_spec dup_ret fd e e' r :
  remap_to_not_added_fd dup_ret fd e = Ret (e', r) -> same_rest e e' /\ same_timers e e'.
Proof. unfold remap_to_not_added_fd. intros H. inv_bind. destruct a1; by simplify_eq. Qed.

Lemma maybe_del_fd_spec fd e e' : maybe_del_fd fd e = Ret e' -> e' = e \/ del_fd fd e = Ret e'.
Proof. unfold maybe_del_fd. intros H. inv_bind. destruct a; simplify_eq; eauto. Qed.

Lemma del_timer_tm id e e' :
  timers_ok e -> del_timer (Z.of_nat id) e = Ret e' ->
  timers_ok e' /\ forall i c, tm (timer_contexts_ e') i c <-> i <> id /\ tm (timer_contexts_ e) i c.
Proof.
  intros Hok H. assert (Hc : exists c, tm (timer_contexts_ e) id c).
  { unfold del_timer in H. inv_bind. apply at_Ret in Hb as [_ Hl]. rewrite Nat2Z.id in Hl.
    exists a. split; [done|]. intros E. by rewrite E in Hb0. }
  destruct Hc as [c Hc]. destruct (del_timer_correct id c e Hok Hc) as (e1 & He & Hr).
  rewrite H in He. by injection He as ->.
Qed.

Lemma same_rest_live e e' : same_rest e e' -> live e -> live e'.
Proof. intros ((H1 & H2) & H3 & H4 & _) [? ? ?]. split; rewrite ?H1, ?H2, ?H3, ?H4; done. Qed.

Lemma api_timers now self e e' :
  api now self e e' -> timers_ok e -> ts_ok now ->
  timers_ok e' /\
  (forall i c, tm (timer_contexts_ e') i c -> ns (when_ c) < ns now -> tm (timer_contexts_ e) i c) /\
  (forall i c, self = Some i -> tm (timer_contexts_ e) i c -> tm (timer_contexts_ e') i c).
Proof.
  assert (Hsame : forall e e', same_timers e e' -> timers_ok e ->
    timers_ok e' /\ (forall i c, tm (timer_contexts_ e') i c -> ns (when_ c) < ns now -> tm (timer_contexts_ e) i c) /\
    (forall i c, self = Some i -> tm (timer_contexts_ e) i c -> tm (timer_contexts_ e') i c)).
  { intros e1 e2 Hs Hok. split; [by eapply same_timers_ok|]. destruct Hs as (-> & _). naive_solver. }
  intros H Hok Hnow. destruct H.
  - apply add_fd_spec in H as (_&_&_&_&Hs&_). eauto.
  - apply del_fd_spec in H as (_&_&_&_&Hs&_). eauto.
  - apply maybe_del_fd_spec in H as [->|H]; [by apply Hsame|].
    apply del_fd_spec in H as (_&_&_&_&Hs&_). eauto.
  - apply remap_spec in H as (_ & Hs). eauto.
  - destruct (add_timer_correct now' ms f d e Hok H H1) as (e1 & id & He & Hok' & Hno & Htm).
    rewrite He in H2. injection H2 as <- <-. split; [done|]. split.
    + intros i c [[-> ->]|Hi]%Htm Hlt; [|done]. cbn [when_] in Hlt. rewrite timespecadd_ns in Hlt.
      destruct (delay_ok ms H1) as [_ Hd]. lia.
    + intros i c _ Hi. apply Htm. by right.
  - apply del_timer_tm in H0 as [Hok' Htm]; [|done]. split; [done|]. split.
    + intros i c Hi _. by apply Htm in Hi as [_ Hi].
    + intros i c -> Hi. apply Htm. split; [congruence|done].
Qed.

Lemma api_ok now self e e' : api now self e e' -> ts_ok now -> ok e -> ok e'.
Proof.
  intros H Hnow [Hc Ht]. split; [|by eapply api_timers].
  destruct H.
  - apply add_fd_spec in H as (_&?&?&_). lia.
  - apply del_fd_spec in H as (_&?&?&_). lia.
  - apply maybe_del_fd_spec in H as [->|H]; [done|]. apply del_fd_spec in H as (_&?&?&_). lia.
  - apply remap_spec in H as ((_&_&->&->)&_). done.
  - apply add_timer_rest in H2 as (_&_&->&->). done.
  - apply del_timer_rest in H0 as (_&_&->&->). done.
Qed.

Lemma del_fd_live fd e e' : del_fd fd e = Ret e' -> live e -> live e'.
Proof.
  intros (Ha & _ & _ & Hadd & _ & (Hc & Hcur) & Hev)%del_fd_spec [[Hr1 Hr2] Hl Hd].
  assert (Hfd : 0 <= fd) by (by destruct Ha as (?&?&?&_)).
  assert (Hold : forall i x, events_ e' !! i = Some x -> 0 <= fst x -> events_ e !! i = Some x).
  { intros i x Hx Hp. rewrite Hev in Hx. apply unmark_lookup in Hx as [?|?]; [done|lia]. }
  split; rewrite ?Hc, ?Hcur.
  - by rewrite Hev, length_unmark.
  - intros i fd' ev Hi Hx Hp. apply Hadd. split; [|eapply Hl; eauto; by apply (Hold _ (fd', ev))].
    rewrite Hev in Hx. apply unmark_gone in Hx; [done| |done|lia].
    intros a b ev1 ev2 Ha' Hb'. intros; eapply Hd; eauto; lia.
  - intros i j fd' ev ev' Hi Hj Hx Hy Hp. eapply Hd; eauto.
Qed.

Lemma api_live now self e e' : api now self e e' -> live e -> live e'.
Proof.
  intros H Hlive. destruct H.
  - apply add_fd_spec in H as (_&_&_&Ha&_&(H1&H2)&H3). destruct Hlive as [Hr Hl Hd].
    split; rewrite ?H1, ?H2, ?H3; try done. intros i fd' ev Hi Hx Hp. apply Ha. right. eauto.
  - by eapply del_fd_live.
  - apply maybe_del_fd_spec in H as [->|H]; [done|by eapply del_fd_live].
  - apply remap_spec in H as (H&_). by eapply same_rest_live.
  - apply add_timer_rest in H2. by eapply same_rest_live.
  - apply del_timer_rest in H0. by eapply same_rest_live.
Qed.

Lemma api_same_events now self e e' : api now self e e' -> same_events e e'.
Proof.
  intros []; [apply add_fd_spec in H as (_&_&_&_&_&H&_)|apply del_fd_spec in H as (_&_&_&_&_&H&_)|
    apply maybe_del_fd_spec in H as [->|H%del_fd_spec]; [|destruct H as (_&_&_&_&_&H&_)]|
    apply remap_spec in H as ((H&_)&_)|apply add_timer_rest in H2 as (H2&_)|apply del_timer_rest in H0 as (H0&_)]; done.
Qed.

(** A run of a callback, as a sequence of operations. *)
Definition runs (now : timespec) (self : option nat) : t -> t -> Prop := rtc (api now self).

Lemma runs_keep now self e e' :
  runs now self e e' -> ts_ok now -> ok e ->
  ok e' /\ same_events e e' /\ (live e -> live e') /\
  (forall i c, tm (timer_contexts_ e') i c -> ns (when_ c) < ns now -> tm (timer_contexts_ e) i c) /\
  (forall i c, self = Some i -> tm (timer_contexts_ e) i c -> tm (timer_contexts_ e') i c).
Proof.
  intros H Hnow. induction H as [e|e e1 e2 H1 H IH]; intros Hok.
  - split_and!; try done; by split.
  - pose proof (api_ok _ _ _ _ H1 Hnow Hok) as Hok1.
    destruct (api_timers _ _ _ _ H1 (ok_timers _ Hok) Hnow) as (_ & Ht1 & Ht2).
    destruct (api_same_events _ _ _ _ H1) as [Hs1 Hs2]. pose proof (api_live _ _ _ _ H1) as Hlive.
    destruct (IH Hok1) as (? & (? & ?) & ? & Hk1 & Hk2). split_and!; [done| |auto|eauto|eauto].
    split; congruence.
Qed.

Section Round.
Context {St : Type} (run : call -> St -> t -> outcome (St * t)) (os_close : Z -> St -> St).

(** The program's own invariant, which does not depend on how far the events have been
    processed; its callbacks return, using the interface of the object only. *)
Context (I : St -> t -> Prop) (now : timespec).
Hypothesis I_events : forall s e l n i, I s e -> I s (set_events l n i e).
Hypothesis fd_call : forall s e fd ev c f,
  I s e -> ok e -> fd_contexts_ e !! Z.to_nat fd = Some c -> callback c = Some f ->
  exists s' e', run (FdCall f (callback_user_data c) fd ev) s e = Ret (s', e') /\ I s' e' /\
    exists start, ts_ok start /\ runs start None e e'.
Hypothesis timer_call : forall s e i c f,
  I s e -> ok e -> tm (timer_contexts_ e) i c -> t_callback c = Some f ->
  exists s' e', run (TimerCall f (t_user_data c) (Z.of_nat i)) s e = Ret (s', e') /\
    runs now (Some i) e e' /\ forall e2, del_timer (Z.of_nat i) e' = Ret e2 -> I s' e2.
Hypothesis now_ok : ts_ok now.

Lemma ok_set_events l n i e : ok e -> ok (set_events l n i e).
Proof. intros [? []]. split; [done|]. by split. Qed.

(** The events from the current one on are live. *)
Definition live_from (e : t) : Prop := live (set_events (events_ e) (event_count_ e) (event_current_ e - 1) e).

Lemma dispatch_event_returns s e :
  I s e -> ok e -> live_from e -> event_current_ e < event_count_ e -> 0 <= event_current_ e ->
  exists s' e', dispatch_event run s e = Ret (s', e') /\ I s' e' /\ ok e' /\ same_events e e' /\ live e'.
Proof.
  intros HI Hok [[Hr1 Hr2] Hadd Hd] Hlt Hpos. cbn in *. unfold dispatch_event.
  destruct (lookup_lt_is_Some_2 (events_ e) (Z.to_nat (event_current_ e))) as [[fd ev] Hx]; [lia|].
  unfold mbind, outcome_bind. rewrite (at_Some_Z _ _ _ Hpos Hx).
  assert (Hlive : live e).
  { split; [lia| |]; intros; [eapply Hadd|eapply Hd]; eauto; lia. }
  destruct (Z.leb_spec 0 fd) as [Hfd|].
  2:{ exists s, e. split_and!; done. }
  destruct (Hadd (Z.to_nat (event_current_ e)) fd ev ltac:(lia) Hx Hfd) as (c & f & _ & Hc & Hf).
  rewrite (at_Some_Z _ _ _ Hfd Hc), Hf.
  destruct (fd_call s e fd ev c f HI Hok Hc Hf) as (s' & e' & Hrun & HI' & start & Hst & Hruns).
  destruct (runs_keep _ _ _ _ Hruns Hst Hok) as (? & ? & ? & _).
  exists s', e'. split_and!; auto.
Qed.

Lemma event_loop_returns fuel s e :
  I s e -> ok e -> live_from e -> 0 <= event_current_ e ->
  (Z.to_nat (event_count_ e - event_current_ e) <= fuel)%nat ->
  exists s' e', event_loop run fuel s e = Ret (s', e') /\ I s' e' /\ ok e'.
Proof.
  revert s e. induction fuel as [|fuel IH]; intros s e HI Hok Hlive Hpos Hf; cbn [event_loop];
    destruct (Z.ltb_spec (event_current_ e) (event_count_ e)); try lia; eauto.
  destruct (dispatch_event_returns s e HI Hok Hlive ltac:(lia) Hpos)
    as (s' & e' & Hd & HI' & Hok' & [Hs1 Hs2] & Hl').
  unfold mbind, outcome_bind. rewrite Hd. apply IH; cbn; [by apply I_events|by apply ok_set_events| |lia|lia].
  unfold live_from. cbn. replace (event_current_ e' + 1 - 1) with (event_current_ e') by lia. by destruct Hl'.
Qed.

Lemma event_loop_more n m s e r : event_loop run n s e = Ret r -> (n <= m)%nat -> event_loop run m s e = Ret r.
Proof.
  revert m s e. induction n as [|n IH]; intros m s e; cbn [event_loop].
  - intros H _. destruct m; cbn [event_loop]; by case_match.
  - intros H Hm. destruct m as [|m]; [lia|]. cbn [event_loop]. case_match; [|done].
    apply outcome_bind_Ret in H as ([s1 e1] & Hd & H). unfold mbind, outcome_bind. rewrite Hd.
    apply IH; [done|lia].
Qed.

(** A timer that is due. *)
Definition due (e : t) (i : nat) : Prop :=
  exists c, tm (timer_contexts_ e) i c /\ ns (when_ c) < ns now.

(** Once no due timer is left, the loop only walks to the end. *)
Lemma timer_loop_rest i s e :
  ok e -> 0 <= i -> (forall k, i <= Z.of_nat k -> ~ due e k) ->
  exists fuel, forall m, (fuel <= m)%nat -> timer_loop run m now i s e = Ret (s, e).
Proof.
  intros [_ Hok] Hi Hno. exists (Z.to_nat (largest_timer_id_ e + 1 - i)). intros m.
  revert i Hi Hno. induction m as [|m IH]; intros i Hi Hno Hm; cbn [timer_loop];
    destruct (Z.leb_spec i (largest_timer_id_ e)); try done; [lia|].
  pose proof (tk_largest _ Hok). unfold size in *.
  destruct (lookup_lt_is_Some_2 (timer_contexts_ e) (Z.to_nat i)) as [c Hc]; [lia|].
  unfold mbind, outcome_bind. rewrite (at_Some_Z _ _ _ Hi Hc).
  assert (Hnext : timer_loop run m now (i + 1) s e = Ret (s, e)).
  { apply IH; [lia| |lia]. intros k Hk. apply Hno. lia. }
  destruct (t_callback c) as [f|] eqn:E; [|done].
  assert (Ht : tm (timer_contexts_ e) (Z.to_nat i) c) by (split; [done|by rewrite E]).
  rewrite timespec_lt_ns by (done || by eapply (tk_norm _ Hok)).
  destruct (Z.ltb_spec (ns (when_ c)) (ns now)); [|done].
  destruct (Hno (Z.to_nat i)); [lia|]. by exists c.
Qed.

(** [n] more slots may hold due timers. *)
Lemma timer_loop_returns n i s e :
  I s e -> ok e -> (forall k, due e k -> i <= Z.of_nat k < Z.of_nat n + i) -> 0 <= i ->
  exists fuel s' e', (forall m, (fuel <= m)%nat -> timer_loop run m now i s e = Ret (s', e')) /\
    I s' e' /\ ok e' /\ forall k, ~ due e' k.
Proof.
  revert i s e. induction n as [|n IH]; intros i s e HI Hok Hno Hi.
  { assert (Hd : forall k, ~ due e k) by (intros k Hk; specialize (Hno k Hk); lia).
    destruct (timer_loop_rest i s e Hok Hi) as [fuel Hf]; [by intros k _; apply Hd|].
    exists fuel, s, e. by split_and!. }
  destruct (Z.leb_spec i (largest_timer_id_ e)) as [Hle|Hgt].
  2:{ exists 0%nat, s, e. split_and!; [|done|done|].
      - intros [|m] _; cbn [timer_loop]; by rewrite (proj2 (Z.leb_gt _ _) Hgt).
      - intros k Hk. pose proof (Hno k Hk). destruct Hk as (c & Hc & _).
        pose proof (tk_top _ (ok_timers _ Hok) k c Hc). lia. }
  pose proof (tk_largest _ (ok_timers _ Hok)). unfold size in *.
  destruct (lookup_lt_is_Some_2 (timer_contexts_ e) (Z.to_nat i)) as [c Hc]; [lia|].
  assert (Hskip : ~ due e (Z.to_nat i) -> forall k, due e k -> i + 1 <= Z.of_nat k < Z.of_nat n + (i + 1)).
  { intros Hn k Hk. pose proof (Hno k Hk). enough (k <> Z.to_nat i) by lia. by intros ->. }
  destruct (t_callback c) as [f|] eqn:E.
  2:{ destruct (IH (i + 1) s e HI Hok) as (fuel & s' & e' & Hf & HI' & Hok'); [|lia|].
      { apply Hskip. intros (c' & [Hc' Hn] & _). by simplify_eq. }
      exists (S fuel), s', e'. split; [|done]. intros [|m] Hm; [lia|]. cbn [timer_loop].
      rewrite (proj2 (Z.leb_le _ _) Hle). unfold mbind, outcome_bind. rewrite (at_Some_Z _ _ _ Hi Hc), E.
      apply Hf. lia. }
  assert (Ht : tm (timer_contexts_ e) (Z.to_nat i) c) by (split; [done|by rewrite E]).
  assert (Hlt : timespec_lt (when_ c) now = (ns (when_ c) <? ns now)).
  { apply timespec_lt_ns; [by eapply (tk_norm _ (ok_timers _ Hok))|done]. }
  destruct (Z.ltb_spec (ns (when_ c)) (ns now)) as [Hdue|Hndue].
  - destruct (timer_call s e (Z.to_nat i) c f HI Hok Ht E) as (s1 & e1 & Hrun & Hruns & HI1).
    rewrite Z2Nat.id in Hrun by done.
    destruct (runs_keep _ _ _ _ Hruns now_ok Hok) as (Hok1 & _ & _ & Hold & Hself).
    destruct (del_timer_correct _ c e1 (ok_timers _ Hok1) (Hself _ _ eq_refl Ht)) as (e2 & Hdel & Htm2 & Hin).
    assert (Hok2 : ok e2).
    { split; [|done]. destruct (del_timer_rest _ _ _ Hdel) as (_ & _ & -> & ->). apply Hok1. }
    destruct (IH (i + 1) s1 e2 (HI1 _ Hdel) Hok2) as (fuel & s' & e' & Hf & HI' & Hok'); [|lia|].
    { intros k (c' & Hc' & Hd'). apply Hin in Hc' as [Hne Hc'].
      assert (Hk : due e k) by (exists c'; split; [by apply Hold|done]).
      pose proof (Hno k Hk). lia. }
    rewrite Z2Nat.id in Hdel by done.
    exists (S fuel), s', e'. split; [|done]. intros [|m] Hm; [lia|]. cbn [timer_loop].
    rewrite (proj2 (Z.leb_le _ _) Hle). unfold mbind, outcome_bind.
    rewrite (at_Some_Z _ _ _ Hi Hc), E, Hlt, Hrun, Hdel. apply Hf. lia.
  - destruct (IH (i + 1) s e HI Hok) as (fuel & s' & e' & Hf & HI' & Hok'); [|lia|].
    { apply Hskip. intros (c' & [Hc' _] & Hd). simplify_eq. lia. }
    exists (S fuel), s', e'. split; [|done]. intros [|m] Hm; [lia|]. cbn [timer_loop].
    rewrite (proj2 (Z.leb_le _ _) Hle). unfold mbind, outcome_bind.
    rewrite (at_Some_Z _ _ _ Hi Hc), E, Hlt. apply Hf. lia.
Qed.

Lemma closed_loop_more n m s e r :
  closed_loop run os_close n s e = Ret r -> (n <= m)%nat -> closed_loop run os_close m s e = Ret r.
Proof.
  revert m s e. induction n as [|n IH]; intros m s e; cbn [closed_loop].
  - intros H _. destruct m; cbn [closed_loop]; by destruct (closed_context_fds_ e).
  - intros H Hm. destruct m as [|m]; [lia|]. cbn [closed_loop].
    destruct (closed_context_fds_ e) as [|fd l]; [done|].
    apply outcome_bind_Ret in H as ([s1 e1] & Hd & H). unfold mbind, outcome_bind. rewrite Hd.
    apply IH; [done|lia].
Qed.

(** C9. A round of the event loop dispatches safely: when the file descriptors whose
    closing was missed have been cleaned up (there are none, or their callbacks have
    returned) and every event of this round is then on a distinct file descriptor that is
    still registered, every event is passed to a callback that is registered at that
    moment, whatever the callbacks before it have removed or added, the round ends, no
    timer that was due is left, and the number of registered file descriptors and the
    table of timers are in order.  The condition matters: [closed_context_stale_event] is
    a round in which the clean-up removes a file descriptor that has an event. *)
Theorem process_all_events_returns s e n s1 e1 :
  closed_loop run os_close n s e = Ret (s1, e1) -> I s1 e1 -> ok e1 ->
  live (set_events (events_ e1) (event_count_ e1) (-1) e1) ->
  exists fuel s' e', process_all_events run os_close fuel now s e = Ret (s', e') /\ I s' e' /\ ok e' /\
    forall k, ~ due e' k.
Proof.
  intros Hcl HI Hok Hlive. set (e0 := set_events (events_ e1) (event_count_ e1) 0 e1).
  assert (HI0 : I s1 e0) by (by apply I_events).
  assert (Hok0 : ok e0) by (by apply ok_set_events).
  destruct (event_loop_returns (Z.to_nat (event_count_ e1)) s1 e0 HI0 Hok0 Hlive)
    as (s2 & e2 & He & HI2 & Hok2); [cbn; lia|cbn; lia|].
  destruct (timer_loop_returns (length (timer_contexts_ e2)) 0 s2 e2 HI2 Hok2)
    as (ft & s3 & e3 & Ht & HI3 & Hok3 & Hdue); [|lia|].
  { intros k (c & [Hc%lookup_lt_Some _] & _). lia. }
  set (fuel := (n + Z.to_nat (event_count_ e1) + ft)%nat). exists fuel. unfold process_all_events.
  unfold mbind, outcome_bind. rewrite (closed_loop_more _ fuel _ _ _ Hcl) by lia. fold e0.
  rewrite (event_loop_more _ fuel _ _ _ He) by lia.
  destruct (Z.leb_spec 0 (largest_timer_id_ e2)) as [Hle|Hgt].
  - exists s3, e3. by rewrite Ht by lia.
  - exists s2, e2. split_and!; [done..|]. intros k (c & Hc & _).
    pose proof (tk_top _ (ok_timers _ Hok2) k c Hc). lia.
Qed.

End Round.

(** The timers are a table from ids to timers: [add_timer()] takes an id that is not in
    use and adds exactly the new timer, due [ms] milliseconds from now; [del_timer()] removes
    exactly the given one; neither fails, and the bound of the used ids and the id of the
    earliest timer stay right. *)
Theorem timer_table e :
  timers_ok e ->
  (forall now ms f d, ts_ok now -> 0 <= ms ->
     exists e' id new, add_timer now ms f d e = Ret (e', Z.of_nat id) /\ timers_ok e' /\
       t_callback new = Some f /\ t_user_data new = d /\
       ns (when_ new) = ns now + ms * (1000 * 1000) /\
       (forall c, ~ tm (timer_contexts_ e) id c) /\
       forall i c, tm (timer_contexts_ e') i c <-> (i = id /\ c = new) \/ tm (timer_contexts_ e) i c) /\
  (forall id c, tm (timer_contexts_ e) id c ->
     exists e', del_timer (Z.of_nat id) e = Ret e' /\ timers_ok e' /\
       forall i c', tm (timer_contexts_ e') i c' <-> i <> id /\ tm (timer_contexts_ e) i c').
Proof.
  intros Hok. split.
  - intros now ms f d Hnow Hms. destruct (add_timer_correct now ms f d e Hok Hnow Hms) as (e' & id & H).
    exists e', id. eexists. destruct H as (H1 & H2 & H3 & H4). split_and!; [done|done|..|done|exact H4]; try done.
    cbn. rewrite timespecadd_ns. by rewrite (proj2 (delay_ok ms Hms)).
  - intros id c Hc. by apply (del_timer_correct id c).
Qed.

Lemma is_added_fd_spec fd e : 0 <= fd ->
  exists b, is_added_fd fd e = Ret b /\ (b = true <-> added (fd_contexts_ e) fd).
Proof.
  intros Hfd. unfold is_added_fd. destruct (Z.ltb_spec fd (size (fd_contexts_ e))) as [Hlt|Hge]; unfold size in *.
  - destruct (lookup_lt_is_Some_2 (fd_contexts_ e) (Z.to_nat fd)) as [c Hc]; [lia|].
    unfold mbind, outcome_bind. rewrite (at_Some_Z _ _ _ Hfd Hc). eexists; split; [done|].
    unfold added, is_null. split.
    + intros E. destruct (callback c) as [f|] eqn:Ef; [|done]. by exists c, f.
    + intros (c' & f & _ & Hc' & Hf). simplify_eq. by rewrite Hf.
  - exists false. split; [done|]. split; [done|]. intros (c & f & _ & Hc%lookup_lt_Some & _). lia.
Qed.

Lemma registered_pos l fd : added l fd -> (0 < registered l)%nat.
Proof.
  intros (c & f & _ & Hc & Hf). pose proof (registered_insert _ _ _ (mkFdContext None None) Hc) as H.
  rewrite Hf in H. cbn [is_null callback] in H. lia.
Qed.

Lemma del_fd_returns fd e : ok e -> added (fd_contexts_ e) fd -> exists e', del_fd fd e = Ret e'.
Proof.
  intros Hok Ha. pose proof (registered_pos _ _ Ha). destruct Ha as (c & f & Hfd & Hc & Hf).
  unfold del_fd. cbv zeta. pose proof (lookup_lt_Some _ _ _ Hc).
  assert (ensure_room_fd fd e = e) as ->.
  { unfold ensure_room_fd. rewrite (proj2 (Z.leb_gt _ _)); [done|]. unfold size. lia. }
  unfold mbind, outcome_bind. rewrite (at_Some_Z _ _ _ Hfd Hc), Hf. cbn [is_null negb assert].
  rewrite (ok_count _ Hok), (proj2 (Z.ltb_lt _ _)) by lia. eauto.
Qed.

Lemma maybe_del_fd_returns fd e : ok e -> 0 <= fd -> exists e', maybe_del_fd fd e = Ret e'.
Proof.
  intros Hok Hfd. unfold maybe_del_fd. destruct (is_added_fd_spec fd e Hfd) as (b & Hb & Hi).
  unfold mbind, outcome_bind. rewrite Hb. destruct b; [|eauto]. apply del_fd_returns; tauto.
Qed.

Lemma add_fd_returns fd f d e :
  0 <= fd -> ~ added (fd_contexts_ e) fd -> exists e', add_fd true fd f d e = Ret e'.
Proof.
  intros Hfd Hna. unfold add_fd. cbv zeta. set (e1 := ensure_room_fd fd e).
  assert (Hlt : (Z.to_nat fd < length (fd_contexts_ e1))%nat).
  { unfold e1, ensure_room_fd, size. case_match; cbn; [rewrite length_resize|]; lia. }
  destruct (lookup_lt_is_Some_2 _ _ Hlt) as [c Hc].
  unfold mbind, outcome_bind. rewrite (at_Some_Z _ _ _ Hfd Hc).
  assert (Hn : is_null (callback c) = true).
  { unfold is_null. destruct (callback c) as [g|] eqn:E; [|done]. destruct Hna.
    apply (proj2 (ensure_room_spec fd e)). by exists c, g. }
  rewrite Hn. cbn. eauto.
Qed.

(** Registering and removing keep the object in order. *)
Lemma add_fd_ok ctl fd f d e e' : add_fd ctl fd f d e = Ret e' -> ok e -> ok e'.
Proof. intros H. eapply (api_ok (mkTs 0 0) None); [by eapply api_add|done]. Qed.
Lemma del_fd_ok fd e e' : del_fd fd e = Ret e' -> ok e -> ok e'.
Proof. intros H. eapply (api_ok (mkTs 0 0) None); [by eapply api_del|done]. Qed.

Lemma no_timers e :
  timer_contexts_ e = [] -> largest_timer_id_ e = -1 -> next_timer_ e = -1 -> timers_ok e.
Proof.
  intros H1 H2 H3. assert (Hno : forall i c, ~ tm (timer_contexts_ e) i c) by (rewrite H1; by intros ? ? [? ?]).
  split; rewrite ?H2, ?H3; try lia.
  - by rewrite H1.
  - intros i c Hc. by destruct (Hno i c).
  - done.
  - intros i c Hc. by destruct (Hno i c).
Qed.

Lemma new_ok : ok new.
Proof. by split; [|apply no_timers]. Qed.

End Epoll.
Arguments t : clear implicits.
Arguments call : clear implicits.

(** * Examples *)

(** Callbacks that remove a given file descriptor, if it is registered. *)
Definition demo_run (c : call Z unit) (s : unit) (e : t Z unit) : outcome (unit * t Z unit) :=
  match c with
  | FdCall f _ _ _ | TimerCall f _ _ => e ← maybe_del_fd (Z.abs f) e; Ret (s, e)
  end.
Definition demo_now : timespec := mkTs 10 0.

(** Two file descriptors, the callback of each removing the other; events on both. *)
Definition demo_two : t Z unit :=
  mk 2 [mkFdContext None None; mkFdContext (Some 2) (Some tt); mkFdContext (Some 1) (Some tt)]
    [] [] (-1) (-1) [(1, 1); (2, 1)] 2 0.

Lemma demo_two_ok : ok demo_two.
Proof. by split; [|apply no_timers]. Qed.

Lemma demo_two_live : live (set_events (events_ demo_two) (event_count_ demo_two) (-1) demo_two).
Proof.
  split; cbn.
  - lia.
  - intros [|[|i]] fd ev Hi Hx _; cbn in Hx; simplify_eq.
    + by exists (mkFdContext (Some 2) (Some tt)), 2.
    + by exists (mkFdContext (Some 1) (Some tt)), 1.
  - intros [|[|i]] [|[|j]] fd ev ev' Hi Hj Hx Hy _; cbn in *; simplify_eq; done.
Qed.

Lemma demo_run_returns c now self e :
  ok e -> exists e', demo_run c tt e = Ret (tt, e') /\ runs now self e e'.
Proof.
  intros Hok. destruct c as [f ? ? ?|f ? ?];
    destruct (maybe_del_fd_returns (Z.abs f) e Hok ltac:(lia)) as [e' He];
    exists e'; cbn [demo_run]; unfold mbind, outcome_bind; rewrite He; (split; [done|]);
    apply rtc_once; by eapply api_maybe_del.
Qed.

Lemma process_all_events_returns_witness :
  exists fuel e', process_all_events demo_run (fun _ s => s) fuel demo_now tt demo_two = Ret (tt, e') /\ ok e'.
Proof.
  destruct (process_all_events_returns demo_run (fun _ s => s) (fun _ _ => True) demo_now)
    with (s := tt) (e := demo_two) (n := 0%nat) (s1 := tt) (e1 := demo_two)
    as (fuel & [] & e' & H & _ & Hok & _).
  - done.
  - intros [] e fd ev c f _ Hok _ _.
    destruct (demo_run_returns (FdCall f (callback_user_data c) fd ev) demo_now None e Hok) as (e' & H & Hr).
    exists tt, e'. split_and!; [done|done|]. by exists demo_now.
  - intros [] e i c f _ Hok _ _.
    destruct (demo_run_returns (TimerCall f (t_user_data c) (Z.of_nat i)) demo_now (Some i) e Hok) as (e' & H & Hr).
    exists tt, e'. by split_and!.
  - done.
  - vm_compute. reflexivity.
  - done.
  - exact demo_two_ok.
  - exact demo_two_live.
  - exists fuel, e'. by split.
Defined.

Lemma timer_table_witness :
  exists e' id, add_timer demo_now 100 0 (Some tt) demo_two = Ret (e', Z.of_nat id) /\ timers_ok e'.
Proof.
  destruct (timer_table demo_two (ok_timers _ demo_two_ok)) as [Hadd _].
  destruct (Hadd demo_now 100 0 (Some tt)) as (e' & id & new & H & Hok & _); [done|lia|].
  by exists e', id.
Defined.

(** A timer that is due after 1.5 milliseconds. *)
Definition demo_timer : t Z unit :=
  mk 0 [] [] [mkTimer (Some 1) None (mkTs 10 1500000)] 0 0 [] 0 0.

Lemma wait_bounds_witness : wait_for demo_now demo_timer = Ret (EpollWait 1) /\
  exists ms, wait_for demo_now demo_timer = Ret (EpollWait ms) /\
    forall i c, tm (timer_contexts_ demo_timer) i c -> ns demo_now + ms * (1000 * 1000) <= ns (when_ c).
Proof.
  assert (Htm : forall i c, tm (timer_contexts_ demo_timer) i c -> i = 0%nat /\ c = mkTimer (Some 1) None (mkTs 10 1500000)).
  { intros [|i] c [H _]; cbn in H; by simplify_eq. }
  split; [done|]. pose proof (wait_bounds demo_now demo_timer) as H.
  change (wait_for demo_now demo_timer) with (Ret (EpollWait 1)) in *.
  destruct H as [[? _]|(_ & H & _)]; [| | |done|].
  - split; cbn [largest_timer_id_ next_timer_ demo_timer]; try lia.
    + by cbn.
    + intros i c [-> _]%Htm. lia.
    + intros _. by exists (mkTimer (Some 1) None (mkTs 10 1500000)).
    + intros _. exists (mkTimer (Some 1) None (mkTs 10 1500000)). split; [done|]. intros i c [_ ->]%Htm. lia.
    + intros i c [_ ->]%Htm. unfold ts_ok. cbn. lia.
  - done.
  - by intros i c [_ ->]%Htm.
  - by exists 1.
Defined.

(** The state before a round in which file descriptor 1, which has been closed and reused,
    is still to be cleaned up while there is an event on file descriptor 2. *)
Definition demo_closed : outcome (t Z unit) :=
  e ← add_fd true 1 2 (Some tt) new;
  e ← add_fd true 2 1 (Some tt) e;
  '(e, _) ← remap_to_not_added_fd 3 1 e;
  wait demo_now (fun _ => Some [(2, 1)]) e.

(** Cleaning up closed file descriptors happens before [event_current_] is reset: a
    callback that removes a file descriptor there leaves its event in place, and the round
    then calls a callback that is gone. *)
Theorem closed_context_stale_event :
  exists e, demo_closed = Ret e /\ ok e /\
    live (set_events (events_ e) (event_count_ e) (-1) e) /\
    forall fuel, process_all_events demo_run (fun _ s => s) (S fuel) demo_now tt e = Abort.
Proof.
  eexists. split; [vm_compute; reflexivity|]. split; [by split; [|apply no_timers]|]. split.
  - split; cbn; [lia| |].
    + intros [|i] fd ev Hi Hx _; cbn in Hx; simplify_eq. by exists (mkFdContext (Some 1) (Some tt)), 1.
    + intros [|i] [|j] fd ev ev' Hi Hj Hx Hy _; cbn in *; simplify_eq; done.
  - by intros [|fuel].
Qed.

(** [remap_to_not_added_fd()] does not look for a free file descriptor: when [dup()]
    returns one that is still registered it gives up, although another [dup()] could
    return a free one. *)
Theorem remap_gives_no_fd :
  exists e : t Z unit, ok e /\ added (fd_contexts_ e) 1 /\ added (fd_contexts_ e) 2 /\
    remap_to_not_added_fd 2 1 e = Ret (e, -1) /\ is_added_fd 3 e = Ret false.
Proof.
  exists demo_two. split_and!; [exact demo_two_ok| | |done|done].
  - by exists (mkFdContext (Some 2) (Some tt)), 2.
  - by exists (mkFdContext (Some 1) (Some tt)), 1.
Qed.

End Epoll.
