(* ===== verification/Recorder.v ===== *)
(** [PipeRecorder] (src/firebuild/pipe_recorder.{h,cc}): recording of the data that an
    exec point's subtree writes to a pipe, in memory while it is small and in a backing
    file otherwise. *)

From stdpp Require Import base list option numbers gmap.
From Stdlib Require Import ZArith Lia.
From S2P Require Import Prelude Framing.

Local Open Scope Z_scope.

Module PipeRecorder.

(** What recorders depend on: the configured [max_inline_blob_size], and whether
    [realloc()] of a size and [mkstemp()] succeed.  Writing to a backing file succeeds. *)
Class RecorderEnv := {
  max_inline_blob_size : Z;
  realloc_ok : Z -> bool;
  mkstemp_ok : bool
}.

(** [fd_] is the contents of the backing file while it is open, [mem_buffer_] the
    allocated block, whose cells are [None] until they are written. *)
Record t := mk {
  fd_ : option (list Z);
  offset_ : Z;
  mem_buffer_ : option (list (option Z));
  mem_buffer_capacity_ : Z;
  use_memory_buffer_ : bool;
  deactivated_ : bool;
  abandoned_ : bool
}.

Definition new : t := mk None 0 None 0 true false false.

Definition set_fd (fd : option (list Z)) (r : t) : t :=
  mk fd (offset_ r) (mem_buffer_ r) (mem_buffer_capacity_ r) (use_memory_buffer_ r) (deactivated_ r) (abandoned_ r).
Definition set_offset (n : Z) (r : t) : t :=
  mk (fd_ r) n (mem_buffer_ r) (mem_buffer_capacity_ r) (use_memory_buffer_ r) (deactivated_ r) (abandoned_ r).
Definition set_mem (m : option (list (option Z))) (cap : Z) (r : t) : t :=
  mk (fd_ r) (offset_ r) m cap (use_memory_buffer_ r) (deactivated_ r) (abandoned_ r).
Definition set_use_memory_buffer (b : bool) (r : t) : t :=
  mk (fd_ r) (offset_ r) (mem_buffer_ r) (mem_buffer_capacity_ r) b (deactivated_ r) (abandoned_ r).
Definition set_deactivated (b : bool) (r : t) : t :=
  mk (fd_ r) (offset_ r) (mem_buffer_ r) (mem_buffer_capacity_ r) (use_memory_buffer_ r) b (abandoned_ r).
Definition set_abandoned (b : bool) (r : t) : t :=
  mk (fd_ r) (offset_ r) (mem_buffer_ r) (mem_buffer_capacity_ r) (use_memory_buffer_ r) (deactivated_ r) b.

(** Free the block, if there is one. *)
Definition free_mem (r : t) : t :=
  match mem_buffer_ r with Some _ => set_mem None 0 r | None => r end.

(** The first [n] bytes from [off] of a block; reading uninitialized ones is undefined. *)
Definition load (cells : list (option Z)) (off n : Z) : outcome (list Z) :=
  match mapM id (take (Z.to_nat n) (drop (Z.to_nat off) cells)) with
  | Some bytes => if Z.of_nat (length bytes) =? n then Ret bytes else Abort
  | None => Abort
  end.

(** A [shared_ptr<PipeRecorder>] is a key of the heap of recorders. *)
Abbreviation heap := (gmap nat t).

Section Operations.
Context `{RecorderEnv}.

Definition open_backing_file (r : t) : outcome t :=
  assert mkstemp_ok ≫= fun _ => Ret (set_fd (Some []) r).

(** The decision of [prepare_for_append()]: stay in memory, with room for the data? *)
Definition stay_in_memory (len : Z) (r : t) : t * bool :=
  if use_memory_buffer_ r then
    if offset_ r + len <=? max_inline_blob_size then
      let needed := offset_ r + len in
      if mem_buffer_capacity_ r <? needed then
        if realloc_ok needed
        then (set_mem (Some (resize (Z.to_nat needed) None (default [] (mem_buffer_ r)))) needed r, true)
        else (free_mem (set_use_memory_buffer false r), false)
      else (r, true)
    else (set_use_memory_buffer false r, false)
  else (r, false).

Definition prepare_for_append (len : Z) (r : t) : outcome (t * bool) :=
  assert (negb (deactivated_ r)) ≫= fun _ =>
  assert (negb (abandoned_ r)) ≫= fun _ =>
  assert (0 <? len) ≫= fun _ =>
  let '(r, stay) := stay_in_memory len r in
  if (stay : bool) then Ret (r, true)
  else
    match fd_ r with
    | Some _ => Ret (r, false)
    | None =>
        r ← open_backing_file r;
        match mem_buffer_ r with
        | Some cells =>
            if 0 <? offset_ r then
              bytes ← load cells 0 (offset_ r);
              Ret (set_mem None 0 (set_fd (Some bytes) r), false)
            else Ret (r, false)
        | None => Ret (r, false)
        end
    end.

(** Append [bytes] where [prepare_for_append()] said. *)
Definition append (bytes : list Z) (to_memory : bool) (r : t) : outcome t :=
  let len := Z.of_nat (length bytes) in
  r ← (if to_memory then
         match mem_buffer_ r with
         | Some cells =>
             cells ← LinearBuffer.write_at cells (offset_ r) (Some <$> bytes);
             Ret (set_mem (Some cells) (mem_buffer_capacity_ r) r)
         | None => Abort
         end
       else match fd_ r with Some file => Ret (set_fd (Some (file ++ bytes)) r) | None => Abort end);
  let r := set_offset (offset_ r + len) r in
  assert (0 <? offset_ r) ≫= fun _ => Ret r.

Definition add_data_from_buffer (buf : list Z) (r : t) : outcome t :=
  '(r, to_memory) ← prepare_for_append (Z.of_nat (length buf)) r;
  append buf to_memory r.

(** [read()] or [splice()] from the Unix pipe, whose contents are [pipe]; the result has
    the rest of them. *)
Definition add_data_from_unix_pipe (pipe : list Z) (len : Z) (r : t) : outcome (t * list Z) :=
  '(r, to_memory) ← prepare_for_append len r;
  let bytes := take (Z.to_nat len) pipe in
  assert (Z.of_nat (length bytes) =? len) ≫= fun _ =>
  r ← append bytes to_memory r;
  Ret (r, drop (Z.to_nat len) pipe).

(** [pread()] or [fb_copy_file_range()] from offset [off_in] of [file]. *)
Definition add_data_from_regular_fd (file : option (list Z)) (off_in len : Z) (r : t) : outcome t :=
  match file with
  | None => Abort
  | Some file =>
      '(r, to_memory) ← prepare_for_append len r;
      let bytes := take (Z.to_nat len) (drop (Z.to_nat off_in) file) in
      assert (Z.of_nat (length bytes) =? len) ≫= fun _ =>
      append bytes to_memory r
  end.

(** [store()].  [move_store_file] is the blob cache's operation, which takes the file and
    its size and answers with the key, if it succeeds.  The result is the return value and
    what is stored in the output parameters: nothing, inline data, or a key and size. *)
Inductive stored {Hash} := Empty | Inline (data : list Z) | Blob (key : Hash) (size : Z).
Arguments stored : clear implicits.

Definition store {Hash} (move_store_file : list Z -> Z -> option Hash) (r : t)
    : outcome (t * option (stored Hash)) :=
  assert (negb (deactivated_ r)) ≫= fun _ =>
  assert (negb (abandoned_ r)) ≫= fun _ =>
  if use_memory_buffer_ r && (0 <? offset_ r) then
    match mem_buffer_ r with
    | Some cells => bytes ← load cells 0 (offset_ r); Ret (set_abandoned true r, Some (Inline bytes))
    | None => Abort
    end
  else
    match fd_ r with
    | Some file =>
        Ret (set_abandoned true (set_fd None r),
             (fun key => Blob key (offset_ r)) <$> move_store_file file (offset_ r))
    | None => Ret (set_abandoned true r, Some Empty)
    end.

Definition abandon (r : t) : outcome t :=
  assert (negb (abandoned_ r)) ≫= fun _ => Ret (set_abandoned true (free_mem (set_fd None r))).

Definition deactivate (r : t) : outcome t :=
  assert (negb (deactivated_ r)) ≫= fun _ => Ret (set_deactivated true (free_mem (set_fd None r))).

(** ** Several recorders at once *)

Definition get (h : heap) (i : nat) : outcome t := match h !! i with Some r => Ret r | None => Abort end.

Fixpoint has_active_recorder (recorders : list nat) (h : heap) : outcome bool :=
  match recorders with
  | [] => Ret false
  | i :: recorders =>
      r ← get h i; if negb (deactivated_ r) then Ret true else has_active_recorder recorders h
  end.

(** Apply [f] to every recorder that is not deactivated, in order. *)
Fixpoint for_active (f : heap -> t -> outcome t) (recorders : list nat) (h : heap) : outcome heap :=
  match recorders with
  | [] => Ret h
  | i :: recorders =>
      r ← get h i;
      if negb (deactivated_ r) then r ← f h r; for_active f recorders (<[i := r]> h)
      else for_active f recorders h
  end.

Definition record_data_from_buffer (recorders : list nat) (buf : list Z) (h : heap) : outcome heap :=
  assert (0 <? Z.of_nat (length buf)) ≫= fun _ =>
  for_active (fun _ => add_data_from_buffer buf) recorders h.

(** The first active recorder and those behind it; there must be one. *)
Fixpoint first_active (recorders : list nat) (h : heap) : outcome (nat * list nat) :=
  match recorders with
  | [] => Abort
  | i :: recorders =>
      r ← get h i; if negb (deactivated_ r) then Ret (i, recorders) else first_active recorders h
  end.

(** The rest of the recorders copy from the buffer or the file of the first one. *)
Definition copy_from_first (first : nat) (offset len : Z) (h : heap) (r : t) : outcome t :=
  r1 ← get h first;
  if use_memory_buffer_ r1 then
    match mem_buffer_ r1 with
    | Some cells => bytes ← load cells (offset - len) len; add_data_from_buffer bytes r
    | None => Abort
    end
  else add_data_from_regular_fd (fd_ r1) (offset - len) len r.

Definition record_data_from_unix_pipe (recorders : list nat) (pipe : list Z) (len : Z) (h : heap)
    : outcome (heap * list Z) :=
  assert (0 <? len) ≫= fun _ =>
  '(first, rest) ← first_active recorders h;
  r ← get h first;
  '(r, pipe) ← add_data_from_unix_pipe pipe len r;
  h ← for_active (copy_from_first first (offset_ r) len) rest (<[first := r]> h);
  Ret (h, pipe).

Definition record_data_from_regular_fd (recorders : list nat) (file : option (list Z)) (len : Z) (h : heap)
    : outcome heap :=
  assert (0 <? len) ≫= fun _ =>
  for_active (fun _ => add_data_from_regular_fd file 0 len) recorders h.

(** * What a recorder holds *)

(** The block has [data] at its beginning. *)
Definition block_holds (r : t) (data : list Z) : Prop :=
  exists cells, mem_buffer_ r = Some cells /\ mem_buffer_capacity_ r = Z.of_nat (length cells) /\
    take (length data) cells = Some <$> data.

(** An active recorder that has recorded [data]: in memory up to the configured size, in
    the backing file otherwise. *)
Record records (r : t) (data : list Z) : Prop := {
  rc_active : deactivated_ r = false;
  rc_kept : abandoned_ r = false;
  rc_offset : offset_ r = Z.of_nat (length data);
  rc_where :
    if use_memory_buffer_ r then
      fd_ r = None /\
      ((mem_buffer_ r = None /\ mem_buffer_capacity_ r = 0 /\ data = []) \/
       (block_holds r data /\ data <> [] /\ Z.of_nat (length data) <= max_inline_blob_size))
    else fd_ r = Some data /\ mem_buffer_ r = None
}.

Lemma new_records : records new [].
Proof. split; cbn; auto. Qed.

Lemma block_length r data : block_holds r data -> Z.of_nat (length data) <= mem_buffer_capacity_ r.
Proof.
  intros (cells & _ & -> & Ht). apply (f_equal length) in Ht.
  rewrite length_take, length_fmap in Ht. lia.
Qed.

Lemma load_take cells (data : list Z) off n :
  0 <= off -> take (length data) cells = Some <$> data -> off + n = Z.of_nat (length data) -> 0 <= n ->
  load cells off n = Ret (drop (Z.to_nat off) data).
Proof.
  intros Ho Ht Hn Hn0. unfold load.
  assert (Hd : take (Z.to_nat n) (drop (Z.to_nat off) cells) = Some <$> drop (Z.to_nat off) data).
  { rewrite fmap_drop, <- Ht, skipn_firstn_comm. f_equal. lia. }
  rewrite Hd, Frame.mapM_Some, length_drop.
  by rewrite (proj2 (Z.eqb_eq _ _)) by lia.
Qed.

(** Where [prepare_for_append(len)] has made room. *)
Definition ready (r : t) (data : list Z) (len : Z) (to_memory : bool) : Prop :=
  if to_memory then
    deactivated_ r = false /\ abandoned_ r = false /\ offset_ r = Z.of_nat (length data) /\
    use_memory_buffer_ r = true /\ fd_ r = None /\ block_holds r data /\
    offset_ r + len <= mem_buffer_capacity_ r /\ offset_ r + len <= max_inline_blob_size
  else records r data /\ use_memory_buffer_ r = false.

Definition env_ok : Prop := mkstemp_ok = true /\ forall n, realloc_ok n = true.

Lemma open_file_ready r data len :
  env_ok -> deactivated_ r = false -> abandoned_ r = false -> offset_ r = Z.of_nat (length data) ->
  use_memory_buffer_ r = false -> fd_ r = None ->
  ((mem_buffer_ r = None /\ data = []) \/ (block_holds r data /\ data <> [])) ->
  exists r', (r ← open_backing_file r;
    match mem_buffer_ r with
    | Some cells =>
        if 0 <? offset_ r then
          bytes ← load cells 0 (offset_ r); Ret (set_mem None 0 (set_fd (Some bytes) r), false)
        else Ret (r, false)
    | None => Ret (r, false)
    end) = Ret (r', false) /\ ready r' data len false.
Proof.
  intros [Hm _] Hd Ha Ho Hu Hf Hw. unfold open_backing_file. rewrite Hm. cbn.
  destruct Hw as [[Hmem ->]|[(cells & Hmem & _ & Ht) Hne]]; rewrite Hmem.
  - eexists. split; [done|]. split; [|done]. split; cbn; rewrite ?Hu; done.
  - destruct (Z.ltb_spec 0 (offset_ r)) as [Hpos|Hz].
    + rewrite (load_take cells data 0 (offset_ r)) by (done || lia). cbn.
      eexists. split; [done|]. split; [|done]. split; cbn; rewrite ?Hu; done.
    + destruct data; [done|cbn in Ho; lia].
Qed.

Lemma prepare_ready len r data :
  env_ok -> records r data -> 0 < len ->
  exists r' b, prepare_for_append len r = Ret (r', b) /\ ready r' data len b.
Proof.
  intros Henv Hr Hlen. pose proof Hr as [Hd Ha Ho Hw]. unfold prepare_for_append, stay_in_memory.
  rewrite Hd, Ha, (proj2 (Z.ltb_lt _ _) Hlen). cbn [negb assert]. unfold mbind at 1 2 3, outcome_bind at 1 2 3.
  destruct (use_memory_buffer_ r) eqn:Hu.
  2:{ destruct Hw as [Hf Hmem]. rewrite Hf. eexists _, _. split; [done|]. by split. }
  destruct Hw as [Hf Hw]. destruct (Z.leb_spec (offset_ r + len) max_inline_blob_size) as [Hle|Hgt].
  - assert (Hroom : forall r', deactivated_ r' = false -> abandoned_ r' = false -> offset_ r' = offset_ r ->
      use_memory_buffer_ r' = true -> fd_ r' = None -> block_holds r' data ->
      offset_ r + len <= mem_buffer_capacity_ r' -> ready r' data len true).
    { intros r' ? ? Ho' ? ? ? ?. unfold ready. rewrite Ho'. by split_and!. }
    destruct (Z.ltb_spec (mem_buffer_capacity_ r) (offset_ r + len)) as [Hcap|Hcap].
    + rewrite (proj2 Henv). eexists _, _. split; [done|]. apply Hroom; cbn; try done.
      eexists. split; [done|]. cbn. rewrite length_resize. split; [lia|].
      destruct Hw as [(Hmem & _ & ->)|[(cells & Hmem & Hc & Ht) _]]; rewrite Hmem; [done|]. cbn.
      rewrite resize_ge by lia. pose proof (f_equal length Ht) as Hl.
      rewrite length_take, length_fmap in Hl. by rewrite take_app_le by lia.
    + eexists _, _. split; [done|]. apply Hroom; try done.
      destruct Hw as [(Hmem & Hc & ->)|[Hb _]]; [cbn in Ho; lia|done].
  - cbn [fd_ set_use_memory_buffer]. rewrite Hf.
    destruct (open_file_ready (set_use_memory_buffer false r) data len) as (r' & Hop & Hre); try done.
    { destruct Hw as [(? & ? & ?)|(Hb & Hne & ?)]; [by left|by right]. }
    by eexists _, _.
Qed.

Lemma append_records bytes b r data :
  ready r data (Z.of_nat (length bytes)) b -> bytes <> [] ->
  exists r', append bytes b r = Ret r' /\ records r' (data ++ bytes).
Proof.
  intros Hr Hne. assert (Hpos : (0 < length bytes)%nat) by (destruct bytes; cbn; [done|lia]).
  assert (Hne' : data ++ bytes <> []) by (by destruct data, bytes).
  unfold append. destruct b; cbn in Hr.
  - destruct Hr as (Hd & Ha & Ho & Hu & Hf & (cells & Hm & Hc & Ht) & Hcap & Hmax). rewrite Hm.
    pose proof (f_equal length Ht) as Hl. rewrite length_take, length_fmap in Hl.
    rewrite <- (take_drop (length data) cells), Ht, Ho.
    set (rest := drop (length data) cells) in *.
    assert (Hrest : length rest = (length cells - length data)%nat) by apply length_drop.
    rewrite <- (take_drop (length bytes) rest).
    replace (Z.of_nat (length data)) with (Z.of_nat (length (Some <$> data))) by (by rewrite length_fmap).
    rewrite LinearBuffer.write_at_app by (rewrite length_take, length_fmap; lia).
    unfold mbind, outcome_bind, assert. cbn [offset_ set_offset set_mem]. rewrite (proj2 (Z.ltb_lt _ _)) by lia.
    eexists. split; [done|]. split; cbn; rewrite ?Hu; try done; [rewrite length_app; lia|].
    split; [done|]. right. split_and!; [|done|rewrite length_app; lia].
    eexists. split; [done|]. cbn. rewrite app_assoc, <- fmap_app.
    split; [rewrite length_app, length_fmap, length_app, length_drop; lia|].
    by rewrite <- (length_fmap Some (data ++ bytes)), take_app_length.
  - destruct Hr as [[Hd Ha Ho Hw] Hu]. rewrite Hu in Hw. destruct Hw as [Hf Hm]. rewrite Hf.
    unfold mbind, outcome_bind, assert. cbn [offset_ set_offset set_fd]. rewrite (proj2 (Z.ltb_lt _ _)) by lia.
    eexists. split; [done|]. split; cbn; rewrite ?Hu; try done. rewrite length_app. lia.
Qed.

Lemma add_data_from_buffer_records buf r data :
  env_ok -> records r data -> buf <> [] ->
  exists r', add_data_from_buffer buf r = Ret r' /\ records r' (data ++ buf).
Proof.
  intros Henv Hr Hne. assert (0 < Z.of_nat (length buf)) by (destruct buf; cbn; [done|lia]).
  destruct (prepare_ready (Z.of_nat (length buf)) r data Henv Hr) as (r1 & b & Hp & Hready); [done|].
  unfold add_data_from_buffer, mbind, outcome_bind. rewrite Hp. by apply append_records.
Qed.

Lemma add_data_from_unix_pipe_records bytes rest r data :
  env_ok -> records r data -> bytes <> [] ->
  exists r', add_data_from_unix_pipe (bytes ++ rest) (Z.of_nat (length bytes)) r = Ret (r', rest) /\
    records r' (data ++ bytes).
Proof.
  intros Henv Hr Hne. assert (0 < Z.of_nat (length bytes)) by (destruct bytes; cbn; [done|lia]).
  destruct (prepare_ready (Z.of_nat (length bytes)) r data Henv Hr) as (r1 & b & Hp & Hready); [done|].
  destruct (append_records bytes b r1 data Hready Hne) as (r' & Ha & Hr').
  exists r'. split; [|done]. unfold add_data_from_unix_pipe, mbind, outcome_bind, assert.
  by rewrite Hp, Nat2Z.id, take_app_length, drop_app_length, Z.eqb_refl, Ha.
Qed.

Lemma add_data_from_regular_fd_records pre bytes post r data :
  env_ok -> records r data -> bytes <> [] ->
  exists r', add_data_from_regular_fd (Some (pre ++ bytes ++ post)) (Z.of_nat (length pre))
    (Z.of_nat (length bytes)) r = Ret r' /\ records r' (data ++ bytes).
Proof.
  intros Henv Hr Hne. assert (0 < Z.of_nat (length bytes)) by (destruct bytes; cbn; [done|lia]).
  destruct (prepare_ready (Z.of_nat (length bytes)) r data Henv Hr) as (r1 & b & Hp & Hready); [done|].
  destruct (append_records bytes b r1 data Hready Hne) as (r' & Ha & Hr').
  exists r'. split; [|done]. unfold add_data_from_regular_fd, mbind, outcome_bind, assert.
  by rewrite Hp, !Nat2Z.id, drop_app_length, take_app_length, Z.eqb_refl, Ha.
Qed.

(** What is stored of a recorder: nothing if it saw no data, the data itself if it is
    small, and otherwise what the blob cache makes of a file with the data. *)
Lemma store_records {Hash} (mv : list Z -> Z -> option Hash) r data :
  records r data ->
  exists r', abandoned_ r' = true /\ store mv r = Ret (r',
    if use_memory_buffer_ r then
      Some (match data with [] => Empty | _ => Inline data end)
    else (fun key => Blob key (Z.of_nat (length data))) <$> mv data (Z.of_nat (length data))).
Proof.
  intros [Hd Ha Ho Hw]. unfold store. rewrite Hd, Ha, Ho. cbn [negb assert].
  unfold mbind at 1 2, outcome_bind at 1 2.
  destruct (use_memory_buffer_ r) eqn:Hu; cbn [andb].
  - destruct Hw as [Hf [(Hm & _ & ->)|((cells & Hm & _ & Ht) & Hne & _)]].
    + cbn. rewrite Hf. eexists. split; [|reflexivity]. done.
    + destruct data as [|x data]; [done|]. set (l := x :: data) in *.
      rewrite (proj2 (Z.ltb_lt _ _)) by (cbn; lia). rewrite Hm.
      rewrite (load_take cells l 0) by (done || lia). eexists. split; [|reflexivity]. done.
  - destruct Hw as [Hf Hm]. rewrite Hf. eexists. split; [|reflexivity]. done.
Qed.

(** * Several recorders *)

(** The recorders of the heap: active ones with what they have recorded, and deactivated
    ones, which have no contents. *)
Definition contents (h : heap) (c : gmap nat (option (list Z))) : Prop :=
  forall i, match h !! i with
            | Some r => if deactivated_ r then c !! i = Some None
                        else exists data, c !! i = Some (Some data) /\ records r data
            | None => c !! i = None
            end.

(** [bytes] arrive at the given recorders. *)
Definition grow (recorders : list nat) (bytes : list Z) (i : nat) (o : option (list Z)) : option (list Z) :=
  if decide (i ∈ recorders) then option_map (fun data => data ++ bytes) o else o.
Definition arrive (recorders : list nat) (bytes : list Z) (c : gmap nat (option (list Z)))
    : gmap nat (option (list Z)) :=
  map_imap (fun i o => Some (grow recorders bytes i o)) c.

Lemma arrive_lookup recorders bytes c i :
  arrive recorders bytes c !! i =
  option_map (grow recorders bytes i) (c !! i).
Proof. unfold arrive. rewrite map_lookup_imap. by destruct (c !! i). Qed.

(** [f] appends [bytes] to an active recorder, on every heap that satisfies [P]. *)
Lemma for_active_contents (P : heap -> Prop) f bytes recorders h c :
  (forall h r data, P h -> records r data -> exists r', f h r = Ret r' /\ records r' (data ++ bytes)) ->
  (forall h i r, P h -> i ∈ recorders -> P (<[i := r]> h)) ->
  P h -> contents h c -> NoDup recorders -> (forall i, i ∈ recorders -> is_Some (c !! i)) ->
  exists h', for_active f recorders h = Ret h' /\ contents h' (arrive recorders bytes c) /\ P h'.
Proof.
  intros Hf. revert h c. induction recorders as [|i recorders IH]; intros h c HP Hh Hc Hnd Hin.
  { exists h. split; [done|]. split; [|done]. intros k. specialize (Hc k). rewrite arrive_lookup.
    destruct (h !! k) as [r|]; [|by rewrite Hc]. destruct (deactivated_ r); [by rewrite Hc|].
    destruct Hc as (data & -> & ?). eauto. }
  apply NoDup_cons in Hnd as [Hni Hnd]. cbn [for_active]. unfold get.
  destruct (Hin i ltac:(set_solver)) as [o Ho]. pose proof (Hc i) as Hci.
  destruct (h !! i) as [r|] eqn:Hri; [|by simplify_eq]. unfold mbind, outcome_bind.
  assert (Hskip : forall c', (forall k, k <> i -> c' !! k = c !! k) ->
    (c' !! i = option_map (option_map (fun data => data ++ bytes)) (c !! i)) ->
    arrive recorders bytes c' = arrive (i :: recorders) bytes c).
  { intros c' Hk Hi. apply map_eq. intros k. rewrite !arrive_lookup.
    destruct (decide (k = i)) as [->|Hne].
    - rewrite Hi. destruct (c !! i) as [o'|]; [|done]. cbn. unfold grow.
      rewrite decide_False by done. by rewrite decide_True by set_solver.
    - rewrite (Hk k Hne). destruct (c !! k); cbn; [|done]. unfold grow.
      by destruct (decide (k ∈ recorders)), (decide (k ∈ i :: recorders)); set_solver. }
  destruct (deactivated_ r) eqn:Hda; cbn [negb].
  - rewrite <- (Hskip c); [|done|by rewrite Hci].
    apply IH; try done; [intros; apply HP; [done|set_solver]|set_solver].
  - destruct Hci as (data & Hcd & Hrec). destruct (Hf h r data Hh Hrec) as (r' & Hfr & Hr').
    rewrite Hfr. rewrite <- (Hskip (<[i := Some (data ++ bytes)]> c));
      [|by intros; rewrite lookup_insert_ne by done|by rewrite lookup_insert_eq, Hcd].
    apply IH; try done.
    + intros; apply HP; [done|set_solver].
    + apply HP; [done|set_solver].
    + intros k. destruct (decide (k = i)) as [->|Hne].
      * rewrite !lookup_insert_eq; cbn; rewrite (rc_active _ _ Hr'). eauto.
      * rewrite !lookup_insert_ne by done. apply Hc.
    + intros k Hk. rewrite lookup_insert_ne by set_solver. apply Hin. set_solver.
Qed.

(** Some of the recorders is active. *)
Definition active_in (recorders : list nat) (c : gmap nat (option (list Z))) : Prop :=
  exists i data, i ∈ recorders /\ c !! i = Some (Some data).

Lemma contents_get h c i : contents h c -> is_Some (c !! i) ->
  exists r, get h i = Ret r /\ h !! i = Some r.
Proof. intros Hc [o Ho]. specialize (Hc i). unfold get. destruct (h !! i); [eauto|congruence]. Qed.

Lemma first_active_split recorders h c :
  contents h c -> (forall i, i ∈ recorders -> is_Some (c !! i)) -> active_in recorders c ->
  exists pre first rest r data, recorders = pre ++ first :: rest /\
    first_active recorders h = Ret (first, rest) /\
    (forall i, i ∈ pre -> c !! i = Some None) /\
    h !! first = Some r /\ c !! first = Some (Some data) /\ records r data.
Proof.
  intros Hc Hin Hact. induction recorders as [|i recorders IH].
  { destruct Hact as (? & ? & ?%elem_of_nil & _). done. }
  destruct (contents_get h c i Hc (Hin i ltac:(set_solver))) as (r & Hg & Hr).
  pose proof (Hc i) as Hci. rewrite Hr in Hci. cbn [first_active].
  unfold mbind, outcome_bind. rewrite Hg. destruct (deactivated_ r); cbn [negb].
  - destruct IH as (pre & first & rest & r1 & data & -> & Hf & Hpre & Hr1).
    + intros; apply Hin; set_solver.
    + destruct Hact as (k & data & [->|Hk]%elem_of_cons & Hd); [congruence|]. by exists k, data.
    + exists (i :: pre), first, rest, r1, data. split_and!; try done; try tauto.
      intros k [->|Hk]%elem_of_cons; auto.
  - destruct Hci as (data & ? & ?). exists [], i, recorders, r, data. split_and!; try done.
    intros k []%elem_of_nil.
Qed.

Lemma has_active_recorder_correct recorders h c :
  contents h c -> (forall i, i ∈ recorders -> is_Some (c !! i)) ->
  exists b, has_active_recorder recorders h = Ret b /\ (b = true <-> active_in recorders c).
Proof.
  intros Hc Hin. induction recorders as [|i recorders IH].
  { exists false. split; [done|]. split; [done|]. by intros (? & ? & []%elem_of_nil & _). }
  destruct (contents_get h c i Hc (Hin i ltac:(set_solver))) as (r & Hg & Hr).
  pose proof (Hc i) as Hci. rewrite Hr in Hci. cbn [has_active_recorder].
  unfold mbind, outcome_bind. rewrite Hg. destruct (deactivated_ r); cbn [negb].
  - destruct IH as (b & -> & Hb); [intros; apply Hin; set_solver|]. exists b. split; [done|].
    rewrite Hb. split; intros (k & data & Hk & Hd); exists k, data; split; try done; [set_solver|].
    apply elem_of_cons in Hk as [->|]; [congruence|done].
  - exists true. split; [done|]. split; [|done]. intros _. destruct Hci as (data & ? & _).
    exists i, data. split; [set_solver|done].
Qed.

Lemma record_data_from_buffer_correct recorders bytes h c :
  env_ok -> contents h c -> NoDup recorders -> (forall i, i ∈ recorders -> is_Some (c !! i)) -> bytes <> [] ->
  exists h', record_data_from_buffer recorders bytes h = Ret h' /\ contents h' (arrive recorders bytes c).
Proof.
  intros Henv Hc Hnd Hin Hne. assert (0 < Z.of_nat (length bytes)) by (destruct bytes; cbn; [done|lia]).
  destruct (for_active_contents (fun _ => True) (fun _ => add_data_from_buffer bytes) bytes recorders h c)
    as (h' & Hf & Hc' & _); try done.
  { intros _ r data _ Hr. by apply add_data_from_buffer_records. }
  exists h'. split; [|done]. unfold record_data_from_buffer. by rewrite (proj2 (Z.ltb_lt _ _)).
Qed.

Lemma record_data_from_regular_fd_correct recorders bytes h c :
  env_ok -> contents h c -> NoDup recorders -> (forall i, i ∈ recorders -> is_Some (c !! i)) -> bytes <> [] ->
  exists h', record_data_from_regular_fd recorders (Some bytes) (Z.of_nat (length bytes)) h = Ret h' /\
    contents h' (arrive recorders bytes c).
Proof.
  intros Henv Hc Hnd Hin Hne. assert (0 < Z.of_nat (length bytes)) by (destruct bytes; cbn; [done|lia]).
  destruct (for_active_contents (fun _ => True)
    (fun _ => add_data_from_regular_fd (Some bytes) 0 (Z.of_nat (length bytes))) bytes recorders h c)
    as (h' & Hf & Hc' & _); try done.
  { intros _ r data _ Hr. pose proof (add_data_from_regular_fd_records [] bytes [] r data Henv Hr Hne) as Ha.
    cbn [app length] in Ha. by rewrite app_nil_r in Ha. }
  exists h'. split; [|done]. unfold record_data_from_regular_fd. by rewrite (proj2 (Z.ltb_lt _ _)).
Qed.

(** Copying the last bytes of the first recorder. *)
Lemma copy_from_first_records first bytes r1 data1 h r data :
  env_ok -> h !! first = Some r1 -> records r1 (data1 ++ bytes) -> records r data -> bytes <> [] ->
  exists r', copy_from_first first (Z.of_nat (length (data1 ++ bytes))) (Z.of_nat (length bytes)) h r = Ret r' /\
    records r' (data ++ bytes).
Proof.
  intros Henv Hh Hr1 Hr Hne. unfold copy_from_first, get. rewrite Hh. unfold mbind at 1, outcome_bind at 1.
  pose proof Hr1 as [_ _ _ Hw]. rewrite length_app.
  replace (Z.of_nat (length data1 + length bytes) - Z.of_nat (length bytes)) with (Z.of_nat (length data1)) by lia.
  destruct (use_memory_buffer_ r1).
  - destruct Hw as [_ [(_ & _ & He)|((cells & Hm & _ & Ht) & _)]].
    { by destruct data1, bytes. }
    rewrite Hm. unfold mbind, outcome_bind.
    rewrite (load_take cells (data1 ++ bytes)) by (done || (rewrite ?length_app; lia)).
    rewrite Nat2Z.id, drop_app_length. by apply add_data_from_buffer_records.
  - destruct Hw as [-> _]. pose proof (add_data_from_regular_fd_records data1 bytes [] r data Henv Hr Hne) as Ha.
    by rewrite app_nil_r in Ha.
Qed.

Lemma arrive_skip recorders pre bytes (c : gmap nat (option (list Z))) :
  (forall i, i ∈ pre -> c !! i = Some None) -> arrive (pre ++ recorders) bytes c = arrive recorders bytes c.
Proof.
  intros Hpre. apply map_eq. intros k. rewrite !arrive_lookup. destruct (c !! k) as [o|] eqn:E; [|done].
  cbn. unfold grow. destruct (decide (k ∈ pre)) as [Hk|Hk].
  - rewrite (Hpre k Hk) in E. simplify_eq. by repeat case_decide.
  - f_equal. repeat case_decide; set_solver.
Qed.

Lemma arrive_first first rest bytes data (c : gmap nat (option (list Z))) :
  c !! first = Some (Some data) -> first ∉ rest ->
  arrive rest bytes (<[first := Some (data ++ bytes)]> c) = arrive (first :: rest) bytes c.
Proof.
  intros Hf Hn. apply map_eq. intros k. rewrite !arrive_lookup. unfold grow.
  destruct (decide (k = first)) as [->|Hne].
  - rewrite lookup_insert_eq, Hf. cbn. rewrite decide_False by done. by rewrite decide_True by set_solver.
  - rewrite lookup_insert_ne by done. destruct (c !! k); [|done]. cbn. f_equal. repeat case_decide; set_solver.
Qed.

Lemma record_data_from_unix_pipe_correct recorders bytes rest h c :
  env_ok -> contents h c -> NoDup recorders -> (forall i, i ∈ recorders -> is_Some (c !! i)) -> bytes <> [] ->
  active_in recorders c ->
  exists h', record_data_from_unix_pipe recorders (bytes ++ rest) (Z.of_nat (length bytes)) h = Ret (h', rest) /\
    contents h' (arrive recorders bytes c).
Proof.
  intros Henv Hc Hnd Hin Hne Hact. assert (0 < Z.of_nat (length bytes)) by (destruct bytes; cbn; [done|lia]).
  destruct (first_active_split recorders h c Hc Hin Hact)
    as (pre & first & others & r & data & -> & Hfa & Hpre & Hr & Hcf & Hrec).
  apply NoDup_app in Hnd as (_ & _ & [Hni Hnd]%NoDup_cons).
  destruct (add_data_from_unix_pipe_records bytes rest r data Henv Hrec Hne) as (r1 & Ha & Hr1).
  rewrite (arrive_skip _ _ _ _ Hpre), <- (arrive_first first others bytes data c Hcf Hni).
  destruct (for_active_contents (fun h => h !! first = Some r1)
    (copy_from_first first (offset_ r1) (Z.of_nat (length bytes))) bytes others (<[first := r1]> h)
    (<[first := Some (data ++ bytes)]> c)) as (h' & Hf & Hc' & _).
  - intros h0 r0 data0 Hh0 Hr0. rewrite (rc_offset _ _ Hr1). by apply (copy_from_first_records first bytes r1 data).
  - intros h0 i r0 Hh0 Hi. rewrite lookup_insert_ne; [done|]. intros ->. done.
  - by rewrite lookup_insert_eq.
  - intros k. destruct (decide (k = first)) as [->|Hk].
    + rewrite !lookup_insert_eq. rewrite (rc_active _ _ Hr1). eauto.
    + rewrite !lookup_insert_ne by done. apply Hc.
  - done.
  - intros k Hk. rewrite lookup_insert_ne by (intros ->; done). apply Hin. set_solver.
  - exists h'. split; [|done]. unfold record_data_from_unix_pipe, get, mbind, outcome_bind, assert.
    by rewrite (proj2 (Z.ltb_lt _ _)), Hfa, Hr, Ha, Hf by done.
Qed.

Lemma arrive_nil recorders (c : gmap nat (option (list Z))) : arrive recorders [] c = c.
Proof.
  apply map_eq. intros k. rewrite arrive_lookup. destruct (c !! k) as [o|]; [|done]. cbn. unfold grow.
  case_decide; [|done]. destruct o; cbn; [by rewrite app_nil_r|done].
Qed.

Lemma arrive_app recorders b1 b2 (c : gmap nat (option (list Z))) :
  arrive recorders b2 (arrive recorders b1 c) = arrive recorders (b1 ++ b2) c.
Proof.
  apply map_eq. intros k. rewrite !arrive_lookup. destruct (c !! k) as [o|]; [|done]. cbn. unfold grow.
  case_decide; [|done]. destruct o; cbn; [by rewrite app_assoc|done].
Qed.

Lemma arrive_inactive recorders bytes (c : gmap nat (option (list Z))) :
  ~ active_in recorders c -> arrive recorders bytes c = c.
Proof.
  intros Hn. apply map_eq. intros k. rewrite arrive_lookup. destruct (c !! k) as [o|] eqn:E; [|done].
  cbn. unfold grow. case_decide; [|done]. destruct o as [data|]; [|done]. destruct Hn. by exists k, data.
Qed.

Lemma arrive_is_Some recorders bytes (c : gmap nat (option (list Z))) i :
  is_Some (arrive recorders bytes c !! i) <-> is_Some (c !! i).
Proof. rewrite arrive_lookup. destruct (c !! i); cbn; split; intros [? ?]; eauto; done. Qed.

(** C10. All recorders of a pipe end record the same: data that arrives in memory, on a Unix
    pipe (from which it is consumed) or in a regular file is appended, exactly once and in
    full, to every recorder that is still active, whether that recorder keeps its data in
    memory or in a file or moves from one to the other, and to no other recorder; what is
    stored of a recorder in the end is what it recorded. *)
Theorem recorders_record recorders bytes h c :
  env_ok -> contents h c -> NoDup recorders -> (forall i, i ∈ recorders -> is_Some (c !! i)) -> bytes <> [] ->
  let len := Z.of_nat (length bytes) in
  (exists h', record_data_from_buffer recorders bytes h = Ret h' /\ contents h' (arrive recorders bytes c)) /\
  (exists h', record_data_from_regular_fd recorders (Some bytes) len h = Ret h' /\
     contents h' (arrive recorders bytes c)) /\
  (forall rest, active_in recorders c ->
     exists h', record_data_from_unix_pipe recorders (bytes ++ rest) len h = Ret (h', rest) /\
       contents h' (arrive recorders bytes c)) /\
  (forall i r data (move_store_file : list Z -> Z -> option nat),
     h !! i = Some r -> c !! i = Some (Some data) -> exists r', store move_store_file r = Ret (r',
       if use_memory_buffer_ r then Some (match data with [] => Empty | _ => Inline data end)
       else (fun key => Blob key (Z.of_nat (length data))) <$> move_store_file data (Z.of_nat (length data)))).
Proof.
  intros Henv Hc Hnd Hin Hne len. split_and!.
  - by apply record_data_from_buffer_correct.
  - by apply record_data_from_regular_fd_correct.
  - intros rest Hact. by apply record_data_from_unix_pipe_correct.
  - intros i r data mv Hr Hd. pose proof (Hc i) as Hci. rewrite Hr in Hci.
    destruct (deactivated_ r); [congruence|]. destruct Hci as (data' & Hd' & Hrec). simplify_eq.
    destruct (store_records mv r data Hrec) as (r' & _ & Hs). by exists r'.
Qed.

End Operations.

(** * Examples *)

Definition demo_env : RecorderEnv := {| max_inline_blob_size := 3; realloc_ok := fun _ => true; mkstemp_ok := true |}.

(** Recorder 0 is new, recorder 1 has been deactivated. *)
Definition demo_heap : heap := {[ 0%nat := new; 1%nat := set_deactivated true new ]}.

Lemma demo_contents : @contents demo_env demo_heap {[ 0%nat := Some []; 1%nat := None ]}.
Proof.
  intros i. unfold demo_heap. destruct (decide (i = 0%nat)) as [->|H0]; [|destruct (decide (i = 1%nat)) as [->|H1]].
  - rewrite !lookup_insert_eq. cbn. exists []. split; [done|]. apply new_records.
  - rewrite !lookup_insert_ne, !lookup_singleton_eq by done. done.
  - by rewrite !lookup_insert_ne, !lookup_singleton_ne by done.
Qed.

Lemma recorders_record_witness :
  exists h', @record_data_from_buffer demo_env [1; 0]%nat [7; 8; 9; 10] demo_heap = Ret h' /\
    @contents demo_env h' (arrive [1; 0]%nat [7; 8; 9; 10] {[ 0%nat := Some []; 1%nat := None ]}).
Proof.
  apply (@recorders_record demo_env [1; 0]%nat [7; 8; 9; 10] demo_heap {[ 0%nat := Some []; 1%nat := None ]}).
  - by split.
  - exact demo_contents.
  - vm_compute. repeat constructor; set_solver.
  - intros i [->|[->|[]%elem_of_nil]%elem_of_cons]%elem_of_cons; vm_compute; eauto.
  - done.
Defined.

(** A host that cannot allocate two bytes. *)
Definition small_env : RecorderEnv :=
  {| max_inline_blob_size := 4096; realloc_ok := fun n => n <? 2; mkstemp_ok := true |}.

(** When the block cannot be enlarged, [prepare_for_append()] frees it and moves on to a
    backing file without writing to it what was recorded before: the file starts with the
    new data, while [offset_] still counts the lost data. *)
Theorem realloc_failure_loses_data :
  exists r r', @records small_env r [7] /\ @add_data_from_buffer small_env [8] r = Ret r' /\
    fd_ r' = Some [8] /\ offset_ r' = 2 /\ mem_buffer_ r' = None.
Proof.
  exists (mk None 1 (Some [Some 7]) 1 true false false). eexists. split_and!; [|vm_compute; reflexivity|done..].
  split; cbn; try done. split; [done|]. right. split_and!; [|done|lia]. by exists [Some 7].
Qed.

End PipeRecorder.
