(* ===== verification/Pipes.v ===== *)
(** [Pipe] (src/firebuild/pipe.{h,cc}): a pipe of the intercepted processes that is routed
    through the supervisor, which forwards the data from the ends the processes write to
    (fd1) to the end they read from (fd0) and records it on the way. *)

From stdpp Require Import base list list_numbers option numbers gmap sets.
From Stdlib Require Import ZArith Lia.
From S2P Require Import Prelude Framing EventLoop Recorder.

Local Open Scope Z_scope.

Module Pipe.
Import Timespec.

(** ** Data *)

(** The functions a pipe registers as callbacks; the user data is the pipe. *)
Inductive cb := pipe_fd0_write | pipe_fd1_read | fd1_timeout | other_callback (n : nat).
Abbreviation epoll := (Epoll.t cb nat).

(** [file_fds] are [FileFD *]s, [recorders] keys of the heap of recorders. *)
Record pipe_end := mkEnd {
  pe_fd : Z;
  file_fds : gset nat;
  recorders : list nat
}.

Inductive pipe_op_result :=
| FB_PIPE_WOULDBLOCK | FB_PIPE_FD0_EPIPE | FB_PIPE_FD1_EOF | FB_PIPE_SUCCESS | FB_PIPE_FINISHED.

#[global] Instance pipe_op_result_eq_dec : EqDecision pipe_op_result.
Proof. solve_decision. Defined.

(** The object.  [ends] are the [pipe_end]s that have been allocated and not deleted, by
    address; the shared self pointers are set or not. *)
Record t := mkPipe {
  fd0_conn : Z;
  conn2fd1_ends : gmap Z nat;
  ffd2fd1_ends : gmap nat nat;
  ends : gmap nat pipe_end;
  proc2recorders : gmap nat (list nat);
  send_only_mode_ : bool;
  fd0_shared_ptr_generated_ : bool;
  fd1_shared_ptr_generated_ : bool;
  fd1_timeout_round_ : Z;
  buf_ : LinearBuffer.t;
  fd1_timeout_id_ : Z;
  fd0_ptrs_held_self_ptr_ : bool;
  fd1_ptrs_held_self_ptr_ : bool;
  shared_self_ptr_ : bool
}.

Definition set_fd0_conn (v : Z) (r : t) : t := mkPipe
  v (conn2fd1_ends r) (ffd2fd1_ends r) (ends r) (proc2recorders r) (send_only_mode_ r)
    (fd0_shared_ptr_generated_ r) (fd1_shared_ptr_generated_ r) (fd1_timeout_round_ r) (buf_
    r) (fd1_timeout_id_ r) (fd0_ptrs_held_self_ptr_ r) (fd1_ptrs_held_self_ptr_ r)
    (shared_self_ptr_ r).
Definition set_conn2fd1_ends (v : gmap Z nat) (r : t) : t := mkPipe
  (fd0_conn r) v (ffd2fd1_ends r) (ends r) (proc2recorders r) (send_only_mode_ r)
    (fd0_shared_ptr_generated_ r) (fd1_shared_ptr_generated_ r) (fd1_timeout_round_ r) (buf_
    r) (fd1_timeout_id_ r) (fd0_ptrs_held_self_ptr_ r) (fd1_ptrs_held_self_ptr_ r)
    (shared_self_ptr_ r).
Definition set_ffd2fd1_ends (v : gmap nat nat) (r : t) : t := mkPipe
  (fd0_conn r) (conn2fd1_ends r) v (ends r) (proc2recorders r) (send_only_mode_ r)
    (fd0_shared_ptr_generated_ r) (fd1_shared_ptr_generated_ r) (fd1_timeout_round_ r) (buf_
    r) (fd1_timeout_id_ r) (fd0_ptrs_held_self_ptr_ r) (fd1_ptrs_held_self_ptr_ r)
    (shared_self_ptr_ r).
Definition set_ends (v : gmap nat pipe_end) (r : t) : t := mkPipe
  (fd0_conn r) (conn2fd1_ends r) (ffd2fd1_ends r) v (proc2recorders r) (send_only_mode_ r)
    (fd0_shared_ptr_generated_ r) (fd1_shared_ptr_generated_ r) (fd1_timeout_round_ r) (buf_
    r) (fd1_timeout_id_ r) (fd0_ptrs_held_self_ptr_ r) (fd1_ptrs_held_self_ptr_ r)
    (shared_self_ptr_ r).
Definition set_proc2recorders (v : gmap nat (list nat)) (r : t) : t := mkPipe
  (fd0_conn r) (conn2fd1_ends r) (ffd2fd1_ends r) (ends r) v (send_only_mode_ r)
    (fd0_shared_ptr_generated_ r) (fd1_shared_ptr_generated_ r) (fd1_timeout_round_ r) (buf_
    r) (fd1_timeout_id_ r) (fd0_ptrs_held_self_ptr_ r) (fd1_ptrs_held_self_ptr_ r)
    (shared_self_ptr_ r).
Definition set_send_only_mode_ (v : bool) (r : t) : t := mkPipe
  (fd0_conn r) (conn2fd1_ends r) (ffd2fd1_ends r) (ends r) (proc2recorders r) v
    (fd0_shared_ptr_generated_ r) (fd1_shared_ptr_generated_ r) (fd1_timeout_round_ r) (buf_
    r) (fd1_timeout_id_ r) (fd0_ptrs_held_self_ptr_ r) (fd1_ptrs_held_self_ptr_ r)
    (shared_self_ptr_ r).
Definition set_fd0_shared_ptr_generated_ (v : bool) (r : t) : t := mkPipe
  (fd0_conn r) (conn2fd1_ends r) (ffd2fd1_ends r) (ends r) (proc2recorders r)
    (send_only_mode_ r) v (fd1_shared_ptr_generated_ r) (fd1_timeout_round_ r) (buf_ r)
    (fd1_timeout_id_ r) (fd0_ptrs_held_self_ptr_ r) (fd1_ptrs_held_self_ptr_ r)
    (shared_self_ptr_ r).
Definition set_fd1_shared_ptr_generated_ (v : bool) (r : t) : t := mkPipe
  (fd0_conn r) (conn2fd1_ends r) (ffd2fd1_ends r) (ends r) (proc2recorders r)
    (send_only_mode_ r) (fd0_shared_ptr_generated_ r) v (fd1_timeout_round_ r) (buf_ r)
    (fd1_timeout_id_ r) (fd0_ptrs_held_self_ptr_ r) (fd1_ptrs_held_self_ptr_ r)
    (shared_self_ptr_ r).
Definition set_fd1_timeout_round_ (v : Z) (r : t) : t := mkPipe
  (fd0_conn r) (conn2fd1_ends r) (ffd2fd1_ends r) (ends r) (proc2recorders r)
    (send_only_mode_ r) (fd0_shared_ptr_generated_ r) (fd1_shared_ptr_generated_ r) v (buf_
    r) (fd1_timeout_id_ r) (fd0_ptrs_held_self_ptr_ r) (fd1_ptrs_held_self_ptr_ r)
    (shared_self_ptr_ r).
Definition set_buf_ (v : LinearBuffer.t) (r : t) : t := mkPipe
  (fd0_conn r) (conn2fd1_ends r) (ffd2fd1_ends r) (ends r) (proc2recorders r)
    (send_only_mode_ r) (fd0_shared_ptr_generated_ r) (fd1_shared_ptr_generated_ r)
    (fd1_timeout_round_ r) v (fd1_timeout_id_ r) (fd0_ptrs_held_self_ptr_ r)
    (fd1_ptrs_held_self_ptr_ r) (shared_self_ptr_ r).
Definition set_fd1_timeout_id_ (v : Z) (r : t) : t := mkPipe
  (fd0_conn r) (conn2fd1_ends r) (ffd2fd1_ends r) (ends r) (proc2recorders r)
    (send_only_mode_ r) (fd0_shared_ptr_generated_ r) (fd1_shared_ptr_generated_ r)
    (fd1_timeout_round_ r) (buf_ r) v (fd0_ptrs_held_self_ptr_ r) (fd1_ptrs_held_self_ptr_
    r) (shared_self_ptr_ r).
Definition set_fd0_ptrs_held_self_ptr_ (v : bool) (r : t) : t := mkPipe
  (fd0_conn r) (conn2fd1_ends r) (ffd2fd1_ends r) (ends r) (proc2recorders r)
    (send_only_mode_ r) (fd0_shared_ptr_generated_ r) (fd1_shared_ptr_generated_ r)
    (fd1_timeout_round_ r) (buf_ r) (fd1_timeout_id_ r) v (fd1_ptrs_held_self_ptr_ r)
    (shared_self_ptr_ r).
Definition set_fd1_ptrs_held_self_ptr_ (v : bool) (r : t) : t := mkPipe
  (fd0_conn r) (conn2fd1_ends r) (ffd2fd1_ends r) (ends r) (proc2recorders r)
    (send_only_mode_ r) (fd0_shared_ptr_generated_ r) (fd1_shared_ptr_generated_ r)
    (fd1_timeout_round_ r) (buf_ r) (fd1_timeout_id_ r) (fd0_ptrs_held_self_ptr_ r) v
    (shared_self_ptr_ r).
Definition set_shared_self_ptr_ (v : bool) (r : t) : t := mkPipe
  (fd0_conn r) (conn2fd1_ends r) (ffd2fd1_ends r) (ends r) (proc2recorders r)
    (send_only_mode_ r) (fd0_shared_ptr_generated_ r) (fd1_shared_ptr_generated_ r)
    (fd1_timeout_round_ r) (buf_ r) (fd1_timeout_id_ r) (fd0_ptrs_held_self_ptr_ r)
    (fd1_ptrs_held_self_ptr_ r) v.

(** ** The kernel's side *)

(** What can be read from the connection of an fd1 end: the bytes that are there, those that
    arrive before each of the next calls, and what happens when there are no more. *)
Inductive ending := StillOpen | Eof | Broken (errno : Z).
Record stream := mkStream { avail : list Z; coming : list (list Z); at_end : ending }.

(** An answer to a write on fd0: at most [n] bytes are accepted, or an error. *)
Inductive accept := Accept (n : positive) | Refuse (errno : Z).

(** The other side of the file descriptors.  [sink] is what has been written to fd0;
    [accepts] are the answers of fd0 to the next writes ([EAGAIN] when there are no more),
    [dups] those of [dup()]. *)
Record kernel := mkKernel {
  streams : gmap Z stream;
  sink : list Z;
  accepts : list accept;
  dups : list Z;
  clock : timespec;
  closed_fds : list Z
}.

Definition set_streams (v : gmap Z stream) (r : kernel) : kernel := mkKernel
  v (sink r) (accepts r) (dups r) (clock r) (closed_fds r).
Definition set_sink (v : list Z) (r : kernel) : kernel := mkKernel
  (streams r) v (accepts r) (dups r) (clock r) (closed_fds r).
Definition set_accepts (v : list accept) (r : kernel) : kernel := mkKernel
  (streams r) (sink r) v (dups r) (clock r) (closed_fds r).
Definition set_dups (v : list Z) (r : kernel) : kernel := mkKernel
  (streams r) (sink r) (accepts r) v (clock r) (closed_fds r).
Definition set_clock (v : timespec) (r : kernel) : kernel := mkKernel
  (streams r) (sink r) (accepts r) (dups r) v (closed_fds r).
Definition set_closed_fds (v : list Z) (r : kernel) : kernel := mkKernel
  (streams r) (sink r) (accepts r) (dups r) (clock r) v.

(** The state the operations work on. *)
Record st := mkSt {
  pipe : t;
  ep : epoll;
  recs : PipeRecorder.heap;
  kern : kernel
}.

Definition set_pipe (v : t) (r : st) : st := mkSt
  v (ep r) (recs r) (kern r).
Definition set_ep (v : epoll) (r : st) : st := mkSt
  (pipe r) v (recs r) (kern r).
Definition set_recs (v : PipeRecorder.heap) (r : st) : st := mkSt
  (pipe r) (ep r) v (kern r).
Definition set_kern (v : kernel) (r : st) : st := mkSt
  (pipe r) (ep r) (recs r) v.

Definition EPIPE := 32.

Definition get_end (a : nat) (s : st) : outcome pipe_end :=
  match ends (pipe s) !! a with Some e => Ret e | None => Abort end.

Definition upd_pipe (f : t -> t) (s : st) : st := set_pipe (f (pipe s)) s.
Definition upd_kern (f : kernel -> kernel) (s : st) : st := set_kern (f (kern s)) s.

(** Call an operation of [Epoll]. *)
Definition with_epoll (f : epoll -> outcome epoll) (s : st) : outcome st :=
  e ← f (ep s); Ret (set_ep e s).

(** The next bytes arrive at [fd]. *)
Definition arrival (str : stream) : stream :=
  match coming str with
  | [] => str
  | more :: rest => mkStream (avail str ++ more) rest (at_end str)
  end.

Definition get_stream (fd : Z) (s : st) : outcome stream :=
  match streams (kern s) !! fd with Some str => Ret str | None => Abort end.
Definition put_stream (fd : Z) (str : stream) (s : st) : st :=
  upd_kern (fun k => set_streams (<[fd := str]> (streams k)) k) s.

(** The answer of fd0 to writing a non-empty list of bytes: how many are taken, or errno. *)
Definition write_fd0 (bytes : list Z) (s : st) : st * (Z + Z) :=
  match accepts (kern s) with
  | Accept n :: rest =>
      let k := Z.min (Zpos n) (Z.of_nat (length bytes)) in
      (upd_kern (fun x => set_accepts rest (set_sink (sink x ++ take (Z.to_nat k) bytes) x)) s, inl k)
  | Refuse errno :: rest => (upd_kern (set_accepts rest) s, inr errno)
  | [] => (s, inr Frame.EAGAIN)
  end.

(** [close(fd)]: what was not read is gone. *)
Definition close_fd (fd : Z) (s : st) : st :=
  upd_kern (fun k => set_streams (delete fd (streams k)) (set_closed_fds (closed_fds k ++ [fd]) k)) s.

(** [dup()] for [remap_to_not_added_fd()]. *)
Definition remap (fd : Z) (s : st) : outcome (st * Z) :=
  let '(d, rest) := match dups (kern s) with d :: rest => (d, rest) | [] => (-1, []) end in
  '(e, new_fd) ← Epoll.remap_to_not_added_fd d fd (ep s);
  Ret (upd_kern (set_dups rest) (set_ep e s), new_fd).

(** ** Operations *)

Section Operations.
Context `{PipeRecorder.RecorderEnv} (self : nat).

Definition finished (p : t) : bool := fd0_conn p =? -1.
Definition buffer_empty (p : t) : bool := LinearBuffer.length_ (buf_ p) =? 0.

Definition kFd1ReopenTimeoutMs := 100.

(** [epoll->add_fd(fd, ..., this)]. *)
Definition watch (fd : Z) (f : cb) (s : st) : outcome st :=
  with_epoll (Epoll.add_fd true fd f (Some self)) s.

Definition start_timer (s : st) : outcome st :=
  '(e, id) ← Epoll.add_timer (clock (kern s)) kFd1ReopenTimeoutMs fd1_timeout (Some self) (ep s);
  Ret (upd_pipe (set_fd1_timeout_id_ id) (set_ep e s)).

Definition stop_timer (s : st) : outcome st :=
  if 0 <=? fd1_timeout_id_ (pipe s) then
    s ← with_epoll (Epoll.del_timer (fd1_timeout_id_ (pipe s))) s;
    Ret (upd_pipe (set_fd1_timeout_id_ (-1)) s)
  else Ret s.

(** Apply [f] to each element in turn. *)
Fixpoint each {A} (f : A -> st -> outcome st) (l : list A) (s : st) : outcome st :=
  match l with [] => Ret s | x :: l => s ← f x s; each f l s end.

(** [set_send_only_mode(true)], when it was off. *)
Definition enter_send_only_mode (s : st) : outcome st :=
  s ← each (fun fd => with_epoll (Epoll.del_fd fd)) (fst <$> map_to_list (conn2fd1_ends (pipe s))) s;
  added ← Epoll.is_added_fd (fd0_conn (pipe s)) (ep s);
  s ← (if (added : bool) then
         '(s, fd) ← remap (fd0_conn (pipe s)) s; Ret (upd_pipe (set_fd0_conn fd) s)
       else Ret s);
  watch (fd0_conn (pipe s)) pipe_fd0_write s.

(** One fd1 end that is read from again; those whose number is still registered are
    remapped afterwards. *)
Definition resume_end (fd : Z) (sl : st * list Z) : outcome (st * list Z) :=
  let '(s, l) := sl in
  added ← Epoll.is_added_fd fd (ep s);
  if (added : bool) then Ret (s, l ++ [fd]) else s ← watch fd pipe_fd1_read s; Ret (s, l).

Fixpoint resume_ends (fds : list Z) (sl : st * list Z) : outcome (st * list Z) :=
  match fds with [] => Ret sl | fd :: fds => sl ← resume_end fd sl; resume_ends fds sl end.

Definition remap_end (fd : Z) (s : st) : outcome st :=
  match conn2fd1_ends (pipe s) !! fd with
  | None => Abort
  | Some a =>
      '(s, new_conn) ← remap fd s;
      let s := upd_pipe (fun p => set_conn2fd1_ends (<[new_conn := a]> (delete fd (conn2fd1_ends p))) p) s in
      watch new_conn pipe_fd1_read s
  end.

Definition leave_send_only_mode (s : st) : outcome st :=
  '(s, to_remap) ← resume_ends (fst <$> map_to_list (conn2fd1_ends (pipe s))) (s, []);
  s ← each remap_end to_remap s;
  with_epoll (Epoll.del_fd (fd0_conn (pipe s))) s.

Definition set_send_only_mode (mode : bool) (s : st) : outcome st :=
  assert (negb (finished (pipe s))) ≫= fun _ =>
  if Bool.eqb mode (send_only_mode_ (pipe s)) then Ret s
  else
    s ← (if mode then enter_send_only_mode s else leave_send_only_mode s);
    Ret (upd_pipe (set_send_only_mode_ mode) s).

(** The bytes in the buffer. *)
Definition buffered (p : t) : outcome (list Z) :=
  match mapM id (LinearBuffer.data (buf_ p)) with Some l => Ret l | None => Abort end.

(** One round of the loop of [send_buf()]; [None] means that all was sent or more can be. *)
Definition send_once (s : st) : outcome (st * option pipe_op_result) :=
  bytes ← buffered (pipe s);
  let '(s, sent) := write_fd0 bytes s in
  match sent with
  | inr errno =>
      if errno =? Frame.EAGAIN then
        s ← set_send_only_mode true s; Ret (s, Some FB_PIPE_WOULDBLOCK)
      else Ret (s, Some FB_PIPE_FD0_EPIPE)
  | inl n =>
      assert (0 <? n) ≫= fun _ =>
      b ← LinearBuffer.discard n (buf_ (pipe s));
      let s := upd_pipe (set_buf_ b) s in
      s ← (if buffer_empty (pipe s) && send_only_mode_ (pipe s) then set_send_only_mode false s else Ret s);
      Ret (s, None)
  end.

Fixpoint send_loop (fuel : nat) (s : st) : outcome (st * pipe_op_result) :=
  match fuel with
  | O => OutOfFuel
  | S fuel =>
      '(s, r) ← send_once s;
      match r with
      | Some r => Ret (s, r)
      | None => if buffer_empty (pipe s) then Ret (s, FB_PIPE_SUCCESS) else send_loop fuel s
      end
  end.

Definition send_buf (s : st) : outcome (st * pipe_op_result) :=
  assert (negb (finished (pipe s))) ≫= fun _ =>
  if buffer_empty (pipe s) then Ret (s, FB_PIPE_SUCCESS)
  else send_loop (S (Z.to_nat (LinearBuffer.length_ (buf_ (pipe s))))) s.

(** Close and delete one fd1 end of [finish()]. *)
Definition finish_end (fa : Z * nat) (s : st) : outcome st :=
  s ← with_epoll (Epoll.maybe_del_fd (fst fa)) s;
  get_end (snd fa) s ≫= fun _ =>
  Ret (upd_pipe (fun p => set_ends (delete (snd fa) (ends p)) p) (close_fd (fst fa) s)).

Fixpoint finish_send (fuel : nat) (s : st) : outcome st :=
  match fuel with
  | O => OutOfFuel
  | S fuel =>
      '(s, send_ret) ← send_buf s;
      if negb (buffer_empty (pipe s)) && bool_decide (send_ret = FB_PIPE_SUCCESS) then finish_send fuel s
      else Ret s
  end.

Definition finish (s : st) : outcome st :=
  if finished (pipe s) then assert (negb (shared_self_ptr_ (pipe s))) ≫= fun _ => Ret s
  else
    s ← each finish_end (map_to_list (conn2fd1_ends (pipe s))) s;
    let s := upd_pipe (fun p => set_ffd2fd1_ends ∅ (set_conn2fd1_ends ∅ p)) s in
    s ← finish_send 2 s;
    s ← with_epoll (Epoll.maybe_del_fd (fd0_conn (pipe s))) s;
    let s := upd_pipe (set_fd0_conn (-1)) (close_fd (fd0_conn (pipe s)) s) in
    s ← stop_timer s;
    Ret (upd_pipe (set_shared_self_ptr_ false) s).

Definition no_ends (p : t) : bool := bool_decide (conn2fd1_ends p = ∅).

Definition maybe_finish (s : st) : outcome st :=
  if negb (finished (pipe s)) && no_ends (pipe s) then
    if buffer_empty (pipe s) then finish s else set_send_only_mode true s
  else Ret s.

(** [Fd0Deleter] and [Fd1Deleter]: the last reference of a side is gone. *)
Definition Fd0Deleter (s : st) : outcome st :=
  s ← maybe_finish s; Ret (upd_pipe (set_fd0_ptrs_held_self_ptr_ false) s).
Definition Fd1Deleter (s : st) : outcome st :=
  s ← maybe_finish s; Ret (upd_pipe (set_fd1_ptrs_held_self_ptr_ false) s).

Definition fd1_timeout_cb (s : st) : outcome st :=
  let s := upd_pipe (set_fd1_timeout_id_ (-1)) s in
  let s := upd_pipe (fun p => set_fd1_timeout_round_ ((fd1_timeout_round_ p + 1) mod 8) p) s in
  if 2 <=? fd1_timeout_round_ (pipe s) then finish s else start_timer s.

(** [Pipe(fd0_conn, creator)]. *)
Definition new (fd0 : Z) : t :=
  mkPipe fd0 ∅ ∅ ∅ ∅ false false false 0 LinearBuffer.new (-1) false false true.

Definition fd0_shared_ptr (s : st) : outcome st :=
  assert (negb (fd0_shared_ptr_generated_ (pipe s))) ≫= fun _ =>
  Ret (upd_pipe (fun p => set_fd0_shared_ptr_generated_ true
         (set_fd0_ptrs_held_self_ptr_ (shared_self_ptr_ p) p)) s).
Definition fd1_shared_ptr (s : st) : outcome st :=
  assert (negb (fd1_shared_ptr_generated_ (pipe s))) ≫= fun _ =>
  Ret (upd_pipe (fun p => set_fd1_shared_ptr_generated_ true
         (set_fd1_ptrs_held_self_ptr_ (shared_self_ptr_ p) p)) s).

(** The address of a new object. *)
Definition new_end_addr (p : t) : nat := fresh (dom (ends p)).

Definition add_fd1_and_proc (fd1_conn : Z) (file_fd proc : nat) (recorders : list nat) (s : st) : outcome st :=
  assert (negb (finished (pipe s))) ≫= fun _ =>
  s ← stop_timer s;
  let a := new_end_addr (pipe s) in
  let s := upd_pipe (fun p =>
             set_ends (<[a := mkEnd fd1_conn {[file_fd]} recorders]> (ends p))
               (set_conn2fd1_ends (<[fd1_conn := a]> (conn2fd1_ends p))
                  (set_ffd2fd1_ends (<[file_fd := a]> (ffd2fd1_ends p)) p))) s in
  s ← (if send_only_mode_ (pipe s) then Ret s else watch fd1_conn pipe_fd1_read s);
  Ret (upd_pipe (fun p => set_proc2recorders (<[proc := recorders]> (proc2recorders p)) p) s).

(** The pipe has lost its last fd1 end and all data was sent. *)
Definition wait_for_fd1 (s : st) : outcome st :=
  if negb (fd1_ptrs_held_self_ptr_ (pipe s)) then finish s
  else
    let s := upd_pipe (set_fd1_timeout_round_ 0) s in
    assert (fd1_timeout_id_ (pipe s) <? 0) ≫= fun _ => start_timer s.

(** [pipe_fd0_write_cb()]. *)
Definition pipe_fd0_write_cb (ready_for_write : bool) (s : st) : outcome st :=
  if negb ready_for_write then finish s
  else
    '(s, r) ← send_buf s;
    match r with
    | FB_PIPE_WOULDBLOCK => assert (send_only_mode_ (pipe s)) ≫= fun _ => Ret s
    | FB_PIPE_FD0_EPIPE => finish s
    | FB_PIPE_SUCCESS => if buffer_empty (pipe s) && no_ends (pipe s) then wait_for_fd1 s else Ret s
    | _ => Abort
    end.

Definition close_one_fd1 (fd : Z) (s : st) : outcome st :=
  match conn2fd1_ends (pipe s) !! fd with
  | None => Ret s
  | Some a =>
      fd1_end ← get_end a s;
      let s := upd_pipe (fun p =>
                 set_conn2fd1_ends (delete fd (conn2fd1_ends p))
                   (set_ffd2fd1_ends (filter (fun fa => fst fa ∉ file_fds fd1_end) (ffd2fd1_ends p)) p)) s in
      s ← with_epoll (Epoll.maybe_del_fd fd) s;
      let s := upd_pipe (fun p => set_ends (delete a (ends p)) p) (close_fd fd s) in
      if no_ends (pipe s) then
        if buffer_empty (pipe s) then wait_for_fd1 s else set_send_only_mode true s
      else Ret s
  end.

(** [tee()] from an fd1 end to fd0: how many bytes were duplicated. *)
Definition tee (fd1 : Z) (s : st) : outcome (st * Z) :=
  str ← get_stream fd1 s;
  let str := arrival str in
  let s := put_stream fd1 str s in
  match avail str with
  | [] => Ret (s, match at_end str with Eof => 0 | _ => -1 end)
  | bytes =>
      let '(s, r) := write_fd0 bytes s in
      Ret (s, match r with inl n => n | inr _ => -1 end)
  end.

(** [splice()] does the same and consumes the bytes. *)
Definition splice (fd1 : Z) (s : st) : outcome (st * Z) :=
  '(s, n) ← tee fd1 s;
  str ← get_stream fd1 s;
  Ret (if 0 <? n then put_stream fd1 (mkStream (drop (Z.to_nat n) (avail str)) (coming str) (at_end str)) s else s, n).

(** The inner loop of [forward()]: tee and record, or splice, as long as data moves. *)
Fixpoint fast_forward (fuel : nat) (fd1 : Z) (recs_of_end : list nat) (s : st) : outcome st :=
  match fuel with
  | O => OutOfFuel
  | S fuel =>
      active ← PipeRecorder.has_active_recorder recs_of_end (recs s);
      if (active : bool) then
        '(s, received) ← tee fd1 s;
        if received <=? 0 then Ret s
        else
          str ← get_stream fd1 s;
          '(h, rest) ← PipeRecorder.record_data_from_unix_pipe recs_of_end (avail str) received (recs s);
          fast_forward fuel fd1 recs_of_end
            (put_stream fd1 (mkStream rest (coming str) (at_end str)) (set_recs h s))
      else
        '(s, received) ← splice fd1 s;
        if received <=? 0 then Ret s else fast_forward fuel fd1 recs_of_end s
  end.

(** [buf_.read(fd1, -1)] of a connection: the new buffer, the count and errno. *)
Definition at_most (k : Z) (bytes : list Z) : list Z := take (Z.to_nat (Z.min (Z.max 0 k) 2147479552)) bytes.
Definition read_answer (str : stream) (bytes : list Z) (k : Z) : LinearBuffer.answer :=
  match bytes with
  | [] => match at_end str with StillOpen => inr Frame.EAGAIN | Eof => inl [] | Broken errno => inr errno end
  | _ => inl (at_most k bytes)
  end.
Definition first_attempt (b : LinearBuffer.t) : Z :=
  match LinearBuffer.ensure_space (8 * 1024) b with
  | Ret b => LinearBuffer.size_ b - LinearBuffer.data_start_offset_ b - LinearBuffer.length_ b
  | _ => 0
  end.
Definition read_errno (str : stream) : Z :=
  match at_end str with StillOpen => Frame.EAGAIN | Eof => 0 | Broken errno => errno end.

Definition read_fd1 (fd1 : Z) (s : st) : outcome (st * Z * Z) :=
  str ← get_stream fd1 s;
  let str := arrival str in
  let b := buf_ (pipe s) in
  let after := drop (Z.to_nat (first_attempt b)) (avail str) in
  '(b, received) ← LinearBuffer.read (read_answer str (avail str)) (Z.of_nat (length after))
                     (read_answer str after) (-1) b;
  let str' := mkStream (drop (Z.to_nat received) (avail str)) (coming str) (at_end str) in
  Ret (put_stream fd1 str' (upd_pipe (set_buf_ b) s), received, read_errno str).

(** The loop of [forward()]. *)
Fixpoint forward_loop (fuel : nat) (fd1 : Z) (recs_of_end : list nat) (drain : bool) (s : st)
    : outcome (st * pipe_op_result) :=
  match fuel with
  | O => OutOfFuel
  | S fuel =>
      s ← (if buffer_empty (pipe s) then fast_forward fuel fd1 recs_of_end s else Ret s);
      '(s, received, errno) ← read_fd1 fd1 s;
      if received =? -1 then
        '(s, send_ret) ← send_buf s;
        Ret (s, if errno =? Frame.EAGAIN then send_ret else FB_PIPE_FD1_EOF)
      else if received =? 0 then
        '(s, _) ← send_buf s; Ret (s, FB_PIPE_FD1_EOF)
      else
        bytes ← buffered (pipe s);
        let bufsize := Z.of_nat (length bytes) in
        assert (received <=? bufsize) ≫= fun _ =>
        h ← PipeRecorder.record_data_from_buffer recs_of_end (drop (Z.to_nat (bufsize - received)) bytes) (recs s);
        '(s, send_ret) ← send_buf (set_recs h s);
        if drain && negb (bool_decide (send_ret = FB_PIPE_FD0_EPIPE)) then
          forward_loop fuel fd1 recs_of_end drain s
        else if bool_decide (send_ret = FB_PIPE_FD0_EPIPE) || bool_decide (send_ret = FB_PIPE_SUCCESS) then
          Ret (s, send_ret)
        else
          assert (negb (no_ends (pipe s))) ≫= fun _ => Ret (s, FB_PIPE_WOULDBLOCK)
  end.

Definition forward (fuel : nat) (fd1 : Z) (drain : bool) (s : st) : outcome (st * pipe_op_result) :=
  if finished (pipe s) then Ret (s, FB_PIPE_FINISHED)
  else
    match conn2fd1_ends (pipe s) !! fd1 with
    | None => Abort
    | Some a => fd1_end ← get_end a s; forward_loop fuel fd1 (recorders fd1_end) drain s
    end.

(** [pipe_fd1_read_cb()]. *)
Definition pipe_fd1_read_cb (fuel : nat) (fd : Z) (ready_for_read : bool) (s : st) : outcome st :=
  if negb ready_for_read then close_one_fd1 fd s
  else
    '(s, result) ← forward fuel fd false s;
    match result with
    | FB_PIPE_WOULDBLOCK => assert (send_only_mode_ (pipe s)) ≫= fun _ => Ret s
    | FB_PIPE_FD0_EPIPE => finish s
    | FB_PIPE_FD1_EOF => close_one_fd1 fd s
    | FB_PIPE_SUCCESS => assert (negb (send_only_mode_ (pipe s))) ≫= fun _ => Ret s
    | FB_PIPE_FINISHED => Abort
    end.

(** Remove [file_fd] from the end at [a]. *)
Definition forget_file_fd (file_fd a : nat) (s : st) : outcome st :=
  fd1_end ← get_end a s;
  Ret (upd_pipe (fun p =>
         set_ends (<[a := mkEnd (pe_fd fd1_end) (file_fds fd1_end ∖ {[file_fd]}) (recorders fd1_end)]> (ends p))
           (set_ffd2fd1_ends (delete file_fd (ffd2fd1_ends p)) p)) s).

Definition drain_fd1_end (fuel : nat) (file_fd : nat) (s : st) : outcome st :=
  if finished (pipe s) then Ret s
  else
    match ffd2fd1_ends (pipe s) !! file_fd with
    | None => Ret s
    | Some a =>
        fd1_end ← get_end a s;
        let fd := pe_fd fd1_end in
        '(s, r) ← forward fuel fd true s;
        match r with
        | FB_PIPE_FD1_EOF => close_one_fd1 fd s
        | FB_PIPE_FD0_EPIPE => if 0 <=? fd0_conn (pipe s) then finish s else Ret s
        | _ => forget_file_fd file_fd a s
        end
    end.

Definition handle_close (fuel : nat) (file_fd : nat) (s : st) : outcome st :=
  match ffd2fd1_ends (pipe s) !! file_fd with
  | None => Ret s
  | Some a =>
      fd1_end ← get_end a s;
      if bool_decide (size (file_fds fd1_end) = 1%nat) then drain_fd1_end fuel file_fd s
      else forget_file_fd file_fd a s
  end.

Definition handle_dup (old_file_fd new_file_fd : nat) (s : st) : outcome st :=
  match ffd2fd1_ends (pipe s) !! old_file_fd with
  | None => Ret s
  | Some a =>
      fd1_end ← get_end a s;
      Ret (upd_pipe (fun p =>
             set_ends (<[a := mkEnd (pe_fd fd1_end) ({[new_file_fd]} ∪ file_fds fd1_end) (recorders fd1_end)]> (ends p))
               (set_ffd2fd1_ends (<[new_file_fd := a]> (ffd2fd1_ends p)) p)) s)
  end.

(** One pass of [drain()] over the table: whether the iteration must be restarted, or the
    pipe was finished. *)
Inductive pass_result := PassDone | PassRestart | PassFinished.

Fixpoint drain_pass (fuel : nat) (l : list (nat * nat)) (visited : gset Z) (s : st)
    : outcome (st * gset Z * pass_result) :=
  match l with
  | [] => Ret (s, visited, PassDone)
  | (_, a) :: l =>
      fd1_end ← get_end a s;
      let fd := pe_fd fd1_end in
      if bool_decide (fd ∈ visited) then drain_pass fuel l visited s
      else
        let visited := {[fd]} ∪ visited in
        '(s, r) ← forward fuel fd true s;
        match r with
        | FB_PIPE_FD1_EOF => s ← close_one_fd1 fd s; Ret (s, visited, PassRestart)
        | FB_PIPE_FD0_EPIPE =>
            if 0 <=? fd0_conn (pipe s) then s ← finish s; Ret (s, visited, PassFinished)
            else drain_pass fuel l visited s
        | _ => drain_pass fuel l visited s
        end
  end.

Fixpoint drain_loop (rounds fuel : nat) (visited : gset Z) (s : st) : outcome st :=
  match rounds with
  | O => OutOfFuel
  | S rounds =>
      '(s, visited, r) ← drain_pass fuel (map_to_list (ffd2fd1_ends (pipe s))) visited s;
      match r with PassRestart => drain_loop rounds fuel visited s | _ => Ret s end
  end.

Definition drain (fuel : nat) (s : st) : outcome st :=
  if finished (pipe s) then Ret s
  else drain_loop (S (size (conn2fd1_ends (pipe s)))) fuel ∅ s.

(** [add_data_from_fd(fd, len)]; [rd] is the answer of [read()] on the cached file. *)
Definition add_data_from_fd (rd : Z -> LinearBuffer.answer) (len : Z) (s : st) : outcome st :=
  if 0 <? len then
    '(b, _) ← LinearBuffer.read rd 0 (fun _ => inl []) len (buf_ (pipe s));
    '(s, _) ← send_buf (upd_pipe (set_buf_ b) s);
    Ret s
  else Ret s.

Definition add_data_from_buffer (data : list Z) (s : st) : outcome st :=
  match data with
  | [] => Ret s
  | _ =>
      b ← LinearBuffer.add data (buf_ (pipe s));
      '(s, _) ← send_buf (upd_pipe (set_buf_ b) s);
      Ret s
  end.

(** [~Pipe()]. *)
Definition destroy (s : st) : outcome st :=
  if 0 <=? fd1_timeout_id_ (pipe s) then with_epoll (Epoll.del_timer (fd1_timeout_id_ (pipe s))) s
  else Ret s.

(** * The state of an open pipe *)

Abbreviation added s := (Epoll.added (Epoll.fd_contexts_ (ep s))).

(** The tables: an fd1 end is found by its connection and by each of its FileFDs. *)
Definition ends_ok (p : t) : Prop :=
  (forall fd a, conn2fd1_ends p !! fd = Some a <-> exists e, ends p !! a = Some e /\ pe_fd e = fd) /\
  (forall f a, ffd2fd1_ends p !! f = Some a <-> exists e, ends p !! a = Some e /\ f ∈ file_fds e).

(** [b] is buffered and the recorders have recorded [c]; exactly the fd1 ends are watched,
    or exactly fd0 in send only mode. *)
Record good (s : st) (b : list Z) (c : gmap nat (option (list Z))) : Prop := {
  g_fd0 : 0 <= fd0_conn (pipe s);
  g_buf : LinearBuffer.holds (buf_ (pipe s)) b;
  g_ep : Epoll.ok (ep s);
  g_reg0 : added s (fd0_conn (pipe s)) <-> send_only_mode_ (pipe s) = true;
  g_reg1 : forall fd, is_Some (conn2fd1_ends (pipe s) !! fd) ->
    0 <= fd /\ fd <> fd0_conn (pipe s) /\ is_Some (streams (kern s) !! fd) /\
    (added s fd <-> send_only_mode_ (pipe s) = false);
  g_ends : ends_ok (pipe s);
  g_recs : PipeRecorder.contents (recs s) c;
  g_known : forall a e, ends (pipe s) !! a = Some e ->
    NoDup (recorders e) /\ forall i, i ∈ recorders e -> is_Some (c !! i);
  g_clock : ts_ok (clock (kern s));
  g_timer : 0 <= fd1_timeout_id_ (pipe s) ->
    exists tc, Epoll.tm (Epoll.timer_contexts_ (ep s)) (Z.to_nat (fd1_timeout_id_ (pipe s))) tc
}.

Lemma finished_false s b c : good s b c -> finished (pipe s) = false.
Proof. intros []. unfold finished. apply Z.eqb_neq. lia. Qed.

Lemma buffer_empty_nil s b c : good s b c -> buffer_empty (pipe s) = match b with [] => true | _ => false end.
Proof.
  intros [? Hb _ _ _ _ _ _ _ _]. unfold buffer_empty. rewrite (LinearBuffer.h_length _ _ Hb).
  destruct b; [done|]. apply Z.eqb_neq. cbn. lia.
Qed.

Lemma buffered_bytes s b c : good s b c -> buffered (pipe s) = Ret b.
Proof.
  intros [? Hb _ _ _ _ _ _ _ _]. unfold buffered. by rewrite (LinearBuffer.h_data _ _ Hb), Frame.mapM_Some.
Qed.

(** ** Registering with the event loop *)

Lemma each_del fds s :
  Epoll.ok (ep s) -> NoDup fds -> (forall fd, fd ∈ fds -> added s fd) ->
  exists e, each (fun fd => with_epoll (Epoll.del_fd fd)) fds s = Ret (set_ep e s) /\ Epoll.ok e /\
    Epoll.same_timers (ep s) e /\
    forall x, Epoll.added (Epoll.fd_contexts_ e) x <-> added s x /\ x ∉ fds.
Proof.
  revert s. induction fds as [|fd fds IH]; intros s Hok Hnd Hadd.
  { exists (ep s). split; [by destruct s|]. split_and!; [done|done|]. set_solver. }
  apply NoDup_cons in Hnd as [Hni Hnd].
  destruct (Epoll.del_fd_returns fd (ep s) Hok (Hadd fd ltac:(set_solver))) as [e1 He1].
  pose proof (Epoll.del_fd_ok _ _ _ He1 Hok) as Hok1.
  destruct (Epoll.del_fd_spec _ _ _ He1) as (_ & _ & _ & Ha1 & Ht1 & _ & _).
  destruct (IH (set_ep e1 s)) as (e & He & Hok2 & Ht2 & Ha2); [done|done| |].
  { intros x Hx. apply Ha1. split; [set_solver|]. apply Hadd. set_solver. }
  exists e. cbn [each]. unfold with_epoll, mbind, outcome_bind. rewrite He1. split; [exact He|].
  split; [done|]. split; [destruct Ht1 as (?&?&?), Ht2 as (?&?&?); cbn in *; split_and!; congruence|].
  intros x. rewrite Ha2. cbn. rewrite Ha1. set_solver.
Qed.

Lemma resume_ends_watch fds s :
  Epoll.ok (ep s) -> NoDup fds -> (forall fd, fd ∈ fds -> 0 <= fd /\ ~ added s fd) ->
  exists e, resume_ends fds (s, []) = Ret (set_ep e s, []) /\ Epoll.ok e /\
    Epoll.same_timers (ep s) e /\
    forall x, Epoll.added (Epoll.fd_contexts_ e) x <-> added s x \/ x ∈ fds.
Proof.
  revert s. induction fds as [|fd fds IH]; intros s Hok Hnd Hadd.
  { exists (ep s). split; [by destruct s|]. split_and!; [done|done|]. set_solver. }
  apply NoDup_cons in Hnd as [Hni Hnd]. destruct (Hadd fd ltac:(set_solver)) as [Hfd Hna].
  destruct (Epoll.is_added_fd_spec fd (ep s) Hfd) as (bb & Hbb & Hiff).
  assert (bb = false) as -> by (destruct bb; [by destruct Hna; apply Hiff|done]).
  destruct (Epoll.add_fd_returns fd pipe_fd1_read (Some self) (ep s) Hfd Hna) as [e1 He1].
  pose proof (Epoll.add_fd_ok _ _ _ _ _ _ He1 Hok) as Hok1.
  destruct (Epoll.add_fd_spec _ _ _ _ _ _ He1) as (_ & _ & _ & Ha1 & Ht1 & _ & _).
  destruct (IH (set_ep e1 s)) as (e & He & Hok2 & Ht2 & Ha2); [done|done| |].
  { intros x Hx. split; [apply Hadd; set_solver|]. intros [->|Hx2]%Ha1; [done|].
    apply (Hadd x); [set_solver|done]. }
  exists e. cbn [resume_ends resume_end]. unfold watch, with_epoll, mbind, outcome_bind. rewrite Hbb, He1.
  split; [exact He|]. split; [done|].
  split; [destruct Ht1 as (?&?&?), Ht2 as (?&?&?); cbn in *; split_and!; congruence|].
  intros x. rewrite Ha2. cbn. rewrite Ha1. set_solver.
Qed.

(** The state with another mode and the matching registrations. *)
Definition mode_set (m : bool) (e : epoll) (s : st) : st := upd_pipe (set_send_only_mode_ m) (set_ep e s).

Lemma mode_set_good m e s b c :
  good s b c -> Epoll.ok e -> Epoll.same_timers (ep s) e ->
  (Epoll.added (Epoll.fd_contexts_ e) (fd0_conn (pipe s)) <-> m = true) ->
  (forall fd, is_Some (conn2fd1_ends (pipe s) !! fd) -> Epoll.added (Epoll.fd_contexts_ e) fd <-> m = false) ->
  good (mode_set m e s) b c.
Proof.
  intros [? ? ? ? H1 ? ? ? ? Ht] Hok (Hs & _) H0 H1'.
  split; cbn; try done.
  - intros fd Hfd. destruct (H1 fd Hfd) as (? & ? & ? & _). split_and!; auto.
  - intros Hp. rewrite Hs. by apply Ht.
Qed.

Lemma conns_elem s fd : fd ∈ (fst <$> map_to_list (conn2fd1_ends (pipe s))) <-> is_Some (conn2fd1_ends (pipe s) !! fd).
Proof.
  rewrite list_elem_of_fmap. split.
  - intros ([fd' a] & -> & Hx%elem_of_map_to_list). eauto.
  - intros [a Ha]. exists (fd, a). split; [done|]. by apply elem_of_map_to_list.
Qed.

Lemma set_send_only_mode_good m s b c :
  good s b c -> exists e, set_send_only_mode m s = Ret (mode_set m e s) /\ good (mode_set m e s) b c /\
    Epoll.same_timers (ep s) e.
Proof.
  intros Hg. pose proof (finished_false _ _ _ Hg) as Hfin. pose proof Hg as [Hfd0 _ Hok Hr0 Hr1 _ _ _ _ _].
  unfold set_send_only_mode. rewrite Hfin. cbn [negb assert]. unfold mbind at 1, outcome_bind at 1.
  set (fds := fst <$> map_to_list (conn2fd1_ends (pipe s))).
  assert (Hnd : NoDup fds) by apply NoDup_fst_map_to_list.
  destruct (Bool.eqb_spec m (send_only_mode_ (pipe s))) as [->|Hm].
  { exists (ep s). assert (mode_set (send_only_mode_ (pipe s)) (ep s) s = s) as -> by (by destruct s as [[] ? ? ?]).
    by split_and!. }
  destruct m.
  - assert (Hoff : send_only_mode_ (pipe s) = false) by (by destruct (send_only_mode_ (pipe s))).
    destruct (each_del fds s Hok Hnd) as (e1 & He1 & Hok1 & Ht1 & Ha1).
    { intros fd Hfd%conns_elem. by apply (Hr1 fd Hfd). }
    unfold enter_send_only_mode. fold fds. unfold mbind, outcome_bind. rewrite He1. cbn [fd0_conn pipe set_ep ep].
    assert (Hn0 : ~ Epoll.added (Epoll.fd_contexts_ e1) (fd0_conn (pipe s))).
    { intros [Hx _]%Ha1. apply Hr0 in Hx. congruence. }
    destruct (Epoll.is_added_fd_spec (fd0_conn (pipe s)) e1 Hfd0) as (bb & -> & Hiff).
    assert (bb = false) as -> by (destruct bb; [by destruct Hn0; apply Hiff|done]).
    destruct (Epoll.add_fd_returns (fd0_conn (pipe s)) pipe_fd0_write (Some self) e1 Hfd0 Hn0) as [e2 He2].
    destruct (Epoll.add_fd_spec _ _ _ _ _ _ He2) as (_ & _ & _ & Ha2 & Ht2 & _ & _).
    exists e2. unfold watch, with_epoll, mbind, outcome_bind. cbn [fd0_conn pipe set_ep ep]. rewrite He2. split; [done|].
    assert (Ht : Epoll.same_timers (ep s) e2).
    { destruct Ht1 as (?&?&?), Ht2 as (?&?&?); split_and!; congruence. }
    split; [|done]. apply mode_set_good; try done; [by eapply Epoll.add_fd_ok|..].
    + split; [done|]. intros _. apply Ha2. by left.
    + intros fd Hfd. split; [|done]. intros [->|[_ Hx]%Ha1]%Ha2; [by destruct (Hr1 _ Hfd) as (_ & [] & _)|].
      destruct Hx. by apply conns_elem.
  - assert (Hon : send_only_mode_ (pipe s) = true) by (by destruct (send_only_mode_ (pipe s))).
    destruct (resume_ends_watch fds s Hok Hnd) as (e1 & He1 & Hok1 & Ht1 & Ha1).
    { intros fd Hfd%conns_elem. destruct (Hr1 fd Hfd) as (? & _ & _ & Hx). split; [done|].
      intros ?%Hx. congruence. }
    unfold leave_send_only_mode. fold fds. unfold mbind, outcome_bind. rewrite He1. cbn [each with_epoll fd0_conn pipe set_ep ep].
    destruct (Epoll.del_fd_returns (fd0_conn (pipe s)) e1 Hok1) as [e2 He2].
    { apply Ha1. left. by apply Hr0. }
    destruct (Epoll.del_fd_spec _ _ _ He2) as (_ & _ & _ & Ha2 & Ht2 & _ & _).
    exists e2. unfold with_epoll, mbind, outcome_bind. cbn [fd0_conn pipe set_ep ep]. rewrite He2. split; [done|].
    assert (Ht : Epoll.same_timers (ep s) e2).
    { destruct Ht1 as (?&?&?), Ht2 as (?&?&?); split_and!; congruence. }
    split; [|done]. apply mode_set_good; try done; [by eapply Epoll.del_fd_ok|..].
    + split; [|done]. by intros [Hx _]%Ha2.
    + intros fd Hfd. split; [done|]. intros _. apply Ha2. split; [by apply (Hr1 _ Hfd)|].
      apply Ha1. right. by apply conns_elem.
Qed.

(** ** Sending *)

(** [s'] differs from [s] in the mode, the buffer and what the outside has received. *)
Record framed (s s' : st) : Prop := {
  f_pipe : exists m bf, pipe s' = set_send_only_mode_ m (set_buf_ bf (pipe s));
  f_recs : recs s' = recs s;
  f_streams : streams (kern s') = streams (kern s);
  f_clock : clock (kern s') = clock (kern s);
  f_timers : Epoll.same_timers (ep s) (ep s')
}.

Lemma framed_refl s : framed s s.
Proof. split; try done. exists (send_only_mode_ (pipe s)), (buf_ (pipe s)). by destruct (pipe s). Qed.

Lemma framed_trans s1 s2 s3 : framed s1 s2 -> framed s2 s3 -> framed s1 s3.
Proof.
  intros [(m & bf & Hp) ? ? ? (?&?&?)] [(m' & bf' & Hp') ? ? ? (?&?&?)]. split; try congruence.
  - exists m', bf'. by rewrite Hp', Hp.
  - split_and!; congruence.
Qed.

Lemma framed_ends s s' : framed s s' ->
  conn2fd1_ends (pipe s') = conn2fd1_ends (pipe s) /\ ffd2fd1_ends (pipe s') = ffd2fd1_ends (pipe s) /\
  ends (pipe s') = ends (pipe s) /\ fd0_conn (pipe s') = fd0_conn (pipe s) /\
  fd1_timeout_id_ (pipe s') = fd1_timeout_id_ (pipe s) /\
  fd1_ptrs_held_self_ptr_ (pipe s') = fd1_ptrs_held_self_ptr_ (pipe s) /\
  shared_self_ptr_ (pipe s') = shared_self_ptr_ (pipe s).
Proof. intros [(m & bf & ->) _ _ _ _]. done. Qed.

Lemma good_kern k s b c :
  streams k = streams (kern s) -> clock k = clock (kern s) -> good s b c -> good (set_kern k s) b c.
Proof. intros Hs Hc [? ? ? ? ? ? ? ? ? ?]. split; cbn; rewrite ?Hs, ?Hc; done. Qed.

Lemma good_buf bf s b b' c : LinearBuffer.holds bf b' -> good s b c -> good (upd_pipe (set_buf_ bf) s) b' c.
Proof. intros Hb [? ? ? ? ? ? ? ? ? ?]. by split. Qed.

Lemma write_fd0_spec bytes s :
  bytes <> [] ->
  match write_fd0 bytes s with
  | (s', inl n) => 0 < n <= Z.of_nat (length bytes) /\
      exists k, s' = set_kern k s /\ streams k = streams (kern s) /\ clock k = clock (kern s) /\
        sink k = sink (kern s) ++ take (Z.to_nat n) bytes
  | (s', inr _) =>
      exists k, s' = set_kern k s /\ streams k = streams (kern s) /\ clock k = clock (kern s) /\
        sink k = sink (kern s)
  end.
Proof.
  intros Hne. assert (0 < Z.of_nat (length bytes)) by (destruct bytes; cbn; [done|lia]).
  unfold write_fd0. destruct (accepts (kern s)) as [|[n|errno] rest].
  - exists (kern s). by destruct s.
  - split; [lia|]. by eexists.
  - by eexists.
Qed.

Lemma send_once_spec s b c :
  good s b c -> b <> [] ->
  exists s' r sent rest, send_once s = Ret (s', r) /\ b = sent ++ rest /\ good s' rest c /\
    sink (kern s') = sink (kern s) ++ sent /\ framed s s' /\
    match r with
    | Some FB_PIPE_WOULDBLOCK => sent = [] /\ send_only_mode_ (pipe s') = true
    | Some FB_PIPE_FD0_EPIPE => sent = [] /\ send_only_mode_ (pipe s') = send_only_mode_ (pipe s)
    | None => sent <> [] /\ send_only_mode_ (pipe s') =
        match rest with [] => false | _ => send_only_mode_ (pipe s) end
    | _ => False
    end.
Proof.
  intros Hg Hne. unfold send_once, mbind, outcome_bind. rewrite (buffered_bytes _ _ _ Hg).
  pose proof (write_fd0_spec b s Hne) as Hw. destruct (write_fd0 b s) as [s1 [n|errno]].
  - destruct Hw as (Hn & k & -> & Hs & Hc & Hsink). rewrite (proj2 (Z.ltb_lt 0 n)) by lia. cbn [assert buf_ pipe set_kern].
    pose proof (LinearBuffer.discarded_holds _ _ n (g_buf _ _ _ Hg) ltac:(lia)) as Hd.
    rewrite (LinearBuffer.discard_holds _ b n (g_buf _ _ _ Hg)) by lia.
    rewrite (proj2 (Z.leb_le _ _)) by lia. set (bf := LinearBuffer.mk _ _ _ _) in *.
    set (s2 := upd_pipe (set_buf_ bf) (set_kern k s)).
    assert (Hg2 : good s2 (drop (Z.to_nat n) b) c) by (eapply good_buf; [done|]; by eapply good_kern).
    assert (Hf2 : framed s s2).
    { split; cbn; try done. exists (send_only_mode_ (pipe s)), bf. by destruct (pipe s). }
    assert (Hsent : take (Z.to_nat n) b <> []).
    { intros Ht%(f_equal length). rewrite length_take in Ht. cbn in Ht. lia. }
    rewrite (buffer_empty_nil _ _ _ Hg2).
    destruct (drop (Z.to_nat n) b) as [|x rest] eqn:Edrop; cbn [andb].
    + destruct (send_only_mode_ (pipe s2)) eqn:Em.
      * destruct (set_send_only_mode_good false s2 [] c Hg2) as (e & -> & Hg3 & Ht3).
        eexists _, None, (take (Z.to_nat n) b), []. split; [done|]. split; [by rewrite <- Edrop, take_drop|].
        split; [done|]. split; [done|]. split; [|done]. eapply framed_trans; [done|].
        split; try done. exists false, (buf_ (pipe s2)). by destruct s2 as [[] ? ? ?].
      * eexists s2, None, (take (Z.to_nat n) b), []. split; [done|]. split; [by rewrite <- Edrop, take_drop|].
        by split_and!.
    + eexists s2, None, (take (Z.to_nat n) b), (x :: rest). split; [done|].
      split; [by rewrite <- Edrop, take_drop|]. by split_and!.
  - destruct Hw as (k & -> & Hs & Hc & Hsink).
    assert (Hg1 : good (set_kern k s) b c) by (by apply good_kern).
    assert (Hf1 : framed s (set_kern k s)).
    { split; cbn; try done. exists (send_only_mode_ (pipe s)), (buf_ (pipe s)). by destruct (pipe s). }
    destruct (errno =? Frame.EAGAIN).
    + destruct (set_send_only_mode_good true _ b c Hg1) as (e & -> & Hg3 & Ht3).
      eexists _, (Some FB_PIPE_WOULDBLOCK), [], b. rewrite app_nil_r. split_and!; try done.
      eapply framed_trans; [done|]. split; try done. exists true, (buf_ (pipe s)). by destruct s as [[] ? ? ?].
    + eexists _, (Some FB_PIPE_FD0_EPIPE), [], b. rewrite app_nil_r. by split_and!.
Qed.

(** The result of sending: what is left, and in which mode. *)
Definition sent_ok (r : pipe_op_result) (rest : list Z) (mode : bool) : Prop :=
  match r with
  | FB_PIPE_SUCCESS => rest = [] /\ mode = false
  | FB_PIPE_WOULDBLOCK => rest <> [] /\ mode = true
  | FB_PIPE_FD0_EPIPE => rest <> []
  | _ => False
  end.

(** Send only mode is entered only with data to be sent. *)
Definition mode_ok (s : st) (b : list Z) : Prop := send_only_mode_ (pipe s) = true -> b <> [].

Lemma send_loop_spec fuel s b c :
  good s b c -> b <> [] -> (length b < fuel)%nat ->
  exists s' r sent rest, send_loop fuel s = Ret (s', r) /\ b = sent ++ rest /\ good s' rest c /\
    sink (kern s') = sink (kern s) ++ sent /\ framed s s' /\ sent_ok r rest (send_only_mode_ (pipe s')).
Proof.
  revert s b. induction fuel as [|fuel IH]; intros s b Hg Hne Hf; [lia|]. cbn [send_loop].
  destruct (send_once_spec s b c Hg Hne) as (s1 & r & sent & rest & He & -> & Hg1 & Hs1 & Hf1 & Hr).
  unfold mbind, outcome_bind. rewrite He. destruct r as [[]|]; try done.
  - destruct Hr as [-> Hm]. exists s1, FB_PIPE_WOULDBLOCK, [], rest. by split_and!.
  - destruct Hr as [-> Hm]. exists s1, FB_PIPE_FD0_EPIPE, [], rest. by split_and!.
  - destruct Hr as [Hsent Hm]. rewrite (buffer_empty_nil _ _ _ Hg1). destruct rest as [|x rest].
    + exists s1, FB_PIPE_SUCCESS, sent, []. by split_and!.
    + destruct (IH s1 (x :: rest) Hg1 ltac:(done)) as (s2 & r & sent2 & rest2 & He2 & Heq & Hg2 & Hs2 & Hf2 & Hr2).
      { rewrite length_app in Hf. destruct sent; [done|cbn in *; lia]. }
      exists s2, r, (sent ++ sent2), rest2. rewrite He2, Heq, <- app_assoc. split_and!; try done.
      * by rewrite Hs2, Hs1, app_assoc.
      * by eapply framed_trans.
Qed.

Lemma send_buf_spec s b c :
  good s b c -> mode_ok s b ->
  exists s' r sent rest, send_buf s = Ret (s', r) /\ b = sent ++ rest /\ good s' rest c /\
    sink (kern s') = sink (kern s) ++ sent /\ framed s s' /\ sent_ok r rest (send_only_mode_ (pipe s')) /\
    mode_ok s' rest.
Proof.
  intros Hg Hmode. unfold send_buf. rewrite (finished_false _ _ _ Hg). cbn [negb assert].
  unfold mbind, outcome_bind. rewrite (buffer_empty_nil _ _ _ Hg). destruct b as [|x b].
  - exists s, FB_PIPE_SUCCESS, [], []. split_and!; try done; [by rewrite app_nil_r|apply framed_refl|].
    split; [done|]. destruct (send_only_mode_ (pipe s)) eqn:E; [|done]. by destruct (Hmode E).
  - destruct (send_loop_spec (S (Z.to_nat (LinearBuffer.length_ (buf_ (pipe s))))) s (x :: b) c Hg)
      as (s' & r & sent & rest & He & Heq & Hg' & Hs & Hf & Hr).
    + done.
    + rewrite (LinearBuffer.h_length _ _ (g_buf _ _ _ Hg)). lia.
    + exists s', r, sent, rest. split_and!; try done.
      intros Hm. destruct r; try done; destruct Hr as [? ?]; try done. congruence.
Qed.

(** ** Receiving *)

(** All the bytes that are still to be read. *)
Definition total (str : stream) : list Z := avail str ++ concat (coming str).

Lemma total_arrival str : total (arrival str) = total str.
Proof. unfold total, arrival. destruct str as [a [|m l] e]; cbn; [done|]. by rewrite app_assoc. Qed.

(** Rounds that can still find data: every call consumes bytes or an arrival. *)
Definition pending (str : stream) : nat := length (total str) + length (coming str).

(** The first [read()] of the buffer asks for [k] bytes, and if it gets them the second
    asks for the rest: together they take a prefix of what is there. *)
Lemma transfer_prefix str b bytes a :
  LinearBuffer.holds b bytes -> Z.of_nat (length bytes) <= 2 ^ 59 -> a <> [] ->
  let after := drop (Z.to_nat (first_attempt b)) a in
  exists got rest, a = got ++ rest /\ got <> [] /\
    LinearBuffer.transfer (read_answer str a) (Z.of_nat (length after)) (read_answer str after) b = got.
Proof.
  intros Hb Hsz Hne. destruct (LinearBuffer.ensure_8k b bytes Hb Hsz) as (b1 & E1 & _ & Hk).
  unfold LinearBuffer.transfer, first_attempt. rewrite E1. cbv zeta.
  set (k := LinearBuffer.size_ b1 - _ - _) in *. unfold read_answer at 1.
  destruct a as [|x a0] eqn:Ea; [done|]. rewrite <- Ea in *. clear Hne.
  assert (Hr1 : at_most k a <> []).
  { intros Hx%(f_equal length). unfold at_most in Hx. rewrite length_take, Ea in Hx. cbn in Hx. lia. }
  assert (Hprefix : exists rest, a = at_most k a ++ rest).
  { exists (drop (Z.to_nat (Z.min (Z.max 0 k) 2147479552)) a). unfold at_most. by rewrite take_drop. }
  destruct Hprefix as [rest Hrest].
  destruct ((Z.of_nat (length (at_most k a)) <? k) || _ || _) eqn:E.
  { exists (at_most k a), rest. by split_and!. }
  apply orb_false_iff in E as [[E1' _]%orb_false_iff E3]. apply Z.ltb_ge in E1'.
  assert (Hfull : at_most k a = take (Z.to_nat k) a).
  { unfold at_most in E1' |- *. rewrite length_take in E1'. f_equal. lia. }
  rewrite Hfull. unfold read_answer. destruct (drop (Z.to_nat k) a) as [|y l] eqn:Ed.
  { destruct (at_end str); eexists (take (Z.to_nat k) a ++ []), []; rewrite ?app_nil_r; cycle 1.
    all: rewrite <- (take_drop (Z.to_nat k) a), Ed at 1; rewrite app_nil_r; by rewrite <- Hfull. }
  rewrite <- Ed in *. set (d := drop (Z.to_nat k) a) in *. 
  set (m := Z.to_nat (Z.min (Z.max 0 (Z.of_nat (length d))) 2147479552)).
  exists (take (Z.to_nat k) a ++ take m d), (drop m d).
  split_and!.
  - rewrite <- (take_drop (Z.to_nat k) a) at 1. fold d. rewrite <- (take_drop m d) at 1. by rewrite app_assoc.
  - rewrite <- Hfull. by destruct (at_most k a).
  - done.
Qed.

Lemma read_answer_honest str a : LinearBuffer.honest (read_answer str a).
Proof.
  intros k bytes. unfold read_answer. destruct a as [|x a].
  - destruct (at_end str); intros; simplify_eq. cbn. lia.
  - intros [= <-]. unfold at_most. rewrite length_take. lia.
Qed.

(** How a read ends: with bytes, at the end of the stream, or with nothing to read. *)
Definition read_end (n errno : Z) (got : list Z) (str : stream) : Prop :=
  (0 < n /\ got <> []) \/
  (n = 0 /\ got = [] /\ avail str = [] /\ at_end str = Eof) \/
  (n = -1 /\ got = [] /\ avail str = [] /\ at_end str <> Eof /\ errno = read_errno str).

Lemma good_stream fd1 str s b c : good s b c -> is_Some (conn2fd1_ends (pipe s) !! fd1) ->
  good (put_stream fd1 str s) b c.
Proof.
  intros [? ? ? ? H1 ? ? ? ? ?] Hfd. split; cbn; try done. intros fd Hx.
  destruct (H1 fd Hx) as (? & ? & [y Hy] & ?). split_and!; try done.
  destruct (decide (fd = fd1)) as [->|]; [rewrite lookup_insert_eq|rewrite lookup_insert_ne by done]; eauto.
Qed.

Lemma read_fd1_spec fd1 str s b c :
  good s b c -> is_Some (conn2fd1_ends (pipe s) !! fd1) -> streams (kern s) !! fd1 = Some str ->
  Z.of_nat (length b + length (total str)) <= 2 ^ 30 ->
  exists s' n errno got str', read_fd1 fd1 s = Ret (s', n, errno) /\ good s' (b ++ got) c /\
    (exists bf, s' = put_stream fd1 str' (upd_pipe (set_buf_ bf) s)) /\
    total str = got ++ total str' /\ (length (coming str') <= length (coming str))%nat /\
    n = (if decide (got = []) then n else Z.of_nat (length got)) /\ read_end n errno got str'.
Proof.
  intros Hg Hfd Hstr Hsz. unfold read_fd1, get_stream. rewrite Hstr. cbv zeta. unfold mbind, outcome_bind.
  assert (Hc : (length (coming (arrival str)) <= length (coming str))%nat).
  { unfold arrival. destruct str as [? [|? ?] ?]; cbn; lia. }
  pose proof (total_arrival str) as Htot. set (st1 := arrival str) in *.
  assert (Hl : (length (avail st1) <= length (total str))%nat).
  { rewrite <- Htot. unfold total. rewrite length_app. lia. }
  set (bf := buf_ (pipe s)). pose proof (g_buf _ _ _ Hg) as Hb. fold bf in Hb.
  destruct (avail st1) as [|x a0] eqn:Ea.
  - assert (Hn : exists n, n <= 0 /\ (forall k, LinearBuffer.count_of (read_answer st1 [] k) = n) /\
      read_end n (read_errno st1) [] (mkStream [] (coming st1) (at_end st1))).
    { unfold read_answer, read_end, read_errno. destruct (at_end st1); cbn;
        [exists (-1)|exists 0|exists (-1)]; (split; [lia|split; [done|]]); naive_solver. }
    destruct Hn as (n & Hn & Hcount & Hend).
    destruct (LinearBuffer.read_nothing (read_answer st1 []) (Z.of_nat (length (drop (Z.to_nat (first_attempt bf)) (@nil Z))))
      (read_answer st1 (drop (Z.to_nat (first_attempt bf)) [])) bf b n Hb ltac:(lia) Hn Hcount) as (bf' & Hr & Hh).
    rewrite Hr. eexists _, _, _, [], _. split; [done|]. rewrite app_nil_r. split.
    { apply good_stream; [by eapply good_buf|done]. }
    split; [by eexists|]. rewrite drop_nil. split; [by rewrite <- Htot; unfold total; rewrite Ea|].
    split; [done|]. by rewrite decide_True by done.
  - assert (Hne : avail st1 <> []) by (by rewrite Ea). rewrite <- Ea in *. clear Ea.
    destruct (transfer_prefix st1 bf b (avail st1) Hb ltac:(lia) Hne) as (got & rest & Ha & Hgot & Htr).
    set (after := drop _ _) in *.
    destruct (LinearBuffer.read_all_holds (read_answer st1 (avail st1)) (Z.of_nat (length after))
      (read_answer st1 after) bf b) as (bf' & n & Hr & Hh & Hdel); try apply read_answer_honest; try done; try lia.
    { unfold after. rewrite length_drop. lia. }
    rewrite Htr in Hh, Hdel. rewrite Hr.
    assert (Hn : n = Z.of_nat (length got)) by (destruct Hdel as [[_ ?]|[? _]]; done).
    eexists _, _, _, got, _. split; [done|]. split.
    { apply good_stream; [by eapply good_buf|done]. }
    split; [by eexists|]. split.
    { rewrite <- Htot. unfold total. cbn. rewrite app_assoc. f_equal. rewrite Hn, Nat2Z.id, Ha.
      by rewrite drop_app_length. }
    split; [done|]. rewrite decide_False by done. split; [done|]. left. split; [|done].
    destruct got; [done|cbn in Hn; lia].
Qed.

(** ** Forwarding *)

(** [s'] is [s] with other traffic, mode and registrations; the object's ends and timers
    are the same. *)
Record forwarded (s s' : st) : Prop := {
  w_pipe : exists m bf, pipe s' = set_send_only_mode_ m (set_buf_ bf (pipe s));
  w_clock : clock (kern s') = clock (kern s);
  w_timers : Epoll.same_timers (ep s) (ep s')
}.

Lemma forwarded_trans s1 s2 s3 : forwarded s1 s2 -> forwarded s2 s3 -> forwarded s1 s3.
Proof.
  intros [(m & bf & Hp) ? (?&?&?)] [(m' & bf' & Hp') ? (?&?&?)]. split; try congruence.
  - exists m', bf'. by rewrite Hp', Hp.
  - split_and!; congruence.
Qed.
Lemma framed_forwarded s s' : framed s s' -> forwarded s s'.
Proof. by intros []. Qed.
Lemma same_pipe_forwarded s s' :
  pipe s' = pipe s -> ep s' = ep s -> clock (kern s') = clock (kern s) -> forwarded s s'.
Proof.
  intros Hp He Hc. split; [|done|by rewrite He]. exists (send_only_mode_ (pipe s)), (buf_ (pipe s)).
  rewrite Hp. by destruct (pipe s).
Qed.

Lemma tee_spec fd1 str s :
  streams (kern s) !! fd1 = Some str ->
  let str1 := arrival str in
  exists k n, tee fd1 s = Ret (set_kern k s, n) /\ streams k = <[fd1 := str1]> (streams (kern s)) /\
    clock k = clock (kern s) /\ n <= Z.of_nat (length (avail str1)) /\
    sink k = sink (kern s) ++ take (Z.to_nat n) (avail str1).
Proof.
  intros Hstr. cbv zeta. unfold tee, get_stream. rewrite Hstr. unfold mbind, outcome_bind.
  set (str1 := arrival str). destruct (avail str1) as [|x l] eqn:Ea.
  - eexists _, _. split; [done|]. cbn. rewrite take_nil, app_nil_r. split_and!; try done.
    destruct (at_end str1); lia.
  - rewrite <- Ea. pose proof (write_fd0_spec (avail str1) (put_stream fd1 str1 s)) as Hw.
    rewrite Ea in Hw at 1. specialize (Hw ltac:(done)).
    destruct (write_fd0 (avail str1) (put_stream fd1 str1 s)) as [s' [n|errno]].
    + destruct Hw as (Hn & k & -> & Hs & Hc & Hsink). eexists k, n. split; [done|]. split_and!; try done; lia.
    + destruct Hw as (k & -> & Hs & Hc & Hsink). eexists k, _. split; [done|]. split_and!; try done; [lia|].
      by rewrite Hsink, take_0, app_nil_r.
Qed.

Lemma splice_spec fd1 str s :
  streams (kern s) !! fd1 = Some str ->
  let str1 := arrival str in
  exists k n, splice fd1 s = Ret (set_kern k s, n) /\
    streams k = <[fd1 := mkStream (drop (Z.to_nat n) (avail str1)) (coming str1) (at_end str1)]> (streams (kern s)) /\
    clock k = clock (kern s) /\ n <= Z.of_nat (length (avail str1)) /\
    sink k = sink (kern s) ++ take (Z.to_nat n) (avail str1).
Proof.
  intros Hstr. cbv zeta. destruct (tee_spec fd1 str s Hstr) as (k & n & He & Hk & Hc & Hn & Hs).
  unfold splice, get_stream, mbind, outcome_bind. rewrite He. cbn [kern set_kern]. rewrite Hk, lookup_insert_eq.
  destruct (Z.ltb_spec 0 n) as [Hpos|Hz].
  - eexists _, n. split; [done|]. cbn. rewrite Hk, insert_insert_eq. done.
  - eexists k, n. split; [done|]. replace (Z.to_nat n) with 0%nat in * by lia. rewrite drop_0.
    split_and!; try done. rewrite Hk. by destruct (arrival str).
Qed.

Lemma good_arrive recs0 got s b c h :
  good s b c -> PipeRecorder.contents h (PipeRecorder.arrive recs0 got c) ->
  good (set_recs h s) b (PipeRecorder.arrive recs0 got c).
Proof.
  intros [? ? ? ? ? ? ? Hk ? ?] Hh. split; cbn; try done. intros a e He. destruct (Hk a e He) as [? Hin].
  split; [done|]. intros i Hi. rewrite PipeRecorder.arrive_is_Some. by apply Hin.
Qed.

Lemma good_streams k s b c fd1 str :
  good s b c -> streams k = <[fd1 := str]> (streams (kern s)) -> clock k = clock (kern s) ->
  is_Some (conn2fd1_ends (pipe s) !! fd1) -> good (set_kern k s) b c.
Proof.
  intros Hg Hk Hc Hfd. pose proof (good_stream fd1 str s b c Hg Hfd) as Hg'.
  destruct Hg' as [? ? ? ? ? ? ? ? ? ?]. split; cbn in *; rewrite ?Hk, ?Hc; done.
Qed.

Lemma fast_forward_spec fuel fd1 rs str s c :
  PipeRecorder.env_ok -> good s [] c -> is_Some (conn2fd1_ends (pipe s) !! fd1) ->
  streams (kern s) !! fd1 = Some str -> NoDup rs -> (forall i, i ∈ rs -> is_Some (c !! i)) ->
  (pending str < fuel)%nat ->
  exists s' got str', fast_forward fuel fd1 rs s = Ret s' /\ good s' [] (PipeRecorder.arrive rs got c) /\
    sink (kern s') = sink (kern s) ++ got /\ total str = got ++ total str' /\
    (length (coming str') <= length (coming str))%nat /\
    streams (kern s') = <[fd1 := str']> (streams (kern s)) /\
    pipe s' = pipe s /\ ep s' = ep s /\ clock (kern s') = clock (kern s).
Proof.
  intros Henv. revert str s c. induction fuel as [|fuel IH]; intros str s c Hg Hfd Hstr Hnd Hin Hf; [lia|].
  cbn [fast_forward].
  destruct (PipeRecorder.has_active_recorder_correct rs (recs s) c (g_recs _ _ _ Hg) Hin) as (act & Hact & Hiff).
  unfold mbind, outcome_bind. rewrite Hact.
  assert (Hc1 : (length (coming (arrival str)) <= length (coming str))%nat).
  { unfold arrival. destruct str as [? [|? ?] ?]; cbn; lia. }
  pose proof (total_arrival str) as Ht1.
  assert (Hdone : forall k n, n <= 0 -> streams k = <[fd1 := arrival str]> (streams (kern s)) ->
    clock k = clock (kern s) -> sink k = sink (kern s) ++ take (Z.to_nat n) (avail (arrival str)) ->
    exists s' got str', (Ret (set_kern k s) : outcome st) = Ret s' /\ good s' [] (PipeRecorder.arrive rs got c) /\
    sink (kern s') = sink (kern s) ++ got /\ total str = got ++ total str' /\
    (length (coming str') <= length (coming str))%nat /\
    streams (kern s') = <[fd1 := str']> (streams (kern s)) /\
    pipe s' = pipe s /\ ep s' = ep s /\ clock (kern s') = clock (kern s)).
  { intros k n Hn Hk Hc Hs. exists (set_kern k s), [], (arrival str). rewrite PipeRecorder.arrive_nil.
    replace (Z.to_nat n) with 0%nat in Hs by lia. split_and!; try done. by eapply good_streams. }
  assert (Hmore : forall k n h, 0 < n <= Z.of_nat (length (avail (arrival str))) ->
    let got := take (Z.to_nat n) (avail (arrival str)) in
    let str1 := mkStream (drop (Z.to_nat n) (avail (arrival str))) (coming (arrival str)) (at_end (arrival str)) in
    streams k = <[fd1 := str1]> (streams (kern s)) ->
    clock k = clock (kern s) -> sink k = sink (kern s) ++ got ->
    PipeRecorder.contents h (PipeRecorder.arrive rs got c) ->
    exists s' got' str', fast_forward fuel fd1 rs (set_recs h (set_kern k s)) = Ret s' /\
      good s' [] (PipeRecorder.arrive rs got' c) /\
      sink (kern s') = sink (kern s) ++ got' /\ total str = got' ++ total str' /\
      (length (coming str') <= length (coming str))%nat /\
      streams (kern s') = <[fd1 := str']> (streams (kern s)) /\
      pipe s' = pipe s /\ ep s' = ep s /\ clock (kern s') = clock (kern s)).
  { intros k n h Hn got str1 Hk Hc Hs Hh.
    assert (Htot : total str = got ++ total str1).
    { rewrite <- Ht1. unfold total, got, str1. cbn. by rewrite app_assoc, take_drop. }
    destruct (IH str1 (set_recs h (set_kern k s)) (PipeRecorder.arrive rs got c))
      as (s' & got' & str' & He & Hg' & Hs' & Ht' & Hc' & Hk' & Hp' & Hep' & Hcl'); try done.
    - apply good_arrive; [by eapply good_streams|done].
    - cbn. by rewrite Hk, lookup_insert_eq.
    - intros i Hi. rewrite PipeRecorder.arrive_is_Some. by apply Hin.
    - unfold pending in *. apply (f_equal length) in Htot. rewrite length_app in Htot.
      assert (0 < length got)%nat by (unfold got; rewrite length_take; lia).
      change (coming str1) with (coming (arrival str)). lia.
    - exists s', (got ++ got'), str'. rewrite PipeRecorder.arrive_app in Hg'. cbn in *.
      split_and!; try done; try congruence.
      + by rewrite Hs', Hs, app_assoc.
      + by rewrite Htot, Ht', app_assoc.
      + lia.
      + by rewrite Hk', Hk, insert_insert_eq. }
  destruct act.
  - destruct (tee_spec fd1 str s Hstr) as (k & n & He & Hk & Hc & Hn & Hs). rewrite He.
    destruct (Z.leb_spec n 0) as [Hz|Hpos]; [by eapply Hdone|].
    unfold get_stream. cbn [kern set_kern recs]. rewrite Hk, lookup_insert_eq.
    set (got := take (Z.to_nat n) (avail (arrival str))) in *.
    assert (Hgot : length got = Z.to_nat n) by (unfold got; rewrite length_take; lia).
    destruct (PipeRecorder.record_data_from_unix_pipe_correct rs got (drop (Z.to_nat n) (avail (arrival str)))
      (recs s) c Henv (g_recs _ _ _ Hg) Hnd Hin) as (h & Hh & Hcont).
    { intros Hx. rewrite Hx in Hgot. cbn in Hgot. lia. }
    { by apply Hiff. }
    rewrite Hgot, Z2Nat.id in Hh by lia. unfold got in Hh. rewrite take_drop in Hh. rewrite Hh.
    set (str1 := mkStream _ _ _).
    destruct (Hmore (set_streams (<[fd1 := str1]> (streams k)) k) n h) as (s' & got' & str' & Hrest);
      [lia|cbn; by rewrite Hk, insert_insert_eq|done|done|done|].
    exists s', got', str'. exact Hrest.
  - destruct (splice_spec fd1 str s Hstr) as (k & n & He & Hk & Hc & Hn & Hs). rewrite He.
    destruct (Z.leb_spec n 0) as [Hz|Hpos].
    { eapply Hdone; try done. replace (Z.to_nat n) with 0%nat in Hk by lia. rewrite drop_0 in Hk.
      rewrite Hk. by destruct (arrival str). }
    assert (Hsame : set_recs (recs s) (set_kern k s) = set_kern k s) by (by destruct s).
    destruct (Hmore k n (recs s)) as (s' & got' & str' & He' & Hrest); try done.
    { rewrite PipeRecorder.arrive_inactive; [by apply (g_recs _ _ _ Hg)|]. intros Ha. by apply Hiff in Ha. }
    exists s', got', str'. rewrite Hsame in He'. done.
Qed.

(** How [forward()] ends: [b] is left in the buffer and [str] to be read. *)
Definition forward_ok (drain : bool) (r : pipe_op_result) (b : list Z) (mode : bool) (str : stream) : Prop :=
  match r with
  | FB_PIPE_SUCCESS => b = [] /\ mode = false /\ (drain = true -> avail str = [])
  | FB_PIPE_WOULDBLOCK => b <> [] /\ mode = true /\ (drain = true -> avail str = [])
  | FB_PIPE_FD0_EPIPE => b <> []
  | FB_PIPE_FD1_EOF => avail str = [] /\ at_end str <> StillOpen
  | FB_PIPE_FINISHED => False
  end.

(** [got] has been taken from the stream [str] of [fd1], of which [str'] is left, been
    recorded by [rs] and been put behind what was on its way to fd0. *)
Record moved (fd1 : Z) (rs : list nat) (str : stream) (b : list Z) (c : gmap nat (option (list Z))) (s : st)
    (got : list Z) (str' : stream) (b' : list Z) (s' : st) : Prop := {
  mv_good : good s' b' (PipeRecorder.arrive rs got c);
  mv_mode : mode_ok s' b';
  mv_order : sink (kern s') ++ b' = (sink (kern s) ++ b) ++ got;
  mv_sink : exists sent, sink (kern s') = sink (kern s) ++ sent;
  mv_stream : total str = got ++ total str';
  mv_coming : (length (coming str') <= length (coming str))%nat;
  mv_streams : streams (kern s') = <[fd1 := str']> (streams (kern s));
  mv_frame : forwarded s s'
}.

Lemma moved_trans fd1 rs str b c s got1 str1 b1 s1 got2 str2 b2 s2 :
  moved fd1 rs str b c s got1 str1 b1 s1 ->
  moved fd1 rs str1 b1 (PipeRecorder.arrive rs got1 c) s1 got2 str2 b2 s2 ->
  moved fd1 rs str b c s (got1 ++ got2) str2 b2 s2.
Proof.
  intros [_ _ Ho [sent Hsk] Hs Hc Hst Hf] [Hg' Hm' Ho' [sent' Hsk'] Hs' Hc' Hst' Hf'].
  rewrite PipeRecorder.arrive_app in Hg'. split; try done.
  - by rewrite Ho', Ho, app_assoc.
  - exists (sent ++ sent'). by rewrite Hsk', Hsk, app_assoc.
  - by rewrite Hs, Hs', app_assoc.
  - lia.
  - by rewrite Hst', Hst, insert_insert_eq.
  - by eapply forwarded_trans.
Qed.

(** Sending moves nothing in. *)
Lemma send_buf_moved fd1 rs str s b c :
  good s b c -> mode_ok s b -> streams (kern s) !! fd1 = Some str ->
  exists s' r rest, send_buf s = Ret (s', r) /\ moved fd1 rs str b c s [] str rest s' /\
    sent_ok r rest (send_only_mode_ (pipe s')).
Proof.
  intros Hg Hm Hstr. destruct (send_buf_spec s b c Hg Hm) as (s' & r & sent & rest & He & -> & Hg' & Hs & Hf & Hr & Hm').
  exists s', r, rest. split; [done|]. split; [|done]. split; try done.
  - by rewrite PipeRecorder.arrive_nil.
  - by rewrite Hs, app_nil_r, app_assoc.
  - by exists sent.
  - rewrite (f_streams _ _ Hf). by rewrite insert_id.
  - by apply framed_forwarded.
Qed.

Lemma fast_forward_moved fuel fd1 rs str s b c :
  PipeRecorder.env_ok -> good s b c -> mode_ok s b -> is_Some (conn2fd1_ends (pipe s) !! fd1) ->
  streams (kern s) !! fd1 = Some str -> NoDup rs -> (forall i, i ∈ rs -> is_Some (c !! i)) ->
  (pending str < fuel)%nat ->
  exists s' got str', (if buffer_empty (pipe s) then fast_forward fuel fd1 rs s else Ret s) = Ret s' /\
    moved fd1 rs str b c s got str' b s' /\ pipe s' = pipe s.
Proof.
  intros Henv Hg Hm Hfd Hstr Hnd Hin Hf. rewrite (buffer_empty_nil _ _ _ Hg). destruct b as [|x b].
  - destruct (fast_forward_spec fuel fd1 rs str s c Henv Hg Hfd Hstr Hnd Hin Hf)
      as (s' & got & str' & He & Hg' & Hs & Ht & Hc & Hst & Hp & Hep & Hcl).
    exists s', got, str'. split; [done|]. split; [|done]. split; try done.
    + unfold mode_ok. by rewrite Hp.
    + by rewrite Hs, !app_nil_r.
    + by exists got.
    + by apply same_pipe_forwarded.
  - exists s, [], str. split; [done|]. split; [|done]. split; try done.
    + by rewrite PipeRecorder.arrive_nil.
    + by rewrite app_nil_r.
    + exists []. by rewrite app_nil_r.
    + by rewrite insert_id.
    + by apply same_pipe_forwarded.
Qed.

Lemma read_fd1_moved fd1 rs str s b c :
  PipeRecorder.env_ok -> good s b c -> mode_ok s b -> is_Some (conn2fd1_ends (pipe s) !! fd1) ->
  streams (kern s) !! fd1 = Some str -> NoDup rs -> (forall i, i ∈ rs -> is_Some (c !! i)) ->
  Z.of_nat (length b + length (total str)) <= 2 ^ 30 ->
  exists s' n errno got str', read_fd1 fd1 s = Ret (s', n, errno) /\ read_end n errno got str' /\
    pipe s' = set_buf_ (buf_ (pipe s')) (pipe s) /\
    match got with
    | [] => moved fd1 rs str b c s [] str' b s'
    | _ => good s' (b ++ got) c /\ n = Z.of_nat (length got) /\
        exists h, PipeRecorder.record_data_from_buffer rs got (recs s') = Ret h /\
          moved fd1 rs str b c s got str' (b ++ got) (set_recs h s')
    end.
Proof.
  intros Henv Hg Hm Hfd Hstr Hnd Hin Hsz.
  destruct (read_fd1_spec fd1 str s b c Hg Hfd Hstr Hsz)
    as (s' & n & errno & got & str' & He & Hg' & (bf & Hs') & Ht & Hc & Hn & Hend).
  exists s', n, errno, got, str'. split; [done|]. split; [done|].
  split; [rewrite Hs'; by destruct s as [[] ? ? ?]|].
  assert (Hfw : forwarded s s').
  { rewrite Hs'. split; try done. exists (send_only_mode_ (pipe s)), bf. by destruct s as [[] ? ? ?]. }
  destruct got as [|x got].
  - rewrite app_nil_r in Hg'. split; try done.
    + by rewrite PipeRecorder.arrive_nil.
    + by rewrite Hs'.
    + by rewrite Hs', app_nil_r.
    + exists []. by rewrite Hs', app_nil_r.
    + by rewrite Hs'.
  - rewrite decide_False in Hn by done. split; [done|]. split; [done|].
    destruct (PipeRecorder.record_data_from_buffer_correct rs (x :: got) (recs s') c Henv (g_recs _ _ _ Hg') Hnd Hin)
      as (h & Hh & Hcont); [done|].
    exists h. split; [done|]. split; try done.
    + by apply good_arrive.
    + rewrite Hs'. intros _. by destruct b.
    + by rewrite Hs', app_assoc.
    + exists []. by rewrite Hs', app_nil_r.
    + by rewrite Hs'.
    + eapply forwarded_trans; [exact Hfw|]. by apply same_pipe_forwarded.
Qed.

Lemma no_ends_false p fd1 : is_Some (conn2fd1_ends p !! fd1) -> no_ends p = false.
Proof. intros [a Ha]. unfold no_ends. apply bool_decide_eq_false. intros Hx. by rewrite Hx in Ha. Qed.

Lemma moved_conns fd1 rs str b c s got str' b' s' :
  moved fd1 rs str b c s got str' b' s' ->
  conn2fd1_ends (pipe s') = conn2fd1_ends (pipe s) /\ ends (pipe s') = ends (pipe s).
Proof. intros [_ _ _ _ _ _ _ [(m & bf & ->) _ _]]. done. Qed.

Lemma moved_small fd1 rs str b c s got str' b' s' :
  moved fd1 rs str b c s got str' b' s' ->
  (length b' + length (total str') <= length b + length (total str))%nat /\
  (length got + pending str' <= pending str)%nat.
Proof.
  intros [_ _ Ho [sent Hsent] Hs Hc _ _]. apply (f_equal length) in Ho, Hs. rewrite Hsent in Ho.
  unfold pending. rewrite !length_app in *. lia.
Qed.

Lemma moved_stream fd1 rs str b c s got str' b' s' :
  moved fd1 rs str b c s got str' b' s' -> streams (kern s') !! fd1 = Some str'.
Proof. intros [_ _ _ _ _ _ Hst _]. by rewrite Hst, lookup_insert_eq. Qed.

(** After a read that found nothing, what is buffered is sent. *)
Lemma send_after_read fd1 rs str b c s str1 s1 :
  moved fd1 rs str b c s [] str1 b s1 ->
  exists s' r rest, send_buf s1 = Ret (s', r) /\ moved fd1 rs str b c s [] str1 rest s' /\
    sent_ok r rest (send_only_mode_ (pipe s')).
Proof.
  intros Hmv. pose proof (mv_good _ _ _ _ _ _ _ _ _ _ Hmv) as Hg.
  destruct (send_buf_moved fd1 rs str1 s1 b _ Hg (mv_mode _ _ _ _ _ _ _ _ _ _ Hmv) (moved_stream _ _ _ _ _ _ _ _ _ _ Hmv))
    as (s' & r & rest & He & Hmv' & Hr).
  exists s', r, rest. split; [done|]. split; [|done]. by apply (moved_trans _ _ _ _ _ _ [] _ _ _ [] _ _ _ Hmv).
Qed.

Lemma forward_loop_moved fuel fd1 rs drain str s b c :
  PipeRecorder.env_ok -> good s b c -> mode_ok s b -> is_Some (conn2fd1_ends (pipe s) !! fd1) ->
  streams (kern s) !! fd1 = Some str -> NoDup rs -> (forall i, i ∈ rs -> is_Some (c !! i)) ->
  Z.of_nat (length b + length (total str)) <= 2 ^ 30 -> (pending str + 2 <= fuel)%nat ->
  exists s' r got str' b', forward_loop fuel fd1 rs drain s = Ret (s', r) /\
    moved fd1 rs str b c s got str' b' s' /\ forward_ok drain r b' (send_only_mode_ (pipe s')) str'.
Proof.
  intros Henv. revert str s b c. induction fuel as [|fuel IH]; intros str s b c Hg Hm Hfd Hstr Hnd Hin Hsz Hf; [lia|].
  cbn [forward_loop].
  destruct (fast_forward_moved fuel fd1 rs str s b c Henv Hg Hm Hfd Hstr Hnd Hin ltac:(lia))
    as (s1 & got1 & str1 & He1 & Hmv1 & Hp1).
  unfold mbind, outcome_bind. rewrite He1. pose proof (moved_small _ _ _ _ _ _ _ _ _ _ Hmv1) as [Hsm1 Hpd1].
  pose proof Hmv1 as [Hg1 Hm1 _ _ _ _ _ _].
  assert (Hin1 : forall i, i ∈ rs -> is_Some (PipeRecorder.arrive rs got1 c !! i)).
  { intros i Hi. rewrite PipeRecorder.arrive_is_Some. by apply Hin. }
  assert (Hfd1 : is_Some (conn2fd1_ends (pipe s1) !! fd1)) by (by rewrite Hp1).
  destruct (read_fd1_moved fd1 rs str1 s1 b _ Henv Hg1 Hm1 Hfd1 (moved_stream _ _ _ _ _ _ _ _ _ _ Hmv1) Hnd Hin1 ltac:(lia))
    as (s2 & n & errno & got2 & str2 & He2 & Hend & Hp2 & Hmv2).
  rewrite He2. destruct got2 as [|x got2].
  - destruct (send_after_read _ _ _ _ _ _ _ _ Hmv2) as (s3 & r & rest & He3 & Hmv3 & Hr).
    pose proof (moved_trans _ _ _ _ _ _ _ _ _ _ _ _ _ _ Hmv1 Hmv3) as Hmv. rewrite app_nil_r in Hmv.
    destruct Hend as [[_ ?]|[(-> & _ & Hav & Heof)|(-> & _ & Hav & Hne & Herr)]]; [done|..]; cbn [Z.eqb Z.compare]; rewrite He3.
    + exists s3, FB_PIPE_FD1_EOF, got1, str2, rest. split_and!; try done. split; [done|]. by rewrite Heof.
    + exists s3. destruct (Z.eqb_spec errno Frame.EAGAIN) as [Hea|Hnea].
      * exists r, got1, str2, rest. split_and!; try done. unfold sent_ok, forward_ok in *.
        destruct r; naive_solver.
      * exists FB_PIPE_FD1_EOF, got1, str2, rest. split_and!; try done. split; [done|].
        intros Hso. unfold read_errno in Herr. by rewrite Hso in Herr.
  - destruct Hmv2 as (Hg2 & Hn & h & Hrec & Hmv2). set (got2' := x :: got2) in *.
    rewrite (proj2 (Z.eqb_neq n (-1))) by (rewrite Hn; cbn; lia).
    rewrite (proj2 (Z.eqb_neq n 0)) by (rewrite Hn; cbn; lia).
    rewrite (buffered_bytes _ _ _ Hg2), length_app. cbv zeta.
    rewrite (proj2 (Z.leb_le n _)) by lia. cbn [assert].
    replace (Z.to_nat (Z.of_nat (length b + length got2') - n)) with (length b) by lia.
    rewrite drop_app_length, Hrec.
    pose proof (moved_trans _ _ _ _ _ _ _ _ _ _ _ _ _ _ Hmv1 Hmv2) as Hmv12.
    destruct (send_buf_moved fd1 rs str2 (set_recs h s2) (b ++ got2') _ (mv_good _ _ _ _ _ _ _ _ _ _ Hmv2)
      (mv_mode _ _ _ _ _ _ _ _ _ _ Hmv2) (moved_stream _ _ _ _ _ _ _ _ _ _ Hmv2)) as (s3 & r & rest & He3 & Hmv3 & Hr).
    rewrite PipeRecorder.arrive_app in Hmv3.
    pose proof (moved_trans _ _ _ _ _ _ _ _ _ _ _ _ _ _ Hmv12 Hmv3) as Hmv. rewrite app_nil_r in Hmv.
    rewrite He3. pose proof (moved_small _ _ _ _ _ _ _ _ _ _ Hmv) as [Hsm Hpd].
    pose proof (moved_conns _ _ _ _ _ _ _ _ _ _ Hmv) as [Hcn _].
    destruct (drain && negb (bool_decide (r = FB_PIPE_FD0_EPIPE))) eqn:Edr.
    + destruct (IH str2 s3 rest (PipeRecorder.arrive rs (got1 ++ got2') c)) as (s4 & r4 & got4 & str4 & b4 & He4 & Hmv4 & Hr4).
      * apply Hmv.
      * apply Hmv.
      * by rewrite Hcn.
      * apply (moved_stream _ _ _ _ _ _ _ _ _ _ Hmv).
      * done.
      * intros i Hi. rewrite PipeRecorder.arrive_is_Some. by apply Hin.
      * lia.
      * rewrite length_app in Hpd. cbn in Hpd. lia.
      * exists s4, r4, ((got1 ++ got2') ++ got4), str4, b4. split_and!; try done. by eapply moved_trans.
    + exists s3. destruct r; cbn [sent_ok] in Hr; try done; cbn in Edr |- *.
      * rewrite (no_ends_false _ fd1) by (by rewrite Hcn). cbn. eexists _, _, _, _. split; [done|]. split; [done|].
        split_and!; [apply Hr|apply Hr|]. intros ->. done.
      * eexists _, _, _, _. split; [done|]. split; [done|]. exact Hr.
      * eexists _, _, _, _. split; [done|]. split; [done|]. split_and!; [apply Hr|apply Hr|]. intros ->. done.
Qed.

(** C3. [forward()] passes data on in order, exactly once, and records it: with any schedule
    of arriving bytes and of what fd0 accepts, the call returns; the bytes it has taken from
    the fd1 end are a prefix of those still to come from it; what fd0 has received followed
    by what is buffered grows by exactly these bytes, and so does every active recorder of
    this end; the watched file descriptors match the mode.  [FB_PIPE_SUCCESS] means that
    everything has been sent, [FB_PIPE_WOULDBLOCK] that the pipe is in send only mode with
    data left, [FB_PIPE_FD1_EOF] that the end has nothing more; after draining all that
    was there has been taken. *)
Theorem forward_correct fuel fd1 drain a fd1_end str s b c :
  PipeRecorder.env_ok -> good s b c -> mode_ok s b ->
  conn2fd1_ends (pipe s) !! fd1 = Some a -> ends (pipe s) !! a = Some fd1_end ->
  streams (kern s) !! fd1 = Some str ->
  Z.of_nat (length b + length (total str)) <= 2 ^ 30 -> (pending str + 2 <= fuel)%nat ->
  exists s' r got str' b', forward fuel fd1 drain s = Ret (s', r) /\
    moved fd1 (recorders fd1_end) str b c s got str' b' s' /\
    forward_ok drain r b' (send_only_mode_ (pipe s')) str'.
Proof.
  intros Henv Hg Hm Ha He Hstr Hsz Hf. unfold forward, get_end.
  rewrite (finished_false _ _ _ Hg), Ha, He. unfold mbind, outcome_bind.
  destruct (g_known _ _ _ Hg a fd1_end He) as [Hnd Hin].
  by apply forward_loop_moved.
Qed.

(** * The life of a pipe *)

(** An open pipe between two calls: a timer runs only while there is no fd1 end and
    nothing to be sent. *)
Record open_ok (s : st) (b : list Z) (c : gmap nat (option (list Z))) : Prop := {
  o_good : good s b c;
  o_mode : mode_ok s b;
  o_timer : 0 <= fd1_timeout_id_ (pipe s) -> conn2fd1_ends (pipe s) = ∅ /\ b = [];
  o_self : shared_self_ptr_ (pipe s) = true
}.

(** A finished pipe has no ends and no timer. *)
Record closed_ok (s : st) : Prop := {
  cl_fd0 : fd0_conn (pipe s) = -1;
  cl_conns : conn2fd1_ends (pipe s) = ∅;
  cl_ffds : ffd2fd1_ends (pipe s) = ∅;
  cl_ends : ends (pipe s) = ∅;
  cl_timer : fd1_timeout_id_ (pipe s) < 0;
  cl_self : shared_self_ptr_ (pipe s) = false;
  cl_ep : Epoll.ok (ep s)
}.

Definition Inv (s : st) : Prop := (exists b c, open_ok s b c) \/ closed_ok s.

(** ** Finishing *)

Lemma maybe_del_spec fd (e : epoll) : Epoll.ok e -> 0 <= fd ->
  exists e', Epoll.maybe_del_fd fd e = Ret e' /\ Epoll.ok e' /\ Epoll.same_timers e e' /\
    forall x, Epoll.added (Epoll.fd_contexts_ e') x <-> Epoll.added (Epoll.fd_contexts_ e) x /\ x <> fd.
Proof.
  intros Hok Hfd. unfold Epoll.maybe_del_fd. destruct (Epoll.is_added_fd_spec fd e Hfd) as (bb & Hbb & Hiff).
  unfold mbind, outcome_bind. rewrite Hbb. destruct bb.
  - destruct (Epoll.del_fd_returns fd e Hok) as [e' He']; [by apply Hiff|].
    destruct (Epoll.del_fd_spec _ _ _ He') as (_ & _ & _ & Ha & Ht & _ & _).
    exists e'. split_and!; try done; [by eapply Epoll.del_fd_ok|]. intros x. rewrite Ha. tauto.
  - exists e. split_and!; try done. intros x. split; [|tauto]. intros Hx. split; [done|].
    intros ->. by apply Hiff in Hx.
Qed.

Lemma finish_end_spec fd a s :
  Epoll.ok (ep s) -> 0 <= fd -> is_Some (ends (pipe s) !! a) ->
  exists e, finish_end (fd, a) s =
      Ret (upd_pipe (fun p => set_ends (delete a (ends p)) p) (close_fd fd (set_ep e s))) /\
    Epoll.ok e /\ Epoll.same_timers (ep s) e /\
    forall x, Epoll.added (Epoll.fd_contexts_ e) x <-> added s x /\ x <> fd.
Proof.
  intros Hok Hfd [en Hen]. destruct (maybe_del_spec fd (ep s) Hok Hfd) as (e1 & He1 & Hok1 & Ht1 & Ha1).
  exists e1. unfold finish_end, with_epoll, get_end, mbind, outcome_bind. cbn [fst snd].
  rewrite He1. cbn [pipe set_ep]. by rewrite Hen.
Qed.

Lemma each_finish l s :
  Epoll.ok (ep s) -> NoDup (snd <$> l) ->
  (forall fd a, (fd, a) ∈ l -> 0 <= fd /\ is_Some (ends (pipe s) !! a)) ->
  exists e k m, each finish_end l s = Ret (mkSt (set_ends m (pipe s)) e (recs s) k) /\ Epoll.ok e /\
    Epoll.same_timers (ep s) e /\ clock k = clock (kern s) /\ sink k = sink (kern s) /\
    (forall x, Epoll.added (Epoll.fd_contexts_ e) x <-> added s x /\ x ∉ (fst <$> l)) /\
    (forall a, m !! a = if decide (a ∈ (snd <$> l)) then None else ends (pipe s) !! a).
Proof.
  revert s. induction l as [|[fd a] l IH]; intros s Hok Hnd Hin.
  { exists (ep s), (kern s), (ends (pipe s)). split; [by destruct s as [[] ? ? ?]|]. split_and!; try done; set_solver. }
  cbn in Hnd. apply NoDup_cons in Hnd as [Hni Hnd]. destruct (Hin fd a ltac:(set_solver)) as [Hfd Hen].
  destruct (finish_end_spec fd a s Hok Hfd Hen) as (e1 & He1 & Hok1 & Ht1 & Ha1).
  cbn [each]. unfold mbind, outcome_bind. rewrite He1.
  set (s1 := upd_pipe _ _).
  destruct (IH s1) as (e & k & m & He & Hoke & Ht & Hc & Hs & Ha & Hm); [done|done| |].
  { intros fd' a' Hx. destruct (Hin fd' a' ltac:(set_solver)) as [? Hsome]. split; [done|]. cbn.
    rewrite lookup_delete_ne; [done|]. intros <-. apply Hni. apply list_elem_of_fmap. by exists (fd', a). }
  exists e, k, m. split; [exact He|]. split; [done|].
  split; [destruct Ht1 as (?&?&?), Ht as (?&?&?); cbn in *; split_and!; congruence|].
  split; [done|]. split; [done|]. split.
  - intros x. rewrite Ha. cbn. rewrite Ha1. set_solver.
  - intros a'. rewrite Hm. cbn. destruct (decide (a' = a)) as [->|Hne].
    + rewrite (decide_False (P := a ∈ l.*2)), lookup_delete_eq by done. by rewrite decide_True by set_solver.
    + rewrite lookup_delete_ne by done. repeat case_decide; set_solver.
Qed.

(** The ends of the table are distinct objects. *)
Lemma ends_distinct p : ends_ok p -> NoDup (snd <$> map_to_list (conn2fd1_ends p)).
Proof.
  intros [H1 _]. apply NoDup_fmap_2_strong; [|apply NoDup_map_to_list].
  intros [fd a] [fd' a'] Hx%elem_of_map_to_list Hy%elem_of_map_to_list. cbn. intros ->.
  apply H1 in Hx as (e & He & <-). apply H1 in Hy as (e' & He' & <-). by simplify_eq.
Qed.

Lemma all_ends_in_table p a : ends_ok p -> is_Some (ends p !! a) -> a ∈ (snd <$> map_to_list (conn2fd1_ends p)).
Proof.
  intros [H1 _] [e He]. apply list_elem_of_fmap. exists (pe_fd e, a). split; [done|].
  apply elem_of_map_to_list, H1. eauto.
Qed.

Lemma ends_ok_empty p : conn2fd1_ends p = ∅ -> ffd2fd1_ends p = ∅ -> ends p = ∅ -> ends_ok p.
Proof.
  intros H1 H2 H3. unfold ends_ok. rewrite H1, H2, H3.
  split; intros ? ?; rewrite lookup_empty; (split; [done|]); intros (? & Hx & _); by rewrite lookup_empty in Hx.
Qed.

(** The pipe without its ends. *)
Definition without_ends (e : epoll) (k : kernel) (s : st) : st :=
  mkSt (set_ffd2fd1_ends ∅ (set_conn2fd1_ends ∅ (set_ends ∅ (pipe s)))) e (recs s) k.

Lemma finish_ends s b c :
  good s b c ->
  exists s0 e k, each finish_end (map_to_list (conn2fd1_ends (pipe s))) s = Ret s0 /\
    upd_pipe (fun p => set_ffd2fd1_ends ∅ (set_conn2fd1_ends ∅ p)) s0 = without_ends e k s /\
    good (without_ends e k s) b c /\ sink k = sink (kern s) /\ Epoll.same_timers (ep s) e.
Proof.
  intros Hg. pose proof Hg as [Hfd0 Hb Hok Hr0 Hr1 Hends Hrecs _ Hcl Htm].
  destruct (each_finish (map_to_list (conn2fd1_ends (pipe s))) s Hok (ends_distinct _ Hends))
    as (e & k & m & He & Hoke & Ht & Hc & Hs & Ha & Hm).
  { intros fd a Hx%elem_of_map_to_list. split; [by apply Hr1|]. apply (proj1 Hends) in Hx as (en & ? & _). eauto. }
  assert (m = ∅) as ->.
  { apply map_empty. intros a. rewrite Hm. case_decide as Hd; [done|].
    destruct (ends (pipe s) !! a) eqn:E; [|done]. destruct Hd. apply all_ends_in_table; eauto. }
  eexists _, e, k. split; [exact He|]. split; [done|]. split; [|done].
  split; cbn; try done.
  - rewrite Ha, <- Hr0. split; [tauto|]. intros Hx. split; [done|]. intros Hi%conns_elem.
    by destruct (Hr1 _ Hi) as (_ & [] & _).
  - by intros fd [? Hx].
  - by apply ends_ok_empty.
  - by rewrite Hc.
  - intros Hp. destruct Ht as (-> & _). by apply Htm.
Qed.

Lemma stop_timer_spec s :
  Epoll.ok (ep s) -> (0 <= fd1_timeout_id_ (pipe s) ->
    exists tc, Epoll.tm (Epoll.timer_contexts_ (ep s)) (Z.to_nat (fd1_timeout_id_ (pipe s))) tc) ->
  exists e, stop_timer s = Ret (if 0 <=? fd1_timeout_id_ (pipe s)
      then upd_pipe (set_fd1_timeout_id_ (-1)) (set_ep e s) else s) /\ Epoll.ok e /\
    Epoll.fd_contexts_ e = Epoll.fd_contexts_ (ep s).
Proof.
  intros Hok Ht. unfold stop_timer. destruct (Z.leb_spec 0 (fd1_timeout_id_ (pipe s))) as [Hp|Hn]; [|by exists (ep s)].
  destruct (Ht Hp) as [tc Htc].
  destruct (Epoll.del_timer_correct _ _ _ (Epoll.ok_timers _ Hok) Htc) as (e & He & Hok' & _).
  rewrite Z2Nat.id in He by done. unfold with_epoll, mbind, outcome_bind. rewrite He.
  exists e. split; [done|]. destruct (Epoll.del_timer_rest _ _ _ He) as (_ & _ & Hctx & Hfds).
  split; [|done]. split; [|done]. rewrite Hfds, Hctx. apply Hok.
Qed.

Lemma finish_closed s b c :
  good s b c -> mode_ok s b -> exists s', finish s = Ret s' /\ closed_ok s' /\
    (exists sent, sink (kern s') = sink (kern s) ++ sent) /\
    (fd1_timeout_id_ (pipe s) < 0 -> Epoll.same_timers (ep s) (ep s')).
Proof.
  intros Hg Hm. unfold finish. rewrite (finished_false _ _ _ Hg).
  destruct (finish_ends s b c Hg) as (s0 & e & k & He & Hs0 & Hg1 & Hs1 & Ht1).
  unfold mbind at 1, outcome_bind at 1. rewrite He. cbv zeta. rewrite Hs0. set (s1 := without_ends e k s) in *.
  assert (Hm1 : mode_ok s1 b) by exact Hm.
  destruct (send_buf_spec s1 b c Hg1 Hm1) as (s2 & r & sent & rest & He2 & -> & Hg2 & Hs2 & Hf2 & Hr2 & _).
  assert (Hfs : finish_send 2 s1 = Ret s2).
  { cbn [finish_send]. unfold mbind, outcome_bind. rewrite He2, (buffer_empty_nil _ _ _ Hg2).
    destruct rest; [done|]. cbn. destruct r; try done. by destruct Hr2. }
  unfold mbind, outcome_bind. rewrite Hfs. unfold with_epoll at 1, mbind at 1, outcome_bind at 1.
  destruct (maybe_del_spec (fd0_conn (pipe s2)) (ep s2) (g_ep _ _ _ Hg2) (g_fd0 _ _ _ Hg2)) as (e3 & He3 & Hok3 & Ht3 & _).
  rewrite He3. set (s3 := upd_pipe _ _).
  destruct (framed_ends _ _ Hf2) as (Hc & Hff & Hen & _ & Hid & _ & _).
  destruct (stop_timer_spec s3) as (e4 & He4 & Hok4 & _).
  { done. }
  { cbn. intros Hp. destruct Ht3 as (-> & _). by apply (g_timer _ _ _ Hg2). }
  rewrite He4. eexists. split; [done|].
  assert (Hsent : exists sent, sink (kern s2) = sink (kern s) ++ sent) by (exists sent; by rewrite Hs2; cbn; rewrite Hs1).
  destruct (Z.leb_spec 0 (fd1_timeout_id_ (pipe s3))) as [Hp|Hn];
    (split; [split; cbn; try done; try congruence; lia|]); (split; [exact Hsent|]).
  - intros Hn. change (fd1_timeout_id_ (pipe s3)) with (fd1_timeout_id_ (pipe s2)) in Hp. rewrite Hid in Hp. cbn in Hp. lia.
  - intros _. cbn. destruct (f_timers _ _ Hf2) as (?&?&?), Ht1 as (?&?&?), Ht3 as (?&?&?). cbn in *. split_and!; congruence.
Qed.

(** ** Volume *)

(** The bytes in flight: buffered and still to be read. *)
Definition stream_volume (m : gmap Z stream) : nat :=
  sum_list_with (fun x => length (total (snd x))) (map_to_list m).
Definition volume (s : st) : nat :=
  (Z.to_nat (LinearBuffer.length_ (buf_ (pipe s))) + stream_volume (streams (kern s)))%nat.

(** The traffic is below a gigabyte, and [fuel] covers the rounds of the loops. *)
Definition fits (fuel : nat) (s : st) : Prop :=
  Z.of_nat (volume s) <= 2 ^ 30 /\
  forall fd str, streams (kern s) !! fd = Some str -> (pending str + 2 <= fuel)%nat.

Lemma stream_volume_insert m fd str :
  stream_volume (<[fd := str]> m) = (length (total str) + stream_volume (delete fd m))%nat.
Proof.
  unfold stream_volume. rewrite <- insert_delete_eq, map_to_list_insert by apply lookup_delete_eq. done.
Qed.

Lemma stream_volume_lookup m fd str :
  m !! fd = Some str -> stream_volume m = (length (total str) + stream_volume (delete fd m))%nat.
Proof. intros H1. rewrite <- stream_volume_insert. by rewrite insert_id. Qed.

Lemma stream_volume_delete m fd : (stream_volume (delete fd m) <= stream_volume m)%nat.
Proof.
  destruct (m !! fd) as [str|] eqn:E; [rewrite (stream_volume_lookup _ _ _ E); lia|].
  by rewrite delete_id.
Qed.

Lemma close_fits fuel fd s s' :
  buf_ (pipe s') = buf_ (pipe s) -> streams (kern s') = delete fd (streams (kern s)) ->
  fits fuel s -> fits fuel s'.
Proof.
  intros Hb Hs [Hv Hp]. split.
  - unfold volume in *. rewrite Hb, Hs. pose proof (stream_volume_delete (streams (kern s)) fd). lia.
  - intros fd' str. rewrite Hs. intros [_ Hx]%lookup_delete_Some. eauto.
Qed.

(** ** Closing one end *)

Lemma start_timer_spec s :
  Epoll.ok (ep s) -> ts_ok (clock (kern s)) ->
  exists e id, start_timer s = Ret (upd_pipe (set_fd1_timeout_id_ (Z.of_nat id)) (set_ep e s)) /\
    Epoll.ok e /\ Epoll.fd_contexts_ e = Epoll.fd_contexts_ (ep s) /\
    (exists tc, Epoll.tm (Epoll.timer_contexts_ e) id tc) /\
    (forall c, ~ Epoll.tm (Epoll.timer_contexts_ (ep s)) id c) /\
    forall i c, Epoll.tm (Epoll.timer_contexts_ (ep s)) i c -> Epoll.tm (Epoll.timer_contexts_ e) i c.
Proof.
  intros Hok Hc. unfold start_timer.
  destruct (Epoll.add_timer_correct (clock (kern s)) kFd1ReopenTimeoutMs fd1_timeout (Some self) (ep s)
    (Epoll.ok_timers _ Hok) Hc ltac:(done)) as (e & id & He & Htok & Hno & Htm).
  unfold mbind, outcome_bind. rewrite He. exists e, id. split; [done|].
  destruct (Epoll.add_timer_rest _ _ _ _ _ _ _ He) as (_ & _ & Hctx & Hfds). split_and!; try done.
  - split; [|done]. rewrite Hfds, Hctx. apply Hok.
  - eexists. apply Htm. by left.
  - intros i c Hi. apply Htm. by right.
Qed.

Lemma wait_for_fd1_inv s c :
  good s [] c -> mode_ok s [] -> shared_self_ptr_ (pipe s) = true ->
  conn2fd1_ends (pipe s) = ∅ -> fd1_timeout_id_ (pipe s) < 0 ->
  exists s', wait_for_fd1 s = Ret s' /\ Inv s' /\ conn2fd1_ends (pipe s') = ∅ /\
    (closed_ok s' \/ (buf_ (pipe s') = buf_ (pipe s) /\ kern s' = kern s)).
Proof.
  intros Hg Hm Hself Hconn Hid. unfold wait_for_fd1. destruct (negb _).
  - destruct (finish_closed s [] c Hg Hm) as (s' & He & Hcl & _). exists s'. split; [done|]. split; [by right|]. split; [apply Hcl|by left].
  - cbv zeta. set (s1 := upd_pipe _ s). change (fd1_timeout_id_ (pipe s1)) with (fd1_timeout_id_ (pipe s)).
    rewrite (proj2 (Z.ltb_lt _ _) Hid). cbn [assert]. unfold mbind, outcome_bind.
    destruct (start_timer_spec s1) as (e & id & He & Hok & Hctx & Htm & _); [apply Hg|apply Hg|].
    rewrite He. eexists. split; [done|]. split; [|split; [done|by right]]. left. exists [], c.
    destruct Hg as [? ? ? Hr0 Hr1 ? ? ? ? _].
    split; [|done|done|done]. split; cbn; rewrite ?Hctx; try done. intros _. by rewrite Nat2Z.id.
Qed.

(** Taking one end out of the tables. *)
Definition drop_end (fd : Z) (a : nat) (e : pipe_end) (p : t) : t :=
  set_ends (delete a (ends p)) (set_conn2fd1_ends (delete fd (conn2fd1_ends p))
    (set_ffd2fd1_ends (filter (fun fa => fst fa ∉ file_fds e) (ffd2fd1_ends p)) p)).

Lemma drop_end_ok fd a e p :
  ends_ok p -> conn2fd1_ends p !! fd = Some a -> ends p !! a = Some e -> ends_ok (drop_end fd a e p).
Proof.
  intros [H1 H2] Hfd He. assert (Hpe : pe_fd e = fd).
  { apply H1 in Hfd as (e' & He' & ?). by simplify_eq. }
  split; cbn.
  - intros fd' a'. destruct (decide (fd' = fd)) as [->|Hne].
    + rewrite lookup_delete_eq. split; [done|]. intros (e' & [Hne' He']%lookup_delete_Some & Hpe').
      destruct Hne'. assert (Hx : conn2fd1_ends p !! fd = Some a') by (apply H1; eauto). by simplify_eq.
    + rewrite lookup_delete_ne, H1 by done. split; intros (e' & He' & Hpe').
      * exists e'. split; [|done]. rewrite lookup_delete_ne; [done|]. intros ->. by simplify_eq.
      * apply lookup_delete_Some in He' as [_ He']. eauto.
  - intros f a'. rewrite map_lookup_filter_Some, H2. cbn. split.
    + intros [(e' & He' & Hf) Hnf]. exists e'. split; [|done].
      rewrite lookup_delete_ne; [done|]. intros ->. by simplify_eq.
    + intros (e' & [Hne' He']%lookup_delete_Some & Hf). split; [eauto|]. intros Hfe. destruct Hne'.
      assert (Hx : ffd2fd1_ends p !! f = Some a) by (apply H2; eauto).
      assert (Hy : ffd2fd1_ends p !! f = Some a') by (apply H2; eauto). by simplify_eq.
Qed.

Lemma drop_end_good fd a en e s b c :
  good s b c -> conn2fd1_ends (pipe s) !! fd = Some a -> ends (pipe s) !! a = Some en ->
  Epoll.ok e -> Epoll.same_timers (ep s) e ->
  (forall x, Epoll.added (Epoll.fd_contexts_ e) x <-> added s x /\ x <> fd) ->
  good (upd_pipe (drop_end fd a en) (close_fd fd (set_ep e s))) b c.
Proof.
  intros [Hfd0 Hb Hok Hr0 Hr1 Hends Hrecs Hk Hcl Htm] Hfd Hen Hoke Ht Ha.
  destruct (Hr1 fd ltac:(eauto)) as (_ & Hne0 & _). split; cbn; try done.
  - rewrite Ha, <- Hr0. naive_solver.
  - intros fd' [a' Hx%lookup_delete_Some]. destruct Hx as [Hne Hx]. destruct (Hr1 fd' ltac:(eauto)) as (? & ? & Hs & Hadd).
    split_and!; try done; [by rewrite lookup_delete_ne by done|]. rewrite Ha, <- Hadd. naive_solver.
  - by apply drop_end_ok.
  - intros a' e' [_ He']%lookup_delete_Some. eauto.
  - intros Hp. destruct Ht as (-> & _). by apply Htm.
Qed.

Lemma no_ends_empty p : no_ends p = true <-> conn2fd1_ends p = ∅.
Proof. unfold no_ends. apply bool_decide_eq_true. Qed.

Lemma timer_off s b c fd : open_ok s b c -> is_Some (conn2fd1_ends (pipe s) !! fd) -> fd1_timeout_id_ (pipe s) < 0.
Proof.
  intros [_ _ Ht _] [a Ha]. destruct (Z.lt_ge_cases (fd1_timeout_id_ (pipe s)) 0) as [|Hge]; [done|].
  destruct (Ht Hge) as [Hx _]. by rewrite Hx in Ha.
Qed.

Lemma close_one_fd1_inv fd s b c :
  open_ok s b c ->
  exists s', close_one_fd1 fd s = Ret s' /\ Inv s' /\
    (is_Some (conn2fd1_ends (pipe s) !! fd) -> (size (conn2fd1_ends (pipe s')) < size (conn2fd1_ends (pipe s)))%nat) /\
    (forall fuel, fits fuel s -> closed_ok s' \/ fits fuel s').
Proof.
  intros Ho. pose proof Ho as [Hg Hm _ Hself]. unfold close_one_fd1.
  destruct (conn2fd1_ends (pipe s) !! fd) as [a|] eqn:Hfd.
  2:{ exists s. split; [done|]. split; [left; eauto|]. split; [by intros [? ?]|auto]. }
  pose proof (timer_off _ _ _ fd Ho ltac:(eauto)) as Hoff.
  destruct (proj1 (proj1 (g_ends _ _ _ Hg) fd a) Hfd) as (en & Hen & _).
  destruct (g_reg1 _ _ _ Hg fd ltac:(eauto)) as (Hfd0 & _).
  destruct (maybe_del_spec fd (ep s) (g_ep _ _ _ Hg) Hfd0) as (e & He & Hoke & Ht & Ha).
  unfold get_end. rewrite Hen. unfold mbind, outcome_bind, with_epoll. cbv zeta.
  change (ep (upd_pipe _ s)) with (ep s). unfold mbind, outcome_bind. rewrite He.
  match goal with |- context [no_ends (pipe ?x)] => change x with (upd_pipe (drop_end fd a en) (close_fd fd (set_ep e s))) end.
  set (s1 := upd_pipe (drop_end fd a en) _).
  assert (Hg1 : good s1 b c) by (by apply drop_end_good).
  assert (Hm1 : mode_ok s1 b) by exact Hm.
  assert (Hsz : (size (conn2fd1_ends (pipe s1)) < size (conn2fd1_ends (pipe s)))%nat).
  { cbn. rewrite map_size_delete_Some by eauto. pose proof (map_size_ne_0_lookup_2 _ fd ltac:(eauto) : size (conn2fd1_ends (pipe s)) <> 0%nat). lia. }
  destruct (no_ends (pipe s1)) eqn:Hno.
  - apply no_ends_empty in Hno. rewrite (buffer_empty_nil _ _ _ Hg1). destruct b as [|x b].
    + destruct (wait_for_fd1_inv s1 c Hg1 Hm1 Hself Hno Hoff) as (s' & He' & Hinv & Hc' & Hfit).
      exists s'. split; [done|]. split; [done|]. split; [intros _; by rewrite Hc'; rewrite Hno in Hsz|].
      intros fuel Hf. destruct Hfit as [|[Hb Hk]]; [by left|]. right. apply (close_fits fuel fd s); [done| |done].
      by rewrite Hk.
    + destruct (set_send_only_mode_good true s1 _ c Hg1) as (e2 & He2 & Hg2 & _).
      rewrite He2. eexists. split; [done|]. split.
      * left. exists (x :: b), c. split; [done|done| |done]. cbn. intros Hp. cbn in Hoff. lia.
      * split; [done|]. intros fuel Hf. right. by apply (close_fits fuel fd s).
  - exists s1. split; [done|]. split.
    + left. exists b, c. split; [done|done| |done]. intros Hp. cbn in Hp. lia.
    + split; [done|]. intros fuel Hf. right. by apply (close_fits fuel fd s).
Qed.

Lemma moved_fits fuel fd1 rs str b c s got str' b' s' :
  streams (kern s) !! fd1 = Some str -> good s b c ->
  moved fd1 rs str b c s got str' b' s' -> fits fuel s -> fits fuel s'.
Proof.
  intros Hstr Hg Hmv [Hv Hp]. pose proof (moved_small _ _ _ _ _ _ _ _ _ _ Hmv) as [Hsm Hpd].
  pose proof Hmv as [Hg' _ _ _ _ _ Hst _]. split.
  - unfold volume in *. rewrite (LinearBuffer.h_length _ _ (g_buf _ _ _ Hg')), Nat2Z.id.
    rewrite (LinearBuffer.h_length _ _ (g_buf _ _ _ Hg)), Nat2Z.id in Hv.
    rewrite Hst, stream_volume_insert. rewrite (stream_volume_lookup _ _ _ Hstr) in Hv. lia.
  - intros fd x. rewrite Hst. destruct (decide (fd = fd1)) as [->|Hne].
    + rewrite lookup_insert_eq. intros [= <-]. specialize (Hp _ _ Hstr). lia.
    + rewrite lookup_insert_ne by done. apply Hp.
Qed.

(** [forward()] on an open pipe. *)
Lemma forward_open fuel fd1 drain s b c :
  PipeRecorder.env_ok -> open_ok s b c -> is_Some (conn2fd1_ends (pipe s) !! fd1) -> fits fuel s ->
  exists s' r b' c' str', forward fuel fd1 drain s = Ret (s', r) /\ open_ok s' b' c' /\ fits fuel s' /\
    forward_ok drain r b' (send_only_mode_ (pipe s')) str' /\
    conn2fd1_ends (pipe s') = conn2fd1_ends (pipe s) /\ ffd2fd1_ends (pipe s') = ffd2fd1_ends (pipe s) /\
    ends (pipe s') = ends (pipe s).
Proof.
  intros Henv Ho [a Ha] Hfit. pose proof Ho as [Hg Hm Ht Hself].
  destruct (proj1 (proj1 (g_ends _ _ _ Hg) fd1 a) Ha) as (en & Hen & _).
  destruct (g_reg1 _ _ _ Hg fd1 ltac:(eauto)) as (_ & _ & [str Hstr] & _).
  pose proof (timer_off _ _ _ fd1 Ho ltac:(eauto)) as Hoff. pose proof Hfit as [Hv Hp].
  assert (Hsz : Z.of_nat (length b + length (total str)) <= 2 ^ 30).
  { unfold volume in Hv. rewrite (LinearBuffer.h_length _ _ (g_buf _ _ _ Hg)), Nat2Z.id in Hv.
    rewrite (stream_volume_lookup _ _ _ Hstr) in Hv. lia. }
  destruct (g_known _ _ _ Hg a en Hen) as [Hnd Hin].
  destruct (forward_loop_moved fuel fd1 (recorders en) drain str s b c Henv Hg Hm ltac:(eauto) Hstr Hnd Hin Hsz (Hp _ _ Hstr))
    as (s' & r & got & str' & b' & He & Hmv & Hr).
  exists s', r, b', (PipeRecorder.arrive (recorders en) got c), str'. split.
  { unfold forward, get_end. by rewrite (finished_false _ _ _ Hg), Ha, Hen. }
  pose proof Hmv as [Hg' Hm' _ _ _ _ _ [(m & bf & Hpe) _ _]]. split.
  { split; [done|done| |]; rewrite Hpe; cbn; [lia|done]. }
  split; [by eapply moved_fits|]. split; [done|]. by rewrite Hpe.
Qed.

(** ** The operations keep the pipe in order *)

Lemma finish_inv s b c : open_ok s b c -> exists s', finish s = Ret s' /\ Inv s' /\ conn2fd1_ends (pipe s') = ∅ /\ ffd2fd1_ends (pipe s') = ∅.
Proof.
  intros [Hg Hm _ _]. destruct (finish_closed s b c Hg Hm) as (s' & He & Hcl & _).
  exists s'. split; [done|]. split; [by right|]. split; apply Hcl.
Qed.

Lemma closed_finished s : closed_ok s -> finished (pipe s) = true.
Proof. intros Hcl. unfold finished. by rewrite (cl_fd0 _ Hcl). Qed.

Lemma pipe_fd1_read_cb_inv fuel fd ready s b c :
  PipeRecorder.env_ok -> open_ok s b c -> is_Some (conn2fd1_ends (pipe s) !! fd) -> fits fuel s ->
  exists s', pipe_fd1_read_cb fuel fd ready s = Ret s' /\ Inv s'.
Proof.
  intros Henv Ho Hfd Hfit. unfold pipe_fd1_read_cb. destruct ready; cbn [negb].
  2:{ destruct (close_one_fd1_inv fd s b c Ho) as (s' & He & Hinv & _). eauto. }
  destruct (forward_open fuel fd false s b c Henv Ho Hfd Hfit) as (s1 & r & b1 & c1 & str & He & Ho1 & _ & Hr & _).
  unfold mbind, outcome_bind. rewrite He. destruct r; cbn in Hr.
  - destruct Hr as (_ & -> & _). exists s1. split; [done|]. left. eauto.
  - destruct (finish_inv s1 b1 c1 Ho1) as (s' & He' & Hinv & _). eauto.
  - destruct (close_one_fd1_inv fd s1 b1 c1 Ho1) as (s' & He' & Hinv & _). eauto.
  - destruct Hr as (_ & -> & _). exists s1. split; [done|]. left. eauto.
  - done.
Qed.

Lemma framed_open s s' b b' c :
  open_ok s b c -> good s' b' c -> mode_ok s' b' -> framed s s' -> (b = [] -> b' = []) -> open_ok s' b' c.
Proof.
  intros [_ _ Ht Hself] Hg Hm Hf Hb. destruct (framed_ends _ _ Hf) as (Hc & _ & _ & _ & Hid & _ & Hs).
  split; [done|done| |congruence]. rewrite Hid, Hc. intros Hp. destruct (Ht Hp). auto.
Qed.

Lemma pipe_fd0_write_cb_inv ready s b c :
  open_ok s b c -> send_only_mode_ (pipe s) = true -> exists s', pipe_fd0_write_cb ready s = Ret s' /\ Inv s'.
Proof.
  intros Ho Hso. unfold pipe_fd0_write_cb. destruct ready; cbn [negb].
  2:{ destruct (finish_inv s b c Ho) as (s' & He & Hinv & _). eauto. }
  pose proof Ho as [Hg Hm Ht Hself]. pose proof (Hm Hso) as Hne.
  assert (Hoff : fd1_timeout_id_ (pipe s) < 0).
  { destruct (Z.lt_ge_cases (fd1_timeout_id_ (pipe s)) 0) as [|Hge]; [done|]. by destruct (Ht Hge). }
  destruct (send_buf_spec s b c Hg Hm) as (s1 & r & sent & rest & He & -> & Hg1 & _ & Hf1 & Hr & Hm1).
  assert (Ho1 : open_ok s1 rest c).
  { by eapply framed_open. }
  unfold mbind, outcome_bind. rewrite He. destruct r; cbn in Hr; try done.
  - destruct Hr as [_ ->]. exists s1. split; [done|]. left. eauto.
  - destruct (finish_inv s1 rest c Ho1) as (s' & He' & Hinv & _). eauto.
  - destruct Hr as [-> _]. rewrite (buffer_empty_nil _ _ _ Hg1). cbn [andb].
    destruct (no_ends (pipe s1)) eqn:Hno; [|exists s1; split; [done|left; eauto]].
    apply no_ends_empty in Hno. destruct (framed_ends _ _ Hf1) as (_ & _ & _ & _ & Hid & _ & _).
    destruct (wait_for_fd1_inv s1 c Hg1 Hm1 (o_self _ _ _ Ho1) Hno ltac:(lia)) as (s' & He' & Hinv & _). eauto.
Qed.

(** The timer elapses: the callback is called, then the event loop removes the timer. *)
Definition timer_elapses (s : st) : outcome st :=
  let id := fd1_timeout_id_ (pipe s) in
  s ← fd1_timeout_cb s; with_epoll (Epoll.del_timer id) s.

Lemma good_no_timer s b c : good s b c -> good (upd_pipe (set_fd1_timeout_id_ (-1)) s) b c.
Proof. intros []. split; cbn; try done; lia. Qed.

Lemma timer_elapses_inv s b c :
  open_ok s b c -> 0 <= fd1_timeout_id_ (pipe s) -> exists s', timer_elapses s = Ret s' /\ Inv s'.
Proof.
  intros [Hg Hm Ht Hself] Hid. destruct (g_timer _ _ _ Hg Hid) as [tc Htc]. destruct (Ht Hid) as [Hconn ->].
  unfold timer_elapses, fd1_timeout_cb. cbv zeta. set (s2 := upd_pipe _ (upd_pipe _ s)).
  assert (Hg2 : good s2 [] c) by (destruct (good_no_timer _ _ _ Hg); by split).
  assert (Hm2 : mode_ok s2 []) by exact Hm.
  destruct (2 <=? fd1_timeout_round_ (pipe s2)); unfold mbind, outcome_bind.
  - destruct (finish_closed s2 [] c Hg2 Hm2) as (s3 & He3 & Hcl & _ & Hst). rewrite He3.
    destruct (Hst ltac:(done)) as (Htc3 & _). pose proof Hcl as [? ? ? ? ? ? Hok3].
    destruct (Epoll.del_timer_correct (Z.to_nat (fd1_timeout_id_ (pipe s))) tc (ep s3) (Epoll.ok_timers _ Hok3))
      as (e & He & Hok' & _); [by rewrite Htc3|].
    rewrite Z2Nat.id in He by done. unfold with_epoll, mbind, outcome_bind. rewrite He.
    destruct (Epoll.del_timer_rest _ _ _ He) as (_ & _ & Hctx & Hfds).
    eexists. split; [done|]. right. split; try done. cbn. split; [|done]. rewrite Hfds, Hctx. apply Hok3.
  - destruct (start_timer_spec s2) as (e3 & id & He3 & Hok3 & Hctx3 & [tc' Htc'] & Hno & Hkeep); [apply Hg2|apply Hg2|].
    rewrite He3. unfold with_epoll, mbind, outcome_bind. cbn [ep upd_pipe set_pipe set_ep].
    destruct (Epoll.del_timer_correct (Z.to_nat (fd1_timeout_id_ (pipe s))) tc e3 (Epoll.ok_timers _ Hok3))
      as (e & He & Hok' & Hin); [by apply Hkeep|].
    rewrite Z2Nat.id in He by done. rewrite He.
    destruct (Epoll.del_timer_rest _ _ _ He) as (_ & _ & Hctx & Hfds).
    eexists. split; [done|]. left. exists [], c. destruct Hg2 as [? ? ? Hr0 Hr1 ? ? ? ? _].
    split; [|done|done|done]. split; cbn; rewrite ?Hctx, ?Hctx3; try done.
    + split; [|done]. rewrite Hfds, Hctx. apply Hok3.
    + intros _. rewrite Nat2Z.id. exists tc'. apply Hin. split; [|done]. intros ->. by apply (Hno tc).
Qed.

(** ** File descriptors of the intercepted processes *)

(** Changing the set of FileFDs of one end together with the table. *)
Lemma good_ends m f s b c :
  good s b c -> ends_ok (set_ends m (set_ffd2fd1_ends f (pipe s))) ->
  (forall a e, m !! a = Some e -> exists e', ends (pipe s) !! a = Some e' /\ recorders e' = recorders e) ->
  good (upd_pipe (fun p => set_ends m (set_ffd2fd1_ends f p)) s) b c.
Proof.
  intros [? ? ? ? ? ? ? Hk ? ?] He Hm. split; cbn; try done. intros a e Ha.
  destruct (Hm a e Ha) as (e' & He' & <-). eauto.
Qed.

Lemma open_ends m f s b c :
  open_ok s b c -> ends_ok (set_ends m (set_ffd2fd1_ends f (pipe s))) ->
  (forall a e, m !! a = Some e -> exists e', ends (pipe s) !! a = Some e' /\ recorders e' = recorders e) ->
  open_ok (upd_pipe (fun p => set_ends m (set_ffd2fd1_ends f p)) s) b c.
Proof. intros [] He Hm. split; try done. by apply good_ends. Qed.

Lemma update_end_recorders (m : gmap nat pipe_end) a e ffds :
  m !! a = Some e ->
  forall a' e', <[a := mkEnd (pe_fd e) ffds (recorders e)]> m !! a' = Some e' ->
    exists e2, m !! a' = Some e2 /\ recorders e2 = recorders e'.
Proof.
  intros Ha a' e'. destruct (decide (a' = a)) as [->|Hne].
  - rewrite lookup_insert_eq. intros [= <-]. eauto.
  - rewrite lookup_insert_ne by done. eauto.
Qed.

(** The ends found by connection do not change when only FileFDs do. *)
Lemma conns_update p a e ffds f :
  ends_ok p -> ends p !! a = Some e ->
  forall fd a', conn2fd1_ends p !! fd = Some a' <->
    exists e', ends (set_ends (<[a := mkEnd (pe_fd e) ffds (recorders e)]> (ends p)) (set_ffd2fd1_ends f p)) !! a' = Some e' /\
      pe_fd e' = fd.
Proof.
  intros [H1 _] Ha fd a'. rewrite H1. cbn. destruct (decide (a' = a)) as [->|Hne].
  - rewrite lookup_insert_eq. split; intros (e' & He' & Hpe).
    + simplify_eq. by eexists.
    + injection He' as <-. cbn in Hpe. eauto.
  - by rewrite lookup_insert_ne by done.
Qed.

Lemma forget_file_fd_inv file_fd a s b c :
  open_ok s b c -> ffd2fd1_ends (pipe s) !! file_fd = Some a ->
  exists s', forget_file_fd file_fd a s = Ret s' /\ open_ok s' b c.
Proof.
  intros Ho Hf. pose proof (g_ends _ _ _ (o_good _ _ _ Ho)) as Hends. pose proof Hends as [H1 H2].
  destruct (proj1 (H2 file_fd a) Hf) as (e & He & Hin).
  unfold forget_file_fd, get_end. rewrite He. eexists. split; [done|].
  apply open_ends; [done| |by apply update_end_recorders].
  split; [exact (conns_update (pipe s) a e _ _ Hends He)|]. cbn. intros f a'. rewrite lookup_delete_Some, H2.
  destruct (decide (a' = a)) as [->|Hne].
  - rewrite lookup_insert_eq. split.
    + intros [Hne (e' & He' & Hf')]. simplify_eq. eexists. split; [done|]. cbn. set_solver.
    + intros (e' & [= <-] & Hf'). cbn in Hf'. split; [set_solver|]. exists e. split; [done|set_solver].
  - rewrite lookup_insert_ne by done. split; [naive_solver|]. intros (e' & He' & Hf'). split; [|eauto].
    intros ->. assert (Hx : ffd2fd1_ends (pipe s) !! f = Some a') by (apply H2; eauto). by simplify_eq.
Qed.

Lemma handle_dup_inv old_ffd new_ffd s b c :
  open_ok s b c -> ffd2fd1_ends (pipe s) !! new_ffd = None ->
  exists s', handle_dup old_ffd new_ffd s = Ret s' /\ open_ok s' b c.
Proof.
  intros Ho Hnew. unfold handle_dup. destruct (ffd2fd1_ends (pipe s) !! old_ffd) as [a|] eqn:Hf; [|eauto].
  pose proof (g_ends _ _ _ (o_good _ _ _ Ho)) as Hends. pose proof Hends as [H1 H2].
  destruct (proj1 (H2 old_ffd a) Hf) as (e & He & Hin).
  unfold get_end. rewrite He. eexists. split; [done|].
  apply open_ends; [done| |by apply update_end_recorders].
  split; [exact (conns_update (pipe s) a e _ _ Hends He)|]. cbn. intros f a'.
  destruct (decide (f = new_ffd)) as [->|Hnf].
  - rewrite lookup_insert_eq. split.
    + intros [= <-]. rewrite lookup_insert_eq. eexists. split; [done|]. cbn. set_solver.
    + intros (e' & He' & Hf'). destruct (decide (a' = a)) as [->|Hne]; [done|].
      rewrite lookup_insert_ne in He' by done.
      assert (Hx : ffd2fd1_ends (pipe s) !! new_ffd = Some a') by (apply H2; eauto). congruence.
  - rewrite lookup_insert_ne, H2 by done. destruct (decide (a' = a)) as [->|Hne].
    + rewrite lookup_insert_eq. split.
      * intros (e' & He' & Hf'). simplify_eq. eexists. split; [done|]. cbn. set_solver.
      * intros (e' & [= <-] & Hf'). cbn in Hf'. exists e. split; [done|set_solver].
    + by rewrite lookup_insert_ne by done.
Qed.

Lemma drain_fd1_end_inv fuel file_fd s :
  PipeRecorder.env_ok -> Inv s -> fits fuel s -> exists s', drain_fd1_end fuel file_fd s = Ret s' /\ Inv s'.
Proof.
  intros Henv [(b & c & Ho)|Hcl] Hfit; unfold drain_fd1_end.
  2:{ rewrite (closed_finished _ Hcl). exists s. split; [done|by right]. }
  rewrite (finished_false _ _ _ (o_good _ _ _ Ho)).
  destruct (ffd2fd1_ends (pipe s) !! file_fd) as [a|] eqn:Hf; [|exists s; split; [done|left; eauto]].
  destruct (g_ends _ _ _ (o_good _ _ _ Ho)) as [H1 H2].
  destruct (proj1 (H2 file_fd a) Hf) as (e & He & Hin).
  assert (Hfd : is_Some (conn2fd1_ends (pipe s) !! pe_fd e)) by (exists a; apply H1; eauto).
  destruct (forward_open fuel (pe_fd e) true s b c Henv Ho Hfd Hfit)
    as (s1 & r & b1 & c1 & str & Hfw & Ho1 & _ & Hr & _ & Hff & _).
  unfold get_end. rewrite He. unfold mbind, outcome_bind. rewrite Hfw.
  assert (Hforget : exists s', forget_file_fd file_fd a s1 = Ret s' /\ Inv s').
  { destruct (forget_file_fd_inv file_fd a s1 b1 c1 Ho1) as (s' & ? & ?); [by rewrite Hff|].
    exists s'. split; [done|left; eauto]. }
  destruct r; try done.
  - rewrite (proj2 (Z.leb_le _ _) (g_fd0 _ _ _ (o_good _ _ _ Ho1))).
    destruct (finish_inv s1 b1 c1 Ho1) as (s' & ? & ? & _). eauto.
  - destruct (close_one_fd1_inv (pe_fd e) s1 b1 c1 Ho1) as (s' & ? & ? & _). eauto.
Qed.

Lemma handle_close_inv fuel file_fd s :
  PipeRecorder.env_ok -> Inv s -> fits fuel s -> exists s', handle_close fuel file_fd s = Ret s' /\ Inv s'.
Proof.
  intros Henv Hinv Hfit. unfold handle_close.
  destruct (ffd2fd1_ends (pipe s) !! file_fd) as [a|] eqn:Hf; [|eauto].
  destruct Hinv as [(b & c & Ho)|Hcl]; [|by rewrite (cl_ffds _ Hcl) in Hf].
  destruct (g_ends _ _ _ (o_good _ _ _ Ho)) as [_ H2]. destruct (proj1 (H2 file_fd a) Hf) as (e & He & _).
  unfold get_end. rewrite He. unfold mbind, outcome_bind. destruct (bool_decide _).
  - apply drain_fd1_end_inv; [done|left; eauto|done].
  - destruct (forget_file_fd_inv file_fd a s b c Ho Hf) as (s' & ? & ?). exists s'. split; [done|left; eauto].
Qed.

(** ** New ends *)

Lemma stop_timer_open s b c :
  open_ok s b c -> exists s', stop_timer s = Ret s' /\ open_ok s' b c /\ fd1_timeout_id_ (pipe s') < 0 /\
    pipe s' = set_fd1_timeout_id_ (fd1_timeout_id_ (pipe s')) (pipe s) /\
    Epoll.fd_contexts_ (ep s') = Epoll.fd_contexts_ (ep s) /\ recs s' = recs s /\ kern s' = kern s.
Proof.
  intros [Hg Hm Ht Hself]. destruct (stop_timer_spec s (g_ep _ _ _ Hg) (g_timer _ _ _ Hg)) as (e & He & Hok & Hctx).
  rewrite He. destruct (Z.leb_spec 0 (fd1_timeout_id_ (pipe s))).
  - eexists. split; [done|]. split; [|by cbn].
    destruct Hg as [? ? ? Hr0 Hr1 ? ? ? ? _]. split; [|done|cbn; lia|done]. split; cbn; rewrite ?Hctx; try done; lia.
  - exists s. split; [done|]. split; [by split|]. split_and!; try done. by destruct s as [[] ? ? ?].
Qed.

Lemma insert_end_ok p fd a f rs :
  ends_ok p -> ends p !! a = None -> conn2fd1_ends p !! fd = None -> ffd2fd1_ends p !! f = None ->
  ends_ok (set_ends (<[a := mkEnd fd {[f]} rs]> (ends p))
    (set_conn2fd1_ends (<[fd := a]> (conn2fd1_ends p)) (set_ffd2fd1_ends (<[f := a]> (ffd2fd1_ends p)) p))).
Proof.
  intros [H1 H2] Ha Hfd Hf. split; cbn.
  - intros fd' a'. destruct (decide (fd' = fd)) as [->|Hne].
    + rewrite lookup_insert_eq. split.
      * intros [= <-]. rewrite lookup_insert_eq. by eexists.
      * intros (e & He & Hpe). destruct (decide (a' = a)) as [->|Hna]; [done|].
        rewrite lookup_insert_ne in He by done.
        assert (Hx : conn2fd1_ends p !! fd = Some a') by (apply H1; eauto). congruence.
    + rewrite lookup_insert_ne, H1 by done. split; intros (e & He & Hpe).
      * exists e. rewrite lookup_insert_ne; [done|]. intros ->. congruence.
      * destruct (decide (a' = a)) as [->|Hna]; [rewrite lookup_insert_eq in He; by simplify_eq|].
        rewrite lookup_insert_ne in He by done. eauto.
  - intros f' a'. destruct (decide (f' = f)) as [->|Hne].
    + rewrite lookup_insert_eq. split.
      * intros [= <-]. rewrite lookup_insert_eq. eexists. split; [done|]. cbn. set_solver.
      * intros (e & He & Hin). destruct (decide (a' = a)) as [->|Hna]; [done|].
        rewrite lookup_insert_ne in He by done.
        assert (Hx : ffd2fd1_ends p !! f = Some a') by (apply H2; eauto). congruence.
    + rewrite lookup_insert_ne, H2 by done. split; intros (e & He & Hin).
      * exists e. rewrite lookup_insert_ne; [done|]. intros ->. congruence.
      * destruct (decide (a' = a)) as [->|Hna]; [rewrite lookup_insert_eq in He; simplify_eq; set_solver|].
        rewrite lookup_insert_ne in He by done. eauto.
Qed.

(** A connection, FileFD and recorders that can be added. *)
Record can_add (fd file_fd : nat) (rs : list nat) (s : st) : Prop := {
  ca_new : conn2fd1_ends (pipe s) !! Z.of_nat fd = None;
  ca_fd0 : Z.of_nat fd <> fd0_conn (pipe s);
  ca_reg : ~ added s (Z.of_nat fd);
  ca_stream : is_Some (streams (kern s) !! Z.of_nat fd);
  ca_ffd : ffd2fd1_ends (pipe s) !! file_fd = None;
  ca_nodup : NoDup rs;
  ca_recs : forall i, i ∈ rs -> is_Some (recs s !! i)
}.

Lemma contents_dom h c i : PipeRecorder.contents h c -> is_Some (h !! i) -> is_Some (c !! i).
Proof.
  intros Hc [r Hr]. specialize (Hc i). rewrite Hr in Hc. destruct (PipeRecorder.deactivated_ r); [eauto|].
  destruct Hc as (data & ? & _). eauto.
Qed.

(** [add_fd1_and_proc()] after the timer has been stopped. *)
Definition add_end (fd1_conn : Z) (file_fd : nat) (rs : list nat) (p : t) : t :=
  let a := new_end_addr p in
  set_ends (<[a := mkEnd fd1_conn {[file_fd]} rs]> (ends p))
    (set_conn2fd1_ends (<[fd1_conn := a]> (conn2fd1_ends p))
       (set_ffd2fd1_ends (<[file_fd := a]> (ffd2fd1_ends p)) p)).

Lemma add_end_good fd file_fd rs e s b c :
  good s b c -> can_add fd file_fd rs s -> Epoll.ok e -> Epoll.same_timers (ep s) e ->
  (forall x, Epoll.added (Epoll.fd_contexts_ e) x <->
     (x = Z.of_nat fd /\ send_only_mode_ (pipe s) = false) \/ added s x) ->
  good (set_ep e (upd_pipe (add_end (Z.of_nat fd) file_fd rs) s)) b c.
Proof.
  intros [Hfd0 Hb Hok Hr0 Hr1 Hends Hcont Hk Hcl Htm] [Hnew Hne0 Hreg Hstr Hffd Hnd Hrs] Hoke Ht Hadd.
  assert (Ha : ends (pipe s) !! new_end_addr (pipe s) = None).
  { pose proof (is_fresh (dom (ends (pipe s)))) as Hfr. by apply not_elem_of_dom in Hfr. }
  split; cbn; try done.
  - rewrite Hadd, <- Hr0. naive_solver.
  - intros fd' Hfd'. destruct (decide (fd' = Z.of_nat fd)) as [->|Hne].
    + split; [lia|]. split; [done|]. split; [done|]. rewrite Hadd. naive_solver.
    + rewrite lookup_insert_ne in Hfd' by done. destruct (Hr1 fd' Hfd') as (? & ? & ? & Hx). split_and!; try done.
      rewrite Hadd, <- Hx. naive_solver.
  - by apply insert_end_ok.
  - intros a' e'. destruct (decide (a' = new_end_addr (pipe s))) as [->|Hna].
    + rewrite lookup_insert_eq. intros [= <-]. split; [done|]. intros i Hi.
      eapply contents_dom; [exact Hcont|]. by apply Hrs.
    + rewrite lookup_insert_ne by done. apply Hk.
  - intros Hp. destruct Ht as (-> & _). by apply Htm.
Qed.

Lemma add_fd1_and_proc_inv fd file_fd proc rs s b c :
  open_ok s b c -> can_add fd file_fd rs s ->
  exists s', add_fd1_and_proc (Z.of_nat fd) file_fd proc rs s = Ret s' /\ open_ok s' b c.
Proof.
  intros Ho Hca. unfold add_fd1_and_proc.
  rewrite (finished_false _ _ _ (o_good _ _ _ Ho)). cbn [negb assert].
  destruct (stop_timer_open s b c Ho) as (s1 & He1 & [Hg1 Hm1 _ Hself1] & Hid1 & Hp1 & Hctx1 & Hrecs1 & Hk1).
  assert (Hca1 : can_add fd file_fd rs s1).
  { destruct Hca. split; try (rewrite Hp1; done); rewrite ?Hctx1, ?Hrecs1, ?Hk1; done. }
  clear Hp1 Hctx1 Hrecs1 Hk1 Hca Ho. unfold mbind at 1 2, outcome_bind at 1 2. rewrite He1. cbv zeta.
  change (upd_pipe _ s1) with (upd_pipe (add_end (Z.of_nat fd) file_fd rs) s1).
  change (send_only_mode_ (pipe (upd_pipe _ s1))) with (send_only_mode_ (pipe s1)).
  assert (Hend : forall e, good (set_ep e (upd_pipe (add_end (Z.of_nat fd) file_fd rs) s1)) b c ->
    exists s', Ret (upd_pipe (fun p => set_proc2recorders (<[proc := rs]> (proc2recorders p)) p)
      (set_ep e (upd_pipe (add_end (Z.of_nat fd) file_fd rs) s1))) = Ret s' /\ open_ok s' b c).
  { intros e [? ? ? ? ? ? ? ? ? ?]. eexists. split; [done|]. split; [by split|done|cbn; lia|done]. }
  destruct (send_only_mode_ (pipe s1)) eqn:Hso.
  - apply (Hend (ep s1)). apply add_end_good; try done; [apply Hg1|]. intros x. rewrite Hso. naive_solver.
  - unfold watch, with_epoll. change (ep (upd_pipe _ s1)) with (ep s1).
    destruct (Epoll.add_fd_returns (Z.of_nat fd) pipe_fd1_read (Some self) (ep s1) ltac:(lia) (ca_reg _ _ _ _ Hca1)) as [e He].
    destruct (Epoll.add_fd_spec _ _ _ _ _ _ He) as (_ & _ & _ & Ha & Ht & _ & _).
    unfold mbind, outcome_bind. rewrite He. apply Hend. apply add_end_good; try done.
    + eapply Epoll.add_fd_ok; [done|apply Hg1].
    + intros x. rewrite Ha, Hso. naive_solver.
Qed.

(** ** Draining all ends *)

(** The ends of the rest of the iteration are still there. *)
Definition all_present (l : list (nat * nat)) (s : st) : Prop :=
  Forall (fun fa => is_Some (ends (pipe s) !! snd fa)) l.

Lemma drain_pass_inv fuel l visited s b c :
  PipeRecorder.env_ok -> open_ok s b c -> fits fuel s -> all_present l s ->
  exists s' visited' r, drain_pass fuel l visited s = Ret (s', visited', r) /\ Inv s' /\
    (r = PassRestart -> (size (conn2fd1_ends (pipe s')) < size (conn2fd1_ends (pipe s)))%nat /\
       (closed_ok s' \/ fits fuel s')).
Proof.
  intros Henv. revert visited s b c. induction l as [|[f a] l IH]; intros visited s b c Ho Hfit Hl.
  { exists s, visited, PassDone. split; [done|]. split; [left; eauto|done]. }
  apply Forall_cons in Hl as [[e He] Hl]. cbn [drain_pass snd] in *. unfold get_end. rewrite He.
  unfold mbind, outcome_bind. destruct (bool_decide (pe_fd e ∈ visited)); [by apply (IH _ s b c)|].
  assert (Hfd : is_Some (conn2fd1_ends (pipe s) !! pe_fd e)).
  { exists a. apply (proj1 (g_ends _ _ _ (o_good _ _ _ Ho))). eauto. }
  destruct (forward_open fuel (pe_fd e) true s b c Henv Ho Hfd Hfit)
    as (s1 & r & b1 & c1 & str & Hfw & Ho1 & Hfit1 & Hr & Hcn & _ & Hen).
  rewrite Hfw. assert (Hl1 : all_present l s1) by (unfold all_present; by rewrite Hen).
  destruct r; try done; try (rewrite <- Hcn; by apply (IH _ s1 b1 c1)).
  - rewrite (proj2 (Z.leb_le _ _) (g_fd0 _ _ _ (o_good _ _ _ Ho1))).
    destruct (finish_inv s1 b1 c1 Ho1) as (s' & Hf & Hinv & _). rewrite Hf. by eexists _, _, PassFinished.
  - destruct (close_one_fd1_inv (pe_fd e) s1 b1 c1 Ho1) as (s' & Hf & Hinv & Hsz & Hfit'). rewrite Hf.
    eexists _, _, PassRestart. split; [done|]. split; [done|]. intros _. rewrite <- Hcn.
    split; [apply Hsz; by rewrite Hcn|by apply Hfit'].
Qed.

Lemma open_not_closed s b c : open_ok s b c -> ~ closed_ok s.
Proof. intros [Hg _ _ _] Hcl. pose proof (g_fd0 _ _ _ Hg). rewrite (cl_fd0 _ Hcl) in *. lia. Qed.

Lemma drain_loop_inv rounds fuel visited s :
  PipeRecorder.env_ok -> Inv s -> (closed_ok s \/ fits fuel s) -> (size (conn2fd1_ends (pipe s)) < rounds)%nat ->
  exists s', drain_loop rounds fuel visited s = Ret s' /\ Inv s'.
Proof.
  intros Henv. revert visited s. induction rounds as [|rounds IH]; intros visited s Hinv Hfit Hsz; [lia|].
  cbn [drain_loop]. destruct Hinv as [(b & c & Ho)|Hcl].
  2:{ rewrite (cl_ffds _ Hcl), map_to_list_empty. cbn. exists s. split; [done|by right]. }
  destruct Hfit as [Hcl|Hfit]; [by destruct (open_not_closed _ _ _ Ho)|].
  destruct (drain_pass_inv fuel (map_to_list (ffd2fd1_ends (pipe s))) visited s b c Henv Ho Hfit) as (s1 & v1 & r & He & Hinv1 & Hr).
  { apply Forall_forall. intros [f a] Hx%elem_of_map_to_list. apply (proj2 (g_ends _ _ _ (o_good _ _ _ Ho))) in Hx as (e & ? & _). eauto. }
  unfold mbind, outcome_bind. rewrite He. destruct r; [eauto| |eauto].
  destruct (Hr eq_refl) as [Hlt Hfit1]. apply IH; try done. lia.
Qed.

Lemma drain_inv fuel s :
  PipeRecorder.env_ok -> Inv s -> fits fuel s -> exists s', drain fuel s = Ret s' /\ Inv s'.
Proof.
  intros Henv Hinv Hfit. unfold drain. destruct (finished (pipe s)); [eauto|].
  apply drain_loop_inv; try done; [by right|lia].
Qed.

(** ** Replayed data and references *)

Lemma add_bytes_inv s b c bf more :
  open_ok s b c -> fd1_timeout_id_ (pipe s) < 0 -> LinearBuffer.holds bf (b ++ more) ->
  exists s', (s ← send_buf (upd_pipe (set_buf_ bf) s); Ret (fst s)) = Ret s' /\ Inv s'.
Proof.
  intros [Hg Hm Ht Hself] Hoff Hbf. set (s1 := upd_pipe (set_buf_ bf) s).
  assert (Hg1 : good s1 (b ++ more) c) by (by eapply good_buf).
  assert (Hm1 : mode_ok s1 (b ++ more)) by (intros Hx Hy; apply app_nil in Hy as [? _]; by apply (Hm Hx)).
  destruct (send_buf_spec s1 (b ++ more) c Hg1 Hm1) as (s2 & r & sent & rest & He & Heq & Hg2 & _ & Hf2 & _ & Hm2).
  unfold mbind, outcome_bind. rewrite He. exists s2. split; [done|]. left. exists rest, c.
  destruct (framed_ends _ _ Hf2) as (_ & _ & _ & _ & Hid & _ & Hs). split; [done|done| |by rewrite Hs].
  rewrite Hid. cbn. lia.
Qed.

Lemma maybe_finish_inv s : Inv s -> exists s', maybe_finish s = Ret s' /\ Inv s'.
Proof.
  intros [(b & c & Ho)|Hcl]; unfold maybe_finish.
  2:{ rewrite (closed_finished _ Hcl). exists s. split; [done|by right]. }
  pose proof Ho as [Hg Hm Ht Hself]. rewrite (finished_false _ _ _ Hg). cbn [negb andb].
  destruct (no_ends (pipe s)) eqn:Hno; [|exists s; split; [done|left; eauto]].
  rewrite (buffer_empty_nil _ _ _ Hg). destruct b as [|x b].
  - destruct (finish_inv s [] c Ho) as (s' & ? & ? & _). eauto.
  - destruct (set_send_only_mode_good true s _ c Hg) as (e & He & Hg' & _). rewrite He.
    eexists. split; [done|]. left. exists (x :: b), c. split; [done|done| |done]. intros Hp. by destruct (Ht Hp).
Qed.

(** ** All operations *)

(** What can happen to a pipe: callbacks, calls of the rest of the supervisor, and changes of
    the outside (the kernel's side, new and deactivated recorders). *)
Inductive op :=
| ORead (fd : Z) (ready : bool)
| OWrite (ready : bool)
| OTimer
| OFdClose (file_fd : nat)
| OFdDup (old_file_fd new_file_fd : nat)
| OAddFd1 (fd file_fd proc : nat) (rs : list nat)
| ODrainEnd (file_fd : nat)
| ODrain
| OAddBuffer (data : list Z)
| OAddFile (rd : Z -> LinearBuffer.answer) (len : Z)
| OFd0Ptr
| OFd1Ptr
| OFd0Gone
| OFd1Gone
| OFinish
| OOutside (k : kernel)
| ONewRecorder (i : nat)
| ODeactivate (i : nat).

Definition exec (fuel : nat) (o : op) (s : st) : outcome st :=
  match o with
  | ORead fd ready => pipe_fd1_read_cb fuel fd ready s
  | OWrite ready => pipe_fd0_write_cb ready s
  | OTimer => timer_elapses s
  | OFdClose f => handle_close fuel f s
  | OFdDup f g => handle_dup f g s
  | OAddFd1 fd f proc rs => add_fd1_and_proc (Z.of_nat fd) f proc rs s
  | ODrainEnd f => drain_fd1_end fuel f s
  | ODrain => drain fuel s
  | OAddBuffer data => add_data_from_buffer data s
  | OAddFile rd len => add_data_from_fd rd len s
  | OFd0Ptr => fd0_shared_ptr s
  | OFd1Ptr => fd1_shared_ptr s
  | OFd0Gone => Fd0Deleter s
  | OFd1Gone => Fd1Deleter s
  | OFinish => finish s
  | OOutside k => Ret (set_kern k s)
  | ONewRecorder i => Ret (set_recs (<[i := PipeRecorder.new]> (recs s)) s)
  | ODeactivate i =>
      r ← PipeRecorder.get (recs s) i; r ← PipeRecorder.deactivate r;
      Ret (set_recs (<[i := r]> (recs s)) s)
  end.

(** When it can happen: only watched file descriptors are reported, only running timers
    elapse, new objects are new, and data is replayed to a pipe that is not finished and
    does not wait for a new end. *)
Definition allowed (fuel : nat) (o : op) (s : st) : Prop :=
  match o with
  | ORead fd _ => is_Some (conn2fd1_ends (pipe s) !! fd) /\ added s fd /\ fits fuel s
  | OWrite _ => finished (pipe s) = false /\ added s (fd0_conn (pipe s))
  | OTimer => 0 <= fd1_timeout_id_ (pipe s)
  | OFdClose _ | ODrainEnd _ | ODrain => fits fuel s
  | OFdDup _ g => ffd2fd1_ends (pipe s) !! g = None
  | OAddFd1 fd f _ rs => finished (pipe s) = false /\ can_add fd f rs s
  | OAddBuffer data => finished (pipe s) = false /\ fd1_timeout_id_ (pipe s) < 0 /\
      Z.of_nat (volume s + length data) <= 2 ^ 30
  | OAddFile rd len => finished (pipe s) = false /\ fd1_timeout_id_ (pipe s) < 0 /\
      LinearBuffer.honest rd /\ Z.of_nat (volume s) + len <= 2 ^ 30
  | OFd0Ptr => fd0_shared_ptr_generated_ (pipe s) = false
  | OFd1Ptr => fd1_shared_ptr_generated_ (pipe s) = false
  | OFd0Gone | OFd1Gone | OFinish => True
  | OOutside k => ts_ok (clock k) /\ forall fd, is_Some (conn2fd1_ends (pipe s) !! fd) -> is_Some (streams k !! fd)
  | ONewRecorder i => recs s !! i = None
  | ODeactivate i => exists r, recs s !! i = Some r /\ PipeRecorder.deactivated_ r = false
  end.

Lemma good_recs h c' s b c :
  good s b c -> PipeRecorder.contents h c' -> (forall i, is_Some (c !! i) -> is_Some (c' !! i)) ->
  good (set_recs h s) b c'.
Proof.
  intros [? ? ? ? ? ? ? Hk ? ?] Hh Hc. split; cbn; try done. intros a e He. destruct (Hk a e He). eauto.
Qed.

Lemma insert_contents h (c : gmap nat (option (list Z))) i r o :
  PipeRecorder.contents h c ->
  (if PipeRecorder.deactivated_ r then o = None else exists data, o = Some data /\ PipeRecorder.records r data) ->
  PipeRecorder.contents (<[i := r]> h) (<[i := o]> c) /\ (forall j, is_Some (c !! j) -> is_Some (<[i := o]> c !! j)).
Proof.
  intros Hc Ho. split.
  - intros j. destruct (decide (j = i)) as [->|Hne].
    + rewrite !lookup_insert_eq. destruct (PipeRecorder.deactivated_ r); [by rewrite Ho|naive_solver].
    + rewrite !lookup_insert_ne by done. apply Hc.
  - intros j Hj. destruct (decide (j = i)) as [->|Hne]; [rewrite lookup_insert_eq|rewrite lookup_insert_ne by done]; eauto.
Qed.

Lemma recs_inv i r o s :
  Inv s -> (if PipeRecorder.deactivated_ r then o = None else exists data, o = Some data /\ PipeRecorder.records r data) ->
  Inv (set_recs (<[i := r]> (recs s)) s).
Proof.
  intros [(b & c & [Hg Hm Ht Hself])|Hcl] Ho.
  - left. destruct (insert_contents (recs s) c i r o (g_recs _ _ _ Hg) Ho) as [Hc Hs].
    exists b, (<[i := o]> c). split; [by eapply good_recs|done|done|done].
  - right. destruct Hcl. by split.
Qed.

Lemma add_data_inv s b c bf more :
  open_ok s b c -> fd1_timeout_id_ (pipe s) < 0 -> LinearBuffer.holds bf (b ++ more) ->
  exists s', ('(s, _) ← send_buf (upd_pipe (set_buf_ bf) s); Ret s) = Ret s' /\ Inv s'.
Proof.
  intros Ho Hoff Hbf. destruct (add_bytes_inv s b c bf more Ho Hoff Hbf) as (s' & He & Hinv).
  exists s'. split; [|done]. rewrite <- He. unfold mbind, outcome_bind. by destruct (send_buf _) as [[? ?]| |].
Qed.

Lemma open_length s b c : open_ok s b c -> (length b <= volume s)%nat.
Proof.
  intros [Hg _ _ _]. unfold volume. rewrite (LinearBuffer.h_length _ _ (g_buf _ _ _ Hg)), Nat2Z.id. lia.
Qed.

Lemma add_data_from_fd_inv rd len s b c :
  open_ok s b c -> fd1_timeout_id_ (pipe s) < 0 -> LinearBuffer.honest rd -> Z.of_nat (volume s) + len <= 2 ^ 30 ->
  exists s', add_data_from_fd rd len s = Ret s' /\ Inv s'.
Proof.
  intros Ho Hoff Hrd Hsz. pose proof (open_length _ _ _ Ho). unfold add_data_from_fd.
  destruct (Z.ltb_spec 0 len) as [Hlen|]; [|exists s; split; [done|left; eauto]].
  pose proof (g_buf _ _ _ (o_good _ _ _ Ho)) as Hb.
  destruct (LinearBuffer.ensure_space_holds len (buf_ (pipe s)) b) as (b1 & He1 & Hb1 & Hr1); [done|lia|lia|].
  destruct (LinearBuffer.received_holds rd len b1 b Hrd Hb1 Hr1) as (b2 & got & He2 & Hb2 & _).
  unfold LinearBuffer.read. rewrite (proj2 (Z.eqb_neq len 0)), (proj2 (Z.leb_le 0 len)) by lia.
  cbn [negb assert]. unfold mbind at 1 2 3 4, outcome_bind at 1 2 3 4. rewrite He1, He2. by eapply add_data_inv.
Qed.

(** The flags of the self pointers do not matter. *)
Lemma flag_inv f s :
  (forall p, exists g0 g1 h0 h1, f p = mkPipe (fd0_conn p) (conn2fd1_ends p) (ffd2fd1_ends p) (ends p)
     (proc2recorders p) (send_only_mode_ p) g0 g1 (fd1_timeout_round_ p) (buf_ p) (fd1_timeout_id_ p) h0 h1 (shared_self_ptr_ p)) ->
  Inv s -> Inv (upd_pipe f s).
Proof.
  intros Hf. destruct (Hf (pipe s)) as (g0 & g1 & h0 & h1 & Hp). unfold upd_pipe. rewrite Hp.
  intros [(b & c & [[] ? ? ?])|[]]; [left; exists b, c; by split; [split|..]|right; by split].
Qed.

(** C4. A pipe that is not replayed to while its timer runs fails no assertion and stays in order.
    Whatever happens to it next, as far as that can happen at this point ([allowed]: only watched file
    descriptors and running timers are reported, new ends, duplicates and recorders are new, what is
    buffered and arrives stays below 1 GB, and data of a shortcut process is only added to a pipe that
    is not finished and whose timer is not running), the operation returns, and
    afterwards the tables of fd1 ends by connection and by FileFD agree, exactly the fd1
    ends are watched, or exactly fd0 when there is data to be sent in send only mode, a
    timer runs only while there is no end and no data, and a finished pipe has no ends and
    no timer.  The condition on the timer is one that the code does not check: adding data while it
    runs can fail an assertion ([timer_started_twice]) or lose the data
    ([timer_drops_replayed_data]). *)
Theorem pipe_invariant fuel o s :
  PipeRecorder.env_ok -> Inv s -> allowed fuel o s -> exists s', exec fuel o s = Ret s' /\ Inv s'.
Proof.
  intros Henv Hinv Hal. destruct o; cbn [exec allowed] in *.
  - destruct Hal as (Hfd & _ & Hfit). destruct Hinv as [(b & c & Ho)|Hcl]; [by eapply pipe_fd1_read_cb_inv|].
    rewrite (cl_conns _ Hcl) in Hfd. by destruct Hfd.
  - destruct Hal as [Hnf Hadd]. destruct Hinv as [(b & c & Ho)|Hcl]; [|by rewrite (closed_finished _ Hcl) in Hnf].
    eapply pipe_fd0_write_cb_inv; [done|]. by apply (g_reg0 _ _ _ (o_good _ _ _ Ho)).
  - destruct Hinv as [(b & c & Ho)|Hcl]; [by eapply timer_elapses_inv|]. pose proof (cl_timer _ Hcl). lia.
  - by apply handle_close_inv.
  - destruct Hinv as [(b & c & Ho)|Hcl].
    + destruct (handle_dup_inv old_file_fd new_file_fd s b c Ho Hal) as (s' & ? & ?). exists s'. split; [done|left; eauto].
    + exists s. unfold handle_dup. rewrite (cl_ffds _ Hcl). split; [done|by right].
  - destruct Hal as [Hnf Hca]. destruct Hinv as [(b & c & Ho)|Hcl]; [|by rewrite (closed_finished _ Hcl) in Hnf].
    destruct (add_fd1_and_proc_inv fd file_fd proc rs s b c Ho Hca) as (s' & ? & ?). exists s'. split; [done|left; eauto].
  - by apply drain_fd1_end_inv.
  - by apply drain_inv.
  - destruct Hal as (Hnf & Hoff & Hsz). destruct Hinv as [(b & c & Ho)|Hcl]; [|by rewrite (closed_finished _ Hcl) in Hnf].
    unfold add_data_from_buffer. destruct data as [|x data]; [exists s; split; [done|left; eauto]|].
    pose proof (open_length _ _ _ Ho).
    destruct (LinearBuffer.add_holds _ _ (x :: data) (g_buf _ _ _ (o_good _ _ _ Ho))) as (bf & He & Hbf); [lia|].
    unfold mbind at 1, outcome_bind at 1. rewrite He. by eapply add_data_inv.
  - destruct Hal as (Hnf & Hoff & Hrd & Hsz).
    destruct Hinv as [(b & c & Ho)|Hcl]; [|by rewrite (closed_finished _ Hcl) in Hnf].
    by eapply add_data_from_fd_inv.
  - unfold fd0_shared_ptr. rewrite Hal. eexists. split; [done|]. apply flag_inv; [|done]. intros p. eexists _, _, _, _. reflexivity.
  - unfold fd1_shared_ptr. rewrite Hal. eexists. split; [done|]. apply flag_inv; [|done]. intros p. eexists _, _, _, _. reflexivity.
  - unfold Fd0Deleter. destruct (maybe_finish_inv s Hinv) as (s' & He & Hinv'). unfold mbind, outcome_bind. rewrite He.
    eexists. split; [done|].
    apply flag_inv; [|done]. intros p. eexists _, _, _, _. reflexivity.
  - unfold Fd1Deleter. destruct (maybe_finish_inv s Hinv) as (s' & He & Hinv'). unfold mbind, outcome_bind. rewrite He.
    eexists. split; [done|].
    apply flag_inv; [|done]. intros p. eexists _, _, _, _. reflexivity.
  - destruct Hinv as [(b & c & Ho)|Hcl]; [destruct (finish_inv s b c Ho) as (s' & ? & ? & _); eauto|].
    unfold finish. rewrite (closed_finished _ Hcl), (cl_self _ Hcl). exists s. split; [done|by right].
  - eexists. split; [done|]. destruct Hal as [Hck Hst].
    destruct Hinv as [(b & c & [Hg ? ? ?])|[]]; [left; exists b, c; split; try done|right; by split].
    destruct Hg as [? ? ? ? Hr1 ? ? ? ? ?]. split; cbn; try done. intros fd Hfd. destruct (Hr1 fd Hfd) as (?&?&_&?).
    split_and!; auto.
  - eexists. split; [done|]. apply (recs_inv _ _ (Some [])); [done|]. cbn. exists []. split; [done|]. apply PipeRecorder.new_records.
  - destruct Hal as (r & Hr & Hd). unfold PipeRecorder.get, PipeRecorder.deactivate. rewrite Hr.
    unfold mbind, outcome_bind. rewrite Hd. cbn. eexists. split; [done|]. apply (recs_inv _ _ None); done.
Qed.

(** A new pipe. *)
Lemma new_open fd0 e h k c :
  0 <= fd0 -> Epoll.ok e -> ~ Epoll.added (Epoll.fd_contexts_ e) fd0 -> PipeRecorder.contents h c ->
  ts_ok (clock k) -> open_ok (mkSt (new fd0) e h k) [] c.
Proof.
  intros Hfd Hok Hna Hc Hk. split; [|done|cbn; lia|done].
  split; cbn; try done; try lia.
  - by intros fd [? ?].
  - by apply ends_ok_empty.
Qed.

(** A sequence of operations. *)
Fixpoint exec_all (fuel : nat) (l : list op) (s : st) : outcome st :=
  match l with [] => Ret s | o :: l => s ← exec fuel o s; exec_all fuel l s end.

End Operations.

(** * Examples *)

Definition demo_kernel (l : list accept) : kernel :=
  mkKernel {[ 6 := mkStream [1; 2] [[3]] Eof ]} [] l [] (mkTs 10 0) [].

(** A new pipe with fd0 5, one recorder, and a connection 6. *)
Definition demo_new (l : list accept) : st :=
  mkSt (new 5) Epoll.new {[ 0%nat := PipeRecorder.new ]} (demo_kernel l).

#[local] Existing Instance PipeRecorder.demo_env.

Definition result (r : outcome st) : st := match r with Ret s => s | _ => demo_new [] end.

Lemma demo_recs : PipeRecorder.contents {[ 0%nat := PipeRecorder.new ]} {[ 0%nat := Some [] ]}.
Proof.
  intros i. destruct (decide (i = 0%nat)) as [->|Hne].
  - rewrite !lookup_singleton_eq. cbn. exists []. split; [done|]. apply PipeRecorder.new_records.
  - by rewrite !lookup_singleton_ne by done.
Qed.

Lemma demo_new_open l : open_ok (demo_new l) [] {[ 0%nat := Some [] ]}.
Proof. apply new_open; [lia|apply Epoll.new_ok|by intros (?&?&?&?&?)|exact demo_recs|done]. Qed.

Lemma demo_can_add l : can_add 6 3 [0%nat] (demo_new l).
Proof.
  split; [done|cbn; lia|by intros (?&?&?&?&?)|by eexists|done|apply NoDup_singleton|].
  intros i Hi. apply list_elem_of_singleton in Hi as ->. by eexists.
Qed.

(** The same pipe with an fd1 end; fd0 takes one byte and then blocks. *)
Definition demo_open : st := result (add_fd1_and_proc 0 6 3 7 [0%nat] (demo_new [Accept 1; Refuse 11])).

Lemma demo_open_ok : open_ok demo_open [] {[ 0%nat := Some [] ]}.
Proof.
  destruct (add_fd1_and_proc_inv 0 6 3 7 [0%nat] (demo_new [Accept 1; Refuse 11]) [] _ (demo_new_open _) (demo_can_add _))
    as (s' & He & Ho). change (Z.of_nat 6) with 6 in He. unfold demo_open. by rewrite He.
Qed.

Lemma forward_correct_witness :
  exists s' got str' b', forward 0 10 6 true demo_open = Ret (s', FB_PIPE_FD1_EOF) /\
    sink (kern s') ++ b' = [1; 2; 3] /\ got = [1; 2; 3] /\ good s' b' (PipeRecorder.arrive [0%nat] got {[ 0%nat := Some [] ]}) /\
    avail str' = [].
Proof.
  assert (Hf : exists s, forward 0 10 6 true demo_open = Ret (s, FB_PIPE_FD1_EOF) /\ sink (kern s) = [1] /\
    buffered (pipe s) = Ret [2; 3]).
  { vm_compute. eexists. split; [reflexivity|]. split; reflexivity. }
  destruct Hf as (s0 & Hs0 & Hsink & Hbuf).
  destruct (forward_correct 0 10 6 true 0%nat (mkEnd 6 {[3%nat]} [0%nat]) (mkStream [1; 2] [[3]] Eof) demo_open [] {[ 0%nat := Some [] ]})
    as (s' & r & got & str' & b' & He & Hmv & Hr).
  - by split.
  - apply demo_open_ok.
  - apply demo_open_ok.
  - vm_compute. reflexivity.
  - vm_compute. reflexivity.
  - vm_compute. reflexivity.
  - cbn. lia.
  - cbn. lia.
  - rewrite Hs0 in He. injection He as <- <-. destruct Hmv as [Hg _ Hord _ Hstr _ _ _].
    rewrite (buffered_bytes _ _ _ Hg) in Hbuf. injection Hbuf as ->.
    assert (Hs1 : sink (kern demo_open) = []) by (vm_compute; reflexivity).
    rewrite Hsink, Hs1 in Hord. assert (got = [1; 2; 3]) as -> by (symmetry; exact Hord). exists s0, [1; 2; 3], str', [2; 3].
    split; [exact Hs0|]. split; [by rewrite Hsink|]. split; [reflexivity|]. split; [exact Hg|exact (proj1 Hr)].
Defined.

Lemma pipe_invariant_witness :
  exists s', exec 0 10 (ORead 6 true) demo_open = Ret s' /\ Inv s'.
Proof.
  apply (pipe_invariant 0 10 (ORead 6 true) demo_open).
  - by split.
  - left. eexists _, _. exact demo_open_ok.
  - assert (Hc : is_Some (conn2fd1_ends (pipe demo_open) !! 6)) by (vm_compute; eauto).
    cbn [allowed]. split; [done|]. split.
    + apply (g_reg1 _ _ _ (o_good _ _ _ demo_open_ok) 6 Hc). vm_compute. reflexivity.
    + split; [vm_compute; discriminate|]. intros fd str Hx.
      assert (str = mkStream [1; 2] [[3]] Eof) as ->; [|cbn; lia].
      assert (Hst : streams (kern demo_open) = {[ 6 := mkStream [1; 2] [[3]] Eof ]}) by (vm_compute; reflexivity).
      rewrite Hst in Hx. by apply lookup_singleton_Some in Hx as [_ ->].
Defined.

(** A pipe that has lost its last fd1 end while a process still refers to its fd1 side: a
    timer is running. *)
Definition demo_waiting (l : list accept) : outcome st :=
  exec_all 0 10 [OFd1Ptr; OAddFd1 6 3 7 [0%nat];
    OOutside (mkKernel {[ 6 := mkStream [] [] Eof ]} [] l [] (mkTs 10 0) []); ORead 6 true] (demo_new []).

(** Replaying a shortcut process writes to the pipe while the timer is running.  When fd0
    would block, the timer is not stopped: it elapses, the pipe is finished, and the
    replayed data is lost although fd0 is still open. *)
Theorem timer_drops_replayed_data :
  exists s s', demo_waiting [] = Ret s /\ finished (pipe s) = false /\ fd1_timeout_id_ (pipe s) = 0 /\
    exec_all 0 10 [OAddBuffer [7; 8; 9]; OTimer; OTimer] s = Ret s' /\
    finished (pipe s') = true /\ sink (kern s') = [].
Proof. eexists _, _. split; [vm_compute; reflexivity|]. split_and!; vm_compute; reflexivity. Qed.

(** When fd0 accepts the data in time, the pipe wants to start the timer that is already
    running, and the assertion fails. *)
Theorem timer_started_twice :
  exists s, demo_waiting [Refuse Frame.EAGAIN; Accept 3] = Ret s /\
    exec_all 0 10 [OAddBuffer [7; 8; 9]; OWrite true] s = Abort.
Proof. eexists. split; [vm_compute; reflexivity|]. vm_compute. reflexivity. Qed.

(** [accept_exec_child()] copies the FileFDs of a reopened pipe before it adds the end: the
    copies are not associated with the end, and once the first one is closed [drain()] does
    not find the end any more, although data written through a copy is waiting on it. *)
Theorem dup_before_add_not_drained :
  exists s s', exec_all 0 10 [OFdDup 3 4; OAddFd1 6 3 7 [];
      OOutside (mkKernel {[ 6 := mkStream [] [] StillOpen ]} [] [Accept 9] [] (mkTs 10 0) []); OFdClose 3;
      OOutside (mkKernel {[ 6 := mkStream [1; 2] [] StillOpen ]} [] [Accept 9] [] (mkTs 10 0) [])] (demo_new []) = Ret s /\
    conn2fd1_ends (pipe s) = {[ 6 := 0%nat ]} /\ exec 0 10 ODrain s = Ret s' /\
    sink (kern s') = [] /\ streams (kern s') !! 6 = Some (mkStream [1; 2] [] StillOpen).
Proof. eexists _, _. split; [vm_compute; reflexivity|]. split_and!; vm_compute; reflexivity. Qed.

End Pipe.
