(* ===== verification/Hashing.v ===== *)
(** Computing hashes: [Hash::set_from_data], [set_from_fd] and [set_from_file]
    (src/firebuild/hash.cc), with XXH3 as a parameter, and the lemmas on uniquely
    decodable encodings that the hashed data relies on. *)

From stdpp Require Import base list strings option sorting.
From Stdlib Require Import ZArith Lia Ascii.
From S2P Require Import Prelude Base64 FileUsage.

Local Open Scope Z_scope.

(** * Encodings that can be concatenated *)
Module Code.

(** An encoding of the values with [P] is a prefix code when what follows an encoded
    value does not matter for decoding it. *)
Definition code {A} (P : A -> Prop) (enc : A -> list Z) : Prop :=
  forall a b x y, P a -> P b -> enc a ++ x = enc b ++ y -> a = b /\ x = y.

Section Codes.
Context {A B : Type} (P : A -> Prop) (Q : B -> Prop) (enc : A -> list Z) (enc' : B -> list Z).

Lemma code_inj a b : code P enc -> P a -> P b -> enc a = enc b -> a = b.
Proof. intros H Ha Hb E. apply (H a b [] []); [done..|]. by rewrite !app_nil_r. Qed.

(** One after the other. *)
Lemma code_pair : code P enc -> code Q enc' ->
  code (fun p => P p.1 /\ Q p.2) (fun p => enc p.1 ++ enc' p.2).
Proof.
  intros H1 H2 [a b] [a' b'] x y [Ha Hb] [Ha' Hb'] E. cbn in *. rewrite <- !app_assoc in E.
  apply H1 in E as [-> E]; [|done..]. apply H2 in E as [-> ->]; done.
Qed.

(** As many as the length says. *)
Lemma code_list_n l l' x y :
  code P enc -> Forall P l -> Forall P l' -> length l = length l' ->
  concat (enc <$> l) ++ x = concat (enc <$> l') ++ y -> l = l' /\ x = y.
Proof.
  intros H Hl. revert l'. induction Hl as [|a l Ha Hl IH]; intros [|a' l'] Hl' Hn E; try done.
  apply Forall_cons in Hl' as [Ha' Hl']. cbn in E. rewrite <- !app_assoc in E.
  apply H in E as [-> E]; [|done..]. injection Hn as Hn. by apply IH in E as [-> ->].
Qed.

(** As many as there are up to the end of the data, when no encoding is empty. *)
Lemma code_list_end l l' :
  code P enc -> (forall a, P a -> enc a <> []) -> Forall P l -> Forall P l' ->
  concat (enc <$> l) = concat (enc <$> l') -> l = l'.
Proof.
  intros H Hne Hl. revert l'. induction Hl as [|a l Ha Hl IH]; intros [|a' l'] Hl' E; [done|..].
  - apply Forall_cons in Hl' as [Ha' _]. cbn in E. specialize (Hne a' Ha').
    by destruct (enc a').
  - cbn in E. specialize (Hne a Ha). by destruct (enc a).
  - apply Forall_cons in Hl' as [Ha' Hl']. cbn in E. apply H in E as [-> E]; [|done..].
    f_equal. by apply IH.
Qed.
End Codes.

(** A string with its terminating NUL. *)
Definition enc_str (s : cstr) : list Z := (byte_of <$> s) ++ [0].
Definition no_nul (s : cstr) : Prop := NUL ∉ s.

Lemma byte_of_NUL a : byte_of a = 0 <-> a = NUL.
Proof.
  split; [|by intros ->]. intros H. apply byte_of_inj. by rewrite H.
Qed.

Lemma code_str : code no_nul enc_str.
Proof.
  unfold code, enc_str, no_nul. intros a. induction a as [|c a IH]; intros [|c' b] x y Ha Hb E; cbn in *.
  - by injection E as ->.
  - injection E as E _. destruct Hb. symmetry in E. apply byte_of_NUL in E as ->. by left.
  - injection E as E _. destruct Ha. apply byte_of_NUL in E as ->. by left.
  - rewrite !not_elem_of_cons in *. injection E as E1 E2. apply byte_of_inj in E1 as ->.
    destruct (IH b x y) as [-> ->]; naive_solver.
Qed.

Lemma enc_str_ne s : enc_str s <> [].
Proof. unfold enc_str. by destruct (byte_of <$> s). Qed.

(** Encodings of one length. *)
Lemma code_fixed {A} (P : A -> Prop) (enc : A -> list Z) n :
  (forall a, P a -> length (enc a) = n) ->
  (forall a b, P a -> P b -> enc a = enc b -> a = b) -> code P enc.
Proof.
  intros Hlen Hinj a b x y Ha Hb E. apply app_inj_1 in E as [E ->]; [|by rewrite !Hlen].
  split; [by apply Hinj|done].
Qed.

(** The [n] bytes of an integer in memory, least significant first. *)
Fixpoint le_bytes (n : nat) (v : Z) : list Z :=
  match n with O => [] | S n => v mod 256 :: le_bytes n (v / 256) end.

Lemma le_bytes_length n v : length (le_bytes n v) = n.
Proof. revert v. induction n as [|n IH]; intros v; cbn; [done|]. by rewrite IH. Qed.

Lemma le_bytes_inj n v w :
  le_bytes n v = le_bytes n w -> v mod 256 ^ Z.of_nat n = w mod 256 ^ Z.of_nat n.
Proof.
  revert v w. induction n as [|n IH]; intros v w E; [by rewrite !Z.mod_1_r|].
  injection E as E1 E2. apply IH in E2. rewrite Nat2Z.inj_succ, Z.pow_succ_r by lia.
  rewrite !(Z.rem_mul_r _ 256) by lia. by rewrite E1, E2.
Qed.

Lemma code_le n : code (fun v => 0 <= v < 256 ^ Z.of_nat n) (le_bytes n).
Proof.
  apply (code_fixed _ _ n); [intros; apply le_bytes_length|].
  intros a b Ha Hb E%le_bytes_inj. by rewrite !Z.mod_small in E.
Qed.

End Code.

(** * Sorting strings *)

(** [std::sort] on strings: ascending in the order of [std::string::operator<]. *)
Definition str_le (a b : cstr) : Prop := memcmp a b <> Gt.
#[export] Instance str_le_dec : RelDecision str_le.
Proof. intros a b. unfold str_le. destruct (memcmp a b); [left|left|right]; congruence. Defined.

Lemma memcmp_antisym a b : memcmp b a = CompOpp (memcmp a b).
Proof.
  revert b. induction a as [|x a IH]; intros [|y b]; cbn; try done.
  rewrite (Z.compare_antisym (byte_of x) (byte_of y)).
  destruct (Z.compare_spec (byte_of x) (byte_of y)); cbn; [apply IH|done|done].
Qed.

Lemma memcmp_trans_not_gt a b c : memcmp a b <> Gt -> memcmp b c <> Gt -> memcmp a c <> Gt.
Proof.
  revert b c. induction a as [|x a IH]; intros [|y b] [|z c]; cbn; try done.
  destruct (Z.compare_spec (byte_of x) (byte_of y)) as [E1|E1|E1],
    (Z.compare_spec (byte_of y) (byte_of z)) as [E2|E2|E2]; try done; intros H1 H2;
    destruct (Z.compare_spec (byte_of x) (byte_of z)) as [E3|E3|E3]; try done; try lia.
  by apply (IH b).
Qed.

#[export] Instance str_le_trans : Transitive str_le.
Proof. intros a b c. apply memcmp_trans_not_gt. Qed.
#[export] Instance str_le_total : Total str_le.
Proof. intros a b. unfold str_le. rewrite (memcmp_antisym a b). destruct (memcmp a b); cbn; auto; left; congruence. Qed.
#[export] Instance str_le_antisym : AntiSymm (=) str_le.
Proof.
  intros a b. unfold str_le. rewrite (memcmp_antisym a b). intros H1 H2. apply memcmp_eq.
  by destruct (memcmp a b).
Qed.

Definition sort_strings : list cstr -> list cstr := merge_sort str_le.

(** The sorted list depends on the elements only. *)
Lemma sort_strings_perm l l' : sort_strings l = sort_strings l' <-> l ≡ₚ l'.
Proof.
  unfold sort_strings. split; intros H.
  - rewrite <- (merge_sort_Permutation str_le l), H. apply merge_sort_Permutation.
  - apply (StronglySorted_unique str_le); [apply StronglySorted_merge_sort; apply _..|].
    by rewrite !merge_sort_Permutation.
Qed.

(** * The xxHash library *)

(** The functions of the library that are used: the hash of a block of data, with a seed or
    without; the same as a stream; and the canonical form of a hash. *)
Class XXHash := {
  XXH3_128bits : list Z -> Hash.t;
  XXH3_128bits_withSeed : Z -> list Z -> Hash.t;
  XXH3_state : Type;
  XXH3_128bits_reset : XXH3_state;
  XXH3_128bits_reset_withSeed : Z -> XXH3_state;
  XXH3_128bits_update : XXH3_state -> list Z -> XXH3_state;
  XXH3_128bits_digest : XXH3_state -> Hash.t;
  XXH128_canonicalFromHash : Hash.t -> list Z
}.

(** Documented behaviour: feeding data in pieces gives the hash of the whole; a hash is two
    64-bit numbers; the canonical form is 16 bytes and determines the hash. *)
Class XXHashOk `{XXHash} : Prop := {
  streaming chunks : XXH3_128bits_digest (fold_left XXH3_128bits_update chunks XXH3_128bits_reset)
    = XXH3_128bits (concat chunks);
  streaming_withSeed seed chunks :
    XXH3_128bits_digest (fold_left XXH3_128bits_update chunks (XXH3_128bits_reset_withSeed seed))
    = XXH3_128bits_withSeed seed (concat chunks);
  XXH3_wf data : Hash.wf (XXH3_128bits data);
  canonical_length h : length (XXH128_canonicalFromHash h) = 16%nat;
  canonical_bytes h : Base64.bytes (XXH128_canonicalFromHash h);
  canonical_inj h k : Hash.wf h -> Hash.wf k ->
    XXH128_canonicalFromHash h = XXH128_canonicalFromHash k -> h = k
}.

(** * Hashing data, files and directories *)
Module Hashing.
Import Code.

Definition kHashingBufSize : Z := 4096.
Definition ENODEV : Z := 19.

(** The answers of the system calls on an open file: [pread(count, offset)] ([None] is an
    error, [EINTR] is retried), [mmap(size)] (the mapped bytes, or [errno]), and the names
    [readdir()] returns for a directory ([None] when [fdopendir()] fails). *)
Record open_file := mkFile {
  pread : Z -> Z -> option (list Z);
  mmap : Z -> list Z + Z;
  listing : option (list cstr)
}.

Section Hashing.

Context `{XXHash}.

Definition set_from_data (data : list Z) : Hash.t := XXH3_128bits data.

(** [pread_checked_eof()]: [None] is -1. *)
Definition pread_checked_eof (f : open_file) (count offset : Z) : option (list Z) :=
  match pread f count offset with
  | None => None
  | Some buf =>
      let read_bytes := Z.of_nat (length buf) in
      if (read_bytes <? count)
         && negb (bool_decide (pread f (count - read_bytes) (offset + read_bytes) = Some []))
      then None
      else Some buf
  end.

(** The loop of [set_from_fd_pread()]: the state and the final size. *)
Fixpoint pread_loop (fuel : nat) (f : open_file) (pos size : Z) (state : XXH3_state)
    : outcome (option (XXH3_state * Z)) :=
  if pos <? size then
    match fuel with
    | O => OutOfFuel
    | S fuel =>
        let to_read := Z.min kHashingBufSize (size - pos) in
        match pread_checked_eof f to_read pos with
        | None => Ret None
        | Some buf =>
            let read_bytes := Z.of_nat (length buf) in
            let pos := pos + read_bytes in
            pread_loop fuel f pos (if read_bytes <? to_read then pos else size) (XXH3_128bits_update state buf)
        end
    end
  else Ret (Some (state, size)).

(** [set_from_fd_pread(fd, &size)]: the hash and the size that was read. *)
Definition set_from_fd_pread (f : open_file) (size : Z) : outcome (option (Hash.t * Z)) :=
  if size <=? kHashingBufSize then
    match pread_checked_eof f size 0 with
    | None => Ret None
    | Some buf => Ret (Some (set_from_data buf, Z.of_nat (length buf)))
    end
  else
    r ← pread_loop (Z.to_nat size) f 0 size XXH3_128bits_reset;
    Ret ('(state, size) ← r; Some (XXH3_128bits_digest state, size)).

(** The data that is hashed for a directory: its sorted listing, each name with a
    terminating NUL. *)
Definition dir_data (names : list cstr) : list Z := concat (enc_str <$> sort_strings names).

(** [set_from_fd(fd, stat_ptr)]: the hash, [is_dir] and the size of a regular file, which is
    only adjusted where the code has been given [size_out]; [st_local] is the answer of
    [fstat()] that is used without [stat_ptr]. *)
Definition set_from_fd (f : open_file) (stat_ptr st_local : option stat_t)
    : outcome (option (Hash.t * bool * Z)) :=
  match (match stat_ptr with Some st => Some st | None => st_local end) with
  | None => Ret None
  | Some st =>
      if S_ISREG (st_mode st) then
        let size := st_size st in
        if size <? 0 then Ret None
        else if size =? 0 then Ret (Some (set_from_data [], false, size))
        else
          match mmap f size with
          | inr errno =>
              if errno =? ENODEV then
                r ← set_from_fd_pread f size;
                Ret ('(h, size) ← r; Some (h, false, size))
              else Ret None
          | inl map_addr => Ret (Some (set_from_data (take (Z.to_nat size) map_addr), false, size))
          end
      else if S_ISDIR (st_mode st) then
        Ret (names ← listing f; Some (set_from_data (dir_data names), true, -1))
      else Ret None
  end.

(** [set_from_file(filename, stat_ptr)]; [opened] is the answer of [open()]. *)
Definition set_from_file (opened : option open_file) (stat_ptr st_local : option stat_t)
    : outcome (option (Hash.t * bool * Z)) :=
  match opened with
  | None => Ret None
  | Some f => set_from_fd f stat_ptr st_local
  end.

(** ** What the hash is of *)

Context `{!XXHashOk}.

(** The file has the given contents: reading gives a part of it that starts at the offset
    and is empty only at the end, mapping gives all of it. *)
Record has_contents (f : open_file) (contents : list Z) : Prop := {
  hc_pread count offset buf : 0 <= count -> 0 <= offset -> pread f count offset = Some buf ->
    Z.of_nat (length buf) <= count /\ buf = take (length buf) (drop (Z.to_nat offset) contents) /\
    (buf = [] -> 0 < count -> Z.of_nat (length contents) <= offset);
  hc_mmap size map_addr : mmap f size = inl map_addr -> take (Z.to_nat size) map_addr = take (Z.to_nat size) contents
}.

(** Reading does not fail, and is not cut short before the end. *)
Record reliable (f : open_file) (contents : list Z) : Prop := {
  re_pread count offset : 0 <= count -> 0 <= offset ->
    pread f count offset = Some (take (Z.to_nat count) (drop (Z.to_nat offset) contents));
  re_mmap size : mmap f size = inr ENODEV \/ exists map_addr, mmap f size = inl map_addr
}.

Lemma pread_checked_eof_correct f contents count offset buf :
  has_contents f contents -> 0 <= count -> 0 <= offset ->
  pread_checked_eof f count offset = Some buf ->
  buf = take (Z.to_nat count) (drop (Z.to_nat offset) contents) /\ Z.of_nat (length buf) <= count /\
  (Z.of_nat (length buf) < count -> Z.of_nat (length contents) <= offset + Z.of_nat (length buf)).
Proof.
  intros Hf Hc Ho. unfold pread_checked_eof. destruct (pread f count offset) as [b|] eqn:E; [|done].
  destruct (hc_pread _ _ Hf _ _ _ Hc Ho E) as (Hl & Hb & _).
  destruct (Z.ltb_spec (Z.of_nat (length b)) count) as [Hlt|Hge].
  - cbn. destruct (bool_decide _) eqn:E2; [|done]. apply bool_decide_eq_true in E2. intros [= <-].
    apply (hc_pread _ _ Hf) in E2 as (_ & _ & Hend); [|lia..].
    specialize (Hend eq_refl ltac:(lia)). split; [|lia].
    rewrite Hb at 1. apply (f_equal length) in Hb. rewrite length_take, length_drop in Hb.
    rewrite !take_ge; [done|rewrite length_drop; lia..].
  - intros [= <-]. split; [|lia]. rewrite Hb at 1. f_equal. lia.
Qed.

Lemma pread_checked_eof_reliable f contents count offset :
  reliable f contents -> 0 <= count -> 0 <= offset ->
  pread_checked_eof f count offset = Some (take (Z.to_nat count) (drop (Z.to_nat offset) contents)).
Proof.
  intros Hr Hc Ho. unfold pread_checked_eof. rewrite (re_pread _ _ Hr) by done.
  set (buf := take _ _). destruct (Z.ltb_spec (Z.of_nat (length buf)) count) as [Hlt|]; [|done].
  rewrite (re_pread _ _ Hr) by lia. subst buf. rewrite length_take, length_drop in *.
  rewrite (drop_ge contents) by lia. rewrite take_nil. by rewrite bool_decide_true.
Qed.

(** The loop hashes the contents from [pos] to [size]. *)
Lemma pread_loop_correct f contents fuel pos size chunks :
  has_contents f contents -> 0 <= pos <= size -> (Z.to_nat (size - pos) <= fuel)%nat ->
  concat chunks = take (Z.to_nat pos) contents ->
  exists r, pread_loop fuel f pos size (fold_left XXH3_128bits_update chunks XXH3_128bits_reset) = Ret r /\
    (forall state size', r = Some (state, size') ->
       XXH3_128bits_digest state = XXH3_128bits (take (Z.to_nat size) contents) /\
       (size <= Z.of_nat (length contents) -> size' = size)) /\
    (reliable f contents -> is_Some r).
Proof.
  intros Hf. revert pos size chunks. induction fuel as [|fuel IH]; intros pos size chunks Hpos Hfuel Hch;
    cbn [pread_loop]; destruct (Z.ltb_spec pos size) as [Hlt|Hge]; try lia.
  1,3: replace pos with size in * by lia; eexists; split; [done|]; split; [|by eexists];
    intros ? ? [= <- <-]; split; [by rewrite streaming, Hch|done].
  set (to_read := Z.min kHashingBufSize (size - pos)).
  assert (Ht : 0 < to_read <= size - pos) by (unfold to_read, kHashingBufSize; lia).
  destruct (pread_checked_eof f to_read pos) as [buf|] eqn:E.
  2:{ eexists. split; [done|]. split; [done|]. intros Hr. by rewrite (pread_checked_eof_reliable _ _ _ _ Hr) in E by lia. }
  pose proof E as E0. apply (pread_checked_eof_correct _ _ _ _ _ Hf) in E0 as (Hbuf & Hle & Hend); [|lia..].
  set (rb := Z.of_nat (length buf)) in *.
  assert (Hc' : concat (chunks ++ [buf]) = take (Z.to_nat (pos + rb)) contents).
  { rewrite concat_app. cbn. rewrite app_nil_r, Hch. rewrite Z2Nat.inj_add, <- take_take_drop by lia. f_equal.
    rewrite Hbuf at 1. pose proof (f_equal length Hbuf) as Hb. rewrite length_take in Hb.
    destruct (Z.eq_dec rb to_read) as [->|]; [done|]. rewrite !take_ge; [done|lia|rewrite length_drop; lia]. }
  pose proof (fold_left_app XXH3_128bits_update chunks [buf] XXH3_128bits_reset) as Hfl. cbn in Hfl. rewrite <- Hfl.
  destruct (Z.ltb_spec rb to_read) as [Hshort|Hfull].
  - destruct (IH (pos + rb) (pos + rb) (chunks ++ [buf])) as (r & Hr & Hs & Hrel); [lia|lia|done|].
    exists r. split; [done|]. split; [|done]. intros state size' ->. destruct (Hs _ _ eq_refl) as [-> Hsz].
    specialize (Hend Hshort). split; [|lia]. f_equal. rewrite !take_ge; [done|lia..].
  - apply IH; [lia..|done].
Qed.

Lemma set_from_fd_pread_correct f contents size :
  has_contents f contents -> 0 <= size <= Z.of_nat (length contents) ->
  exists r, set_from_fd_pread f size = Ret r /\
    (forall h size', r = Some (h, size') ->
       h = XXH3_128bits (take (Z.to_nat size) contents) /\ size' = size) /\
    (reliable f contents -> is_Some r).
Proof.
  intros Hf Hsz. unfold set_from_fd_pread. destruct (Z.leb_spec size kHashingBufSize).
  - destruct (pread_checked_eof f size 0) as [buf|] eqn:E; eexists; (split; [done|split]); [|by eexists|done|].
    + intros ? ? [= <- <-]. apply (pread_checked_eof_correct _ _ _ _ _ Hf) in E as (Hb & _); [|lia..].
      rewrite drop_0 in Hb. subst buf. split; [done|]. rewrite length_take. lia.
    + intros Hr. by rewrite (pread_checked_eof_reliable _ _ _ _ Hr) in E by lia.
  - destruct (pread_loop_correct f contents (Z.to_nat size) 0 size []) as (r & Hr & Hs & Hrel);
      [done|lia|lia|done|]. cbn in Hr. rewrite Hr. cbn. eexists. split; [done|]. split.
    + intros h size'. destruct r as [[state size'']|]; [|done]. intros [= <- <-].
      destruct (Hs _ _ eq_refl) as [-> Hsz']. split; [done|]. apply Hsz'. lia.
    + intros H'. destruct (Hrel H') as [[state size''] ->]. by eexists.
Qed.

(** Names up to order determine the hashed data of a directory, and the other way round. *)
Lemma dir_data_perm l l' :
  Forall no_nul l -> Forall no_nul l' -> dir_data l = dir_data l' <-> l ≡ₚ l'.
Proof.
  intros Hl Hl'. rewrite <- sort_strings_perm. split; [|unfold dir_data; congruence].
  apply (code_list_end no_nul enc_str); [apply code_str|intros; apply enc_str_ne|..];
    unfold sort_strings; by rewrite merge_sort_Permutation.
Qed.

Lemma set_from_fd_regular f contents st :
  has_contents f contents -> S_ISREG (st_mode st) = true ->
  0 <= st_size st <= Z.of_nat (length contents) ->
  exists r, set_from_fd f (Some st) None = Ret r /\
    (forall h is_dir size, r = Some (h, is_dir, size) ->
       h = XXH3_128bits (take (Z.to_nat (st_size st)) contents) /\ is_dir = false /\ size = st_size st) /\
    (reliable f contents -> is_Some r).
Proof.
  intros Hf Hreg Hsz. unfold set_from_fd. rewrite Hreg. rewrite (proj2 (Z.ltb_ge _ _)) by lia.
  destruct (Z.eqb_spec (st_size st) 0) as [Hz|Hnz].
  { eexists. split; [done|]. split; [|by eexists]. intros ? ? ? [= <- <- <-]. by rewrite Hz. }
  destruct (mmap f (st_size st)) as [map_addr|errno] eqn:E.
  + eexists. split; [done|]. split; [|by eexists]. intros ? ? ? [= <- <- <-].
    unfold set_from_data. by rewrite (hc_mmap _ _ Hf _ _ E).
  + destruct (Z.eqb_spec errno ENODEV) as [->|Hne].
    * destruct (set_from_fd_pread_correct f contents (st_size st) Hf Hsz) as (r & Hr & Hs & Hrel).
      unfold mbind at 1, outcome_bind at 1. rewrite Hr. eexists. split; [done|]. split.
      -- intros ? ? ?. destruct r as [[h' size']|]; [|done]. intros [= <- <- <-].
         by destruct (Hs _ _ eq_refl) as [-> ->].
      -- intros H'. destruct (Hrel H') as [[h' size'] ->]. by eexists.
    * eexists. split; [done|]. split; [done|]. intros Hr.
      destruct (re_mmap _ _ Hr (st_size st)) as [E'|[? E']]; congruence.
Qed.

(** C35. The hash of an open regular file is the hash of its contents, whether it is mapped,
    read at once or read in blocks, and if neither mapping nor reading fails it is computed;
    the hash of a directory is the hash of data that determines the set of its names and
    nothing else, so that equal listings in different orders hash alike. *)
Theorem set_from_fd_correct f :
  (forall contents st, has_contents f contents -> S_ISREG (st_mode st) = true ->
     0 <= st_size st <= Z.of_nat (length contents) ->
     exists r, set_from_fd f (Some st) None = Ret r /\
       (forall h is_dir size, r = Some (h, is_dir, size) ->
          h = XXH3_128bits (take (Z.to_nat (st_size st)) contents) /\ is_dir = false /\ size = st_size st) /\
       (reliable f contents -> is_Some r)) /\
  (forall names st, listing f = Some names -> S_ISREG (st_mode st) = false -> S_ISDIR (st_mode st) = true ->
     Forall no_nul names ->
     exists data, set_from_fd f (Some st) None = Ret (Some (XXH3_128bits data, true, -1)) /\
       forall names', Forall no_nul names' -> dir_data names' = data <-> names' ≡ₚ names).
Proof.
  split.
  - intros contents st. apply set_from_fd_regular.
  - intros names st Hl Hnr Hd Hn. unfold set_from_fd. rewrite Hnr, Hd, Hl. cbn.
    exists (dir_data names). split; [done|]. intros names' Hn'. by apply dir_data_perm.
Qed.

End Hashing.

(** A library for the examples: the hash is the length and a polynomial of the data. *)
Definition demo_hash (seed : Z) (data : list Z) : Hash.t :=
  Hash.mk (Z.of_nat (length data) mod 2 ^ 64) (fold_left (fun a x => (a * 257 + x + 1) mod 2 ^ 64) data seed mod 2 ^ 64).
#[export] Instance demo_xxhash : XXHash := {|
  XXH3_128bits := demo_hash 0;
  XXH3_128bits_withSeed := demo_hash;
  XXH3_state := Z * list Z;
  XXH3_128bits_reset := (0, []);
  XXH3_128bits_reset_withSeed seed := (seed, []);
  XXH3_128bits_update state data := (state.1, state.2 ++ data);
  XXH3_128bits_digest state := demo_hash state.1 state.2;
  XXH128_canonicalFromHash := Hash.canonical_be
|}.

Lemma demo_streaming seed acc chunks :
  fold_left XXH3_128bits_update chunks ((seed, acc) : XXH3_state) = (seed, acc ++ concat chunks).
Proof.
  revert acc. induction chunks as [|c cs IH]; intros acc; cbn; [by rewrite app_nil_r|].
  rewrite IH. by rewrite <- app_assoc.
Qed.

#[export] Instance demo_xxhash_ok : XXHashOk.
Proof.
  split.
  - intros chunks. pose proof (demo_streaming 0 [] chunks) as E. cbn in E |- *. by rewrite E.
  - intros seed chunks. pose proof (demo_streaming seed [] chunks) as E. cbn in E |- *. by rewrite E.
  - intros data. split; apply Z.mod_pos_bound; lia.
  - done.
  - intros h. apply Forall_app_2; apply Subkey.be64_bytes.
  - apply Hash.canonical_be_inj.
Qed.

(** A file on a file system that cannot map it. *)
Definition unmapped_file (contents : list Z) : open_file :=
  mkFile (fun count offset => Some (take (Z.to_nat count) (drop (Z.to_nat offset) contents)))
    (fun _ => inr ENODEV) None.

Lemma unmapped_file_reliable contents :
  has_contents (unmapped_file contents) contents /\ reliable (unmapped_file contents) contents.
Proof.
  split; constructor; cbn; [|done|done|by left].
  intros count offset buf Hc Ho [= <-]. split_and!.
  - rewrite length_take. lia.
  - rewrite length_take. generalize (drop (Z.to_nat offset) contents). intros l.
    destruct (decide (Z.to_nat count <= length l)%nat); [by rewrite Nat.min_l by lia|].
    rewrite Nat.min_r by lia. by rewrite !take_ge by lia.
  - intros E Hcp. apply (f_equal length) in E. rewrite length_take, length_drop in E. cbn in E. lia.
Qed.

(** A file of 5000 bytes. *)
Definition demo_contents : list Z := replicate 5000 7.
Definition demo_file : open_file := unmapped_file demo_contents.
Definition demo_st : stat_t := Build_stat_t 33188 5000.

Lemma set_from_fd_correct_witness :
  exists r, set_from_fd demo_file (Some demo_st) None = Ret r /\
    r = Some (demo_hash 0 demo_contents, false, 5000).
Proof.
  destruct (proj1 (set_from_fd_correct demo_file)
              demo_contents demo_st (proj1 (unmapped_file_reliable demo_contents))) as (r & Hr & Hs & Hrel);
    [reflexivity|split; vm_compute; congruence|].
  exists r. split; [exact Hr|]. destruct (Hrel (proj2 (unmapped_file_reliable demo_contents))) as [[[h d] n] ->].
  destruct (Hs _ _ _ eq_refl) as (-> & -> & ->). f_equal.
Defined.

End Hashing.
