(* ===== verification/Storage.v ===== *)
(** The files of the cache: copying between files ([fb_copy_file_range], utils.cc, and
    [copy_file], blob_cache.cc), the directory tree of a cache, and the blob cache
    (src/firebuild/blob_cache.{h,cc}). *)

From stdpp Require Import base list strings option gmap sorting.
From Stdlib Require Import ZArith Lia Ascii.
From S2P Require Import Prelude Base64 Paths FileUsage Hashing.

Local Open Scope Z_scope.

(** * Copying *)
Module Copy.

Definition EXDEV : Z := 18.
Definition ENOSYS : Z := 38.

(** Overwrite [bytes] at [off] in a file; a hole is filled with zeros. *)
Definition pwrite (file : list Z) (off : nat) (bytes : list Z) : list Z :=
  take off file ++ replicate (off - length file) 0 ++ bytes ++ drop (off + length bytes) file.

(** How the system answers: [ioctl(FICLONE)]; [copy_file_range(off_in, remaining)], the number
    of bytes copied or [errno]; whether the [fb_read()] of the fallback succeeds, and whether
    its [fb_write()] does, or fails after some bytes. *)
Record copy_env := mkCopyEnv {
  ficlone_ok : bool;
  copy_file_range : Z -> Z -> Z + Z;
  read_ok : bool;
  write_fails : option nat
}.

Section Copy.
Context (E : copy_env).

(** The fallback of [fb_copy_file_range()]: [fb_read()] gives all or nothing. *)
Definition copy_by_read (src : list Z) (off_in : Z) (dst : list Z) (off_out remaining : Z) : Z * list Z :=
  if read_ok E then
    let avail := drop (Z.to_nat off_in) src in
    let buf := if remaining <=? Z.of_nat (length avail) then take (Z.to_nat remaining) avail else [] in
    match buf with
    | [] => (0, dst)
    | _ =>
        match write_fails E with
        | None => (Z.of_nat (length buf), pwrite dst (Z.to_nat off_out) buf)
        | Some n => (-1, pwrite dst (Z.to_nat off_out) (take n buf))
        end
    end
  else (-1, dst).

(** The loop of [fb_copy_file_range()], with both offsets given: the return value and the
    destination. *)
Fixpoint copy_loop (fuel : nat) (src : list Z) (off_in : Z) (dst : list Z) (off_out len remaining : Z)
    : outcome (Z * list Z) :=
  match fuel with
  | O => OutOfFuel
  | S fuel =>
      match copy_file_range E off_in remaining with
      | inr errno =>
          if (errno =? EXDEV) || (errno =? ENOSYS)
          then Ret (copy_by_read src off_in dst off_out remaining)
          else Ret (-1, dst)
      | inl ret =>
          if ret =? 0 then Ret (len - remaining, dst)
          else
            let dst := pwrite dst (Z.to_nat off_out) (take (Z.to_nat ret) (drop (Z.to_nat off_in) src)) in
            if 0 <? remaining - ret
            then copy_loop fuel src (off_in + ret) dst (off_out + ret) len (remaining - ret)
            else Ret (len, dst)
      end
  end.

Definition fb_copy_file_range (src : list Z) (off_in : Z) (dst : list Z) (off_out len : Z)
    : outcome (Z * list Z) :=
  copy_loop (S (Z.to_nat len)) src off_in dst off_out len len.

(** [copy_file(fd_src, src_skip_bytes, fd_dst, append, src_stat_ptr)] on regular files:
    whether it succeeded, and the destination. *)
Definition copy_file (src : list Z) (src_skip_bytes : Z) (dst : list Z) (append : bool)
    (src_st : stat_t) : outcome (bool * list Z) :=
  if (src_skip_bytes =? 0) && negb append && ficlone_ok E then Ret (true, src)
  else if negb (S_ISREG (st_mode src_st)) then Ret (false, dst)
  else
    let len := if src_skip_bytes <=? st_size src_st then st_size src_st - src_skip_bytes else 0 in
    let dst_skip_bytes := if append then Z.of_nat (length dst) else 0 in
    '(ret, dst) ← fb_copy_file_range src src_skip_bytes dst dst_skip_bytes len;
    Ret (ret =? len, dst).

(** Documented behaviour of [copy_file_range()]: it copies at most what was asked for and at
    most what is left of the file, and nothing only at the end of the file. *)
Definition range_ok (src : list Z) : Prop :=
  forall off remaining n, 0 <= off -> 0 <= remaining -> copy_file_range E off remaining = inl n ->
    0 <= n <= remaining /\ off + n <= Z.max off (Z.of_nat (length src)) /\
    (n = 0 -> 0 < remaining -> Z.of_nat (length src) <= off).

Lemma pwrite_end (file bytes : list Z) : pwrite file (length file) bytes = file ++ bytes.
Proof.
  unfold pwrite. rewrite take_ge by lia. rewrite Nat.sub_diag. cbn [replicate app].
  by rewrite drop_ge, app_nil_r by lia.
Qed.

Lemma pwrite_nil (file : list Z) : pwrite file (length file) [] = file.
Proof. by rewrite pwrite_end, app_nil_r. Qed.

Lemma copy_loop_correct fuel src off_in dst len remaining copied :
  range_ok src -> 0 <= off_in -> 0 <= remaining <= len -> (Z.to_nat remaining < fuel)%nat ->
  exists ret new, copy_loop fuel src off_in (dst ++ copied) (Z.of_nat (length (dst ++ copied))) len remaining
      = Ret (ret, dst ++ copied ++ new) /\
    (ret = len -> 0 < len -> length copied = Z.to_nat (len - remaining) ->
       new = take (Z.to_nat remaining) (drop (Z.to_nat off_in) src) /\ Z.of_nat (length new) = remaining) /\
    (len = 0 -> ret = 0 -> new = []).
Proof.
  intros Hok. revert off_in remaining copied.
  induction fuel as [|fuel IH]; intros off_in remaining copied Hoff Hrem Hf; [lia|]. cbn [copy_loop].
  destruct (copy_file_range E off_in remaining) as [n|errno] eqn:Ec.
  - destruct (Hok _ _ _ Hoff (proj1 Hrem) Ec) as (Hn & Hav & Hend). destruct (Z.eqb_spec n 0) as [->|Hnz].
    { exists (len - remaining), []. rewrite app_nil_r. split; [done|]. split; [|done].
      intros Hr Hl _. assert (remaining = 0) as -> by lia. by rewrite take_0. }
    set (chunk := take (Z.to_nat n) (drop (Z.to_nat off_in) src)).
    assert (Hch : Z.of_nat (length chunk) = n) by (unfold chunk; rewrite length_take, length_drop; lia).
    rewrite Nat2Z.id, pwrite_end, <- (app_assoc dst copied chunk).
    destruct (Z.ltb_spec 0 (remaining - n)) as [Hmore|Hdone].
    + replace (Z.of_nat (length (dst ++ copied)) + n) with (Z.of_nat (length (dst ++ (copied ++ chunk))))
        by (rewrite !length_app; lia).
      destruct (IH (off_in + n) (remaining - n) (copied ++ chunk)) as (ret & new & Hr & Hs & Hz); [lia..|].
      exists ret, (chunk ++ new). rewrite Hr, <- !app_assoc. split; [done|]. split; [|lia].
      intros -> Hl Hcp. destruct Hs as [Hs1 Hs2]; [done|done|rewrite length_app; lia|].
      split; [|rewrite length_app; lia]. unfold chunk. rewrite Hs1.
      replace (Z.to_nat remaining) with (Z.to_nat n + Z.to_nat (remaining - n))%nat by lia.
      rewrite <- take_take_drop. f_equal. rewrite drop_drop. f_equal. f_equal. lia.
    + exists len, chunk. split; [done|]. split; [|lia]. intros _ Hl Hcp.
      assert (remaining = n) as -> by lia. done.
  - assert (Hbad : exists ret new, Ret (-1, dst ++ copied) = Ret (ret, dst ++ copied ++ new) /\
      (ret = len -> 0 < len -> length copied = Z.to_nat (len - remaining) ->
         new = take (Z.to_nat remaining) (drop (Z.to_nat off_in) src) /\ Z.of_nat (length new) = remaining) /\
      (len = 0 -> ret = 0 -> new = [])).
    { exists (-1), []. rewrite app_nil_r. split; [done|]. split; lia. }
    destruct (_ || _); [|exact Hbad]. unfold copy_by_read. destruct (read_ok E); [|exact Hbad].
    set (buf := if remaining <=? _ then _ else _).
    destruct buf as [|x buf'] eqn:Eb.
    { exists 0, []. rewrite app_nil_r. split; [done|]. split; [lia|done]. }
    rewrite <- Eb. rewrite Nat2Z.id. destruct (write_fails E) as [k|].
    { rewrite pwrite_end, <- app_assoc. eexists _, _. split; [done|]. split; lia. }
    rewrite pwrite_end, <- app_assoc. eexists _, _. split; [done|].
    assert (Hlb : buf = take (Z.to_nat remaining) (drop (Z.to_nat off_in) src) /\ Z.of_nat (length buf) = remaining).
    { revert Eb. unfold buf. destruct (Z.leb_spec remaining (Z.of_nat (length (drop (Z.to_nat off_in) src)))); [|done].
      intros _. split; [done|]. rewrite length_take. lia. }
    split; [done|]. destruct Hlb as [_ Hlb]. intros -> _. destruct buf; [done|]. cbn in Hlb. lia.
Qed.

Lemma fb_copy_correct src skip dst len :
  range_ok src -> 0 <= skip -> len = Z.max 0 (Z.of_nat (length src) - skip) ->
  exists ret dst', fb_copy_file_range src skip dst (Z.of_nat (length dst)) len = Ret (ret, dst') /\
    (ret = len -> dst' = dst ++ drop (Z.to_nat skip) src).
Proof.
  intros Hr Hs Hlen. unfold fb_copy_file_range.
  destruct (copy_loop_correct (S (Z.to_nat len)) src skip dst len len [] Hr)
    as (ret & new & Hc & Hfull & Hzero); [lia..|].
  rewrite !app_nil_r in Hc. rewrite Hc. eexists _, _. split; [done|]. intros Hret. cbn [app]. f_equal.
  destruct (Z.eq_dec len 0) as [Hz|].
  - rewrite (Hzero Hz) by lia. by rewrite drop_ge by lia.
  - destruct Hfull as [-> _]; [done|lia|cbn; lia|]. apply take_ge. rewrite length_drop. lia.
Qed.

(** [copy_file()] comes to an end, and when it succeeds the destination has got the source
    without the skipped bytes, behind what it had. *)
Lemma copy_file_correct src skip dst append st :
  range_ok src -> 0 <= skip -> st_size st = Z.of_nat (length src) -> (append = false -> dst = []) ->
  exists ok dst', copy_file src skip dst append st = Ret (ok, dst') /\
    (ok = true -> dst' = dst ++ drop (Z.to_nat skip) src).
Proof.
  intros Hr Hs Hst Hd. unfold copy_file. destruct (_ && _ && _) eqn:Ec.
  { apply andb_prop in Ec as [[Hz Ha]%andb_prop _]. apply Z.eqb_eq in Hz as ->. apply negb_true_iff in Ha.
    exists true, src. split; [done|]. intros _. by rewrite Hd. }
  destruct (S_ISREG (st_mode st)); cbn [negb]; [|by exists false, dst]. rewrite Hst.
  set (len := if _ <=? _ then _ else _).
  destruct (fb_copy_correct src skip dst len Hr Hs) as (ret & dst' & Hc & Hfull).
  { subst len. destruct (Z.leb_spec skip (Z.of_nat (length src))); lia. }
  replace (if append then Z.of_nat (length dst) else 0) with (Z.of_nat (length dst))
    by (destruct append; [done|by rewrite Hd]).
  unfold mbind, outcome_bind. rewrite Hc. eexists _, _. split; [done|]. intros Hret%Z.eqb_eq. auto.
Qed.

(** Copying does not fail: either [copy_file_range()] works, or it is not supported and reading
    and writing works. *)
Definition copy_reliable : Prop :=
  read_ok E = true /\ write_fails E = None /\
  ((forall off remaining, exists n, copy_file_range E off remaining = inl n) \/
   (forall off remaining, copy_file_range E off remaining = inr EXDEV)).

Lemma copy_loop_reliable fuel src off_in dst off_out len remaining :
  range_ok src -> copy_reliable -> 0 <= off_in -> off_in + remaining <= Z.of_nat (length src) ->
  0 <= remaining <= len -> (Z.to_nat remaining < fuel)%nat ->
  (remaining < len -> forall off rem, exists n, copy_file_range E off rem = inl n) ->
  exists dst', copy_loop fuel src off_in dst off_out len remaining = Ret (len, dst').
Proof.
  intros Hok (Hread & Hwr & Hc). revert off_in dst off_out remaining.
  induction fuel as [|fuel IH]; intros off_in dst off_out remaining Hoff Hsrc Hrem Hf Hpart; [lia|]. cbn [copy_loop].
  destruct Hc as [Hc|Hc].
  - destruct (Hc off_in remaining) as [n Hn]. rewrite Hn.
    destruct (Hok _ _ _ Hoff (proj1 Hrem) Hn) as (Hn1 & Hav & Hend). destruct (Z.eqb_spec n 0) as [->|Hnz].
    { eexists. f_equal. f_equal. destruct (Z.eq_dec remaining 0); lia. }
    destruct (Z.ltb_spec 0 (remaining - n)); [|by eexists]. apply IH; try lia. intros _. done.
  - rewrite Hc. cbn [orb Z.eqb]. rewrite Z.eqb_refl. cbn [orb]. unfold copy_by_read. rewrite Hread, Hwr.
    destruct (Z.lt_ge_cases remaining len) as [Hlt|Hge].
    { destruct (Hpart Hlt 0 0) as [n Hn]. by rewrite Hc in Hn. }
    rewrite (proj2 (Z.leb_le _ _)) by (rewrite length_drop; lia). set (buf := take _ _).
    assert (Hl : Z.of_nat (length buf) = len) by (unfold buf; rewrite length_take, length_drop; lia).
    destruct buf as [|x buf'] eqn:Eb; [cbn in Hl; subst len; by eexists|]. eexists. f_equal. by rewrite Hl.
Qed.

Lemma copy_file_reliable src skip dst append st :
  range_ok src -> copy_reliable -> 0 <= skip -> st_size st = Z.of_nat (length src) -> S_ISREG (st_mode st) = true ->
  exists dst', copy_file src skip dst append st = Ret (true, dst').
Proof.
  intros Hr Hc Hs Hst Hreg. unfold copy_file. destruct (_ && _ && _); [by eexists|]. rewrite Hreg. cbn [negb].
  unfold fb_copy_file_range, mbind, outcome_bind. destruct (Z.leb_spec skip (st_size st)) as [Hle|Hgt].
  - set (len := st_size st - skip).
    destruct (copy_loop_reliable (S (Z.to_nat len)) src skip dst (if append then Z.of_nat (length dst) else 0) len len Hr Hc)
      as [dst' Hd]; [lia|unfold len; lia|unfold len; lia|lia|lia|].
    rewrite Hd. eexists. by rewrite Z.eqb_refl.
  - cbn [Z.to_nat copy_loop]. destruct Hc as (Hrd & Hw & [Hc|Hc]).
    + destruct (Hc skip 0) as [n Hn]. rewrite Hn. apply Hr in Hn as (Hn1 & _); [|lia..].
      assert (n = 0) as -> by lia. by eexists.
    + rewrite Hc. cbn [orb]. rewrite Z.eqb_refl. unfold copy_by_read. rewrite Hrd.
      rewrite (proj2 (Z.leb_le _ _)) by lia. cbn [Z.to_nat take]. by eexists.
Qed.
End Copy.

(** Answers for the examples. *)
Definition demo_copy_env : copy_env := mkCopyEnv false (fun _ _ => inr EXDEV) true None.

Lemma demo_range_ok src : range_ok demo_copy_env src.
Proof. intros ? ? ? ? ?. done. Qed.
End Copy.

(** * The directory tree of a cache *)
Module CacheDir.

(** A regular file with its contents and modification time, a directory with its entries in
    the order of [readdir()], or something else. *)
Local Unset Elimination Schemes.
Inductive node :=
| Reg (data : list Z) (mtime : Z * Z)
| Dir (entries : list (cstr * node))
| Special.
Local Set Elimination Schemes.
Abbreviation dir := (list (cstr * node)).

Section Induction.
Context (P : node -> Prop) (HReg : forall data mtime, P (Reg data mtime)) (HSpecial : P Special)
        (HDir : forall entries, Forall (fun e => P e.2) entries -> P (Dir entries)).
Fixpoint node_ind' (n : node) : P n :=
  match n with
  | Reg data mtime => HReg data mtime
  | Special => HSpecial
  | Dir entries =>
      HDir entries ((fix go (l : dir) : Forall (fun e => P e.2) l :=
                       match l with
                       | [] => List.Forall_nil _
                       | e :: l => List.Forall_cons _ _ _ (node_ind' e.2) (go l)
                       end) entries)
  end.
End Induction.

(** Names are unique in every directory. *)
Fixpoint wf (n : node) : Prop :=
  match n with
  | Dir entries => NoDup (fst <$> entries) /\ fold_right (fun e P => wf e.2 /\ P) True entries
  | _ => True
  end.

Lemma wf_Dir entries : wf (Dir entries) <-> NoDup (fst <$> entries) /\ Forall (fun e => wf e.2) entries.
Proof.
  cbn. f_equiv. induction entries as [|e l IH]; cbn; [done|]. by rewrite Forall_cons, IH.
Qed.

Fixpoint find (name : cstr) (d : dir) : option node :=
  match d with
  | [] => None
  | (n, x) :: d => if bool_decide (n = name) then Some x else find name d
  end.

Fixpoint lookup (path : list cstr) (n : node) : option node :=
  match path, n with
  | [], _ => Some n
  | c :: path, Dir d => match find c d with Some n => lookup path n | None => None end
  | _ :: _, _ => None
  end.

(** Change the directory at [path]; nothing changes when there is none. *)
Fixpoint modify (path : list cstr) (f : dir -> dir) (n : node) : node :=
  match n with
  | Dir d =>
      match path with
      | [] => Dir (f d)
      | c :: path => Dir ((fun e => if bool_decide (e.1 = c) then (e.1, modify path f e.2) else e) <$> d)
      end
  | _ => n
  end.

(** [mkdir()] of a name in the directory at [path]: fails silently when the name exists. *)
Definition add_new (name : cstr) (n : node) (d : dir) : dir :=
  match find name d with Some _ => d | None => d ++ [(name, n)] end.
Definition mkdir (path : list cstr) (name : cstr) : node -> node := modify path (add_new name (Dir [])).

(** [recursive_total_file_size()]. *)
Fixpoint recursive_total_file_size (n : node) : Z :=
  match n with
  | Reg data _ => Z.of_nat (length data)
  | Dir entries => fold_right (fun e total => recursive_total_file_size e.2 + total) 0 entries
  | Special => 0
  end.

(** The regular files of a tree, with their paths. *)
Fixpoint files (n : node) : list (list cstr * list Z) :=
  match n with
  | Reg data _ => [([], data)]
  | Dir entries => fold_right (fun e fs => (prod_map (cons e.1) id <$> files e.2) ++ fs) [] entries
  | Special => []
  end.

Fixpoint sizes (fs : list (list cstr * list Z)) : Z :=
  match fs with [] => 0 | f :: fs => Z.of_nat (length f.2) + sizes fs end.

Lemma sizes_app a b : sizes (a ++ b) = sizes a + sizes b.
Proof. induction a as [|x a IH]; cbn; [done|]. rewrite IH. lia. Qed.

Lemma sizes_map (g : list cstr -> list cstr) fs : sizes (prod_map g id <$> fs) = sizes fs.
Proof. induction fs as [|[p c] fs IH]; cbn; [done|]. by rewrite IH. Qed.

Lemma total_files n : recursive_total_file_size n = sizes (files n).
Proof.
  induction n as [data mt| |entries IH] using node_ind'; cbn; [lia|done|].
  induction IH as [|e l He _ IH]; cbn [fold_right]; [done|]. by rewrite sizes_app, sizes_map, He, IH.
Qed.

Lemma find_Some name d n : find name d = Some n -> (name, n) ∈ d.
Proof.
  induction d as [|[m x] d IH]; cbn; [done|]. case_bool_decide; [intros [= ->]; subst; by left|right; auto].
Qed.

Lemma find_elem name n d : NoDup (fst <$> d) -> (name, n) ∈ d -> find name d = Some n.
Proof.
  induction d as [|[m x] d IH]; cbn; [by intros _ ?%elem_of_nil|].
  intros [Hm Hd]%NoDup_cons [[= <- <-]|H]%elem_of_cons; [by rewrite bool_decide_true|].
  rewrite bool_decide_false; [auto|]. intros ->. destruct Hm.
  apply list_elem_of_fmap. by exists (name, n).
Qed.

Lemma find_app name a b : find name (a ++ b) = match find name a with Some n => Some n | None => find name b end.
Proof. induction a as [|[m x] a IH]; cbn; [done|]. by case_bool_decide. Qed.

Lemma find_fmap name (d : dir) (f : cstr * node -> cstr * node) :
  (forall e, (f e).1 = e.1) -> find name (f <$> d) = (fun n => (f (name, n)).2) <$> find name d.
Proof.
  intros Hf. induction d as [|[m x] d IH]; cbn; [done|].
  destruct (f (m, x)) as [m' x'] eqn:E. pose proof (Hf (m, x)) as Hm. rewrite E in Hm. cbn in Hm. subst m'.
  case_bool_decide as Hn; [|done]. subst m. cbn. by rewrite E.
Qed.

Lemma fmap_fst_same (d : dir) (f : cstr * node -> cstr * node) : (forall e, (f e).1 = e.1) -> fst <$> (f <$> d) = fst <$> d.
Proof. intros Hf. induction d as [|e d IH]; cbn; [done|]. by rewrite Hf, IH. Qed.

Lemma find_None name d : find name d = None <-> name ∉ fst <$> d.
Proof.
  induction d as [|[m x] d IH]; cbn; [split; [intros _ ?%elem_of_nil|]; done|].
  rewrite not_elem_of_cons. case_bool_decide; [split; [done|by intros [? _]]|]. rewrite IH. naive_solver.
Qed.

(** What is at [path] after the directory at [where] has been changed, when they part or when
    [path] leads through that directory. *)
Lemma lookup_modify_below where_ path f n d :
  lookup where_ n = Some (Dir d) ->
  lookup (where_ ++ path) (modify where_ f n) = lookup path (Dir (f d)).
Proof.
  revert n. induction where_ as [|c w IH]; intros n; cbn; [by intros [= ->]|].
  destruct n as [|es|]; [done| |done]. destruct (find c es) as [m|] eqn:E; [|done]. intros Hl. cbn.
  rewrite find_fmap by (intros [a b]; cbn; by case_bool_decide). rewrite E. cbn.
  rewrite bool_decide_true by done. by apply IH.
Qed.

Lemma wf_modify path f n :
  (forall d, NoDup (fst <$> d) -> Forall (fun e => wf e.2) d ->
     NoDup (fst <$> f d) /\ Forall (fun e => wf e.2) (f d)) ->
  wf n -> wf (modify path f n).
Proof.
  intros Hf. revert n. induction path as [|c path IH]; intros [data mt|es|]; cbn [modify]; try done;
    rewrite !wf_Dir; intros [Hn Hs]; [by apply Hf|].
  rewrite fmap_fst_same by (intros [a b]; cbn; by case_bool_decide). split; [done|].
  apply Forall_fmap. eapply Forall_impl; [exact Hs|]. intros [a b]; cbn. case_bool_decide; cbn; auto.
Qed.

Lemma wf_add_new name n d :
  wf n -> NoDup (fst <$> d) -> Forall (fun e => wf e.2) d ->
  NoDup (fst <$> add_new name n d) /\ Forall (fun e => wf e.2) (add_new name n d).
Proof.
  intros Hn Hd Hs. unfold add_new. destruct (find name d) eqn:E; [done|].
  rewrite fmap_app. split.
  - apply NoDup_app. split; [done|]. split; [|apply NoDup_singleton].
    intros x Hx ->%list_elem_of_singleton. by apply find_None in E.
  - by apply Forall_app_2; [|apply Forall_singleton].
Qed.
(** What can be seen at a path, without the contents of directories. *)
Inductive seen := SReg (data : list Z) (mtime : Z * Z) | SDir | SSpecial | SNone.
#[global] Instance seen_eq_dec : EqDecision seen.
Proof. solve_decision. Defined.

Definition kind (n : node) : seen :=
  match n with Reg data mtime => SReg data mtime | Dir _ => SDir | Special => SSpecial end.
Definition see (path : list cstr) (n : node) : seen :=
  match lookup path n with Some n => kind n | None => SNone end.

Lemma see_cons c path n :
  see (c :: path) n = match n with Dir d => match find c d with Some n => see path n | None => SNone end | _ => SNone end.
Proof. unfold see. cbn. destruct n as [|d|]; [done| |done]. by destruct (find c d). Qed.

Lemma see_nil n : see [] n = kind n.
Proof. done. Qed.

Lemma see_SDir path n : see path n = SDir <-> exists d, lookup path n = Some (Dir d).
Proof.
  unfold see. destruct (lookup path n) as [[| |]|]; cbn; split; try done; [naive_solver..|by eexists|naive_solver|naive_solver].
Qed.

Lemma find_add_new name c x d :
  find name (add_new c x d) =
    if bool_decide (name = c) then Some (default x (find c d)) else find name d.
Proof.
  unfold add_new. destruct (find c d) as [y|] eqn:E.
  - case_bool_decide; [by subst|done].
  - rewrite find_app. cbn. destruct (decide (name = c)) as [->|Hn].
    + rewrite E. by rewrite !bool_decide_true.
    + rewrite !bool_decide_false by congruence. by destruct (find name d).
Qed.

(** Adding a new file or empty directory changes what can be seen at its path only. *)
Lemma see_add where_ c x path n :
  (forall y q, see (y :: q) x = SNone) ->
  see path (modify where_ (add_new c x) n) =
    if decide (path = where_ ++ [c] /\ see where_ n = SDir /\ see path n = SNone)
    then kind x else see path n.
Proof.
  intros Hx. revert path n. induction where_ as [|w where_ IH]; intros path n.
  - destruct n as [data mt|d|]; cbn [modify]; [by rewrite decide_False by naive_solver| |by rewrite decide_False by naive_solver].
    destruct path as [|y q]; [by rewrite decide_False by naive_solver|]. rewrite !see_cons, find_add_new.
    case_bool_decide as Hy; [subst y|by rewrite decide_False by naive_solver].
    destruct (find c d) as [m|] eqn:E; cbn [default from_option id].
    + destruct (decide _) as [(Hq & _ & Hn)|]; [|done]. cbn in Hq. by injection Hq as ->; destruct m.
    + destruct q as [|z q].
      * by rewrite decide_True by done.
      * rewrite decide_False by naive_solver. apply Hx.
  - destruct n as [data mt|d|]; cbn [modify]; [by rewrite decide_False by naive_solver| |by rewrite decide_False by naive_solver].
    destruct path as [|y q]; [by rewrite decide_False by naive_solver|].
    rewrite !see_cons, find_fmap by (intros [a b]; cbn; by case_bool_decide).
    destruct (find y d) as [m|] eqn:E; cbn; [|rewrite decide_False; [done|]].
    + case_bool_decide as Hy; cbn; [subst w; rewrite IH|].
      * rewrite E. destruct (decide (q = _ /\ _)), (decide (y :: q = _ /\ _)); naive_solver.
      * rewrite decide_False by naive_solver. done.
    + intros ([= -> ->] & Hs & _). by rewrite E in Hs.
Qed.

Lemma kind_total n : kind n <> SDir -> recursive_total_file_size n = match kind n with SReg data _ => Z.of_nat (length data) | _ => 0 end.
Proof. by destruct n. Qed.

Lemma total_Dir d : recursive_total_file_size (Dir d) = fold_right (fun e total => recursive_total_file_size e.2 + total) 0 d.
Proof. done. Qed.

Lemma total_app a b : recursive_total_file_size (Dir (a ++ b)) = recursive_total_file_size (Dir a) + recursive_total_file_size (Dir b).
Proof. rewrite !total_Dir. induction a as [|e a IH]; cbn [app fold_right]; [lia|]. rewrite IH. lia. Qed.

Lemma total_update c (g : node -> node) d :
  NoDup (fst <$> d) ->
  recursive_total_file_size (Dir ((fun e => if bool_decide (e.1 = c) then (e.1, g e.2) else e) <$> d)) =
  recursive_total_file_size (Dir d) +
    match find c d with Some m => recursive_total_file_size (g m) - recursive_total_file_size m | None => 0 end.
Proof.
  rewrite !total_Dir. induction d as [|[m x] d IH]; cbn [fmap list_fmap fold_right find fst snd]; [done|].
  intros [Hm Hd]%NoDup_cons. rewrite IH by done. case_bool_decide as Hc; cbn [fst snd]; [|lia].
  subst m. rewrite (proj2 (find_None c d)) by done. lia.
Qed.

Lemma total_add where_ c x n :
  wf n -> see where_ n = SDir ->
  recursive_total_file_size (modify where_ (add_new c x) n) =
  recursive_total_file_size n +
    (if decide (see (where_ ++ [c]) n = SNone) then recursive_total_file_size x else 0).
Proof.
  revert n. induction where_ as [|w where_ IH]; intros n Hwf Hw.
  - destruct n as [|d|]; try done. cbn [modify app]. rewrite see_cons. unfold add_new.
    destruct (find c d) as [m|]; [rewrite decide_False by (by destruct m)|rewrite decide_True by done]; [lia|].
    rewrite total_app. cbn. lia.
  - rewrite see_cons in Hw. destruct n as [|d|]; try done. apply wf_Dir in Hwf as [Hnd Hs].
    destruct (find w d) as [m|] eqn:E; [|done]. cbn [modify app]. rewrite (total_update w (modify where_ (add_new c x))) by done.
    rewrite see_cons, E. rewrite IH; [lia| |done].
    rewrite Forall_forall in Hs. apply (Hs (w, m)), find_Some, E.
Qed.
End CacheDir.

(** * The blob cache *)

(** Settings of the cache (config.h) and the zstd library with its wrappers in utils.cc:
    compressing and decompressing may fail. *)
Class CacheConfig := {
  compress_cache : bool;
  debug_cache : bool;                        (* FB_DEBUGGING(FB_DEBUG_CACHE) *)
  max_entry_size : Z;
  max_cache_size : Z;
  shortcut_tries : Z;
  zstd_compress : list Z -> option (list Z);
  zstd_decompress : list Z -> option (list Z)
}.

(** Documented behaviour of zstd: what was compressed can be decompressed. *)
Class CacheConfigOk `{CacheConfig} : Prop := {
  zstd_roundtrip data z : zstd_compress data = Some z -> zstd_decompress z = Some data
}.

Module BlobCache.
Import Copy CacheDir.

Definition kDebugPostfix : cstr := cs "_debug.txt".

(** The tree below [base_dir_], and [this_runs_cached_bytes_] of the cacher, which is told of
    every change ([update_cached_bytes()]). *)
Record t := mk { root : node; cached_bytes : Z }.

(** How the system answers while a file is stored: copying, [mkstemp()], reading the copy, the
    time, and what is written for debugging. *)
Record store_env := mkStoreEnv {
  se_copy : copy_env;
  se_mkstemp_ok : bool;
  se_file : list Z -> Hashing.open_file;
  se_now : Z * Z;
  se_debug_txt : list Z
}.

Section BlobCache.
Context `{XXHash} `{CacheConfig}.

(** [construct_cached_file_name()]: the directories and the name. *)
Definition construct_cached_file_name (key : Hash.t) : outcome (list cstr * cstr) :=
  match Hash.to_ascii XXH128_canonicalFromHash key with
  | None => Abort
  | Some buf =>
      let ascii := take Hash.kAsciiLength buf in
      Ret ([[char_at ascii 0]; [char_at ascii 0; char_at ascii 1]], ascii)
  end.

(** The [create_dirs] part of it. *)
Fixpoint create_dirs (above dirs : list cstr) (n : node) : node :=
  match dirs with
  | [] => n
  | c :: dirs => create_dirs (above ++ [c]) dirs (mkdir above c n)
  end.

(** [fb_renameat2(tmpfile, path, RENAME_NOREPLACE)] of a file to [name] in [dirs]: [errno] or
    the new tree. *)
Definition fb_renameat2 (file : node) (dirs : list cstr) (name : cstr) (n : node) : Z + node :=
  match lookup dirs n with
  | Some (Dir d) =>
      match find name d with
      | Some _ => inl EEXIST
      | None => inr (modify dirs (add_new name file) n)
      end
  | _ => inl ENOENT
  end.

(** [open(O_CREAT|O_WRONLY|O_APPEND)] of [name] in [dirs] and [write()]; [None] is an error. *)
Definition append_file (dirs : list cstr) (name : cstr) (txt : list Z) (now : Z * Z) (n : node) : option node :=
  match lookup dirs n with
  | Some (Dir d) =>
      match find name d with
      | None => Some (modify dirs (add_new name (Reg txt now)) n)
      | Some (Reg data _) =>
          Some (modify dirs (fmap (fun e => if bool_decide (e.1 = name) then (e.1, Reg (data ++ txt) now) else e)) n)
      | Some _ => None
      end
  | _ => None
  end.

(** The common end of [store_file()] and [move_store_file()]: move the temporary file with
    [data] to its place. *)
Definition publish (E : store_env) (key : Hash.t) (data : list Z) (s : t) : outcome t :=
  '(dirs, name) ← construct_cached_file_name key;
  let n := create_dirs [] dirs (root s) in
  s ← (match fb_renameat2 (Reg data (se_now E)) dirs name n with
       | inl errno => if errno =? EEXIST then Ret (mk n (cached_bytes s)) else Abort
       | inr n => Ret (mk n (cached_bytes s + Z.of_nat (length data)))
       end);
  if debug_cache then
    match append_file dirs (name ++ kDebugPostfix) (se_debug_txt E) (se_now E) (root s) with
    | Some n => Ret (mk n (cached_bytes s + Z.of_nat (length (se_debug_txt E))))
    | None => Abort
    end
  else Ret s.

(** [compress_file()] into another temporary file, if compression is enabled. *)
Definition pack (data : list Z) : option (list Z) :=
  if compress_cache then zstd_compress data else Some data.

(** [store_file(path, max_writers, fd_src, src_skip_bytes, size, &key)]; [src] is what the file
    descriptor (the given one, or that of the opened [path]) reads, [None] when [open()]
    fails. *)
Definition store_file (E : store_env) (writers_count max_writers : Z) (src : option (list Z))
    (src_skip_bytes size : Z) (s : t) : outcome (option Hash.t * t) :=
  if max_writers <? writers_count then Ret (None, s)
  else
    match src with
    | None => Abort
    | Some src =>
        assert (se_mkstemp_ok E) ≫= fun _ =>
        '(copied, dst) ← copy_file (se_copy E) src src_skip_bytes [] false (Build_stat_t 32768 size);
        if negb copied then Ret (None, s)
        else
          let dst_st := Build_stat_t 32768 (if src_skip_bytes <=? size then size - src_skip_bytes else 0) in
          hashed ← Hashing.set_from_fd (se_file E dst) (Some dst_st) None;
          match hashed with
          | None => Ret (None, s)
          | Some (key, _, _) =>
              match pack dst with
              | None => Ret (None, s)
              | Some data => s ← publish E key data s; Ret (Some key, s)
              end
          end
    end.

(** [move_store_file(path, fd, size, &key)] of a file with the given contents. *)
Definition move_store_file (E : store_env) (contents : list Z) (size : Z) (s : t)
    : outcome (option Hash.t * t) :=
  assert (0 <? size) ≫= fun _ =>
  hashed ← Hashing.set_from_fd (se_file E contents) (Some (Build_stat_t 32768 size)) None;
  match hashed with
  | None => Ret (None, s)
  | Some (key, _, _) =>
      assert (negb compress_cache || se_mkstemp_ok E) ≫= fun _ =>
      match pack contents with
      | None => Ret (None, s)
      | Some data =>
          assert (negb compress_cache || (0 <? Z.of_nat (length data))) ≫= fun _ =>
          s ← publish E key data s; Ret (Some key, s)
      end
  end.

(** [get_fd_for_file(key)]: what the opened blob contains. *)
Definition get_fd_for_file (key : Hash.t) (s : t) : outcome (option (list Z)) :=
  '(dirs, name) ← construct_cached_file_name key;
  Ret (match lookup (dirs ++ [name]) (root s) with Some (Reg data _) => Some data | _ => None end).

(** [retrieve_file(blob_fd, path_dst, append, decompress)]: [opened] are the contents behind
    the file descriptor that [open(path_dst, O_WRONLY, or O_WRONLY|O_CREAT|O_TRUNC)] returns; the result
    are the new contents, [None] when opening failed. *)
Definition retrieve_file (E : copy_env) (blob : list Z) (opened : option (list Z)) (append decompress : bool)
    : outcome (option (list Z)) :=
  match opened with
  | None => if append then Abort else Ret None
  | Some dst =>
      if decompress then
        match zstd_decompress blob with
        | None => Abort
        | Some data => Ret (Some (pwrite dst 0 data))
        end
      else
        '(success, dst) ← copy_file E blob 0 dst append (Build_stat_t 32768 (Z.of_nat (length blob)));
        if success : bool then Ret (Some dst) else Abort
  end.

(** ** Garbage collection *)

(** Bytes that are kept as blobs, for debugging, and under unexpected names, and
    [this_runs_cached_bytes_]. *)
Record gc_acc := mkAcc {
  cache_bytes : Z;
  debug_bytes : Z;
  unexpected_file_bytes : Z;
  run_bytes : Z
}.

Definition add_acc (a b : gc_acc) : gc_acc :=
  mkAcc (cache_bytes a + cache_bytes b) (debug_bytes a + debug_bytes b)
        (unexpected_file_bytes a + unexpected_file_bytes b) (run_bytes a + run_bytes b).

Section Collect.
(** Whether [unlink()] of an absolute path succeeds (on something that is not a directory). *)
Context (unlink_ok : cstr -> bool).

Definition subpath (path name : cstr) : cstr := path ++ slash :: name.

(** [fstatat()] and [unlink()] of an entry, when it has not been deleted before: the size of
    what was removed. *)
Definition unlink_entry (path : cstr) (d : dir) (gone : list cstr) (name : cstr) : option Z :=
  if bool_decide (name ∈ gone) then None
  else
    match find name d with
    | Some (Reg data _) => if unlink_ok (subpath path name) then Some (Z.of_nat (length data)) else None
    | Some Special => if unlink_ok (subpath path name) then Some 0 else None
    | _ => None
    end.

(** [delete_entries(path, entries, debug_postfix, &debug_bytes)]: the deleted names. *)
Fixpoint delete_entries (path : cstr) (entries : list cstr) (debug_postfix : cstr) (d : dir)
    (gone : list cstr) (acc : gc_acc) : list cstr * gc_acc :=
  match entries with
  | [] => (gone, acc)
  | entry :: entries =>
      let '(gone, acc) :=
        match unlink_entry path d gone entry with
        | Some size => (entry :: gone, add_acc acc (mkAcc 0 0 0 (- size)))
        | None => (gone, acc)
        end in
      let '(gone, acc) :=
        if debug_cache then
          match unlink_entry path d gone (entry ++ debug_postfix) with
          | Some size => ((entry ++ debug_postfix) :: gone, add_acc acc (mkAcc 0 (- size) 0 (- size)))
          | None => (gone, acc)
          end
        else (gone, acc) in
      delete_entries path entries debug_postfix d gone acc
  end.

Section Gc.
(** [referenced_blobs]. *)
Context (referenced : list cstr).

(** What the first loop over a directory does with a regular file: keep it as a blob, keep it
    as a debugging file, keep it for its unexpected name, or delete it. *)
Inductive verdict := KeepBlob | KeepDebug | KeepUnexpected | Delete.

Definition classify (d : dir) (name : cstr) : verdict :=
  if Hash.valid_ascii name then
    if bool_decide (Hash.ascii_of_str name ∈ referenced) then KeepBlob else Delete
  else
    match Paths.strstr name kDebugPostfix with
    | Some name_len =>
        if debug_cache
        then match find (take name_len name) d with Some _ => KeepDebug | None => Delete end
        else Delete
    | None => KeepUnexpected
    end.

Definition verdict_acc (v : verdict) (size : Z) : gc_acc :=
  match v with
  | KeepBlob => mkAcc size 0 0 0
  | KeepDebug => mkAcc 0 size 0 0
  | KeepUnexpected => mkAcc 0 0 size 0
  | Delete => mkAcc 0 0 0 0
  end.

(** The first loop: the entries to delete, and the bytes that are kept. *)
Fixpoint scan (d l : dir) (acc : gc_acc) : list cstr * gc_acc :=
  match l with
  | [] => ([], acc)
  | (name, Reg data _) :: l =>
      let v := classify d name in
      let '(to_delete, acc) := scan d l (add_acc acc (verdict_acc v (Z.of_nat (length data)))) in
      (match v with Delete => name :: to_delete | _ => to_delete end, acc)
  | _ :: l => scan d l acc
  end.

(** The deleted files are gone, the subdirectories are visited. *)
Definition visit (rec : cstr -> node -> gc_acc -> option node * gc_acc) (gone : list cstr) :=
  fix go (l : dir) (acc : gc_acc) : dir * gc_acc :=
    match l with
    | [] => ([], acc)
    | (name, x) :: l =>
        match x with
        | Dir _ =>
            let '(x', acc) := rec name x acc in
            let '(l', acc) := go l acc in
            (match x' with Some x' => (name, x') :: l' | None => l' end, acc)
        | _ =>
            let '(l', acc) := go l acc in
            (if bool_decide (name ∈ gone) then l' else (name, x) :: l', acc)
        end
    end.

(** [gc_blob_cache_dir(path, ...)]; [None] when the directory has been removed. *)
Fixpoint gc_blob_cache_dir (path : cstr) (is_base : bool) (n : node) (acc : gc_acc) : option node * gc_acc :=
  match n with
  | Dir d =>
      let '(to_delete, acc) := scan d d acc in
      let '(gone, acc) := delete_entries path to_delete kDebugPostfix d [] acc in
      let '(d', acc) := visit (fun name => gc_blob_cache_dir (subpath path name) false) gone d acc in
      (match d' with [] => if is_base then Some (Dir []) else None | _ => Some (Dir d') end, acc)
  | _ => (Some n, acc)
  end.

(** [gc()], for [base_dir_]. *)
Definition gc (base_dir : cstr) (n : node) (acc : gc_acc) : node * gc_acc :=
  let '(n', acc) := gc_blob_cache_dir base_dir true n acc in (default n n', acc).
End Gc.

(** ** What garbage collection keeps *)
Section GcCorrect.
Context (Hdebug : debug_cache = false) (referenced : list cstr).

Abbreviation class := (classify referenced []).

Lemma classify_class d name : classify referenced d name = class name.
Proof. unfold classify. rewrite Hdebug. done. Qed.

(** Files that are deleted, by their path below the directory [path]. *)
Definition doomed (path : cstr) (f : list cstr * list Z) : Prop :=
  match last f.1 with
  | Some name => class name = Delete /\ unlink_ok (path ++ Paths.render_tail f.1) = true
  | None => False
  end.
#[global] Instance verdict_eq_dec : EqDecision verdict.
Proof. solve_decision. Defined.
#[global] Instance doomed_dec path f : Decision (doomed path f).
Proof. unfold doomed. destruct (last f.1); apply _. Defined.

Definition of_class (v : verdict) (f : list cstr * list Z) : Prop := class <$> last f.1 = Some v.
#[global] Instance of_class_dec v f : Decision (of_class v f).
Proof. unfold of_class. apply _. Defined.

(** The effect of collecting a tree. *)
Definition effect (path : cstr) (fs : list (list cstr * list Z)) : gc_acc :=
  mkAcc (sizes (filter (of_class KeepBlob) fs)) 0 (sizes (filter (of_class KeepUnexpected) fs))
        (- sizes (filter (doomed path) fs)).

Lemma add_acc_assoc a b c : add_acc a (add_acc b c) = add_acc (add_acc a b) c.
Proof. unfold add_acc; cbn; f_equal; lia. Qed.
Lemma add_acc_comm a b : add_acc a b = add_acc b a.
Proof. unfold add_acc; f_equal; lia. Qed.
Lemma add_acc_0 a : add_acc a (mkAcc 0 0 0 0) = a.
Proof. destruct a. unfold add_acc; cbn. f_equal; lia. Qed.

Lemma add_acc_0_l a : add_acc (mkAcc 0 0 0 0) a = a.
Proof. by rewrite add_acc_comm, add_acc_0. Qed.

Lemma effect_app path a b : effect path (a ++ b) = add_acc (effect path a) (effect path b).
Proof. unfold effect, add_acc. cbn. rewrite !list.filter_app, !sizes_app. f_equal; lia. Qed.

(** Going down into a directory. *)
Definition under (name : cstr) (fs : list (list cstr * list Z)) : list (list cstr * list Z) := prod_map (cons name) id <$> fs.

Lemma files_cons name x d : files (Dir ((name, x) :: d)) = under name (files x) ++ files (Dir d).
Proof. done. Qed.

Lemma filter_under (P Q : list cstr * list Z -> Prop) `{forall f, Decision (P f)} `{forall f, Decision (Q f)} name fs :
  (forall f, f ∈ fs -> P (name :: f.1, f.2) <-> Q f) -> filter P (under name fs) = under name (filter Q fs).
Proof.
  intros HPQ. induction fs as [|[p c] fs IH]; [done|]. unfold under in *. cbn [fmap list_fmap prod_map id fst snd].
  rewrite !list.filter_cons. rewrite IH by (intros f Hf; apply HPQ; by right).
  pose proof (HPQ (p, c) ltac:(by left)) as E. cbn in E.
  destruct (decide (P _)), (decide (Q _)); cbn; naive_solver.
Qed.

Lemma files_Dir_ne d f : f ∈ files (Dir d) -> f.1 <> [].
Proof.
  induction d as [|[name x] d IH]; [by intros ?%elem_of_nil|]. rewrite files_cons.
  intros [Hf|Hf]%elem_of_app; [|auto]. apply list_elem_of_fmap in Hf as ([p c] & -> & _). done.
Qed.

Lemma last_cons_ne {A} (x : A) p : p <> [] -> last (x :: p) = last p.
Proof. destruct p; done. Qed.

Lemma doomed_under path name f : f.1 <> [] -> doomed path (name :: f.1, f.2) <-> doomed (subpath path name) f.
Proof.
  intros Hf. unfold doomed. cbn [fst]. rewrite last_cons_ne by done. unfold subpath. cbn [Paths.render_tail flat_map].
  change (flat_map _ f.1) with (Paths.render_tail f.1). by rewrite <- app_assoc.
Qed.

Lemma effect_under path name d : effect path (under name (files (Dir d))) = effect (subpath path name) (files (Dir d)).
Proof.
  unfold effect. rewrite (filter_under (doomed path) (doomed (subpath path name))).
  2:{ intros f Hf. apply doomed_under. by apply files_Dir_ne in Hf. }
  assert (Hc : forall v, filter (of_class v) (under name (files (Dir d))) = under name (filter (of_class v) (files (Dir d)))).
  { intros v. apply filter_under. intros f Hf%files_Dir_ne. unfold of_class. cbn [fst]. by rewrite last_cons_ne. }
  rewrite !Hc. unfold under. by rewrite !sizes_map.
Qed.

Lemma sizes_filter_one (P : list cstr * list Z -> Prop) `{forall f, Decision (P f)} (Q : Prop) `{Decision Q} p data :
  (P (p, data) <-> Q) -> sizes (filter P [(p, data)]) = if decide Q then Z.of_nat (length data) else 0.
Proof.
  intros HPQ. rewrite list.filter_cons, list.filter_nil.
  destruct (decide (P (p, data))), (decide Q); cbn; try lia; tauto.
Qed.

Lemma class_not_debug name : class name <> KeepDebug.
Proof.
  unfold classify. rewrite Hdebug. destruct (Hash.valid_ascii name); [by case_bool_decide|].
  by destruct (Paths.strstr name kDebugPostfix).
Qed.

Lemma effect_Reg path name data mt :
  effect path (under name (files (Reg data mt))) =
  add_acc (verdict_acc (class name) (Z.of_nat (length data)))
    (mkAcc 0 0 0 (- if decide (class name = Delete /\ unlink_ok (subpath path name) = true) then Z.of_nat (length data) else 0)).
Proof.
  unfold effect, under. cbn [files fmap list_fmap prod_map id fst snd].
  rewrite (sizes_filter_one (doomed path) (class name = Delete /\ unlink_ok (subpath path name) = true))
    by (unfold doomed, subpath; cbn; by rewrite app_nil_r).
  rewrite (sizes_filter_one (of_class KeepBlob) (class name = KeepBlob)) by (unfold of_class; cbn; split; congruence).
  rewrite (sizes_filter_one (of_class KeepUnexpected) (class name = KeepUnexpected)) by (unfold of_class; cbn; split; congruence).
  pose proof (class_not_debug name). unfold add_acc. destruct (class name) eqn:Ec; cbn [verdict_acc cache_bytes debug_bytes unexpected_file_bytes run_bytes];
    try congruence; f_equal; try (destruct (decide (_ = _)); try congruence; lia); lia.
Qed.

(** The first loop and the deletions, on a part [l] of the directory. *)
Definition is_reg (n : node) : bool := match n with Reg _ _ => true | _ => false end.
Definition regs (l : dir) : dir := filter (fun e => is_reg e.2 = true) l.
Definition reg_effect (path : cstr) (e : cstr * node) : gc_acc :=
  if is_reg e.2 then effect path (under e.1 (files e.2)) else mkAcc 0 0 0 0.
Definition sum_acc (l : list gc_acc) : gc_acc := foldr add_acc (mkAcc 0 0 0 0) l.

Lemma scan_correct d l acc :
  scan referenced d l acc =
    (fst <$> filter (fun e => class e.1 = Delete) (regs l),
     add_acc acc (sum_acc ((fun e => match e.2 with Reg data _ => verdict_acc (class e.1) (Z.of_nat (length data)) | _ => mkAcc 0 0 0 0 end) <$> l))).
Proof.
  revert acc. unfold regs. induction l as [|[name x] l IH]; intros acc; [cbn; by rewrite add_acc_0|].
  rewrite list.filter_cons. cbn [scan fmap list_fmap snd fst is_reg]. destruct x as [data mt|es|]; cbn [is_reg].
  - rewrite decide_True by done. rewrite IH, classify_class, list.filter_cons. cbn [fst sum_acc foldr].
    rewrite add_acc_assoc. destruct (class name) eqn:Ec; cbn [fmap list_fmap fst];
      [rewrite decide_False by congruence|rewrite decide_False by congruence|rewrite decide_False by congruence|rewrite decide_True by done]; done.
  - rewrite decide_False by done. rewrite IH. cbn [sum_acc foldr]. by rewrite add_acc_0_l.
  - rewrite decide_False by done. rewrite IH. cbn [sum_acc foldr]. by rewrite add_acc_0_l.
Qed.

Definition size_of (n : node) : Z := match n with Reg data _ => Z.of_nat (length data) | _ => 0 end.

Lemma delete_entries_correct postfix path d l gone acc :
  NoDup (fst <$> d) -> NoDup (fst <$> l) -> (forall e, e ∈ l -> e ∈ d /\ is_reg e.2 = true /\ e.1 ∉ gone) ->
  exists gone', delete_entries path (fst <$> l) postfix d gone acc =
    (gone', add_acc acc (sum_acc ((fun e => mkAcc 0 0 0 (- if unlink_ok (subpath path e.1) then size_of e.2 else 0)) <$> l))) /\
    forall name, name ∈ gone' <-> name ∈ gone \/ (name ∈ fst <$> l /\ unlink_ok (subpath path name) = true).
Proof.
  intros Hd. revert gone acc. induction l as [|[name x] l IH]; intros gone acc Hnd Hl.
  { exists gone. split; [cbn; by rewrite add_acc_0|]. intros name. cbn. rewrite elem_of_nil. tauto. }
  cbn [fmap list_fmap fst] in Hnd |- *. apply NoDup_cons in Hnd as [Hname Hnd]. cbn [delete_entries]. rewrite Hdebug.
  destruct (Hl (name, x) ltac:(by left)) as (Hin & Hreg & Hg). cbn in Hreg, Hg.
  unfold unlink_entry at 1. rewrite bool_decide_false by done. rewrite (find_elem name x d Hd Hin).
  destruct x as [data mt|es|]; try done. cbn [snd fst size_of].
  destruct (unlink_ok (subpath path name)) eqn:Eu.
  - destruct (IH (name :: gone) (add_acc acc (mkAcc 0 0 0 (- Z.of_nat (length data)))) Hnd) as (gone' & -> & Hg').
    { intros [m y] Hm. destruct (Hl (m, y)) as (? & ? & ?); [by right|]. split_and!; [done..|]. cbn in *.
      rewrite not_elem_of_cons. split; [|done]. intros ->. apply Hname, list_elem_of_fmap. by exists (name, y). }
    exists gone'. split; [f_equal; cbn [sum_acc foldr]; by rewrite add_acc_assoc|].
    intros m. rewrite Hg', !elem_of_cons. clear -Eu. destruct (decide (m = name)) as [->|]; rewrite ?Eu; intuition congruence.
  - destruct (IH gone acc Hnd) as (gone' & -> & Hg').
    { intros e He. apply Hl. by right. }
    exists gone'. split; [cbn [sum_acc foldr]; by rewrite add_acc_0_l|].
    intros m. rewrite Hg', !elem_of_cons. clear -Eu. destruct (decide (m = name)) as [->|]; rewrite ?Eu; intuition congruence.
Qed.

(** Both together have the effect of the regular files of the directory. *)
Lemma regs_effect path (l : dir) :
  sum_acc (reg_effect path <$> l) =
  add_acc (sum_acc ((fun e => match e.2 with Reg data _ => verdict_acc (class e.1) (Z.of_nat (length data)) | _ => mkAcc 0 0 0 0 end) <$> l))
    (sum_acc ((fun e => mkAcc 0 0 0 (- if unlink_ok (subpath path e.1) then size_of e.2 else 0)) <$>
       filter (fun e => class e.1 = Delete) (regs l))).
Proof.
  unfold regs. induction l as [|[name x] l IH]; [done|]. rewrite list.filter_cons. cbn [snd fst].
  destruct x as [data mt|es|]; cbn [is_reg].
  - rewrite decide_True by done. rewrite list.filter_cons. cbn [fmap list_fmap sum_acc foldr]. unfold reg_effect at 1.
    cbn [is_reg snd fst size_of]. rewrite effect_Reg. fold (sum_acc (reg_effect path <$> l)). rewrite IH.
    destruct (decide (class name = Delete)) as [Hc|Hc].
    + cbn [fmap list_fmap sum_acc foldr size_of snd fst]. destruct (unlink_ok (subpath path name)).
      * rewrite decide_True by done. unfold sum_acc, add_acc; cbn; f_equal; lia.
      * rewrite decide_False by naive_solver. unfold sum_acc, add_acc; cbn; f_equal; lia.
    + rewrite decide_False by naive_solver. unfold sum_acc, add_acc; cbn; f_equal; lia.
  - rewrite decide_False by done. cbn [fmap list_fmap sum_acc foldr]. unfold reg_effect at 1. cbn [is_reg snd].
    fold (sum_acc (reg_effect path <$> l)). rewrite IH. by rewrite !add_acc_0_l.
  - rewrite decide_False by done. cbn [fmap list_fmap sum_acc foldr]. unfold reg_effect at 1. cbn [is_reg snd].
    fold (sum_acc (reg_effect path <$> l)). rewrite IH. by rewrite !add_acc_0_l.
Qed.

(** Collecting a subdirectory has the effect that is claimed of it. *)
Definition collects (path : cstr) (n : node) : Prop :=
  forall is_base acc, exists r, gc_blob_cache_dir referenced path is_base n acc = (r, add_acc acc (effect path (files n))) /\
    match r with Some n' => files n' | None => [] end = filter (fun f => ~ doomed path f) (files n) /\
    (is_base = true -> is_Some r).

Definition dir_effect (path : cstr) (e : cstr * node) : gc_acc :=
  if is_reg e.2 then mkAcc 0 0 0 0 else effect path (under e.1 (files e.2)).

Lemma visit_correct path gone (l : dir) acc :
  Forall (fun e => forall path, is_reg e.2 = false -> e.2 <> Special -> collects path e.2) l ->
  (forall e, e ∈ l -> is_reg e.2 = true -> e.1 ∈ gone <-> class e.1 = Delete /\ unlink_ok (subpath path e.1) = true) ->
  exists l', visit (fun name => gc_blob_cache_dir referenced (subpath path name) false) gone l acc =
    (l', add_acc acc (sum_acc (dir_effect path <$> l))) /\
    files (Dir l') = filter (fun f => ~ doomed path f) (files (Dir l)).
Proof.
  intros Hl. revert acc. induction Hl as [|[name x] l Hx Hl IH]; intros acc Hgone.
  { exists []. cbn. by rewrite add_acc_0. }
  assert (Hgone' : forall e, e ∈ l -> is_reg e.2 = true -> e.1 ∈ gone <-> class e.1 = Delete /\ unlink_ok (subpath path e.1) = true).
  { intros e He. apply Hgone. by right. }
  rewrite files_cons, list.filter_app.
  destruct x as [data mt|es|]; cbn [visit fmap list_fmap sum_acc foldr].
  - destruct (IH acc Hgone') as (l' & -> & Hf).
    pose proof (Hgone (name, Reg data mt) ltac:(by left) eq_refl) as Hg. cbn [fst] in Hg.
    assert (E : doomed path ([name], data) <-> name ∈ gone).
    { rewrite Hg. unfold doomed, subpath. cbn. by rewrite app_nil_r. }
    assert (Hone : filter (fun f => ~ doomed path f) (under name (files (Reg data mt))) =
                   if bool_decide (name ∈ gone) then [] else [([name], data)]).
    { unfold under. cbn [files fmap list_fmap prod_map id fst snd]. rewrite list.filter_cons, list.filter_nil.
      case_bool_decide; [by rewrite decide_False by tauto|by rewrite decide_True by tauto]. }
    eexists. split; [cbn [dir_effect is_reg snd]; by rewrite add_acc_0_l|].
    rewrite Hone, <- Hf. by case_bool_decide.
  - destruct (Hx (subpath path name) eq_refl ltac:(done) false acc) as (r & Hgc & Hr & _). cbn [snd] in Hgc, Hr. rewrite Hgc.
    destruct (IH (add_acc acc (effect (subpath path name) (files (Dir es)))) Hgone') as (l' & -> & Hf).
    eexists. split.
    { change (dir_effect path (name, Dir es)) with (effect path (under name (files (Dir es)))).
      rewrite effect_under, add_acc_assoc. reflexivity. }
    rewrite (filter_under (fun f => ~ doomed path f) (fun f => ~ doomed (subpath path name) f)).
    2:{ intros f Hf2%files_Dir_ne. by rewrite doomed_under. }
    rewrite <- Hr, <- Hf. destruct r; [by rewrite files_cons|done].
  - destruct (IH acc Hgone') as (l' & -> & Hf). eexists. split.
    { change (dir_effect path (name, Special)) with (mkAcc 0 0 0 0). rewrite add_acc_0_l. reflexivity. }
    change (under name (files Special)) with (@nil (list cstr * list Z)). rewrite list.filter_nil, <- Hf. by case_bool_decide.
Qed.

Lemma effect_split path l :
  effect path (files (Dir l)) = add_acc (sum_acc (reg_effect path <$> l)) (sum_acc (dir_effect path <$> l)).
Proof.
  induction l as [|[name x] l IH]; [done|]. rewrite files_cons, effect_app, IH.
  cbn [fmap list_fmap sum_acc foldr]. unfold reg_effect at 2, dir_effect at 2. cbn [snd fst].
  destruct (is_reg x); unfold sum_acc, add_acc; cbn; f_equal; lia.
Qed.

Lemma gc_blob_cache_dir_collects n : wf n -> match n with Dir _ => forall path, collects path n | _ => True end.
Proof.
  induction n as [data mt| |d IH] using node_ind'; [done|done|]. intros [Hnd Hwf]%wf_Dir path is_base acc.
  cbn [gc_blob_cache_dir]. rewrite scan_correct.
  destruct (delete_entries_correct kDebugPostfix path d (filter (fun e => class e.1 = Delete) (regs d)) []
    (add_acc acc (sum_acc ((fun e => match e.2 with Reg data _ => verdict_acc (class e.1) (Z.of_nat (length data)) | _ => mkAcc 0 0 0 0 end) <$> d))))
    as (gone & -> & Hgone); [done| |..].
  { eapply sublist_NoDup; [exact Hnd|]. apply fmap_sublist. unfold regs.
    etrans; [apply sublist_filter|apply sublist_filter]. }
  { intros e [_ He]%list_elem_of_filter. apply list_elem_of_filter in He as [Hr He]. split_and!; [done..|]. apply not_elem_of_nil. }
  destruct (visit_correct path gone d
    (add_acc (add_acc acc (sum_acc ((fun e => match e.2 with Reg data _ => verdict_acc (class e.1) (Z.of_nat (length data)) | _ => mkAcc 0 0 0 0 end) <$> d)))
       (sum_acc ((fun e => mkAcc 0 0 0 (- if unlink_ok (subpath path e.1) then size_of e.2 else 0)) <$>
       filter (fun e => class e.1 = Delete) (regs d))))) as (d' & -> & Hf).
  { apply Forall_forall. intros [name x] He p Hr Hs. rewrite Forall_forall in IH, Hwf.
    pose proof (IH _ He (Hwf _ He)) as Hi. cbn in *. by destruct x. }
  { intros [name x] He Hr. rewrite Hgone. cbn [fst] in *. rewrite elem_of_nil, list_elem_of_fmap. split.
    - intros [[]|[([m y] & -> & [Hc _]%list_elem_of_filter) Hu]]. done.
    - intros [Hc Hu]. right. split; [|done]. exists (name, x). split; [done|]. apply list_elem_of_filter. split; [done|].
      by apply list_elem_of_filter. }
  exists (match d' with [] => if is_base then Some (Dir []) else None | _ => Some (Dir d') end).
  split; [f_equal; rewrite effect_split, regs_effect, <- !add_acc_assoc; done|].
  split; [|intros ->; by destruct d'].
  rewrite <- Hf. destruct d'; [by destruct is_base|done].
Qed.

Lemma sizes_filter_not (P : list cstr * list Z -> Prop) `{forall f, Decision (P f)} fs :
  sizes (filter (fun f => ~ P f) fs) = sizes fs - sizes (filter P fs).
Proof.
  induction fs as [|f fs IH]; [done|]. rewrite !list.filter_cons.
  destruct (decide (P f)), (decide (~ P f)); try tauto; cbn [sizes]; lia.
Qed.

(** C32. Garbage collection of the blobs deletes exactly the files named like a blob that is not
    referenced and stale debugging files (as far as they can be deleted), and keeps every other
    file with its contents; it reports the bytes of the kept blobs and of the files with
    unexpected names, and its adjustment of the number of cached bytes is the change of the
    total size of the files. *)
Theorem blob_gc_correct base_dir d acc :
  wf (Dir d) ->
  exists n' acc', gc referenced base_dir (Dir d) acc = (n', acc') /\
    files n' = filter (fun f => ~ doomed base_dir f) (files (Dir d)) /\
    run_bytes acc' - run_bytes acc = recursive_total_file_size n' - recursive_total_file_size (Dir d) /\
    cache_bytes acc' - cache_bytes acc = sizes (filter (of_class KeepBlob) (files (Dir d))) /\
    unexpected_file_bytes acc' - unexpected_file_bytes acc = sizes (filter (of_class KeepUnexpected) (files (Dir d))).
Proof.
  intros Hwf. unfold gc.
  destruct (gc_blob_cache_dir_collects (Dir d) Hwf base_dir true acc) as (r & -> & Hf & Hs).
  destruct (Hs eq_refl) as [n' ->]. exists n'. eexists. split; [done|]. split; [done|].
  rewrite !total_files, Hf, sizes_filter_not. unfold add_acc, effect. cbn [run_bytes cache_bytes unexpected_file_bytes]. lia.
Qed.
End GcCorrect.
End Collect.

(** ** What the blob cache promises *)

Context `{!XXHashOk} `{!CacheConfigOk}.

(** The contents behind the stored data. *)
Definition unpack (data : list Z) : option (list Z) :=
  if compress_cache then zstd_decompress data else Some data.

Lemma pack_unpack contents data : pack contents = Some data -> unpack data = Some contents.
Proof. unfold pack, unpack. destruct compress_cache; [apply zstd_roundtrip|congruence]. Qed.

(** The shape of the path of a blob. *)
Record path_of (key : Hash.t) (a b name : cstr) : Prop := {
  po_name : Hash.to_ascii XXH128_canonicalFromHash key = Some (name ++ [NUL]);
  po_length : length name = 22%nat;
  po_a : length a = 1%nat;
  po_path : construct_cached_file_name key = Ret ([a; b], name)
}.

Lemma path_of_exists key : exists a b name, path_of key a b name.
Proof.
  pose proof (Hash.to_ascii_digits _ canonical_bytes key) as E.
  set (name := Base64.enc <$> _) in E. assert (Hl : length name = 22%nat) by (unfold name; by rewrite length_fmap).
  exists [char_at name 0], [char_at name 0; char_at name 1], name. split; [done..|].
  unfold construct_cached_file_name. rewrite E. by rewrite take_app_length' by done.
Qed.

Lemma path_of_inj key key' a b name a' b' :
  Hash.wf key -> Hash.wf key' -> path_of key a b name -> path_of key' a' b' name -> key = key'.
Proof.
  intros W W' P P'. apply (Hash.to_ascii_inj XXH128_canonicalFromHash); [apply canonical_length|apply canonical_bytes|apply canonical_inj|done..|].
  by rewrite (po_name _ _ _ _ P), (po_name _ _ _ _ P').
Qed.

(** The invariant: where the directories of a blob would be there are directories or nothing,
    and what is stored under the name of a key are contents with that hash. *)
Record inv (n : node) : Prop := {
  inv_wf : wf n;
  inv_root : see [] n = SDir;
  inv_dirs key a b name : path_of key a b name ->
    (see [a] n = SNone \/ see [a] n = SDir) /\ (see [a; b] n = SNone \/ see [a; b] n = SDir);
  inv_blobs key a b name : path_of key a b name -> Hash.wf key ->
    see [a; b; name] n = SNone \/
    exists data mtime contents, see [a; b; name] n = SReg data mtime /\ unpack data = Some contents /\
      XXH3_128bits contents = key
}.

Lemma no_children_Dir y q : see (y :: q) (Dir []) = SNone.
Proof. done. Qed.
Lemma no_children_Reg data mt y q : see (y :: q) (Reg data mt) = SNone.
Proof. done. Qed.

Lemma wf_empty : wf (Dir []).
Proof. split; [apply NoDup_nil_2|done]. Qed.

Lemma wf_add where_ c x n : wf x -> wf n -> wf (modify where_ (add_new c x) n).
Proof. intros Hx. apply wf_modify. intros d. by apply wf_add_new. Qed.

(** Creating a directory on the way to a blob. *)
Lemma inv_mkdir key a b name n :
  inv n -> path_of key a b name ->
  inv (create_dirs [] [a; b] n) /\ see [a; b] (create_dirs [] [a; b] n) = SDir /\
  recursive_total_file_size (create_dirs [] [a; b] n) = recursive_total_file_size n /\
  (forall x y z, see [x; y; z] (create_dirs [] [a; b] n) = see [x; y; z] n).
Proof.
  intros Hi P. cbn [create_dirs app]. unfold mkdir. set (n1 := modify [] (add_new a (Dir [])) n).
  destruct (inv_dirs _ Hi _ _ _ _ P) as [Ha Hb].
  assert (Hs1 : forall p, see p n1 = if decide (p = [a] /\ see [a] n = SNone) then SDir else see p n).
  { intros p. unfold n1. rewrite see_add by apply no_children_Dir. rewrite (inv_root _ Hi). cbn [app].
    apply decide_ext. naive_solver. }
  assert (Ha1 : see [a] n1 = SDir) by (rewrite Hs1; decide_goal; [done|naive_solver]).
  set (n2 := modify [a] (add_new b (Dir [])) n1).
  assert (Hs2 : forall p, see p n2 = if decide ((p = [a] /\ see [a] n = SNone) \/ (p = [a; b] /\ see [a; b] n = SNone)) then SDir else see p n).
  { intros p. unfold n2. rewrite see_add by apply no_children_Dir. rewrite Ha1. cbn [app].
    rewrite (Hs1 p). destruct (decide (p = [a; b] /\ _)) as [(-> & _ & Hn)|Hn].
    - rewrite decide_True; [done|]. right. split; [done|]. rewrite decide_False in Hn by naive_solver. done.
    - destruct (decide (p = [a] /\ _)) as [?|Hna]; [by rewrite decide_True by naive_solver|].
      rewrite decide_False; [done|]. naive_solver. }
  assert (Hn1 : recursive_total_file_size n1 = recursive_total_file_size n).
  { unfold n1. rewrite total_add by apply Hi. cbn. decide_goal; lia. }
  split_and!; [split|..].
  - apply wf_add; [apply wf_empty|]. apply wf_add; [apply wf_empty|]. apply Hi.
  - rewrite Hs2. rewrite decide_False by naive_solver. apply Hi.
  - intros key' a' b' name' P'. rewrite !Hs2. destruct (inv_dirs _ Hi _ _ _ _ P').
    split; decide_goal; auto.
  - intros key' a' b' name' P' W'. rewrite Hs2. rewrite decide_False by naive_solver. by apply (inv_blobs _ Hi) with (1 := P').
  - rewrite Hs2. decide_goal; [done|]. naive_solver.
  - unfold n2. rewrite total_add; [rewrite Hn1; cbn; decide_goal; lia| |done].
    apply wf_add; [apply wf_empty|]. apply Hi.
  - intros x y z. rewrite Hs2. by rewrite decide_False by naive_solver.
Qed.

(** Storing contents under their hash. *)
Lemma inv_add_blob key a b name contents data mt n :
  inv n -> path_of key a b name -> Hash.wf key -> see [a; b] n = SDir -> see [a; b; name] n = SNone ->
  unpack data = Some contents -> XXH3_128bits contents = key ->
  inv (modify [a; b] (add_new name (Reg data mt)) n) /\
  see [a; b; name] (modify [a; b] (add_new name (Reg data mt)) n) = SReg data mt.
Proof.
  intros Hi P W Hd Hn Hu Hk.
  assert (Hs1 : forall p, see p (modify [a; b] (add_new name (Reg data mt)) n) =
                         if decide (p = [a; b; name]) then SReg data mt else see p n).
  { intros p. rewrite see_add by apply no_children_Reg. cbn [app]. rewrite Hd.
    destruct (decide (p = [a; b; name])) as [->|Hne]; [by rewrite decide_True|by rewrite decide_False by naive_solver]. }
  split; [split|].
  - apply wf_add; [done|apply Hi].
  - rewrite Hs1. rewrite decide_False by done. apply Hi.
  - intros key' a' b' name' P'. rewrite !Hs1. rewrite !decide_False by done. by apply (inv_dirs _ Hi) with (1 := P').
  - intros key' a' b' name' P' W'. rewrite Hs1. destruct (decide ([a'; b'; name'] = [a; b; name])) as [He|He]; [|by apply (inv_blobs _ Hi) with (1 := P')].
    injection He as -> -> ->. right. exists data, mt, contents. split; [done|]. split; [done|].
    rewrite Hk. by apply (path_of_inj key key' a b name a b).
  - rewrite Hs1. by rewrite decide_True.
Qed.

(** The tree has the blob of [key]: contents with that hash. *)
Definition has_blob (key : Hash.t) (n : node) : Prop :=
  exists a b name data mtime contents, path_of key a b name /\ see [a; b; name] n = SReg data mtime /\
    unpack data = Some contents /\ XXH3_128bits contents = key.

(** Nothing that is stored is changed. *)
Definition keeps (n n' : node) : Prop :=
  forall path data mtime, see path n = SReg data mtime -> see path n' = SReg data mtime.

Lemma find_see dirs name n d : lookup dirs n = Some (Dir d) ->
  see (dirs ++ [name]) n = match find name d with Some m => kind m | None => SNone end.
Proof.
  revert n. induction dirs as [|c dirs IH]; intros n; cbn [lookup app].
  - intros [= ->]. rewrite see_cons. by destruct (find name d).
  - rewrite see_cons. destruct n as [|es|]; [done| |done]. destruct (find c es); [|done]. apply IH.
Qed.

Lemma kind_SNone n : kind n <> SNone.
Proof. by destruct n. Qed.

Lemma keeps_add where_ c x n :
  (forall y q, see (y :: q) x = SNone) -> keeps n (modify where_ (add_new c x) n).
Proof.
  intros Hx path data mt Hs. rewrite see_add by done. rewrite decide_False; [done|]. rewrite Hs. naive_solver.
Qed.

Lemma publish_correct E key contents data s :
  debug_cache = false -> inv (root s) -> pack contents = Some data -> XXH3_128bits contents = key ->
  exists s', publish E key data s = Ret s' /\ inv (root s') /\ has_blob key (root s') /\
    keeps (root s) (root s') /\
    cached_bytes s' - cached_bytes s = recursive_total_file_size (root s') - recursive_total_file_size (root s).
Proof.
  intros Hdbg Hi Hp Hk. assert (W : Hash.wf key) by (rewrite <- Hk; apply XXH3_wf).
  destruct (path_of_exists key) as (a & b & name & P). unfold publish. unfold mbind at 1, outcome_bind at 1.
  rewrite (po_path _ _ _ _ P). destruct (inv_mkdir key a b name _ Hi P) as (Hi' & Hd & Htot & Hsame).
  set (n := create_dirs [] [a; b] (root s)) in *.
  assert (Hkeep : keeps (root s) n).
  { intros path dt mt Hs. subst n. cbn [create_dirs app]. unfold mkdir.
    apply keeps_add; [apply no_children_Dir|]. by apply keeps_add; [apply no_children_Dir|]. }
  unfold fb_renameat2. apply see_SDir in Hd as Hd'. destruct Hd' as [d Hd']. rewrite Hd'.
  pose proof (find_see [a; b] name n d Hd') as Hf. cbn [app] in Hf.
  destruct (find name d) as [m|] eqn:Ef.
  - rewrite Z.eqb_refl. unfold mbind, outcome_bind. rewrite Hdbg. eexists. split; [done|].
    cbn [root cached_bytes]. split; [done|]. split; [|split; [done|lia]].
    destruct (inv_blobs _ Hi' key a b name P W) as [Hno|(data' & mt & c & Hs & Hu & Hc)].
    + rewrite Hf in Hno. by destruct (kind_SNone m).
    + by exists a, b, name, data', mt, c.
  - destruct (inv_add_blob key a b name contents data (se_now E) n Hi' P W Hd Hf) as [Hi2 Hs2];
      [by apply pack_unpack|done|].
    unfold mbind, outcome_bind. rewrite Hdbg. eexists. split; [done|]. cbn [root cached_bytes]. split; [done|]. split; [|split].
    + exists a, b, name, data, (se_now E), contents. split_and!; [done|done|by apply pack_unpack|done].
    + intros path dt mt Hs. apply keeps_add; [apply no_children_Reg|]. by apply Hkeep.
    + rewrite total_add; [|apply Hi'|done]. cbn [app]. rewrite Hf, decide_True by done.
      cbn [recursive_total_file_size]. lia.
Qed.

(** Copies and hashes are what the system is documented to give. *)
Record store_env_ok (E : store_env) : Prop := {
  ok_mkstemp : se_mkstemp_ok E = true;
  ok_copy src : range_ok (se_copy E) src;
  ok_file data : Hashing.has_contents (se_file E data) data
}.

(** What storing [contents] under [key] has done. *)
Definition stored (contents : list Z) (key : Hash.t) (s s' : t) : Prop :=
  key = XXH3_128bits contents /\ inv (root s') /\ has_blob key (root s') /\ keeps (root s) (root s') /\
  cached_bytes s' - cached_bytes s = recursive_total_file_size (root s') - recursive_total_file_size (root s).

Lemma hash_tmp_file E contents size :
  store_env_ok E -> size = Z.of_nat (length contents) ->
  exists r, Hashing.set_from_fd (se_file E contents) (Some (Build_stat_t 32768 size)) None = Ret r /\
    forall h d n, r = Some (h, d, n) -> h = XXH3_128bits contents.
Proof.
  intros HE ->. destruct (Hashing.set_from_fd_regular (se_file E contents) contents
    (Build_stat_t 32768 (Z.of_nat (length contents))) (ok_file _ HE _)) as (r & Hr & Hs & _); [done|cbn; lia|].
  exists r. split; [done|]. intros h d n Hh. destruct (Hs _ _ _ Hh) as (-> & _). cbn.
  by rewrite Nat2Z.id, take_ge by lia.
Qed.

Lemma store_file_correct E writers max_writers src skip s :
  store_env_ok E -> debug_cache = false -> inv (root s) -> 0 <= skip ->
  exists r s', store_file E writers max_writers (Some src) skip (Z.of_nat (length src)) s = Ret (r, s') /\
    match r with
    | Some key => stored (drop (Z.to_nat skip) src) key s s' /\ writers <= max_writers
    | None => s' = s
    end.
Proof.
  intros HE Hd Hi Hs. unfold store_file. destruct (Z.ltb_spec max_writers writers); [by exists None, s|].
  rewrite (ok_mkstemp _ HE). cbn [assert]. unfold mbind, outcome_bind.
  destruct (copy_file_correct (se_copy E) src skip [] false (Build_stat_t 32768 (Z.of_nat (length src))))
    as (ok & dst & Hc & Hok); [apply HE|done..|]. rewrite Hc.
  destruct ok; cbn [negb]; [|by exists None, s]. rewrite (Hok eq_refl). cbn [app].
  set (contents := drop (Z.to_nat skip) src). set (sz := if _ <=? _ then _ else _).
  destruct (hash_tmp_file E contents sz HE) as (r & Hr & Hh).
  { subst sz contents. rewrite length_drop. destruct (Z.leb_spec skip (Z.of_nat (length src))); lia. }
  rewrite Hr. destruct r as [[[key dd] n]|]; [|by exists None, s]. rewrite (Hh _ _ _ eq_refl).
  destruct (pack contents) as [data|] eqn:Ep; [|by exists None, s].
  destruct (publish_correct E (XXH3_128bits contents) contents data s Hd Hi Ep eq_refl) as (s' & Hp & Hrest).
  rewrite Hp. exists (Some (XXH3_128bits contents)), s'. split; [done|]. split; [|done]. by split.
Qed.

Lemma move_store_file_correct E contents s :
  store_env_ok E -> debug_cache = false -> inv (root s) -> contents <> [] ->
  (forall data, pack contents = Some data -> data <> []) ->
  exists r s', move_store_file E contents (Z.of_nat (length contents)) s = Ret (r, s') /\
    match r with Some key => stored contents key s s' | None => s' = s end.
Proof.
  intros HE Hd Hi Hne Hz. unfold move_store_file.
  rewrite (proj2 (Z.ltb_lt 0 _)) by (destruct contents; [done|cbn; lia]). cbn [assert]. unfold mbind, outcome_bind.
  destruct (hash_tmp_file E contents _ HE eq_refl) as (r & Hr & Hh). rewrite Hr.
  destruct r as [[[key dd] n]|]; [|by exists None, s]. rewrite (Hh _ _ _ eq_refl).
  rewrite (ok_mkstemp _ HE), orb_true_r. cbn [assert].
  destruct (pack contents) as [data|] eqn:Ep; [|by exists None, s].
  rewrite (proj2 (Z.ltb_lt 0 (Z.of_nat (length data)))), orb_true_r
    by (specialize (Hz _ eq_refl); destruct data; [done|cbn; lia]). cbn [assert].
  destruct (publish_correct E (XXH3_128bits contents) contents data s Hd Hi Ep eq_refl) as (s' & Hp & Hrest).
  rewrite Hp. exists (Some (XXH3_128bits contents)), s'. split; [done|]. by split.
Qed.

(** A stored blob is found, and retrieving it to a file gives contents with its hash; without
    compression it can also be appended. *)
Lemma retrieve_correct CE key s :
  (forall src, range_ok CE src) -> copy_reliable CE -> has_blob key (root s) ->
  exists blob contents, get_fd_for_file key s = Ret (Some blob) /\ XXH3_128bits contents = key /\
    retrieve_file CE blob (Some []) false compress_cache = Ret (Some contents) /\
    (compress_cache = false -> forall old, retrieve_file CE blob (Some old) true false = Ret (Some (old ++ contents))).
Proof.
  intros Hr Hrel (a & b & name & data & mt & contents & P & Hs & Hu & Hk). exists data, contents. split.
  { unfold get_fd_for_file, mbind, outcome_bind. rewrite (po_path _ _ _ _ P). cbn [app].
    unfold see in Hs. destruct (lookup [a; b; name] (root s)) as [[dt m| |]|]; try done. by injection Hs as -> _. }
  split; [done|]. unfold unpack in Hu.
  assert (Hcopy : forall dst app, (app = false -> dst = []) -> compress_cache = false ->
    retrieve_file CE data (Some dst) app false = Ret (Some (dst ++ contents))).
  { intros dst app Hd Hcc. rewrite Hcc in Hu. injection Hu as ->. unfold retrieve_file, mbind, outcome_bind.
    set (st := Build_stat_t _ _).
    destruct (copy_file_correct CE contents 0 dst app st) as (ok & dst' & Hc & Hok); [done..|].
    destruct (copy_file_reliable CE contents 0 dst app st) as [dst2 Hc2]; [done..|].
    rewrite Hc in Hc2. injection Hc2 as -> <-. rewrite Hc. by rewrite (Hok eq_refl). }
  split; [|intros Hcc old; by apply Hcopy].
  destruct compress_cache eqn:Ecc; [|by apply Hcopy]. unfold retrieve_file. rewrite Hu.
  unfold pwrite. cbn. by rewrite drop_nil, app_nil_r.
Qed.

(** C34. What is stored in the blob cache can be retrieved.  In a cache that is in order ([inv]:
    each blob that is there has been stored with the current setting of compress_cache, and has the
    hash it is named by), storing a file either reports a failure and changes nothing, or returns the
    hash of the file's contents (behind the skipped bytes); then the blob of this key is found,
    retrieving it to a file that was created or truncated gives contents with this hash, without
    compression it can also be appended to a file, every file stored before is unchanged, the cache
    stays in order, and the number of cached bytes has changed by as much as the total size of the
    files.  Neither assumption can be left out: [compression_switch_breaks_blob] is a cache in which
    compression was enabled after a blob was stored, and [append_compressed_overwrites] appends with
    compression. *)
Theorem blob_roundtrip E CE writers max_writers src skip s :
  store_env_ok E -> (forall data, range_ok CE data) -> copy_reliable CE -> debug_cache = false ->
  inv (root s) -> 0 <= skip ->
  exists r s', store_file E writers max_writers (Some src) skip (Z.of_nat (length src)) s = Ret (r, s') /\
    match r with
    | None => s' = s
    | Some key =>
        key = XXH3_128bits (drop (Z.to_nat skip) src) /\ inv (root s') /\ keeps (root s) (root s') /\
        cached_bytes s' - cached_bytes s = recursive_total_file_size (root s') - recursive_total_file_size (root s) /\
        exists blob contents, get_fd_for_file key s' = Ret (Some blob) /\ XXH3_128bits contents = key /\
          retrieve_file CE blob (Some []) false compress_cache = Ret (Some contents) /\
          (compress_cache = false -> forall old, retrieve_file CE blob (Some old) true false = Ret (Some (old ++ contents)))
    end.
Proof.
  intros HE Hr Hrel Hd Hi Hs.
  destruct (store_file_correct E writers max_writers src skip s HE Hd Hi Hs) as (r & s' & Hst & Hres).
  exists r, s'. split; [done|]. destruct r as [key|]; [|done].
  destruct Hres as [(Hk & Hi' & Hb & Hkeep & Hacc) _]. split_and!; [done..|].
  destruct (retrieve_correct CE key s' Hr Hrel Hb) as (blob & contents & Hg & Hc & Hret & Happ). by exists blob, contents.
Qed.

End BlobCache.

(** ** Examples *)

#[local] Existing Instances Hashing.demo_xxhash Hashing.demo_xxhash_ok.

(** Settings without and with compression; the toy compression only adds a header. *)
Definition zstd_magic : list Z := [40; 181; 47; 253].
Definition toy_decompress (z : list Z) : option (list Z) :=
  if bool_decide (take 4 z = zstd_magic) then Some (drop 4 z) else None.
Definition demo_config (compress : bool) : CacheConfig :=
  {| compress_cache := compress; debug_cache := false; max_entry_size := 1000; max_cache_size := 10000;
     shortcut_tries := 20; zstd_compress data := Some (zstd_magic ++ data); zstd_decompress := toy_decompress |}.

Lemma demo_config_ok c : @CacheConfigOk (demo_config c).
Proof. split. intros data z [= <-]. change (toy_decompress (zstd_magic ++ data) = Some data). unfold toy_decompress. by rewrite bool_decide_true. Qed.

Definition demo_store_env : store_env :=
  mkStoreEnv demo_copy_env true Hashing.unmapped_file (0, 0) [].

Lemma demo_store_env_ok : store_env_ok demo_store_env.
Proof. split; [done|apply demo_range_ok|intros data; apply Hashing.unmapped_file_reliable]. Qed.

Lemma demo_copy_reliable : copy_reliable demo_copy_env.
Proof. split_and!; [done|done|by right]. Qed.

Lemma empty_inv `{XXHash} `{CacheConfig} : inv (Dir []).
Proof. split; [apply wf_empty|done|by split; left|by left]. Qed.

Lemma blob_roundtrip_witness :
  exists s', @store_file Hashing.demo_xxhash (demo_config false) demo_store_env 0 0 (Some [1; 2; 3]) 1 3 (mk (Dir []) 0)
      = Ret (Some (XXH3_128bits [2; 3]), s') /\ cached_bytes s' - 0 = recursive_total_file_size (root s') - 0.
Proof.
  destruct (@blob_roundtrip Hashing.demo_xxhash (demo_config false) _ (demo_config_ok false) demo_store_env demo_copy_env 0 0 [1; 2; 3] 1 (mk (Dir []) 0)
              demo_store_env_ok demo_range_ok demo_copy_reliable eq_refl empty_inv ltac:(lia))
    as (r & s' & Hs & Hr).
  exists s'. vm_compute in Hs. injection Hs as <- <-. split; [vm_compute; reflexivity|]. apply Hr.
Defined.

Lemma blob_gc_correct_witness :
  exists n' acc', @gc (demo_config false) (fun _ => true) [] (cs "/b") (Dir [(cs "x", Reg [7] (0, 0))]) (mkAcc 0 0 0 0) = (n', acc') /\
    files n' = [([cs "x"], [7])].
Proof.
  destruct (@blob_gc_correct (demo_config false) (fun _ => true) eq_refl [] (cs "/b")
              [(cs "x", Reg [7] (0, 0))] (mkAcc 0 0 0 0)) as (n' & acc' & Hg & Hf & _).
  { apply wf_Dir. split; [apply NoDup_singleton|by constructor]. }
  exists n', acc'. split; [exact Hg|]. rewrite Hf. vm_compute. reflexivity.
Defined.

(** A blob that was stored without compression is not stored again when compression is enabled
    later, but is then decompressed when it is retrieved, which fails an assertion. *)
Theorem compression_switch_breaks_blob :
  exists s1 s2 key,
    @store_file Hashing.demo_xxhash (demo_config false) demo_store_env 0 0 (Some [1; 2; 3]) 0 3 (mk (Dir []) 0) = Ret (Some key, s1) /\
    @store_file Hashing.demo_xxhash (demo_config true) demo_store_env 0 0 (Some [1; 2; 3]) 0 3 s1 = Ret (Some key, s2) /\
    exists blob, get_fd_for_file key s2 = Ret (Some blob) /\
      @retrieve_file (demo_config true) demo_copy_env blob (Some []) false true = Abort.
Proof. do 3 eexists. split; [vm_compute; reflexivity|]. split; [vm_compute; reflexivity|]. eexists. split; vm_compute; reflexivity. Qed.

(** Appending a compressed blob overwrites the beginning of the file instead. *)
Theorem append_compressed_overwrites :
  @retrieve_file (demo_config true) demo_copy_env (zstd_magic ++ [7; 8]) (Some [1; 2; 3]) true true = Ret (Some [7; 8; 3]).
Proof. vm_compute. reflexivity. Qed.

End BlobCache.
