(* ===== verification/ObjCache.v ===== *)
(** The object cache (src/firebuild/obj_cache.{h,cc}): serialized entries by fingerprint and
    subkey, the order in which they are tried, and their garbage collection. *)

From stdpp Require Import base list strings option gmap sorting.
From Stdlib Require Import ZArith Lia Ascii.
From S2P Require Import Prelude Base64 Paths Hashing Storage.

Local Open Scope Z_scope.

Module ObjCache.
Import CacheDir.

Definition kDebugPostfix : cstr := cs "_debug.json".
Definition kDirDebugJson : cstr := cs "%_directory_debug.json".
Definition kMagicHeader : list Z := [70; 66; 66; 0; 0; 0; 0; 0].
Definition kMagicHeaderSize : nat := 8.
Definition kZstdMagicHeader : list Z := [40; 181; 47; 253].

(** How the system answers while an entry is stored: [mkstemp()] with the name it chose, and
    the clock; and what is written for debugging. *)
Record store_env := mkStoreEnv {
  oe_mkstemp : option cstr;
  oe_now : Z * Z;
  oe_debug_key : option (list Z);
  oe_debug_txt : list Z
}.

Section ObjCache.
Context `{XXHash} `{CacheConfig}.

(** FB_DEBUGGING(FB_DEBUG_DETERMINISTIC_CACHE). *)
Context (deterministic : bool).

(** [construct_cached_dir_name()]: the directories, the last one named by the whole key. *)
Definition construct_cached_dir_name (key : Hash.t) : outcome (list cstr) :=
  match Hash.to_ascii XXH128_canonicalFromHash key with
  | None => Abort
  | Some buf =>
      let ascii := take Hash.kAsciiLength buf in
      Ret [[char_at ascii 0]; [char_at ascii 0; char_at ascii 1]; ascii]
  end.

(** The subkey of a new entry, without the terminating NUL. *)
Definition new_subkey (now : Z * Z) (entry_serial : list Z) : outcome cstr :=
  match (if deterministic
         then Subkey.of_digest (take 8 (XXH128_canonicalFromHash (XXH3_128bits entry_serial)))
         else Subkey.of_key ((Z.shiftl (now.1) 30 + now.2) mod 2 ^ 64)) with
  | None => Abort
  | Some str => Ret (take Subkey.kAsciiLength str)
  end.

(** [fopen(path, "wx")] and writing: only when the file does not exist yet.  The state is the
    tree and the number of cached bytes. *)
Definition write_new (dirs : list cstr) (name : cstr) (txt : list Z) (now : Z * Z) (s : BlobCache.t) : BlobCache.t :=
  match see (dirs ++ [name]) (BlobCache.root s) with
  | SNone => BlobCache.mk (modify dirs (add_new name (Reg txt now)) (BlobCache.root s))
                          (BlobCache.cached_bytes s + Z.of_nat (length txt))
  | _ => s
  end.

(** [store(key, entry, stored_blob_bytes, debug_key)] of an entry that serializes to [entry]. *)
Definition store (E : store_env) (key : Hash.t) (entry : list Z) (stored_blob_bytes : Z) (s : BlobCache.t)
    : outcome (bool * BlobCache.t) :=
  dirs ← construct_cached_dir_name key;
  let s := match oe_debug_key E with
           | Some txt =>
               if debug_cache then
                 write_new dirs kDirDebugJson txt (oe_now E)
                   (BlobCache.mk (BlobCache.create_dirs [] dirs (BlobCache.root s)) (BlobCache.cached_bytes s))
               else s
           | None => s
           end in
  match oe_mkstemp E with
  | None => Abort
  | Some tmpfile =>
      let len := Z.of_nat (length entry) in
      let leave_tmpfile := BlobCache.mk (modify [] (add_new tmpfile (Reg [] (oe_now E))) (BlobCache.root s))
                                        (BlobCache.cached_bytes s) in
      if max_entry_size <? stored_blob_bytes + len then Ret (false, leave_tmpfile)
      else
        let entry_serial := kMagicHeader ++ entry in
        match (if compress_cache then zstd_compress entry_serial else Some entry_serial) with
        | None => Ret (false, leave_tmpfile)
        | Some data =>
            subkey ← new_subkey (oe_now E) entry_serial;
            let n := BlobCache.create_dirs [] dirs (BlobCache.root s) in
            match BlobCache.fb_renameat2 (Reg data (oe_now E)) dirs subkey n with
            | inl errno =>
                if errno =? EEXIST then Ret (true, BlobCache.mk n (BlobCache.cached_bytes s)) else Abort
            | inr n =>
                let s := BlobCache.mk n (BlobCache.cached_bytes s + Z.of_nat (length data)) in
                Ret (true, if debug_cache
                           then write_new dirs (subkey ++ kDebugPostfix) (oe_debug_txt E) (oe_now E) s
                           else s)
            end
        end
  end.

(** [retrieve(path)] of what is found at the path: the entry, and the size of the file if it
    is compressed.  For compressed data that is shorter than the header when decompressed, which
    store() never writes, the source computes a length that wraps around; the entry is empty here. *)
Definition retrieve_node (n : option node) : outcome (option (list Z * option Z)) :=
  match n with
  | Some (Reg data _) =>
      if (length data <=? kMagicHeaderSize)%nat then Ret None
      else if bool_decide (take 4 data = take 4 kMagicHeader)
      then Ret (Some (drop kMagicHeaderSize data, None))
      else if bool_decide (take 4 data = kZstdMagicHeader)
      then Ret (decompressed ← zstd_decompress data;
                Some (drop kMagicHeaderSize decompressed, Some (Z.of_nat (length data))))
      else Ret None
  | _ => Abort
  end.

(** [retrieve(key, subkey)]. *)
Definition retrieve (key : Hash.t) (subkey : cstr) (s : BlobCache.t) : outcome (option (list Z * option Z)) :=
  dirs ← construct_cached_dir_name key;
  retrieve_node (lookup (dirs ++ [subkey]) (BlobCache.root s)).

(** [mark_as_used(key, subkey)]: touch the file. *)
Definition mark_as_used (key : Hash.t) (subkey : cstr) (now : Z * Z) (s : BlobCache.t) : outcome BlobCache.t :=
  dirs ← construct_cached_dir_name key;
  Ret (BlobCache.mk
    (modify dirs (fmap (fun e => if bool_decide (e.1 = subkey)
                                 then (e.1, match e.2 with Reg data _ => Reg data now | n => n end) else e))
       (BlobCache.root s)) (BlobCache.cached_bytes s)).

(** The newest first: by name, or by modification time when the names are not times. *)
Definition subkey_ge (a b : cstr) : Prop := str_le (take Subkey.kAsciiLength b) (take Subkey.kAsciiLength a).
#[global] Instance subkey_ge_dec : RelDecision subkey_ge.
Proof. intros a b. unfold subkey_ge. apply _. Defined.

Definition mtime_of (n : node) : Z * Z := match n with Reg _ mtime => mtime | _ => (0, 0) end.
Definition ts_le (a b : Z * Z) : Prop := a.1 < b.1 \/ (a.1 = b.1 /\ a.2 <= b.2).
#[global] Instance ts_le_dec : RelDecision ts_le.
Proof. intros a b. unfold ts_le. apply _. Defined.
Definition newer (a b : cstr * node) : Prop := ts_le (mtime_of b.2) (mtime_of a.2).
#[global] Instance newer_dec : RelDecision newer.
Proof. intros a b. unfold newer. apply _. Defined.

(** [list_subkeys_internal(path)] of the entries of the directory. *)
Definition list_subkeys_internal (d : dir) : list cstr :=
  let valid := filter (fun e => Subkey.valid e.1 = true) d in
  if debug_cache then fst <$> merge_sort newer valid else merge_sort subkey_ge (fst <$> valid).

Definition list_subkeys (key : Hash.t) (s : BlobCache.t) : outcome (list cstr) :=
  dirs ← construct_cached_dir_name key;
  Ret (match lookup dirs (BlobCache.root s) with Some (Dir d) => list_subkeys_internal d | _ => [] end).

(** [gc_collect_obj_timestamp_sizes_internal()] and the sorting of its result: path, time and
    size of the entries, the newest first. *)
Fixpoint gc_collect_obj_timestamp_sizes_internal (path : cstr) (n : node) : list (cstr * (Z * Z) * Z) :=
  match n with
  | Dir d =>
      concat ((fun e => match e.2 with
                        | Dir _ => gc_collect_obj_timestamp_sizes_internal (BlobCache.subpath path e.1) e.2
                        | Reg data mtime =>
                            if Subkey.valid e.1
                            then [(BlobCache.subpath path e.1, mtime, Z.of_nat (length data))] else []
                        | Special => []
                        end) <$> d)
  | _ => []
  end.

Definition newer_obj (a b : cstr * (Z * Z) * Z) : Prop := ts_le b.1.2 a.1.2.
#[global] Instance newer_obj_dec : RelDecision newer_obj.
Proof. intros a b. unfold newer_obj. apply _. Defined.

Definition gc_collect_sorted_obj_timestamp_sizes (path : cstr) (n : node) : list (cstr * (Z * Z) * Z) :=
  merge_sort newer_obj (gc_collect_obj_timestamp_sizes_internal path n).

(** ** Garbage collection *)
Section Gc.
Import BlobCache.

(** [is_entry_usable(entry, &referenced_blobs)] of the cacher, and [unlink()]. *)
Context (is_entry_usable : list Z -> list cstr -> bool * list cstr) (unlink_ok : cstr -> bool).

(** What is collected: the referenced blobs, and the bytes. *)
Record gc_state := mkGc { referenced_blobs : list cstr; acc : gc_acc }.
Definition upd_acc (f : gc_acc -> gc_acc) (g : gc_state) : gc_state := mkGc (referenced_blobs g) (f (acc g)).

(** What the first loop does with a regular file; [None]: it is an entry, left for later. *)
Definition classify_obj (d : dir) (name : cstr) : option verdict :=
  if Subkey.valid name then None
  else if bool_decide (name = kDirDebugJson) then Some (if debug_cache then KeepDebug else Delete)
  else
    match Paths.strstr name kDebugPostfix with
    | Some name_len =>
        Some (if debug_cache
              then match find (take name_len name) d with Some _ => KeepDebug | None => Delete end
              else Delete)
    | None => Some KeepUnexpected
    end.

(** The first loop: the entries to delete, whether there are valid ones, the kept bytes. *)
Fixpoint scan_objs (d l : dir) (a : gc_acc) : list cstr * bool * gc_acc :=
  match l with
  | [] => ([], false, a)
  | (name, Reg data _) :: l =>
      let v := classify_obj d name in
      let '(to_delete, found, a) :=
        scan_objs d l (match v with Some v => add_acc a (verdict_acc v (Z.of_nat (length data))) | None => a end) in
      (match v with Some Delete => name :: to_delete | _ => to_delete end,
       match v with None => true | Some _ => found end, a)
  | _ :: l => scan_objs d l a
  end.

(** [unlinkat()] of an entry with the adjustment of the cached bytes. *)
Definition unlink_obj (path : cstr) (d : dir) (name : cstr) (gone : list cstr) (g : gc_state) : list cstr * gc_state :=
  match unlink_entry unlink_ok path d gone name with
  | Some size => (name :: gone, upd_acc (fun a => add_acc a (mkAcc 0 0 0 (- size))) g)
  | None => (gone, g)
  end.

(** The loop over the entries, in the order they would be tried. *)
Fixpoint process_entries (path : cstr) (d : dir) (entries : list cstr) (usable_entries : Z)
    (gone : list cstr) (g : gc_state) : outcome (list cstr * gc_state) :=
  match entries with
  | [] => Ret (gone, g)
  | entry :: entries =>
      if shortcut_tries <=? usable_entries then
        let '(gone, g) := unlink_obj path d entry gone g in
        process_entries path d entries usable_entries gone g
      else
        r ← retrieve_node (find entry d);
        match r with
        | Some (entry_buf, compressed_len) =>
            let size := match compressed_len with
                        | Some n => n
                        | None => Z.of_nat (length entry_buf) + Z.of_nat kMagicHeaderSize
                        end in
            let '(usable, refs) := is_entry_usable entry_buf (referenced_blobs g) in
            let g := mkGc refs (acc g) in
            if usable : bool then
              process_entries path d entries (usable_entries + 1) gone
                (upd_acc (fun a => add_acc a (mkAcc size 0 0 0)) g)
            else if unlink_ok (subpath path entry) then
              process_entries path d entries usable_entries (entry :: gone)
                (upd_acc (fun a => add_acc a (mkAcc 0 0 0 (- size))) g)
            else process_entries path d entries usable_entries gone g
        | None =>
            let '(gone, g) := unlink_obj path d entry gone g in
            process_entries path d entries usable_entries gone g
        end
  end.

(** The deleted files are gone, the subdirectories are visited. *)
Definition visit_objs (rec : cstr -> node -> gc_state -> outcome (option node * gc_state)) (gone : list cstr) :=
  fix go (l : dir) (g : gc_state) : outcome (dir * gc_state) :=
    match l with
    | [] => Ret ([], g)
    | (name, x) :: l =>
        match x with
        | Dir _ =>
            '(x', g) ← rec name x g;
            '(l', g) ← go l g;
            Ret (match x' with Some x' => (name, x') :: l' | None => l' end, g)
        | _ =>
            '(l', g) ← go l g;
            Ret (if bool_decide (name ∈ gone) then l' else (name, x) :: l', g)
        end
    end.

(** The end: an empty directory is removed, also when only the debugging file is left. *)
Definition remove_empty (path : cstr) (is_base : bool) (d : dir) (g : gc_state) : option node * gc_state :=
  if is_base then (Some (Dir d), g)
  else
    match d with
    | [] => (None, g)
    | [(name, x)] =>
        if bool_decide (name = kDirDebugJson) then
          match unlink_entry unlink_ok path d [] name with
          | Some size => (None, upd_acc (fun a => add_acc a (mkAcc 0 (- size) 0 (- size))) g)
          | None => (Some (Dir d), g)
          end
        else (Some (Dir d), g)
    | _ => (Some (Dir d), g)
    end.

(** [gc_obj_cache_dir(path, ...)]; [None] when the directory has been removed. *)
Fixpoint gc_obj_cache_dir (path : cstr) (is_base : bool) (n : node) (g : gc_state) : outcome (option node * gc_state) :=
  match n with
  | Dir d =>
      let '(to_delete, valid_ascii_found, a) := scan_objs d d (acc g) in
      let '(gone, a) := delete_entries unlink_ok path to_delete kDebugPostfix d [] a in
      '(d1, g) ← visit_objs (fun name => gc_obj_cache_dir (subpath path name) false) gone d (mkGc (referenced_blobs g) a);
      '(gone, g) ← (if valid_ascii_found : bool
                    then process_entries path d1 (list_subkeys_internal d1) 0 [] g
                    else Ret ([], g));
      let d2 := filter (fun e => e.1 ∉ gone) d1 in
      Ret (remove_empty path is_base d2 g)
  | _ => Ret (Some n, g)
  end.

(** [gc()], for [base_dir_]. *)
Definition gc (base_dir : cstr) (n : node) (g : gc_state) : outcome (node * gc_state) :=
  '(n', g) ← gc_obj_cache_dir base_dir true n g; Ret (default n n', g).

End Gc.

(** ** Storing and finding entries *)

Context `{!XXHashOk} `{!CacheConfigOk}.

Import BlobCache.

Section Roundtrip.
(** Documented format of zstd: a compressed frame starts with the magic number and is longer
    than the header of an entry, for data of the size of an entry. *)
Context (zstd_frame : forall data z, (kMagicHeaderSize < length data)%nat -> zstd_compress data = Some z ->
           take 4 z = kZstdMagicHeader /\ (kMagicHeaderSize < length z)%nat).

(** Creating a chain of directories. *)
Lemma create_dirs_correct above dirs n :
  wf n -> see above n = SDir ->
  (forall q, q <> [] -> q `prefix_of` dirs -> see (above ++ q) n = SNone \/ see (above ++ q) n = SDir) ->
  wf (create_dirs above dirs n) /\ see (above ++ dirs) (create_dirs above dirs n) = SDir /\
  (forall p, ~ p `prefix_of` above ++ dirs -> see p (create_dirs above dirs n) = see p n) /\
  keeps n (create_dirs above dirs n) /\
  recursive_total_file_size (create_dirs above dirs n) = recursive_total_file_size n.
Proof.
  revert above n. induction dirs as [|c dirs IH]; intros above n Hwf Ha Hq; cbn [create_dirs].
  { rewrite app_nil_r. split_and!; [done|done|done|by intros p|done]. }
  set (n1 := mkdir above c n).
  assert (Hs1 : forall p, see p n1 = if decide (p = above ++ [c] /\ see (above ++ [c]) n = SNone) then SDir else see p n).
  { intros p. unfold n1, mkdir. rewrite see_add by apply no_children_Dir. rewrite Ha. apply decide_ext. naive_solver. }
  assert (Hc : see (above ++ [c]) n1 = SDir).
  { rewrite Hs1. destruct (Hq [c]) as [E|E]; [done|apply prefix_cons, prefix_nil|..].
    - by rewrite decide_True.
    - rewrite decide_False; [done|]. rewrite E. naive_solver. }
  destruct (IH (above ++ [c]) n1) as (K1 & K2 & K3 & K4 & K5); [|done|..].
  { apply wf_add; [apply wf_empty|done]. }
  { intros q Hne Hpre. rewrite <- app_assoc. cbn [app]. rewrite Hs1, decide_False.
    - apply Hq; [done|]. by apply prefix_cons.
    - intros [E _]. apply app_inv_head in E. by injection E as ->. }
  rewrite <- app_assoc in K2, K3. cbn [app] in K2, K3. split_and!; [done|done|..].
  - intros p Hp. rewrite K3 by done. rewrite Hs1, decide_False; [done|]. intros [-> _]. destruct Hp.
    by apply prefix_app, prefix_cons, prefix_nil.
  - intros p data mt Hp. apply K4. rewrite Hs1, decide_False; [done|]. intros [-> E]. by rewrite Hp in E.
  - rewrite K5. unfold n1, mkdir. rewrite total_add by done. cbn [recursive_total_file_size fold_right]. decide_goal; lia.
Qed.

Lemma valid_ascii_enc_bare ds : digits_below 64 ds -> Base64.valid_ascii (Base64.enc <$> ds) (length ds) = true.
Proof.
  induction 1 as [|d ds Hd Hds IH]; [done|]. cbn [fmap list_fmap length Base64.valid_ascii].
  unfold char_at. cbn [nth tail]. by rewrite Base64.enc_valid.
Qed.

(** A new subkey is a valid one. *)
Lemma new_subkey_valid now entry_serial :
  exists subkey, new_subkey now entry_serial = Ret subkey /\ Subkey.valid subkey = true /\ length subkey = 11%nat.
Proof.
  assert (Hd : exists d, Base64.bytes d /\ (if deterministic
    then Subkey.of_digest (take 8 (XXH128_canonicalFromHash (XXH3_128bits entry_serial)))
    else Subkey.of_key ((Z.shiftl (now.1) 30 + now.2) mod 2 ^ 64)) = Subkey.of_digest d).
  { destruct deterministic.
    - exists (take 8 (XXH128_canonicalFromHash (XXH3_128bits entry_serial))). split; [|done].
      apply Forall_take, canonical_bytes.
    - exists (Subkey.be64 ((Z.shiftl (now.1) 30 + now.2) mod 2 ^ 64)). split; [apply Subkey.be64_bytes|done]. }
  destruct Hd as (d & Hb & Hd). unfold new_subkey. rewrite Hd. unfold Subkey.of_digest.
  rewrite Base64.encode8_digits by done. eexists. split; [done|].
  rewrite take_app_le by (rewrite length_fmap; done). rewrite take_ge by (rewrite length_fmap; done).
  split; [|by rewrite length_fmap]. apply (valid_ascii_enc_bare (Base64.digits8 d)). by apply Base64.digits8_below.
Qed.

Lemma construct_cached_dir_name_total key : exists a b name, construct_cached_dir_name key = Ret [a; b; name].
Proof.
  unfold construct_cached_dir_name. rewrite (Hash.to_ascii_digits _ canonical_bytes key). by do 3 eexists.
Qed.

(** What was written is read back. *)
Lemma retrieve_stored entry data mt :
  entry <> [] ->
  (if compress_cache then zstd_compress (kMagicHeader ++ entry) else Some (kMagicHeader ++ entry)) = Some data ->
  exists cl, retrieve_node (Some (Reg data mt)) = Ret (Some (entry, cl)).
Proof.
  intros Hne Hd. assert (Hl : (kMagicHeaderSize < length (kMagicHeader ++ entry))%nat).
  { rewrite length_app. destruct entry; [done|cbn; unfold kMagicHeaderSize; lia]. }
  unfold retrieve_node. destruct compress_cache.
  - destruct (zstd_frame _ _ Hl Hd) as [Hm Hlen]. rewrite (proj2 (Nat.leb_gt _ _)) by done. rewrite Hm.
    rewrite bool_decide_false by done. rewrite bool_decide_true by done. rewrite (zstd_roundtrip _ _ Hd). by eexists.
  - injection Hd as <-. rewrite (proj2 (Nat.leb_gt _ _)) by done. cbn [take kMagicHeader app].
    rewrite bool_decide_true by done. by eexists.
Qed.

Lemma list_subkeys_internal_elem d name : name ∈ list_subkeys_internal d <-> Subkey.valid name = true /\ name ∈ fst <$> d.
Proof.
  unfold list_subkeys_internal.
  assert (E : name ∈ fst <$> filter (fun e => Subkey.valid e.1 = true) d <-> Subkey.valid name = true /\ name ∈ fst <$> d).
  { rewrite !list_elem_of_fmap. split.
    - intros ([m x] & -> & [Hv Hin]%list_elem_of_filter). split; [done|]. by exists (m, x).
    - intros [Hv ([m x] & -> & Hin)]. exists (m, x). split; [done|]. by apply list_elem_of_filter. }
  destruct debug_cache; [|by rewrite merge_sort_Permutation].
  rewrite <- E. by rewrite merge_sort_Permutation.
Qed.

Lemma store_correct E key entry stored_blob_bytes s dirs subkey :
  construct_cached_dir_name key = Ret dirs -> new_subkey (oe_now E) (kMagicHeader ++ entry) = Ret subkey ->
  is_Some (oe_mkstemp E) -> debug_cache = false -> entry <> [] ->
  stored_blob_bytes + Z.of_nat (length entry) <= max_entry_size ->
  (compress_cache = true -> is_Some (zstd_compress (kMagicHeader ++ entry))) ->
  wf (root s) -> (forall q, q `prefix_of` dirs -> see q (root s) = SDir \/ (q <> [] /\ see q (root s) = SNone)) ->
  see (dirs ++ [subkey]) (root s) = SNone ->
  exists s' data, store E key entry stored_blob_bytes s = Ret (true, s') /\
    (if compress_cache then zstd_compress (kMagicHeader ++ entry) else Some (kMagicHeader ++ entry)) = Some data /\
    see (dirs ++ [subkey]) (root s') = SReg data (oe_now E) /\ keeps (root s) (root s') /\ wf (root s') /\
    cached_bytes s' - cached_bytes s = recursive_total_file_size (root s') - recursive_total_file_size (root s).
Proof.
  intros Hk Hsub [tmp Htmp] Hdbg Hne Hmax Hz Hwf Hdirs Hfree. unfold store, mbind, outcome_bind. rewrite Hk, Hdbg, Htmp.
  assert (Hs0 : match oe_debug_key E with Some _ | _ => s end = s) by (by destruct (oe_debug_key E)).
  rewrite Hs0. rewrite (proj2 (Z.ltb_ge _ _)) by lia.
  assert (Hdata : exists data, (if compress_cache then zstd_compress (kMagicHeader ++ entry) else Some (kMagicHeader ++ entry)) = Some data).
  { destruct compress_cache; [by apply Hz|by eexists]. }
  destruct Hdata as [data Hdata]. rewrite Hdata, Hsub.
  assert (Hroot : see [] (root s) = SDir) by (destruct (Hdirs []) as [?|[? _]]; [apply prefix_nil|done|done]).
  destruct (create_dirs_correct [] dirs (root s)) as (K1 & K2 & K3 & K4 & K5); [done|done|..].
  { intros q Hq Hp. cbn [app]. destruct (Hdirs q Hp) as [?|[_ ?]]; auto. }
  cbn [app] in K2, K3. set (n := create_dirs [] dirs (root s)) in *.
  assert (Hfree' : see (dirs ++ [subkey]) n = SNone).
  { rewrite K3; [done|]. intros Hp%prefix_length. rewrite length_app in Hp. cbn in Hp. lia. }
  unfold fb_renameat2. apply see_SDir in K2 as Hd. destruct Hd as [d Hd]. rewrite Hd.
  pose proof (find_see dirs subkey n d Hd) as Hf. rewrite Hfree' in Hf.
  destruct (find subkey d) as [m|] eqn:Ef; [by destruct (kind_SNone m)|].
  eexists _, data. split; [done|]. cbn [root cached_bytes]. split_and!.
  - done.
  - rewrite see_add by apply no_children_Reg. by rewrite decide_True.
  - intros p dt mt Hp. apply keeps_add; [apply no_children_Reg|]. by apply K4.
  - by apply wf_add.
  - rewrite total_add by done. rewrite decide_True by done. cbn [recursive_total_file_size]. lia.
Qed.

#[global] Instance subkey_ge_trans : Transitive subkey_ge.
Proof. intros a b c Hab Hbc. unfold subkey_ge in *. by etrans. Qed.
#[global] Instance subkey_ge_total : Total subkey_ge.
Proof. intros a b. unfold subkey_ge. destruct (total str_le (take Subkey.kAsciiLength a) (take Subkey.kAsciiLength b)); auto. Qed.

(** The name of the entry that was stored at time [k]. *)
Definition subkey_of (k : Z) : cstr := Base64.enc <$> Base64.digits8 (Subkey.be64 k).
Definition not_older (a b : cstr) : Prop :=
  forall ka kb, 0 <= ka < 2 ^ 64 -> 0 <= kb < 2 ^ 64 -> a = subkey_of ka -> b = subkey_of kb -> kb <= ka.

Lemma subkey_ge_not_older a b : subkey_ge a b -> not_older a b.
Proof.
  unfold subkey_ge, str_le. intros Hge ka kb Ha Hb -> ->. unfold subkey_of in Hge.
  rewrite !take_ge in Hge by (rewrite length_fmap; done). rewrite Subkey.of_key_compare in Hge by done.
  by apply Z.compare_le_iff.
Qed.

Lemma list_subkeys_sorted d : debug_cache = false -> StronglySorted not_older (list_subkeys_internal d).
Proof.
  intros Hdbg. unfold list_subkeys_internal. rewrite Hdbg.
  assert (Hs : StronglySorted subkey_ge (merge_sort subkey_ge (fst <$> filter (fun e => Subkey.valid e.1 = true) d)))
    by (apply StronglySorted_merge_sort; apply _).
  induction Hs as [|a l Hl IH Ha]; constructor; [done|].
  eapply Forall_impl; [exact Ha|]. intros b. apply subkey_ge_not_older.
Qed.

Lemma stored_is_listed E key entry stored_blob_bytes s dirs subkey :
  construct_cached_dir_name key = Ret dirs -> new_subkey (oe_now E) (kMagicHeader ++ entry) = Ret subkey ->
  is_Some (oe_mkstemp E) -> debug_cache = false -> entry <> [] ->
  stored_blob_bytes + Z.of_nat (length entry) <= max_entry_size ->
  (compress_cache = true -> is_Some (zstd_compress (kMagicHeader ++ entry))) ->
  wf (root s) -> (forall q, q `prefix_of` dirs -> see q (root s) = SDir \/ (q <> [] /\ see q (root s) = SNone)) ->
  see (dirs ++ [subkey]) (root s) = SNone ->
  exists s' subkeys cl, store E key entry stored_blob_bytes s = Ret (true, s') /\
    list_subkeys key s' = Ret subkeys /\ subkey ∈ subkeys /\ StronglySorted not_older subkeys /\
    retrieve key subkey s' = Ret (Some (entry, cl)) /\ keeps (root s) (root s') /\
    cached_bytes s' - cached_bytes s = recursive_total_file_size (root s') - recursive_total_file_size (root s).
Proof.
  intros Hk Hsub Htmp Hdbg Hne Hmax Hz Hwf Hdirs Hfree.
  destruct (store_correct E key entry stored_blob_bytes s dirs subkey) as (s' & data & Hst & Hdata & Hsee & Hkeep & _ & Hacc); [done..|].
  destruct (retrieve_stored entry data (oe_now E) Hne Hdata) as [cl Hcl].
  unfold see in Hsee. destruct (lookup (dirs ++ [subkey]) (root s')) as [x|] eqn:El; [|done].
  destruct x as [dt mt| |]; try done. injection Hsee as -> ->.
  assert (Hdir : exists d, lookup dirs (root s') = Some (Dir d) /\ find subkey d = Some (Reg data (oe_now E))).
  { clear -El. revert El. generalize (root s'). induction dirs as [|c dirs IH]; intros n; cbn.
    - destruct n as [|d|]; [done| |done]. destruct (find subkey d) eqn:Ef; [|done]. intros [= ->]. by exists d.
    - destruct n as [|d|]; [done| |done]. destruct (find c d); [apply IH|done]. }
  destruct Hdir as (d & Hd & Hf).
  exists s', (list_subkeys_internal d), cl. split; [done|].
  unfold list_subkeys, retrieve, mbind, outcome_bind. rewrite Hk, Hd, El. split_and!; [done|..|done|done|done].
  - apply list_subkeys_internal_elem. destruct (new_subkey_valid (oe_now E) (kMagicHeader ++ entry)) as (sk & Hsk & Hv & _).
    rewrite Hsub in Hsk. injection Hsk as <-. split; [done|]. apply list_elem_of_fmap.
    exists (subkey, Reg data (oe_now E)). split; [done|]. by apply find_Some.
  - by apply list_subkeys_sorted.
Qed.

(** C33. A stored entry is found again: when there is room for it, storing an entry succeeds, the
    entry is listed under its key with the newest entries first, retrieving it gives what was
    stored, all other files of the cache are unchanged, and the number of cached bytes has
    changed by as much as the total size of the files. *)
Theorem obj_roundtrip E key entry stored_blob_bytes s dirs subkey :
  construct_cached_dir_name key = Ret dirs -> new_subkey (oe_now E) (kMagicHeader ++ entry) = Ret subkey ->
  is_Some (oe_mkstemp E) -> debug_cache = false -> entry <> [] ->
  stored_blob_bytes + Z.of_nat (length entry) <= max_entry_size ->
  (compress_cache = true -> is_Some (zstd_compress (kMagicHeader ++ entry))) ->
  wf (root s) -> (forall q, q `prefix_of` dirs -> see q (root s) = SDir \/ (q <> [] /\ see q (root s) = SNone)) ->
  see (dirs ++ [subkey]) (root s) = SNone ->
  exists s' subkeys cl, store E key entry stored_blob_bytes s = Ret (true, s') /\
    list_subkeys key s' = Ret subkeys /\ subkey ∈ subkeys /\ StronglySorted not_older subkeys /\
    retrieve key subkey s' = Ret (Some (entry, cl)) /\ keeps (root s) (root s') /\
    cached_bytes s' - cached_bytes s = recursive_total_file_size (root s') - recursive_total_file_size (root s).
Proof. apply stored_is_listed. Qed.

End Roundtrip.

(** ** What garbage collection keeps *)

(** What the garbage collector relies on in the check of an entry, which collects the blobs
    that the entry refers to: the answer does not depend on what has been collected, nothing
    that has been collected is lost, and the blobs of a usable entry are collected. *)
Record entry_check (is_entry_usable : list Z -> list cstr -> bool * list cstr) (ok : list Z -> bool)
    (refs_of : list Z -> list cstr) (good : list cstr -> Prop) : Prop := {
  check_answer e refs : good refs -> (is_entry_usable e refs).1 = ok e;
  check_good e refs : good refs -> good (is_entry_usable e refs).2;
  check_mono e refs : refs ⊆ (is_entry_usable e refs).2;
  check_refs e refs : good refs -> ok e = true -> refs_of e ⊆ (is_entry_usable e refs).2
}.

Definition sumZ {A} (f : A -> Z) (l : list A) : Z := foldr (fun x a => f x + a) 0 l.

Lemma sumZ_app {A} (f : A -> Z) a b : sumZ f (a ++ b) = sumZ f a + sumZ f b.
Proof. induction a as [|x a IH]; cbn; [done|]. unfold sumZ in *. lia. Qed.
Lemma sumZ_ext {A} (f g : A -> Z) l : (forall x, x ∈ l -> f x = g x) -> sumZ f l = sumZ g l.
Proof.
  induction l as [|x l IH]; intros E; [done|]. cbn. rewrite E by (by left). f_equal. apply IH. intros y Hy. apply E. by right.
Qed.
Lemma sumZ_perm {A} (f : A -> Z) l l' : l ≡ₚ l' -> sumZ f l = sumZ f l'.
Proof. induction 1; cbn; unfold sumZ in *; lia. Qed.
Lemma sumZ_fmap {A B} (g : A -> B) (f : B -> Z) l : sumZ f (g <$> l) = sumZ (fun x => f (g x)) l.
Proof. induction l as [|x l IH]; [done|]. cbn. unfold sumZ in *. by rewrite IH. Qed.
Lemma sumZ_filter {A} (f : A -> Z) (P : A -> Prop) `{forall x, Decision (P x)} l :
  sumZ f (filter P l) = sumZ (fun x => if decide (P x) then f x else 0) l.
Proof.
  induction l as [|x l IH]; [done|]. rewrite list.filter_cons. cbn [sumZ foldr].
  decide_goal; cbn [sumZ foldr]; unfold sumZ in *; lia.
Qed.
Lemma sumZ_minus {A} (f g : A -> Z) l : sumZ (fun x => f x - g x) l = sumZ f l - sumZ g l.
Proof. induction l as [|x l IH]; [done|]. cbn. unfold sumZ in *. lia. Qed.

Lemma sizes_Dir d : sizes (files (Dir d)) = sumZ (fun e => sizes (files e.2)) d.
Proof.
  induction d as [|[name x] d IH]; [done|]. rewrite files_cons, sizes_app. unfold under. rewrite sizes_map, IH. done.
Qed.

(** Only regular files are named like entries. *)
Fixpoint tidy (n : node) : Prop :=
  match n with
  | Dir d => fold_right (fun e P => ((Subkey.valid e.1 = true -> is_reg e.2 = true) /\ tidy e.2) /\ P) True d
  | _ => True
  end.

Lemma tidy_Dir d : tidy (Dir d) <-> Forall (fun e => (Subkey.valid e.1 = true -> is_reg e.2 = true) /\ tidy e.2) d.
Proof. cbn. induction d as [|e l IH]; cbn; [done|]. by rewrite Forall_cons, IH. Qed.

Lemma retrieve_size data mt entry cl :
  retrieve_node (Some (Reg data mt)) = Ret (Some (entry, cl)) ->
  match cl with Some n => n | None => Z.of_nat (length entry) + Z.of_nat kMagicHeaderSize end = Z.of_nat (length data).
Proof.
  unfold retrieve_node. destruct (Nat.leb_spec (length data) kMagicHeaderSize) as [|Hl]; [done|].
  case_bool_decide; [|case_bool_decide; [|done]].
  - intros [= <- <-]. rewrite length_drop. lia.
  - destruct (zstd_decompress data); [|done]. by intros [= <- <-].
Qed.

Section GcCorrect.
Context (is_entry_usable : list Z -> list cstr -> bool * list cstr) (unlink_ok : cstr -> bool).
Context (ok : list Z -> bool) (refs_of : list Z -> list cstr) (good : list cstr -> Prop).
Context (Hcheck : entry_check is_entry_usable ok refs_of good).
Context (Hdebug : debug_cache = false) (Hunlink : forall path, unlink_ok path = true).

(** A file that holds a usable entry all of whose blobs are among [refs]. *)
Definition usable (refs : list cstr) (data : list Z) : Prop :=
  exists entry cl, (forall mt, retrieve_node (Some (Reg data mt)) = Ret (Some (entry, cl))) /\
    ok entry = true /\ refs_of entry ⊆ refs.

Lemma usable_mono refs refs' data : refs ⊆ refs' -> usable refs data -> usable refs' data.
Proof. intros Hs (entry & cl & Hr & Ho & Hi). exists entry, cl. split_and!; [done..|]. by etrans. Qed.

Definition size_in (d : dir) (name : cstr) : Z := match find name d with Some n => size_of n | None => 0 end.

(** What the loop over the entries has done: what is not deleted is usable. *)
Record processed (d : dir) (entries gone : list cstr) (g : gc_state) (gone' : list cstr) (g' : gc_state) : Prop := {
  pr_good : good (referenced_blobs g');
  pr_mono : referenced_blobs g ⊆ referenced_blobs g';
  pr_gone e : e ∈ gone' -> e ∈ gone \/ e ∈ entries;
  pr_stay : gone ⊆ gone';
  pr_usable e data mt : e ∈ entries -> e ∉ gone' -> find e d = Some (Reg data mt) -> usable (referenced_blobs g') data;
  pr_run : run_bytes (acc g') - run_bytes (acc g) = - sumZ (fun e => if decide (e ∈ gone') then size_in d e else 0) entries;
  pr_cache : cache_bytes (acc g') - cache_bytes (acc g) = sumZ (fun e => if decide (e ∈ gone') then 0 else size_in d e) entries
}.

Lemma processed_delete d e entries gone g g1 gone' g' :
  processed d entries (e :: gone) g1 gone' g' -> referenced_blobs g ⊆ referenced_blobs g1 ->
  run_bytes (acc g1) = run_bytes (acc g) - size_in d e -> cache_bytes (acc g1) = cache_bytes (acc g) ->
  processed d (e :: entries) gone g gone' g'.
Proof.
  intros [K1 K2 K3 K4 K5 K6 K7] Hsub Hrun Hcb. assert (Hgone : e ∈ gone') by (apply K4; by left).
  split; [done|by etrans|..].
  - intros x Hx. destruct (K3 x Hx) as [[->|]%elem_of_cons|]; [right; by left|by left|right; by right].
  - intros x Hx. apply K4. by right.
  - intros x dx mx [->|Hx]%elem_of_cons Hn; [by destruct Hn|]. by apply K5.
  - cbn [sumZ foldr]. rewrite decide_True by done. unfold sumZ in *. lia.
  - cbn [sumZ foldr]. rewrite decide_True by done. unfold sumZ in *. lia.
Qed.

Lemma processed_keep d e entries gone g g1 gone' g' data mt :
  processed d entries gone g1 gone' g' -> e ∉ gone -> e ∉ entries -> find e d = Some (Reg data mt) ->
  usable (referenced_blobs g1) data -> referenced_blobs g ⊆ referenced_blobs g1 ->
  run_bytes (acc g1) = run_bytes (acc g) -> cache_bytes (acc g1) = cache_bytes (acc g) + size_in d e ->
  processed d (e :: entries) gone g gone' g'.
Proof.
  intros [K1 K2 K3 K4 K5 K6 K7] Heg He Hf Hus Hsub Hrun Hcb.
  assert (Hkept : e ∉ gone') by (intros Hx; destruct (K3 e Hx); done).
  split; [done|by etrans|..].
  - intros x Hx. destruct (K3 x Hx); [by left|right; by right].
  - done.
  - intros x dx mx [->|Hx]%elem_of_cons Hn Hfx; [|by apply (K5 x dx mx)].
    rewrite Hf in Hfx. injection Hfx as <- <-. by eapply usable_mono.
  - cbn [sumZ foldr]. rewrite decide_False by done. unfold sumZ in *. lia.
  - cbn [sumZ foldr]. rewrite decide_False by done. unfold sumZ in *. lia.
Qed.

Lemma retrieve_node_Reg data mt : exists r, retrieve_node (Some (Reg data mt)) = Ret r.
Proof.
  unfold retrieve_node. destruct (length data <=? kMagicHeaderSize)%nat; [by eexists|].
  do 2 (case_bool_decide; [by eexists|]). by eexists.
Qed.

Lemma unlink_obj_Reg path d e gone g data mt :
  e ∉ gone -> find e d = Some (Reg data mt) ->
  unlink_obj unlink_ok path d e gone g = (e :: gone, upd_acc (fun a => add_acc a (mkAcc 0 0 0 (- size_in d e))) g).
Proof.
  intros He Hf. unfold unlink_obj, unlink_entry, size_in. rewrite bool_decide_false by done. by rewrite Hf, Hunlink.
Qed.

Lemma process_entries_correct path d entries n gone g :
  NoDup entries -> (forall e, e ∈ entries -> e ∉ gone /\ exists data mt, find e d = Some (Reg data mt)) ->
  good (referenced_blobs g) ->
  exists gone' g', process_entries is_entry_usable unlink_ok path d entries n gone g = Ret (gone', g') /\
    processed d entries gone g gone' g'.
Proof.
  revert n gone g. induction entries as [|e entries IH]; intros n gone g Hnd Hin Hgood; cbn [process_entries].
  { exists gone, g. split; [done|]. split; [done..|by intros; left|done|by intros ? ? ? ?%elem_of_nil|cbn; lia|cbn; lia]. }
  apply NoDup_cons in Hnd as [He Hnd]. destruct (Hin e ltac:(by left)) as (Heg & data & mt & Hf).
  assert (Hsz : size_in d e = Z.of_nat (length data)) by (unfold size_in; by rewrite Hf).
  assert (Hdel : forall n g1, good (referenced_blobs g1) -> referenced_blobs g ⊆ referenced_blobs g1 ->
    run_bytes (acc g1) = run_bytes (acc g) - size_in d e -> cache_bytes (acc g1) = cache_bytes (acc g) ->
    exists gone' g', process_entries is_entry_usable unlink_ok path d entries n (e :: gone) g1 = Ret (gone', g') /\
      processed d (e :: entries) gone g gone' g').
  { intros n1 g1 Hg1 Hsub Hrun Hcb. destruct (IH n1 (e :: gone) g1 Hnd) as (gone' & g' & Hp & Hpr); [|done|].
    { intros x Hx. destruct (Hin x) as [Hxg Hxf]; [by right|]. split; [|done]. rewrite not_elem_of_cons. split; [|done]. by intros ->. }
    exists gone', g'. split; [done|]. by eapply processed_delete. }
  rewrite (unlink_obj_Reg path d e gone g data mt) by done. destruct (Z.leb_spec shortcut_tries n).
  { apply Hdel; [done|done|cbn; lia|cbn; lia]. }
  unfold mbind, outcome_bind. rewrite Hf. destruct (retrieve_node_Reg data mt) as [[[buf cl]|] Er]; rewrite Er.
  2:{ apply Hdel; [done|done|cbn; lia|cbn; lia]. }
  rewrite (retrieve_size _ _ _ _ Er), <- Hsz. destruct (is_entry_usable buf (referenced_blobs g)) as [us refs] eqn:Eu.
  pose proof (check_answer _ _ _ _ Hcheck buf _ Hgood) as Ha. pose proof (check_good _ _ _ _ Hcheck buf _ Hgood) as Hg2.
  pose proof (check_mono _ _ _ _ Hcheck buf (referenced_blobs g)) as Hm. rewrite Eu in Ha, Hg2, Hm. cbn in Ha, Hg2, Hm.
  destruct us; [|rewrite Hunlink; apply Hdel; [done|done|cbn; lia|cbn; lia]].
  destruct (IH (n + 1) gone (upd_acc (fun a => add_acc a (mkAcc (size_in d e) 0 0 0)) (mkGc refs (acc g))) Hnd)
    as (gone' & g' & Hp & Hpr); [by intros x Hx; apply Hin; right|done|].
  exists gone', g'. split; [done|]. eapply processed_keep; [exact Hpr|done|done|done| |done|cbn; lia|cbn; lia].
  exists buf, cl. split; [intros mt'; by rewrite <- Er|]. split; [done|].
  pose proof (check_refs _ _ _ _ Hcheck buf _ Hgood (eq_sym Ha)) as Hrf. by rewrite Eu in Hrf.
Qed.

Lemma classify_nodebug d name : classify_obj d name = classify_obj [] name.
Proof. unfold classify_obj. rewrite Hdebug. done. Qed.

Lemma scan_objs_correct d l a :
  exists a', scan_objs d l a =
    (fst <$> filter (fun e => is_reg e.2 = true /\ classify_obj [] e.1 = Some Delete) l,
     bool_decide (Exists (fun e => is_reg e.2 = true /\ Subkey.valid e.1 = true) l), a') /\
    run_bytes a' = run_bytes a /\ cache_bytes a' = cache_bytes a.
Proof.
  revert a. induction l as [|[name x] l IH]; intros a; cbn [scan_objs].
  { exists a. rewrite bool_decide_false by (intros Hx; inversion Hx). done. }
  rewrite list.filter_cons. destruct x as [data mt|es|]; cbn [snd fst is_reg].
  2,3: destruct (IH a) as (a' & -> & Ha); exists a'; rewrite decide_False by naive_solver; split; [|done];
    f_equal; f_equal; apply bool_decide_ext; rewrite Exists_cons; cbn [snd is_reg]; naive_solver.
  rewrite classify_nodebug. set (a1 := match classify_obj [] name with Some _ => _ | None => _ end).
  assert (Ha1 : run_bytes a1 = run_bytes a /\ cache_bytes a1 = cache_bytes a).
  { subst a1. unfold classify_obj. rewrite Hdebug. destruct (Subkey.valid name); [done|].
    destruct (bool_decide (name = kDirDebugJson)); [cbn; lia|]. destruct (Paths.strstr name kDebugPostfix); cbn; lia. }
  destruct (IH a1) as (a' & Hs & Hr & Hc). rewrite Hs. exists a'. split; [|lia]. repeat f_equal.
  - destruct (classify_obj [] name) as [[]|] eqn:Ec; try (rewrite decide_False by naive_solver; done).
    rewrite decide_True by done. done.
  - destruct (classify_obj [] name) as [v|] eqn:Ec.
    + apply bool_decide_ext. rewrite Exists_cons. cbn [fst snd is_reg]. unfold classify_obj in Ec.
      destruct (Subkey.valid name); [done|]. naive_solver.
    + symmetry. apply bool_decide_true. apply Exists_cons. left. cbn [fst snd is_reg]. split; [done|]. unfold classify_obj in Ec.
      destruct (Subkey.valid name); [done|]. destruct (bool_decide (name = kDirDebugJson)); [done|]. by destruct (Paths.strstr name kDebugPostfix).
Qed.

(** Files named like entries, and files that are not for this program to delete. *)
Definition valid_file (f : list cstr * list Z) : Prop := Subkey.valid <$> last f.1 = Some true.
#[global] Instance valid_file_dec f : Decision (valid_file f).
Proof. unfold valid_file. apply _. Defined.
Definition foreign (f : list cstr * list Z) : Prop := classify_obj [] <$> last f.1 = Some (Some KeepUnexpected).

(** What collecting a directory has done to its files. *)
Record collected (fs fs' : list (list cstr * list Z)) (g g' : gc_state) : Prop := {
  co_good : good (referenced_blobs g');
  co_mono : referenced_blobs g ⊆ referenced_blobs g';
  co_sub : fs' `sublist_of` fs;
  co_usable f : f ∈ fs' -> valid_file f -> usable (referenced_blobs g') f.2;
  co_foreign f : f ∈ fs -> foreign f -> f ∈ fs';
  co_run : run_bytes (acc g') - run_bytes (acc g) = sizes fs' - sizes fs;
  co_cache : cache_bytes (acc g') - cache_bytes (acc g) = sizes (filter valid_file fs')
}.

Definition collects (n : node) : Prop :=
  forall path is_base g, good (referenced_blobs g) ->
  exists r g', gc_obj_cache_dir is_entry_usable unlink_ok path is_base n g = Ret (r, g') /\
    collected (files n) (match r with Some n' => files n' | None => [] end) g g' /\
    (is_base = true -> is_Some r) /\ (forall n', r = Some n' -> exists d, n' = Dir d).

Definition is_dir (n : node) : bool := match n with Dir _ => true | _ => false end.
Definition survive (gone : list cstr) (l : dir) : dir := filter (fun e => is_dir e.2 = true \/ e.1 ∉ gone) l.

(** The files below the subdirectories. *)
Definition deep (f : list cstr * list Z) : Prop := (2 <= length f.1)%nat.
#[global] Instance deep_dec f : Decision (deep f).
Proof. unfold deep. apply _. Defined.

Record visited (gone : list cstr) (l l' : dir) (g g' : gc_state) : Prop := {
  vi_good : good (referenced_blobs g');
  vi_mono : referenced_blobs g ⊆ referenced_blobs g';
  vi_sub : files (Dir l') `sublist_of` files (Dir (survive gone l));
  vi_names : (fst <$> l') `sublist_of` (fst <$> l);
  vi_leaf e : is_dir e.2 = false -> e ∈ l' <-> e ∈ survive gone l;
  vi_dirs e : e ∈ l' -> is_dir e.2 = true -> exists e0, e0 ∈ l /\ e0.1 = e.1 /\ is_dir e0.2 = true;
  vi_usable f : f ∈ files (Dir l') -> deep f -> valid_file f -> usable (referenced_blobs g') f.2;
  vi_foreign f : f ∈ files (Dir (survive gone l)) -> foreign f -> f ∈ files (Dir l');
  vi_run : run_bytes (acc g') - run_bytes (acc g) = sizes (files (Dir l')) - sizes (files (Dir (survive gone l)));
  vi_cache : cache_bytes (acc g') - cache_bytes (acc g) = sizes (filter (fun f => deep f /\ valid_file f) (files (Dir l')))
}.

Lemma survive_cons gone name x l :
  survive gone ((name, x) :: l) =
    if decide (is_dir x = true \/ name ∉ gone) then (name, x) :: survive gone l else survive gone l.
Proof. unfold survive. by rewrite list.filter_cons. Qed.

Lemma elem_under name fs f : f ∈ under name fs <-> exists p, f.1 = name :: p /\ (p, f.2) ∈ fs.
Proof.
  unfold under. rewrite list_elem_of_fmap. split.
  - intros ([p c] & -> & Hin). by exists p.
  - intros (p & Hp & Hin). exists (p, f.2). split; [|done]. destruct f; cbn in *. by subst.
Qed.

Lemma below_props name p c : p <> [] ->
  (valid_file (name :: p, c) <-> valid_file (p, c)) /\ (foreign (name :: p, c) <-> foreign (p, c)) /\ deep (name :: p, c).
Proof.
  intros Hp. unfold valid_file, foreign, deep. cbn [fst]. rewrite last_cons_ne by done. split_and!; [done|done|].
  destruct p; [done|]. cbn. lia.
Qed.

Lemma leaf_files name x : is_dir x = false -> under name (files x) = match x with Reg data _ => [([name], data)] | _ => [] end.
Proof. by destruct x. Qed.

Lemma filter_deep_leaf name x : is_dir x = false -> filter (fun f => deep f /\ valid_file f) (under name (files x)) = [].
Proof.
  intros Hx. rewrite leaf_files by done. destruct x; [|done|done]. rewrite list.filter_cons, decide_False, list.filter_nil; [done|].
  intros [Hd _]. unfold deep in Hd. cbn in Hd. lia.
Qed.

Lemma visited_leaf gone name x l l' g g' :
  is_dir x = false -> visited gone l l' g g' ->
  visited gone ((name, x) :: l) (if bool_decide (name ∈ gone) then l' else (name, x) :: l') g g'.
Proof.
  intros Hx [K1 K2 K3 K4 K5 K6 K7 K8 K9 K10]. pose proof (survive_cons gone name x l) as Hs. case_bool_decide as Hg.
  - rewrite decide_False in Hs by (intros [?|?]; [congruence|done]).
    split; rewrite ?Hs; try done; cbn [fmap list_fmap]; [by apply sublist_cons|].
    intros e He Hd. destruct (K6 e He Hd) as (e0 & H0' & H1' & H2'). exists e0. split; [by right|done].
  - rewrite decide_True in Hs by (by right). split; try done.
    + rewrite Hs, !files_cons. by apply sublist_app; [reflexivity|].
    + cbn [fmap list_fmap]. by apply sublist_skip.
    + intros e He. rewrite Hs, !elem_of_cons. by rewrite K5.
    + intros e [->|He]%elem_of_cons Hd; [cbn in Hd; congruence|].
      destruct (K6 e He Hd) as (e0 & H0' & H1' & H2'). exists e0. split; [by right|done].
    + intros f. rewrite files_cons, elem_of_app. intros [Hf|Hf] Hd Hv; [|by apply K7].
      rewrite leaf_files in Hf by done. destruct x; [|done|by apply elem_of_nil in Hf].
      apply list_elem_of_singleton in Hf as ->. unfold deep in Hd. cbn in Hd. lia.
    + intros f. rewrite Hs, !files_cons, !elem_of_app. intros [Hf|Hf] Hfo; [by left|right; by apply K8].
    + rewrite Hs, !files_cons, !sizes_app. lia.
    + rewrite files_cons, list.filter_app, filter_deep_leaf by done. exact K10.
Qed.

Lemma collected_under name es fs' g g1 :
  collected (files (Dir es)) fs' g g1 ->
  (forall p c, (p, c) ∈ fs' -> p <> []) /\
  sizes (filter (fun f => deep f /\ valid_file f) (under name fs')) = sizes (filter valid_file fs').
Proof.
  intros C. assert (Hne : forall p c, (p, c) ∈ fs' -> p <> []).
  { intros p c Hin. apply (files_Dir_ne es (p, c)). eapply elem_of_sublist; [exact Hin|apply C]. }
  split; [done|]. rewrite (filter_under _ valid_file); [unfold under; by rewrite sizes_map|].
  intros [p c] Hf. cbn [fst snd]. destruct (below_props name p c (Hne p c Hf)) as (Hv & _ & Hd). tauto.
Qed.

Lemma visited_dir gone name es r l l' g g1 g' :
  collected (files (Dir es)) (match r with Some n' => files n' | None => [] end) g g1 ->
  (forall n', r = Some n' -> exists d, n' = Dir d) -> visited gone l l' g1 g' ->
  visited gone ((name, Dir es) :: l) (match r with Some x' => (name, x') :: l' | None => l' end) g g'.
Proof.
  intros C Hr [K1 K2 K3 K4 K5 K6 K7 K8 K9 K10]. pose proof (survive_cons gone name (Dir es) l) as Hs.
  rewrite decide_True in Hs by (by left). set (fs' := match r with Some n' => files n' | None => [] end) in *.
  destruct (collected_under name es fs' g g1 C) as [Hne Hcache]. destruct C as [C1 C2 C3 C4 C5 C6 C7].
  assert (Hfiles : files (Dir (match r with Some x' => (name, x') :: l' | None => l' end)) = under name fs' ++ files (Dir l')).
  { subst fs'. destruct r; [by rewrite files_cons|done]. }
  split; [done|by etrans|..].
  - rewrite Hfiles, Hs, files_cons. apply sublist_app; [by apply fmap_sublist|done].
  - destruct r; cbn [fmap list_fmap fst]; [by apply sublist_skip|by apply sublist_cons].
  - intros e He. rewrite Hs, elem_of_cons, <- K5 by done. destruct r as [x'|]; [rewrite elem_of_cons|].
    + destruct (Hr x' eq_refl) as [d ->]. split; (intros [->|?]; [done|by right]).
    + split; [by right|intros [->|?]; done].
  - intros e He Hd. assert (Hcase : e.1 = name \/ e ∈ l').
    { destruct r; [|by right]. apply elem_of_cons in He as [->|He]; [by left|by right]. }
    destruct Hcase as [Hen|Hel]; [exists (name, Dir es); split; [by left|done]|].
    destruct (K6 e Hel Hd) as (e0 & H0' & H1' & H2'). exists e0. split; [by right|done].
  - intros f. rewrite Hfiles, elem_of_app. intros [Hf|Hf] Hd Hv; [|by apply K7].
    apply elem_under in Hf as (p & Hp & Hin). destruct f as [pf c]. cbn in Hp, Hin. subst pf.
    destruct (below_props name p c (Hne p c Hin)) as (Hv' & _ & _). apply (usable_mono (referenced_blobs g1)); [done|].
    apply (C4 (p, c)); [done|by apply Hv'].
  - intros f. rewrite Hfiles, Hs, files_cons, !elem_of_app. intros [Hf|Hf] Hfo; [left|right; by apply K8].
    apply elem_under in Hf as (p & Hp & Hin). destruct f as [pf c]. cbn in Hp, Hin. subst pf.
    pose proof (files_Dir_ne _ _ Hin) as Hpne. destruct (below_props name p c Hpne) as (_ & Hfo' & _).
    apply elem_under. exists p. split; [done|]. apply (C5 (p, c)); [done|by apply Hfo'].
  - rewrite Hfiles, Hs, files_cons, !sizes_app. unfold under. rewrite !sizes_map. lia.
  - rewrite Hfiles, list.filter_app, sizes_app, Hcache. lia.
Qed.

Lemma visit_objs_correct path gone l g :
  Forall (fun e => is_dir e.2 = true -> collects e.2) l -> good (referenced_blobs g) ->
  exists l' g', visit_objs (fun name => gc_obj_cache_dir is_entry_usable unlink_ok (subpath path name) false) gone l g = Ret (l', g') /\
    visited gone l l' g g'.
Proof.
  intros Hl. revert g. induction Hl as [|[name x] l Hx Hl IH]; intros g Hg; cbn [visit_objs].
  { exists [], g. split; [done|]. split; try done; [by intros ? ?%elem_of_nil|by intros ? ?%elem_of_nil|cbn; lia|cbn; lia]. }
  destruct x as [data mt|es|]; unfold mbind, outcome_bind.
  - destruct (IH g Hg) as (l' & g' & Hv & V). rewrite Hv. eexists _, _. split; [done|]. by apply visited_leaf.
  - destruct (Hx eq_refl (subpath path name) false g Hg) as (r & g1 & Hgc & C & _ & Hd). cbn [snd] in Hgc, C. rewrite Hgc.
    destruct (IH g1 (co_good _ _ _ _ C)) as (l' & g' & Hv & V). rewrite Hv. eexists _, _. split; [done|]. by eapply visited_dir.
  - destruct (IH g Hg) as (l' & g' & Hv & V). rewrite Hv. eexists _, _. split; [done|]. by apply visited_leaf.
Qed.

Lemma run_sum_acc (l : dir) (f : cstr * node -> Z) :
  run_bytes (sum_acc ((fun e => mkAcc 0 0 0 (- f e)) <$> l)) = - sumZ f l /\
  cache_bytes (sum_acc ((fun e => mkAcc 0 0 0 (- f e)) <$> l)) = 0.
Proof. unfold sum_acc, sumZ. induction l as [|e l [IH1 IH2]]; [done|]. rewrite fmap_cons. cbn [foldr add_acc run_bytes cache_bytes]. split; [rewrite IH1|rewrite IH2]; lia. Qed.

Lemma sizes_reg (e : cstr * node) : is_reg e.2 = true -> sizes (files e.2) = size_of e.2.
Proof. destruct e as [name [data mt| |]]; try done. intros _. cbn. lia. Qed.

(** The sizes before and after the deletions of the first loop. *)
Lemma survive_sizes d gone :
  (forall e, e ∈ d -> is_dir e.2 = false -> e.1 ∈ gone <-> is_reg e.2 = true /\ classify_obj [] e.1 = Some Delete) ->
  sizes (files (Dir (survive gone d))) = sizes (files (Dir d)) -
    sumZ (fun e => size_of e.2) (filter (fun e => is_reg e.2 = true /\ classify_obj [] e.1 = Some Delete) d).
Proof.
  intros Hgone. rewrite !sizes_Dir. unfold survive. rewrite !sumZ_filter, <- sumZ_minus. apply sumZ_ext.
  intros e He. specialize (Hgone e He). destruct e as [name x]. cbn [fst snd] in *.
  destruct x as [data mt|es|]; cbn [is_dir is_reg] in *.
  - specialize (Hgone eq_refl). destruct (decide (true = true /\ classify_obj [] name = Some Delete)) as [Hd|Hd].
    + rewrite decide_False by (intros [?|Hn]; [done|]; by apply Hn, Hgone). cbn. lia.
    + rewrite decide_True by (right; by intros Hx%Hgone). lia.
  - rewrite decide_True by (by left). rewrite decide_False by naive_solver. lia.
  - rewrite (decide_False (P := false = true /\ classify_obj [] name = Some Delete)) by (by intros [? _]). cbn. decide_goal; lia.
Qed.

(** A directory whose entries have been processed. *)
Section Finish.
Context (d1 : dir) (gone2 : list cstr).
Context (Hnd : NoDup (fst <$> d1)) (Htidy : forall e, e ∈ d1 -> Subkey.valid e.1 = true -> is_reg e.2 = true).
Context (Hgone2 : forall e, e ∈ gone2 -> e ∈ list_subkeys_internal d1).

Abbreviation d2 := (filter (fun e => e.1 ∉ gone2) d1).

Lemma gone2_valid name : name ∈ gone2 -> Subkey.valid name = true.
Proof. intros Hx%Hgone2. by apply list_subkeys_internal_elem in Hx as [? _]. Qed.

Lemma subkeys_sum (f : cstr -> Z) :
  sumZ f (list_subkeys_internal d1) = sumZ (fun e => if decide (Subkey.valid e.1 = true) then f e.1 else 0) d1.
Proof.
  unfold list_subkeys_internal. rewrite Hdebug. rewrite (sumZ_perm f _ _ (merge_sort_Permutation subkey_ge _)).
  rewrite sumZ_fmap. rewrite (sumZ_filter (fun e => f e.1)). done.
Qed.

Lemma size_in_elem e : e ∈ d1 -> size_in d1 e.1 = size_of e.2.
Proof. intros He. unfold size_in. destruct e as [name x]. cbn [fst snd]. by rewrite (find_elem name x d1). Qed.

Lemma finish_sizes :
  sizes (files (Dir d2)) = sizes (files (Dir d1)) -
    sumZ (fun e => if decide (e ∈ gone2) then size_in d1 e else 0) (list_subkeys_internal d1).
Proof.
  rewrite !sizes_Dir, subkeys_sum, sumZ_filter, <- sumZ_minus. apply sumZ_ext. intros e He.
  destruct (decide (e.1 ∈ gone2)) as [Hg|Hg].
  - rewrite (decide_False (P := e.1 ∉ gone2)) by naive_solver. pose proof (gone2_valid _ Hg) as Hv.
    rewrite decide_True by done. rewrite size_in_elem by done. rewrite sizes_reg by auto. lia.
  - rewrite (decide_True (P := e.1 ∉ gone2)) by done. destruct (decide _); lia.
Qed.

Lemma sizes_filter_Dir (P : list cstr * list Z -> Prop) `{forall f, Decision (P f)} d :
  sizes (filter P (files (Dir d))) = sumZ (fun e => sizes (filter P (under e.1 (files e.2)))) d.
Proof.
  induction d as [|[name x] d IH]; [done|]. rewrite files_cons, list.filter_app, sizes_app, IH. done.
Qed.

Lemma finish_cache :
  sizes (filter valid_file (files (Dir d2))) = sizes (filter (fun f => deep f /\ valid_file f) (files (Dir d1))) +
    sumZ (fun e => if decide (e ∈ gone2) then 0 else size_in d1 e) (list_subkeys_internal d1).
Proof.
  rewrite !sizes_filter_Dir, subkeys_sum, sumZ_filter.
  assert (E : forall f g h : cstr * node -> Z, (forall e, e ∈ d1 -> f e = g e + h e) -> sumZ f d1 = sumZ g d1 + sumZ h d1).
  { clear. intros f g h Hf. rewrite (sumZ_ext f (fun e => g e + h e)) by done.
    clear Hf. induction d1 as [|x l IH]; [done|]. cbn. unfold sumZ in *. lia. }
  apply E. intros [name x] He. cbn [fst snd]. specialize (Htidy _ He). cbn [fst snd] in Htidy.
  destruct x as [data mt|es|].
  - rewrite filter_deep_leaf, leaf_files by done. rewrite (sizes_filter_one valid_file (Subkey.valid name = true))
      by (unfold valid_file; cbn; split; congruence).
    pose proof (size_in_elem _ He) as Hsz. cbn [fst snd size_of] in Hsz. rewrite Hsz.
    destruct (decide (Subkey.valid name = true)) as [Hv|Hv].
    + destruct (decide (name ∈ gone2)); [rewrite decide_False by naive_solver|rewrite decide_True by done]; cbn; lia.
    + rewrite decide_True by (intros Hx; by apply Hv, gone2_valid). done.
  - assert (Hv : Subkey.valid name <> true) by (intros Hx; by specialize (Htidy Hx)).
    rewrite decide_True by (intros Hx; by apply Hv, gone2_valid). rewrite (decide_False (P := Subkey.valid name = true)) by done.
    rewrite Z.add_0_r. rewrite !(filter_under _ valid_file); [done|..]; intros [p c] Hf; pose proof (files_Dir_ne _ _ Hf) as Hp;
      cbn [fst snd] in *; destruct (below_props name p c Hp) as (Hv' & _ & Hd); tauto.
  - assert (Hv : Subkey.valid name <> true) by (intros Hx; by specialize (Htidy Hx)).
    rewrite (decide_False (P := Subkey.valid name = true)) by done. cbn. decide_goal; done.
Qed.

End Finish.

Lemma files_filter_sub (P : cstr * node -> Prop) `{forall e, Decision (P e)} d :
  files (Dir (filter P d)) `sublist_of` files (Dir d).
Proof.
  induction d as [|[name x] l IH]; [done|]. rewrite list.filter_cons.
  decide_goal; rewrite !files_cons; [by apply sublist_app|by apply sublist_inserts_l].
Qed.

Lemma elem_files_Dir d f : f ∈ files (Dir d) <-> exists e p, e ∈ d /\ f.1 = e.1 :: p /\ (p, f.2) ∈ files e.2.
Proof.
  induction d as [|[name x] l IH].
  { cbn. rewrite elem_of_nil. split; [done|]. by intros (e & p & ?%elem_of_nil & _). }
  rewrite files_cons, elem_of_app, elem_under, IH. split.
  - intros [(p & Hp & Hf)|(e & p & He & Hp & Hf)]; [exists (name, x), p|exists e, p]; (split; [|done]); [by left|by right].
  - intros (e & p & [->|He]%elem_of_cons & Hp & Hf); [left; by exists p|right; by exists e, p].
Qed.

Lemma files_leaf x p c : is_dir x = false -> (p, c) ∈ files x -> p = [] /\ exists mt, x = Reg c mt.
Proof. destruct x as [data mt|es|]; cbn; [|done|by intros _ ?%elem_of_nil]. intros _ [= -> ->]%list_elem_of_singleton. eauto. Qed.

(** The loops over a directory together. *)
Lemma finish_collected d gone d1 gone2 g g1 g2 g3 :
  (forall e, e ∈ d -> is_dir e.2 = false -> e.1 ∈ gone <-> is_reg e.2 = true /\ classify_obj [] e.1 = Some Delete) ->
  referenced_blobs g1 = referenced_blobs g -> cache_bytes (acc g1) = cache_bytes (acc g) ->
  run_bytes (acc g1) = run_bytes (acc g) -
    sumZ (fun e => size_of e.2) (filter (fun e => is_reg e.2 = true /\ classify_obj [] e.1 = Some Delete) d) ->
  visited gone d d1 g1 g2 -> NoDup (fst <$> d1) -> (forall e, e ∈ d1 -> Subkey.valid e.1 = true -> is_reg e.2 = true) ->
  processed d1 (list_subkeys_internal d1) [] g2 gone2 g3 ->
  collected (files (Dir d)) (files (Dir (filter (fun e => e.1 ∉ gone2) d1))) g g3.
Proof.
  intros Hgone Href Hcb Hrun V Hnd Htidy P.
  assert (Hgone2 : forall e, e ∈ gone2 -> e ∈ list_subkeys_internal d1).
  { intros e He. by destruct (pr_gone _ _ _ _ _ _ P e He) as [?%elem_of_nil|]. }
  pose proof (finish_sizes d1 gone2 Hnd Htidy Hgone2) as Hsz. pose proof (finish_cache d1 gone2 Hnd Htidy Hgone2) as Hc.
  pose proof (survive_sizes d gone Hgone) as Hs. destruct P as [P1 P2 P3 P4 P5 P6 P7].
  destruct V as [K1 K2 K3 K4 K5 K6 K7 K8 K9 K10]. split; [done|rewrite <- Href; by etrans|..].
  - etrans; [apply files_filter_sub|]. etrans; [exact K3|]. apply files_filter_sub.
  - intros f Hf Hv. destruct (decide (deep f)) as [Hd|Hd].
    { eapply usable_mono; [exact P2|]. apply K7; [|done..]. eapply elem_of_sublist; [exact Hf|apply files_filter_sub]. }
    apply elem_files_Dir in Hf as (e & p & He & Hp & Hf). apply list_elem_of_filter in He as [Hg He].
    assert (Hn : p = []) by (destruct p; [done|]; destruct Hd; unfold deep; rewrite Hp; cbn; lia). subst p.
    unfold valid_file in Hv. rewrite Hp in Hv. cbn in Hv. injection Hv as Hv.
    destruct e as [name x]. cbn [fst snd] in *. pose proof (Htidy _ He Hv) as Hr. destruct x as [data mt| |]; try done.
    apply files_leaf in Hf as [_ [mt' [= -> ->]]]; [|done].
    apply (P5 name f.2 mt'); [|done|by apply find_elem]. apply list_subkeys_internal_elem. split; [done|].
    apply list_elem_of_fmap. by exists (name, Reg f.2 mt').
  - intros f Hf Hfo. assert (Hf1 : f ∈ files (Dir d1)).
    { apply K8; [|done]. apply elem_files_Dir in Hf as (e & p & He & Hp & Hf). apply elem_files_Dir. exists e, p.
      split; [|done]. apply list_elem_of_filter. split; [|done]. destruct (is_dir e.2) eqn:Ed; [by left|]. right.
      intros Hx. apply (Hgone e He Ed) in Hx as [_ Hx]. apply files_leaf in Hf as [-> _]; [|done].
      unfold foreign in Hfo. rewrite Hp in Hfo. cbn in Hfo. congruence. }
    clear Hf. apply elem_files_Dir in Hf1 as (e & p & He & Hp & Hf). apply elem_files_Dir. exists e, p.
    split; [|done]. apply list_elem_of_filter. split; [|done]. intros Hx. apply Hgone2, list_subkeys_internal_elem in Hx as [Hv _].
    pose proof (Htidy e He Hv) as Hr. apply files_leaf in Hf as [-> _]; [|by destruct e.2].
    unfold foreign in Hfo. rewrite Hp in Hfo. cbn [last fmap option_fmap option_map] in Hfo. unfold classify_obj in Hfo. by rewrite Hv in Hfo.
  - lia.
  - lia.
Qed.

(** Entries are only looked for when there are some; it makes no difference. *)
Lemma process_step path d d1 gone g :
  (forall e, e ∈ d -> is_dir e.2 = false -> e.1 ∈ gone <-> is_reg e.2 = true /\ classify_obj [] e.1 = Some Delete) ->
  NoDup (fst <$> d1) -> (forall e, e ∈ d1 -> Subkey.valid e.1 = true -> is_reg e.2 = true) ->
  (forall e, is_dir e.2 = false -> e ∈ d1 <-> e ∈ survive gone d) -> good (referenced_blobs g) ->
  exists gone2 g', (if bool_decide (Exists (fun e => is_reg e.2 = true /\ Subkey.valid e.1 = true) d)
                    then process_entries is_entry_usable unlink_ok path d1 (list_subkeys_internal d1) 0 [] g
                    else Ret ([], g)) = Ret (gone2, g') /\
    processed d1 (list_subkeys_internal d1) [] g gone2 g'.
Proof.
  intros Hgone Hnd Htidy Hleaf Hg.
  assert (Hreg : forall e, e ∈ list_subkeys_internal d1 -> exists data mt, (e, Reg data mt) ∈ d1).
  { intros e [Hv He]%list_subkeys_internal_elem. apply list_elem_of_fmap in He as ([m x] & -> & Hin).
    pose proof (Htidy _ Hin Hv) as Hr. destruct x as [data mt| |]; try done. by exists data, mt. }
  destruct (process_entries_correct path d1 (list_subkeys_internal d1) 0 [] g) as (gone2 & g' & Hp & P); [| |done|].
  { unfold list_subkeys_internal. rewrite Hdebug, merge_sort_Permutation. eapply sublist_NoDup; [exact Hnd|].
    apply fmap_sublist, sublist_filter. }
  { intros e He. split; [apply not_elem_of_nil|]. destruct (Hreg e He) as (data & mt & Hin). exists data, mt. by apply find_elem. }
  destruct (bool_decide (Exists _ d)) eqn:Ex; [by exists gone2, g'|]. apply bool_decide_eq_false in Ex.
  assert (Hnil : list_subkeys_internal d1 = []).
  { destruct (list_subkeys_internal d1) as [|e l] eqn:El; [done|]. destruct Ex.
    destruct (Hreg e) as (data & mt & Hin); [by left|].
    assert (Hv : e ∈ list_subkeys_internal d1) by (rewrite El; by left). apply list_subkeys_internal_elem in Hv as [Hv _].
    apply Hleaf, list_elem_of_filter in Hin as [_ Hin]; [|done]. apply Exists_exists. by exists (e, Reg data mt). }
  rewrite Hnil in *. cbn in Hp. injection Hp as <- <-. by exists [], g.
Qed.

Lemma remove_empty_collected path is_base fs d g g' :
  collected fs (files (Dir d)) g g' ->
  (forall data mt, (kDirDebugJson, Reg data mt) ∉ d) ->
  exists r g'', remove_empty unlink_ok path is_base d g' = (r, g'') /\
    collected fs (match r with Some n' => files n' | None => [] end) g g'' /\
    (is_base = true -> is_Some r) /\ (forall n', r = Some n' -> exists d, n' = Dir d).
Proof.
  intros C Hnot. unfold remove_empty.
  assert (Hkeep : exists r g'', (Some (Dir d), g') = (r, g'') /\
    collected fs (match r with Some n' => files n' | None => [] end) g g'' /\
    (is_base = true -> is_Some r) /\ (forall n', r = Some n' -> exists d, n' = Dir d)).
  { eexists _, _. split_and!; [done|done|by eexists|]. intros n' [= <-]. by eexists. }
  destruct is_base; [done|]. destruct d as [|[name x] [|]]; [eexists _, _; split_and!; done| |done].
  case_bool_decide as Hn; [subst name|done]. unfold unlink_entry. rewrite bool_decide_false by apply not_elem_of_nil.
  cbn [find]. rewrite bool_decide_true by done. destruct x as [data mt|es|]; [|done|].
  { destruct (Hnot data mt). by left. }
  rewrite Hunlink. eexists _, _. split_and!; [done| |done|done]. destruct C as [C1 C2 C3 C4 C5 C6 C7].
  split; try done; cbn; cbn in C6, C7; lia.
Qed.

Lemma gc_obj_cache_dir_collects n : wf n -> tidy n -> is_dir n = true -> collects n.
Proof.
  induction n as [| |d IH] using node_ind'; [done|done|]. intros [Hnd Hwf]%wf_Dir Htidy%tidy_Dir _ path is_base g Hg.
  cbn [gc_obj_cache_dir]. destruct (scan_objs_correct d d (acc g)) as (a & -> & Ha1 & Ha2).
  set (dels := filter (fun e => is_reg e.2 = true /\ classify_obj [] e.1 = Some Delete) d).
  destruct (delete_entries_correct unlink_ok Hdebug kDebugPostfix path d dels [] a) as (gone & -> & Hgone); [done| |..].
  { eapply sublist_NoDup; [exact Hnd|]. apply fmap_sublist, sublist_filter. }
  { intros e [[Hr _] He]%list_elem_of_filter. split_and!; [done..|apply not_elem_of_nil]. }
  assert (Hgone' : forall e, e ∈ d -> is_dir e.2 = false -> e.1 ∈ gone <-> is_reg e.2 = true /\ classify_obj [] e.1 = Some Delete).
  { intros e He _. rewrite Hgone, elem_of_nil, list_elem_of_fmap. split.
    - intros [[]|[(e' & Ee & [Hx He']%list_elem_of_filter) _]]. destruct e as [m x], e' as [m' x']. cbn in Ee. subst m'.
      assert (x' = x) as -> by (apply (find_elem m x' d Hnd) in He'; apply (find_elem m x d Hnd) in He; congruence). done.
    - intros Hx. right. split; [|done]. exists e. split; [done|]. by apply list_elem_of_filter. }
  assert (Hacc : forall f, run_bytes (add_acc a (sum_acc ((fun e => mkAcc 0 0 0 (- f e)) <$> dels))) = run_bytes a - sumZ f dels /\
    cache_bytes (add_acc a (sum_acc ((fun e => mkAcc 0 0 0 (- f e)) <$> dels))) = cache_bytes a).
  { intros f. destruct (run_sum_acc dels f) as [E1 E2]. cbn [add_acc run_bytes cache_bytes]. lia. }
  destruct (Hacc (fun e => if unlink_ok (subpath path e.1) then size_of e.2 else 0)) as [Hr Hc]. clear Hacc.
  rewrite (sumZ_ext _ (fun e => size_of e.2)) in Hr by (intros e _; by rewrite Hunlink).
  set (g1 := mkGc (referenced_blobs g) _).
  assert (Hsub : Forall (fun e => is_dir e.2 = true -> collects e.2) d).
  { rewrite Forall_forall in IH, Hwf, Htidy |- *. intros e He. apply IH; [done|by apply Hwf|by apply Htidy]. }
  destruct (visit_objs_correct path gone d g1 Hsub Hg) as (d1 & g2 & Hv & V). unfold mbind, outcome_bind. rewrite Hv.
  assert (Hnd1 : NoDup (fst <$> d1)) by (eapply sublist_NoDup; [exact Hnd|apply V]).
  assert (Hin1 : forall e, e ∈ d1 -> is_dir e.2 = false -> e ∈ d /\ e.1 ∉ gone).
  { intros e He Hd. apply (vi_leaf _ _ _ _ _ V e Hd), list_elem_of_filter in He as [[?|?] ?]; [congruence|done]. }
  rewrite Forall_forall in Htidy.
  assert (Ht1 : forall e, e ∈ d1 -> Subkey.valid e.1 = true -> is_reg e.2 = true).
  { intros e He Hval. destruct (is_dir e.2) eqn:Ed; [|by apply Htidy; [apply Hin1|]].
    destruct (vi_dirs _ _ _ _ _ V e He Ed) as (e0 & H0' & H1' & H2'). rewrite <- H1' in Hval.
    pose proof (proj1 (Htidy e0 H0') Hval) as Hreg. by destruct e0.2. }
  destruct (process_step path d d1 gone g2 Hgone' Hnd1 Ht1 (vi_leaf _ _ _ _ _ V) (vi_good _ _ _ _ _ V)) as (gone2 & g3 & -> & P).
  destruct (remove_empty_collected path is_base (files (Dir d)) (filter (fun e => e.1 ∉ gone2) d1) g g3) as (r & g4 & -> & Hfin).
  - apply (finish_collected d gone d1 gone2 g g1 g2 g3); try done; [by etrans; [exact Hc|]|etrans; [exact Hr|]; subst dels; lia].
  - intros data mt [_ Hx]%list_elem_of_filter. apply Hin1 in Hx as [Hx Hng]; [|done]. apply Hng, (Hgone' _ Hx); [done|].
    split; [done|]. unfold classify_obj. rewrite Hdebug. done.
  - by exists r, g4.
Qed.

(** C31. Garbage collection of the object cache never removes a file that is not for it, and never
    keeps an entry that cannot be used: every file that is left and is named like an entry holds
    an entry that passes the cacher's check and all the blobs of which are in the set of
    referenced blobs handed to the collection of the blob cache; unexpected files all stay; the
    cached bytes change by as much as the total size of the files, and the bytes of the entries
    that are left are what is counted as the size of the cache. *)
Theorem obj_gc_correct base_dir d g :
  wf (Dir d) -> tidy (Dir d) -> good (referenced_blobs g) ->
  exists n' g', ObjCache.gc is_entry_usable unlink_ok base_dir (Dir d) g = Ret (n', g') /\
    referenced_blobs g ⊆ referenced_blobs g' /\
    files n' `sublist_of` files (Dir d) /\
    (forall f, f ∈ files n' -> valid_file f -> usable (referenced_blobs g') f.2) /\
    (forall f, f ∈ files (Dir d) -> foreign f -> f ∈ files n') /\
    run_bytes (acc g') - run_bytes (acc g) = recursive_total_file_size n' - recursive_total_file_size (Dir d) /\
    cache_bytes (acc g') - cache_bytes (acc g) = sizes (filter valid_file (files n')).
Proof.
  intros Hwf Ht Hg. destruct (gc_obj_cache_dir_collects (Dir d) Hwf Ht eq_refl base_dir true g Hg) as (r & g' & Hgc & C & Hb & _).
  destruct (Hb eq_refl) as [n' ->]. exists n', g'. unfold ObjCache.gc, mbind, outcome_bind. rewrite Hgc. destruct C.
  rewrite !total_files. done.
Qed.
End GcCorrect.
End ObjCache.

#[local] Existing Instances Hashing.demo_xxhash Hashing.demo_xxhash_ok.
Import BlobCache.

Lemma demo_frame data z :
  (kMagicHeaderSize < length data)%nat -> @zstd_compress (demo_config true) data = Some z ->
  take 4 z = kZstdMagicHeader /\ (kMagicHeaderSize < length z)%nat.
Proof.
  intros Hl Hz. assert (z = zstd_magic ++ data) as -> by (by injection Hz). split; [done|].
  rewrite length_app. cbn. lia.
Qed.

Definition demo_env : ObjCache.store_env := ObjCache.mkStoreEnv (Some (cs "new.x")) (5, 6) None [].
Definition demo_key : Hash.t := XXH3_128bits [1].
Definition demo_dirs : list cstr := match construct_cached_dir_name demo_key with Ret d => d | _ => [] end.
Definition demo_subkey : cstr :=
  match new_subkey false (5, 6) (kMagicHeader ++ [42]) with Ret k => k | _ => [] end.

Lemma obj_roundtrip_witness :
  exists s' cl, @store Hashing.demo_xxhash (demo_config true) false demo_env demo_key [42] 0 (mk (Dir []) 0) = Ret (true, s') /\
    @retrieve Hashing.demo_xxhash (demo_config true) demo_key demo_subkey s' = Ret (Some ([42], cl)).
Proof.
  destruct (@obj_roundtrip Hashing.demo_xxhash (demo_config true) false _ (demo_config_ok true) demo_frame
              demo_env demo_key [42] 0 (mk (Dir []) 0) demo_dirs demo_subkey)
    as (s' & subkeys & cl & Hs & _ & _ & _ & Hr & _).
  all: try (vm_compute; reflexivity).
  - by eexists.
  - done.
  - cbn. lia.
  - intros _. by eexists.
  - apply wf_empty.
  - intros q Hq. destruct q; [by left|right]. split; [done|]. vm_compute. reflexivity.
  - exists s', cl. split; [exact Hs|exact Hr].
Defined.

(** A check that refuses one entry and collects a blob for the others. *)
Definition demo_check (entry : list Z) (refs : list cstr) : bool * list cstr :=
  if bool_decide (entry = [9]) then (false, refs) else (true, cs "blob" :: refs).

Lemma demo_check_ok : entry_check demo_check (fun e => bool_decide (e <> [9])) (fun _ => [cs "blob"]) (fun _ => True).
Proof.
  split; unfold demo_check; intros e refs.
  - intros _. destruct (decide (e = [9])) as [E|E]; [rewrite bool_decide_true by done|rewrite bool_decide_false by done];
      cbn [fst]; symmetry; [by apply bool_decide_false; intros ?|by apply bool_decide_true].
  - done.
  - destruct (bool_decide (e = [9])); [done|]. intros x Hx. by right.
  - intros _ He%bool_decide_eq_true. rewrite bool_decide_false by done. intros x ->%list_elem_of_singleton. by left.
Qed.

Definition demo_objs : dir :=
  [(cs "abcdefghij0", Reg (kMagicHeader ++ [42]) (0, 0)); (cs "abcdefghij1", Reg (kMagicHeader ++ [9]) (0, 0));
   (cs "README", Reg [1] (0, 0))].

Lemma obj_gc_correct_witness :
  exists n' g', @ObjCache.gc (demo_config true) demo_check (fun _ => true) (cs "/o") (Dir demo_objs) (mkGc [] (mkAcc 0 0 0 0)) = Ret (n', g') /\
    files n' = [([cs "abcdefghij0"], kMagicHeader ++ [42]); ([cs "README"], [1])] /\
    run_bytes (acc g') - 0 = recursive_total_file_size n' - 19.
Proof.
  destruct (@obj_gc_correct (demo_config true) demo_check (fun _ => true) _ _ _ demo_check_ok eq_refl ltac:(done)
              (cs "/o") demo_objs (mkGc [] (mkAcc 0 0 0 0))) as (n' & g' & Hg & _ & _ & _ & _ & Hr & _).
  - apply wf_Dir. split; [|by repeat constructor]. apply (bool_decide_eq_true_1 _). vm_compute. reflexivity.
  - apply tidy_Dir. repeat constructor.
  - done.
  - exists n', g'. split; [exact Hg|]. vm_compute in Hg. injection Hg as <- <-. split; [vm_compute; reflexivity|exact Hr].
Defined.

(** An entry that is too large leaves an empty temporary file behind in the cache. *)
Theorem refused_entry_leaves_tmpfile :
  @store Hashing.demo_xxhash (demo_config false) false demo_env demo_key [42] 2000 (mk (Dir []) 0)
    = Ret (false, mk (Dir [(cs "new.x", Reg [] (5, 6))]) 0).
Proof. vm_compute. reflexivity. Qed.

End ObjCache.
