(* ===== verification/HashCache.v ===== *)
(** The hash cache (src/firebuild/hash_cache.{h,cc}): what is remembered of files so that they
    are not hashed again, how it is brought up to date, and the queries on it. *)

From stdpp Require Import base list strings option gmap.
From Stdlib Require Import ZArith Lia Ascii.
From S2P Require Import Prelude Base64 FileUsage Hashing Storage.

Local Open Scope Z_scope.

Module HashCache.
Import FileInfo.

(** [struct stat64] as far as it is used. *)
Record stat64_t := mkStat { st : stat_t; st_mtim : Z * Z; st_ino : Z }.

(** [struct HashCacheEntry]. *)
Record HashCacheEntry := mkEntry {
  info : FileInfo.t;
  mtime : Z * Z;
  inode : Z;
  is_stored : bool;
  is_static : bool;
  is_static_checked : bool
}.
Definition new_entry : HashCacheEntry := mkEntry (of_type DONTKNOW) (0, 0) 0 false false false.
Definition notexist_ : HashCacheEntry := mkEntry (of_type NOTEXIST) (0, 0) 0 false false false.
Definition dontknow_ : HashCacheEntry := mkEntry (of_type DONTKNOW) (0, 0) 0 false false false.

(** An open file: [fstat64()], and what is behind the file descriptor. *)
Record fd_t := mkFd { fd_stat : option stat64_t; fd_file : Hashing.open_file; fd_data : list Z }.

(** The file system, and how many processes write files. *)
Record Env := mkEnv {
  stat64 : cstr -> option stat64_t;
  opened : cstr -> option (Hashing.open_file * list Z);
  is_statically_linked : cstr -> bool;
  writers_count : cstr -> Z
}.

(** [db_], and the state of the blob cache. *)
Definition db_t := gmap cstr HashCacheEntry.
Record t := mk { db_ : db_t; blobs : BlobCache.t }.

Section HashCache.
Context `{XXHash} `{CacheConfig} (max_inline_blob_size : Z) (SE : BlobCache.store_env).

(** The configured locations ([FileName::is_in_read_only_location()] and [is_in_ignore_location()]). *)
Context (is_in_read_only_location is_in_ignore_location : cstr -> bool).

Definition stat_of (E : Env) (path : cstr) (fd : option fd_t) (stat_ptr : option stat64_t) : option stat64_t :=
  match stat_ptr with
  | Some s => Some s
  | None => match fd with Some f => fd_stat f | None => stat64 E path end
  end.
Definition file_of (E : Env) (path : cstr) (fd : option fd_t) : option (Hashing.open_file * list Z) :=
  match fd with Some f => Some (fd_file f, fd_data f) | None => opened E path end.

Definition forget (entry : HashCacheEntry) : HashCacheEntry :=
  mkEntry (set_type NOTEXIST (info entry)) (mtime entry) (inode entry) false (is_static entry) (is_static_checked entry).

(** The metadata that is compared. *)
Definition same_metadata (s : stat64_t) (entry : HashCacheEntry) : bool :=
  ((S_ISREG (st_mode (st s)) && bool_decide (type_ (info entry) = ISREG)) ||
   (S_ISDIR (st_mode (st s)) && bool_decide (type_ (info entry) = ISDIR))) &&
  (S_ISDIR (st_mode (st s)) || (st_size (st s) =? size_ (info entry))) &&
  ((st_mtim s).1 =? (mtime entry).1) && ((st_mtim s).2 =? (mtime entry).2) &&
  (st_ino s =? inode entry).

(** [update_statinfo(path, fd, stat_ptr, entry)], which always returns true. *)
Definition update_statinfo (E : Env) (path : cstr) (fd : option fd_t) (stat_ptr : option stat64_t)
    (entry : HashCacheEntry) : outcome HashCacheEntry :=
  if is_in_read_only_location path && negb (bool_decide (type_ (info entry) = DONTKNOW)) then Ret entry
  else
    assert (is_in_read_only_location path ||
            bool_decide (type_ (info entry) = DONTKNOW \/ type_ (info entry) = ISREG \/ type_ (info entry) = ISDIR)) ≫= fun _ =>
    match stat_of E path fd stat_ptr with
    | None => Ret (forget entry)
    | Some s =>
        let mode := st_mode (st s) in
        if negb (S_ISREG mode) && negb (S_ISDIR mode) then Ret (forget entry)
        else if same_metadata s entry then Ret entry
        else
          let info := set_mode_bits (Z.land mode 4095) 4095 (set_type (if S_ISREG mode then ISREG else ISDIR) (info entry)) in
          let info := set_hash None (set_size (if S_ISREG mode then st_size (st s) else -1) info) in
          Ret (mkEntry info (st_mtim s) (st_ino s) false false false)
    end.

Definition with_hash (h : Hash.t) (stored : bool) (entry : HashCacheEntry) : HashCacheEntry :=
  mkEntry (set_hash (Some h) (info entry)) (mtime entry) (inode entry) (is_stored entry || stored)
          (is_static entry) (is_static_checked entry).

(** [update_hash(path, fd, stat_ptr, entry, store, &stored_bytes, skip_statinfo_update)]: the
    returned value, the entry, the stored bytes where they are set, and the blob cache. *)
Definition update_hash (E : Env) (path : cstr) (fd : option fd_t) (stat_ptr : option stat64_t)
    (entry : HashCacheEntry) (store skip_statinfo_update : bool) (b : BlobCache.t)
    : outcome (bool * HashCacheEntry * option Z * BlobCache.t) :=
  entry ← (if skip_statinfo_update then Ret entry else update_statinfo E path fd stat_ptr entry);
  if bool_decide (type_ (info entry) = NOTEXIST) then Ret (true, entry, None, b)
  else
    assert (bool_decide (type_ (info entry) = ISREG \/ type_ (info entry) = ISDIR)) ≫= fun _ =>
    let size := size_ (info entry) in
    if store && negb (is_stored entry) then
      if negb (bool_decide (type_ (info entry) = ISREG)) then Ret (false, entry, None, b)
      else
        '(r, b) ← BlobCache.store_file SE (writers_count E path) 0 (snd <$> file_of E path fd) 0 size b;
        match r with
        | Some hash =>
            let entry := with_hash hash true entry in
            Ret (true, mkEntry (set_type ISREG (info entry)) (mtime entry) (inode entry) (is_stored entry)
                         (is_static entry) (is_static_checked entry), Some size, b)
        | None => Ret (false, entry, None, b)
        end
    else if hash_known (info entry) then Ret (true, entry, if store then Some size else None, b)
    else
      let fake := Build_stat_t (if bool_decide (type_ (info entry) = ISREG) then 32768 else 16384) size in
      r ← (match fd with
           | None => Hashing.set_from_file (fst <$> opened E path) (Some fake) None
           | Some f => Hashing.set_from_fd (fd_file f) (Some fake) None
           end);
      match r with
      | Some (hash, _, _) => Ret (true, with_hash hash false entry, if store then Some size else None, b)
      | None => Ret (false, entry, None, b)
      end.

(** Negative entries are only kept for read-only locations. *)
Definition keep_entry (path : cstr) (entry : HashCacheEntry) (db : db_t) : HashCacheEntry * db_t :=
  if negb (is_in_read_only_location path) && bool_decide (type_ (info entry) = NOTEXIST)
  then (notexist_, delete path db)
  else (entry, <[path := entry]> db).

(** [get_entry_with_statinfo(path, fd, stat_ptr)]; a missing entry starts as an empty one. *)
Definition get_entry_with_statinfo (E : Env) (path : cstr) (fd : option fd_t) (stat_ptr : option stat64_t) (db : db_t)
    : outcome (HashCacheEntry * db_t) :=
  entry ← update_statinfo E path fd stat_ptr (default new_entry (db !! path));
  Ret (keep_entry path entry db).

(** [get_entry_with_statinfo_and_hash(...)]. *)
Definition get_entry_with_statinfo_and_hash (E : Env) (path : cstr) (max_writers : Z) (fd : option fd_t)
    (stat_ptr : option stat64_t) (store skip_statinfo_update : bool) (s : t)
    : outcome (HashCacheEntry * option Z * t) :=
  if max_writers <? writers_count E path then Ret (dontknow_, None, s)
  else
    '(r, entry, stored_bytes, b) ←
      update_hash E path fd stat_ptr (default new_entry (db_ s !! path)) store skip_statinfo_update (blobs s);
    if negb r then Ret (notexist_, stored_bytes, mk (delete path (db_ s)) b)
    else let '(entry, db) := keep_entry path entry (db_ s) in Ret (entry, stored_bytes, mk db b).

(** [get_statinfo(path, &is_dir, &size)]: false, or whether it is a directory and the size of a
    regular file. *)
Definition get_statinfo (E : Env) (path : cstr) (s : t) : outcome (option (bool * option Z) * t) :=
  if is_in_ignore_location path then Ret (None, s)
  else if is_in_read_only_location path then
    '(entry, db) ← get_entry_with_statinfo E path None None (db_ s);
    let s := mk db (blobs s) in
    if bool_decide (type_ (info entry) = NOTEXIST) then Ret (None, s)
    else let is_dir := bool_decide (type_ (info entry) = ISDIR) in
         Ret (Some (is_dir, if is_dir then None else Some (size_ (info entry))), s)
  else
    Ret (match stat64 E path with
         | None => None
         | Some sb =>
             if negb (S_ISREG (st_mode (st sb))) && negb (S_ISDIR (st_mode (st sb))) then None
             else let is_dir := S_ISDIR (st_mode (st sb)) in
                  Some (is_dir, if is_dir then None else Some (st_size (st sb)))
         end, s).

(** [entry->info.hash()], of an entry without a hash the one the constructor made. *)
Definition hash_or_zero (i : FileInfo.t) : Hash.t := default (Hash.mk 0 0) (hash_ i).

(** [get_hash(path, max_writers, &hash, &is_dir, &size, fd, stat_ptr)]. *)
Definition get_hash (E : Env) (path : cstr) (max_writers : Z) (fd : option fd_t) (stat_ptr : option stat64_t) (s : t)
    : outcome (option (Hash.t * bool * option Z) * t) :=
  if is_in_ignore_location path then Ret (None, s)
  else
    '(entry, _, s) ← get_entry_with_statinfo_and_hash E path max_writers fd stat_ptr false false s;
    if bool_decide (type_ (info entry) = NOTEXIST \/ type_ (info entry) = DONTKNOW) then Ret (None, s)
    else let is_dir := bool_decide (type_ (info entry) = ISDIR) in
         Ret (Some (hash_or_zero (info entry), is_dir, if is_dir then None else Some (size_ (info entry))), s).

(** [get_is_static(path, &is_static)] of a path that is not null. *)
Definition get_is_static (E : Env) (path : cstr) (s : t) : outcome (option bool * t) :=
  if is_in_ignore_location path then Ret (None, s)
  else
    '(entry, db) ← get_entry_with_statinfo E path None None (db_ s);
    if bool_decide (type_ (info entry) = NOTEXIST \/ type_ (info entry) = DONTKNOW) then Ret (None, mk db (blobs s))
    else if is_static_checked entry then Ret (Some (is_static entry), mk db (blobs s))
    else
      let entry := mkEntry (info entry) (mtime entry) (inode entry) (is_stored entry) (is_statically_linked E path) true in
      Ret (Some (is_static entry), mk (<[path := entry]> db) (blobs s)).

(** The loop that reads a small file: [read()] until all is read, or the end or an error. *)
Fixpoint read_all (fuel : nat) (f : Hashing.open_file) (size : Z) (buffer : list Z) : outcome (list Z) :=
  let total_read := Z.of_nat (length buffer) in
  if total_read <? size then
    match fuel with
    | O => OutOfFuel
    | S fuel =>
        match Hashing.pread f (size - total_read) total_read with
        | None | Some [] => Ret buffer
        | Some bytes => read_all fuel f size (buffer ++ bytes)
        end
    end
  else Ret buffer.

(** [store_and_get_hash(path, max_writers, &hash, &stored_bytes, fd, stat_ptr, &inline_data,
    &inline_data_len)]: the hash, the stored bytes where they are set, and the data to inline. *)
Definition store_and_get_hash (E : Env) (path : cstr) (max_writers : Z) (fd : option fd_t)
    (stat_ptr : option stat64_t) (inline : bool) (s : t) : outcome (option (Hash.t * option Z * option (list Z)) * t) :=
  if is_in_ignore_location path then Ret (None, s)
  else
    '(entry, stored_bytes, s) ← get_entry_with_statinfo_and_hash E path max_writers fd stat_ptr true false s;
    let hash := hash_or_zero (info entry) in
    let size := size_ (info entry) in
    if inline && bool_decide (type_ (info entry) = ISREG) && (0 <? size) && (size <=? max_inline_blob_size) then
      match file_of E path fd with
      | None => Ret (Some (hash, stored_bytes, None), s)
      | Some (f, _) =>
          buffer ← read_all (Z.to_nat size) f size [];
          Ret (Some (hash, stored_bytes, if Z.of_nat (length buffer) =? size then Some buffer else None), s)
      end
    else Ret (Some (hash, stored_bytes, None), s).

(** The part of [file_info_matches()] that compares the type and size; [None]: go on with the
    mode and the hash. *)
Definition type_matches (query entry : FileInfo.t) : outcome (option bool) :=
  let size_differs := (0 <=? size_ query) && negb (size_ query =? size_ entry) in
  match type_ query with
  | DONTKNOW => Abort
  | EXIST => Ret (if bool_decide (type_ entry = NOTEXIST) then Some false else None)
  | NOTEXIST => Ret (Some (bool_decide (type_ entry = NOTEXIST)))
  | NOTEXIST_OR_ISREG =>
      Ret (match type_ entry with
           | NOTEXIST => Some true
           | ISREG => if size_differs then Some false else None
           | _ => Some false
           end)
  | ISREG =>
      Ret (if negb (bool_decide (type_ entry = ISREG)) then Some false
           else if size_differs then Some false else None)
  | ISDIR => Ret (if negb (bool_decide (type_ entry = ISDIR)) then Some false else None)
  end.

(** [file_info_matches(path, query)]. *)
Definition file_info_matches (E : Env) (path : cstr) (query : FileInfo.t) (s : t) : outcome (bool * t) :=
  if is_in_ignore_location path then Ret (false, s)
  else
    '(entry, db) ← get_entry_with_statinfo E path None None (db_ s);
    let s := mk db (blobs s) in
    r ← type_matches query (info entry);
    match r with
    | Some b => Ret (b, s)
    | None =>
        if negb (Z.land (mode_ query) (mode_mask_ query) =? Z.land (mode_ (info entry)) (mode_mask_ query)) then Ret (false, s)
        else
          match hash_ query with
          | None => Ret (true, s)
          | Some query_hash =>
              assert (bool_decide (type_ query = ISREG \/ type_ query = ISDIR \/ type_ query = NOTEXIST_OR_ISREG)) ≫= fun _ =>
              assert ((bool_decide (type_ query = NOTEXIST_OR_ISREG) && bool_decide (type_ (info entry) = ISREG)) ||
                      bool_decide (type_ (info entry) = type_ query)) ≫= fun _ =>
              match hash_ (info entry) with
              | Some h => Ret (bool_decide (h = query_hash), s)
              | None =>
                  '(entry, _, s) ← get_entry_with_statinfo_and_hash E path 0 None None false true s;
                  if negb (bool_decide (type_ (info entry) = ISREG \/ type_ (info entry) = ISDIR)) then Ret (false, s)
                  else match hash_ (info entry) with
                       | None => Ret (false, s)
                       | Some h => Ret (bool_decide (h = query_hash), s)
                       end
              end
          end
    end.

(** ** The file system without a cache *)

Context `{!XXHashOk} `{!CacheConfigOk}.
Context (Hdebug : debug_cache = false) (HSE : BlobCache.store_env_ok SE).

(** What is at a path: nothing that is cached, or a regular file or directory. *)
Record snapshot := mkSnap {
  v_dir : bool; v_size : Z; v_hash : Hash.t; v_mode : Z; v_mtime : Z * Z; v_ino : Z; v_static : bool
}.
Definition view := option snapshot.

Definition same_meta (a b : snapshot) : Prop :=
  v_dir a = v_dir b /\ (v_dir a = true \/ v_size a = v_size b) /\ v_mtime a = v_mtime b /\ v_ino a = v_ino b.

(** What a path was during the build: read-only locations do not change, and equal metadata
    means an equal file. *)
Definition honest (Hist : cstr -> view -> Prop) : Prop :=
  forall path v v', Hist path v -> Hist path v' ->
    (is_in_read_only_location path = true -> v = v') /\
    (forall a b, v = Some a -> v' = Some b -> same_meta a b -> a = b).

(** The system calls answer according to what is there. *)
Definition stat_as (s : stat64_t) (a : snapshot) : Prop :=
  S_ISDIR (st_mode (st s)) = v_dir a /\ S_ISREG (st_mode (st s)) = negb (v_dir a) /\
  (v_dir a = false -> st_size (st s) = v_size a) /\ st_mode (st s) = v_mode a /\
  st_mtim s = v_mtime a /\ st_ino s = v_ino a.
Definition reads_as (f : Hashing.open_file) (contents : list Z) (a : snapshot) : Prop :=
  if v_dir a then forall names, Hashing.listing f = Some names -> XXH3_128bits (Hashing.dir_data names) = v_hash a
  else Hashing.has_contents f contents /\ v_size a = Z.of_nat (length contents) /\ XXH3_128bits contents = v_hash a.

Record faithful (E : Env) (V : cstr -> view) : Prop := {
  fa_stat path : match stat64 E path, V path with
                 | None, None => True
                 | Some s, None => S_ISREG (st_mode (st s)) = false /\ S_ISDIR (st_mode (st s)) = false
                 | Some s, Some a => stat_as s a
                 | None, Some _ => False
                 end;
  fa_read path f contents a : opened E path = Some (f, contents) -> V path = Some a -> reads_as f contents a;
  fa_static path a : V path = Some a -> is_statically_linked E path = v_static a
}.

(** Opening and reading the file does not fail. *)
Definition readable (E : Env) (V : cstr -> view) (path : cstr) : Prop :=
  forall a, V path = Some a -> exists f contents, opened E path = Some (f, contents) /\
    if v_dir a then is_Some (Hashing.listing f) else Hashing.reliable f contents.

(** A given descriptor or stat result is that of the path. *)
Definition source_ok (E : Env) (path : cstr) (fd : option fd_t) (stat_ptr : option stat64_t) : Prop :=
  stat_of E path fd stat_ptr = stat64 E path /\
  forall f, fd = Some f -> opened E path = Some (fd_file f, fd_data f).

(** ** The invariant *)

(** The entry says what is the case in the view, as far as it says anything. *)
Definition describes (b : BlobCache.t) (e : HashCacheEntry) (v : view) : Prop :=
  match v with
  | None => type_ (info e) = NOTEXIST
  | Some a =>
      type_ (info e) = (if v_dir a then ISDIR else ISREG) /\
      size_ (info e) = (if v_dir a then -1 else v_size a) /\
      mode_ (info e) = Z.land (v_mode a) 4095 /\ mtime e = v_mtime a /\ inode e = v_ino a /\
      (hash_ (info e) = None \/ hash_ (info e) = Some (v_hash a)) /\
      (is_stored e = true -> hash_ (info e) = Some (v_hash a) /\ BlobCache.has_blob (v_hash a) (BlobCache.root b)) /\
      (is_static_checked e = true -> is_static e = v_static a)
  end.

Record inv (Hist : cstr -> view -> Prop) (s : t) : Prop := {
  inv_entries path e : db_ s !! path = Some e ->
    exists v, Hist path v /\ describes (blobs s) e v /\ (v = None -> is_in_read_only_location path = true);
  inv_blobs : BlobCache.inv (BlobCache.root (blobs s))
}.

(** An entry to start from. *)
Definition fits (Hist : cstr -> view -> Prop) (b : BlobCache.t) (path : cstr) (e : HashCacheEntry) : Prop :=
  e = new_entry \/ exists v, Hist path v /\ describes b e v /\ (v = None -> is_in_read_only_location path = true).

Lemma inv_fits Hist s path : inv Hist s -> fits Hist (blobs s) path (default new_entry (db_ s !! path)).
Proof. intros Hi. destruct (db_ s !! path) as [e|] eqn:E; [|by left]. right. by apply (inv_entries _ _ Hi). Qed.

Lemma mode_update m m0 : (m0 = 0 \/ exists x, m0 = Z.land x 4095) ->
  Z.lor (Z.ldiff m0 4095) (Z.land (Z.land m 4095) 4095) = Z.land m 4095.
Proof.
  intros Hm. assert (Hz : Z.ldiff m0 4095 = 0).
  { destruct Hm as [->|[x ->]]; [done|]. apply Z.bits_inj'. intros n _. rewrite Z.ldiff_spec, Z.land_spec, Z.bits_0.
    by destruct (Z.testbit x n), (Z.testbit 4095 n). }
  rewrite Hz, Z.lor_0_l, <- Z.land_assoc. by rewrite Z.land_diag.
Qed.

Lemma describes_new b s a e :
  stat_as s a -> (mode_ (info e) = 0 \/ exists x, mode_ (info e) = Z.land x 4095) ->
  describes b
    (mkEntry (set_hash None (set_size (if S_ISREG (st_mode (st s)) then st_size (st s) else -1)
       (set_mode_bits (Z.land (st_mode (st s)) 4095) 4095 (set_type (if S_ISREG (st_mode (st s)) then ISREG else ISDIR) (info e)))))
       (st_mtim s) (st_ino s) false false false) (Some a).
Proof.
  intros (S1 & S2 & S3 & S4 & S5 & S6) Hm. rewrite S2. cbn -[Z.land Z.lor Z.ldiff]. split_and!; try done.
  - by destruct (v_dir a).
  - destruct (v_dir a); [done|]. by apply S3.
  - by rewrite mode_update, S4.
  - by left.
Qed.

Lemma same_metadata_spec b s a e a0 :
  stat_as s a -> describes b e (Some a0) -> same_metadata s e = true <-> same_meta a0 a.
Proof.
  intros (S1 & S2 & S3 & S4 & S5 & S6) (D1 & D2 & D3 & D4 & D5 & _). unfold same_metadata, same_meta.
  rewrite S1, S2, D1, D2, D4, D5, S5, S6. destruct (v_mtime a), (v_mtime a0). cbn [fst snd].
  rewrite !andb_true_iff, !orb_true_iff, !andb_true_iff, !Z.eqb_eq, !bool_decide_eq_true.
  destruct (v_dir a) eqn:Ea, (v_dir a0) eqn:Ea0; cbn [negb]; try rewrite S3 by done; intuition congruence.
Qed.

Lemma stat_kinds s a : stat_as s a -> negb (S_ISREG (st_mode (st s))) && negb (S_ISDIR (st_mode (st s))) = false.
Proof. intros (-> & -> & _). by destruct (v_dir a). Qed.

Lemma update_statinfo_correct Hist E V b path fd stat_ptr e :
  honest Hist -> Hist path (V path) -> faithful E V -> source_ok E path fd stat_ptr -> fits Hist b path e ->
  exists e', update_statinfo E path fd stat_ptr e = Ret e' /\ describes b e' (V path).
Proof.
  intros Hh HV Hf [Hsrc _] Hfit. unfold update_statinfo. rewrite Hsrc. pose proof (fa_stat _ _ Hf path) as Hs.
  assert (Hgo : (mode_ (info e) = 0 \/ exists x, mode_ (info e) = Z.land x 4095) ->
    (forall s a, stat_as s a -> V path = Some a -> same_metadata s e = true -> describes b e (V path)) ->
    exists e', match stat64 E path with
      | None => Ret (forget e)
      | Some s => if negb (S_ISREG (st_mode (st s))) && negb (S_ISDIR (st_mode (st s))) then Ret (forget e)
          else if same_metadata s e then Ret e
          else Ret (mkEntry (set_hash None (set_size (if S_ISREG (st_mode (st s)) then st_size (st s) else -1)
             (set_mode_bits (Z.land (st_mode (st s)) 4095) 4095 (set_type (if S_ISREG (st_mode (st s)) then ISREG else ISDIR) (info e)))))
             (st_mtim s) (st_ino s) false false false) end = Ret e' /\ describes b e' (V path)).
  { intros Hm Hsame. destruct (stat64 E path) as [s|], (V path) as [a|] eqn:EV; try done.
    - rewrite (stat_kinds _ _ Hs). destruct (same_metadata s e) eqn:Esm; [exists e; split; [done|]; by eapply Hsame|].
      eexists. split; [done|]. by apply describes_new.
    - destruct Hs as [-> ->]. by eexists.
    - by eexists. }
  destruct Hfit as [->|(v & Hv & Hd & Hneg)].
  { cbn [new_entry info of_type type_]. rewrite (bool_decide_true (DONTKNOW = DONTKNOW)) by done. rewrite andb_false_r.
    rewrite (bool_decide_true (DONTKNOW = DONTKNOW \/ _)) by (by left). rewrite orb_true_r. cbn [assert]. unfold mbind, outcome_bind.
    apply Hgo; [by left|]. intros s a _ _ Hsm. exfalso. revert Hsm. unfold same_metadata, new_entry. cbn [info of_type type_].
    rewrite !bool_decide_false by done. by rewrite !andb_false_r. }
  destruct (is_in_read_only_location path) eqn:Ero.
  { destruct (Hh path v (V path) Hv HV) as [Heq _]. rewrite <- (Heq Ero). exists e. split; [|done].
    rewrite bool_decide_false; [done|]. destruct v as [a|]; cbn in Hd; [|by rewrite Hd]. destruct Hd as [-> _]. by destruct (v_dir a). }
  cbn [andb orb]. destruct v as [a|]; [|by specialize (Hneg eq_refl)]. pose proof Hd as (D1 & _ & D3 & _).
  rewrite bool_decide_true by (rewrite D1; destruct (v_dir a); auto). cbn [assert]. unfold mbind, outcome_bind.
  apply Hgo; [right; by exists (v_mode a)|]. intros s a' Hst EV Hsm. rewrite EV in HV |- *.
  apply (same_metadata_spec b s a' e a Hst Hd) in Hsm. destruct (Hh path _ _ Hv HV) as [_ Heq].
  by rewrite <- (Heq a a' eq_refl eq_refl Hsm).
Qed.

Lemma describes_notexist b : describes b notexist_ None.
Proof. done. Qed.

Lemma describes_type b e v : describes b e v -> type_ (info e) = NOTEXIST <-> v = None.
Proof. destruct v as [a|]; cbn; [|done]. intros [-> _]. by destruct (v_dir a). Qed.

Lemma keep_entry_correct Hist s path e v :
  inv Hist s -> Hist path v -> describes (blobs s) e v ->
  exists e' db, keep_entry path e (db_ s) = (e', db) /\ describes (blobs s) e' v /\ inv Hist (mk db (blobs s)) /\
    (v <> None -> e' = e /\ db !! path = Some e).
Proof.
  intros Hi Hv Hd. unfold keep_entry. pose proof (describes_type _ _ _ Hd) as Ht. destruct Hi as [I1 I2].
  destruct (negb (is_in_read_only_location path) && bool_decide (type_ (info e) = NOTEXIST)) eqn:Ek.
  - apply andb_true_iff in Ek as [_ Ek%bool_decide_eq_true]. rewrite Ht in Ek. subst v. eexists _, _. split; [done|].
    split; [done|]. split; [|done]. split; [|done]. cbn [db_ blobs]. intros p e0 [_ Hp]%lookup_delete_Some. by apply I1.
  - eexists _, _. split; [done|]. split; [done|]. split; [|intros _; split; [done|apply lookup_insert_eq]]. split; [|done].
    cbn [db_ blobs]. intros p e0 [[<- <-]|[_ Hp]]%lookup_insert_Some; [|by apply I1]. exists v. split_and!; [done|done|].
    intros ->. rewrite (bool_decide_true _ (proj2 Ht eq_refl)), andb_true_r in Ek. by apply negb_false_iff.
Qed.

Lemma get_entry_with_statinfo_correct Hist E V s path fd stat_ptr :
  honest Hist -> Hist path (V path) -> faithful E V -> source_ok E path fd stat_ptr -> inv Hist s ->
  exists e db, get_entry_with_statinfo E path fd stat_ptr (db_ s) = Ret (e, db) /\ describes (blobs s) e (V path) /\
    inv Hist (mk db (blobs s)) /\ (V path <> None -> db !! path = Some e).
Proof.
  intros Hh HV Hf Hsrc Hi. unfold get_entry_with_statinfo, mbind, outcome_bind.
  destruct (update_statinfo_correct Hist E V (blobs s) path fd stat_ptr _ Hh HV Hf Hsrc (inv_fits _ _ path Hi)) as (e1 & -> & Hd).
  destruct (keep_entry_correct Hist s path e1 (V path) Hi HV Hd) as (e & db & -> & K1 & K2 & K3).
  exists e, db. split_and!; [done..|]. intros Hn. by destruct (K3 Hn) as [-> ->].
Qed.

Lemma has_blob_keeps n n' h : BlobCache.keeps n n' -> BlobCache.has_blob h n -> BlobCache.has_blob h n'.
Proof. intros Hk (a & c & name & data & mt & contents & P & Hs & Hr). exists a, c, name, data, mt, contents. split_and!; [done|by apply Hk|apply Hr..]. Qed.

Lemma describes_keeps b b' e v : BlobCache.keeps (BlobCache.root b) (BlobCache.root b') -> describes b e v -> describes b' e v.
Proof.
  intros Hk. destruct v as [a|]; [|done]. intros (D1 & D2 & D3 & D4 & D5 & D6 & D7 & D8). split_and!; try done.
  intros Hx. destruct (D7 Hx) as [? Hb]. split; [done|]. by eapply has_blob_keeps.
Qed.

Lemma inv_keeps Hist s b' : BlobCache.keeps (BlobCache.root (blobs s)) (BlobCache.root b') -> BlobCache.inv (BlobCache.root b') ->
  inv Hist s -> inv Hist (mk (db_ s) b').
Proof.
  intros Hk Hb [I1 I2]. split; [|done]. intros path e He. destruct (I1 path e He) as (v & ? & ? & ?). exists v.
  split_and!; [done| |done]. by eapply describes_keeps.
Qed.

(** The hash that is computed for a file that is described. *)
Lemma compute_hash_correct E V b path fd e a :
  faithful E V -> (forall f, fd = Some f -> opened E path = Some (fd_file f, fd_data f)) -> V path = Some a -> describes b e (Some a) ->
  exists r, (match fd with
      | None => Hashing.set_from_file (fst <$> opened E path) (Some (Build_stat_t (if bool_decide (type_ (info e) = ISREG) then 32768 else 16384) (size_ (info e)))) None
      | Some f => Hashing.set_from_fd (fd_file f) (Some (Build_stat_t (if bool_decide (type_ (info e) = ISREG) then 32768 else 16384) (size_ (info e)))) None
      end) = Ret r /\
    (forall h d n, r = Some (h, d, n) -> h = v_hash a) /\ (readable E V path -> is_Some r).
Proof.
  intros Hf Hfd HV (D1 & D2 & _). rewrite D1, D2.
  assert (Hfile : forall f contents, opened E path = Some (f, contents) ->
    exists r, Hashing.set_from_fd f (Some (Build_stat_t (if bool_decide ((if v_dir a then ISDIR else ISREG) = ISREG) then 32768 else 16384)
        (if v_dir a then -1 else v_size a))) None = Ret r /\
      (forall h d n, r = Some (h, d, n) -> h = v_hash a) /\ (readable E V path -> is_Some r)).
  { intros f contents Ho. pose proof (fa_read _ _ Hf path f contents a Ho HV) as Hr. unfold reads_as in Hr.
    assert (Hrd : readable E V path -> if v_dir a then is_Some (Hashing.listing f) else Hashing.reliable f contents).
    { intros Hx. destruct (Hx a HV) as (f' & c' & Ho' & Hx'). rewrite Ho in Ho'. by injection Ho' as -> ->. }
    destruct (v_dir a).
    - rewrite bool_decide_false by done. cbn. eexists. split; [done|]. destruct (Hashing.listing f) as [names|]; cbn.
      + split; [|by eexists]. intros h d n [= <- _ _]. by apply Hr.
      + split; [done|]. intros Hx. by destruct (Hrd Hx).
    - rewrite bool_decide_true by done. destruct Hr as (Hc & Hsz & Hh).
      destruct (Hashing.set_from_fd_regular f contents (Build_stat_t 32768 (v_size a)) Hc) as (r & Hr & Hs & Hrel); [done|cbn; lia|].
      exists r. split; [done|]. split; [|by intros Hx; apply Hrel, Hrd]. intros h d n Hx. destruct (Hs _ _ _ Hx) as (-> & _).
      cbn. by rewrite Hsz, Nat2Z.id, take_ge by lia. }
  destruct fd as [f|]; [by apply (Hfile _ (fd_data f)), Hfd|]. destruct (opened E path) as [[f contents]|] eqn:Eo.
  - cbn. by apply (Hfile f contents).
  - cbn. eexists. split; [done|]. split; [done|]. intros Hx. destruct (Hx a HV) as (? & ? & ? & _). congruence.
Qed.

Lemma describes_with_hash b e a stored :
  describes b e (Some a) -> (stored = true -> BlobCache.has_blob (v_hash a) (BlobCache.root b)) ->
  describes b (with_hash (v_hash a) stored e) (Some a).
Proof.
  intros (D1 & D2 & D3 & D4 & D5 & D6 & D7 & D8) Hs. cbn. split_and!; try done; [by right|].
  intros [Hx|Hx]%orb_true_iff; split; try done; [by apply D7|by apply Hs].
Qed.

(** The hash is brought up to date, without storing the file. *)
Lemma update_hash_correct Hist E V s path fd stat_ptr e (skip : bool) :
  honest Hist -> Hist path (V path) -> faithful E V -> source_ok E path fd stat_ptr ->
  (if skip then describes (blobs s) e (V path) else fits Hist (blobs s) path e) ->
  exists r e', update_hash E path fd stat_ptr e false skip (blobs s) = Ret (r, e', None, blobs s) /\
    describes (blobs s) e' (V path) /\
    (r = true -> forall a, V path = Some a -> hash_ (info e') = Some (v_hash a)) /\
    (r = true \/ V path <> None) /\ (readable E V path -> r = true).
Proof.
  intros Hh HV Hf Hsrc He. unfold update_hash.
  assert (Hst : exists e1, (if skip then Ret e else update_statinfo E path fd stat_ptr e) = Ret e1 /\ describes (blobs s) e1 (V path)).
  { destruct skip; [by exists e|]. by eapply update_statinfo_correct. }
  destruct Hst as (e1 & -> & Hd). unfold mbind at 1, outcome_bind at 1. pose proof (describes_type _ _ _ Hd) as Ht.
  destruct (V path) as [a|] eqn:EV.
  2:{ rewrite bool_decide_true by (by apply Ht). exists true, e1. split_and!; try done. by left. }
  rewrite bool_decide_false by (intros Hx; by apply Ht in Hx). pose proof Hd as (D1 & D2 & D3 & D4 & D5 & D6 & D7 & D8).
  rewrite (bool_decide_true (type_ (info e1) = ISREG \/ type_ (info e1) = ISDIR)) by (rewrite D1; destruct (v_dir a); auto). cbn [assert andb]. unfold mbind at 1, outcome_bind at 1.
  destruct (hash_known (info e1)) eqn:Ek.
  { exists true, e1. split_and!; try done; [|by left]. intros _ ? [= <-]. apply hash_known_Some in Ek as [h Hk].
    destruct D6 as [D6|D6]; [congruence|done]. }
  destruct (compute_hash_correct E V (blobs s) path fd e1 a Hf (proj2 Hsrc) EV Hd) as (r & Hr & Hc & Hrel).
  unfold mbind, outcome_bind. rewrite Hr. destruct r as [[[h d] n]|].
  - exists true, (with_hash h false e1). split; [done|]. rewrite (Hc _ _ _ eq_refl). split; [by apply describes_with_hash|].
    split_and!; [by intros _ ? [= <-]|by left|done].
  - exists false, e1. split_and!; try done; [by right|]. intros Hx. by destruct (Hrel Hx).
Qed.

Lemma get_entry_and_hash_correct Hist E V s path max_writers fd stat_ptr (skip : bool) :
  honest Hist -> Hist path (V path) -> faithful E V -> source_ok E path fd stat_ptr -> inv Hist s ->
  (skip = true -> describes (blobs s) (default new_entry (db_ s !! path)) (V path)) ->
  exists e db, get_entry_with_statinfo_and_hash E path max_writers fd stat_ptr false skip s = Ret (e, None, mk db (blobs s)) /\
    inv Hist (mk db (blobs s)) /\
    (type_ (info e) = DONTKNOW \/ type_ (info e) = NOTEXIST \/
     exists a, V path = Some a /\ describes (blobs s) e (Some a) /\ hash_ (info e) = Some (v_hash a)) /\
    (readable E V path -> writers_count E path <= max_writers -> describes (blobs s) e (V path)).
Proof.
  intros Hh HV Hf Hsrc Hi Hskip. unfold get_entry_with_statinfo_and_hash. destruct s as [db b].
  destruct (Z.ltb_spec max_writers (writers_count E path)) as [Hw|Hw].
  { exists dontknow_, db. split_and!; [done|done|by left|]. intros _ ?. lia. }
  set (s := mk db b) in *.
  destruct (update_hash_correct Hist E V s path fd stat_ptr (default new_entry (db_ s !! path)) skip Hh HV Hf Hsrc)
    as (r & e' & Hu & Hd & Hhash & Hor & Hrel); [destruct skip; [by apply Hskip|by apply inv_fits]|].
  unfold mbind, outcome_bind. rewrite Hu. destruct r; cbn [negb].
  - destruct (keep_entry_correct Hist s path e' (V path) Hi HV Hd) as (e & db' & -> & K1 & K2 & K3).
    exists e, db'. split_and!; [done|done| |done]. right. destruct (V path) as [a|]; [right|by left].
    exists a. destruct (K3 ltac:(done)) as [-> _]. split_and!; [done|done|]. by apply Hhash.
  - eexists notexist_, _. split; [done|]. split.
    { destruct Hi as [I1 I2]. split; [|done]. cbn [db_ blobs]. intros p e0 [_ Hp]%lookup_delete_Some. by apply I1. }
    split; [right; by left|]. intros Hx. by specialize (Hrel Hx).
Qed.

(** ** Matching a recorded state against the file system *)

Definition entry_of (v : view) : entry :=
  match v with
  | None => Absent
  | Some a => if v_dir a then Directory (v_hash a) else Regular (v_size a) (v_hash a)
  end.
Definition mode_matches (q : FileInfo.t) (v : view) : Prop :=
  match v with
  | None => True
  | Some a => Z.land (mode_ q) (mode_mask_ q) = Z.land (Z.land (v_mode a) 4095) (mode_mask_ q)
  end.
(** The recorded state is one the file system is in. *)
Definition matches (q : FileInfo.t) (v : view) : Prop := sat q (entry_of v) /\ mode_matches q v.

Lemma size_differs q s :
  (0 <=? size_ q) && negb (size_ q =? s) = false <-> size_ok q s.
Proof.
  unfold size_ok, size_known. destruct (Z.leb_spec 0 (size_ q)), (Z.eqb_spec (size_ q) s); cbn; intuition (try congruence; try lia).
Qed.

Lemma wf_hash_none q : FileInfo.wf q -> type_ q <> ISREG -> type_ q <> ISDIR -> hash_ q = None.
Proof. intros Hw H1' H2'. apply hash_known_None. destruct (hash_known q) eqn:Ek; [|done]. destruct (proj1 (proj2 (proj2 Hw)) Ek); done. Qed.

Lemma type_matches_correct b e v q :
  describes b e v -> FileInfo.wf q -> type_ q <> DONTKNOW ->
  exists r, type_matches q (info e) = Ret r /\
    match r with
    | Some true => sat q (entry_of v) /\ v = None
    | Some false => ~ sat q (entry_of v)
    | None => exists a, v = Some a /\ (sat q (entry_of v) <-> hash_ok q (v_hash a)) /\
                (is_Some (hash_ q) -> type_ (info e) = type_ q /\ (type_ q = ISREG \/ type_ q = ISDIR))
    end.
Proof.
  intros Hd Hw Hne. unfold type_matches, sat. pose proof (wf_hash_none q Hw) as Hnone.
  destruct v as [a|].
  2:{ cbn in Hd. rewrite Hd. destruct (type_ q) eqn:Et; try done; (eexists; split; [done|]); repeat case_bool_decide; cbn; try done; by intros []. }
  destruct Hd as (D1 & D2 & _). rewrite D1, D2. cbn [entry_of].
  pose proof (size_differs q (v_size a)) as Hsz. pose proof (hash_ok_unknown q (v_hash a)) as Hun.
  destruct (type_ q) eqn:Et; try done; (eexists; split; [done|]).
  - rewrite bool_decide_false by (by destruct (v_dir a)). rewrite Hnone in * by done. exists a.
    split_and!; [done| |by intros [? ?]]. destruct (v_dir a); intuition.
  - rewrite bool_decide_false by (by destruct (v_dir a)). destruct (v_dir a); by intros [].
  - rewrite Hnone in * by done. destruct (v_dir a); [by intros []|]. destruct (_ && _) eqn:Es.
    + intros Hx. apply Hsz in Hx. congruence.
    + exists a. split_and!; [done| |by intros [? ?]]. intuition.
  - destruct (v_dir a); [rewrite bool_decide_false by done; by intros []|]. rewrite bool_decide_true by done. cbn [negb].
    destruct (_ && _) eqn:Es; [intros [Hx _]; apply Hsz in Hx; congruence|]. exists a.
    split_and!; [done| |by auto]. split; [by intros [_ ?]|]. intros ?. split; [by apply Hsz|done].
  - destruct (v_dir a); [rewrite bool_decide_true by done|rewrite bool_decide_false by done; by intros []]. cbn [negb].
    exists a. split_and!; [done|done|by auto].
Qed.

Lemma source_none E path : source_ok E path None None.
Proof. by split. Qed.

Lemma file_info_matches_correct Hist E V s path q :
  honest Hist -> (forall p, Hist p (V p)) -> faithful E V -> inv Hist s -> FileInfo.wf q -> type_ q <> DONTKNOW ->
  exists r s', file_info_matches E path q s = Ret (r, s') /\ inv Hist s' /\ blobs s' = blobs s /\
    (r = true -> is_in_ignore_location path = false /\ matches q (V path)) /\
    (is_in_ignore_location path = false -> readable E V path -> writers_count E path <= 0 -> matches q (V path) -> r = true).
Proof.
  intros Hh HV Hf Hi Hw Hne. unfold file_info_matches. destruct (is_in_ignore_location path); [by exists false, s|].
  destruct (get_entry_with_statinfo_correct Hist E V s path None None Hh (HV path) Hf (source_none E path) Hi) as (e & db & Hg & Hd & Hi' & Hdb).
  unfold mbind at 1, outcome_bind at 1. rewrite Hg. clear Hg.
  destruct (type_matches_correct (blobs s) e (V path) q Hd Hw Hne) as (r & Hr & Hrs). unfold mbind at 1, outcome_bind at 1. rewrite Hr. clear Hr.
  unfold matches. destruct r as [[]|]; [| |].
  { destruct Hrs as [Hsat Hv]. exists true, (mk db (blobs s)). rewrite Hv in Hsat |- *. by split_and!. }
  { exists false, (mk db (blobs s)). split_and!; [done..|]. by intros _ _ _ [? _]. }
  destruct Hrs as (a & Ea & Hsat & Hty). rewrite Ea in *. cbn [mode_matches]. setoid_rewrite Hsat. clear Hsat.
  pose proof Hd as (_ & _ & D3 & _ & _ & D6 & _). rewrite D3.
  destruct (Z.eqb_spec (Z.land (mode_ q) (mode_mask_ q)) (Z.land (Z.land (v_mode a) 4095) (mode_mask_ q))) as [Hm|Hm]; cbn [negb].
  2:{ exists false, (mk db (blobs s)). split_and!; [done..|]. by intros _ _ _ [_ ?]. }
  unfold hash_ok. destruct (hash_ q) as [qh|] eqn:Eq.
  2:{ exists true, (mk db (blobs s)). by split_and!. }
  assert (Hqh : forall h, h = v_hash a -> bool_decide (h = qh) = true <-> (forall h', Some qh = Some h' -> h' = v_hash a)).
  { intros h ->. rewrite bool_decide_eq_true. split; [by intros -> ? [= ->]|]. intros Hx. by symmetry; apply Hx. }
  destruct (Hty ltac:(by eexists)) as [Hte Htq]. rewrite (bool_decide_true (type_ q = ISREG \/ type_ q = ISDIR \/ type_ q = NOTEXIST_OR_ISREG)) by (destruct Htq; auto). cbn [assert].
  unfold mbind at 1, outcome_bind at 1. rewrite (bool_decide_true (type_ (info e) = type_ q)) by done. rewrite orb_true_r. cbn [assert].
  unfold mbind at 1, outcome_bind at 1. destruct (hash_ (info e)) as [h|] eqn:Eh.
  { exists (bool_decide (h = qh)), (mk db (blobs s)). destruct D6 as [D6|D6]; [done|]. injection D6 as ->.
    rewrite (Hqh _ eq_refl). split_and!; [done..|by intros|]. by intros _ _ _ [? _]. }
  destruct (get_entry_and_hash_correct Hist E V (mk db (blobs s)) path 0 None None true Hh (HV path) Hf (source_none E path) Hi')
    as (e' & db' & Hg & Hi2 & Hcase & Hrel).
  { intros _. cbn [db_ blobs]. rewrite Hdb by done. by rewrite Ea. }
  unfold mbind, outcome_bind. rewrite Hg. rewrite Ea in *. cbn [blobs] in *.
  assert (Hfin : type_ (info e') = ISREG \/ type_ (info e') = ISDIR -> hash_ (info e') = Some (v_hash a)).
  { intros Ht. destruct Hcase as [Hx|[Hx|(a' & [= <-] & _ & Hx)]]; [destruct Ht; congruence|destruct Ht; congruence|done]. }
  case_bool_decide as Ht; cbn [negb].
  - rewrite (Hfin Ht). exists (bool_decide (v_hash a = qh)), (mk db' (blobs s)). rewrite (Hqh _ eq_refl).
    split_and!; [done..|by intros|]. by intros _ _ _ [? _].
  - exists false, (mk db' (blobs s)). split_and!; [done..|]. intros _ Hrd Hwc _. destruct Ht.
    destruct (Hrel Hrd Hwc) as [-> _]. destruct (v_dir a); auto.
Qed.

(** ** The other queries *)

Lemma is_dir_type (d : bool) : bool_decide ((if d then ISDIR else ISREG) = ISDIR) = d.
Proof. destruct d; [by apply bool_decide_true|by apply bool_decide_false]. Qed.

Definition spec_statinfo (V : cstr -> view) (path : cstr) : option (bool * option Z) :=
  if is_in_ignore_location path then None
  else a ← V path; Some (v_dir a, if v_dir a then None else Some (v_size a)).

Lemma get_statinfo_correct Hist E V s path :
  honest Hist -> (forall p, Hist p (V p)) -> faithful E V -> inv Hist s ->
  exists s', get_statinfo E path s = Ret (spec_statinfo V path, s') /\ inv Hist s' /\ blobs s' = blobs s.
Proof.
  intros Hh HV Hf Hi. unfold get_statinfo, spec_statinfo. destruct (is_in_ignore_location path); [by exists s|].
  destruct (is_in_read_only_location path).
  - destruct (get_entry_with_statinfo_correct Hist E V s path None None Hh (HV path) Hf (source_none E path) Hi) as (e & db & Hg & Hd & Hi' & _).
    unfold mbind at 1, outcome_bind. rewrite Hg. exists (mk db (blobs s)). split; [|done]. pose proof (describes_type _ _ _ Hd) as Ht.
    destruct (V path) as [a|].
    + rewrite bool_decide_false by (intros Hx; by apply Ht in Hx). destruct Hd as (-> & -> & _). rewrite is_dir_type. cbn. by destruct (v_dir a).
    + by rewrite bool_decide_true by (by apply Ht).
  - exists s. split; [|done]. pose proof (fa_stat _ _ Hf path) as Hs.
    destruct (stat64 E path) as [sb|], (V path) as [a|]; try done.
    + rewrite (stat_kinds _ _ Hs). destruct Hs as (-> & _ & Hsz & _). cbn. destruct (v_dir a); [done|]. by rewrite Hsz.
    + by destruct Hs as [-> ->].
Qed.

Definition spec_hash (V : cstr -> view) (path : cstr) : option (Hash.t * bool * option Z) :=
  if is_in_ignore_location path then None
  else a ← V path; Some (v_hash a, v_dir a, if v_dir a then None else Some (v_size a)).

Lemma get_hash_correct Hist E V s path max_writers fd stat_ptr :
  honest Hist -> (forall p, Hist p (V p)) -> faithful E V -> inv Hist s -> source_ok E path fd stat_ptr ->
  exists r s', get_hash E path max_writers fd stat_ptr s = Ret (r, s') /\ inv Hist s' /\ blobs s' = blobs s /\
    (r = None \/ r = spec_hash V path) /\
    (readable E V path -> writers_count E path <= max_writers -> r = spec_hash V path).
Proof.
  intros Hh HV Hf Hi Hsrc. unfold get_hash, spec_hash. destruct (is_in_ignore_location path); [exists None, s; split_and!; auto|].
  destruct (get_entry_and_hash_correct Hist E V s path max_writers fd stat_ptr false Hh (HV path) Hf Hsrc Hi) as (e & db & Hg & Hi' & Hc & Hrel); [done|].
  unfold mbind at 1, outcome_bind. rewrite Hg. case_bool_decide as Ht.
  - exists None, (mk db (blobs s)). split_and!; [done|done|done|by left|]. intros Hrd Hw. specialize (Hrel Hrd Hw).
    destruct (V path) as [a|]; [|done]. destruct Hrel as [Hx _]. rewrite Hx in Ht. destruct (v_dir a), Ht; done.
  - destruct Hc as [?|[?|(a & -> & Hd & Hh')]]; [tauto|tauto|]. eexists _, (mk db (blobs s)). split; [done|].
    destruct Hd as (-> & -> & _). unfold hash_or_zero. rewrite Hh', is_dir_type. cbn. split_and!; [done|done|right|intros _ _]; by destruct (v_dir a).
Qed.

Definition spec_static (V : cstr -> view) (path : cstr) : option bool :=
  if is_in_ignore_location path then None else v_static <$> V path.

Lemma get_is_static_correct Hist E V s path :
  honest Hist -> (forall p, Hist p (V p)) -> faithful E V -> inv Hist s ->
  exists s', get_is_static E path s = Ret (spec_static V path, s') /\ inv Hist s' /\ blobs s' = blobs s.
Proof.
  intros Hh HV Hf Hi. unfold get_is_static, spec_static. destruct (is_in_ignore_location path); [by exists s|].
  destruct (get_entry_with_statinfo_correct Hist E V s path None None Hh (HV path) Hf (source_none E path) Hi) as (e & db & Hg & Hd & Hi' & Hdb).
  unfold mbind, outcome_bind. rewrite Hg. pose proof (describes_type _ _ _ Hd) as Ht. destruct (V path) as [a|] eqn:EV.
  2:{ rewrite bool_decide_true by (left; by apply Ht). by exists (mk db (blobs s)). }
  pose proof Hd as (D1 & D2 & D3 & D4 & D5 & D6 & D7 & D8).
  rewrite bool_decide_false by (rewrite D1; destruct (v_dir a); by intros [?|?]). destruct (is_static_checked e).
  { exists (mk db (blobs s)). by rewrite D8. }
  cbn [is_static]. rewrite (fa_static _ _ Hf path a EV). eexists. split; [done|]. split; [|done]. destruct Hi' as [I1 I2].
  split; [|done]. cbn [db_ blobs]. intros p e0 [[<- <-]|[_ Hp]]%lookup_insert_Some; [|by apply I1].
  exists (Some a). split_and!; [by rewrite <- EV| |done]. cbn. by split_and!.
Qed.

(** ** Storing *)

Lemma keeps_refl n : BlobCache.keeps n n.
Proof. by intros p. Qed.
#[local] Hint Resolve keeps_refl : core.

Lemma update_hash_store_correct Hist E V s path fd stat_ptr e :
  honest Hist -> Hist path (V path) -> faithful E V -> source_ok E path fd stat_ptr -> is_Some (opened E path) -> inv Hist s ->
  fits Hist (blobs s) path e ->
  exists r e' sb b', update_hash E path fd stat_ptr e true false (blobs s) = Ret (r, e', sb, b') /\
    describes b' e' (V path) /\ BlobCache.inv (BlobCache.root b') /\
    BlobCache.keeps (BlobCache.root (blobs s)) (BlobCache.root b') /\
    (r = true -> forall a, V path = Some a -> sb = Some (size_ (info e')) /\ hash_ (info e') = Some (v_hash a) /\
                             BlobCache.has_blob (v_hash a) (BlobCache.root b')) /\
    (V path = None \/ r = false -> sb = None).
Proof.
  intros Hh HV Hf Hsrc [[f0 c0] Hop] Hi He. unfold update_hash. pose proof (inv_blobs _ _ Hi) as Hib.
  destruct (update_statinfo_correct Hist E V (blobs s) path fd stat_ptr e Hh HV Hf Hsrc He) as (e1 & -> & Hd).
  unfold mbind at 1, outcome_bind at 1. pose proof (describes_type _ _ _ Hd) as Ht.
  destruct (V path) as [a|] eqn:EV.
  2:{ rewrite bool_decide_true by (by apply Ht). exists true, e1, None, (blobs s). by split_and!. }
  rewrite bool_decide_false by (intros Hx; by apply Ht in Hx). pose proof Hd as (D1 & D2 & D3 & D4 & D5 & D6 & D7 & D8).
  rewrite (bool_decide_true (type_ (info e1) = ISREG \/ type_ (info e1) = ISDIR)) by (rewrite D1; destruct (v_dir a); auto).
  cbn [assert andb]. unfold mbind at 1, outcome_bind at 1. destruct (is_stored e1) eqn:Es; cbn [negb].
  { destruct (D7 eq_refl) as [Dh Db]. rewrite (proj2 (hash_known_Some _)) by (by eexists).
    exists true, e1, (Some (size_ (info e1))), (blobs s). split_and!; try done; [by intros _ ? [= <-]|by intros [?|?]]. }
  destruct (v_dir a) eqn:Ed.
  { rewrite D1, bool_decide_false by done. exists false, e1, None, (blobs s). by split_and!. }
  rewrite D1, bool_decide_true by done. cbn [negb].
  assert (Hfile : file_of E path fd = Some (f0, c0)).
  { unfold file_of. destruct fd as [f|]; [|done]. destruct Hsrc as [_ Hx]. specialize (Hx f eq_refl). rewrite Hop in Hx. by injection Hx as -> ->. }
  pose proof (fa_read _ _ Hf path f0 c0 a Hop EV) as Hr. unfold reads_as in Hr. rewrite Ed in Hr. destruct Hr as (_ & Hsz & Hhash).
  rewrite Hfile, D2, Hsz. cbn [fmap option_fmap option_map snd].
  destruct (BlobCache.store_file_correct SE (writers_count E path) 0 c0 0 (blobs s) HSE Hdebug Hib ltac:(lia)) as (r & b' & Hst & Hcase).
  unfold mbind, outcome_bind. rewrite Hst. destruct r as [key|].
  - destruct Hcase as [(Hk & Hib' & Hb & Hkeep & _) _]. cbn in Hk. rewrite drop_0, Hhash in Hk. subst key.
    assert (Hd' : describes b' (with_hash (v_hash a) true e1) (Some a)).
    { apply describes_with_hash; [by eapply describes_keeps|done]. }
    eexists true, _, _, b'. split; [done|]. split.
    { destruct Hd' as (X1 & X2 & X3 & X4 & X5 & X6 & X7 & X8). unfold describes. rewrite Ed in X1, X2 |- *.
      cbn in *. by split_and!. }
    split_and!; [done|done| |by intros [?|?]]. intros _ ? [= <-]. cbn. by rewrite D2, Hsz.
  - subst b'. exists false, e1, None, (blobs s). by split_and!.
Qed.

Lemma read_all_correct f contents fuel buffer :
  Hashing.has_contents f contents -> buffer = take (length buffer) contents ->
  (length contents - length buffer <= fuel)%nat ->
  exists buf, read_all fuel f (Z.of_nat (length contents)) buffer = Ret buf /\ buf = take (length buf) contents.
Proof.
  intros Hc. revert buffer. induction fuel as [|fuel IH]; intros buffer Hb Hfuel; cbn [read_all].
  all: destruct (Z.ltb_spec (Z.of_nat (length buffer)) (Z.of_nat (length contents))); [|by exists buffer].
  { lia. }
  destruct (Hashing.pread f _ _) as [[|x bytes]|] eqn:Ep; [by exists buffer| |by exists buffer].
  destruct (Hashing.hc_pread _ _ Hc (Z.of_nat (length contents) - Z.of_nat (length buffer)) (Z.of_nat (length buffer)) (x :: bytes)
    ltac:(lia) ltac:(lia) Ep) as (Hl & Hbytes & _). apply IH.
  - rewrite Hb, Hbytes at 1. rewrite Nat2Z.id, length_app, take_take_drop. done.
  - rewrite length_app. cbn. lia.
Qed.

Lemma read_inline E V s path fd e a (inline : bool) :
  faithful E V -> (forall f, fd = Some f -> opened E path = Some (fd_file f, fd_data f)) -> is_Some (opened E path) ->
  V path = Some a -> describes (blobs s) e (Some a) -> v_dir a = false ->
  exists data, (if inline && bool_decide (type_ (info e) = ISREG) && (0 <? size_ (info e)) && (size_ (info e) <=? max_inline_blob_size) then
      match file_of E path fd with
      | None => Ret None
      | Some (f, _) =>
          buffer ← read_all (Z.to_nat (size_ (info e))) f (size_ (info e)) [];
          Ret (if Z.of_nat (length buffer) =? size_ (info e) then Some buffer else None)
      end
    else Ret None) = Ret data /\
    forall bytes, data = Some bytes -> XXH3_128bits bytes = v_hash a /\ Z.of_nat (length bytes) = v_size a.
Proof.
  intros Hf Hfd [[f c] Hop] HV (_ & D2 & _) Hdir. rewrite Hdir in D2. destruct (inline && _ && _ && _); [|by exists None].
  assert (Hfile : file_of E path fd = Some (f, c)).
  { unfold file_of. destruct fd as [f'|]; [|done]. specialize (Hfd f' eq_refl). congruence. }
  pose proof (fa_read _ _ Hf path f c a Hop HV) as Hr. unfold reads_as in Hr. rewrite Hdir in Hr. destruct Hr as (Hc & Hsz & Hh).
  rewrite Hfile, D2, Hsz. destruct (read_all_correct f c (Z.to_nat (Z.of_nat (length c))) [] Hc eq_refl) as (buf & Hb & Hbuf); [cbn; lia|].
  unfold mbind, outcome_bind. rewrite Hb. eexists. split; [done|]. intros bytes. destruct (Z.eqb_spec (Z.of_nat (length buf)) (Z.of_nat (length c))) as [El|]; [|done].
  intros [= <-]. rewrite take_ge in Hbuf by lia. by subst buf.
Qed.

(** When the stored bytes are set, the answer is the hash of the file, which is in the blob
    cache, and data that is inlined is the contents of the file; when they are not, nothing is
    said of a file that is there but a zero hash; only ignored locations get no answer. *)
Record stored_ok (V : cstr -> view) (path : cstr) (r : option (Hash.t * option Z * option (list Z))) (b : BlobCache.t) : Prop := {
  so_stored h n data : r = Some (h, Some n, data) ->
    is_in_ignore_location path = false /\
    exists a, V path = Some a /\ h = v_hash a /\ BlobCache.has_blob h (BlobCache.root b) /\
      (v_dir a = false -> n = v_size a /\ forall bytes, data = Some bytes -> XXH3_128bits bytes = h /\ Z.of_nat (length bytes) = n);
  so_not_stored h data : r = Some (h, None, data) -> V path <> None -> h = Hash.mk 0 0 /\ data = None;
  so_ignored : r = None <-> is_in_ignore_location path = true
}.

Lemma get_entry_store_correct Hist E V s path max_writers fd stat_ptr :
  honest Hist -> Hist path (V path) -> faithful E V -> source_ok E path fd stat_ptr -> is_Some (opened E path) -> inv Hist s ->
  exists e sb s', get_entry_with_statinfo_and_hash E path max_writers fd stat_ptr true false s = Ret (e, sb, s') /\
    inv Hist s' /\ BlobCache.keeps (BlobCache.root (blobs s)) (BlobCache.root (blobs s')) /\
    (sb = None /\ (type_ (info e) = DONTKNOW \/ type_ (info e) = NOTEXIST) /\ (V path <> None -> hash_ (info e) = None) \/
     exists a, V path = Some a /\ describes (blobs s') e (Some a) /\ sb = Some (size_ (info e)) /\
       hash_ (info e) = Some (v_hash a) /\ BlobCache.has_blob (v_hash a) (BlobCache.root (blobs s'))).
Proof.
  intros Hh HV Hf Hsrc Hop Hi. unfold get_entry_with_statinfo_and_hash.
  destruct (max_writers <? writers_count E path); [exists dontknow_, None, s; split_and!; auto; left; auto|].
  destruct (update_hash_store_correct Hist E V s path fd stat_ptr _ Hh HV Hf Hsrc Hop Hi (inv_fits _ _ path Hi))
    as (r & e' & sb & b' & Hu & Hd & Hib & Hk & Hok & Hnone).
  unfold mbind, outcome_bind. rewrite Hu. pose proof (inv_keeps Hist s b' Hk Hib Hi) as Hi'. destruct r; cbn [negb].
  - destruct (keep_entry_correct Hist (mk (db_ s) b') path e' (V path) Hi' HV Hd) as (e & db' & Hke & K1 & K2 & K3).
    cbn [db_] in Hke. rewrite Hke. exists e, sb, (mk db' b'). split_and!; [done..|]. destruct (V path) as [a|].
    + right. exists a. destruct (K3 ltac:(done)) as [-> _]. cbn [blobs] in *. destruct (Hok eq_refl a eq_refl) as (? & ? & ?). done.
    + left. split; [by apply Hnone; left|]. split; [by right|done].
  - eexists notexist_, sb, _. split; [done|]. split; [|split; [done|left; split; [by apply Hnone; right|split; [by right|done]]]].
    destruct Hi' as [I1 I2]. split; [|done]. cbn [db_ blobs]. intros p e0 [_ Hp]%lookup_delete_Some. by apply I1.
Qed.

Lemma store_and_get_hash_correct Hist E V s path max_writers fd stat_ptr inline :
  honest Hist -> (forall p, Hist p (V p)) -> faithful E V -> inv Hist s -> source_ok E path fd stat_ptr -> is_Some (opened E path) ->
  exists r s', store_and_get_hash E path max_writers fd stat_ptr inline s = Ret (r, s') /\ inv Hist s' /\
    BlobCache.keeps (BlobCache.root (blobs s)) (BlobCache.root (blobs s')) /\ stored_ok V path r (blobs s').
Proof.
  intros Hh HV Hf Hi Hsrc Hop. unfold store_and_get_hash. destruct (is_in_ignore_location path) eqn:Eig.
  { exists None, s. split_and!; [done..|]. by split. }
  destruct (get_entry_store_correct Hist E V s path max_writers fd stat_ptr Hh (HV path) Hf Hsrc Hop Hi) as (e & sb & s' & Hg & Hi' & Hk & Hcase).
  unfold mbind at 1, outcome_bind at 1. rewrite Hg. destruct Hcase as [(-> & Ht & Hz)|(a & EV & Hd & -> & Hhash & Hb)].
  { rewrite (bool_decide_false (type_ (info e) = ISREG)) by (destruct Ht; congruence). rewrite andb_false_r. cbn [andb].
    eexists _, s'. split_and!; [done..|]. split; [done| |by rewrite Eig].
    intros h data [= <- <-] Hne. split; [|done]. unfold hash_or_zero. by rewrite Hz. }
  unfold hash_or_zero. rewrite Hhash. cbn [default]. destruct (v_dir a) eqn:Ed.
  { destruct Hd as (-> & _). rewrite Ed, bool_decide_false, andb_false_r by done. cbn [andb]. eexists _, s'. split_and!; [done..|].
    split; [|done|by rewrite Eig]. intros h n data [= <- <- <-]. split; [done|]. exists a. by rewrite Ed. }
  destruct (read_inline E V s' path fd e a inline Hf (proj2 Hsrc) Hop EV Hd Ed) as (data & Hr & Hdata).
  destruct Hd as (D1 & D2 & _). rewrite Ed in D2.
  exists (Some (v_hash a, Some (size_ (info e)), data)), s'. split_and!; [|done|done|].
  - destruct (inline && _ && _ && _); [|by injection Hr as <-]. destruct (file_of E path fd) as [[f c]|]; [|by injection Hr as <-].
    unfold mbind, outcome_bind in Hr |- *. destruct (read_all _ _ _ _); [|done|done]. injection Hr as <-. done.
  - split; [|done|by rewrite Eig]. intros h n data' [= <- <- <-]. split; [done|]. exists a. split_and!; [done..|]. intros _.
    rewrite D2. split; [done|]. apply Hdata.
Qed.

(** ** A build: operations while the file system changes *)

Inductive op :=
| GetStatinfo (path : cstr)
| GetHash (path : cstr) (max_writers : Z) (fd : option fd_t) (stat_ptr : option stat64_t)
| GetIsStatic (path : cstr)
| StoreAndGetHash (path : cstr) (max_writers : Z) (fd : option fd_t) (stat_ptr : option stat64_t) (inline : bool)
| FileInfoMatches (path : cstr) (query : FileInfo.t).

Inductive answer :=
| AStatinfo (r : option (bool * option Z))
| AHash (r : option (Hash.t * bool * option Z))
| AStatic (r : option bool)
| AStored (r : option (Hash.t * option Z * option (list Z)))
| AMatches (r : bool).

Definition step (E : Env) (o : op) (s : t) : outcome (answer * t) :=
  match o with
  | GetStatinfo path => '(r, s) ← get_statinfo E path s; Ret (AStatinfo r, s)
  | GetHash path mw fd sp => '(r, s) ← get_hash E path mw fd sp s; Ret (AHash r, s)
  | GetIsStatic path => '(r, s) ← get_is_static E path s; Ret (AStatic r, s)
  | StoreAndGetHash path mw fd sp inline => '(r, s) ← store_and_get_hash E path mw fd sp inline s; Ret (AStored r, s)
  | FileInfoMatches path query => '(r, s) ← file_info_matches E path query s; Ret (AMatches r, s)
  end.

Fixpoint run (trace : list (Env * (cstr -> view) * op)) (s : t) : outcome (list answer * t) :=
  match trace with
  | [] => Ret ([], s)
  | (E, _, o) :: trace => '(a, s) ← step E o s; '(l, s) ← run trace s; Ret (a :: l, s)
  end.

(** How the operations are called. *)
Definition called_well (E : Env) (o : op) : Prop :=
  match o with
  | GetStatinfo _ | GetIsStatic _ => True
  | GetHash path _ fd sp => source_ok E path fd sp
  | StoreAndGetHash path _ fd sp _ => source_ok E path fd sp /\ is_Some (opened E path)
  | FileInfoMatches _ q => FileInfo.wf q /\ type_ q <> DONTKNOW
  end.

(** The answers of a file system that is asked every time; [b]: the blob cache at the end. *)
Definition uncached (b : BlobCache.t) (x : Env * (cstr -> view) * op) (r : answer) : Prop :=
  let '(E, V, o) := x in
  match o, r with
  | GetStatinfo path, AStatinfo r => r = spec_statinfo V path
  | GetHash path mw _ _, AHash r =>
      (r = None \/ r = spec_hash V path) /\ (readable E V path -> writers_count E path <= mw -> r = spec_hash V path)
  | GetIsStatic path, AStatic r => r = spec_static V path
  | StoreAndGetHash path _ _ _ _, AStored r => stored_ok V path r b
  | FileInfoMatches path q, AMatches r =>
      (r = true -> is_in_ignore_location path = false /\ matches q (V path)) /\
      (is_in_ignore_location path = false -> readable E V path -> writers_count E path <= 0 -> matches q (V path) -> r = true)
  | _, _ => False
  end.

Lemma uncached_keeps b b' x r :
  BlobCache.keeps (BlobCache.root b) (BlobCache.root b') -> uncached b x r -> uncached b' x r.
Proof.
  intros Hk. destruct x as [[E V] o]. destruct o, r; try done. cbn. intros [Hs Hns Hig0]. split; [|done|done].
  intros h n data Hr. destruct (Hs h n data Hr) as (Hig & a & ? & ? & Hb & ?). split; [done|]. exists a. split_and!; [done|done| |done]. by eapply has_blob_keeps.
Qed.

Lemma step_correct Hist E V o s :
  honest Hist -> (forall p, Hist p (V p)) -> faithful E V -> called_well E o -> inv Hist s ->
  exists a s', step E o s = Ret (a, s') /\ inv Hist s' /\ BlobCache.keeps (BlobCache.root (blobs s)) (BlobCache.root (blobs s')) /\
    uncached (blobs s') (E, V, o) a.
Proof.
  intros Hh HV Hf Hc Hi. destruct o as [path|path mw fd sp|path|path mw fd sp inline|path q]; cbn [step called_well uncached] in *;
    unfold mbind, outcome_bind.
  - destruct (get_statinfo_correct Hist E V s path Hh HV Hf Hi) as (s' & -> & Hi' & Hb). eexists _, s'. rewrite Hb. by split_and!.
  - destruct (get_hash_correct Hist E V s path mw fd sp Hh HV Hf Hi Hc) as (r & s' & -> & Hi' & Hb & Hr). eexists _, s'. rewrite Hb. by split_and!.
  - destruct (get_is_static_correct Hist E V s path Hh HV Hf Hi) as (s' & -> & Hi' & Hb). eexists _, s'. rewrite Hb. by split_and!.
  - destruct Hc as [Hsrc Hop]. destruct (store_and_get_hash_correct Hist E V s path mw fd sp inline Hh HV Hf Hi Hsrc Hop) as (r & s' & -> & Hi' & Hk & Hr).
    eexists _, s'. by split_and!.
  - destruct Hc as [Hw Hne]. destruct (file_info_matches_correct Hist E V s path q Hh HV Hf Hi Hw Hne) as (r & s' & -> & Hi' & Hb & Hr).
    eexists _, s'. rewrite Hb. by split_and!.
Qed.

(** C17. The hash cache can be used in place of the file system: if read-only locations do not
    change and files with equal type, size, time stamp and inode are equal, also in their mode
    (which [chmod()] need not respect: [chmod_not_noticed]), then in every sequence of queries, between which files may change, each query returns and is answered as it would be
    by looking at the files at that moment: the type, size, hash and kind of linking are those
    of the file, a recorded state matches exactly when the file system is in that state and
    the file can be read and is not being written.  A hash that is reported with the number of
    stored bytes is that of the file, the blob of which is still in the blob cache at the end;
    without that number the file was not stored, and if it is there the reported hash is zero,
    although the call succeeds ([store_failure_is_success]). *)
Theorem hash_cache_refines Hist trace s :
  honest Hist -> inv Hist s ->
  Forall (fun '(E, V, o) => (forall p, Hist p (V p)) /\ faithful E V /\ called_well E o) trace ->
  exists answers s', run trace s = Ret (answers, s') /\ inv Hist s' /\ Forall2 (uncached (blobs s')) trace answers.
Proof.
  intros Hh Hi Ht.
  assert (Hgo : exists answers s', run trace s = Ret (answers, s') /\ inv Hist s' /\
    BlobCache.keeps (BlobCache.root (blobs s)) (BlobCache.root (blobs s')) /\ Forall2 (uncached (blobs s')) trace answers).
  { revert s Hi. induction Ht as [|[[E V] o] trace (HV & Hf & Hc) Ht IH]; intros s Hi; cbn [run]; [by exists [], s|].
    destruct (step_correct Hist E V o s Hh HV Hf Hc Hi) as (a & s1 & Hs & Hi1 & Hk1 & Ha).
    destruct (IH s1 Hi1) as (l & s2 & Hr & Hi2 & Hk2 & Hl). unfold mbind, outcome_bind. rewrite Hs, Hr.
    exists (a :: l), s2. split_and!; [done|done| |constructor; [|done]; by eapply uncached_keeps].
    intros p data mt Hp. by apply Hk2, Hk1. }
  destruct Hgo as (answers & s' & ? & ? & _ & ?). by exists answers, s'.
Qed.
End HashCache.

#[local] Existing Instances Hashing.demo_xxhash Hashing.demo_xxhash_ok.

(** A file that is rewritten between two queries. *)
Definition demo_path : cstr := cs "/a".
Definition demo_snap (contents : list Z) (mode when : Z) : snapshot :=
  mkSnap false (Z.of_nat (length contents)) (XXH3_128bits contents) mode (when, 0) 7 false.
Definition demo_view (contents : list Z) (mode when : Z) (path : cstr) : view :=
  if bool_decide (path = demo_path) then Some (demo_snap contents mode when) else None.
Definition demo_env (contents : list Z) (mode when writers : Z) : Env :=
  mkEnv (fun path => if bool_decide (path = demo_path)
                     then Some (mkStat (Build_stat_t mode (Z.of_nat (length contents))) (when, 0) 7) else None)
        (fun path => if bool_decide (path = demo_path) then Some (Hashing.unmapped_file contents, contents) else None)
        (fun _ => false) (fun _ => writers).

Lemma demo_faithful contents mode when writers :
  S_ISREG mode = true -> S_ISDIR mode = false -> faithful (demo_env contents mode when writers) (demo_view contents mode when).
Proof.
  intros Hr Hd. split; unfold demo_env, demo_view, stat_as; cbn [stat64 opened is_statically_linked].
  - intros path. case_bool_decide; [|done]. by split_and!.
  - intros path f c a. case_bool_decide; [|done]. intros [= <- <-] [= <-]. split; [apply Hashing.unmapped_file_reliable|done].
  - intros path a. case_bool_decide; [|done]. by intros [= <-].
Qed.

Definition demo_hist (path : cstr) (v : view) : Prop :=
  v = demo_view [1; 2; 3] 33188 10 path \/ v = demo_view [4; 5; 6] 33188 20 path.

Lemma demo_honest : honest (fun _ => false) demo_hist.
Proof.
  intros path v v' Hv Hv'. split; [done|]. intros a b Ha Hb (_ & _ & Hm & _). revert Ha Hb. unfold demo_hist, demo_view in *.
  case_bool_decide; destruct Hv as [->| ->], Hv' as [->| ->]; try done; intros [= <-] [= <-]; done.
Qed.

Definition demo_query : FileInfo.t := FileInfo.mk ISREG 3 (Some (XXH3_128bits [4; 5; 6])) 0 0.
Lemma demo_query_wf : FileInfo.wf demo_query.
Proof. split_and!; [by left|done|by left|done]. Qed.
Definition demo_state : t := mk ∅ (BlobCache.mk (CacheDir.Dir []) 0).

Lemma demo_inv : @inv Hashing.demo_xxhash (BlobCache.demo_config false) (fun _ => false) demo_hist demo_state.
Proof. split; [intros path e He; destruct (lookup_empty_Some (M := gmap cstr) path e He)|apply BlobCache.empty_inv]. Qed.

Lemma hash_cache_refines_witness :
  exists s', @run Hashing.demo_xxhash (BlobCache.demo_config false) 4096 BlobCache.demo_store_env (fun _ => false) (fun _ => false)
    [(demo_env [1; 2; 3] 33188 10 0, demo_view [1; 2; 3] 33188 10, StoreAndGetHash demo_path 0 None None true);
     (demo_env [4; 5; 6] 33188 20 0, demo_view [4; 5; 6] 33188 20, FileInfoMatches demo_path demo_query)] demo_state =
    Ret ([AStored (Some (XXH3_128bits [1; 2; 3], Some 3, Some [1; 2; 3])); AMatches true], s').
Proof.
  destruct (@hash_cache_refines Hashing.demo_xxhash (BlobCache.demo_config false) 4096 BlobCache.demo_store_env
    (fun _ => false) (fun _ => false) _ (BlobCache.demo_config_ok false) eq_refl BlobCache.demo_store_env_ok demo_hist
    [(demo_env [1; 2; 3] 33188 10 0, demo_view [1; 2; 3] 33188 10, StoreAndGetHash demo_path 0 None None true);
     (demo_env [4; 5; 6] 33188 20 0, demo_view [4; 5; 6] 33188 20, FileInfoMatches demo_path demo_query)] demo_state)
    as (answers & s' & Hr & _).
  - apply demo_honest.
  - apply demo_inv.
  - constructor; [|constructor; [|constructor]].
    + split_and!; [by left|by apply demo_faithful|split; [done|by eexists]].
    + split_and!; [by right|by apply demo_faithful|split; [apply demo_query_wf|done]].
  - exists s'. vm_compute in Hr. injection Hr as <- <-. vm_compute. reflexivity.
Defined.

(** A change of the mode alone is not noticed: after [chmod()] a recorded state with the old
    mode still matches and one with the actual mode does not. *)
Theorem chmod_not_noticed :
  exists s',
    @run Hashing.demo_xxhash (BlobCache.demo_config false) 4096 BlobCache.demo_store_env (fun _ => false) (fun _ => false)
      [(demo_env [1] 33188 10 0, demo_view [1] 33188 10, GetHash demo_path 0 None None);
       (demo_env [1] 33261 10 0, demo_view [1] 33261 10, FileInfoMatches demo_path (FileInfo.mk ISREG 1 None 420 4095));
       (demo_env [1] 33261 10 0, demo_view [1] 33261 10, FileInfoMatches demo_path (FileInfo.mk ISREG 1 None 493 4095))] demo_state =
    Ret ([AHash (Some (XXH3_128bits [1], false, Some 1)); AMatches true; AMatches false], s').
Proof. eexists. vm_compute. reflexivity. Qed.

(** A file that cannot be stored since it is open for writing is reported as stored, with a
    hash that is zero. *)
Theorem store_failure_is_success :
  exists s',
    @store_and_get_hash Hashing.demo_xxhash (BlobCache.demo_config false) 4096 BlobCache.demo_store_env (fun _ => false) (fun _ => false)
      (demo_env [1] 33188 10 1) demo_path 0 None None false demo_state = Ret (Some (Hash.mk 0 0, None, None), s').
Proof. eexists. vm_compute. reflexivity. Qed.

End HashCache.
