(* ===== verification/Fingerprint.v ===== *)
(** The fingerprint of a process ([ExecedProcessCacher::fingerprint()] in
    src/firebuild/execed_process_cacher.cc): the data that is hashed to find cache entries. *)

From stdpp Require Import base list strings option gmap.
From Stdlib Require Import ZArith Lia Ascii.
From S2P Require Import Prelude Base64 Paths FileNames FileUsage World Hashing Storage HashCache.

Local Open Scope Z_scope.

Module Fingerprint.
Import Code.

Definition kFingerprintVersion : Z := 0.

(** An [int] in memory. *)
Definition int_bytes (i : Z) : list Z := le_bytes 4 (i mod 2 ^ 32).
(** An [XXH128_hash_t] in memory: the low and the high half. *)
Definition hash_bytes (h : Hash.t) : list Z := le_bytes 8 (Hash.low64 h) ++ le_bytes 8 (Hash.high64 h).

(** The values of [enum fd_type]. *)
Definition fd_type_to_int (ty : fd_type) : Z :=
  match ty with
  | FD_UNINITIALIZED => 0 | FD_IGNORED => 1 | FD_FILE => 2 | FD_PIPE_IN => 3
  | FD_PIPE_OUT => 4 | FD_SPECIAL => 5 | FD_SCM_RIGHTS => 6
  end.

Section Fingerprint.
Context `{XXHash} `{CacheConfig} (SE : BlobCache.store_env)
  (is_in_read_only_location is_in_ignore_location : cstr -> bool).

(** The overloads of [add_to_hash_state()]. *)
Definition add_string (state : XXH3_state) (str : cstr) : XXH3_state := XXH3_128bits_update state (enc_str str).
Definition add_hash (state : XXH3_state) (hash : Hash.t) : XXH3_state := XXH3_128bits_update state (hash_bytes hash).
Definition add_int (state : XXH3_state) (i : Z) : XXH3_state := XXH3_128bits_update state (int_bytes i).

(** The part of the constructor that hashes the sorted ignore locations, and the settings. *)
Definition hash_ignore_locations (ignore_locations : list cstr) : Hash.t :=
  XXH3_128bits_digest (fold_left add_string ignore_locations XXH3_128bits_reset).
Context (ignore_locations : list cstr) (envs_skip_ : list cstr) (guess_file_params : bool).

(** [env_fingerprintable(name_and_value)]. *)
Fixpoint before_equals (s : cstr) : cstr :=
  match s with
  | [] => []
  | c :: s => if bool_decide (c = "="%char) then [] else c :: before_equals s
  end.
Definition env_fingerprintable (name_and_value : cstr) : bool :=
  negb (bool_decide (before_equals name_and_value ∈ envs_skip_)).

(** [hash_cache->get_hash(path, 0, &hash, &is_dir)]. *)
Definition get_hash (E : HashCache.Env) (path : cstr) (s : HashCache.t) : outcome (option (Hash.t * bool) * HashCache.t) :=
  '(r, s) ← HashCache.get_hash SE is_in_read_only_location is_in_ignore_location E path 0 None None s;
  Ret (match r with Some (hash, is_dir, _) => Some (hash, is_dir) | None => None end, s).

(** [hash_param_file(state, proc, file, &hash)] in a process with working directory [wd]. *)
Definition hash_param_file (E : HashCache.Env) (wd file : cstr) (state : XXH3_state) (s : HashCache.t)
    : outcome (XXH3_state * HashCache.t) :=
  path ← FileName.get_absolute (Some wd) file;
  match path with
  | None => Abort
  | Some path =>
      '(r, s) ← get_hash E path s;
      let hash := match r with
                  | Some (hash, is_dir) => if is_dir : bool then Hash.mk 0 0 else hash
                  | None => Hash.mk 0 0
                  end in
      Ret (add_hash state hash, s)
  end.

(** The hint for [hash_param_file()]: the last of the arguments with one of these names. *)
Definition found_param_file (args : list cstr) : cstr :=
  fold_left (fun found arg =>
    if guess_file_params && (bool_decide (arg = cs "conftest.c") || bool_decide (arg = cs "objs/autotest.c"))
    then arg else found) args [].

(** The loop over the libraries. *)
Fixpoint add_libs (E : HashCache.Env) (libs : list cstr) (state : XXH3_state) (s : HashCache.t)
    : outcome (option XXH3_state * HashCache.t) :=
  match libs with
  | [] => Ret (Some state, s)
  | lib :: libs =>
      '(r, s) ← get_hash E lib s;
      match r with
      | None => Ret (None, s)
      | Some (hash, _) => add_libs E libs (add_hash (add_string state lib) hash) s
      end
  end.

(** One inherited file, with the workaround for incoming pipes. *)
Definition pretended_type (f : inherited_file_t) : fd_type :=
  if bool_decide (if_type f = FD_PIPE_IN) then FD_IGNORED else if_type f.
Definition add_inherited_file (state : XXH3_state) (f : inherited_file_t) : XXH3_state :=
  add_int (fold_left add_int (if_fds f) (add_int state (fd_type_to_int (pretended_type f)))) (-1).

(** [fingerprint(proc)] without what is kept for debugging: the value of [fingerprints_[proc]],
    or [None] when false is returned.  [wd] and [umask] are those of the process. *)
Definition fingerprint (E : HashCache.Env) (wd : cstr) (umask : Z) (proc : Execed) (s : HashCache.t)
    : outcome (option Hash.t * HashCache.t) :=
  let state := XXH3_128bits_reset_withSeed kFingerprintVersion in
  let state := add_hash state (hash_ignore_locations ignore_locations) in
  let state := add_string state (initial_wd_ proc) in
  let state := add_int state (Z.of_nat (length (args_ proc))) in
  let state := fold_left add_string (args_ proc) state in
  let found := found_param_file (args_ proc) in
  '(state, s) ← (if guess_file_params && negb (bool_decide (found = []))
                 then hash_param_file E wd found (add_int state 1) s
                 else Ret (add_int state 0, s));
  let state := add_int state (Z.of_nat (length (env_vars_ proc))) in
  let state := fold_left (fun state env => if env_fingerprintable env then add_string state env else state)
                 (env_vars_ proc) state in
  let state := add_string state (executable_ proc) in
  '(r, s) ← get_hash E (executable_ proc) s;
  match r with
  | None => Ret (None, s)
  | Some (hash, _) =>
      let state := add_hash state hash in
      '(r, s) ← (if bool_decide (executable_ proc = executed_path_ proc)
                 then Ret (Some (add_hash (add_string state (executable_ proc)) hash), s)
                 else
                   let state := add_string state (executed_path_ proc) in
                   '(r, s) ← get_hash E (executed_path_ proc) s;
                   Ret (match r with Some (hash, _) => Some (add_hash state hash) | None => None end, s));
      match r with
      | None => Ret (None, s)
      | Some state =>
          let state := add_string state (original_executed_path_ proc) in
          let state := add_int state (Z.of_nat (length (libs_ proc))) in
          '(r, s) ← add_libs E (libs_ proc) state s;
          match r with
          | None => Ret (None, s)
          | Some state =>
              let state := add_int state umask in
              let state := fold_left add_inherited_file (inherited_files_ proc) state in
              Ret (Some (XXH3_128bits_digest state), s)
          end
      end
  end.

(** [fingerprints_]: it is set when a fingerprint has been made, and erased. *)
Definition set_fingerprint (proc : pid_ref) (r : option Hash.t) (fingerprints_ : gmap pid_ref Hash.t) : gmap pid_ref Hash.t :=
  match r with Some h => <[proc := h]> fingerprints_ | None => fingerprints_ end.
Definition erase_fingerprint (proc : pid_ref) (fingerprints_ : gmap pid_ref Hash.t) : gmap pid_ref Hash.t :=
  delete proc fingerprints_.

(** ** What is hashed *)

(** The data of a fingerprint; a parameter file that cannot be hashed counts as zero. *)
Record fp_data := mkData {
  d_ignore : Hash.t;
  d_wd : cstr;
  d_args : list cstr;
  d_param : option Hash.t;
  d_env_count : Z;
  d_env : list cstr;
  d_executable : cstr * Hash.t;
  d_executed : cstr * Hash.t;
  d_original : cstr;
  d_libs : list (cstr * Hash.t);
  d_umask : Z;
  d_files : list (Z * list Z)
}.

Definition enc_strs (l : list cstr) : list Z := concat (enc_str <$> l).
Definition enc_path (p : cstr * Hash.t) : list Z := enc_str p.1 ++ hash_bytes p.2.
Definition enc_param (p : option Hash.t) : list Z :=
  match p with None => int_bytes 0 | Some h => int_bytes 1 ++ hash_bytes h end.
Definition enc_file (f : Z * list Z) : list Z := int_bytes f.1 ++ concat (int_bytes <$> f.2) ++ int_bytes (-1).

Definition preimage (d : fp_data) : list Z :=
  hash_bytes (d_ignore d) ++ enc_str (d_wd d) ++
  int_bytes (Z.of_nat (length (d_args d))) ++ enc_strs (d_args d) ++ enc_param (d_param d) ++
  int_bytes (d_env_count d) ++ enc_strs (d_env d) ++ enc_path (d_executable d) ++ enc_path (d_executed d) ++
  enc_str (d_original d) ++ int_bytes (Z.of_nat (length (d_libs d))) ++ concat (enc_path <$> d_libs d) ++
  int_bytes (d_umask d) ++ concat (enc_file <$> d_files d).

(** Names have no NUL, paths of executables are absolute, environment variables do not start
    like one, and numbers fit into their types. *)
Definition int_range (i : Z) : Prop := 0 <= i < 2 ^ 31.
Definition path_ok (p : cstr * Hash.t) : Prop := no_nul p.1 /\ Hash.wf p.2.
Definition absolute (s : cstr) : Prop := exists t, s = slash :: t.
Definition file_ok (f : Z * list Z) : Prop := int_range f.1 /\ Forall int_range f.2.

Record data_ok (d : fp_data) : Prop := {
  ok_ignore : Hash.wf (d_ignore d);
  ok_wd : no_nul (d_wd d);
  ok_args : Forall no_nul (d_args d) /\ int_range (Z.of_nat (length (d_args d)));
  ok_param h : d_param d = Some h -> Hash.wf h;
  ok_env : Forall (fun s => no_nul s /\ ~ absolute s) (d_env d) /\ int_range (d_env_count d);
  ok_executable : path_ok (d_executable d) /\ absolute (d_executable d).1;
  ok_executed : path_ok (d_executed d);
  ok_original : no_nul (d_original d);
  ok_libs : Forall path_ok (d_libs d) /\ int_range (Z.of_nat (length (d_libs d)));
  ok_umask : int_range (d_umask d);
  ok_files : Forall file_ok (d_files d)
}.

Lemma code_int : code int_range int_bytes.
Proof.
  apply (code_fixed _ _ 4); [intros; apply le_bytes_length|]. unfold int_range.
  intros a b Ha Hb E. apply le_bytes_inj in E. change (256 ^ Z.of_nat 4) with (2 ^ 32) in E.
  rewrite !Z.mod_mod, !Z.mod_small in E by lia. done.
Qed.

Lemma code_hash : code Hash.wf hash_bytes.
Proof.
  apply (code_fixed _ _ 16); [intros a _; unfold hash_bytes; by rewrite length_app, !le_bytes_length|].
  intros [ah al] [bh bl] [Ha1 Ha2] [Hb1 Hb2] E. apply app_inj_1 in E as [E1 E2]; [|by rewrite !le_bytes_length].
  apply le_bytes_inj in E1, E2. change (256 ^ Z.of_nat 8) with (2 ^ 64) in *. cbn in *. rewrite !Z.mod_small in E1, E2 by lia. by subst.
Qed.

Lemma code_path : code path_ok enc_path.
Proof. apply (code_pair no_nul Hash.wf enc_str hash_bytes code_str code_hash). Qed.

Lemma int_minus_one i x y : int_range i -> int_bytes i ++ x = int_bytes (-1) ++ y -> False.
Proof.
  unfold int_range. intros Hi E. apply app_inj_1 in E as [E _]; [|unfold int_bytes; by rewrite !le_bytes_length].
  apply le_bytes_inj in E. change (256 ^ Z.of_nat 4) with (2 ^ 32) in E. rewrite Z.mod_mod, Z.mod_small in E by lia.
  vm_compute in E. revert Hi. rewrite E. lia.
Qed.

Lemma code_file : code file_ok enc_file.
Proof.
  intros [ty fds] [ty' fds'] x y [Ht Hf] [Ht' Hf'] E. cbn [fst snd] in *. unfold enc_file in E. cbn [fst snd] in E.
  rewrite <- !app_assoc in E. apply code_int in E as [-> E]; [|done..].
  assert (Hfds : fds = fds' /\ x = y); [|by destruct Hfds as [-> ->]]. clear Ht Ht'. revert fds' Hf' E.
  induction Hf as [|fd fds Hfd Hf IH]; intros [|fd' fds'] Hf' E; cbn [fmap list_fmap concat] in E; rewrite <- ?app_assoc in E; cbn [app] in E.
  - apply app_inv_head in E. done.
  - apply Forall_cons in Hf' as [Hfd' _]. symmetry in E. by destruct (int_minus_one _ _ _ Hfd' E).
  - by destruct (int_minus_one _ _ _ Hfd E).
  - apply Forall_cons in Hf' as [Hfd' Hf']. apply code_int in E as [-> E]; [|done..]. by destruct (IH _ Hf' E) as [-> ->].
Qed.

Lemma enc_file_ne f : enc_file f <> [].
Proof. unfold enc_file, int_bytes. by destruct f as [ty fds]. Qed.

(** The environment ends where the first absolute path starts. *)
Lemma code_env env env' exe exe' x y :
  Forall (fun s => no_nul s /\ ~ absolute s) env -> Forall (fun s => no_nul s /\ ~ absolute s) env' ->
  path_ok exe /\ absolute exe.1 -> path_ok exe' /\ absolute exe'.1 ->
  enc_strs env ++ enc_path exe ++ x = enc_strs env' ++ enc_path exe' ++ y -> env = env' /\ exe = exe' /\ x = y.
Proof.
  intros He. revert env'. induction He as [|s env [Hs Ha] He IH]; intros [|s' env'] He' [Hx Hax] [Hx' Hax'] E;
    unfold enc_strs in E; cbn [fmap list_fmap concat app] in E; rewrite <- ?app_assoc in E.
  - apply code_path in E as [-> ->]; done.
  - apply Forall_cons in He' as [[Hs' Ha'] _]. unfold enc_path in E. rewrite <- app_assoc in E.
    apply code_str in E as [E _]; [|apply Hx|done]. destruct Ha'. by rewrite <- E.
  - unfold enc_path in E. rewrite <- !app_assoc in E. apply code_str in E as [E _]; [|done|apply Hx']. destruct Ha. by rewrite E.
  - apply Forall_cons in He' as [[Hs' Ha'] He']. apply code_str in E as [-> E]; [|done..].
    by destruct (IH env' He' (conj Hx Hax) (conj Hx' Hax') E) as (-> & -> & ->).
Qed.

Lemma code_param p p' x y :
  (forall h, p = Some h -> Hash.wf h) -> (forall h, p' = Some h -> Hash.wf h) ->
  enc_param p ++ x = enc_param p' ++ y -> p = p' /\ x = y.
Proof.
  assert (H0' : int_range 0) by (unfold int_range; lia). assert (H1' : int_range 1) by (unfold int_range; lia).
  intros Hp Hp' E. destruct p as [h|], p' as [h'|]; cbn [enc_param] in E; rewrite <- ?app_assoc in E; apply code_int in E as [En E]; try done.
  apply code_hash in E as [-> ->]; [done|by apply Hp|by apply Hp'].
Qed.

Lemma preimage_inj d d' : data_ok d -> data_ok d' -> preimage d = preimage d' -> d = d'.
Proof.
  intros [K1 K2 [K3 K3'] K4 [K5 K5'] K6 K7 K8 [K9 K9'] K10 K11] [L1 L2 [L3 L3'] L4 [L5 L5'] L6 L7 L8 [L9 L9'] L10 L11] E.
  destruct d, d'. cbn [d_ignore d_wd d_args d_param d_env_count d_env d_executable d_executed d_original d_libs d_umask d_files] in *.
  unfold preimage in E. cbn [d_ignore d_wd d_args d_param d_env_count d_env d_executable d_executed d_original d_libs d_umask d_files] in E.
  apply code_hash in E as [-> E]; [|done..]. apply code_str in E as [-> E]; [|done..].
  apply code_int in E as [En E]; [|done..]. apply (code_list_n _ _ _ _ _ _ code_str) in E as [-> E]; [|done..|lia].
  apply code_param in E as [-> E]; [|done..]. apply code_int in E as [-> E]; [|done..].
  apply code_env in E as (-> & -> & E); [|done..]. apply code_path in E as [-> E]; [|done..].
  apply code_str in E as [-> E]; [|done..]. apply code_int in E as [El E]; [|done..].
  apply (code_list_n _ _ _ _ _ _ code_path) in E as [-> E]; [|done..|lia]. apply code_int in E as [-> E]; [|done..].
  apply (code_list_end _ _ _ _ code_file) in E as ->; [done|intros f _; apply enc_file_ne|done..].
Qed.

(** ** The fingerprint is the hash of this data *)

Context `{!XXHashOk} `{!CacheConfigOk} (Hdebug : debug_cache = false) (HSE : BlobCache.store_env_ok SE).

(** The state of hashing after some bytes. *)
Definition fed (state : XXH3_state) (bytes : list Z) : Prop :=
  exists chunks, state = fold_left XXH3_128bits_update chunks (XXH3_128bits_reset_withSeed kFingerprintVersion) /\ concat chunks = bytes.

Lemma fed_update state bytes x : fed state bytes -> fed (XXH3_128bits_update state x) (bytes ++ x).
Proof.
  intros (chunks & -> & <-). exists (chunks ++ [x]). split; [by rewrite fold_left_app|]. by rewrite concat_app, concat_cons, app_nil_r.
Qed.

Lemma fed_fold {A} (f : XXH3_state -> A -> XXH3_state) (enc : A -> list Z) l state bytes :
  (forall a st b, fed st b -> fed (f st a) (b ++ enc a)) -> fed state bytes -> fed (fold_left f l state) (bytes ++ concat (enc <$> l)).
Proof.
  intros Hf. revert state bytes. induction l as [|a l IH]; intros state bytes Hs; cbn; [by rewrite app_nil_r|].
  rewrite app_assoc. by apply IH, Hf.
Qed.

Lemma fed_inherited f st b : fed st b -> fed (add_inherited_file st f) (b ++ enc_file (fd_type_to_int (pretended_type f), if_fds f)).
Proof.
  intros Hs. unfold add_inherited_file, add_int, enc_file. cbn [fst snd]. rewrite !app_assoc. apply fed_update.
  apply fed_fold; [intros; by apply fed_update|]. by apply fed_update.
Qed.

Lemma fed_env env st b :
  fed st b -> fed (fold_left (fun st e => if env_fingerprintable e then add_string st e else st) env st)
                (b ++ enc_strs (filter (fun e => env_fingerprintable e = true) env)).
Proof.
  revert st b. induction env as [|e env IH]; intros st b Hs; cbn [fold_left]; [by rewrite app_nil_r|].
  rewrite list.filter_cons. unfold enc_strs. destruct (decide (env_fingerprintable e = true)) as [He|He].
  - rewrite He. cbn [fmap list_fmap concat]. rewrite app_assoc. by apply IH, fed_update.
  - apply not_true_is_false in He. rewrite He. by apply IH.
Qed.

Lemma fed_digest state bytes : fed state bytes -> XXH3_128bits_digest state = XXH3_128bits_withSeed kFingerprintVersion bytes.
Proof. intros (chunks & -> & <-). apply streaming_withSeed. Qed.

Import HashCache.

(** The files have the hash in the view. *)
Definition hash_is (V : cstr -> view) (p : cstr * Hash.t) : Prop := exists a, V p.1 = Some a /\ v_hash a = p.2.

(** The data of a process in a file system. *)
Record identifies (V : cstr -> view) (wd : cstr) (umask : Z) (proc : Execed) (d : fp_data) : Prop := {
  id_ignore : d_ignore d = hash_ignore_locations ignore_locations;
  id_wd : d_wd d = initial_wd_ proc;
  id_args : d_args d = args_ proc;
  id_param : match d_param d with
             | None => guess_file_params && negb (bool_decide (found_param_file (args_ proc) = [])) = false
             | Some h => h = Hash.mk 0 0 \/
                 exists path, FileName.get_absolute (Some wd) (found_param_file (args_ proc)) = Ret (Some path) /\ hash_is V (path, h)
             end;
  id_env_count : d_env_count d = Z.of_nat (length (env_vars_ proc));
  id_env : d_env d = filter (fun e => env_fingerprintable e = true) (env_vars_ proc);
  id_executable : (d_executable d).1 = executable_ proc /\ hash_is V (d_executable d);
  id_executed : (d_executed d).1 = executed_path_ proc /\ hash_is V (d_executed d);
  id_original : d_original d = original_executed_path_ proc;
  id_libs : fst <$> d_libs d = libs_ proc /\ Forall (hash_is V) (d_libs d);
  id_umask : d_umask d = umask;
  id_files : d_files d = (fun f => (fd_type_to_int (pretended_type f), if_fds f)) <$> inherited_files_ proc
}.

(** The hash cache is in order and the file system is as it shows. *)
Record sees (Hist : cstr -> view -> Prop) (E : Env) (V : cstr -> view) (s : t) : Prop := {
  se_honest : honest is_in_read_only_location Hist;
  se_hist path : Hist path (V path);
  se_faithful : faithful E V;
  se_inv : inv is_in_read_only_location Hist s
}.

Lemma get_hash_sees Hist E V s path :
  sees Hist E V s -> exists r s', Fingerprint.get_hash E path s = Ret (r, s') /\ sees Hist E V s' /\
    forall h d, r = Some (h, d) -> hash_is V (path, h).
Proof.
  intros [S1 S2 S3 S4]. unfold Fingerprint.get_hash.
  destruct (get_hash_correct SE is_in_read_only_location is_in_ignore_location Hist E V s path 0 None None S1 S2 S3 S4 ltac:(by split))
    as (r & s' & Hg & Hi & _ & Hr & _).
  unfold mbind, outcome_bind. rewrite Hg. eexists _, s'. split; [done|]. split; [by split|].
  intros h d. destruct r as [[[h' d'] n]|]; [|done]. intros [= <- <-]. destruct Hr as [?|Hr]; [done|].
  unfold spec_hash in Hr. destruct (is_in_ignore_location path); [done|]. unfold hash_is. cbn [fst snd].
  destruct (V path) as [a|]; [|done]. injection Hr as -> _ _. by exists a.
Qed.

Lemma add_libs_fed Hist E V libs state bytes s :
  sees Hist E V s -> fed state bytes ->
  exists r s', add_libs E libs state s = Ret (r, s') /\ sees Hist E V s' /\
    forall st, r = Some st -> exists l, fst <$> l = libs /\ Forall (hash_is V) l /\ fed st (bytes ++ concat (enc_path <$> l)).
Proof.
  revert state bytes s. induction libs as [|lib libs IH]; intros state bytes s Hs Hf; cbn [add_libs].
  { exists (Some state), s. split_and!; [done|done|]. intros st [= <-]. exists []. cbn. by rewrite app_nil_r. }
  destruct (get_hash_sees Hist E V s lib Hs) as (r & s1 & Hg & Hs1 & Hr). unfold mbind, outcome_bind. rewrite Hg.
  destruct r as [[h d]|]; [|by exists None, s1].
  destruct (IH (add_hash (add_string state lib) h) (bytes ++ enc_path (lib, h)) s1 Hs1) as (r & s2 & Hl & Hs2 & Hr2).
  { unfold enc_path. rewrite app_assoc. by apply fed_update, fed_update. }
  exists r, s2. split_and!; [done|done|]. intros st Hst. destruct (Hr2 st Hst) as (l & <- & Hl2 & Hf2).
  exists ((lib, h) :: l). split_and!; [done|constructor; [by apply (Hr h d)|done]|]. cbn [fmap list_fmap concat]. by rewrite app_assoc.
Qed.

Lemma param_fed Hist E V wd state bytes s args :
  sees Hist E V s -> fed state bytes -> (forall file, exists path, FileName.get_absolute (Some wd) file = Ret (Some path)) ->
  exists st s' p, (if guess_file_params && negb (bool_decide (found_param_file args = []))
                 then hash_param_file E wd (found_param_file args) (add_int state 1) s
                 else Ret (add_int state 0, s)) = Ret (st, s') /\ sees Hist E V s' /\ fed st (bytes ++ enc_param p) /\
    match p with
    | None => guess_file_params && negb (bool_decide (found_param_file args = [])) = false
    | Some h => h = Hash.mk 0 0 \/
        exists path, FileName.get_absolute (Some wd) (found_param_file args) = Ret (Some path) /\ hash_is V (path, h)
    end.
Proof.
  intros Hs Hf Hwd. destruct (guess_file_params && _).
  2:{ exists (add_int state 0), s, None. split_and!; [done|done|by apply fed_update|done]. }
  destruct (Hwd (found_param_file args)) as [path Hp]. unfold hash_param_file, mbind, outcome_bind. rewrite Hp.
  destruct (get_hash_sees Hist E V s path Hs) as (r & s1 & Hg & Hs1 & Hr). rewrite Hg.
  set (h := match r with Some (hash, is_dir) => if is_dir : bool then Hash.mk 0 0 else hash | None => Hash.mk 0 0 end).
  exists (add_hash (add_int state 1) h), s1, (Some h). split_and!; [done|done|cbn [enc_param]; rewrite app_assoc; by apply fed_update, fed_update|].
  subst h. destruct r as [[h d]|]; [|by left]. destruct d; [by left|right]. exists path. split; [done|]. by apply (Hr h false).
Qed.

Lemma fingerprint_correct Hist E V s wd umask proc :
  sees Hist E V s -> (forall file, exists path, FileName.get_absolute (Some wd) file = Ret (Some path)) ->
  exists r s', fingerprint E wd umask proc s = Ret (r, s') /\ sees Hist E V s' /\
    forall h, r = Some h -> exists d, identifies V wd umask proc d /\ h = XXH3_128bits_withSeed kFingerprintVersion (preimage d).
Proof.
  intros Hs Hwd. unfold fingerprint. set (st0 := fold_left add_string (args_ proc) _).
  assert (F0 : fed st0 (hash_bytes (hash_ignore_locations ignore_locations) ++ enc_str (initial_wd_ proc) ++
    int_bytes (Z.of_nat (length (args_ proc))) ++ enc_strs (args_ proc))).
  { subst st0. rewrite !app_assoc. apply fed_fold; [intros; by apply fed_update|]. do 2 apply fed_update. rewrite <- (app_nil_l (hash_bytes _)).
    apply fed_update. by exists []. }
  destruct (param_fed Hist E V wd st0 _ s (args_ proc) Hs F0 Hwd) as (st1 & s1 & p & Hp & Hs1 & F1 & Hparam).
  unfold mbind, outcome_bind. unfold mbind, outcome_bind in Hp. rewrite Hp. clear Hp F0 Hs s st0. set (st2 := fold_left _ (env_vars_ proc) _).
  destruct (get_hash_sees Hist E V s1 (executable_ proc) Hs1) as (r & s2 & -> & Hs2 & Hexe). destruct r as [[h1 d1]|]; [|by exists None, s2].
  specialize (Hexe h1 d1 eq_refl). set (st3 := add_hash (add_string st2 (executable_ proc)) h1).
  eapply (fed_update _ _ (int_bytes (Z.of_nat (length (env_vars_ proc))))) in F1. eapply (fed_env (env_vars_ proc)) in F1. fold st2 in F1.
  eapply (fed_update _ _ (enc_str (executable_ proc))), (fed_update _ _ (hash_bytes h1)) in F1. fold st3 in F1.
  assert (Hsnd : exists r s3, (if bool_decide (executable_ proc = executed_path_ proc)
      then Ret (Some (add_hash (add_string st3 (executable_ proc)) h1), s2)
      else match Fingerprint.get_hash E (executed_path_ proc) s2 with
           | Ret (r, s) => Ret (match r with Some (hash, _) => Some (add_hash (add_string st3 (executed_path_ proc)) hash) | None => None end, s)
           | Abort => Abort | OutOfFuel => OutOfFuel end) = Ret (r, s3) /\ sees Hist E V s3 /\
    forall st, r = Some st -> exists h2, hash_is V (executed_path_ proc, h2) /\ st = add_hash (add_string st3 (executed_path_ proc)) h2).
  { destruct (decide (executable_ proc = executed_path_ proc)) as [Heq|Hne].
    - rewrite bool_decide_true by done. rewrite <- Heq. eexists _, s2. split_and!; [done|done|]. intros st [= <-]. by exists h1.
    - rewrite bool_decide_false by done. destruct (get_hash_sees Hist E V s2 (executed_path_ proc) Hs2) as (r & s3 & -> & Hs3 & Hx). eexists _, s3. split_and!; [done|done|].
      intros st. destruct r as [[h2 d2]|]; [|done]. intros [= <-]. exists h2. split; [by apply (Hx h2 d2)|done]. }
  destruct Hsnd as (r & s3 & Hr & Hs3 & Hex). rewrite Hr. destruct r as [st4|]; [|by exists None, s3].
  destruct (Hex st4 eq_refl) as (h2 & Hh2 & ->).
  eapply (fed_update _ _ (enc_str (executed_path_ proc))), (fed_update _ _ (hash_bytes h2)), (fed_update _ _ (enc_str (original_executed_path_ proc))),
    (fed_update _ _ (int_bytes (Z.of_nat (length (libs_ proc))))) in F1.
  set (st5 := add_int (add_string (add_hash (add_string st3 (executed_path_ proc)) h2) (original_executed_path_ proc)) (Z.of_nat (length (libs_ proc)))).
  destruct (add_libs_fed Hist E V (libs_ proc) st5 _ s3 Hs3 F1) as (r & s4 & Hl & Hs4 & Hlibs). rewrite Hl. destruct r as [st6|]; [|by exists None, s4].
  destruct (Hlibs st6 eq_refl) as (l & Hll & Hlh & F2). eexists _, s4. split; [done|]. split; [done|]. intros h [= <-].
  exists (mkData (hash_ignore_locations ignore_locations) (initial_wd_ proc) (args_ proc) p (Z.of_nat (length (env_vars_ proc)))
    (filter (fun e => env_fingerprintable e = true) (env_vars_ proc)) (executable_ proc, h1) (executed_path_ proc, h2)
    (original_executed_path_ proc) l umask ((fun f => (fd_type_to_int (pretended_type f), if_fds f)) <$> inherited_files_ proc)).
  split; [by split|]. apply fed_digest.
  assert (Hn : length l = length (libs_ proc)) by (rewrite <- Hll; by rewrite length_fmap).
  unfold preimage. cbn [d_ignore d_wd d_args d_param d_env_count d_env d_executable d_executed d_original d_libs d_umask d_files].
  rewrite Hn. unfold enc_path at 1 2. cbn [fst snd]. rewrite !app_assoc.
  rewrite <- (list_fmap_compose (fun f => (fd_type_to_int (pretended_type f), if_fds f)) enc_file).
  apply fed_fold; [intros; by apply fed_inherited|]. apply fed_update. rewrite !app_assoc in F2. exact F2.
Qed.

(** The strings and numbers of a process are as they are in a C program. *)
Record proc_ok (umask : Z) (proc : Execed) : Prop := {
  po_wd : no_nul (initial_wd_ proc);
  po_args : Forall no_nul (args_ proc) /\ int_range (Z.of_nat (length (args_ proc)));
  po_env : Forall (fun s => no_nul s /\ ~ absolute s) (env_vars_ proc) /\ int_range (Z.of_nat (length (env_vars_ proc)));
  po_executable : no_nul (executable_ proc) /\ absolute (executable_ proc);
  po_executed : no_nul (executed_path_ proc);
  po_original : no_nul (original_executed_path_ proc);
  po_libs : Forall no_nul (libs_ proc) /\ int_range (Z.of_nat (length (libs_ proc)));
  po_umask : int_range umask;
  po_fds : Forall (fun f => Forall int_range (if_fds f)) (inherited_files_ proc)
}.
Definition hashes_wf (V : cstr -> view) : Prop := forall path a, V path = Some a -> Hash.wf (v_hash a).

Lemma hash_ignore_wf : Hash.wf (hash_ignore_locations ignore_locations).
Proof.
  unfold hash_ignore_locations.
  assert (E : fold_left add_string ignore_locations XXH3_128bits_reset = fold_left XXH3_128bits_update (enc_str <$> ignore_locations) XXH3_128bits_reset).
  { generalize XXH3_128bits_reset. induction ignore_locations as [|s l IH]; intros st; [done|]. cbn. apply IH. }
  rewrite E, streaming. apply XXH3_wf.
Qed.

Lemma identifies_ok V wd umask proc d : identifies V wd umask proc d -> proc_ok umask proc -> hashes_wf V -> data_ok d.
Proof.
  intros [I1 I2 I3 I4 I5 I6 [I7 I7'] [I8 I8'] I9 [I10 I10'] I11 I12] [P1 P2 [P3 P3'] [P4 P4'] P5 P6 [P7 P7'] P8 P9] Hw.
  assert (Hh : forall p, hash_is V p -> Hash.wf p.2) by (intros p (a & Ha & <-); by eapply Hw).
  split.
  - rewrite I1. apply hash_ignore_wf.
  - by rewrite I2.
  - by rewrite I3.
  - intros h Hp. rewrite Hp in I4. destruct I4 as [->|(path & _ & Hx)]; [split; cbn; lia|]. by apply (Hh (path, h)).
  - rewrite I5, I6. split; [|done]. rewrite Forall_forall in P3 |- *. intros e [_ He]%list_elem_of_filter. by apply P3.
  - unfold path_ok. rewrite I7. auto.
  - split; [by rewrite I8|auto].
  - by rewrite I9.
  - split; [|by rewrite <- I10, length_fmap in P7']. rewrite <- I10, Forall_fmap in P7. rewrite Forall_forall in *.
    intros p Hp. split; [by apply P7|by apply Hh, I10'].
  - by rewrite I11.
  - rewrite I12, Forall_fmap. eapply Forall_impl; [exact P9|]. intros f Hf. split; [|done]. cbn. unfold int_range.
    destruct (pretended_type f); cbn; lia.
Qed.

(** C18. The fingerprint identifies what a process is: computing it always returns, and when two
    processes, possibly in different states of the file system, have the same fingerprint, then they
    agree in the working directory, the arguments, the environment without the skipped variables,
    the paths and the contents of the executables and libraries, the umask and the inherited
    files, or else the hash function has mapped two different inputs to the same value. *)
Theorem fingerprint_identifies Hist E V s wd umask proc Hist' E' V' s' wd' umask' proc' :
  sees Hist E V s -> sees Hist' E' V' s' -> proc_ok umask proc -> proc_ok umask' proc' -> hashes_wf V -> hashes_wf V' ->
  (forall file, exists path, FileName.get_absolute (Some wd) file = Ret (Some path)) ->
  (forall file, exists path, FileName.get_absolute (Some wd') file = Ret (Some path)) ->
  exists r s1 r' s1', fingerprint E wd umask proc s = Ret (r, s1) /\ fingerprint E' wd' umask' proc' s' = Ret (r', s1') /\
    sees Hist E V s1 /\ sees Hist' E' V' s1' /\
    (r = r' -> is_Some r -> exists d d', identifies V wd umask proc d /\ identifies V' wd' umask' proc' d' /\
       (d = d' \/ preimage d <> preimage d' /\
          XXH3_128bits_withSeed kFingerprintVersion (preimage d) = XXH3_128bits_withSeed kFingerprintVersion (preimage d'))).
Proof.
  intros Hs Hs' Hp Hp' Hw Hw' Hwd Hwd'.
  destruct (fingerprint_correct Hist E V s wd umask proc Hs Hwd) as (r & s1 & Hr & Hs1 & Hd).
  destruct (fingerprint_correct Hist' E' V' s' wd' umask' proc' Hs' Hwd') as (r' & s1' & Hr' & Hs1' & Hd').
  exists r, s1, r', s1'. split_and!; [done..|]. intros <- [h ->]. destruct (Hd h eq_refl) as (d & Hi & Hh).
  destruct (Hd' h eq_refl) as (d' & Hi' & Hh'). exists d, d'. split_and!; [done..|].
  destruct (decide (preimage d = preimage d')) as [Heq|Hne]; [left|right; split; [done|by rewrite <- Hh]].
  apply preimage_inj; [by eapply identifies_ok..|done].
Qed.

End Fingerprint.

(** Two processes that differ in an argument, in the same file system. *)
#[local] Existing Instances Hashing.demo_xxhash Hashing.demo_xxhash_ok.
Definition demo_proc (args env : list cstr) : Execed :=
  mkExeced true false false 0 0 None None 0 0 0 0 (cs "/w") ∅ ∅ args env HashCache.demo_path HashCache.demo_path (cs "a") [] ∅ [] [] None None None None.

Lemma demo_wd file : exists path, FileName.get_absolute (Some (cs "/w")) file = Ret (Some path).
Proof.
  unfold FileName.get_absolute. destruct (Paths.path_is_absolute file); [by eexists|].
  destruct (bool_decide (file = []) || bool_decide (file = [dot])); [by eexists|]. vm_compute. by eexists.
Qed.

Lemma demo_proc_ok args env :
  Forall no_nul args -> int_range (Z.of_nat (length args)) -> Forall (fun s => no_nul s /\ ~ absolute s) env ->
  int_range (Z.of_nat (length env)) -> proc_ok 18 (demo_proc args env).
Proof.
  assert (Hn : forall s, bool_decide (no_nul s) = true -> no_nul s) by (intros s; apply bool_decide_eq_true_1).
  split; cbn; try done; try (by split_and!); try (split; [|by eexists]).
  all: first [apply Hn; vm_compute; reflexivity|unfold int_range; lia].
Qed.

Lemma demo_sees : @sees Hashing.demo_xxhash (BlobCache.demo_config false) (fun _ => false) HashCache.demo_hist
  (HashCache.demo_env [1; 2; 3] 33188 10 0) (HashCache.demo_view [1; 2; 3] 33188 10) HashCache.demo_state.
Proof.
  split; [apply HashCache.demo_honest|by left|by apply HashCache.demo_faithful|apply HashCache.demo_inv].
Qed.

Lemma demo_hashes_wf : hashes_wf (HashCache.demo_view [1; 2; 3] 33188 10).
Proof. intros path a. unfold HashCache.demo_view. case_bool_decide; [|done]. intros [= <-]. apply XXH3_wf. Qed.

Lemma fingerprint_identifies_witness :
  exists r s1, @fingerprint Hashing.demo_xxhash (BlobCache.demo_config false) BlobCache.demo_store_env (fun _ => false) (fun _ => false)
      [] [] false (HashCache.demo_env [1; 2; 3] 33188 10 0) (cs "/w") 18 (demo_proc [cs "a"; cs "b"] [cs "X=1"]) HashCache.demo_state = Ret (r, s1) /\
    is_Some r.
Proof.
  destruct (@fingerprint_identifies Hashing.demo_xxhash (BlobCache.demo_config false) BlobCache.demo_store_env (fun _ => false) (fun _ => false)
    [] [] false _ HashCache.demo_hist (HashCache.demo_env [1; 2; 3] 33188 10 0) (HashCache.demo_view [1; 2; 3] 33188 10) HashCache.demo_state
    (cs "/w") 18 (demo_proc [cs "a"; cs "b"] [cs "X=1"])
    HashCache.demo_hist (HashCache.demo_env [1; 2; 3] 33188 10 0) (HashCache.demo_view [1; 2; 3] 33188 10) HashCache.demo_state
    (cs "/w") 18 (demo_proc [cs "a"; cs "c"] [])) as (r & s1 & r' & s1' & Hr & _).
  1-2: apply demo_sees.
  1-2: apply demo_proc_ok; try (unfold int_range; cbn; lia); repeat constructor;
    try (apply (bool_decide_eq_true_1 _); vm_compute; reflexivity); by intros [t Ht].
  1-2: apply demo_hashes_wf.
  1-2: apply demo_wd.
  exists r, s1. split; [exact Hr|]. vm_compute in Hr. injection Hr as <- _. by eexists.
Defined.

(** A variable that is to be skipped still changes the fingerprint, since all variables are
    counted. *)
Theorem skipped_variable_changes_fingerprint :
  exists h s h' s', h <> h' /\
    @fingerprint Hashing.demo_xxhash (BlobCache.demo_config false) BlobCache.demo_store_env (fun _ => false) (fun _ => false)
      [] [cs "X"] false (HashCache.demo_env [1; 2; 3] 33188 10 0) (cs "/w") 18 (demo_proc [cs "a"] [cs "X=1"]) HashCache.demo_state = Ret (Some h, s) /\
    @fingerprint Hashing.demo_xxhash (BlobCache.demo_config false) BlobCache.demo_store_env (fun _ => false) (fun _ => false)
      [] [cs "X"] false (HashCache.demo_env [1; 2; 3] 33188 10 0) (cs "/w") 18 (demo_proc [cs "a"] []) HashCache.demo_state = Ret (Some h', s').
Proof. do 4 eexists. split; [|split; vm_compute; reflexivity]. done. Qed.

End Fingerprint.
