(* ===== verification/Entries.v ===== *)
(** Cache entries: the data of src/firebuild/fbbstore.def, how it is made from and turned into
    what is known of files, and the check of an entry during garbage collection
    (src/firebuild/execed_process_cacher.cc). *)

From stdpp Require Import base list strings option gmap sorting.
From Stdlib Require Import ZArith Lia Ascii.
From S2P Require Import Prelude Base64 Paths FileNames FileUsage Hashing Storage ObjCache HashCache.

Local Open Scope Z_scope.

Module Entry.
Import FileInfo.

(** fbbstore.def.  An array that is absent is an empty one. *)
Record file := mkFile {
  f_path : cstr;
  f_type : FileType;
  f_size : option Z;
  f_hash : option Hash.t;
  f_compressed_hash : option Hash.t;
  f_mode : option Z;
  f_mode_mask : option Z;
  f_inline_data : list Z;
  f_timestamp_source : option cstr
}.

Record append_to_fd := mkAppend {
  a_fd : Z;
  a_hash : option Hash.t;
  a_compressed_hash : option Hash.t;
  a_inline_data : list Z
}.

Record process_inputs := mkInputs { pi_path : list file; pi_path_notexist : list cstr }.
Record process_outputs := mkOutputs {
  po_path_isreg : list file;
  po_path_isdir : list file;
  po_path_notexist : list cstr;
  po_append_to_fd : list append_to_fd;
  po_exit_status : Z
}.
Record process_inputs_outputs := mkPio {
  pio_inputs : process_inputs;
  pio_outputs : process_outputs;
  pio_cpu_time_ms : option Z
}.

(** The serializer, which is generated from fbbstore.def; reading data that has another tag gives
    [None].  What its clients rely on holds for entries whose numbers and sizes fit. *)
Class Serializer := {
  serialize : process_inputs_outputs -> list Z;
  deserialize : list Z -> option process_inputs_outputs
}.
Class SerializerOk `{Serializer} (valid : process_inputs_outputs -> Prop) : Prop := {
  deserialize_serialize e : valid e -> deserialize (serialize e) = Some e;
  serialize_ne e : valid e -> serialize e <> []
}.

(** ** Files of an entry *)

(** [add_file(files, file_name, fi, output_file, fu, inline_data)]: the new element;
    [timestamp_source] is that of [fu], if there is one. *)
Definition add_file `{CacheConfig} (file_name : cstr) (fi : FileInfo.t) (output_file : bool)
    (timestamp_source : option cstr) (inline_data : option (list Z)) : file :=
  let hash := if bool_decide (inline_data = None) then hash_ fi else None in
  mkFile file_name (type_ fi)
    (if size_known fi then Some (size_ fi) else None)
    (if output_file && compress_cache then None else hash)
    (if output_file && compress_cache then hash else None)
    (if mode_mask_ fi =? 0 then None else Some (mode_ fi))
    (if mode_mask_ fi =? 0 then None else Some (mode_mask_ fi))
    (default [] inline_data)
    (if output_file && negb (bool_decide (type_ fi = NOTEXIST)) then timestamp_source else None).

(** [file_to_file_info(file)]. *)
Definition file_to_file_info (f : file) : FileInfo.t :=
  let info := of_type (f_type f) in
  let info := match f_size f with Some size => set_size size info | None => info end in
  let info := match f_hash f with Some hash => set_hash (Some hash) info | None => info end in
  set_mode_bits (default 0 (f_mode f)) (default 0 (f_mode_mask f)) info.

(** [file_to_file_usage_update(filename, file)]; [generation] is that of the file name. *)
Definition file_to_file_usage_update (filename : cstr) (generation : Z) (f : file) : FileUsageUpdate.t :=
  let written := (bool_decide (f_type f = ISREG) && bool_decide (is_Some (f_size f))) || bool_decide (f_type f = ISDIR) in
  FileUsageUpdate.make_type filename generation DONTKNOW written (bool_decide (is_Some (f_mode f))).

(** [find_input_file(pi, path)]. *)
Definition find_input_file (pi : process_inputs) (path : cstr) : option file :=
  head (filter (fun f => f_path f = path) (pi_path pi)).

(** The blob that a file or appended data is in, if it is not inlined; the generated accessor
    of a hash that is missing fails an assertion, which no entry that was stored by the cacher
    can do. *)
Definition file_blob (f : file) : option Hash.t :=
  if bool_decide (f_type f = ISREG) && bool_decide (f_inline_data f = [])
  then match f_compressed_hash f with Some h => Some h | None => f_hash f end else None.
Definition append_blob (a : append_to_fd) : option Hash.t :=
  if bool_decide (a_inline_data a = [])
  then match a_compressed_hash a with Some h => Some h | None => a_hash a end else None.

(** What an entry says of an input is what was known of it. *)
Lemma file_info_roundtrip `{CacheConfig} name fi :
  FileInfo.wf fi -> (size_known fi = false -> size_ fi = -1) ->
  file_to_file_info (add_file name fi false None None) = fi.
Proof.
  intros (_ & _ & _ & Hm) Hs. unfold file_to_file_info, add_file. rewrite bool_decide_true by done. cbn [andb].
  cbn [f_type f_size f_hash f_mode f_mode_mask].
  assert (E : forall i, type_ i = type_ fi -> size_ i = size_ fi -> hash_ i = hash_ fi -> mode_ i = 0 -> mode_mask_ i = 0 ->
    set_mode_bits (default 0 (if mode_mask_ fi =? 0 then None else Some (mode_ fi)))
      (default 0 (if mode_mask_ fi =? 0 then None else Some (mode_mask_ fi))) i = fi).
  { intros i H1 H2 H3 H4 H5. destruct fi as [ty sz h m k]. cbn in *. unfold set_mode_bits. rewrite H1, H2, H3, H4, H5.
    destruct (Z.eqb_spec k 0) as [->|Hk]; cbn [default].
    - rewrite Z.land_0_r in Hm. by subst m.
    - unfold id. by rewrite Z.ldiff_0_l, !Z.lor_0_l, Hm. }
  apply E; destruct (size_known fi) eqn:Ek, (hash_ fi); try done; cbn; by rewrite Hs.
Qed.

(** ** Blobs of an entry *)

Section Usable.
Context `{XXHash} `{Serializer}.

(** The answers of [hash_cache->file_info_matches()], the system locations, and the blob
    cache while garbage is collected. *)
Context (file_info_matches : cstr -> FileInfo.t -> bool) (is_in_read_only_location : cstr -> bool) (blobs : BlobCache.t).

(** [hash.to_ascii()], with the terminator. *)
Definition ascii_of (hash : Hash.t) : cstr := default [] (Hash.to_ascii XXH128_canonicalFromHash hash).

(** [blob_present(hash, &referenced_blobs)]. *)
Definition blob_in_cache (hash : Hash.t) : bool :=
  match BlobCache.get_fd_for_file hash blobs with Ret (Some _) => true | _ => false end.
Definition blob_present (hash : Hash.t) (referenced_blobs : list cstr) : bool * list cstr :=
  if bool_decide (ascii_of hash ∈ referenced_blobs) then (true, referenced_blobs)
  else if blob_in_cache hash then (true, ascii_of hash :: referenced_blobs)
  else (false, referenced_blobs).

Fixpoint blobs_present (hashes : list Hash.t) (referenced_blobs : list cstr) : bool * list cstr :=
  match hashes with
  | [] => (true, referenced_blobs)
  | hash :: hashes =>
      let '(present, referenced_blobs) := blob_present hash referenced_blobs in
      if present : bool then blobs_present hashes referenced_blobs else (false, referenced_blobs)
  end.

(** The blobs in the order in which they are checked. *)
Definition entry_blobs (e : process_inputs_outputs) : list Hash.t :=
  omap file_blob (po_path_isreg (pio_outputs e)) ++ omap append_blob (po_append_to_fd (pio_outputs e)).

(** A system file that the entry expects and that has changed. *)
Definition changed_system_file (f : file) : bool :=
  bool_decide (f_type f = ISREG) && is_in_read_only_location (f_path f) &&
  negb (file_info_matches (f_path f) (file_to_file_info f)) && file_info_matches (f_path f) (of_type EXIST).

(** [is_entry_usable(entry_buf, &referenced_blobs)]. *)
Definition is_entry_usable (entry_buf : list Z) (referenced_blobs : list cstr) : bool * list cstr :=
  match deserialize entry_buf with
  | None => (false, referenced_blobs)
  | Some e =>
      if existsb changed_system_file (pi_path (pio_inputs e)) then (false, referenced_blobs)
      else blobs_present (entry_blobs e) referenced_blobs
  end.

(** ** It keeps the contract with the garbage collector of the object cache *)

Definition refs_of (entry_buf : list Z) : list cstr :=
  match deserialize entry_buf with Some e => ascii_of <$> entry_blobs e | None => [] end.
Definition ok (entry_buf : list Z) : bool :=
  match deserialize entry_buf with
  | None => false
  | Some e => negb (existsb changed_system_file (pi_path (pio_inputs e))) && forallb blob_in_cache (entry_blobs e)
  end.
(** Only blobs that are there have been collected. *)
Definition good (refs : list cstr) : Prop := forall hash, ascii_of hash ∈ refs -> blob_in_cache hash = true.

Context `{!XXHashOk}.

Lemma to_ascii_of h : exists ds, digits_below 64 ds /\ length ds = 22%nat /\
  Hash.to_ascii XXH128_canonicalFromHash h = Some (ascii_of h) /\ ascii_of h = (Base64.enc <$> ds) ++ [NUL].
Proof.
  pose proof (Hash.to_ascii_digits _ canonical_bytes h) as E. unfold ascii_of. rewrite E. eexists. split_and!; [|..|done|done]; [|done].
  apply Base64.digits16_below. by apply canonical_bytes.
Qed.

(** Whether a blob is there only depends on its name. *)
Lemma blob_in_cache_ascii h k : ascii_of h = ascii_of k -> blob_in_cache h = blob_in_cache k.
Proof.
  intros E. unfold blob_in_cache, BlobCache.get_fd_for_file, BlobCache.construct_cached_file_name.
  destruct (to_ascii_of h) as (? & _ & _ & -> & _), (to_ascii_of k) as (? & _ & _ & -> & _). by rewrite E.
Qed.

Lemma blob_present_correct hash refs :
  good refs -> (blob_present hash refs).1 = blob_in_cache hash /\ good (blob_present hash refs).2 /\
    refs ⊆ (blob_present hash refs).2 /\ (blob_in_cache hash = true -> ascii_of hash ∈ (blob_present hash refs).2).
Proof.
  intros Hg. unfold blob_present. case_bool_decide as Hin; [cbn [fst snd]; by rewrite (Hg hash Hin)|].
  destruct (blob_in_cache hash) eqn:Eb; cbn [fst snd]; [|done]. split_and!; [done| |by intros x ?; right|by intros _; left].
  intros k [Hk|Hk]%elem_of_cons; [|by apply Hg]. by rewrite (blob_in_cache_ascii k hash).
Qed.

Lemma blobs_present_correct hashes refs :
  good refs -> (blobs_present hashes refs).1 = forallb blob_in_cache hashes /\ good (blobs_present hashes refs).2 /\
    refs ⊆ (blobs_present hashes refs).2 /\
    (forallb blob_in_cache hashes = true -> ascii_of <$> hashes ⊆ (blobs_present hashes refs).2).
Proof.
  revert refs. induction hashes as [|hash hashes IH]; intros refs Hg; cbn [blobs_present forallb].
  { split_and!; [done..|]. intros _ x. by rewrite elem_of_nil. }
  destruct (blob_present_correct hash refs Hg) as (P1 & P2 & P3 & P4). destruct (blob_present hash refs) as [present refs1].
  cbn [fst snd] in *. rewrite P1 in *. destruct (blob_in_cache hash); cbn [andb]; [|done].
  destruct (IH refs1 P2) as (Q1 & Q2 & Q3 & Q4). split_and!; [done|done|by etrans|]. intros Hf.
  intros x [->|Hx]%elem_of_cons; [by apply Q3, P4|by apply Q4].
Qed.

Lemma is_entry_usable_check : ObjCache.entry_check is_entry_usable ok refs_of good.
Proof.
  split; unfold is_entry_usable, ok, refs_of; intros buf refs.
  - intros Hg. destruct (deserialize buf) as [e|]; [|done]. destruct (existsb _ _); [done|]. by apply blobs_present_correct.
  - intros Hg. destruct (deserialize buf) as [e|]; [|done]. destruct (existsb _ _); [done|]. by apply blobs_present_correct.
  - destruct (deserialize buf) as [e|]; [|done]. destruct (existsb _ _); [done|]. clear. revert refs.
    induction (entry_blobs e) as [|hash hashes IH]; intros refs; cbn [blobs_present]; [done|].
    assert (Hs : refs ⊆ (blob_present hash refs).2).
    { unfold blob_present. destruct (bool_decide _); [done|]. destruct (blob_in_cache hash); [|done]. intros x Hx. by right. }
    destruct (blob_present hash refs) as [[] refs1]; cbn [fst snd] in *; [by etrans|done].
  - intros Hg Ho. destruct (deserialize buf) as [e|]; [|done]. destruct (existsb _ _); [done|]. by apply blobs_present_correct.
Qed.

Lemma good_nil : good [].
Proof. by intros hash ?%elem_of_nil. Qed.

End Usable.
End Entry.
