(* ===== verification/CacheGc.v ===== *)
(** Garbage collection of the whole cache and the accounting of its size
    ([ExecedProcessCacher::gc()] and the functions around it in
    src/firebuild/execed_process_cacher.cc). *)

From stdpp Require Import base list strings option gmap sorting.
From Stdlib Require Import ZArith Lia Ascii SpecFloat.
From S2P Require Import Prelude Base64 Paths FileNames FileUsage Hashing Storage ObjCache HashCache Entries.

Local Open Scope Z_scope.

(** * double *)
Module Double.

Definition t := spec_float.
Definition of_Z (z : Z) : t := binary_normalize 53 1024 z 0 false.
Definition mul : t -> t -> t := SFmul 53 1024.
Definition sub : t -> t -> t := SFsub 53 1024.
Definition div : t -> t -> t := SFdiv 53 1024.
Definition leb : t -> t -> bool := SFleb.

(** The conversion to [off_t] truncates; it is undefined for what is not a number and for what
    does not fit. *)
Definition to_off_t (x : t) : outcome Z :=
  match x with
  | S754_zero _ => Ret 0
  | S754_finite s m e =>
      let n := if 0 <=? e then Z.pos m * 2 ^ e else Z.pos m / 2 ^ (- e) in
      let n := if s then - n else n in
      if (- 2 ^ 63 <=? n) && (n <? 2 ^ 63) then Ret n else Abort
  | _ => Abort
  end.

(** The constants 0.8, 0.05 and 0.0. *)
Definition c08 : t := S754_finite false 7205759403792794 (-53).
Definition c005 : t := S754_finite false 7205759403792794 (-57).
Definition zero : t := S754_zero false.

(** After sixteen rounds nothing is left to keep. *)
Lemma round16 : sub c08 (mul (of_Z 16) c005) = S754_zero false.
Proof. vm_compute. reflexivity. Qed.

Lemma to_off_t_nan : to_off_t S754_nan = Abort.
Proof. done. Qed.

(** Zero divided by anything is at most zero, or not a number. *)
Lemma zero_ratio x y : leb (div (mul x (S754_zero false)) y) zero = true \/ div (mul x (S754_zero false)) y = S754_nan.
Proof. destruct x as [[]|[]| |[] mx ex], y as [[]|[]| |[] my ey]; cbn; auto. Qed.

Lemma mul_nan x : mul x S754_nan = S754_nan.
Proof. by destruct x. Qed.

Lemma to_off_t_fuel x : to_off_t x <> OutOfFuel.
Proof. destruct x as [| | |[] m e]; cbn; try done; by destruct (_ && _). Qed.

(** ** The magnitude of positive numbers *)

Lemma digits2_log2 m : Zdigits2 (Zpos m) = Z.log2 (Zpos m) + 1.
Proof.
  assert (H : forall m, Zpos (digits2_pos m) = Z.log2 (Zpos m) + 1); [|apply H].
  induction m0 as [p IH|p IH|]; [| |done]; cbn [digits2_pos]; rewrite Pos2Z.inj_succ, IH.
  - rewrite Pos2Z.inj_xI, Z.log2_succ_double by lia. lia.
  - rewrite Pos2Z.inj_xO, Z.log2_double by lia. lia.
Qed.

Lemma shr_1_m x : 0 <= shr_m x -> shr_m (shr_1 x) = Z.div2 (shr_m x).
Proof. destruct x as [m r s]. cbn. by destruct m as [|[]|]. Qed.

Lemma iter_shr_m p : forall x, 0 <= shr_m x -> shr_m (iter_pos shr_1 p x) = shr_m x / 2 ^ Zpos p.
Proof.
  assert (Hdiv : forall a p, 0 <= a -> 0 <= a / 2 ^ Zpos p) by (intros; apply Z.div_pos; lia).
  assert (Hexp : forall a p q, 0 <= p -> 0 <= q -> a / 2 ^ p / 2 ^ q = a / 2 ^ (p + q)).
  { intros a p0 q Hp Hq. rewrite Z.div_div, <- Z.pow_add_r by lia. done. }
  induction p as [p IH|p IH|]; intros x Hx; cbn [iter_pos].
  - assert (H1 : 0 <= shr_m (shr_1 x)) by (rewrite shr_1_m by done; by apply Z.div2_nonneg).
    rewrite IH, IH, shr_1_m, Z.div2_div by (try done; rewrite IH by done; by apply Hdiv).
    change 2 with (2 ^ 1) at 1. rewrite !Hexp by lia. f_equal. f_equal. lia.
  - rewrite IH, IH by (try done; rewrite IH by done; by apply Hdiv). rewrite Hexp by lia. f_equal. f_equal. lia.
  - rewrite shr_1_m, Z.div2_div by done. done.
Qed.

(** Dropping digits keeps the magnitude. *)
Lemma shr_fexp_mag m e l : 0 < m -> -1000 <= e ->
  exists mrs e', shr_fexp 53 1024 m e l = (mrs, e') /\ 0 < shr_m mrs /\ e <= e' /\
    Z.log2 (shr_m mrs) + e' = Z.log2 m + e.
Proof.
  intros Hm He. destruct m as [|m|m]; [lia| |lia]. unfold shr_fexp. rewrite digits2_log2.
  pose proof (Z.log2_nonneg (Zpos m)). set (n := fexp _ _ _ - e). assert (Hn : n <= Z.log2 (Zpos m)) by (unfold n, fexp, emin; lia).
  assert (Hl : shr_m (shr_record_of_loc (Zpos m) l) = Zpos m) by (by destruct l as [|[]]).
  destruct n as [|p|p]; cbn [shr]; eexists _, _; (split; [reflexivity|]); rewrite ?iter_shr_m, Hl; try (rewrite Hl; lia);
    [lia| |lia].
  rewrite <- Z.shiftr_div_pow2, Z.log2_shiftr by lia.
  split_and!; [|lia|rewrite Z.max_r by lia; lia]. rewrite Z.shiftr_div_pow2 by lia. apply Z.div_str_pos.
  split; [lia|]. apply Z.log2_le_pow2; lia.
Qed.

Lemma round_nearest_even_mag m l : 0 < m ->
  0 < round_nearest_even m l /\ Z.log2 m <= Z.log2 (round_nearest_even m l) <= Z.log2 m + 1.
Proof.
  intros Hm. pose proof (Z.log2_succ_le m). pose proof (Z.log2_le_mono m (Z.succ m)).
  destruct l as [|[]]; cbn; try (destruct (Z.even m)); unfold Z.succ in *; lia.
Qed.

(** A positive number with its exponent and magnitude. *)
Definition mag (x : t) (elo lo hi : Z) : Prop :=
  exists m e, x = S754_finite false m e /\ elo <= e /\ lo <= Z.log2 (Zpos m) + e <= hi.

Lemma round_mag m e l lo hi : 0 < m -> -1000 <= e -> lo <= Z.log2 m + e <= hi -> hi <= 900 ->
  mag (binary_round_aux 53 1024 false m e l) e lo (hi + 1).
Proof.
  intros Hm He Hlo Hhi. unfold binary_round_aux.
  destruct (shr_fexp_mag m e l Hm He) as (mrs & e1 & -> & Hp1 & He1 & Hl1).
  destruct (round_nearest_even_mag (shr_m mrs) (loc_of_shr_record mrs) Hp1) as [Hp2 Hl2].
  destruct (shr_fexp_mag _ e1 loc_Exact Hp2 ltac:(lia)) as (mrs2 & e2 & -> & Hp3 & He2 & Hl3).
  destruct (shr_m mrs2) as [|m2|m2] eqn:Em; [lia| |lia]. pose proof (Z.log2_nonneg (Zpos m2)).
  rewrite (proj2 (Z.leb_le e2 _)) by lia. exists m2, e2. split_and!; [done|lia..].
Qed.

Lemma iter_xO m d : Zpos (Pos.iter xO m d) = Zpos m * 2 ^ Zpos d.
Proof.
  induction d as [|d IH] using Pos.peano_ind; [cbn; lia|].
  rewrite Pos.iter_succ, Pos2Z.inj_xO, IH, Pos2Z.inj_succ, Z.pow_succ_r by lia. lia.
Qed.

Lemma of_Z_mag z : 0 < z < 2 ^ 63 -> mag (of_Z z) (-53) 0 63.
Proof.
  intros Hz. destruct z as [|m|m]; [lia| |lia]. unfold of_Z, binary_normalize, binary_round, shl_align.
  rewrite (digits2_log2 m : Zpos (digits2_pos m) = _). unfold fexp, emin.
  pose proof (Z.log2_nonneg (Zpos m)). assert (Hl : Z.log2 (Zpos m) < 63) by (apply Z.log2_lt_pow2; lia).
  destruct (_ - 0) as [|d|d] eqn:Ed.
  1,2: destruct (round_mag (Zpos m) 0 loc_Exact 0 62) as (m' & e' & -> & ? & ?); [lia..|]; exists m', e'; split_and!; [done|lia..].
  assert (Hlog : Z.log2 (Zpos (Pos.iter xO m d)) = Z.log2 (Zpos m) + Zpos d) by (rewrite iter_xO, Z.log2_mul_pow2; lia).
  destruct (round_mag (Zpos (Pos.iter xO m d)) (Z.max (Z.log2 (Zpos m) + 1 + 0 - 53) (3 - 1024 - 53)) loc_Exact 0 62)
    as (m' & e' & -> & ? & ?); [lia|lia|lia|lia|]. exists m', e'. split_and!; [done|lia..].
Qed.

Lemma mul_mag x y ex lx hx ey ly hy : mag x ex lx hx -> mag y ey ly hy -> -1000 <= ex + ey -> hx + hy + 1 <= 900 ->
  mag (mul x y) (ex + ey) (lx + ly) (hx + hy + 2).
Proof.
  intros (mx & e1 & -> & ? & ?) (my & e2 & -> & ? & ?) He Hh. unfold mul, SFmul. cbn [xorb].
  pose proof (Z.log2_mul_below (Zpos mx) (Zpos my)). pose proof (Z.log2_mul_above (Zpos mx) (Zpos my)).
  rewrite Pos2Z.inj_mul.
  destruct (round_mag (Zpos mx * Zpos my) (e1 + e2) loc_Exact (lx + ly) (hx + hy + 1)) as (m & e & -> & ? & ?); [lia..|].
  exists m, e. split_and!; [done|lia..].
Qed.

Lemma div_mag x y ex lx hx ey ly hy : mag x ex lx hx -> mag y ey ly hy ->
  -400 <= ex -> -400 <= lx -> hx <= 400 -> -400 <= ey -> -400 <= ly -> hy <= 400 ->
  leb (div x y) zero = false.
Proof.
  intros (mx & e1 & -> & ? & ?) (my & e2 & -> & ? & ?) ? ? ? ? ? ?. unfold div, SFdiv, SFdiv_core_binary. cbn [xorb].
  rewrite !digits2_log2. set (e' := Z.min _ _). set (s := e1 - e2 - e').
  pose proof (Z.log2_nonneg (Zpos mx)). pose proof (Z.log2_nonneg (Zpos my)).
  assert (Hs : 0 <= s) by (unfold s; lia).
  assert (Hs2 : Z.log2 (Zpos my) - Z.log2 (Zpos mx) + 53 <= s) by (unfold s, e', fexp, emin; lia).
  assert (He' : -1000 <= e') by (unfold e', fexp, emin; lia).
  match goal with |- context [Z.div_eucl ?a _] => replace a with (Zpos mx * 2 ^ s) end.
  2:{ destruct s; [by rewrite Z.mul_1_r|by rewrite Z.shiftl_mul_pow2|lia]. }
  set (m' := Zpos mx * 2 ^ s). assert (Hlog : Z.log2 m' = Z.log2 (Zpos mx) + s) by (unfold m'; rewrite Z.log2_mul_pow2; lia).
  pose proof (Z_div_mod m' (Zpos my) ltac:(lia)) as Hdm. destruct (Z.div_eucl m' (Zpos my)) as [q r]. destruct Hdm as [Hq Hr].
  assert (Hgt : Zpos my < m') by (apply Z.log2_lt_cancel; lia).
  assert (Hqp : 0 < q) by nia.
  assert (Hql : Z.log2 q <= Z.log2 m') by (apply Z.log2_le_mono; nia).
  pose proof (Z.log2_nonneg q).
  destruct (round_mag q e' (new_location (Zpos my) r) (-1000) 900) as (m & e & -> & _); [done|done| |done|done].
  unfold s, e', fexp, emin in *. lia.
Qed.

(** Before the sixteenth round the share is positive for any sizes that are. *)
Lemma share_positive round m n : 0 <= round <= 15 -> 0 < m < 2 ^ 63 -> 0 < n < 2 ^ 63 ->
  leb (div (mul (of_Z m) (sub c08 (mul (of_Z round) c005))) (of_Z n)) zero = false.
Proof.
  intros Hr Hm Hn.
  assert (Hc : mag (sub c08 (mul (of_Z round) c005)) (-70) (-10) 0).
  { assert (Hin : round ∈ seqZ 0 16) by (apply elem_of_seqZ; lia).
    revert Hin. clear. intros Hin. cbv [seqZ] in Hin.
    repeat (apply elem_of_cons in Hin as [->|Hin]; [eexists _, _; split; [vm_compute; reflexivity|vm_compute; repeat split; discriminate]|]).
    by apply elem_of_nil in Hin. }
  eapply div_mag; [eapply mul_mag; [by apply of_Z_mag|exact Hc|lia|lia]|by apply of_Z_mag|lia..].
Qed.
End Double.

(** * Trees from which something has been removed *)
Module Pruned.
Import CacheDir.

Inductive pruned : node -> node -> Prop :=
| pruned_refl n : pruned n n
| pruned_dir d' d : pruned_entries d' d -> pruned (Dir d') (Dir d)
with pruned_entries : dir -> dir -> Prop :=
| pruned_nil : pruned_entries [] []
| pruned_skip e d' d : pruned_entries d' d -> pruned_entries d' (e :: d)
| pruned_keep name x' x d' d : pruned x' x -> pruned_entries d' d -> pruned_entries ((name, x') :: d') ((name, x) :: d).

Create HintDb pruned.
#[export] Hint Constructors pruned pruned_entries : pruned.

Scheme pruned_mut := Minimality for pruned Sort Prop
  with pruned_entries_mut := Minimality for pruned_entries Sort Prop.

Lemma pruned_entries_refl d : pruned_entries d d.
Proof. induction d as [|[name x] d IH]; auto with pruned. Qed.

Lemma pruned_filter (P : cstr * node -> Prop) `{forall e, Decision (P e)} d' d :
  pruned_entries d' d -> pruned_entries (filter P d') d.
Proof.
  induction 1; [rewrite list.filter_nil; auto with pruned|auto with pruned|].
  rewrite list.filter_cons. decide_goal; auto with pruned.
Qed.

(** Names stay unique, and entries stay regular files. *)
Lemma pruned_names d' d : pruned_entries d' d -> (fst <$> d') `sublist_of` (fst <$> d).
Proof. induction 1; cbn; [done|by apply sublist_cons|by apply sublist_skip]. Qed.

Lemma pruned_wf n' n : pruned n' n -> wf n -> wf n'.
Proof.
  apply (pruned_mut (fun n' n => wf n -> wf n') (fun d' d => Forall (fun e => wf e.2) d -> Forall (fun e => wf e.2) d')).
  - done.
  - intros d' d Hp IH [Hn Hw]%wf_Dir. apply wf_Dir. split; [|auto]. eapply sublist_NoDup; [exact Hn|]. by apply pruned_names.
  - done.
  - intros e d' d _ IH [_ Hw]%Forall_cons. auto.
  - intros name x' x d' d _ IHx _ IH [Hx Hw]%Forall_cons. constructor; cbn in *; auto.
Qed.

Lemma pruned_reg x' x : pruned x' x -> BlobCache.is_reg x = true -> BlobCache.is_reg x' = true.
Proof. by destruct 1. Qed.

Lemma pruned_tidy n' n : pruned n' n -> ObjCache.tidy n -> ObjCache.tidy n'.
Proof.
  set (P := fun e : cstr * node => (Subkey.valid e.1 = true -> BlobCache.is_reg e.2 = true) /\ ObjCache.tidy e.2).
  apply (pruned_mut (fun n' n => ObjCache.tidy n -> ObjCache.tidy n') (fun d' d => Forall P d -> Forall P d')).
  - done.
  - intros d' d Hp IH Ht%ObjCache.tidy_Dir. apply ObjCache.tidy_Dir. auto.
  - done.
  - intros e d' d _ IH [_ Hw]%Forall_cons. auto.
  - intros name x' x d' d Hx IHx _ IH [[Hr Ht] Hw]%Forall_cons. constructor; [split|]; cbn in *; [|auto..].
    intros Hv. eapply pruned_reg; [exact Hx|]. auto.
Qed.

Lemma pruned_files n' n : pruned n' n -> files n' `sublist_of` files n.
Proof.
  apply (pruned_mut (fun n' n => files n' `sublist_of` files n) (fun d' d => files (Dir d') `sublist_of` files (Dir d))); [done..| |].
  - intros [name x] d' d _ IH. rewrite BlobCache.files_cons. by apply sublist_inserts_l.
  - intros name x' x d' d _ IHx _ IH. rewrite !BlobCache.files_cons. apply sublist_app; [|done]. by apply fmap_sublist.
Qed.

Lemma pruned_is_dir n' n : pruned n' n -> ObjCache.is_dir n = true -> ObjCache.is_dir n' = true.
Proof. by destruct 1. Qed.

Section Gc.
Context `{CacheConfig} (unlink_ok : cstr -> bool).

(** Both garbage collectors only remove. *)
Lemma visit_pruned rec gone l acc l' acc' :
  Forall (fun e => forall acc n' acc', rec e.1 e.2 acc = (Some n', acc') -> pruned n' e.2) l ->
  BlobCache.visit rec gone l acc = (l', acc') -> pruned_entries l' l.
Proof.
  revert acc l' acc'. induction l as [|[name x] l IH]; intros acc l' acc' Hr; cbn [BlobCache.visit]; [intros [= <- <-]; constructor|].
  apply Forall_cons in Hr as [Hx Hr]. cbn [fst snd] in Hx.
  assert (Hleaf : forall acc, (let '(l', acc) := BlobCache.visit rec gone l acc in
    (if bool_decide (name ∈ gone) then l' else (name, x) :: l', acc)) = (l', acc') -> pruned_entries l' ((name, x) :: l)).
  { intros acc1. destruct (BlobCache.visit rec gone l acc1) as [l1 acc2] eqn:E. intros [= <- <-].
    destruct (bool_decide _); eauto with pruned. }
  destruct x as [data mt|d|]; [apply Hleaf| |apply Hleaf].
  destruct (rec name (Dir d) acc) as [[n'|] acc1] eqn:Ex; destruct (BlobCache.visit rec gone l acc1) as [l1 acc2] eqn:E;
    intros [= <- <-]; eauto with pruned.
Qed.

Lemma blob_gc_pruned refs n : forall path is_base acc n' acc',
  BlobCache.gc_blob_cache_dir unlink_ok refs path is_base n acc = (Some n', acc') -> pruned n' n.
Proof.
  induction n as [| |d IH] using node_ind'; intros path is_base acc n' acc'; cbn [BlobCache.gc_blob_cache_dir];
    [intros [= <- <-]; constructor..|].
  destruct (BlobCache.scan refs d d acc) as [del acc1], (BlobCache.delete_entries _ _ _ _ _ _ acc1) as [gone acc2].
  destruct (BlobCache.visit _ gone d acc2) as [d' acc3] eqn:Ev. apply visit_pruned in Ev.
  - destruct d'; [destruct is_base|]; intros [= <- <-]; by constructor.
  - eapply Forall_impl; [exact IH|]. intros e He acc0 n0 acc0'. apply He.
Qed.

Lemma visit_objs_pruned rec gone l g l' g' :
  Forall (fun e => forall g n' g', rec e.1 e.2 g = Ret (Some n', g') -> pruned n' e.2) l ->
  ObjCache.visit_objs rec gone l g = Ret (l', g') -> pruned_entries l' l.
Proof.
  revert g l' g'. induction l as [|[name x] l IH]; intros g l' g' Hr; cbn [ObjCache.visit_objs]; [intros [= <- <-]; constructor|].
  apply Forall_cons in Hr as [Hx Hr]. cbn [fst snd] in Hx.
  destruct x as [data mt|d|]; intros Hv; inv_bind; repeat (case_match; inv_bind); simplify_eq; eauto with pruned.
Qed.

Lemma obj_gc_pruned usable n : forall path is_base g n' g',
  ObjCache.gc_obj_cache_dir usable unlink_ok path is_base n g = Ret (Some n', g') -> pruned n' n.
Proof.
  induction n as [| |d IH] using node_ind'; intros path is_base g n' g'; cbn [ObjCache.gc_obj_cache_dir];
    [intros [= <- <-]; constructor..|].
  destruct (ObjCache.scan_objs d d _) as [[del found] a], (BlobCache.delete_entries _ _ _ _ _ _ a) as [gone a1].
  intros Hv. apply outcome_bind_Ret in Hv as ([d1 g1] & Hv & Hw). apply visit_objs_pruned in Hv.
  - apply outcome_bind_Ret in Hw as ([gone2 g2] & _ & [= Hw]). unfold ObjCache.remove_empty in Hw.
    assert (Hf := pruned_filter (fun e => e.1 ∉ gone2) _ _ Hv).
    repeat case_match; simplify_eq; auto with pruned; by rewrite <- H2 || constructor.
  - eapply Forall_impl; [exact IH|]. intros e He g0 n0 g0'. apply He.
Qed.
End Gc.
End Pruned.

Module CacheGc.
Import CacheDir Pruned.

(** The trees of the two caches, the cached bytes, what the [size] file says ([None]: there is
    none, [Some None]: it cannot be parsed), and the counters. *)
Record t := mk {
  objs : node;
  blobs : node;
  this_runs_cached_bytes_ : Z;
  stored_cached_bytes_ : Z;
  size_file : option (option Z);
  gc_runs_ : Z;
  no_store_ : bool;
  no_fetch_ : bool
}.
Definition set_trees (o b : node) (run : Z) (s : t) : t :=
  mk o b run (stored_cached_bytes_ s) (size_file s) (gc_runs_ s) (no_store_ s) (no_fetch_ s).
Definition set_stored (n : Z) (s : t) : t :=
  mk (objs s) (blobs s) (this_runs_cached_bytes_ s) n (size_file s) (gc_runs_ s) (no_store_ s) (no_fetch_ s).
Definition set_size_file (n : Z) (s : t) : t :=
  mk (objs s) (blobs s) (this_runs_cached_bytes_ s) (stored_cached_bytes_ s) (Some (Some n)) (gc_runs_ s) (no_store_ s) (no_fetch_ s).
Definition inc_gc_runs (s : t) : t :=
  mk (objs s) (blobs s) (this_runs_cached_bytes_ s) (stored_cached_bytes_ s) (size_file s) ((gc_runs_ s + 1) mod 2 ^ 32)
     (no_store_ s) (no_fetch_ s).

(** ** The size of the cache *)

(** [gc_collect_total_objects_size()] and [gc_collect_total_blobs_size()]. *)
Definition total_size (s : t) : Z := recursive_total_file_size (objs s) + recursive_total_file_size (blobs s).

(** [fix_stored_bytes()]. *)
Definition fix_stored_bytes (s : t) : Z * t :=
  let starting_cached_bytes := total_size s - this_runs_cached_bytes_ s in
  (starting_cached_bytes, set_size_file starting_cached_bytes s).

(** [get_stored_bytes_from_cache()]. *)
Definition get_stored_bytes_from_cache (s : t) : Z * t :=
  match size_file s with
  | None => (0, s)
  | Some None => fix_stored_bytes s
  | Some (Some cached_bytes) => if cached_bytes <? 0 then fix_stored_bytes s else (cached_bytes, s)
  end.

(** [read_stored_cached_bytes()], [update_stored_bytes()], [update_cached_bytes()]. *)
Definition read_stored_cached_bytes (s : t) : t :=
  let '(n, s) := get_stored_bytes_from_cache s in set_stored n s.
Definition update_stored_bytes (s : t) : t :=
  if no_store_ s then s else set_size_file (this_runs_cached_bytes_ s + stored_cached_bytes_ s) s.
Definition update_cached_bytes (bytes : Z) (s : t) : t :=
  set_trees (objs s) (blobs s) (this_runs_cached_bytes_ s + bytes) s.

Section Gc.
Context `{XXHash} `{CacheConfig} `{Entry.Serializer}.
Context (file_info_matches : cstr -> FileInfo.t -> bool) (is_in_read_only_location : cstr -> bool) (unlink_ok : cstr -> bool).
Context (objs_dir blobs_dir : cstr).

(** [is_gc_needed()]. *)
Definition is_gc_needed (s : t) : bool * t :=
  let '(n, s) := get_stored_bytes_from_cache s in (max_cache_size <? n + this_runs_cached_bytes_ s, s).

(** [obj_cache->gc(&referenced_blobs, ...)] and [blob_cache->gc(referenced_blobs, ...)]. *)
Definition collect (s : t) : outcome (t * BlobCache.gc_acc) :=
  '(o, g) ← ObjCache.gc (Entry.is_entry_usable file_info_matches is_in_read_only_location (BlobCache.mk (blobs s) 0))
              unlink_ok objs_dir (objs s) (ObjCache.mkGc [] (BlobCache.mkAcc 0 0 0 0));
  let '(b, acc) := BlobCache.gc unlink_ok (ObjCache.referenced_blobs g) blobs_dir (blobs s) (ObjCache.acc g) in
  Ret (set_trees o b (this_runs_cached_bytes_ s + BlobCache.run_bytes acc) s, acc).

(** [unlink(name)] of an object by its path. *)
Fixpoint unlink_path (path name : cstr) (n : node) : node :=
  match n with
  | Dir d =>
      Dir (omap (fun e => match e.2 with
                          | Dir _ => Some (e.1, unlink_path (BlobCache.subpath path e.1) name e.2)
                          | Reg _ _ | Special => if bool_decide (BlobCache.subpath path e.1 = name) then None else Some e
                          end) d)
  | _ => n
  end.

Fixpoint has_path (path name : cstr) (n : node) : bool :=
  match n with
  | Dir d =>
      existsb (fun e => match e.2 with
                        | Dir _ => has_path (BlobCache.subpath path e.1) name e.2
                        | Reg _ _ | Special => bool_decide (BlobCache.subpath path e.1 = name)
                        end) d
  | _ => false
  end.

(** The removal of the objects beyond the ones to keep. *)
Fixpoint remove_objs (l : list (cstr * (Z * Z) * Z)) (s : t) : t :=
  match l with
  | [] => s
  | (name, _, size) :: l =>
      remove_objs l (if unlink_ok name && has_path objs_dir name (objs s)
                     then update_cached_bytes (- size) (set_trees (unlink_path objs_dir name (objs s)) (blobs s) (this_runs_cached_bytes_ s) s)
                     else s)
  end.

(** The share of the objects to keep. *)
Definition kept_ratio (round : Z) (s : t) : Double.t :=
  Double.div (Double.mul (Double.of_Z max_cache_size) (Double.sub Double.c08 (Double.mul (Double.of_Z round) Double.c005)))
    (Double.of_Z (stored_cached_bytes_ s + this_runs_cached_bytes_ s)).

(** The loop that removes older entries. *)
Fixpoint shrink (fuel : nat) (round target : Z) (obj_ts_sizes : list (cstr * (Z * Z) * Z)) (s : t) : outcome t :=
  if target <? this_runs_cached_bytes_ s then
    if Double.leb (kept_ratio round s) Double.zero then Ret s
    else
      match fuel with
      | O => OutOfFuel
      | S fuel =>
          keep_objects_count ← Double.to_off_t (Double.mul (Double.of_Z (Z.of_nat (length obj_ts_sizes))) (kept_ratio round s));
          let keep := Z.to_nat keep_objects_count in
          let s := remove_objs (drop keep obj_ts_sizes) s in
          '(s, _) ← collect s;
          shrink fuel (round + 1) target (resize keep ([], (0, 0), 0) obj_ts_sizes) s
      end
  else Ret s.

(** [gc()]. *)
Definition gc (s : t) : outcome t :=
  if no_fetch_ s || no_store_ s then Ret s
  else
    let s := inc_gc_runs s in
    '(s, acc) ← collect s;
    let s := set_stored (BlobCache.cache_bytes acc + BlobCache.debug_bytes acc - this_runs_cached_bytes_ s) s in
    if max_cache_size <? stored_cached_bytes_ s + this_runs_cached_bytes_ s then
      target ← Double.to_off_t (Double.sub (Double.mul (Double.of_Z max_cache_size) Double.c08) (Double.of_Z (stored_cached_bytes_ s)));
      shrink 17 0 target (ObjCache.gc_collect_sorted_obj_timestamp_sizes objs_dir (objs s)) s
    else Ret s.

End Gc.

(** ** What garbage collection promises *)
Section Correct.
Context `{XXHash} `{CacheConfig} `{Entry.Serializer} `{!XXHashOk} `{!CacheConfigOk}.
Context (file_info_matches : cstr -> FileInfo.t -> bool) (is_in_read_only_location : cstr -> bool) (unlink_ok : cstr -> bool).
Context (objs_dir blobs_dir : cstr).

(** The trees are directories with unique names in which only regular files are named like
    entries. *)
Definition wf_cache (s : t) : Prop :=
  (CacheDir.wf (objs s) /\ ObjCache.tidy (objs s) /\ ObjCache.is_dir (objs s) = true) /\
  (CacheDir.wf (blobs s) /\ ObjCache.is_dir (blobs s) = true).

(** Every file named like an entry holds an entry whose system files have not changed and whose
    blobs are all in the cache. *)
Definition sound (s : t) : Prop :=
  forall f, f ∈ files (objs s) -> ObjCache.valid_file f ->
  exists entry cl, (forall mt, ObjCache.retrieve_node (Some (Reg f.2 mt)) = Ret (Some (entry, cl))) /\
    Entry.ok file_info_matches is_in_read_only_location (BlobCache.mk (blobs s) 0) entry = true.

Abbreviation collect := (collect file_info_matches is_in_read_only_location unlink_ok objs_dir blobs_dir).
Abbreviation shrink := (shrink file_info_matches is_in_read_only_location unlink_ok objs_dir blobs_dir).
Abbreviation gc := (gc file_info_matches is_in_read_only_location unlink_ok objs_dir blobs_dir).

(** *** Removing objects *)
Lemma unlink_path_pruned name n : forall path, pruned (unlink_path path name n) n.
Proof.
  induction n as [| |d IH] using node_ind'; intros path; cbn [unlink_path]; [constructor..|]. constructor.
  induction IH as [|[m x] d Hx _ IH]; cbn [omap list_omap]; [constructor|]. destruct x; cbn [fst snd] in *.
  - destruct (bool_decide _); auto with pruned.
  - auto with pruned.
  - destruct (bool_decide _); auto with pruned.
Qed.

Lemma wf_cache_pruned s o b run :
  wf_cache s -> pruned o (objs s) -> pruned b (blobs s) -> wf_cache (set_trees o b run s).
Proof.
  intros ((Hw & Ht & Hd) & Hwb & Hdb) Ho Hb. split_and!; cbn;
    eauto using pruned_wf, pruned_tidy, pruned_is_dir.
Qed.

(** What does not change but for removals. *)
Definition shrunk (s s' : t) : Prop :=
  (wf_cache s -> wf_cache s') /\ files (objs s') `sublist_of` files (objs s) /\ files (blobs s') `sublist_of` files (blobs s) /\
  stored_cached_bytes_ s' = stored_cached_bytes_ s.

Lemma shrunk_trans s1 s2 s3 : shrunk s1 s2 -> shrunk s2 s3 -> shrunk s1 s3.
Proof. intros (? & ? & ? & ?) (? & ? & ? & ?). split_and!; [auto|by etrans|by etrans|congruence]. Qed.

Lemma pruned_shrunk s o b run : pruned o (objs s) -> pruned b (blobs s) -> shrunk s (set_trees o b run s).
Proof. intros Ho Hb. split_and!; [|by apply pruned_files..|done]. intros Hw. by apply wf_cache_pruned. Qed.

Lemma remove_objs_shrunk l s : shrunk s (remove_objs unlink_ok objs_dir l s).
Proof.
  revert s. induction l as [|[[name ts] size] l IH]; intros s; cbn [remove_objs]; [by split_and!|].
  destruct (_ && _); [|apply IH]. eapply shrunk_trans; [|apply IH].
  apply (pruned_shrunk s (unlink_path objs_dir name (objs s)) (blobs s)); [apply unlink_path_pruned|constructor].
Qed.

(** *** Collecting garbage once *)
Lemma lookup_files d path data :
  CacheDir.wf (Dir d) -> (path, data) ∈ files (Dir d) <-> exists mt, CacheDir.lookup path (Dir d) = Some (Reg data mt).
Proof.
  generalize (Dir d) as n. clear d. intros n. revert path. induction n as [c mt| |d IH] using node_ind'; intros path Hw.
  - cbn [files]. rewrite list_elem_of_singleton. destruct path; cbn; [|split; [done|by intros [? ?]]].
    split; [intros [= ->]; by exists mt|intros [mt' [= -> _]]; done].
  - cbn [files]. rewrite elem_of_nil. destruct path; cbn; split; try done; by intros [? ?].
  - apply wf_Dir in Hw as [Hnd Hw]. rewrite Forall_forall in IH, Hw. rewrite ObjCache.elem_files_Dir. split.
    + intros ([name x] & p & He & Hp & Hf). cbn [fst snd] in *. subst path. cbn [CacheDir.lookup].
      rewrite (find_elem name x d Hnd He). by apply (IH _ He p (Hw _ He)).
    + destruct path as [|name p]; cbn [CacheDir.lookup]; [by intros [? ?]|]. destruct (find name d) as [x|] eqn:Ef; [|by intros [? ?]].
      intros Hl. apply find_Some in Ef. exists (name, x), p. split_and!; [done..|]. by apply (IH _ Ef p (Hw _ Ef)).
Qed.

(** The file of a referenced blob is not deleted. *)
Lemma blob_not_doomed refs dirs ds data :
  digits_below 64 ds -> length ds = 22%nat -> (Base64.enc <$> ds) ++ [NUL] ∈ refs ->
  ~ BlobCache.doomed unlink_ok refs blobs_dir (dirs ++ [take Hash.kAsciiLength ((Base64.enc <$> ds) ++ [NUL])], data).
Proof.
  intros Hds Hl Hin. unfold BlobCache.doomed. cbn [fst]. rewrite last_snoc, take_app_length' by (by rewrite length_fmap).
  intros [Hc _]. revert Hc. unfold BlobCache.classify, Hash.valid_ascii.
  replace Hash.kAsciiLength with (length ds) by done. rewrite ObjCache.valid_ascii_enc_bare by done.
  assert (Hash.ascii_of_str (Base64.enc <$> ds) = (Base64.enc <$> ds) ++ [NUL]) as ->.
  { do 23 (destruct ds as [|? ds]; try done). }
  by rewrite bool_decide_true.
Qed.

(** A referenced blob survives the collection of the blobs. *)
Lemma blob_survives refs d n' acc' hash :
  debug_cache = false -> CacheDir.wf (Dir d) -> CacheDir.wf n' -> ObjCache.is_dir n' = true ->
  files n' = filter (fun f => ~ BlobCache.doomed unlink_ok refs blobs_dir f) (files (Dir d)) ->
  Entry.ascii_of hash ∈ refs ->
  Entry.blob_in_cache (BlobCache.mk (Dir d) 0) hash = true -> Entry.blob_in_cache (BlobCache.mk n' acc') hash = true.
Proof.
  intros Hdebug Hw Hw' Hd' Hf Hin. destruct n' as [|d'|]; try done.
  unfold Entry.blob_in_cache, BlobCache.get_fd_for_file, BlobCache.construct_cached_file_name.
  destruct (Entry.to_ascii_of hash) as (ds & Hds & Hl & -> & Ea). cbn [BlobCache.root].
  unfold mbind, outcome_bind. rewrite Ea in *. match goal with |- context [?l ++ [?a]] => set (dirs := l); set (name := a) end.
  destruct (CacheDir.lookup (dirs ++ [name]) (Dir d)) as [[data mt| |]|] eqn:El; try done.
  intros _. assert (Hx : (dirs ++ [name], data) ∈ files (Dir d')) by (rewrite Hf; apply list_elem_of_filter; split;
    [by apply blob_not_doomed|apply lookup_files; [done|by exists mt]]).
  by apply lookup_files in Hx as [mt' ->].
Qed.

Lemma ok_survives refs d n' entry :
  debug_cache = false -> CacheDir.wf (Dir d) -> CacheDir.wf n' -> ObjCache.is_dir n' = true ->
  files n' = filter (fun f => ~ BlobCache.doomed unlink_ok refs blobs_dir f) (files (Dir d)) ->
  Entry.ok file_info_matches is_in_read_only_location (BlobCache.mk (Dir d) 0) entry = true -> Entry.refs_of entry ⊆ refs ->
  Entry.ok file_info_matches is_in_read_only_location (BlobCache.mk n' 0) entry = true.
Proof.
  intros Hdebug Hw Hw' Hd' Hf. unfold Entry.ok, Entry.refs_of. destruct (Entry.deserialize entry) as [e|]; [|done].
  rewrite !andb_true_iff, !forallb_forall. intros [Hc Hb] Hrefs. split; [done|]. intros hash Hh.
  eapply blob_survives; try done; [|by apply Hb]. apply Hrefs, list_elem_of_fmap. exists hash. by rewrite list_elem_of_In.
Qed.

(** One collection: what is left is sound, and the cached bytes change like the size. *)
Lemma collect_correct s :
  debug_cache = false -> (forall path, unlink_ok path = true) -> wf_cache s ->
  exists s' acc, collect s = Ret (s', acc) /\ shrunk s s' /\ sound s' /\
    this_runs_cached_bytes_ s' - this_runs_cached_bytes_ s = total_size s' - total_size s.
Proof.
  intros Hdebug Hunlink ((Hw & Ht & Hd) & Hwb & Hdb). unfold collect, ObjCache.gc.
  set (bc := BlobCache.mk (blobs s) 0). set (g0 := ObjCache.mkGc [] (BlobCache.mkAcc 0 0 0 0)).
  destruct (ObjCache.gc_obj_cache_dir_collects _ unlink_ok _ _ _
    (Entry.is_entry_usable_check file_info_matches is_in_read_only_location bc) Hdebug Hunlink (objs s) Hw Ht Hd objs_dir true g0
    (Entry.good_nil bc)) as (r & g & Hg & C & Hr & _).
  destruct (Hr eq_refl) as [o ->]. rewrite Hg. unfold mbind, outcome_bind. cbn [default].
  destruct (blobs s) as [|d|] eqn:Eb; try done. unfold BlobCache.gc.
  destruct (BlobCache.gc_blob_cache_dir_collects unlink_ok Hdebug (ObjCache.referenced_blobs g) (Dir d) Hwb blobs_dir true (ObjCache.acc g))
    as (rb & Hb & Hf & Hs).
  destruct (Hs eq_refl) as [b ->]. rewrite Hb. cbn [default]. unfold id. eexists _, _. split; [done|].
  assert (Ho : pruned o (objs s)) by (eapply Pruned.obj_gc_pruned; exact Hg).
  assert (Hpb : pruned b (blobs s)) by (rewrite Eb; eapply Pruned.blob_gc_pruned; exact Hb).
  unfold id. split; [by apply pruned_shrunk|]. split.
  - intros f Hin Hv. destruct (ObjCache.co_usable _ _ _ _ _ _ _ C f Hin Hv) as (entry & cl & He & Hok & Hrefs).
    exists entry, cl. split; [exact He|]. cbn [blobs set_trees].
    eapply ok_survives; [exact Hdebug|exact Hwb|..]; [| |exact Hf|exact Hok|exact Hrefs].
    + eapply pruned_wf; [exact Hpb|]. by rewrite Eb.
    + eapply pruned_is_dir; [exact Hpb|]. by rewrite Eb.
  - unfold total_size. cbn [this_runs_cached_bytes_ objs blobs set_trees]. rewrite Eb, !total_files, Hf, BlobCache.sizes_filter_not.
    pose proof (ObjCache.co_run _ _ _ _ _ _ _ C) as Hc. cbn [ObjCache.acc g0 BlobCache.run_bytes] in Hc.
    unfold BlobCache.add_acc, BlobCache.effect. cbn [BlobCache.run_bytes]. lia.
Qed.

Lemma set_stored_sound n s : sound s -> sound (set_stored n s).
Proof. done. Qed.

(** *** The loop *)
Section Loop.
Context (Hdebug : debug_cache = false) (Hunlink : forall path, unlink_ok path = true).

(** The rounds of the loop: each one is made since the cache is still too large and the share of
    the entries to keep is not zero yet, and removes the entries beyond that share and what is of
    no use any more. *)
Inductive rounds (target : Z) : Z -> list (cstr * (Z * Z) * Z) -> t -> Z -> list (cstr * (Z * Z) * Z) -> t -> Prop :=
| rounds_end r l s : rounds target r l s r l s
| rounds_next r l s keep s1 acc r' l' s' :
    target < this_runs_cached_bytes_ s -> Double.leb (kept_ratio r s) Double.zero = false ->
    Double.to_off_t (Double.mul (Double.of_Z (Z.of_nat (length l))) (kept_ratio r s)) = Ret keep ->
    collect (remove_objs unlink_ok objs_dir (drop (Z.to_nat keep) l) s) = Ret (s1, acc) ->
    rounds target (r + 1) (resize (Z.to_nat keep) ([], (0, 0), 0) l) s1 r' l' s' -> rounds target r l s r' l' s'.

(** The size of the cache and its limit are positive 64-bit numbers. *)
Definition sizes_ok (s : t) : Prop :=
  0 < max_cache_size < 2 ^ 63 /\ 0 < stored_cached_bytes_ s + this_runs_cached_bytes_ s < 2 ^ 63.

(** How the loop ends: the cache is small enough, or all sixteen rounds have been made. *)
Definition shrink_post (target round : Z) (l : list (cstr * (Z * Z) * Z)) (s s' : t) : Prop :=
  shrunk s s' /\ sound s' /\
  exists r l', rounds target round l s r l' s' /\ r <= 16 /\
    (this_runs_cached_bytes_ s' <= target \/ r = 16 \/ ~ sizes_ok s').

(** How it fails: the number of entries to keep does not fit. *)
Definition count_overflows (target round : Z) (l : list (cstr * (Z * Z) * Z)) (s : t) : Prop :=
  exists r l' s', rounds target round l s r l' s' /\ target < this_runs_cached_bytes_ s' /\
    Double.to_off_t (Double.mul (Double.of_Z (Z.of_nat (length l'))) (kept_ratio r s')) = Abort.

Lemma share_not_positive r s : 0 <= r <= 16 -> Double.leb (kept_ratio r s) Double.zero = true -> r = 16 \/ ~ sizes_ok s.
Proof.
  intros Hr Hk. destruct (decide (r = 16)) as [|Hne]; [by left|right]. intros [Hm Hn]. unfold kept_ratio in Hk.
  by rewrite (Double.share_positive r) in Hk by (done || lia).
Qed.

Lemma shrink_correct fuel round target l s :
  0 <= round <= 16 -> round + Z.of_nat fuel = 17 -> wf_cache s -> sound s ->
  match shrink fuel round target l s with
  | Ret s' => shrink_post target round l s s'
  | Abort => count_overflows target round l s
  | OutOfFuel => False
  end.
Proof.
  revert round l s. induction fuel as [|fuel IH]; intros round l s Hr Hf Hw Hs; cbn [CacheGc.shrink]; [lia|].
  destruct (Z.ltb_spec target (this_runs_cached_bytes_ s)) as [Ht|Ht].
  2:{ split_and!; [by split_and!|done|]. exists round, l. split_and!; [apply rounds_end|lia|by left]. }
  destruct (Double.leb (kept_ratio round s) Double.zero) eqn:Ek.
  { split_and!; [by split_and!|done|]. exists round, l. split_and!; [apply rounds_end|lia|right]. by apply share_not_positive. }
  destruct (Double.to_off_t _) as [keep| |] eqn:Eo; unfold mbind, outcome_bind;
    [|exists round, l, s; split_and!; [apply rounds_end|done..]|by apply Double.to_off_t_fuel in Eo].
  destruct (decide (round = 16)) as [->|Hne].
  { exfalso. unfold kept_ratio in *. rewrite Double.round16 in *.
    match type of Ek with Double.leb (Double.div (Double.mul ?x _) ?y) _ = _ => destruct (Double.zero_ratio x y) as [E|E] end; [congruence|].
    by rewrite E, Double.mul_nan in Eo. }
  set (s1 := remove_objs _ _ _ _). assert (Hs1 : shrunk s s1) by apply remove_objs_shrunk.
  destruct (collect_correct s1 Hdebug Hunlink ltac:(by apply Hs1)) as (s2 & acc & Hc & Hs2 & Hsound & _). rewrite Hc.
  specialize (IH (round + 1) (resize (Z.to_nat keep) ([], (0, 0), 0) l) s2 ltac:(lia) ltac:(lia)
    ltac:(by apply Hs2, Hs1) Hsound).
  destruct (shrink _ _ _ _ s2) as [s3| |]; [|destruct IH as (r & l' & s' & Hrd & Hend)|done].
  - destruct IH as (I1 & I2 & r & l' & Hrd & Hend). split_and!; [eapply shrunk_trans; [exact Hs1|]; by eapply shrunk_trans|done|].
    exists r, l'. split; [by eapply rounds_next|done].
  - exists r, l', s'. split; [by eapply rounds_next|done].
Qed.

End Loop.

End Correct.
(** ** An instance *)
#[local] Existing Instances Hashing.demo_xxhash Hashing.demo_xxhash_ok.

(** A cache of two entries, each with a blob of 60 bytes, for which 100 bytes are too few. *)
Definition demo_config : CacheConfig :=
  {| compress_cache := false; debug_cache := false; max_entry_size := 1000; max_cache_size := 100;
     shortcut_tries := 20; zstd_compress data := Some data; zstd_decompress := Some |}.
Lemma gc_demo_config_ok : @CacheConfigOk demo_config.
Proof. split. by intros data z [= ->]. Qed.

Definition demo_blob (entry : Z) : list Z := replicate 60 entry.
Definition demo_entry (entry : Z) : Entry.process_inputs_outputs :=
  Entry.mkPio (Entry.mkInputs [] [])
    (Entry.mkOutputs [Entry.mkFile (cs "/out") FileInfo.ISREG None (Some (XXH3_128bits (demo_blob entry))) None None None [] None] [] [] [] 0) None.
Definition demo_serializer : Entry.Serializer :=
  {| Entry.serialize _ := [];
     Entry.deserialize buf := match buf with [entry] => Some (demo_entry entry) | _ => None end |}.

Definition demo_ascii (entry : Z) : cstr := take 22 (Entry.ascii_of (XXH3_128bits (demo_blob entry))).
Definition demo_blobs : node :=
  Dir [(take 1 (demo_ascii 42), Dir [(take 2 (demo_ascii 42), Dir ((fun entry => (demo_ascii entry, Reg (demo_blob entry) (0, 0))) <$> [42; 200]))])].
Definition demo_cache : t :=
  mk (Dir [(cs "abcdefghij0", Reg (ObjCache.kMagicHeader ++ [42]) (1, 0)); (cs "abcdefghij1", Reg (ObjCache.kMagicHeader ++ [200]) (2, 0))])
     demo_blobs 0 138 None 0 false false.

Lemma demo_cache_wf : wf_cache demo_cache.
Proof.
  split; [split; [|split]|split]; [| |done| |done].
  - apply wf_Dir. split; [apply (bool_decide_eq_true_1 _); vm_compute; reflexivity|by repeat constructor].
  - apply ObjCache.tidy_Dir. repeat constructor.
  - do 3 (apply wf_Dir; split; [apply (bool_decide_eq_true_1 _); vm_compute; reflexivity|]; apply Forall_cons; split; [|by repeat constructor]);
      done.
Qed.

Definition demo_gc : outcome t :=
  @gc _ demo_config demo_serializer (fun _ _ => true) (fun _ => false) (fun _ => true) (cs "/objs") (cs "/blobs") demo_cache.


End CacheGc.
