(* ===== verification/StoreEntry.v ===== *)
(** Storing a process in the cache ([ExecedProcessCacher::store()] and its helpers in
    src/firebuild/execed_process_cacher.cc). *)

From stdpp Require Import base list strings option gmap sorting.
From Stdlib Require Import ZArith Lia Ascii.
From S2P Require Import Prelude Base64 Paths FileNames FileUsage Commands World Recorder Hashing Storage ObjCache HashCache Entries.

Local Open Scope Z_scope.

Module StoreEntry.
Import FileInfo Entry.

(** What storing depends on beside the caches' own configuration; [file_address] is where the
    string of an interned file name is in memory. *)
Class StoreConfig := {
  quirk_ignore_tmp_listing : bool;      (* FB_QUIRK_IGNORE_TMP_LISTING *)
  default_tmpdir : cstr;
  top_dir : option cstr;
  ccache_disabled : bool;
  shells : gset cstr;
  deterministic_cache : bool;           (* FB_DEBUG_DETERMINISTIC_CACHE *)
  file_address : cstr -> Z
}.

(** Why nothing is stored: shortcutting is disabled for this process with a reason, or not
    even that. *)
Inductive ending := Disabled (reason : string) | Skipped.

(** Go on, unless it has ended. *)
Definition continue {A B S : Type} (m : outcome ((ending + A) * S)) (f : A -> S -> outcome ((ending + B) * S))
    : outcome ((ending + B) * S) :=
  '(r, s) ← m; match r with inl e => Ret (inl e, s) | inr a => f a s end.

Section Store.
Context `{XXHash} `{CacheConfig} `{Serializer} `{StoreConfig}.
Context (max_inline_blob_size : Z) (SE : BlobCache.store_env).
Context (is_in_read_only_location is_in_ignore_location : cstr -> bool) (generation : cstr -> Z).

(** [strncmp(name, dir, dir_length) == 0 && name[dir_length] == '/']. *)
Definition below (dir name : cstr) : bool :=
  Paths.is_prefix dir name && bool_decide (char_at name (length dir) = slash).

(** [tmp_file_or_on_tmp_path(fu, filename, tmpdir)]. *)
Definition tmp_file_or_on_tmp_path (fu : FileUsage.t) (filename : cstr) : outcome bool :=
  if FileUsage.tmp_file_ fu then Ret true
  else if below default_tmpdir filename then
    match top_dir with Some top_dir => Ret (negb (below top_dir filename)) | None => Abort end
  else Ret false.

(** [rustc_ignored_dir(proc, filename)]. *)
Fixpoint rustc_arg_ignores (args : list cstr) (filename : cstr) : bool :=
  match args with
  | [] => false
  | arg :: args =>
      (if Paths.is_prefix (cs "dependency=") arg
       then bool_decide (drop (length (cs "dependency=")) arg = filename)
       else bool_decide (arg = cs "--out-dir") && bool_decide (head args = Some filename))
      || rustc_arg_ignores args filename
  end.
Definition ends_with (suffix str : cstr) : bool := Paths.is_prefix (reverse suffix) (reverse str).
Definition rustc_ignored_dir (args : list cstr) (filename : cstr) : outcome bool :=
  match args with
  | [] => Abort
  | arg0 :: args => Ret (ends_with (cs "rustc") arg0 && rustc_arg_ignores args filename)
  end.

(** ** Inputs *)

(** How a file the process used is an input: not, by being missing, or by its initial state;
    or it is a temporary file. *)
Inductive input := NoInput | InNotExist | InState (fi : FileInfo.t) | InTmp.

Definition classify_input (args : list cstr) (filename : cstr) (fu : FileUsage.t) : outcome input :=
  match FileUsage.initial_type fu with
  | DONTKNOW => Ret NoInput
  | NOTEXIST => Ret InNotExist
  | type =>
      ignored ← (if bool_decide (type = ISDIR) && FileUsage.initial_hash_known fu then
                   if quirk_ignore_tmp_listing && bool_decide (filename = default_tmpdir) then Ret true
                   else rustc_ignored_dir args filename
                 else Ret false);
      if ignored : bool then Ret (InState (set_hash None (FileUsage.initial_state_ fu)))
      else
        tmp ← (if bool_decide (type = ISREG) then tmp_file_or_on_tmp_path fu filename else Ret false);
        Ret (if tmp : bool then InTmp else InState (FileUsage.initial_state_ fu))
  end.

(** One pass over the files: those in system locations, or the others. *)
Fixpoint collect_inputs (system : bool) (args : list cstr) (usages : list (cstr * FileUsage.t))
    : outcome (ending + process_inputs) :=
  match usages with
  | [] => Ret (inr (mkInputs [] []))
  | (filename, fu) :: usages =>
      if negb (Bool.eqb (is_in_read_only_location filename) system) then collect_inputs system args usages
      else if negb (FileUsage.generation_ fu =? generation filename) then
        Ret (inl (Disabled "A file could not be stored because it changed since the process used it."))
      else
        i ← classify_input args filename fu;
        match i with
        | InTmp => Ret (inl Skipped)
        | _ =>
            rest ← collect_inputs system args usages;
            match rest with
            | inl e => Ret (inl e)
            | inr pi =>
                Ret (inr (match i with
                          | InState fi => mkInputs (add_file filename fi false None None :: pi_path pi) (pi_path_notexist pi)
                          | InNotExist => mkInputs (pi_path pi) (filename :: pi_path_notexist pi)
                          | _ => pi
                          end))
            end
        end
  end.

(** ** Outputs *)

Record outs := mkOuts { o_isreg : list file; o_isdir : list file; o_notexist : list cstr }.

(** [if (inline_data && inline_data_len > 0)]. *)
Definition nonempty (data : option (list Z)) : option (list Z) :=
  match data with Some (_ :: _) => data | _ => None end.

(** The state of a changed file after the process, with the data to inline and the bytes
    stored so far. *)
Definition new_state (E : HashCache.Env) (filename : cstr) (fu : FileUsage.t) (total : Z) (s : HashCache.t)
    : outcome ((ending + (FileInfo.t * option (list Z) * Z)) * HashCache.t) :=
  let info := of_type DONTKNOW in
  match HashCache.stat64 E filename with
  | None => Ret (inr (set_type NOTEXIST info, None, total), s)
  | Some st =>
      let mode := st_mode (HashCache.st st) in
      let info := set_type EXIST info in
      let finish info inline total s :=
        Ret (inr (if FileUsage.mode_changed_ fu then set_mode_bits (Z.land mode 4095) 4095 info else info, inline, total), s) in
      if FileUsage.written_ fu then
        if S_ISREG mode then
          let info := set_type ISREG info in
          match HashCache.opened E filename with
          | None => finish (set_type NOTEXIST info) None total s
          | Some (f, data) =>
              '(r, s) ← HashCache.store_and_get_hash max_inline_blob_size SE is_in_read_only_location is_in_ignore_location
                          E filename 0 (Some (HashCache.mkFd (Some st) f data)) (Some st) true s;
              match r with
              | None => Ret (inl (Disabled "Could not store blob in cache, not writing shortcut info"), s)
              | Some (hash, stored_bytes, inline) =>
                  let total := total + default 0 stored_bytes in
                  if max_entry_size <? total then Ret (inl Skipped, s)
                  else finish (set_hash (Some hash) (set_size (st_size (HashCache.st st)) info)) (nonempty inline) total s
              end
          end
        else if S_ISDIR mode then finish (set_type ISDIR info) None total s
        else finish (set_type NOTEXIST info) None total s
      else finish info None total s
  end.

(** What is recorded of it. *)
Definition add_output (filename : cstr) (fu : FileUsage.t) (info : FileInfo.t) (inline : option (list Z)) (o : outs)
    : outcome (ending + outs) :=
  let new_file := add_file filename info true (FileUsage.timestamp_source_ fu) inline in
  match type_ info with
  | DONTKNOW => Ret (inr o)
  | EXIST | ISREG =>
      tmp ← tmp_file_or_on_tmp_path fu filename;
      Ret (if tmp : bool then inl (Disabled "Process created a temporary file")
           else inr (mkOuts (o_isreg o ++ [new_file]) (o_isdir o) (o_notexist o)))
  | ISDIR =>
      tmp ← tmp_file_or_on_tmp_path fu filename;
      Ret (if tmp : bool then inl (Disabled "Process created a temporary dir")
           else inr (mkOuts (o_isreg o) (o_isdir o ++ [add_file filename info true (FileUsage.timestamp_source_ fu) None]) (o_notexist o)))
  | NOTEXIST =>
      Ret (inr (if bool_decide (FileUsage.initial_type fu = NOTEXIST) then o
                else mkOuts (o_isreg o) (o_isdir o) (o_notexist o ++ [filename])))
  | NOTEXIST_OR_ISREG => Abort
  end.

Fixpoint collect_outputs (E : HashCache.Env) (usages : list (cstr * FileUsage.t)) (o : outs) (total : Z) (s : HashCache.t)
    : outcome ((ending + (outs * Z)) * HashCache.t) :=
  match usages with
  | [] => Ret (inr (o, total), s)
  | (filename, fu) :: usages =>
      if negb (FileUsage.written_ fu) && negb (FileUsage.mode_changed_ fu) then collect_outputs E usages o total s
      else
        continue (new_state E filename fu total s) (fun '(info, inline, total) s =>
          r ← add_output filename fu info inline o;
          match r with
          | inl e => Ret (inl e, s)
          | inr o => collect_outputs E usages o total s
          end)
  end.

(** ** Data appended to inherited files *)

(** The recorders and the caches. *)
Record st := mkSt { recorders : PipeRecorder.heap; hc : HashCache.t; objs : BlobCache.t }.
Definition set_blobs (b : BlobCache.t) (s : st) : st :=
  mkSt (recorders s) (HashCache.mk (HashCache.db_ (hc s)) b) (objs s).
Definition set_hc (h : HashCache.t) (s : st) : st := mkSt (recorders s) h (objs s).

(** [recorder->store(...)]. *)
Definition recorder_store (i : nat) (s : st) : outcome (option (@PipeRecorder.stored Hash.t) * st) :=
  r ← PipeRecorder.get (recorders s) i;
  '(key, blobs) ← (match PipeRecorder.fd_ r with
                   | Some contents =>
                       if PipeRecorder.use_memory_buffer_ r && (0 <? PipeRecorder.offset_ r) then Ret (None, HashCache.blobs (hc s))
                       else BlobCache.move_store_file SE contents (PipeRecorder.offset_ r) (HashCache.blobs (hc s))
                   | None => Ret (None, HashCache.blobs (hc s))
                   end);
  '(r, stored) ← PipeRecorder.store (fun _ _ => key) r;
  let s := set_blobs blobs s in
  Ret (stored, mkSt (<[i := r]> (recorders s)) (hc s) (objs s)).

Definition append_hash (fd : Z) (hash : Hash.t) : append_to_fd :=
  mkAppend fd (if compress_cache then None else Some hash) (if compress_cache then Some hash else None) [].

(** One inherited file that may be written: what is added, and the stored bytes. *)
Definition append_of (E : HashCache.Env) (f : inherited_file_t) (total : Z) (s : st)
    : outcome ((ending + (option append_to_fd * Z)) * st) :=
  match if_fds f with
  | [] => Abort
  | fd :: _ =>
      match if_type f, if_recorder f with
      | FD_PIPE_OUT, Some i =>
          '(stored, s) ← recorder_store i s;
          match stored with
          | None => Ret (inl (Disabled "Could not store pipe traffic in cache, not writing shortcut info"), s)
          | Some stored =>
              let total := total + match stored with PipeRecorder.Blob _ size => size | _ => 0 end in
              if max_entry_size <? total then Ret (inl Skipped, s)
              else
                Ret (inr (match stored with
                          | PipeRecorder.Empty => None
                          | PipeRecorder.Inline data => Some (mkAppend fd None None data)
                          | PipeRecorder.Blob hash _ => Some (append_hash fd hash)
                          end, total), s)
          end
      | FD_FILE, _ =>
          match if_filename f with
          | None => Abort
          | Some filename =>
              match HashCache.stat64 E filename with
              | None => Ret (inl (Disabled "Could not stat file, not writing shortcut info"), s)
              | Some st =>
                  let size := st_size (HashCache.st st) in
                  if negb (S_ISREG (st_mode (HashCache.st st))) then
                    Ret (inl (Disabled "Not a regular file, not writing shortcut info"), s)
                  else if size <? if_start_offset f then
                    Ret (inl (Disabled "File shrank during appending, not writing shortcut info"), s)
                  else if if_start_offset f <? size then
                    '(key, blobs) ← BlobCache.store_file SE (HashCache.writers_count E filename) 1
                                      (snd <$> HashCache.opened E filename) (if_start_offset f) size (HashCache.blobs (hc s));
                    let s := set_blobs blobs s in
                    match key with
                    | None => Ret (inl (Disabled "Could not store file fragment in cache, not writing shortcut info"), s)
                    | Some hash =>
                        let total := total + (size - if_start_offset f) in
                        if max_entry_size <? total then Ret (inl Skipped, s)
                        else Ret (inr (Some (append_hash fd hash), total), s)
                    end
                  else Ret (inr (None, total), s)
              end
          end
      | _, _ => Ret (inr (None, total), s)
      end
  end.

Fixpoint collect_appends (E : HashCache.Env) (files : list inherited_file_t) (total : Z) (s : st)
    : outcome ((ending + (list append_to_fd * Z)) * st) :=
  match files with
  | [] => Ret (inr ([], total), s)
  | f :: files =>
      if is_write (if_flags f) then
        continue (append_of E f total s) (fun '(append, total) s =>
          continue (collect_appends E files total s) (fun '(appends, total) s =>
            Ret (inr (match append with Some append => append :: appends | None => appends end, total), s)))
      else collect_appends E files total s
  end.

(** ** Consistency of the outputs *)

(** [dir_created_or_could_exist()], from [parent_dir] on; a parent that the process is not known
    to have used is looked up without a check. *)
Fixpoint parents_could_exist (fuel : nat) (parent_dir : option cstr) (isdirs : list cstr) (usages : list (cstr * FileUsage.t))
    : outcome bool :=
  match parent_dir with
  | None => Ret true
  | Some parent_dir =>
      match fuel with
      | O => OutOfFuel
      | S fuel =>
          match head (filter (fun e => e.1 = parent_dir) usages) with
          | None => Abort
          | Some (_, fu) =>
              match FileUsage.initial_type fu with
              | NOTEXIST | NOTEXIST_OR_ISREG =>
                  Ret (FileUsage.written_ fu && bool_decide (parent_dir ∈ isdirs))
              | ISDIR => Ret true
              | _ => parents_could_exist fuel (FileName.parent_dir parent_dir) isdirs usages
              end
          end
      end
  end.
Definition dir_created_or_could_exist (filename : cstr) : list cstr -> list (cstr * FileUsage.t) -> outcome bool :=
  parents_could_exist (length filename) (FileName.GetParentDir filename).

(** [consistent_implicit_parent_dirs()]. *)
Fixpoint all_could_exist (names isdirs : list cstr) (usages : list (cstr * FileUsage.t)) : outcome bool :=
  match names with
  | [] => Ret true
  | name :: names =>
      b ← dir_created_or_could_exist name isdirs usages;
      if b : bool then all_could_exist names isdirs usages else Ret false
  end.
Definition consistent_implicit_parent_dirs (o : outs) (usages : list (cstr * FileUsage.t)) : outcome bool :=
  let isdirs := f_path <$> o_isdir o in
  all_could_exist ((f_path <$> o_isreg o) ++ isdirs) isdirs usages.

(** ** The entry *)

Definition file_le (a b : file) : Prop := str_le (f_path a) (f_path b).
#[global] Instance file_le_dec : RelDecision file_le.
Proof. intros a b. unfold file_le. apply _. Defined.
Definition address_le (a b : cstr) : Prop := file_address a <= file_address b.
#[global] Instance address_le_dec : RelDecision address_le.
Proof. intros a b. unfold address_le. apply _. Defined.

Definition sort_files : list file -> list file := merge_sort file_le.

Definition make_entry (pi0 pi1 : process_inputs) (o : outs) (appends : list append_to_fd) (exit_status : Z) (cpu_time_ms : Z)
    : process_inputs_outputs :=
  mkPio
    (mkInputs (sort_files (pi_path pi0) ++ sort_files (pi_path pi1))
              (sort_strings (pi_path_notexist pi0) ++ sort_strings (pi_path_notexist pi1)))
    (mkOutputs (sort_files (o_isreg o)) (sort_files (o_isdir o)) (merge_sort address_le (o_notexist o)) appends exit_status)
    (if deterministic_cache then None else Some cpu_time_ms).

(** ** store() *)

Inductive result := Abandoned | NotStored (why : ending) | Stored (entry : process_inputs_outputs) (written : bool).

Fixpoint abandon_all (files : list inherited_file_t) (h : PipeRecorder.heap) : outcome PipeRecorder.heap :=
  match files with
  | [] => Ret h
  | f :: files =>
      match if_recorder f with
      | None => abandon_all files h
      | Some i =>
          assert (bool_decide (if_type f = FD_PIPE_OUT)) ≫= fun _ =>
          r ← PipeRecorder.get h i; r ← PipeRecorder.abandon r; abandon_all files (<[i := r]> h)
      end
  end.

(** The parent process is stored instead: [ccache], or [sh -c] of just this command. *)
Definition join_args (args : list cstr) : cstr :=
  fold_left (fun joined arg => joined ++ if bool_decide (joined = []) then arg else cs " " ++ arg) args [].
Definition arg_at (args : list cstr) (i : nat) : cstr := nth i args [].
Definition parent_instead (parent : Execed) (args : list cstr) : option string :=
  if ccache_disabled && bool_decide (FileName.without_dirs (executable_ parent) = cs "ccache") && can_shortcut_ parent
  then Some "Shortcut parent ccache ... instead"%string
  else
    let pargs := args_ parent in
    let may_be_just_sh_c_this :=
      can_shortcut_ parent &&
      (((length pargs =? 4)%nat && bool_decide (arg_at pargs 1 = cs "-c") && bool_decide (arg_at pargs 2 = cs "--")) ||
       ((length pargs =? 3)%nat && bool_decide (arg_at pargs 1 = cs "-c"))) &&
      bool_decide (arg_at pargs 0 ∈ shells) in
    if may_be_just_sh_c_this && bool_decide (join_args args = arg_at pargs 2)
    then Some "Shortcut parent sh -c ... instead"%string else None.

(** The rest, when the process itself is to be stored; [usages] are the used files in the order
    of the hash map. *)
Definition store_itself (E : HashCache.Env) (OE : ObjCache.store_env) (fingerprint : Hash.t) (exit_status : Z) (x : Execed)
    (usages : list (cstr * FileUsage.t)) (s : st) : outcome (result * st) :=
  r0 ← collect_inputs false (args_ x) usages;
  match r0 with
  | inl e => Ret (NotStored e, s)
  | inr pi0 =>
      r1 ← collect_inputs true (args_ x) usages;
      match r1 with
      | inl e => Ret (NotStored e, s)
      | inr pi1 =>
          '(r2, h) ← collect_outputs E usages (mkOuts [] [] []) 0 (hc s);
          let s := set_hc h s in
          match r2 with
          | inl e => Ret (NotStored e, s)
          | inr (o, total) =>
              '(r3, s) ← collect_appends E (inherited_files_ x) total s;
              match r3 with
              | inl e => Ret (NotStored e, s)
              | inr (appends, total) =>
                  consistent ← consistent_implicit_parent_dirs o usages;
                  if negb consistent then
                    Ret (NotStored (Disabled "Inconsistency: A parent dir of an output file must not exit for shortcutting."), s)
                  else
                    let cpu_time_ms := Z.quot (utime_u_ x + stime_u_ x + children_cpu_time_u_ x) 1000 + shortcut_cpu_time_ms_ x in
                    let entry := make_entry pi0 pi1 o appends exit_status cpu_time_ms in
                    '(written, objs) ← ObjCache.store deterministic_cache OE fingerprint (serialize entry) total (objs s);
                    Ret (Stored entry written, mkSt (recorders s) (hc s) objs)
              end
          end
      end
  end.

(** [store(proc)]; [parent] is the parent exec point. *)
Definition store (no_store_ : bool) (E : HashCache.Env) (OE : ObjCache.store_env) (fingerprint : Hash.t) (exit_status : Z)
    (x : Execed) (parent : option Execed) (usages : list (cstr * FileUsage.t)) (s : st) : outcome (result * st) :=
  if no_store_ then
    h ← abandon_all (inherited_files_ x) (recorders s); Ret (Abandoned, mkSt h (hc s) (objs s))
  else
    match parent ≫= (fun parent => parent_instead parent (args_ x)) with
    | Some reason => Ret (NotStored (Disabled reason), s)
    | None => store_itself E OE fingerprint exit_status x usages s
    end.

End Store.
(** ** What the inputs of a stored entry say *)
Section Inputs.
Context `{XXHash} `{CacheConfig} `{Serializer} `{StoreConfig}.
Context (max_inline_blob_size : Z) (SE : BlobCache.store_env).
Context (is_in_read_only_location is_in_ignore_location : cstr -> bool) (generation : cstr -> Z).

(** The listing of some directories is not to matter. *)
Definition ignored_listing (args : list cstr) (name : cstr) : bool :=
  (quirk_ignore_tmp_listing && bool_decide (name = default_tmpdir)) || match rustc_ignored_dir args name with Ret b => b | _ => false end.

(** What is expected of a file again: its state when the process first used it. *)
Definition expectation (args : list cstr) (name : cstr) (fu : FileUsage.t) : FileInfo.t :=
  if bool_decide (FileUsage.initial_type fu = ISDIR) && ignored_listing args name
  then set_hash None (FileUsage.initial_state_ fu) else FileUsage.initial_state_ fu.

Definition known_usage (fu : FileUsage.t) : Prop :=
  FileInfo.wf (FileUsage.initial_state_ fu) /\
  (size_known (FileUsage.initial_state_ fu) = false -> size_ (FileUsage.initial_state_ fu) = -1).

(** The file system is as the inputs say. *)
Definition inputs_match (V : cstr -> HashCache.view) (pi : process_inputs) : Prop :=
  (forall f, f ∈ pi_path pi -> HashCache.matches (file_to_file_info f) (V (f_path f))) /\
  (forall name, name ∈ pi_path_notexist pi -> HashCache.matches (of_type NOTEXIST) (V name)).

Lemma inputs_match_app V p0 p1 n0 n1 :
  inputs_match V (mkInputs (p0 ++ p1) (n0 ++ n1)) <-> inputs_match V (mkInputs p0 n0) /\ inputs_match V (mkInputs p1 n1).
Proof. unfold inputs_match. cbn. setoid_rewrite elem_of_app. naive_solver. Qed.

Lemma inputs_match_perm V p p' n n' :
  p ≡ₚ p' -> n ≡ₚ n' -> inputs_match V (mkInputs p n) <-> inputs_match V (mkInputs p' n').
Proof. intros Hp Hn. unfold inputs_match. cbn. setoid_rewrite Hp. setoid_rewrite Hn. done. Qed.

Lemma inputs_match_cons V f p n :
  inputs_match V (mkInputs (f :: p) n) <-> HashCache.matches (file_to_file_info f) (V (f_path f)) /\ inputs_match V (mkInputs p n).
Proof. unfold inputs_match. cbn. setoid_rewrite elem_of_cons. naive_solver. Qed.

Lemma inputs_match_cons_notexist V name p n :
  inputs_match V (mkInputs p (name :: n)) <-> HashCache.matches (of_type NOTEXIST) (V name) /\ inputs_match V (mkInputs p n).
Proof. unfold inputs_match. cbn. setoid_rewrite elem_of_cons. naive_solver. Qed.

(** A missing file has no other properties. *)
Lemma matches_notexist q v : type_ q = NOTEXIST -> HashCache.matches q v <-> HashCache.matches (of_type NOTEXIST) v.
Proof. intros Hq. unfold HashCache.matches, sat. rewrite Hq. destruct v as [a|]; [|done]. cbn. destruct (HashCache.v_dir a); tauto. Qed.

Lemma set_hash_known i : known_usage i ->
  FileInfo.wf (set_hash None (FileUsage.initial_state_ i)) /\
  (size_known (set_hash None (FileUsage.initial_state_ i)) = false -> size_ (set_hash None (FileUsage.initial_state_ i)) = -1).
Proof. intros [(W1 & W2 & W3 & W4) Hs]. split; [|done]. by split_and!. Qed.

(** What one file contributes. *)
Definition classified (args : list cstr) (name : cstr) (fu : FileUsage.t) (i : input) : Prop :=
  match i with
  | NoInput => FileUsage.initial_type fu = DONTKNOW
  | InNotExist => FileUsage.initial_type fu = NOTEXIST
  | InState q => FileUsage.initial_type fu <> DONTKNOW /\ q = expectation args name fu /\
      file_to_file_info (add_file name q false None None) = q
  | InTmp => FileUsage.initial_type fu = ISREG /\ tmp_file_or_on_tmp_path fu name = Ret true
  end.

Lemma set_hash_None q : hash_ q = None -> set_hash None q = q.
Proof. destruct q; cbn. by intros ->. Qed.

(** The listing of the directory is looked at when its hash is known. *)
Lemma ignored_expectation args name fu type (b : bool) :
  FileUsage.initial_type fu = type ->
  (if bool_decide (type = ISDIR) && FileUsage.initial_hash_known fu then
     if quirk_ignore_tmp_listing && bool_decide (name = default_tmpdir) then Ret true else rustc_ignored_dir args name
   else Ret false) = Ret b ->
  (if b then set_hash None (FileUsage.initial_state_ fu) else FileUsage.initial_state_ fu) = expectation args name fu.
Proof.
  intros <-. unfold expectation, ignored_listing. destruct (bool_decide (FileUsage.initial_type fu = ISDIR)); cbn [andb]; [|by intros [= <-]].
  destruct (FileUsage.initial_hash_known fu) eqn:Ek.
  - destruct (quirk_ignore_tmp_listing && _); cbn [orb]; [by intros [= <-]|]. intros ->.
    by destruct b.
  - intros [= <-]. apply hash_known_None in Ek. by destruct (_ || _); [rewrite set_hash_None|].
Qed.

Lemma classify_input_correct args name fu i :
  known_usage fu -> classify_input args name fu = Ret i -> classified args name fu i.
Proof.
  intros Hk. pose proof (set_hash_known fu Hk) as Hk'. destruct Hk as [Hw Hs]. unfold classify_input, classified.
  destruct (FileUsage.initial_type fu) eqn:Et; intros Hi.
  1, 3: by injection Hi as <-.
  all: apply outcome_bind_Ret in Hi as (ign & Hign & Hi); pose proof (ignored_expectation args name fu _ _ Et Hign) as He.
  all: destruct ign; [injection Hi as <-; split_and!; [done|done|apply file_info_roundtrip; apply Hk']|].
  all: apply outcome_bind_Ret in Hi as (tmp & Htmp & [= <-]); destruct tmp; [done|split_and!; [done|done|by apply file_info_roundtrip]].
Qed.

Lemma classify_input_tmp args name fu :
  FileUsage.initial_type fu = ISREG -> tmp_file_or_on_tmp_path fu name = Ret true -> classify_input args name fu = Ret InTmp.
Proof. intros Ht Htmp. unfold classify_input. rewrite Ht. cbn. by rewrite Htmp. Qed.

(** What a pass has collected. *)
Lemma collect_inputs_correct system args usages pi :
  Forall (fun e => known_usage e.2) usages ->
  collect_inputs is_in_read_only_location generation system args usages = Ret (inr pi) ->
  (forall V, inputs_match V pi <->
     forall name fu, (name, fu) ∈ usages -> is_in_read_only_location name = system -> FileUsage.initial_type fu <> DONTKNOW ->
       HashCache.matches (expectation args name fu) (V name)) /\
  (forall name fu, (name, fu) ∈ usages -> is_in_read_only_location name = system ->
     FileUsage.generation_ fu = generation name /\ ~ (FileUsage.initial_type fu = ISREG /\ tmp_file_or_on_tmp_path fu name = Ret true)).
Proof.
  intros Hk. revert pi. induction Hk as [|[name fu] usages Hk _ IH]; intros pi; cbn [collect_inputs].
  { intros [= <-]. split; [|by intros ? ? ?%elem_of_nil]. intros V. split; [by intros _ ? ? ?%elem_of_nil|].
    intros _. split; by intros ? ?%elem_of_nil. }
  destruct (Bool.eqb _ system) eqn:Er; cbn [negb].
  2:{ apply eqb_false_iff in Er. intros Hc. apply IH in Hc as [I1 I2]. split.
      - intros V. rewrite I1. setoid_rewrite elem_of_cons. naive_solver.
      - setoid_rewrite elem_of_cons. naive_solver. }
  apply eqb_prop in Er. destruct (Z.eqb_spec (FileUsage.generation_ fu) (generation name)) as [Eg|]; [|done]. cbn [negb].
  intros Hc. apply outcome_bind_Ret in Hc as (i & Hi & Hc). pose proof (classify_input_tmp args name fu) as Htmp'.
  rewrite Hi in Htmp'. apply classify_input_correct in Hi; [|done].
  assert (Hrest : exists rest, i <> InTmp /\ collect_inputs is_in_read_only_location generation system args usages = Ret (inr rest) /\
    pi = match i with
         | InState fi => mkInputs (add_file name fi false None None :: pi_path rest) (pi_path_notexist rest)
         | InNotExist => mkInputs (pi_path rest) (name :: pi_path_notexist rest)
         | _ => rest
         end).
  { destruct i; [..|done]; apply outcome_bind_Ret in Hc as ([e|rest] & Hr & Hc); try done; exists rest; by injection Hc as <-. }
  destruct Hrest as (rest & Htmp & Hr & ->). apply IH in Hr as [I1 I2]. split.
  - intros V. transitivity ((FileUsage.initial_type fu <> DONTKNOW -> HashCache.matches (expectation args name fu) (V name)) /\ inputs_match V rest).
    { destruct i as [| |q|]; cbn in Hi; [| | |done].
      - tauto.
      - assert (He : type_ (expectation args name fu) = NOTEXIST) by (unfold expectation; by rewrite Hi, bool_decide_false).
        rewrite inputs_match_cons_notexist, Hi. pose proof (matches_notexist _ (V name) He). destruct rest as [rp rn]. cbn [pi_path pi_path_notexist].
        assert (NOTEXIST <> DONTKNOW) by done. tauto.
      - destruct Hi as (Hdk & -> & Hrt). rewrite inputs_match_cons, Hrt. destruct rest as [rp rn]. cbn [pi_path pi_path_notexist f_path add_file]. tauto. }
    rewrite I1. split.
    + intros [Ha Hb] n f [[= -> ->]|Hin]%elem_of_cons; auto.
    + intros Ha. split; [apply Ha; [by left|done]|]. intros n f Hin. apply Ha. by right.
  - intros n f [[= -> ->]|Hin]%elem_of_cons Hro; [|by apply I2]. split; [done|]. intros [? ?]. by injection (Htmp' ltac:(done) ltac:(done)).
Qed.

(** Where the inputs of a stored entry come from. *)
Lemma store_entry no_store E OE fingerprint exit_status x parent usages s entry written s' :
  store max_inline_blob_size SE is_in_read_only_location is_in_ignore_location generation no_store E OE fingerprint exit_status
    x parent usages s = Ret (Stored entry written, s') ->
  exists pi0 pi1,
    collect_inputs is_in_read_only_location generation false (args_ x) usages = Ret (inr pi0) /\
    collect_inputs is_in_read_only_location generation true (args_ x) usages = Ret (inr pi1) /\
    pi_path (pio_inputs entry) = sort_files (pi_path pi0) ++ sort_files (pi_path pi1) /\
    pi_path_notexist (pio_inputs entry) = sort_strings (pi_path_notexist pi0) ++ sort_strings (pi_path_notexist pi1).
Proof.
  unfold store, store_itself. destruct no_store; [intros Hs; by apply outcome_bind_Ret in Hs as (h & _ & [=])|].
  destruct (parent ≫= _); [done|]. intros Hs. apply outcome_bind_Ret in Hs as ([e|pi0] & E0 & Hs); [done|].
  apply outcome_bind_Ret in Hs as ([e|pi1] & E1 & Hs); [done|]. exists pi0, pi1. split; [done|]. split; [done|].
  apply outcome_bind_Ret in Hs as ([[e|[o total]] h] & _ & Hs); [done|].
  apply outcome_bind_Ret in Hs as ([[e|[appends total']] s2] & _ & Hs); [done|].
  apply outcome_bind_Ret in Hs as ([] & _ & Hs); [|done].
  apply outcome_bind_Ret in Hs as ([w objs2] & _ & [= <- <- <-]). done.
Qed.

Lemma stored_inputs no_store E OE fingerprint exit_status x parent usages s entry written s' :
  Forall (fun e => known_usage e.2) usages ->
  store max_inline_blob_size SE is_in_read_only_location is_in_ignore_location generation no_store E OE fingerprint exit_status
    x parent usages s = Ret (Stored entry written, s') ->
  (forall V, inputs_match V (pio_inputs entry) <->
     forall name fu, (name, fu) ∈ usages -> FileUsage.initial_type fu <> DONTKNOW ->
       HashCache.matches (expectation (args_ x) name fu) (V name)) /\
  (forall name fu, (name, fu) ∈ usages ->
     FileUsage.generation_ fu = generation name /\ ~ (FileUsage.initial_type fu = ISREG /\ tmp_file_or_on_tmp_path fu name = Ret true)).
Proof.
  intros Hk Hst. destruct (store_entry _ _ _ _ _ _ _ _ _ _ _ _ Hst) as (pi0 & pi1 & H0' & H1' & E0 & E1).
  apply collect_inputs_correct in H0' as [A0 B0]; [|done]. apply collect_inputs_correct in H1' as [A1 B1]; [|done].
  split.
  - intros V. destruct (pio_inputs entry) as [p n]. cbn in E0, E1. subst p n.
    rewrite inputs_match_app, !(inputs_match_perm _ (sort_files _) _ (sort_strings _) _ (merge_sort_Permutation _ _) (merge_sort_Permutation _ _)).
    destruct pi0 as [p0 n0], pi1 as [p1 n1]. cbn [pi_path pi_path_notexist]. rewrite A0, A1. clear. split; [|naive_solver].
    intros [Ha Hb] name fu. destruct (is_in_read_only_location name) eqn:Er; eauto.
  - intros name fu. destruct (is_in_read_only_location name) eqn:Er; eauto.
Qed.

(** C13. The inputs of a stored entry are what the process was seen to depend on: a file system
    is as the inputs say if and only if every file the process used, unless nothing is known of
    its initial state, is again in that state (the listings of the directories that are ignored on
    purpose aside).  Nothing is stored when a file has changed since the process used it, or
    when the process read a temporary file. *)
Theorem store_inputs no_store E OE fingerprint exit_status x parent usages s entry written s' :
  Forall (fun e => known_usage e.2) usages ->
  store max_inline_blob_size SE is_in_read_only_location is_in_ignore_location generation no_store E OE fingerprint exit_status
    x parent usages s = Ret (Stored entry written, s') ->
  (forall V, inputs_match V (pio_inputs entry) <->
     forall name fu, (name, fu) ∈ usages -> FileUsage.initial_type fu <> DONTKNOW ->
       HashCache.matches (expectation (args_ x) name fu) (V name)) /\
  (forall name fu, (name, fu) ∈ usages ->
     FileUsage.generation_ fu = generation name /\ ~ (FileUsage.initial_type fu = ISREG /\ tmp_file_or_on_tmp_path fu name = Ret true)).
Proof. apply stored_inputs. Qed.

End Inputs.

(** ** What the outputs of a stored entry say *)
Section Outputs.
Context `{XXHash} `{CacheConfig} `{Serializer} `{StoreConfig} `{!XXHashOk} `{!CacheConfigOk}.
Context (max_inline_blob_size : Z) (SE : BlobCache.store_env).
Context (is_in_read_only_location is_in_ignore_location : cstr -> bool) (generation : cstr -> Z).
Context (Hdebug : debug_cache = false) (HSE : BlobCache.store_env_ok SE) (Htop : is_Some top_dir).

(** The file system after the process has run; its regular files can be opened. *)
Context (Hist : cstr -> HashCache.view -> Prop) (E : HashCache.Env) (V : cstr -> HashCache.view).
Context (Hhonest : HashCache.honest is_in_read_only_location Hist) (HV : forall path, Hist path (V path)).
Context (Hfaithful : HashCache.faithful E V).
Context (Hopen : forall path a, V path = Some a -> HashCache.v_dir a = false -> is_Some (HashCache.opened E path)).

Definition zero_hash : Hash.t := Hash.mk 0 0.

(** The state of a changed file is that of the file system; the hash is zero when the file could
    not be stored. *)
Definition state_ok (b : BlobCache.t) (name : cstr) (fu : FileUsage.t) (info : FileInfo.t) (inline : option (list Z)) : Prop :=
  match V name with
  | None => HashCache.stat64 E name = None \/ FileUsage.written_ fu = true -> type_ info = NOTEXIST
  | Some a =>
      mode_mask_ info = (if FileUsage.mode_changed_ fu then 4095 else 0) /\
      mode_ info = (if FileUsage.mode_changed_ fu then Z.land (HashCache.v_mode a) 4095 else 0) /\
      (if FileUsage.written_ fu then
         if HashCache.v_dir a then type_ info = ISDIR
         else type_ info = ISREG /\ size_ info = HashCache.v_size a /\ 0 <= HashCache.v_size a /\
           exists h, hash_ info = Some h /\
             ((h = HashCache.v_hash a /\ BlobCache.has_blob h (BlobCache.root b) /\
               (forall bytes, inline = Some bytes -> bytes <> [] /\ XXH3_128bits bytes = h)) \/
              (h = zero_hash /\ inline = None))
       else type_ info = EXIST)
  end.

Lemma mode_bits fu mode (info : FileInfo.t) :
  mode_ info = 0 -> mode_mask_ info = 0 ->
  mode_mask_ (if FileUsage.mode_changed_ fu then set_mode_bits (Z.land mode 4095) 4095 info else info)
    = (if FileUsage.mode_changed_ fu then 4095 else 0) /\
  mode_ (if FileUsage.mode_changed_ fu then set_mode_bits (Z.land mode 4095) 4095 info else info)
    = (if FileUsage.mode_changed_ fu then Z.land mode 4095 else 0).
Proof.
  intros Hm Hk. destruct (FileUsage.mode_changed_ fu); [|done]. unfold set_mode_bits. cbn [mode_ mode_mask_]. rewrite Hm, Hk.
  by rewrite Z.ldiff_0_l, !Z.lor_0_l, <- Z.land_assoc, Z.land_diag.
Qed.

Lemma same_but_mode fu mode (info : FileInfo.t) :
  let info' := if FileUsage.mode_changed_ fu then set_mode_bits (Z.land mode 4095) 4095 info else info in
  type_ info' = type_ info /\ size_ info' = size_ info /\ hash_ info' = hash_ info.
Proof. by destruct (FileUsage.mode_changed_ fu). Qed.

Abbreviation new_state := (new_state max_inline_blob_size SE is_in_read_only_location is_in_ignore_location).
Abbreviation inv := (HashCache.inv is_in_read_only_location Hist).

Definition keeps (s s' : HashCache.t) : Prop :=
  BlobCache.keeps (BlobCache.root (HashCache.blobs s)) (BlobCache.root (HashCache.blobs s')).

(** The last step, for a file that exists. *)
Lemma finish_state b name fu mode a info inline :
  V name = Some a -> HashCache.v_mode a = mode -> mode_ info = 0 -> mode_mask_ info = 0 -> type_ info ∈ [EXIST; ISREG; ISDIR; NOTEXIST] ->
  (type_ info <> ISREG -> inline = None) ->
  (if FileUsage.written_ fu then
     if HashCache.v_dir a then type_ info = ISDIR
     else type_ info = ISREG /\ size_ info = HashCache.v_size a /\ 0 <= HashCache.v_size a /\
       exists h, hash_ info = Some h /\
         ((h = HashCache.v_hash a /\ BlobCache.has_blob h (BlobCache.root b) /\
           (forall bytes, inline = Some bytes -> bytes <> [] /\ XXH3_128bits bytes = h)) \/
          (h = zero_hash /\ inline = None))
   else type_ info = EXIST) ->
  let info' := if FileUsage.mode_changed_ fu then set_mode_bits (Z.land mode 4095) 4095 info else info in
  state_ok b name fu info' inline /\ type_ info' ∈ [EXIST; ISREG; ISDIR; NOTEXIST] /\ (type_ info' <> ISREG -> inline = None).
Proof.
  intros EV <- Hm Hk Ht Hin Hw info'. destruct (mode_bits fu (HashCache.v_mode a) info Hm Hk) as [Em Ek].
  destruct (same_but_mode fu (HashCache.v_mode a) info) as (T1 & T2 & T3). unfold state_ok. rewrite EV. fold info' in Em, Ek, T1, T2, T3.
  rewrite Em, Ek, T1, T2, T3. by split_and!.
Qed.

(** A regular file, which is stored. *)
Lemma new_state_regular name fu total s st a :
  inv s -> HashCache.stat64 E name = Some st -> V name = Some a -> HashCache.v_dir a = false -> FileUsage.written_ fu = true ->
  S_ISREG (st_mode (HashCache.st st)) = true ->
  exists r s', new_state E name fu total s = Ret (r, s') /\ inv s' /\ keeps s s' /\
    match r with
    | inl _ => True
    | inr (info, inline, _) => state_ok (HashCache.blobs s') name fu info inline /\
        type_ info ∈ [EXIST; ISREG; ISDIR; NOTEXIST] /\ (type_ info <> ISREG -> inline = None)
    end.
Proof.
  intros Hi Est EV Ed Hw Hr. pose proof (HashCache.fa_stat _ _ Hfaithful name) as Hs. rewrite Est, EV in Hs.
  destruct Hs as (_ & _ & Hsize & Hmode & _). destruct (Hopen name a EV Ed) as [[f data] Hop].
  pose proof (HashCache.fa_read _ _ Hfaithful name f data a Hop EV) as Hread. unfold HashCache.reads_as in Hread. rewrite Ed in Hread.
  unfold StoreEntry.new_state. rewrite Est, Hw, Hr, Hop.
  destruct (HashCache.store_and_get_hash_correct max_inline_blob_size SE is_in_read_only_location is_in_ignore_location Hdebug HSE Hist E V s name 0
    (Some (HashCache.mkFd (Some st) f data)) (Some st) true Hhonest HV Hfaithful Hi) as (r & s' & Hst & Hi' & Hk & [Hok Hzero _]).
  { split; [done|]. intros f' [= <-]. done. }
  { by eexists. }
  unfold mbind, outcome_bind. rewrite Hst. destruct r as [[[hash sb] inline]|]; [|by eexists _, s'].
  destruct (max_entry_size <? _); [by eexists _, s'|]. eexists _, s'. split_and!; [done|done|done|].
  apply (finish_state _ name fu _ a); [done|done|done|done|set_solver|done|]. rewrite Hw, Ed.
  split_and!; [done|by cbn; apply Hsize|lia|]. exists hash. split; [done|]. destruct sb as [n|].
  - left. destruct (Hok hash n inline eq_refl) as (_ & a' & EV' & -> & Hb & Hin). rewrite EV in EV'. injection EV' as <-.
    destruct (Hin Ed) as [-> Hin']. split_and!; [done|done|]. intros bytes Hb'. destruct inline as [[|x l]|]; try done.
    injection Hb' as <-. split; [done|]. by apply Hin'.
  - right. destruct (Hzero hash inline eq_refl) as [-> ->]; [by rewrite EV|done].
Qed.

Lemma new_state_correct name fu total s :
  inv s ->
  exists r s', new_state E name fu total s = Ret (r, s') /\ inv s' /\ keeps s s' /\
    match r with
    | inl _ => True
    | inr (info, inline, _) => state_ok (HashCache.blobs s') name fu info inline /\
        type_ info ∈ [EXIST; ISREG; ISDIR; NOTEXIST] /\ (type_ info <> ISREG -> inline = None)
    end.
Proof.
  intros Hi. pose proof (HashCache.fa_stat _ _ Hfaithful name) as Hs.
  assert (Hkeep : keeps s s) by (by intros ? ?).
  destruct (HashCache.stat64 E name) as [st|] eqn:Est.
  2:{ unfold StoreEntry.new_state. rewrite Est. eexists _, s. split_and!; [done..|]. unfold state_ok.
      destruct (V name); [done|]. split_and!; [done|set_solver|done]. }
  destruct (V name) as [a|] eqn:EV.
  - destruct Hs as (Hdir & Hreg & Hsize & Hmode & Hrest).
    destruct (FileUsage.written_ fu && negb (HashCache.v_dir a)) eqn:Ew.
    { apply andb_true_iff in Ew as [Hw Hd%negb_true_iff]. rewrite Hd in Hreg. by eapply new_state_regular. }
    unfold StoreEntry.new_state. rewrite Est, Hreg, Hdir. destruct (FileUsage.written_ fu) eqn:Hw; cbn [andb] in Ew.
    + destruct (HashCache.v_dir a) eqn:Ed; [|done]. cbn [negb]. eexists _, s. split_and!; [done..|].
      apply (finish_state _ name fu _ a); [done|done|done|done|set_solver|done|]. by rewrite Hw, Ed.
    + eexists _, s. split_and!; [done..|]. apply (finish_state _ name fu _ a); [done|done|done|done|set_solver|done|]. by rewrite Hw.
  - unfold StoreEntry.new_state, state_ok. destruct Hs as [Hreg Hdir]. rewrite Est, EV, Hreg, Hdir.
    destruct (FileUsage.written_ fu) eqn:Hw; eexists _, s; (split_and!; [done..|]).
    + split_and!; [by destruct (FileUsage.mode_changed_ fu)|destruct (FileUsage.mode_changed_ fu); cbn; set_solver|done].
    + split_and!; [by intros [?|?]|destruct (FileUsage.mode_changed_ fu); cbn; set_solver|done].
Qed.


(** *** The outputs that are recorded *)

Definition mode_recorded (fu : FileUsage.t) (a : HashCache.snapshot) (f : file) : Prop :=
  f_mode f = if FileUsage.mode_changed_ fu then Some (Z.land (HashCache.v_mode a) 4095) else None.

(** The contents of a file can be had from the entry or the blob cache, unless the file could
    not be stored. *)
Definition file_holds (b : BlobCache.t) (f : file) (a : HashCache.snapshot) : Prop :=
  f_type f = ISREG /\ f_size f = Some (HashCache.v_size a) /\
  ((f_inline_data f <> [] /\ XXH3_128bits (f_inline_data f) = HashCache.v_hash a) \/
   (f_inline_data f = [] /\ file_blob f = Some (HashCache.v_hash a) /\ BlobCache.has_blob (HashCache.v_hash a) (BlobCache.root b)) \/
   (f_inline_data f = [] /\ file_blob f = Some zero_hash)).

(** What is recorded of a changed file is its state in the file system. *)
Definition recorded (b : BlobCache.t) (name : cstr) (fu : FileUsage.t) (isreg isdir : list file) (notexist : list cstr) : Prop :=
  match V name with
  | None => HashCache.stat64 E name = None \/ FileUsage.written_ fu = true -> FileUsage.initial_type fu <> NOTEXIST -> name ∈ notexist
  | Some a =>
      if FileUsage.written_ fu && HashCache.v_dir a
      then exists f, f ∈ isdir /\ f_path f = name /\ f_type f = ISDIR /\ mode_recorded fu a f
      else exists f, f ∈ isreg /\ f_path f = name /\ mode_recorded fu a f /\
             if FileUsage.written_ fu then file_holds b f a else f_type f = EXIST
  end.

Lemma recorded_mono b b' name fu r r' d d' n n' :
  BlobCache.keeps (BlobCache.root b) (BlobCache.root b') -> r ⊆ r' -> d ⊆ d' -> n ⊆ n' ->
  recorded b name fu r d n -> recorded b' name fu r' d' n'.
Proof.
  intros Hk Hr Hd Hn. unfold recorded. destruct (V name) as [a|]; [|eauto]. destruct (_ && _).
  - intros (f & Hf & Hrest). exists f. split; [by apply Hd|done].
  - intros (f & Hf & Hp & Hm & Hrest). exists f. split_and!; [by apply Hr|done|done|].
    destruct (FileUsage.written_ fu); [|done]. destruct Hrest as (Ht & Hs & Hc). split_and!; [done|done|].
    destruct Hc as [Hc|[(Hi & Hb & Hc)|Hc]]; [by left| |by right; right]. right; left. split_and!; [done|done|].
    by eapply HashCache.has_blob_keeps.
Qed.

Lemma tmp_total fu name : exists b, tmp_file_or_on_tmp_path fu name = Ret b.
Proof.
  unfold tmp_file_or_on_tmp_path. destruct (FileUsage.tmp_file_ fu); [by eexists|]. destruct (below _ _); [|by eexists].
  destruct Htop as [d ->]. by eexists.
Qed.

Definition listed (o : outs) : list cstr := (f_path <$> o_isreg o) ++ (f_path <$> o_isdir o) ++ o_notexist o.
Definition outs_sub (o o' : outs) : Prop := o_isreg o ⊆ o_isreg o' /\ o_isdir o ⊆ o_isdir o' /\ o_notexist o ⊆ o_notexist o'.

Lemma listed_isreg o f : listed (mkOuts (o_isreg o ++ [f]) (o_isdir o) (o_notexist o)) ≡ₚ f_path f :: listed o.
Proof. unfold listed. cbn. rewrite fmap_app. cbn. solve_Permutation. Qed.
Lemma listed_isdir o f : listed (mkOuts (o_isreg o) (o_isdir o ++ [f]) (o_notexist o)) ≡ₚ f_path f :: listed o.
Proof. unfold listed. cbn. rewrite fmap_app. cbn. solve_Permutation. Qed.
Lemma listed_notexist o name : listed (mkOuts (o_isreg o) (o_isdir o) (o_notexist o ++ [name])) ≡ₚ name :: listed o.
Proof. unfold listed. cbn. solve_Permutation. Qed.

(** The file as it is recorded. *)
Lemma add_file_recorded b name fu info inline a :
  V name = Some a -> state_ok b name fu info inline -> type_ info = EXIST \/ type_ info = ISREG \/ type_ info = ISDIR ->
  (type_ info <> ISREG -> inline = None) ->
  let f := add_file name info true (FileUsage.timestamp_source_ fu) inline in
  mode_recorded fu a f /\
  (if FileUsage.written_ fu then if HashCache.v_dir a then f_type f = ISDIR else file_holds b f a else f_type f = EXIST).
Proof.
  intros EV Hok Ht Hin f. unfold state_ok in Hok. rewrite EV in Hok. destruct Hok as (Hk & Hm & Hw). split.
  { unfold mode_recorded, f, add_file. cbn [f_mode]. rewrite Hk, Hm. by destruct (FileUsage.mode_changed_ fu). }
  destruct (FileUsage.written_ fu); [|done]. destruct (HashCache.v_dir a); [done|].
  destruct Hw as (Hty & Hs & Hp & h & Hh & Hc). unfold file_holds, f, add_file. cbn [f_type f_size f_inline_data].
  rewrite Hty, Hs. unfold size_known. rewrite Hs, (proj2 (Z.leb_le 0 _)) by done. split_and!; [done|done|].
  unfold file_blob. cbn [f_type f_inline_data f_compressed_hash f_hash]. rewrite (bool_decide_true (ISREG = ISREG)) by done. cbn [andb].
  destruct Hc as [(-> & Hb & Hi)|[-> ->]].
  - destruct inline as [bytes|].
    + left. by destruct (Hi bytes eq_refl).
    + right. left. cbn [default]. rewrite !bool_decide_true by done. rewrite Hh. split_and!; [done| |done]. by destruct compress_cache.
  - right. right. cbn [default]. rewrite !bool_decide_true by done. rewrite Hh. split; [done|]. by destruct compress_cache.
Qed.

(** One file. *)
Lemma add_output_correct b name fu info inline o :
  state_ok b name fu info inline -> type_ info ∈ [EXIST; ISREG; ISDIR; NOTEXIST] -> (type_ info <> ISREG -> inline = None) ->
  exists r, add_output name fu info inline o = Ret r /\
    match r with
    | inl _ => True
    | inr o' => outs_sub o o' /\ recorded b name fu (o_isreg o') (o_isdir o') (o_notexist o') /\
        (listed o' ≡ₚ name :: listed o \/ o' = o)
    end.
Proof.
  intros Hok Ht Hin. assert (Hin' : type_ info = EXIST \/ type_ info = ISREG \/ type_ info = ISDIR \/ type_ info = NOTEXIST) by set_solver.
  clear Ht. unfold add_output. destruct (tmp_total fu name) as [tmp Htmp]. rewrite Htmp. cbn [mbind outcome_bind].
  assert (Hreg : type_ info = EXIST \/ type_ info = ISREG ->
    let f := add_file name info true (FileUsage.timestamp_source_ fu) inline in
    outs_sub o (mkOuts (o_isreg o ++ [f]) (o_isdir o) (o_notexist o)) /\
    recorded b name fu (o_isreg o ++ [f]) (o_isdir o) (o_notexist o) /\
    (listed (mkOuts (o_isreg o ++ [f]) (o_isdir o) (o_notexist o)) ≡ₚ name :: listed o \/
     mkOuts (o_isreg o ++ [f]) (o_isdir o) (o_notexist o) = o)).
  { intros Ht f. split; [split_and!; cbn; set_solver|]. split; [|left; apply listed_isreg]. unfold recorded. unfold state_ok in Hok.
    destruct (V name) as [a|] eqn:EV; [|intros Hn; specialize (Hok Hn); destruct Ht; congruence].
    assert (Hok' : state_ok b name fu info inline) by (unfold state_ok; by rewrite EV).
    destruct (add_file_recorded b name fu info inline a EV Hok' ltac:(tauto) Hin) as [Hm Hw]. fold f in Hm, Hw.
    destruct Hok as (_ & _ & Hok). destruct (FileUsage.written_ fu); cbn [andb].
    - destruct (HashCache.v_dir a); [destruct Ht; congruence|]. exists f. split_and!; [set_solver|done|done|done].
    - exists f. split_and!; [set_solver|done|done|done]. }
  destruct Hin' as [Et|[Et|[Et|Et]]]; rewrite Et in Hin |- *.
  - eexists. split; [done|]. destruct tmp; [done|]. cbn [o_isreg o_isdir o_notexist]. apply Hreg. by left.
  - eexists. split; [done|]. destruct tmp; [done|]. cbn [o_isreg o_isdir o_notexist]. apply Hreg. by right.
  - eexists. split; [done|]. destruct tmp; [done|]. rewrite (Hin ltac:(done)) in *. clear Hreg. cbn [o_isreg o_isdir o_notexist].
    split; [split_and!; cbn; set_solver|]. split; [|left; apply listed_isdir]. unfold recorded.
    pose proof Hok as Hok'. unfold state_ok in Hok. destruct (V name) as [a|] eqn:EV; [|intros Hn; specialize (Hok Hn); congruence].
    destruct (add_file_recorded b name fu info None a EV Hok' ltac:(tauto) ltac:(done)) as [Hm Hw].
    destruct Hok as (_ & _ & Hok). destruct (FileUsage.written_ fu); cbn [andb]; [|congruence].
    destruct (HashCache.v_dir a); [|destruct Hok; congruence]. eexists. split_and!; [apply elem_of_app; right; by left|done..].
  - eexists. split; [done|]. clear Hreg. unfold recorded. unfold state_ok in Hok.
    assert (EV : V name = None).
    { destruct (V name) as [a|]; [|done]. destruct Hok as (_ & _ & Hok). destruct (FileUsage.written_ fu); [|congruence].
      destruct (HashCache.v_dir a); [congruence|]. destruct Hok; congruence. }
    rewrite EV. destruct (decide (FileUsage.initial_type fu = NOTEXIST)) as [Hn|Hn].
    + rewrite bool_decide_true by done. split_and!; [by split_and!|done|by right].
    + rewrite bool_decide_false by done. cbn [o_isreg o_isdir o_notexist]. split_and!; [split_and!; cbn; set_solver| |left; apply listed_notexist].
      set_solver.
Qed.


Definition changed (fu : FileUsage.t) : Prop := FileUsage.written_ fu || FileUsage.mode_changed_ fu = true.
#[global] Instance changed_dec fu : Decision (changed fu).
Proof. unfold changed. apply _. Defined.

Abbreviation collect_outputs := (collect_outputs max_inline_blob_size SE is_in_read_only_location is_in_ignore_location).

Lemma keeps_trans s1 s2 s3 : keeps s1 s2 -> keeps s2 s3 -> keeps s1 s3.
Proof. intros K1 K2 path data mt Hs. by apply K2, K1. Qed.

Lemma collect_outputs_correct usages o total s :
  inv s ->
  exists r s', collect_outputs E usages o total s = Ret (r, s') /\ inv s' /\ keeps s s' /\
    match r with
    | inl _ => True
    | inr (o', _) => outs_sub o o' /\
        (forall name fu, (name, fu) ∈ usages -> changed fu -> recorded (HashCache.blobs s') name fu (o_isreg o') (o_isdir o') (o_notexist o')) /\
        exists l, listed o' ≡ₚ l ++ listed o /\ l `sublist_of` (fst <$> filter (fun e => changed e.2) usages)
    end.
Proof.
  revert o total s. induction usages as [|[name fu] usages IH]; intros o total s Hi; cbn [StoreEntry.collect_outputs].
  { eexists _, s. split; [done|]. split; [done|]. split; [by intros ? ?|]. split; [by split_and!|]. split; [by intros ? ? ?%elem_of_nil|].
    by exists []. }
  assert (Ec : negb (FileUsage.written_ fu) && negb (FileUsage.mode_changed_ fu) = if decide (changed fu) then false else true).
  { destruct (decide (changed fu)) as [Hc|Hc]; unfold changed in Hc; destruct (FileUsage.written_ fu), (FileUsage.mode_changed_ fu); done. }
  rewrite Ec, list.filter_cons. cbn [snd]. destruct (decide (changed fu)) as [Hc|Hc].
  2:{ destruct (IH o total s Hi) as (r & s' & -> & Hi' & Hk & Hr). exists r, s'. split; [done|]. split; [done|]. split; [done|].
      destruct r as [|[o' tot]]; [done|]. destruct Hr as (R1 & R2 & R3). split; [done|]. split; [|done].
      intros n f [[= -> ->]|Hin]%elem_of_cons; [done|by apply R2]. }
  unfold continue.
  destruct (new_state_correct name fu total s Hi) as (r & s1 & -> & Hi1 & Hk1 & Hr). cbn [mbind outcome_bind].
  destruct r as [e|[[info inline] total1]]; [by eexists _, s1|]. destruct Hr as (Hok & Ht & Hin).
  destruct (add_output_correct (HashCache.blobs s1) name fu info inline o Hok Ht Hin) as (r & -> & Hadd). cbn [mbind outcome_bind].
  destruct r as [e|o1]; [by eexists _, s1|]. destruct Hadd as ((S1 & S2 & S3) & Hrec & Hl).
  destruct (IH o1 total1 s1 Hi1) as (r & s2 & -> & Hi2 & Hk2 & Hr). exists r, s2. split_and!; [done|done|by eapply keeps_trans|].
  destruct r as [e|[o' tot]]; [done|]. destruct Hr as ((T1 & T2 & T3) & R2 & l & Hp & Hs). split; [split_and!; by etrans|]. split.
  - intros n f [[= -> ->]|Hx]%elem_of_cons Hc'; [|by apply R2]. by eapply recorded_mono.
  - destruct Hl as [Hl| ->].
    + exists (name :: l). split; [rewrite Hp, Hl; cbn; by rewrite Permutation_middle|]. by apply sublist_skip.
    + exists l. split; [done|]. by apply sublist_cons.
Qed.

(** *** The data appended to inherited files *)

Context `{PipeRecorder.RecorderEnv}.
(** Compression never gives nothing. *)
Context (zstd_ne : forall data z, zstd_compress data = Some z -> z <> []).

Definition append_holds (b : BlobCache.t) (data : list Z) (a : append_to_fd) : Prop :=
  a_inline_data a = data \/
  (a_inline_data a = [] /\ append_blob a = Some (XXH3_128bits data) /\ BlobCache.has_blob (XXH3_128bits data) (BlobCache.root b)).

(** The process has written [data] to an inherited pipe with a recorder, or to the end of an
    inherited regular file. *)
Definition wrote (h : PipeRecorder.heap) (f : inherited_file_t) (data : list Z) : Prop :=
  is_Some (head (if_fds f)) /\
  match if_type f, if_recorder f with
  | FD_PIPE_OUT, Some i =>
      exists r, h !! i = Some r /\ PipeRecorder.records r data /\ (PipeRecorder.use_memory_buffer_ r = false -> data <> [])
  | FD_FILE, _ =>
      0 <= if_start_offset f /\
      exists name, if_filename f = Some name /\
        forall a c contents, V name = Some a -> HashCache.v_dir a = false -> HashCache.opened E name = Some (c, contents) ->
          data = drop (Z.to_nat (if_start_offset f)) contents
  | _, _ => data = []
  end.

(** The states that can follow. *)
Definition appended (f : inherited_file_t) (s s' : st) : Prop :=
  inv (hc s') /\ keeps (hc s) (hc s') /\ HashCache.db_ (hc s') = HashCache.db_ (hc s) /\ objs s' = objs s /\
  forall i, if_recorder f <> Some i -> recorders s' !! i = recorders s !! i.

Lemma pack_ne data z : data <> [] -> BlobCache.pack data = Some z -> z <> [].
Proof. unfold BlobCache.pack. destruct compress_cache; [intros _; apply zstd_ne|by intros ? [= <-]]. Qed.

Lemma set_blobs_appended f s b :
  inv (hc s) -> BlobCache.inv (BlobCache.root b) -> BlobCache.keeps (BlobCache.root (HashCache.blobs (hc s))) (BlobCache.root b) ->
  appended f s (set_blobs b s).
Proof.
  intros Hi Hb Hk. split; [|done]. destruct (hc s) as [db b0] eqn:Eh. unfold set_blobs. cbn [hc]. rewrite Eh. cbn [HashCache.db_].
  by apply (HashCache.inv_keeps is_in_read_only_location Hist (HashCache.mk db b0) b).
Qed.

(** A recorder. *)
Lemma recorder_store_correct f i s r data :
  if_recorder f = Some i -> inv (hc s) -> recorders s !! i = Some r -> PipeRecorder.records r data ->
  (PipeRecorder.use_memory_buffer_ r = false -> data <> []) ->
  exists stored s', recorder_store SE i s = Ret (stored, s') /\ appended f s s' /\
    match stored with
    | None => True
    | Some PipeRecorder.Empty => data = []
    | Some (PipeRecorder.Inline d) => d = data /\ data <> []
    | Some (PipeRecorder.Blob h n) => h = XXH3_128bits data /\ BlobCache.has_blob h (BlobCache.root (HashCache.blobs (hc s'))) /\ data <> []
    end.
Proof.
  intros Hf Hi Hr Hrec Hne. unfold recorder_store, PipeRecorder.get. rewrite Hr. cbn [mbind outcome_bind].
  pose proof (PipeRecorder.rc_offset _ _ Hrec) as Ho. pose proof (PipeRecorder.rc_where _ _ Hrec) as Hw.
  assert (Hdone : forall key b, BlobCache.inv (BlobCache.root b) -> BlobCache.keeps (BlobCache.root (HashCache.blobs (hc s))) (BlobCache.root b) ->
    exists r', PipeRecorder.store (fun _ _ => key) r = Ret (r', if PipeRecorder.use_memory_buffer_ r then
      Some (match data with [] => @PipeRecorder.Empty Hash.t | _ => PipeRecorder.Inline data end)
    else (fun key => PipeRecorder.Blob key (Z.of_nat (length data))) <$> key) /\
    appended f s (mkSt (<[i := r']> (recorders (set_blobs b s))) (hc (set_blobs b s)) (objs (set_blobs b s)))).
  { intros key b Hb Hk. destruct (PipeRecorder.store_records (fun _ _ => key) r data Hrec) as (r' & _ & Hs). exists r'. split; [exact Hs|].
    destruct (set_blobs_appended f s b Hi Hb Hk) as (A1 & A2 & A3 & A4 & A5). split_and!; [done..|].
    intros j Hj. cbn [recorders]. rewrite lookup_insert_ne by (intros ->; congruence). by apply A5. }
  pose proof (HashCache.inv_blobs _ _ _ Hi) as Hib.
  destruct (PipeRecorder.use_memory_buffer_ r) eqn:Hu; cbn [andb].
  - destruct Hw as [Hfd _]. rewrite Hfd. cbn [mbind outcome_bind].
    destruct (Hdone None (HashCache.blobs (hc s)) Hib ltac:(by intros ? ?)) as (r' & -> & Ha). cbn [mbind outcome_bind].
    eexists _, _. split; [done|]. split; [exact Ha|]. by destruct data.
  - destruct Hw as [Hfd _]. rewrite Hfd, Ho. specialize (Hne eq_refl).
    destruct (BlobCache.move_store_file_correct SE data (HashCache.blobs (hc s)) HSE Hdebug Hib Hne (fun z => pack_ne data z Hne))
      as (key & b & -> & Hkey). cbn [mbind outcome_bind].
    destruct key as [key|].
    + destruct Hkey as (-> & Hb & Hblob & Hk & _). destruct (Hdone (Some (XXH3_128bits data)) b Hb Hk) as (r' & -> & Ha).
      cbn [mbind outcome_bind]. eexists _, _. split; [done|]. split; [exact Ha|]. done.
    + subst b. destruct (Hdone None (HashCache.blobs (hc s)) Hib ltac:(by intros ? ?)) as (r' & -> & Ha). cbn [mbind outcome_bind].
      eexists _, _. split; [done|]. split; [exact Ha|done].
Qed.

Definition append_ok (b : BlobCache.t) (f : inherited_file_t) (data : list Z) (a : option append_to_fd) : Prop :=
  match a with
  | None => data = []
  | Some a => head (if_fds f) = Some (a_fd a) /\ append_holds b data a /\ data <> []
  end.

Lemma appended_refl f s : inv (hc s) -> appended f s s.
Proof. intros Hi. split_and!; [done|by intros ? ?|done..]. Qed.

Lemma append_hash_holds b fd data :
  BlobCache.has_blob (XXH3_128bits data) (BlobCache.root b) -> append_holds b data (append_hash fd (XXH3_128bits data)).
Proof. intros Hb. right. split_and!; [done| |done]. unfold append_blob, append_hash. cbn. by destruct compress_cache. Qed.

(** A regular file that was appended to. *)
Lemma append_file_correct f fd fds total s name data :
  if_fds f = fd :: fds -> if_type f = FD_FILE -> if_filename f = Some name -> 0 <= if_start_offset f -> inv (hc s) ->
  (forall a c contents, V name = Some a -> HashCache.v_dir a = false -> HashCache.opened E name = Some (c, contents) ->
     data = drop (Z.to_nat (if_start_offset f)) contents) ->
  exists r s', append_of SE E f total s = Ret (r, s') /\ appended f s s' /\
    match r with inl _ => True | inr (a, _) => append_ok (HashCache.blobs (hc s')) f data a end.
Proof.
  intros Ef Et En Ho Hi Hdata. unfold append_of. rewrite Ef, Et, En. pose proof (appended_refl f s Hi) as Hrefl.
  pose proof (HashCache.fa_stat _ _ Hfaithful name) as Hs.
  destruct (HashCache.stat64 E name) as [st|] eqn:Est; [|by eexists _, s].
  destruct (S_ISREG (st_mode (HashCache.st st))) eqn:Hreg; cbn [negb]; [|by eexists _, s].
  destruct (V name) as [a|] eqn:EV; [|by destruct Hs; congruence]. destruct Hs as (_ & Hnd & Hsize & _).
  rewrite Hreg in Hnd. symmetry in Hnd. apply negb_true_iff in Hnd. destruct (Hopen name a EV Hnd) as [[c contents] Hop].
  pose proof (HashCache.fa_read _ _ Hfaithful name c contents a Hop EV) as Hread. unfold HashCache.reads_as in Hread. rewrite Hnd in Hread.
  destruct Hread as (_ & Hlen & _). rewrite (Hsize Hnd), Hlen in *. specialize (Hdata a c contents eq_refl Hnd Hop).
  destruct (Z.ltb_spec (Z.of_nat (length contents)) (if_start_offset f)) as [Hlt|Hge]; [by eexists _, s|].
  destruct (Z.ltb_spec (if_start_offset f) (Z.of_nat (length contents))) as [Hlt|Hge'].
  2:{ eexists _, s. split; [done|]. split; [done|]. cbn. subst data. apply drop_ge. lia. }
  rewrite Hop. cbn [fmap option_fmap option_map snd].
  destruct (BlobCache.store_file_correct SE (HashCache.writers_count E name) 1 contents (if_start_offset f) (HashCache.blobs (hc s)) HSE Hdebug
    (HashCache.inv_blobs _ _ _ Hi) Ho) as (key & b & -> & Hkey). cbn [mbind outcome_bind].
  destruct key as [key|].
  - destruct Hkey as [(-> & Hb & Hblob & Hk & _) _]. pose proof (set_blobs_appended f s b Hi Hb Hk) as Ha.
    destruct (max_entry_size <? _); [by eexists _, _|]. eexists _, _. split; [done|]. split; [exact Ha|]. cbn. rewrite Ef.
    rewrite <- Hdata in *. split_and!; [done|by apply append_hash_holds|]. intros Hnil. apply (f_equal length) in Hnil. subst data.
    rewrite length_drop in Hnil. cbn in Hnil. lia.
  - subst b. eexists _, _. split; [done|]. split; [|done]. by apply (set_blobs_appended f s); [|apply (HashCache.inv_blobs _ _ _ Hi)|intros ? ?].
Qed.

Lemma append_of_correct f total s data :
  wrote (recorders s) f data -> inv (hc s) ->
  exists r s', append_of SE E f total s = Ret (r, s') /\ appended f s s' /\
    match r with inl _ => True | inr (a, _) => append_ok (HashCache.blobs (hc s')) f data a end.
Proof.
  intros [[fd Hfd] Hw] Hi. destruct (if_fds f) as [|fd' fds] eqn:Ef; [done|]. injection Hfd as ->.
  assert (Hnone : data = [] -> exists (r : ending + (option append_to_fd * Z)) s', Ret (inr (None, total), s) = Ret (r, s') /\ appended f s s' /\
    match r with inl _ => True | inr (a, _) => append_ok (HashCache.blobs (hc s')) f data a end).
  { intros Hd. eexists _, s. split; [done|]. split; [by apply appended_refl|done]. }
  destruct (if_type f) eqn:Et; try (unfold append_of; rewrite Ef, Et; by apply Hnone).
  - destruct Hw as (Ho & name & En & Hdata). by eapply append_file_correct.
  - destruct (if_recorder f) as [i|] eqn:Er; [|unfold append_of; rewrite Ef, Et, Er; by apply Hnone].
    destruct Hw as (r & Hr & Hrec & Hne). unfold append_of. rewrite Ef, Et, Er.
    destruct (recorder_store_correct f i s r data Er Hi Hr Hrec Hne) as (stored & s' & -> & Ha & Hst). cbn [mbind outcome_bind].
    destruct stored as [stored|]; [|by eexists _, s']. destruct (max_entry_size <? _); [by eexists _, s'|].
    eexists _, s'. split; [done|]. split; [done|]. unfold append_ok. rewrite Ef.
    destruct stored as [|d|h n]; [done| |]; cbn [a_fd head].
    + destruct Hst as [-> Hd]. split_and!; [done|by left|done].
    + destruct Hst as (-> & Hb & Hd). split_and!; [done|by apply append_hash_holds|done].
Qed.

Lemma wrote_heap h h' f data :
  (forall i, if_recorder f = Some i -> h' !! i = h !! i) -> wrote h f data -> wrote h' f data.
Proof.
  intros Hh [Hfd Hw]. split; [done|]. destruct (if_type f); try done. destruct (if_recorder f) as [i|]; [|done].
  destruct Hw as (r & Hr & Hrest). exists r. by rewrite Hh.
Qed.

Lemma append_holds_keeps b b' data a :
  BlobCache.keeps (BlobCache.root b) (BlobCache.root b') -> append_holds b data a -> append_holds b' data a.
Proof. intros Hk [Ha|(Hi & Ha & Hb)]; [by left|right]. split_and!; [done..|]. by eapply HashCache.has_blob_keeps. Qed.

Definition replayable (b : BlobCache.t) (w : inherited_file_t * list Z) (a : append_to_fd) : Prop :=
  head (if_fds w.1) = Some (a_fd a) /\ append_holds b w.2 a.
Definition really_wrote (w : inherited_file_t * list Z) : Prop := is_write (if_flags w.1) = true /\ w.2 <> [].

Lemma collect_appends_correct ws total s :
  Forall (fun w => wrote (recorders s) w.1 w.2) ws -> NoDup (omap if_recorder (fst <$> ws)) -> inv (hc s) ->
  exists r s', collect_appends SE E (fst <$> ws) total s = Ret (r, s') /\ inv (hc s') /\ keeps (hc s) (hc s') /\
    match r with
    | inl _ => True
    | inr (appends, _) => Forall2 (replayable (HashCache.blobs (hc s'))) (filter really_wrote ws) appends
    end.
Proof.
  revert total s. induction ws as [|[f data] ws IH]; intros total s Hw Hnd Hi; cbn [collect_appends fmap list_fmap fst].
  { eexists _, s. split; [done|]. split; [done|]. split; [by intros ? ?|]. constructor. }
  apply Forall_cons in Hw as [Hf Hw]. cbn [fst snd] in Hf. rewrite list.filter_cons.
  assert (Hnd' : NoDup (omap if_recorder (fst <$> ws)) /\ forall i, if_recorder f = Some i -> i ∉ omap if_recorder (fst <$> ws)).
  { cbn in Hnd. destruct (if_recorder f) as [i|]; [|done]. apply NoDup_cons in Hnd as [Hn Hnd]. split; [done|]. by intros j [= <-]. }
  destruct Hnd' as [Hnd' Hfresh]. destruct (is_write (if_flags f)) eqn:Ew.
  2:{ rewrite decide_False by (intros [Hx _]; cbn in Hx; congruence). by apply IH. }
  unfold continue. destruct (append_of_correct f total s data Hf Hi) as (r & s1 & -> & (Hi1 & Hk1 & _ & _ & Hrec) & Hr). cbn [mbind outcome_bind].
  destruct r as [e|[a total1]]; [by eexists _, s1|].
  destruct (IH total1 s1) as (r & s2 & -> & Hi2 & Hk2 & Hr2); [|done|done|].
  { rewrite Forall_forall in Hw |- *. intros w Hin. eapply wrote_heap; [|by apply Hw]. intros i Hwi. apply Hrec. intros Hfi.
    apply (Hfresh i Hfi), list_elem_of_omap. exists w.1. split; [|done]. apply list_elem_of_fmap. by exists w. }
  cbn [mbind outcome_bind]. pose proof (keeps_trans _ _ _ Hk1 Hk2) as Hk. destruct r as [e|[appends total2]]; [by eexists _, s2|].
  eexists _, s2. split; [done|]. split; [done|]. split; [done|]. destruct a as [a|]; cbn in Hr.
  - destruct Hr as (Hfd & Ha & Hne). rewrite decide_True by done. constructor; [|done]. split; [done|]. eapply append_holds_keeps; [exact Hk2|exact Ha].
  - subst data. by rewrite decide_False by (by intros [_ ?]).
Qed.

(** C14. The outputs of a stored entry are what the process did: for every file that it wrote or
    whose mode it changed, the entry says what is there now - that it is gone, if it was not
    missing before, that it is a directory, or that it is a regular file with its size and contents: in the entry, or in the
    blob cache under the recorded hash, or not at all, when they could not be stored and a zero
    hash is recorded - with its new mode if that was changed, and it says this of no other file
    and only once; what the process wrote to inherited pipes and to the end of inherited files is
    in the entry or in the blob cache under the recorded hash, in order; and the exit status is
    the process's.  Regular files are assumed to be readable: one that is not is recorded as
    removed ([unreadable_output_recorded_as_removed]). *)
Theorem store_outputs OE fingerprint exit_status x parent usages ws s entry written s' :
  inherited_files_ x = fst <$> ws -> Forall (fun w => wrote (recorders s) w.1 w.2) ws -> NoDup (omap if_recorder (fst <$> ws)) ->
  NoDup (fst <$> usages) -> inv (hc s) ->
  store max_inline_blob_size SE is_in_read_only_location is_in_ignore_location generation false E OE fingerprint exit_status
    x parent usages s = Ret (Stored entry written, s') ->
  let po := pio_outputs entry in
  let names := (f_path <$> po_path_isreg po) ++ (f_path <$> po_path_isdir po) ++ po_path_notexist po in
  (forall name fu, (name, fu) ∈ usages -> changed fu ->
     recorded (HashCache.blobs (hc s')) name fu (po_path_isreg po) (po_path_isdir po) (po_path_notexist po)) /\
  NoDup names /\ (forall name, name ∈ names -> exists fu, (name, fu) ∈ usages /\ changed fu) /\
  Forall2 (replayable (HashCache.blobs (hc s'))) (filter really_wrote ws) (po_append_to_fd po) /\
  po_exit_status po = exit_status.
Proof.
  intros Ex Hw Hndr Hndu Hi Hst. unfold store, store_itself in Hst. destruct (parent ≫= _); [done|].
  apply outcome_bind_Ret in Hst as ([e|pi0] & _ & Hst); [done|]. apply outcome_bind_Ret in Hst as ([e|pi1] & _ & Hst); [done|].
  destruct (collect_outputs_correct usages (mkOuts [] [] []) 0 (hc s) Hi) as (r & h & Hco & Hi1 & Hk1 & Hr).
  unfold mbind at 1, outcome_bind at 1 in Hst. rewrite Hco in Hst. destruct r as [e|[o total]]; [done|]. rewrite Ex in Hst.
  destruct (collect_appends_correct ws total (set_hc h s) Hw Hndr Hi1) as (r & s2 & Hca & Hi2 & Hk2 & Hr2).
  unfold mbind at 1, outcome_bind at 1 in Hst. rewrite Hca in Hst. destruct r as [e|[appends total']]; [done|].
  apply outcome_bind_Ret in Hst as ([] & _ & Hst); [|done]. apply outcome_bind_Ret in Hst as ([w objs2] & _ & [= <- <- <-]).
  destruct Hr as (_ & Hrec & l & Hp & Hl). cbn [pio_outputs make_entry po_path_isreg po_path_isdir po_path_notexist po_append_to_fd po_exit_status hc].
  assert (Hnames : (f_path <$> sort_files (o_isreg o)) ++ (f_path <$> sort_files (o_isdir o)) ++ merge_sort address_le (o_notexist o) ≡ₚ l).
  { rewrite app_nil_r in Hp. rewrite <- Hp. unfold listed, sort_files. by rewrite !merge_sort_Permutation. }
  split_and!; [| | |done|done].
  - intros name fu Hin Hc. eapply recorded_mono; [exact Hk2|..|by apply Hrec]; intros y Hy; unfold sort_files; by rewrite merge_sort_Permutation.
  - rewrite Hnames. eapply sublist_NoDup; [exact Hndu|]. etrans; [exact Hl|]. apply fmap_sublist, sublist_filter.
  - intros name Hn. rewrite Hnames in Hn. apply sublist_submseteq in Hl. eapply elem_of_submseteq in Hl; [|exact Hn].
    apply list_elem_of_fmap in Hl as ([n fu] & -> & [Hc Hx]%list_elem_of_filter). by exists fu.
Qed.

End Outputs.

(** ** An instance *)
#[local] Existing Instances Hashing.demo_xxhash Hashing.demo_xxhash_ok.

(** A process that found [/in] to be missing, wrote [/a] and wrote a byte to its output. *)
Definition demo_config : CacheConfig := BlobCache.demo_config false.
Definition demo_store_config : StoreConfig :=
  {| quirk_ignore_tmp_listing := false; default_tmpdir := cs "/tmp"; top_dir := Some (cs "/"); ccache_disabled := false;
     shells := {[cs "sh"]}; deterministic_cache := false; file_address := fun name => Z.of_nat (length name) |}.
Definition demo_serializer : Serializer := {| serialize _ := [1]; deserialize _ := None |}.
Definition demo_recorder_env : PipeRecorder.RecorderEnv :=
  {| PipeRecorder.max_inline_blob_size := 4096; PipeRecorder.realloc_ok _ := true; PipeRecorder.mkstemp_ok := true |}.

Definition demo_usage (i : FileInfo.t) (written : bool) : FileUsage.t := FileUsage.mk i written written false true 0 None 0.
Definition demo_usages : list (cstr * FileUsage.t) :=
  [(cs "/in", demo_usage (of_type NOTEXIST) false); (HashCache.demo_path, demo_usage (of_type DONTKNOW) true);
   (cs "/", demo_usage (of_type ISDIR) false)].
Definition demo_stdout : inherited_file_t := mkInherited FD_PIPE_OUT [1] (Some 0%nat) None 1 0.
Definition demo_process : Execed :=
  mkExeced true false false 0 0 None None 0 0 0 0 (cs "/w") ∅ ∅ [cs "cc"] [] (cs "/bin/cc") (cs "/bin/cc") (cs "cc") [] ∅ []
    [demo_stdout] None None None None.
Definition demo_recorder : PipeRecorder.t := PipeRecorder.mk None 1 (Some [Some 7]) 1 true false false.
Definition demo_st : st := mkSt {[0%nat := demo_recorder]} HashCache.demo_state (BlobCache.mk (CacheDir.Dir []) 0).
Definition demo_run : outcome (result * st) :=
  @store _ demo_config demo_serializer demo_store_config 0 BlobCache.demo_store_env (fun _ => false) (fun _ => false) (fun _ => 0) false
    (HashCache.demo_env [1; 2; 3] 33188 10 0) ObjCache.demo_env (XXH3_128bits [9]) 0 demo_process None demo_usages demo_st.
Definition demo_entry : process_inputs_outputs :=
  mkPio (mkInputs [mkFile (cs "/") ISDIR None None None None None [] None] [cs "/in"])
    (mkOutputs [mkFile HashCache.demo_path ISREG (Some 3) (Some (XXH3_128bits [1; 2; 3])) None (Some 420) (Some 4095) [] None] [] []
       [mkAppend 1 None None [7]] 0) (Some 0).

Lemma demo_run_stored : exists s', demo_run = Ret (Stored demo_entry true, s').
Proof. eexists. vm_compute. reflexivity. Qed.

Lemma store_inputs_witness :
  exists s', demo_run = Ret (Stored demo_entry true, s') /\
    forall V, inputs_match V (pio_inputs demo_entry) <->
      forall name fu, (name, fu) ∈ demo_usages -> FileUsage.initial_type fu <> DONTKNOW ->
        HashCache.matches (@expectation demo_store_config [cs "cc"] name fu) (V name).
Proof.
  destruct demo_run_stored as [s' Hs]. exists s'. split; [exact Hs|].
  apply (@store_inputs _ demo_config demo_serializer demo_store_config 0 BlobCache.demo_store_env (fun _ => false) (fun _ => false) (fun _ => 0) false
    (HashCache.demo_env [1; 2; 3] 33188 10 0) ObjCache.demo_env (XXH3_128bits [9]) 0 demo_process None demo_usages demo_st demo_entry true s');
    [|exact Hs].
  repeat constructor; cbn; try done; by intros [=].
Defined.

Lemma demo_wrote : @wrote (HashCache.demo_env [1; 2; 3] 33188 10 0) (HashCache.demo_view [1; 2; 3] 33188 10) demo_recorder_env
  {[0%nat := demo_recorder]} demo_stdout [7].
Proof.
  split; [by eexists|]. exists demo_recorder. split; [done|]. split; [|done]. split; [done..|]. cbn. split; [done|]. right.
  split_and!; [|done|cbn; lia]. by exists [Some 7].
Qed.

Lemma demo_open path a :
  HashCache.demo_view [1; 2; 3] 33188 10 path = Some a -> HashCache.v_dir a = false ->
  is_Some (HashCache.opened (HashCache.demo_env [1; 2; 3] 33188 10 0) path).
Proof. unfold HashCache.demo_view, HashCache.demo_env. cbn [HashCache.opened]. case_bool_decide; [by eexists|done]. Qed.

Lemma demo_zstd_ne data z : @zstd_compress demo_config data = Some z -> z <> [].
Proof. by intros [= <-]. Qed.

Lemma store_outputs_witness :
  exists s', demo_run = Ret (Stored demo_entry true, s') /\
    @recorded _ demo_config (HashCache.demo_env [1; 2; 3] 33188 10 0) (HashCache.demo_view [1; 2; 3] 33188 10) (HashCache.blobs (hc s'))
      HashCache.demo_path (demo_usage (of_type DONTKNOW) true) (po_path_isreg (pio_outputs demo_entry)) [] [] /\
    Forall2 (@replayable _ demo_config (HashCache.blobs (hc s'))) [(demo_stdout, [7])] [mkAppend 1 None None [7]].
Proof.
  destruct demo_run_stored as [s' Hs]. exists s'. split; [exact Hs|].
  destruct (@store_outputs _ demo_config demo_serializer demo_store_config _ (BlobCache.demo_config_ok false) 0 BlobCache.demo_store_env
    (fun _ => false) (fun _ => false) (fun _ => 0) eq_refl BlobCache.demo_store_env_ok (ex_intro _ _ eq_refl) HashCache.demo_hist
    (HashCache.demo_env [1; 2; 3] 33188 10 0) (HashCache.demo_view [1; 2; 3] 33188 10) HashCache.demo_honest (fun _ => or_introl eq_refl)
    (HashCache.demo_faithful [1; 2; 3] 33188 10 0 eq_refl eq_refl) demo_open demo_recorder_env demo_zstd_ne
    ObjCache.demo_env (XXH3_128bits [9]) 0 demo_process None demo_usages [(demo_stdout, [7])] demo_st demo_entry true s')
    as (Hrec & _ & _ & Hrep & _).
  - reflexivity.
  - constructor; [apply demo_wrote|constructor].
  - apply (bool_decide_eq_true_1 _). vm_compute. reflexivity.
  - apply (bool_decide_eq_true_1 _). vm_compute. reflexivity.
  - apply HashCache.demo_inv.
  - exact Hs.
  - split; [apply Hrec; [right; left|reflexivity]|exact Hrep].
Defined.

(** ** Some behaviours that are surprising *)

(** A file that the process wrote but that cannot be opened for reading is recorded as removed. *)
Theorem unreadable_output_recorded_as_removed :
  exists s', @collect_outputs _ demo_config demo_store_config 0 BlobCache.demo_store_env (fun _ => false) (fun _ => false)
    (HashCache.mkEnv (HashCache.stat64 (HashCache.demo_env [1] 32768 10 0)) (fun _ => None) (fun _ => false) (fun _ => 0))
    [(HashCache.demo_path, demo_usage (of_type DONTKNOW) true)] (mkOuts [] [] []) 0 HashCache.demo_state
  = Ret (inr (mkOuts [] [] [HashCache.demo_path], 0), s').
Proof. eexists. vm_compute. reflexivity. Qed.

(** A shell that is called with a double dash is not recognized: the command is compared to the dashes. *)
Theorem sh_c_dashes_not_recognized :
  let parent args := mkExeced true false false 0 0 None None 0 0 0 0 (cs "/w") ∅ ∅ args [] (cs "/bin/sh") (cs "/bin/sh") (cs "sh") [] ∅ []
    [] None None None None in
  @parent_instead demo_store_config (parent [cs "sh"; cs "-c"; cs "cc a.c"]) [cs "cc"; cs "a.c"]
    = Some "Shortcut parent sh -c ... instead"%string /\
  @parent_instead demo_store_config (parent [cs "sh"; cs "-c"; cs "--"; cs "cc a.c"]) [cs "cc"; cs "a.c"] = None.
Proof. split; vm_compute; reflexivity. Qed.

End StoreEntry.
