(* ===== verification/FileSystem.v ===== *)
(** The file system that shortcutting changes: the system calls that are used for it, on a map
    from canonical absolute paths to files and directories. *)

From stdpp Require Import base list strings option gmap.
From Stdlib Require Import ZArith Lia Ascii.
From S2P Require Import Prelude Paths FileNames.

Local Open Scope Z_scope.

Module Fs.

Definition ENOENT : Z := 2.
Definition EACCES : Z := 13.
Definition EEXIST : Z := 17.
Definition ENOTDIR : Z := 20.
Definition EISDIR : Z := 21.
Definition ENOTEMPTY : Z := 39.

Record inode := mkInode { i_dir : bool; i_data : list Z; i_mode : Z; i_mtime : Z * Z }.
#[global] Instance inode_eq_dec : EqDecision inode.
Proof. solve_decision. Defined.
Abbreviation t := (gmap cstr inode).

(** The umask of the supervisor, the clock, the permissions, and how much a call of [write()]
    takes. *)
Class Kernel := {
  k_umask : Z;
  k_now : Z * Z;
  may_write : t -> cstr -> bool;
  may_change_dir : t -> cstr -> bool;
  may_chmod : t -> cstr -> bool;
  write_n : Z -> Z
}.

Section Fs.
Context `{Kernel}.

(** Why no entry can be added or removed at [path]. *)
Definition parent_error (fs : t) (path : cstr) : option Z :=
  match FileName.parent_dir path with
  | None => Some ENOENT
  | Some d =>
      match fs !! d with
      | None => Some ENOENT
      | Some i => if negb (i_dir i) then Some ENOTDIR else if may_change_dir fs d then None else Some EACCES
      end
  end.

Definition masked (mode : Z) : Z := Z.ldiff (Z.land mode 4095) k_umask.

Definition mkdir (path : cstr) (mode : Z) (fs : t) : Z + t :=
  match fs !! path with
  | Some _ => inl EEXIST
  | None =>
      match parent_error fs path with
      | Some errno => inl errno
      | None => inr (<[path := mkInode true [] (masked mode) k_now]> fs)
      end
  end.

(** [open(path, O_WRONLY|O_CREAT|flags, mode)] with [O_TRUNC] or [O_APPEND]. *)
Definition open_creat (trunc : bool) (path : cstr) (mode : Z) (fs : t) : Z + t :=
  match fs !! path with
  | Some i =>
      if i_dir i then inl EISDIR
      else if negb (may_write fs path) then inl EACCES
      else inr (if trunc then <[path := mkInode false [] (i_mode i) k_now]> fs else fs)
  | None =>
      match parent_error fs path with
      | Some errno => inl errno
      | None => inr (<[path := mkInode false [] (masked mode) k_now]> fs)
      end
  end.

(** [open(path, O_WRONLY)]. *)
Definition open_wronly (path : cstr) (fs : t) : Z + t :=
  match fs !! path with
  | Some i => if i_dir i then inl EISDIR else if may_write fs path then inr fs else inl EACCES
  | None => inl ENOENT
  end.

(** The contents of an open file are replaced. *)
Definition set_data (path : cstr) (data : list Z) (fs : t) : t :=
  alter (fun i => mkInode (i_dir i) data (i_mode i) k_now) path fs.
Definition data_of (path : cstr) (fs : t) : list Z := match fs !! path with Some i => i_data i | None => [] end.

(** The loop around [write()] to the end of a file; false after an error. *)
Fixpoint write_all (fuel : nat) (path : cstr) (data : list Z) (fs : t) : outcome (bool * t) :=
  match data with
  | [] => Ret (true, fs)
  | _ =>
      match fuel with
      | O => OutOfFuel
      | S fuel =>
          let n := write_n (Z.of_nat (length data)) in
          if n <=? 0 then Ret (false, fs)
          else write_all fuel path (drop (Z.to_nat n) data) (set_data path (data_of path fs ++ take (Z.to_nat n) data) fs)
      end
  end.

Definition chmod (path : cstr) (mode : Z) (fs : t) : Z + t :=
  match fs !! path with
  | None => inl ENOENT
  | Some i => if may_chmod fs path then inr (<[path := mkInode (i_dir i) (i_data i) (Z.land mode 4095) (i_mtime i)]> fs) else inl EACCES
  end.
Definition utimens (path : cstr) (mtime : Z * Z) (fs : t) : t :=
  if may_chmod fs path then alter (fun i => mkInode (i_dir i) (i_data i) (i_mode i) mtime) path fs else fs.

Definition unlink (path : cstr) (fs : t) : Z + t :=
  match fs !! path with
  | None => inl ENOENT
  | Some i => if i_dir i then inl EISDIR else match parent_error fs path with Some errno => inl errno | None => inr (delete path fs) end
  end.

Definition has_entries (fs : t) (path : cstr) : Prop := exists p, is_Some (fs !! p) /\ FileName.parent_dir p = Some path.
#[global] Instance has_entries_dec fs path : Decision (has_entries fs path).
Proof.
  refine (cast_if (decide (Exists (fun e => FileName.parent_dir e.1 = Some path) (map_to_list fs)))).
  - apply Exists_exists in e as ([p i] & Hp%elem_of_map_to_list & He). exists p. by rewrite Hp.
  - intros (p & [i Hp] & He). apply n, Exists_exists. exists (p, i). by rewrite elem_of_map_to_list.
Defined.

Definition rmdir (path : cstr) (fs : t) : Z + t :=
  match fs !! path with
  | None => inl ENOENT
  | Some i =>
      if negb (i_dir i) then inl ENOTDIR
      else if decide (has_entries fs path) then inl ENOTEMPTY
      else match parent_error fs path with Some errno => inl errno | None => inr (delete path fs) end
  end.

(** [access(path, W_OK)]: the error. *)
Definition access_w (path : cstr) (fs : t) : option Z :=
  match fs !! path with
  | None => Some ENOENT
  | Some _ => if may_write fs path then None else Some EACCES
  end.

(** ** Lemmas *)

Definition writes_progress : Prop := forall k, 0 < k -> 0 < write_n k <= k.

Lemma set_data_data path data data' fs : set_data path data' (set_data path data fs) = set_data path data' fs.
Proof.
  apply map_eq. intros p. unfold set_data. rewrite !lookup_alter. by repeat case_decide; destruct (fs !! path).
Qed.

Lemma data_of_set path data fs : is_Some (fs !! path) -> data_of path (set_data path data fs) = data.
Proof. intros [i Hi]. unfold data_of, set_data. by rewrite lookup_alter, decide_True, Hi by done. Qed.

Lemma write_all_correct fuel path data fs :
  writes_progress -> (length data <= fuel)%nat -> is_Some (fs !! path) -> data <> [] ->
  write_all fuel path data fs = Ret (true, set_data path (data_of path fs ++ data) fs).
Proof.
  intros Hw. revert data fs. induction fuel as [|fuel IH]; intros data fs Hl Hp Hne; [destruct data; [done|cbn in Hl; lia]|].
  destruct data as [|b data]; [done|]. cbn [write_all]. set (l := b :: data) in *.
  specialize (Hw (Z.of_nat (length l)) ltac:(cbn; lia)). set (n := write_n _) in *. rewrite (proj2 (Z.leb_gt _ _)) by lia.
  assert (Hp' : is_Some (set_data path (data_of path fs ++ take (Z.to_nat n) l) fs !! path)).
  { unfold set_data. rewrite lookup_alter, decide_True by done. destruct Hp as [i ->]. by eexists. }
  destruct (drop (Z.to_nat n) l) as [|c rest] eqn:Ed.
  - assert (E : take (Z.to_nat n) l = l).
    { apply take_ge. apply (f_equal length) in Ed. rewrite length_drop in Ed. cbn in Ed |- *. lia. }
    rewrite E. by destruct fuel.
  - rewrite <- Ed in *. rewrite IH; [|rewrite length_drop; lia|done|by rewrite Ed].
    rewrite set_data_data, data_of_set by done. by rewrite <- app_assoc, take_drop.
Qed.

(** What a call leaves alone. *)
Definition same_but (paths : list cstr) (fs fs' : t) : Prop := forall p, p ∉ paths -> fs' !! p = fs !! p.

#[global] Instance same_but_proper : Proper ((≡ₚ) ==> eq ==> eq ==> iff) same_but.
Proof. intros l l' Hl fs _ <- fs' _ <-. unfold same_but. by setoid_rewrite Hl. Qed.

Lemma same_but_refl l fs : same_but l fs fs.
Proof. done. Qed.
Lemma same_but_trans l fs1 fs2 fs3 : same_but l fs1 fs2 -> same_but l fs2 fs3 -> same_but l fs1 fs3.
Proof. intros S1 S2 p Hp. by rewrite S2, S1. Qed.
Lemma same_but_mono l l' fs fs' : l ⊆ l' -> same_but l fs fs' -> same_but l' fs fs'.
Proof. intros Hl S p Hp. apply S. set_solver. Qed.
Lemma same_but_insert path i fs : same_but [path] fs (<[path := i]> fs).
Proof. intros p Hp. rewrite lookup_insert_ne; [done|set_solver]. Qed.
Lemma same_but_alter path f fs : same_but [path] fs (alter f path fs).
Proof. intros p Hp. rewrite lookup_alter_ne; [done|set_solver]. Qed.
Lemma same_but_delete path fs : same_but [path] fs (delete path fs).
Proof. intros p Hp. rewrite lookup_delete_ne; [done|set_solver]. Qed.

End Fs.
End Fs.
