(* ===== verification/Replay.v ===== *)
(** Shortcutting a process ([ExecedProcessCacher::shortcut()], [find_shortcut()],
    [apply_shortcut()] and their helpers in src/firebuild/execed_process_cacher.cc). *)

From stdpp Require Import base list strings option gmap sorting.
From Stdlib Require Import ZArith Lia Ascii.
From S2P Require Import Prelude Base64 Paths FileNames FileUsage World Hashing Storage ObjCache HashCache Entries StoreEntry FileSystem.

Local Open Scope Z_scope.

Module Replay.
Import FileInfo Entry.

(** ** What is done to the processes *)

(** The arguments of the constructors of [FileUsageUpdate], which adds the generation. *)
Inductive update := UInfo (info : FileInfo.t) | UType (type : FileType) (written mode_changed : bool).

(** In the order they happen: an update is registered at a process, data is added to a pipe and
    to the recorders of the parent exec point, writing to an inherited file is noted, and the
    exit status is set. *)
Inductive effect :=
| EvRegister (at_ : pid_ref) (path : cstr) (u : update)
| EvPipeData (fd : Z) (data : list Z)
| EvRecord (fd : Z) (data : list Z)
| EvInheritedWrite (fd : Z)
| EvExitStatus (status : Z).

(** What is read of the process: the points where updates are registered, whether it has a
    parent, and the files behind its descriptors. *)
Record proc_t := mkProc {
  registration_point : option pid_ref;
  parent_exec_point : option pid_ref;
  has_parent : bool;
  get_fd : Z -> option (fd_type * option cstr)
}.

Record st := mkSt { fs : Fs.t; log : list effect }.
Definition emit (e : effect) (s : st) : st := mkSt (fs s) (log s ++ [e]).
Definition set_fs (f : Fs.t) (s : st) : st := mkSt f (log s).
Definition register (at_ : option pid_ref) (path : cstr) (u : update) (s : st) : st :=
  match at_ with Some p => emit (EvRegister p path u) s | None => s end.

(** [file_to_file_usage_update(path, file)]. *)
Definition update_of (f : file) : update :=
  UType DONTKNOW ((bool_decide (f_type f = ISREG) && bool_decide (is_Some (f_size f))) || bool_decide (f_type f = ISDIR))
    (bool_decide (is_Some (f_mode f))).

Section Replay.
Context `{XXHash} `{CacheConfig} `{Serializer} `{Fs.Kernel}.
Context (SE : BlobCache.store_env) (CE : Copy.copy_env).
Context (is_in_read_only_location is_in_ignore_location : cstr -> bool).

(** ** Finding an entry *)

(** The inputs, checked with the hash cache. *)
Fixpoint all_match (E : HashCache.Env) (l : list (cstr * FileInfo.t)) (s : HashCache.t) : outcome (bool * HashCache.t) :=
  match l with
  | [] => Ret (true, s)
  | (path, query) :: l =>
      '(b, s) ← HashCache.file_info_matches SE is_in_read_only_location is_in_ignore_location E path query s;
      if b : bool then all_match E l s else Ret (false, s)
  end.

(** The outputs that are not writable are expected and will be replaced. *)
Definition replaceable (pi : process_inputs) (f : file) : bool :=
  bool_decide (is_Some (find_input_file pi (f_path f))) && negb (Z.land (mode_mask_ (file_to_file_info f)) 128 =? 0).
Definition output_applicable (pi : process_inputs) (disk : Fs.t) (f : file) : bool :=
  negb (bool_decide (f_type f = ISREG) && bool_decide (Fs.access_w (f_path f) disk = Some Fs.EACCES)) || replaceable pi f.

Definition queries (pi : process_inputs) : list (cstr * FileInfo.t) :=
  ((fun f => (f_path f, file_to_file_info f)) <$> pi_path pi) ++ ((fun path => (path, of_type NOTEXIST)) <$> pi_path_notexist pi).

(** [pio_matches_fs(candidate_inouts, subkey, proc)]. *)
Definition pio_matches_fs (E : HashCache.Env) (disk : Fs.t) (e : process_inputs_outputs) (s : HashCache.t)
    : outcome (bool * HashCache.t) :=
  '(b, s) ← all_match E (queries (pio_inputs e)) s;
  Ret (b && forallb (output_applicable (pio_inputs e) disk) (po_path_isreg (pio_outputs e)), s).

(** [find_shortcut(proc, ...)]: the loop over the subkeys. *)
Fixpoint try_subkeys (E : HashCache.Env) (disk : Fs.t) (fingerprint : Hash.t) (objs : BlobCache.t) (attempts : Z)
    (subkeys : list cstr) (s : HashCache.t) : outcome (option (cstr * process_inputs_outputs) * HashCache.t) :=
  match subkeys with
  | [] => Ret (None, s)
  | subkey :: subkeys =>
      if shortcut_tries <? attempts then Ret (None, s)
      else
        r ← ObjCache.retrieve fingerprint subkey objs;
        match r with
        | None => try_subkeys E disk fingerprint objs (attempts + 1) subkeys s
        | Some (buf, _) =>
            match deserialize buf with
            | None => Abort
            | Some e =>
                '(b, s) ← pio_matches_fs E disk e s;
                if b : bool then Ret (Some (subkey, e), s)
                else try_subkeys E disk fingerprint objs (attempts + 1) subkeys s
            end
        end
  end.
Definition find_shortcut (E : HashCache.Env) (disk : Fs.t) (fingerprint : Hash.t) (objs : BlobCache.t) (s : HashCache.t)
    : outcome (option (cstr * process_inputs_outputs) * HashCache.t) :=
  subkeys ← ObjCache.list_subkeys fingerprint objs;
  try_subkeys E disk fingerprint objs 0 subkeys s.

(** ** Applying it *)

(** The blobs that are opened beforehand; a hash that is not there must not be asked for. *)
Definition blob_hash (compressed_hash hash : option Hash.t) : outcome Hash.t :=
  match compressed_hash, hash with Some h, _ => Ret h | None, Some h => Ret h | None, None => Abort end.
Definition wanted (outputs : process_outputs) : list (option Hash.t * option Hash.t) :=
  ((fun f => (f_compressed_hash f, f_hash f)) <$>
     filter (fun f => f_type f = ISREG /\ f_inline_data f = []) (po_path_isreg outputs)) ++
  ((fun a => (a_compressed_hash a, a_hash a)) <$> filter (fun a => a_inline_data a = []) (po_append_to_fd outputs)).

Fixpoint open_blobs (blobs : BlobCache.t) (l : list (option Hash.t * option Hash.t)) : outcome (option (list (list Z))) :=
  match l with
  | [] => Ret (Some [])
  | (compressed_hash, hash) :: l =>
      h ← blob_hash compressed_hash hash;
      blob ← BlobCache.get_fd_for_file h blobs;
      match blob with
      | None => Ret None
      | Some blob => rest ← open_blobs blobs l; Ret (match rest with Some rest => Some (blob :: rest) | None => None end)
      end
  end.

(** The inputs are registered. *)
Definition register_inputs (proc : proc_t) (pi : process_inputs) (s : st) : st :=
  let s := fold_left (fun s f => register (registration_point proc) (f_path f) (UInfo (file_to_file_info f)) s) (pi_path pi) s in
  fold_left (fun s path => register (registration_point proc) path (UType NOTEXIST false false) s) (pi_path_notexist pi) s.

(** [restore_dirs(proc, outputs)]. *)
Definition shorter (a b : file) : Prop := (length (f_path a) <= length (f_path b))%nat.
#[global] Instance shorter_dec : RelDecision shorter.
Proof. intros a b. unfold shorter. apply _. Defined.

Definition restore_dir (proc : proc_t) (dir : file) (s : st) : outcome st :=
  match f_mode dir with
  | None => Abort
  | Some mode =>
      disk ← (match Fs.mkdir (f_path dir) mode (fs s) with
              | inr disk => Ret disk
              | inl errno =>
                  if negb (errno =? Fs.EEXIST) then Abort
                  else
                    match fs s !! f_path dir with
                    | Some i =>
                        if negb (Fs.i_dir i) then Abort
                        else match Fs.chmod (f_path dir) mode (fs s) with inr disk => Ret disk | inl _ => Abort end
                    | None => Abort
                    end
              end);
      Ret (register (parent_exec_point proc) (f_path dir) (update_of dir) (set_fs disk s))
  end.
Fixpoint restore_each (proc : proc_t) (dirs : list file) (s : st) : outcome st :=
  match dirs with [] => Ret s | dir :: dirs => s ← restore_dir proc dir s; restore_each proc dirs s end.
Definition restore_dirs (proc : proc_t) (outputs : process_outputs) (s : st) : outcome st :=
  restore_each proc (merge_sort shorter (po_path_isdir outputs)) s.

(** [blob_cache->retrieve_file(blob_fd, path, false, decompress)]: the error of [open()], or
    the new state of the disk. *)
Definition retrieve_to (blob : list Z) (path : cstr) (decompress : bool) (disk : Fs.t) : outcome (Z + Fs.t) :=
  match Fs.open_creat true path 438 disk with
  | inl errno => Ret (inl errno)
  | inr disk =>
      r ← BlobCache.retrieve_file CE blob (Some []) false decompress;
      match r with Some data => Ret (inr (Fs.set_data path data disk)) | None => Abort end
  end.

(** The contents of one regular file; [None]: shortcutting failed. *)
Definition restore_contents (pi : process_inputs) (f : file) (blobs : list (list Z)) (disk : Fs.t)
    : outcome (option (list (list Z) * Fs.t) * Fs.t) :=
  let path := f_path f in
  match f_inline_data f with
  | _ :: _ =>
      match Fs.open_creat true path 420 disk with
      | inl _ => Ret (None, disk)
      | inr disk =>
          '(ok, disk) ← Fs.write_all (length (f_inline_data f)) path (f_inline_data f) disk;
          Ret (if ok : bool then Some (blobs, disk) else None, disk)
      end
  | [] =>
      match blobs with
      | [] => Abort
      | blob :: blobs =>
          let decompress := bool_decide (is_Some (f_compressed_hash f)) in
          r ← retrieve_to blob path decompress disk;
          match r with
          | inr disk => Ret (Some (blobs, disk), disk)
          | inl errno =>
              if (errno =? Fs.EACCES) && replaceable pi f then
                match Fs.unlink path disk with
                | inl _ => Abort
                | inr disk =>
                    r ← retrieve_to blob path decompress disk;
                    match r with inr disk => Ret (Some (blobs, disk), disk) | inl _ => Abort end
                end
              else Abort
          end
      end
  end.

(** The mode and the time stamp of one file; errors are ignored. *)
Definition restore_metadata (f : file) (disk : Fs.t) : Fs.t :=
  let disk := match f_mode f with
              | Some mode => match Fs.chmod (f_path f) (Z.land mode 511) disk with inr disk => disk | inl _ => disk end
              | None => disk
              end in
  match f_timestamp_source f with
  | Some source => match disk !! source with Some i => Fs.utimens (f_path f) (Fs.i_mtime i) disk | None => disk end
  | None => disk
  end.

(** The loop over the regular files. *)
Fixpoint restore_files (proc : proc_t) (pi : process_inputs) (files : list file) (blobs : list (list Z)) (s : st)
    : outcome (option (list (list Z)) * st) :=
  match files with
  | [] => Ret (Some blobs, s)
  | f :: files =>
      match f_type f with
      | ISREG =>
          '(r, disk) ← restore_contents pi f blobs (fs s);
          match r with
          | None => Ret (None, set_fs disk s)
          | Some (blobs, disk) =>
              restore_files proc pi files blobs (register (registration_point proc) (f_path f) (update_of f) (set_fs (restore_metadata f disk) s))
          end
      | EXIST =>
          restore_files proc pi files blobs (register (registration_point proc) (f_path f) (update_of f) (set_fs (restore_metadata f (fs s)) s))
      | _ => Abort
      end
  end.

(** [remove_files_and_dirs(proc, outputs)]. *)
Definition longer (a b : cstr) : Prop := (length b <= length a)%nat.
#[global] Instance longer_dec : RelDecision longer.
Proof. intros a b. unfold longer. apply _. Defined.

Definition remove_one (path : cstr) (disk : Fs.t) : Fs.t :=
  match Fs.unlink path disk with
  | inr disk => disk
  | inl errno => if errno =? Fs.EISDIR then match Fs.rmdir path disk with inr disk => disk | inl _ => disk end else disk
  end.
Definition remove_files_and_dirs (proc : proc_t) (outputs : process_outputs) (s : st) : st :=
  fold_left (fun s path => register (parent_exec_point proc) path (UType ISDIR true false) (set_fs (remove_one path (fs s)) s))
    (merge_sort longer (po_path_notexist outputs)) s.

(** The data of one inherited file: to a pipe, or to the end of a file. *)
Definition replay_append (proc : proc_t) (a : append_to_fd) (blobs : list (list Z)) (s : st)
    : outcome (list (list Z) * list Z * st) :=
  let fd := a_fd a in
  match get_fd proc fd with
  | Some (FD_PIPE_OUT, _) =>
      match a_inline_data a with
      | (_ :: _) as data =>
          let s := emit (EvPipeData fd data) s in
          Ret (blobs, [], if has_parent proc then emit (EvRecord fd data) s else s)
      | [] =>
          match blobs with
          | [] => Abort
          | blob :: blobs =>
              match a_compressed_hash a with
              | Some _ =>
                  match zstd_decompress blob with
                  | None => Abort
                  | Some data => Ret (blobs, [], emit (EvPipeData fd data) s)
                  end
              | None =>
                  let s := emit (EvPipeData fd blob) s in
                  Ret (blobs, [], if has_parent proc then emit (EvRecord fd blob) s else s)
              end
          end
      end
  | Some (FD_FILE, Some path) =>
      match a_inline_data a with
      | (_ :: _) as data =>
          match Fs.open_creat false path 420 (fs s) with
          | inl _ => Abort
          | inr disk => Ret (blobs, [fd], set_fs (Fs.set_data path (Fs.data_of path disk ++ data) disk) s)
          end
      | [] =>
          match blobs with
          | [] => Abort
          | blob :: blobs =>
              match Fs.open_wronly path (fs s) with
              | inl _ => Abort
              | inr disk =>
                  r ← BlobCache.retrieve_file CE blob (Some (Fs.data_of path disk)) true (bool_decide (is_Some (a_compressed_hash a)));
                  match r with
                  | Some data => Ret (blobs, [fd], set_fs (Fs.set_data path data disk) s)
                  | None => Abort
                  end
              end
          end
      end
  | _ => Abort
  end.
Fixpoint replay_appends (proc : proc_t) (l : list append_to_fd) (blobs : list (list Z)) (s : st) : outcome (list Z * st) :=
  match l with
  | [] => Ret ([], s)
  | a :: l =>
      '(blobs, fds, s) ← replay_append proc a blobs s;
      '(fds', s) ← replay_appends proc l blobs (emit (EvInheritedWrite (a_fd a)) s);
      Ret (fds ++ fds', s)
  end.

(** [apply_shortcut(proc, inouts, &fds_appended_to)]: the descriptors that were appended to, or
    [None] when it returns false. *)
Definition apply_shortcut (proc : proc_t) (e : process_inputs_outputs) (blobs : BlobCache.t) (s : st)
    : outcome (option (list Z) * st) :=
  let outputs := pio_outputs e in
  opened ← open_blobs blobs (wanted outputs);
  match opened with
  | None => Ret (None, s)
  | Some blob_fds =>
      let s := register_inputs proc (pio_inputs e) s in
      s ← restore_dirs proc outputs s;
      '(r, s) ← restore_files proc (pio_inputs e) (po_path_isreg outputs) blob_fds s;
      match r with
      | None => Ret (None, s)
      | Some blob_fds =>
          let s := remove_files_and_dirs proc outputs s in
          '(fds, s) ← replay_appends proc (po_append_to_fd outputs) blob_fds s;
          Ret (Some fds, emit (EvExitStatus (po_exit_status outputs)) s)
      end
  end.

(** ** shortcut() *)

Record cacher := mkCacher {
  hc : HashCache.t;
  objs : BlobCache.t;
  shortcut_attempts_ : Z;
  shortcut_hits_ : Z
}.

(** [shortcut(proc, &fds_appended_to)]: the descriptors if the process was shortcut, and the CPU
    time that was saved. *)
Definition shortcut (no_fetch_ can_shortcut : bool) (E : HashCache.Env) (now : Z * Z) (fingerprint : Hash.t) (proc : proc_t)
    (c : cacher) (s : st) : outcome (option (list Z) * Z * cacher * st) :=
  if no_fetch_ then Ret (None, 0, c, s)
  else
    let attempts := (shortcut_attempts_ c + 1) mod 2 ^ 32 in
    '(found, h) ← (if can_shortcut then find_shortcut E (fs s) fingerprint (objs c) (hc c) else Ret (None, hc c));
    let c := mkCacher h (objs c) attempts (shortcut_hits_ c) in
    match found with
    | None => Ret (None, 0, c, s)
    | Some (subkey, e) =>
        '(r, s) ← apply_shortcut proc e (HashCache.blobs h) s;
        match r with
        | None => Ret (None, 0, c, s)
        | Some fds =>
            objs ← ObjCache.mark_as_used fingerprint subkey now (objs c);
            Ret (Some fds, default 0 (pio_cpu_time_ms e), mkCacher h objs attempts ((shortcut_hits_ c + 1) mod 2 ^ 32), s)
        end
    end.

End Replay.

(** ** Which entry is found *)
Section Find.
Context `{XXHash} `{CacheConfig} `{Serializer} `{Fs.Kernel} `{!XXHashOk} `{!CacheConfigOk}.
Context (SE : BlobCache.store_env) (is_in_read_only_location is_in_ignore_location : cstr -> bool).
Context (Hist : cstr -> HashCache.view -> Prop) (E : HashCache.Env) (V : cstr -> HashCache.view) (disk : Fs.t).
Context (Hhonest : HashCache.honest is_in_read_only_location Hist) (HV : forall path, Hist path (V path)).
Context (Hfaithful : HashCache.faithful E V).

Abbreviation inv := (HashCache.inv is_in_read_only_location Hist).

(** The file system is as the entry expects, and its outputs can be applied. *)
Definition fits (e : process_inputs_outputs) : Prop :=
  StoreEntry.inputs_match V (pio_inputs e) /\ forallb (output_applicable (pio_inputs e) disk) (po_path_isreg (pio_outputs e)) = true.

(** What the hash cache is asked about is known, and the files are not being written. *)
Definition askable (q : cstr * FileInfo.t) : Prop :=
  FileInfo.wf q.2 /\ type_ q.2 <> DONTKNOW /\ is_in_ignore_location q.1 = false /\ HashCache.readable E V q.1 /\
  HashCache.writers_count E q.1 <= 0.

Lemma all_match_correct l s :
  Forall askable l -> inv s ->
  exists b s', all_match SE is_in_read_only_location is_in_ignore_location E l s = Ret (b, s') /\ inv s' /\
    HashCache.blobs s' = HashCache.blobs s /\ (b = true <-> Forall (fun q => HashCache.matches q.2 (V q.1)) l).
Proof.
  intros Hl. revert s. induction Hl as [|[path q] l (Hw & Hne & Hig & Hrd & Hwr) _ IH]; intros s Hi; cbn [all_match].
  { exists true, s. split_and!; [done..|by constructor]. }
  cbn [fst snd] in *.
  destruct (HashCache.file_info_matches_correct SE is_in_read_only_location is_in_ignore_location Hist E V s path q
    Hhonest HV Hfaithful Hi Hw Hne) as (r & s1 & -> & Hi1 & Hb1 & R1 & R2). cbn [mbind outcome_bind].
  destruct r.
  - destruct (IH s1 Hi1) as (b & s2 & -> & Hi2 & Hb2 & Hb). exists b, s2. split_and!; [done|done|congruence|].
    rewrite Hb, Forall_cons. cbn. destruct (R1 eq_refl). tauto.
  - exists false, s1. split_and!; [done..|]. rewrite Forall_cons. cbn. split; [done|]. intros [Hm _]. by specialize (R2 Hig Hrd Hwr Hm).
Qed.

Lemma queries_match pi : Forall (fun q => HashCache.matches q.2 (V q.1)) (queries pi) <-> StoreEntry.inputs_match V pi.
Proof. unfold queries, StoreEntry.inputs_match. by rewrite Forall_app, !Forall_fmap, !Forall_forall. Qed.

Lemma pio_matches_fs_correct e s :
  Forall askable (queries (pio_inputs e)) -> inv s ->
  exists b s', pio_matches_fs SE is_in_read_only_location is_in_ignore_location E disk e s = Ret (b, s') /\ inv s' /\
    HashCache.blobs s' = HashCache.blobs s /\ (b = true <-> fits e).
Proof.
  intros Hq Hi. unfold pio_matches_fs. destruct (all_match_correct _ s Hq Hi) as (b & s' & -> & Hi' & Hb & Hm). cbn [mbind outcome_bind].
  eexists _, s'. split_and!; [done..|]. unfold fits. by rewrite andb_true_iff, Hm, queries_match.
Qed.

(** The first of some subkeys whose entry fits. *)
Section First.
Context (fingerprint : Hash.t) (objs : BlobCache.t).

Definition candidate (subkey : cstr) (e : process_inputs_outputs) : Prop :=
  exists buf cl, ObjCache.retrieve fingerprint subkey objs = Ret (Some (buf, cl)) /\ deserialize buf = Some e.

Inductive first_fit : list cstr -> option (cstr * process_inputs_outputs) -> Prop :=
| first_fit_none : first_fit [] None
| first_fit_hit subkey e l : candidate subkey e -> fits e -> first_fit (subkey :: l) (Some (subkey, e))
| first_fit_miss subkey l r : (forall e, candidate subkey e -> ~ fits e) -> first_fit l r -> first_fit (subkey :: l) r.

(** The object cache can be read, and its entries are in order. *)
Definition sound_entries (subkeys : list cstr) : Prop :=
  forall subkey, subkey ∈ subkeys -> exists r, ObjCache.retrieve fingerprint subkey objs = Ret r /\
    forall buf cl, r = Some (buf, cl) -> exists e, deserialize buf = Some e /\ Forall askable (queries (pio_inputs e)).

Lemma try_subkeys_correct attempts subkeys s :
  sound_entries subkeys -> inv s ->
  exists r s', try_subkeys SE is_in_read_only_location is_in_ignore_location E disk fingerprint objs attempts subkeys s = Ret (r, s') /\
    inv s' /\ HashCache.blobs s' = HashCache.blobs s /\ first_fit (take (Z.to_nat (shortcut_tries + 1 - attempts)) subkeys) r.
Proof.
  intros Hs. revert attempts s. induction subkeys as [|subkey subkeys IH]; intros attempts s Hi; cbn [try_subkeys].
  { exists None, s. rewrite take_nil. split_and!; [done..|constructor]. }
  destruct (Z.ltb_spec shortcut_tries attempts) as [Ha|Ha].
  { exists None, s. replace (Z.to_nat _) with O by lia. split_and!; [done..|constructor]. }
  replace (Z.to_nat (shortcut_tries + 1 - attempts)) with (S (Z.to_nat (shortcut_tries + 1 - (attempts + 1)))) by lia. cbn [take].
  assert (Hs' : sound_entries subkeys) by (intros k Hk; apply Hs; by right). specialize (IH Hs' (attempts + 1)).
  destruct (Hs subkey ltac:(by left)) as (r & Hr & He). rewrite Hr. cbn [mbind outcome_bind].
  destruct r as [[buf cl]|].
  - destruct (He buf cl eq_refl) as (e & Hd & Hq). rewrite Hd.
    destruct (pio_matches_fs_correct e s Hq Hi) as (b & s1 & -> & Hi1 & Hb1 & Hb). cbn [mbind outcome_bind]. destruct b.
    + exists (Some (subkey, e)), s1. split_and!; [done..|]. constructor; [by exists buf, cl|by apply Hb].
    + destruct (IH s1 Hi1) as (r & s2 & -> & Hi2 & Hb2 & Hf). exists r, s2. split_and!; [done|done|congruence|].
      constructor; [|done]. intros e' (buf' & cl' & Hr' & Hd'). assert (e' = e) as -> by congruence. intros Hfit. by apply Hb in Hfit.
  - destruct (IH s Hi) as (r & s2 & -> & Hi2 & Hb2 & Hf). exists r, s2. split_and!; [done..|]. constructor; [|done].
    intros e (buf & cl & Hr' & _). congruence.
Qed.
End First.

(** C15. The entry that is used to shortcut a process is the first one that fits, of the first
    [shortcut_tries + 1] entries of its fingerprint, newest first: the file system is as its inputs
    say, which are found with the hash cache, and its outputs are writable or will be replaced; when
    there is none among them, none of them fits.  The comment at shortcut_tries says to give up after
    that many, and to try all for 0; the code tries one more, and one for 0
    ([zero_tries_tries_one]). *)
Theorem find_shortcut_correct fingerprint objs subkeys s :
  ObjCache.list_subkeys fingerprint objs = Ret subkeys -> sound_entries fingerprint objs subkeys -> inv s ->
  exists r s', find_shortcut SE is_in_read_only_location is_in_ignore_location E disk fingerprint objs s = Ret (r, s') /\
    inv s' /\ HashCache.blobs s' = HashCache.blobs s /\ first_fit fingerprint objs (take (Z.to_nat (shortcut_tries + 1)) subkeys) r.
Proof.
  intros Hl Hs Hi. unfold find_shortcut. rewrite Hl. cbn [mbind outcome_bind].
  destruct (try_subkeys_correct fingerprint objs 0 subkeys s Hs Hi) as (r & s' & ? & ? & ? & Hf). rewrite Z.sub_0_r in Hf. by exists r, s'.
Qed.
End Find.

(** ** An instance *)
#[local] Existing Instances Hashing.demo_xxhash Hashing.demo_xxhash_ok.

(** Two entries of a fingerprint: the newer one expects that there is no file. *)
Definition demo_entry (present : bool) : process_inputs_outputs :=
  let f := mkFile HashCache.demo_path ISREG (Some 3) (Some (XXH3_128bits [4; 5; 6])) None None None [] None in
  mkPio (if present then mkInputs [f] [] else mkInputs [] [HashCache.demo_path]) (mkOutputs [] [] [] [] 0) None.
#[local] Instance demo_serializer : Serializer :=
  {| serialize _ := []; deserialize buf := match buf with [b] => Some (demo_entry (b =? 1)) | _ => None end |}.
#[local] Instance demo_kernel : Fs.Kernel :=
  {| Fs.k_umask := 18; Fs.k_now := (5, 0); Fs.may_write _ _ := true; Fs.may_change_dir _ _ := true;
     Fs.may_chmod _ _ := true; Fs.write_n _ := 1 |}.
Definition demo_key : Hash.t := XXH3_128bits [9].
Definition demo_objs : BlobCache.t :=
  BlobCache.mk (foldr (fun name n => CacheDir.Dir [(name, n)])
    (CacheDir.Dir [(cs "abcdefghij0", CacheDir.Reg (ObjCache.kMagicHeader ++ [1]) (1, 0));
                   (cs "abcdefghij1", CacheDir.Reg (ObjCache.kMagicHeader ++ [0]) (2, 0))])
    (match ObjCache.construct_cached_dir_name demo_key with Ret dirs => dirs | _ => [] end)) 0.

Lemma demo_askable (b : bool) :
  Forall (askable (fun _ => false) (HashCache.demo_env [4; 5; 6] 33188 20 0) (HashCache.demo_view [4; 5; 6] 33188 20)) (queries (pio_inputs (demo_entry b))).
Proof.
  assert (Hr : HashCache.readable (HashCache.demo_env [4; 5; 6] 33188 20 0) (HashCache.demo_view [4; 5; 6] 33188 20) HashCache.demo_path).
  { intros a [= <-]. do 2 eexists. split; [reflexivity|]. apply Hashing.unmapped_file_reliable. }
  destruct b; apply Forall_singleton; (split_and!; [|done|done|exact Hr|done]); apply (bool_decide_eq_true_1 _); vm_compute; reflexivity.
Qed.

Lemma find_shortcut_correct_witness :
  exists s', @find_shortcut _ (BlobCache.demo_config false) _ _ BlobCache.demo_store_env (fun _ => false) (fun _ => false)
    (HashCache.demo_env [4; 5; 6] 33188 20 0) ∅ demo_key demo_objs HashCache.demo_state = Ret (Some (cs "abcdefghij0", demo_entry true), s') /\
    @HashCache.inv _ (BlobCache.demo_config false) (fun _ => false) HashCache.demo_hist s'.
Proof.
  destruct (@find_shortcut_correct _ (BlobCache.demo_config false) _ _ _ BlobCache.demo_store_env (fun _ => false)
    (fun _ => false) HashCache.demo_hist (HashCache.demo_env [4; 5; 6] 33188 20 0) (HashCache.demo_view [4; 5; 6] 33188 20) ∅
    HashCache.demo_honest (fun path => or_intror eq_refl) (HashCache.demo_faithful [4; 5; 6] 33188 20 0 eq_refl eq_refl)
    demo_key demo_objs [cs "abcdefghij1"; cs "abcdefghij0"] HashCache.demo_state) as (r & s' & Hf & Hi & _).
  - vm_compute. reflexivity.
  - intros subkey Hin. repeat (apply elem_of_cons in Hin as [->|Hin]; [|]).
    3: by apply elem_of_nil in Hin.
    all: eexists; split; [vm_compute; reflexivity|]; intros buf cl [= <- <-]; eexists; split; [reflexivity|apply demo_askable].
  - apply HashCache.demo_inv.
  - exists s'. split; [|exact Hi]. rewrite Hf. vm_compute in Hf. injection Hf as <- <-. reflexivity.
Defined.

(** ** Divergences *)

(** With shortcut_tries set to 0, which is documented to mean all candidates, only the newest one is
    tried: the older one, which fits and is found with a limit of 1 (or of 20, above), is not. *)
Definition tries_config (n : Z) : CacheConfig :=
  {| compress_cache := false; debug_cache := false; max_entry_size := 1000; max_cache_size := 10000;
     shortcut_tries := n; zstd_compress := zstd_compress (CacheConfig := BlobCache.demo_config false);
     zstd_decompress := zstd_decompress (CacheConfig := BlobCache.demo_config false) |}.
Theorem zero_tries_tries_one :
  let found n := match @find_shortcut _ (tries_config n) _ _ BlobCache.demo_store_env (fun _ => false) (fun _ => false)
      (HashCache.demo_env [4; 5; 6] 33188 20 0) ∅ demo_key demo_objs HashCache.demo_state with
    | Ret (r, _) => fst <$> r | _ => None end in
  found 0 = None /\ found 1 = Some (cs "abcdefghij0").
Proof. vm_compute. split; reflexivity. Qed.
End Replay.
