(* ===== verification/Restore.v ===== *)
(** What applying a shortcut does to the file system ([apply_shortcut()] in
    src/firebuild/execed_process_cacher.cc): the recorded outputs are there afterwards, and
    nothing else has changed. *)

From stdpp Require Import base list strings option gmap sorting.
From Stdlib Require Import ZArith Lia Ascii.
From S2P Require Import Prelude Base64 Paths FileNames FileUsage World Hashing Storage ObjCache HashCache Entries StoreEntry FileSystem Replay.

Local Open Scope Z_scope.

Module Restore.
Import FileInfo Entry Replay.

(** ** Directories *)

Lemma last_slash_lt name n p : FileName.last_slash name n = Some p -> (p < n)%nat.
Proof. induction n as [|m IH]; cbn; [done|]. case_bool_decide; [intros [= <-]; lia|]. intros Hp%IH. lia. Qed.

Lemma parent_dir_shorter path d : FileName.parent_dir path = Some d -> (length d < length path)%nat.
Proof.
  unfold FileName.parent_dir, FileName.GetParentDir. destruct (FileName.last_slash path (length path)) as [p|] eqn:Ep; [|done].
  apply last_slash_lt in Ep. destruct (Nat.eqb_spec (length path) 1); [done|]. destruct (p =? 0)%nat; intros [= <-]; cbn; [lia|].
  rewrite length_take. lia.
Qed.

Definition is_dir_at (disk : Fs.t) (path : cstr) : Prop := exists i, disk !! path = Some i /\ Fs.i_dir i = true.
(** Nothing, or a regular file. *)
Definition no_dir_at (disk : Fs.t) (path : cstr) : Prop := forall i, disk !! path = Some i -> Fs.i_dir i = false.
(** Nothing, or a directory. *)
Definition no_file_at (disk : Fs.t) (path : cstr) : Prop := forall i, disk !! path = Some i -> Fs.i_dir i = true.

(** The event of an update that is registered, if there is a process to register it at. *)
Definition note (at_ : option pid_ref) (path : cstr) (u : update) : list effect :=
  match at_ with Some p => [EvRegister p path u] | None => [] end.
(** The events [l] have happened. *)
Definition noted (l : list effect) (s s' : st) : Prop := log s' = log s ++ l.

Lemma noted_nil s : noted [] s s.
Proof. unfold noted. by rewrite app_nil_r. Qed.
Lemma noted_app l1 l2 s1 s2 s3 : noted l1 s1 s2 -> noted l2 s2 s3 -> noted (l1 ++ l2) s1 s3.
Proof. unfold noted. intros E1 E2. by rewrite E2, E1, <- app_assoc. Qed.
Lemma noted_register at_ path u disk s : noted (note at_ path u) s (register at_ path u (set_fs disk s)).
Proof. unfold noted. destruct at_ as [p|]; [done|]. cbn. by rewrite app_nil_r. Qed.
Lemma fs_register at_ path u disk s : fs (register at_ path u (set_fs disk s)) = disk.
Proof. by destruct at_. Qed.

#[global] Instance shorter_trans : Transitive shorter.
Proof. intros a b c. unfold shorter. lia. Qed.
#[global] Instance shorter_total : Total shorter.
Proof. intros a b. unfold shorter. lia. Qed.
#[global] Instance longer_trans : Transitive longer.
Proof. intros a b c. unfold longer. lia. Qed.
#[global] Instance longer_total : Total longer.
Proof. intros a b. unfold longer. lia. Qed.

Section Restore.
Context `{XXHash} `{CacheConfig} `{Serializer} `{Fs.Kernel}.
Context (SE : BlobCache.store_env) (CE : Copy.copy_env) (proc : proc_t).

(** An entry can be added at [path], or removed. *)
Definition may_change (path : cstr) : Prop :=
  forall disk d, FileName.parent_dir path = Some d -> Fs.may_change_dir disk d = true.

Lemma parent_error_None disk path d :
  FileName.parent_dir path = Some d -> is_dir_at disk d -> may_change path -> Fs.parent_error disk path = None.
Proof. intros Hp (i & Hi & Hd) Hm. unfold Fs.parent_error. by rewrite Hp, Hi, Hd, (Hm disk d Hp). Qed.

(** What is registered for a directory, a file, and a removed path. *)
Definition dir_note (dir : file) : list effect := note (parent_exec_point proc) (f_path dir) (update_of dir).
Definition file_note (f : file) : list effect := note (registration_point proc) (f_path f) (update_of f).
Definition gone_note (path : cstr) : list effect := note (parent_exec_point proc) path (UType ISDIR true false).

(** The state of the directory [dir] after it has been restored. *)
Definition dir_mode (disk0 : Fs.t) (path : cstr) (mode : Z) : Z :=
  match disk0 !! path with Some _ => Z.land mode 4095 | None => Fs.masked mode end.
Definition dir_done (disk0 disk : Fs.t) (dir : file) : Prop :=
  exists i mode, disk !! f_path dir = Some i /\ Fs.i_dir i = true /\ f_mode dir = Some mode /\
    Fs.i_mode i = dir_mode disk0 (f_path dir) mode.

(** It can be restored, when the directories [paths] will be there before. *)
Definition dir_ready (disk : Fs.t) (paths : list cstr) (dir : file) : Prop :=
  is_Some (f_mode dir) /\ no_file_at disk (f_path dir) /\ may_change (f_path dir) /\
  (forall disk, Fs.may_chmod disk (f_path dir) = true) /\
  exists d, FileName.parent_dir (f_path dir) = Some d /\ (is_dir_at disk d \/ d ∈ paths).

Lemma restore_dir_correct dir s :
  dir_ready (fs s) [] dir ->
  exists s', restore_dir proc dir s = Ret s' /\ noted (dir_note dir) s s' /\ Fs.same_but [f_path dir] (fs s) (fs s') /\ dir_done (fs s) (fs s') dir.
Proof.
  intros ([mode Hm] & Hnf & Hch & Hcm & d & Hp & [Hd|Hd]); [|by apply elem_of_nil in Hd]. unfold restore_dir. rewrite Hm.
  unfold dir_done, dir_mode. unfold Fs.mkdir. destruct (fs s !! f_path dir) as [i|] eqn:Ei.
  - rewrite Z.eqb_refl. cbn [negb]. rewrite (Hnf i Ei). cbn [negb]. unfold Fs.chmod. rewrite Ei, Hcm. cbn [mbind outcome_bind].
    eexists. split; [done|]. split; [apply noted_register|]. rewrite fs_register. split; [apply Fs.same_but_insert|].
    eexists _, mode. rewrite lookup_insert, decide_True by done. split_and!; [done|exact (Hnf i Ei)|done|done].
  - rewrite (parent_error_None (fs s) (f_path dir) d Hp Hd Hch). cbn [mbind outcome_bind].
    eexists. split; [done|]. split; [apply noted_register|]. rewrite fs_register. split; [apply Fs.same_but_insert|].
    eexists _, mode. by rewrite lookup_insert, decide_True by done.
Qed.

Lemma dir_ready_step disk disk' dir0 dirs dir :
  Fs.same_but [f_path dir0] disk disk' -> dir_done disk disk' dir0 -> f_path dir <> f_path dir0 ->
  dir_ready disk (f_path <$> dir0 :: dirs) dir -> dir_ready disk' (f_path <$> dirs) dir.
Proof.
  intros Hs (i0 & m0 & Hi0 & Hd0 & _) Hne (Hm & Hnf & Hch & Hcm & d & Hp & Hd). split_and!; [done| |done|done|].
  - intros i Hi. apply Hnf. rewrite <- Hs; [done|set_solver].
  - exists d. split; [done|]. destruct (decide (d = f_path dir0)) as [->|Hdne]; [left; by exists i0|].
    destruct Hd as [(i & Hi & Hdi)|Hd]; [left; exists i; rewrite Hs by set_solver; done|]. right.
    cbn in Hd. by apply elem_of_cons in Hd as [?|?].
Qed.

(** All of them, parents first. *)
Lemma restore_each_correct dirs s :
  StronglySorted shorter dirs -> NoDup (f_path <$> dirs) -> Forall (dir_ready (fs s) (f_path <$> dirs)) dirs ->
  exists s', restore_each proc dirs s = Ret s' /\ noted (flat_map dir_note dirs) s s' /\ Fs.same_but (f_path <$> dirs) (fs s) (fs s') /\
    Forall (dir_done (fs s) (fs s')) dirs.
Proof.
  intros Hsort. revert s. induction Hsort as [|dir dirs Hsort IH Hall]; intros s Hnd Hready; cbn [restore_each].
  { exists s. split_and!; [done|apply noted_nil|done|constructor]. }
  apply Forall_cons in Hready as [Hd Hready]. cbn [fmap list_fmap] in Hnd. apply NoDup_cons in Hnd as [Hn Hnd].
  destruct (restore_dir_correct dir s) as (s1 & -> & Hr1 & Hs1 & Hd1).
  { destruct Hd as (? & ? & ? & ? & d & Hp & Hd). split_and!; [done..|]. exists d. split; [done|]. left.
    destruct Hd as [Hd|Hd]; [done|]. apply parent_dir_shorter in Hp as Hlt. apply elem_of_cons in Hd as [->|Hd]; [lia|].
    apply list_elem_of_fmap in Hd as (dir' & -> & Hin). rewrite Forall_forall in Hall. specialize (Hall dir' Hin). unfold shorter in Hall. lia. }
  cbn [mbind outcome_bind]. destruct (IH s1 Hnd) as (s2 & -> & Hr2 & Hs2 & Hd2).
  { rewrite Forall_forall in Hready |- *. intros dir' Hin. eapply dir_ready_step; [exact Hs1|exact Hd1| |by apply Hready].
    intros Heq. apply Hn. rewrite <- Heq. apply list_elem_of_fmap. by exists dir'. }
  exists s2. split_and!; [done|by eapply noted_app| |].
  - eapply Fs.same_but_trans; eapply Fs.same_but_mono; [|exact Hs1| |exact Hs2]; set_solver.
  - constructor.
    + destruct Hd1 as (i & m & Hi & Hrest). exists i, m. rewrite Hs2 by done. done.
    + rewrite Forall_forall in Hd2 |- *. intros dir' Hin. destruct (Hd2 dir' Hin) as (i & m & Hi & Hdi & Hm & Hmode). exists i, m.
      split_and!; [done..|]. rewrite Hmode. unfold dir_mode. rewrite Hs1; [done|]. intros Heq%list_elem_of_singleton.
      apply Hn. rewrite <- Heq. apply list_elem_of_fmap. by exists dir'.
Qed.

(** ** Regular files *)

(** Retrieving this blob gives the contents of the file. *)
Definition blob_for (f : file) (blob : list Z) : Prop :=
  exists contents, BlobCache.retrieve_file CE blob (Some []) false (bool_decide (is_Some (f_compressed_hash f))) = Ret (Some contents) /\
    file_blob f = Some (XXH3_128bits contents).
Definition needs_blob (f : file) : Prop := f_type f = ISREG /\ f_inline_data f = [].

(** The file can be written, or it can be replaced. *)
Definition contents_ready (disk : Fs.t) (pi : process_inputs) (f : file) : Prop :=
  no_dir_at disk (f_path f) /\ (exists d, FileName.parent_dir (f_path f) = Some d /\ is_dir_at disk d) /\ may_change (f_path f) /\
  ((forall disk, Fs.may_write disk (f_path f) = true) \/ (f_inline_data f = [] /\ replaceable pi f = true)).
Definition contents_done (disk : Fs.t) (f : file) : Prop :=
  exists i, disk !! f_path f = Some i /\ Fs.i_dir i = false /\
    (f_inline_data f <> [] -> Fs.i_data i = f_inline_data f) /\ (f_inline_data f = [] -> file_blob f = Some (XXH3_128bits (Fs.i_data i))).

Context (Hwrites : Fs.writes_progress).

Lemma open_creat_correct disk path mode d :
  no_dir_at disk path -> FileName.parent_dir path = Some d -> is_dir_at disk d -> may_change path ->
  (exists disk' i, Fs.open_creat true path mode disk = inr disk' /\ disk' !! path = Some i /\ Fs.i_dir i = false /\ Fs.i_data i = [] /\
     Fs.same_but [path] disk disk') \/
  (Fs.open_creat true path mode disk = inl Fs.EACCES /\ Fs.may_write disk path = false /\ is_Some (disk !! path)).
Proof.
  intros Hnd Hp Hd Hm. unfold Fs.open_creat. destruct (disk !! path) as [i|] eqn:Ei.
  - rewrite (Hnd i Ei). destruct (Fs.may_write disk path) eqn:Ew; cbn [negb]; [left|right; by split_and!].
    eexists _, _. split; [done|]. rewrite lookup_insert, decide_True by done. split_and!; [done..|apply Fs.same_but_insert].
  - rewrite (parent_error_None disk path d Hp Hd Hm). left. eexists _, _. split; [done|].
    rewrite lookup_insert, decide_True by done. split_and!; [done..|apply Fs.same_but_insert].
Qed.

(** After the file has been opened. *)
Lemma filled disk0 disk path data i :
  disk !! path = Some i -> Fs.i_dir i = false -> Fs.same_but [path] disk0 disk ->
  Fs.same_but [path] disk0 (Fs.set_data path data disk) /\
  exists i', Fs.set_data path data disk !! path = Some i' /\ Fs.i_dir i' = false /\ Fs.i_data i' = data.
Proof.
  intros Hi Hd Hs. split; [eapply Fs.same_but_trans; [exact Hs|apply Fs.same_but_alter]|].
  unfold Fs.set_data. rewrite lookup_alter, decide_True, Hi by done. by eexists.
Qed.

Lemma retrieve_to_correct disk f blob d :
  no_dir_at disk (f_path f) -> FileName.parent_dir (f_path f) = Some d -> is_dir_at disk d -> may_change (f_path f) ->
  f_inline_data f = [] -> blob_for f blob ->
  (exists disk', retrieve_to CE blob (f_path f) (bool_decide (is_Some (f_compressed_hash f))) disk = Ret (inr disk') /\
     Fs.same_but [f_path f] disk disk' /\ contents_done disk' f) \/
  (retrieve_to CE blob (f_path f) (bool_decide (is_Some (f_compressed_hash f))) disk = Ret (inl Fs.EACCES) /\
     Fs.may_write disk (f_path f) = false /\ is_Some (disk !! f_path f)).
Proof.
  intros Hnd Hp Hd Hm Hin (contents & Hr & Hb). unfold retrieve_to.
  destruct (open_creat_correct disk (f_path f) 438 d Hnd Hp Hd Hm) as [(disk' & i & -> & Hi & Hdi & _ & Hs)|(-> & Hw & He)]; [left|by right].
  rewrite Hr. cbn [mbind outcome_bind]. eexists. split; [done|].
  destruct (filled disk disk' (f_path f) contents i Hi Hdi Hs) as (Hs' & i' & Hi' & Hdi' & Hdata). split; [done|].
  exists i'. split_and!; [done..|]. intros _. by rewrite Hdata.
Qed.

Lemma restore_contents_correct disk pi f blobs :
  contents_ready disk pi f -> (f_inline_data f = [] -> exists blob rest, blobs = blob :: rest /\ blob_for f blob) ->
  exists disk', restore_contents CE pi f blobs disk = Ret (Some (match f_inline_data f with [] => tail blobs | _ => blobs end, disk'), disk') /\
    Fs.same_but [f_path f] disk disk' /\ contents_done disk' f.
Proof.
  intros (Hnd & (d & Hp & Hd) & Hm & Hw) Hblob. unfold restore_contents. destruct (f_inline_data f) as [|x l] eqn:Ein.
  - destruct (Hblob eq_refl) as (blob & rest & -> & Hb). cbn [tail].
    destruct (retrieve_to_correct disk f blob d Hnd Hp Hd Hm Ein Hb) as [(disk' & -> & Hs & Hdone)|(-> & Hnw & [i Hi])]; cbn [mbind outcome_bind].
    { by exists disk'. }
    destruct Hw as [Hw|[_ Hrep]]; [by rewrite Hw in Hnw|]. rewrite Z.eqb_refl, Hrep. cbn [andb].
    unfold Fs.unlink. rewrite Hi, (Hnd i Hi), (parent_error_None disk (f_path f) d Hp Hd Hm).
    set (disk1 := delete (f_path f) disk). assert (Hs1 : Fs.same_but [f_path f] disk disk1) by apply Fs.same_but_delete.
    assert (Hd1 : is_dir_at disk1 d).
    { destruct Hd as (j & Hj & Hdj). exists j. split; [|done]. rewrite Hs1; [done|]. intros ->%list_elem_of_singleton. apply parent_dir_shorter in Hp. lia. }
    assert (Hno : disk1 !! f_path f = None) by (unfold disk1; by rewrite lookup_delete, decide_True by done).
    destruct (retrieve_to_correct disk1 f blob d) as [(disk' & -> & Hs & Hdone)|(_ & _ & [j Hj])]; try done; [by intros j Hj; congruence| |congruence].
    cbn [mbind outcome_bind]. exists disk'. split_and!; [done|by eapply Fs.same_but_trans|done].
  - rewrite <- Ein in *.
    destruct Hw as [Hw|[Hx _]]; [|congruence].
    destruct (open_creat_correct disk (f_path f) 420 d Hnd Hp Hd Hm) as [(disk' & i & -> & Hi & Hdi & Hnil & Hs)|(_ & Hnw & _)]; [|by rewrite Hw in Hnw].
    rewrite Fs.write_all_correct; [|done|done|by eexists|by rewrite Ein]. cbn [mbind outcome_bind].
    destruct (filled disk disk' (f_path f) (Fs.data_of (f_path f) disk' ++ f_inline_data f) i Hi Hdi Hs) as (Hs' & i' & Hi' & Hdi' & Hdata).
    eexists. split; [done|]. split; [done|]. exists i'. split_and!; [done|done| |by rewrite Ein]. intros _. rewrite Hdata.
    unfold Fs.data_of. by rewrite Hi, Hnil.
Qed.

(** The mode, and time stamps, which are not looked at. *)
Definition mode_done (f : file) (mode0 mode : Z) : Prop :=
  match f_mode f with Some m => mode = Z.land m 511 | None => mode = mode0 end.

Lemma restore_metadata_correct disk f i :
  disk !! f_path f = Some i -> (forall disk, Fs.may_chmod disk (f_path f) = true) ->
  Fs.same_but [f_path f] disk (restore_metadata f disk) /\
  exists i', restore_metadata f disk !! f_path f = Some i' /\ Fs.i_dir i' = Fs.i_dir i /\ Fs.i_data i' = Fs.i_data i /\
    mode_done f (Fs.i_mode i) (Fs.i_mode i').
Proof.
  intros Hi Hc. unfold restore_metadata, mode_done.
  set (disk1 := match f_mode f with Some _ => _ | None => _ end).
  assert (Hd1 : Fs.same_but [f_path f] disk disk1 /\ exists i', disk1 !! f_path f = Some i' /\ Fs.i_dir i' = Fs.i_dir i /\
    Fs.i_data i' = Fs.i_data i /\ match f_mode f with Some m => Fs.i_mode i' = Z.land m 511 | None => Fs.i_mode i' = Fs.i_mode i end).
  { unfold disk1. destruct (f_mode f) as [m|]; [|split; [done|by exists i]]. unfold Fs.chmod. rewrite Hi, Hc.
    split; [apply Fs.same_but_insert|]. eexists. rewrite lookup_insert, decide_True by done. split_and!; [done..|]. cbn.
    by rewrite <- Z.land_assoc. }
  destruct Hd1 as (Hs1 & i1 & Hi1 & E1 & E2 & E3). destruct (f_timestamp_source f) as [src|]; [|split; [done|by exists i1]].
  destruct (disk1 !! src) as [j|]; [|split; [done|by exists i1]]. unfold Fs.utimens. rewrite Hc.
  split; [eapply Fs.same_but_trans; [exact Hs1|apply Fs.same_but_alter]|]. rewrite lookup_alter, decide_True, Hi1 by done. by eexists.
Qed.

(** One file after the other. *)
Definition file_ready (disk : Fs.t) (pi : process_inputs) (f : file) : Prop :=
  (forall disk, Fs.may_chmod disk (f_path f) = true) /\
  ((f_type f = ISREG /\ contents_ready disk pi f) \/ (f_type f = EXIST /\ is_Some (disk !! f_path f))).
Definition file_done (disk0 disk : Fs.t) (f : file) : Prop :=
  match f_type f with
  | ISREG => contents_done disk f /\ forall i mode, disk !! f_path f = Some i -> f_mode f = Some mode -> Fs.i_mode i = Z.land mode 511
  | _ => exists i0 i, disk0 !! f_path f = Some i0 /\ disk !! f_path f = Some i /\ Fs.i_dir i = Fs.i_dir i0 /\ Fs.i_data i = Fs.i_data i0 /\
           mode_done f (Fs.i_mode i0) (Fs.i_mode i)
  end.

Lemma file_ready_step disk disk' pi path f :
  Fs.same_but [path] disk disk' -> (is_dir_at disk path -> is_dir_at disk' path) -> f_path f <> path -> file_ready disk pi f -> file_ready disk' pi f.
Proof.
  intros Hs Hdir Hne [Hc Hr]. split; [done|]. assert (Hsame : disk' !! f_path f = disk !! f_path f) by (apply Hs; set_solver).
  destruct Hr as [(Ht & Hnd & (d & Hp & Hd) & Hm & Hw)|(Ht & He)]; [left|right; by rewrite Hsame]. split; [done|]. split_and!; [|..|done|done].
  - intros i Hi. apply Hnd. congruence.
  - exists d. split; [done|]. destruct (decide (d = path)) as [->|Hdne]; [by apply Hdir|]. destruct Hd as (i & Hi & Hdi). exists i.
    rewrite Hs by set_solver. done.
Qed.

Lemma file_done_step disk0 disk disk' f : disk' !! f_path f = disk !! f_path f -> file_done disk0 disk f -> file_done disk0 disk' f.
Proof. intros Hs. unfold file_done, contents_done. by rewrite Hs. Qed.

Lemma restore_file disk pi f blobs :
  file_ready disk pi f -> (needs_blob f -> exists blob rest, blobs = blob :: rest /\ blob_for f blob) ->
  exists disk' disk'', (f_type f = ISREG -> restore_contents CE pi f blobs disk = Ret (Some (if bool_decide (f_inline_data f = []) then tail blobs else blobs, disk'), disk')) /\
    (f_type f = EXIST -> disk' = disk) /\ disk'' = restore_metadata f disk' /\ Fs.same_but [f_path f] disk disk'' /\
    (is_dir_at disk (f_path f) -> is_dir_at disk'' (f_path f)) /\ file_done disk disk'' f.
Proof.
  intros [Hc Hr] Hb. destruct Hr as [(Ht & Hready)|(Ht & [i Hi])].
  - destruct (restore_contents_correct disk pi f blobs Hready) as (disk' & Hrc & Hs & i & Hi & Hdi & Hin & Hblob); [intros Hin; by apply Hb|].
    destruct (restore_metadata_correct disk' f i Hi Hc) as (Hs' & i' & Hi' & E1 & E2 & E3). exists disk', (restore_metadata f disk').
    split; [intros _; rewrite Hrc; by destruct (f_inline_data f)|]. split; [congruence|]. split; [done|].
    split; [by eapply Fs.same_but_trans|]. split.
    + intros (j & Hj & Hdj). destruct Hready as [Hnd _]. specialize (Hnd j Hj). congruence.
    + unfold file_done. rewrite Ht. split; [exists i'; rewrite E1, E2; done|]. intros j mode Hj Hm. unfold mode_done in E3. rewrite Hm in E3. congruence.
  - destruct (restore_metadata_correct disk f i Hi Hc) as (Hs' & i' & Hi' & E1 & E2 & E3). exists disk, (restore_metadata f disk).
    split; [congruence|]. split; [done|]. split; [done|]. split; [done|]. split.
    + intros (j & Hj & Hdj). exists i'. split; [done|]. congruence.
    + unfold file_done. rewrite Ht. exists i, i'. done.
Qed.

(** One round of the loop. *)
Lemma restore_files_step pi f files blobs rest s :
  file_ready (fs s) pi f -> Forall2 blob_for (filter needs_blob (f :: files)) blobs ->
  exists blobs' disk, Forall2 blob_for (filter needs_blob files) blobs' /\
    restore_files CE proc pi (f :: files) (blobs ++ rest) s =
      restore_files CE proc pi files (blobs' ++ rest) (register (registration_point proc) (f_path f) (update_of f) (set_fs disk s)) /\
    Fs.same_but [f_path f] (fs s) disk /\ (is_dir_at (fs s) (f_path f) -> is_dir_at disk (f_path f)) /\ file_done (fs s) disk f.
Proof.
  intros Hf Hblobs. rewrite list.filter_cons in Hblobs.
  destruct (restore_file (fs s) pi f (blobs ++ rest) Hf) as (disk' & disk'' & Hreg & Hex & -> & Hs & Hdir & Hdone).
  { intros Hnb. rewrite decide_True in Hblobs by done. inversion Hblobs as [|? blob ? blobs1 Hb Hrest]; subst. by exists blob, (blobs1 ++ rest). }
  assert (Hshort : exists blobs', Forall2 blob_for (filter needs_blob files) blobs' /\
    blobs' ++ rest = if decide (needs_blob f) then tail (blobs ++ rest) else blobs ++ rest).
  { destruct (decide (needs_blob f)); [|by exists blobs]. inversion Hblobs as [|? blob ? blobs1 Hb Hrest]; subst. by exists blobs1. }
  destruct Hshort as (blobs' & Hb' & Eb). exists blobs', (restore_metadata f disk'). split; [done|]. split; [|done].
  cbn [restore_files]. destruct Hf as [_ [(Ht & _)|(Ht & _)]]; rewrite Ht.
  - rewrite (Hreg Ht). cbn [mbind outcome_bind]. rewrite Eb. unfold needs_blob.
    destruct (decide (f_inline_data f = [])); [rewrite bool_decide_true, decide_True by done|rewrite bool_decide_false, decide_False by naive_solver]; done.
  - rewrite (Hex Ht), Eb. rewrite decide_False; [done|]. intros [? _]. congruence.
Qed.

Lemma restore_files_correct pi files blobs rest s :
  NoDup (f_path <$> files) -> Forall (file_ready (fs s) pi) files -> Forall2 blob_for (filter needs_blob files) blobs ->
  exists s', restore_files CE proc pi files (blobs ++ rest) s = Ret (Some rest, s') /\ noted (flat_map file_note files) s s' /\
    Fs.same_but (f_path <$> files) (fs s) (fs s') /\ (forall d, is_dir_at (fs s) d -> is_dir_at (fs s') d) /\ Forall (file_done (fs s) (fs s')) files.
Proof.
  revert blobs s. induction files as [|f files IH]; intros blobs s Hnd Hready Hblobs.
  { inversion Hblobs. subst. exists s. split_and!; [done|apply noted_nil|done|done|constructor]. }
  cbn [fmap list_fmap] in Hnd |- *. apply NoDup_cons in Hnd as [Hn Hnd]. apply Forall_cons in Hready as [Hf Hready].
  destruct (restore_files_step pi f files blobs rest s Hf Hblobs) as (blobs' & disk & Hb' & -> & Hs & Hdir & Hdone).
  set (s1 := register _ _ _ _). assert (Hfs1 : fs s1 = disk) by apply fs_register.
  assert (Hne : forall f', f' ∈ files -> f_path f' <> f_path f).
  { intros f' Hin Heq. apply Hn. rewrite <- Heq. apply list_elem_of_fmap. by exists f'. }
  destruct (IH blobs' s1 Hnd) as (s' & -> & Hr & Hs' & Hdir' & Hdone'); [|done|].
  { rewrite Forall_forall in Hready |- *. intros f' Hin. rewrite Hfs1. eapply file_ready_step; [exact Hs|done|by apply Hne|by apply Hready]. }
  rewrite Hfs1 in *. exists s'. split; [done|]. split; [eapply noted_app; [apply noted_register|exact Hr]|]. split_and!.
  - eapply Fs.same_but_trans; eapply Fs.same_but_mono; [|exact Hs| |exact Hs']; set_solver.
  - intros d Hd. apply Hdir'. destruct (decide (d = f_path f)) as [->|Hdne]; [by apply Hdir|]. destruct Hd as (i & Hi & Hdi).
    exists i. rewrite Hs by set_solver. done.
  - constructor.
    + eapply file_done_step; [|exact Hdone]. by apply Hs'.
    + rewrite Forall_forall in Hdone' |- *. intros f' Hin. specialize (Hdone' f' Hin). unfold file_done in *.
      destruct (f_type f'); try done; destruct Hdone' as (i0 & i & Hi0 & Hrest); exists i0, i; rewrite Hs in Hi0 by (specialize (Hne f' Hin); set_solver); done.
Qed.

(** ** Removing *)

(** It is not there, or can be removed once [paths] are gone. *)
Definition gone_ready (disk : Fs.t) (paths : list cstr) (path : cstr) : Prop :=
  may_change path /\
  (is_Some (disk !! path) -> exists d, FileName.parent_dir path = Some d /\ is_dir_at disk d) /\
  (forall p, is_Some (disk !! p) -> FileName.parent_dir p = Some path -> p ∈ paths).

Lemma remove_one_correct disk path :
  gone_ready disk [] path -> remove_one path disk !! path = None /\ Fs.same_but [path] disk (remove_one path disk).
Proof.
  intros (Hm & Hp & Hnone). unfold remove_one, Fs.unlink, Fs.rmdir. destruct (disk !! path) as [i|] eqn:Ei; [|done].
  destruct (Hp ltac:(by eexists)) as (d & Hpd & Hd). rewrite (parent_error_None disk path d Hpd Hd Hm).
  assert (Hdel : delete path disk !! path = None /\ Fs.same_but [path] disk (delete path disk)).
  { split; [by rewrite lookup_delete, decide_True by done|apply Fs.same_but_delete]. }
  destruct (Fs.i_dir i); [|done]. cbn. rewrite decide_False; [done|]. intros (p & Hs & Hpp). by apply (Hnone p Hs), elem_of_nil in Hpp.
Qed.

(** All of them, what is below a directory first. *)
Definition remove_all (paths : list cstr) (s : st) : st :=
  fold_left (fun s path => register (parent_exec_point proc) path (UType ISDIR true false) (set_fs (remove_one path (fs s)) s)) paths s.

Lemma remove_all_correct paths s :
  StronglySorted longer paths -> NoDup paths -> Forall (gone_ready (fs s) paths) paths ->
  noted (flat_map gone_note paths) s (remove_all paths s) /\ Fs.same_but paths (fs s) (fs (remove_all paths s)) /\
  Forall (fun path => fs (remove_all paths s) !! path = None) paths.
Proof.
  intros Hsort. revert s. induction Hsort as [|path paths Hsort IH Hall]; intros s Hnd Hready.
  { split_and!; [apply noted_nil|done|constructor]. }
  apply NoDup_cons in Hnd as [Hn Hnd]. apply Forall_cons in Hready as [Hr Hready]. cbn [remove_all fold_left].
  set (s1 := register _ _ _ _). change (fold_left _ paths s1) with (remove_all paths s1).
  assert (Hfs1 : fs s1 = remove_one path (fs s)) by apply fs_register. rewrite Forall_forall in Hall.
  destruct (remove_one_correct (fs s) path) as [Hnone Hs].
  { destruct Hr as (Hm & Hp & Hbelow). split_and!; [done|done|]. intros p Hsome Hpp. apply parent_dir_shorter in Hpp as Hlt.
    specialize (Hbelow p Hsome Hpp). apply elem_of_cons in Hbelow as [->|Hin]; [lia|]. specialize (Hall p Hin). unfold longer in Hall. lia. }
  rewrite <- Hfs1 in *. destruct (IH s1 Hnd) as (R1 & R2 & R3).
  { rewrite Forall_forall in Hready |- *. intros q Hq. destruct (Hready q Hq) as (Hm & Hp & Hbelow).
    assert (Hne : q <> path) by (intros ->; done). split_and!; [done|..].
    - rewrite Hs by set_solver. intros Hsome. destruct (Hp Hsome) as (d & Hpd & i & Hi & Hdi). exists d. split; [done|]. exists i.
      rewrite Hs; [done|]. intros ->%list_elem_of_singleton. apply parent_dir_shorter in Hpd. specialize (Hall q Hq). unfold longer in Hall. lia.
    - intros p Hsome Hpp. assert (p <> path) by (intros ->; rewrite Hnone in Hsome; by destruct Hsome).
      rewrite Hs in Hsome by set_solver. specialize (Hbelow p Hsome Hpp). by apply elem_of_cons in Hbelow as [?|?]. }
  split_and!.
  - eapply noted_app; [apply noted_register|exact R1].
  - eapply Fs.same_but_trans; eapply Fs.same_but_mono; [|exact Hs| |exact R2]; set_solver.
  - constructor; [by rewrite R2|done].
Qed.

(** ** Blobs *)

Context `{!XXHashOk} `{!CacheConfigOk}.
Context (Hrange : forall src, Copy.range_ok CE src) (Hcopy : Copy.copy_reliable CE).

(** What is recorded under a hash, as the cache is configured, and is in the cache. *)
Definition in_cache (blobs : BlobCache.t) (w : option Hash.t * option Hash.t) : Prop :=
  exists h, w = (if compress_cache then (Some h, None) else (None, Some h)) /\ BlobCache.has_blob h (BlobCache.root blobs).

Lemma open_blobs_correct blobs l :
  Forall (in_cache blobs) l ->
  exists data, open_blobs blobs l = Ret (Some data) /\
    Forall2 (fun w blob => exists h, w = (if compress_cache then (Some h, None) else (None, Some h)) /\
      BlobCache.get_fd_for_file h blobs = Ret (Some blob) /\ BlobCache.has_blob h (BlobCache.root blobs)) l data.
Proof.
  induction 1 as [|w l (h & -> & Hb) _ IH]; cbn [open_blobs]; [exists []; by split; [|constructor]|].
  destruct (BlobCache.retrieve_correct CE h blobs Hrange Hcopy Hb) as (blob & contents & Hg & _).
  destruct IH as (data & Hd & Hall). exists (blob :: data). unfold blob_hash. split.
  - destruct compress_cache; cbn [mbind outcome_bind]; rewrite Hg; cbn [mbind outcome_bind]; by rewrite Hd.
  - constructor; [|done]. by exists h.
Qed.

(** What a blob that is in the cache holds, and how it can be used. *)
Lemma blob_contents blobs h blob :
  BlobCache.get_fd_for_file h blobs = Ret (Some blob) -> BlobCache.has_blob h (BlobCache.root blobs) ->
  exists contents, XXH3_128bits contents = h /\ BlobCache.unpack blob = Some contents /\
    BlobCache.retrieve_file CE blob (Some []) false compress_cache = Ret (Some contents) /\
    (compress_cache = false -> forall old, BlobCache.retrieve_file CE blob (Some old) true false = Ret (Some (old ++ contents))).
Proof.
  intros Hg Hb. pose proof Hb as (a & b & name & data & mt & contents & P & Hs & Hu & Hk).
  assert (data = blob) as ->.
  { unfold BlobCache.get_fd_for_file in Hg. rewrite (BlobCache.po_path _ _ _ _ P) in Hg. cbn [mbind outcome_bind app] in Hg.
    unfold CacheDir.see in Hs. destruct (CacheDir.lookup [a; b; name] (BlobCache.root blobs)) as [[dt m| |]|]; try done.
    injection Hs as -> _. by injection Hg. }
  exists contents. split_and!; [done|done| |].
  - destruct (BlobCache.retrieve_correct CE h blobs Hrange Hcopy Hb) as (blob' & c' & Hg' & _ & Hr & _).
    assert (blob' = blob) as -> by congruence. rewrite Hr. unfold BlobCache.unpack in Hu. destruct compress_cache eqn:Ec.
    + unfold BlobCache.retrieve_file in Hr. rewrite Hu in Hr. injection Hr as <-. unfold Copy.pwrite. cbn. by rewrite drop_nil, app_nil_r.
    + injection Hu as ->. destruct (Copy.copy_file_reliable CE contents 0 [] false (Build_stat_t 32768 (Z.of_nat (length contents)))) as [dst2 Hc2]; [done..|].
      destruct (Copy.copy_file_correct CE contents 0 [] false (Build_stat_t 32768 (Z.of_nat (length contents)))) as (ok & dst & Hc & Hok); [done..|].
      rewrite Hc in Hc2. injection Hc2 as -> <-. unfold BlobCache.retrieve_file in Hr. rewrite Hc in Hr. cbn [mbind outcome_bind] in Hr.
      rewrite (Hok eq_refl) in Hr. by injection Hr as <-.
  - intros Ec old. destruct (BlobCache.retrieve_correct CE h blobs Hrange Hcopy Hb) as (blob' & c' & Hg' & _ & _ & Ha).
    assert (blob' = blob) as -> by congruence. specialize (Ha Ec old). rewrite Ha. unfold BlobCache.unpack in Hu. rewrite Ec in Hu. injection Hu as ->.
    unfold BlobCache.retrieve_file in Ha. destruct (Copy.copy_file_correct CE contents 0 old true (Build_stat_t 32768 (Z.of_nat (length contents))))
      as (ok & dst & Hc & Hok); [done..|]. rewrite Hc in Ha. cbn [mbind outcome_bind] in Ha. destruct ok; [|done].
    rewrite (Hok eq_refl) in Ha. by rewrite <- Ha.
Qed.

(** ** Appended data *)

(** The data of an entry. *)
Definition carries (a : append_to_fd) (data : list Z) : Prop :=
  if decide (a_inline_data a = []) then append_blob a = Some (XXH3_128bits data) else data = a_inline_data a.
Definition blob_for_append (a : append_to_fd) (blob : list Z) : Prop :=
  exists contents, carries a contents /\
    match a_compressed_hash a with Some _ => zstd_decompress blob = Some contents | None => blob = contents end /\
    (a_compressed_hash a = None -> forall old, BlobCache.retrieve_file CE blob (Some old) true false = Ret (Some (old ++ contents))).

(** The regular file that is appended to, if it is one. *)
Definition append_path (a : append_to_fd) : option cstr :=
  match get_fd proc (a_fd a) with Some (FD_FILE, Some path) => Some path | _ => None end.
Definition is_pipe (a : append_to_fd) : Prop := append_path a = None.
#[global] Instance is_pipe_dec a : Decision (is_pipe a).
Proof. unfold is_pipe. apply _. Defined.

Definition append_ready (disk : Fs.t) (a : append_to_fd) : Prop :=
  match get_fd proc (a_fd a) with
  | Some (FD_PIPE_OUT, _) => True
  | Some (FD_FILE, Some path) =>
      (exists i, disk !! path = Some i /\ Fs.i_dir i = false) /\ (forall disk, Fs.may_write disk path = true) /\
      (a_inline_data a = [] -> a_compressed_hash a = None)
  | _ => False
  end.
Definition append_done (disk0 disk : Fs.t) (a : append_to_fd) : Prop :=
  forall path, append_path a = Some path ->
  exists i0 i data, disk0 !! path = Some i0 /\ disk !! path = Some i /\ Fs.i_dir i = false /\ carries a data /\
    Fs.i_data i = Fs.i_data i0 ++ data.

Definition no_blob_left (a : append_to_fd) (blobs : list (list Z)) : list (list Z) :=
  if decide (a_inline_data a = []) then tail blobs else blobs.

Lemma carries_inline a x l : a_inline_data a = x :: l -> carries a (x :: l).
Proof. intros Ha. unfold carries. rewrite decide_False by congruence. done. Qed.

(** What happens for the data of an inherited file besides writing it to a regular file: it is
    added to the pipe, and to the recorders of the parent unless it comes from a compressed
    blob, and that there was a write is noted. *)
Definition append_effects (a : append_to_fd) (data : list Z) : list effect :=
  (if decide (is_pipe a) then
     EvPipeData (a_fd a) data ::
     (if has_parent proc && negb (bool_decide (a_inline_data a = []) && bool_decide (is_Some (a_compressed_hash a)))
      then [EvRecord (a_fd a) data] else [])
   else []) ++ [EvInheritedWrite (a_fd a)].
Definition append_noted (a : append_to_fd) (l : list effect) : Prop :=
  exists data, carries a data /\ l = append_effects a data.

(** To a regular file. *)
Lemma replay_append_file a blobs s path :
  get_fd proc (a_fd a) = Some (FD_FILE, Some path) -> append_ready (fs s) a ->
  (a_inline_data a = [] -> exists blob rest, blobs = blob :: rest /\ blob_for_append a blob) ->
  exists s', replay_append CE proc a blobs s = Ret (no_blob_left a blobs, [a_fd a], s') /\
    Fs.same_but [path] (fs s) (fs s') /\ append_done (fs s) (fs s') a /\ log s' = log s.
Proof.
  intros Hg Hready Hblob. unfold append_ready in Hready. rewrite Hg in Hready. destruct Hready as ((i & Hi & Hdi) & Hw & Hcomp).
  assert (Hdone : forall data, carries a data ->
    let disk := Fs.set_data path (Fs.data_of path (fs s) ++ data) (fs s) in Fs.same_but [path] (fs s) disk /\ append_done (fs s) disk a).
  { intros data Hc disk. split; [apply Fs.same_but_alter|]. intros p Hp. unfold append_path in Hp. rewrite Hg in Hp. injection Hp as <-.
    unfold disk, Fs.set_data, Fs.data_of. rewrite lookup_alter, decide_True, Hi by done. eexists i, _, data. done. }
  unfold replay_append, no_blob_left. rewrite Hg. destruct (a_inline_data a) as [|x l] eqn:Ein.
  - destruct (Hblob eq_refl) as (blob & rest & -> & contents & Hc & _ & Ha). specialize (Hcomp eq_refl). rewrite Hcomp.
    unfold Fs.open_wronly. rewrite Hi, Hdi, Hw. rewrite (bool_decide_false (is_Some (@None Hash.t))) by (by intros [? ?]).
    rewrite (Ha Hcomp). cbn [mbind outcome_bind]. destruct (Hdone contents Hc) as [D1 D2]. by eexists.
  - unfold Fs.open_creat. rewrite Hi, Hdi, Hw. cbn [negb]. destruct (Hdone (x :: l) (carries_inline a x l Ein)) as [D1 D2]. by eexists.
Qed.

(** To a pipe. *)
Lemma replay_append_pipe a blobs s name :
  get_fd proc (a_fd a) = Some (FD_PIPE_OUT, name) ->
  (a_inline_data a = [] -> exists blob rest, blobs = blob :: rest /\ blob_for_append a blob) ->
  exists s' data, replay_append CE proc a blobs s = Ret (no_blob_left a blobs, [], s') /\ fs s' = fs s /\
    noted (append_effects a data) s (emit (EvInheritedWrite (a_fd a)) s') /\ carries a data.
Proof.
  intros Hg Hblob. assert (Hp : is_pipe a) by (unfold is_pipe, append_path; by rewrite Hg).
  assert (He : forall data, append_effects a data = EvPipeData (a_fd a) data ::
    (if has_parent proc && negb (bool_decide (a_inline_data a = []) && bool_decide (is_Some (a_compressed_hash a)))
     then [EvRecord (a_fd a) data] else []) ++ [EvInheritedWrite (a_fd a)])
    by (intros data; unfold append_effects; by rewrite (decide_True (P := is_pipe a)) by done).
  unfold replay_append, no_blob_left, noted. rewrite Hg. destruct (a_inline_data a) as [|x l] eqn:Ein.
  - destruct (Hblob eq_refl) as (blob & rest & -> & contents & Hc & Hz & _). destruct (a_compressed_hash a) eqn:Ec.
    + rewrite Hz. eexists _, contents. rewrite He, andb_false_r. cbn. split_and!; [done|done|cbn; by rewrite <- app_assoc|done].
    + subst blob. eexists _, contents. rewrite He. split_and!; [done|by destruct (has_parent proc)| |done].
      destruct (has_parent proc); cbn; by rewrite <- !app_assoc.
  - eexists _, (x :: l). rewrite He. split_and!; [done|by destruct (has_parent proc)| |by apply carries_inline].
    destruct (has_parent proc); cbn; by rewrite <- !app_assoc.
Qed.

(** One after the other; every file is appended to once. *)
Lemma append_ready_step disk disk' paths a :
  Fs.same_but paths disk disk' -> (forall p, append_path a = Some p -> p ∉ paths) -> append_ready disk a -> append_ready disk' a.
Proof.
  intros Hs Hp. unfold append_ready, append_path in *. destruct (get_fd proc (a_fd a)) as [[[] [p|]]|]; try done.
  by rewrite (Hs p) by (by apply Hp).
Qed.

Lemma append_path_cases disk a :
  append_ready disk a ->
  (exists path, append_path a = Some path /\ get_fd proc (a_fd a) = Some (FD_FILE, Some path)) \/
  (append_path a = None /\ exists name, get_fd proc (a_fd a) = Some (FD_PIPE_OUT, name)).
Proof.
  unfold append_ready, append_path. destruct (get_fd proc (a_fd a)) as [[[] [p|]]|]; try done; eauto.
Qed.

(** The next one, with the blobs that are left. *)
Lemma blobs_step a l blobs :
  Forall2 blob_for_append (filter (fun a => a_inline_data a = []) (a :: l)) blobs ->
  (a_inline_data a = [] -> exists blob rest, blobs = blob :: rest /\ blob_for_append a blob) /\
  Forall2 blob_for_append (filter (fun a => a_inline_data a = []) l) (no_blob_left a blobs).
Proof.
  unfold no_blob_left. rewrite list.filter_cons. destruct (decide (a_inline_data a = [])) as [Ha|Ha]; [|done].
  intros Hb. inversion Hb as [|? blob ? rest Hblob Hrest]; subst. split; [|done]. intros _. by exists blob, rest.
Qed.

Lemma append_done_step disk0 disk1 disk a paths :
  Fs.same_but paths disk0 disk1 -> (forall p, append_path a = Some p -> p ∉ paths) -> append_done disk1 disk a -> append_done disk0 disk a.
Proof. intros Hs Hp Hd p Ha. destruct (Hd p Ha) as (i0 & i & data & Hi0 & Hrest). exists i0, i, data. rewrite <- (Hs p) by (by apply Hp). done. Qed.

Lemma replay_appends_correct l blobs s :
  Forall (append_ready (fs s)) l -> NoDup (omap append_path l) -> Forall2 blob_for_append (filter (fun a => a_inline_data a = []) l) blobs ->
  exists s' evs, replay_appends CE proc l blobs s = Ret (a_fd <$> filter (fun a => ~ is_pipe a) l, s') /\
    Fs.same_but (omap append_path l) (fs s) (fs s') /\ Forall (append_done (fs s) (fs s')) l /\
    noted (concat evs) s s' /\ Forall2 append_noted l evs.
Proof.
  revert blobs s. induction l as [|a l IH]; intros blobs s Hready Hnd Hblobs; cbn [replay_appends].
  { exists s, []. split_and!; [done|done|constructor|apply noted_nil|constructor]. }
  apply Forall_cons in Hready as [Ha Hready]. destruct (blobs_step a l blobs Hblobs) as [Hb Hblobs']. rewrite !list.filter_cons.
  destruct (append_path_cases (fs s) a Ha) as [(path & Hpath & Hg)|(Hpath & name & Hg)].
  - cbn [omap list_omap] in Hnd |- *. rewrite Hpath in Hnd |- *. apply NoDup_cons in Hnd as [Hn Hnd].
    assert (Hnp : ~ is_pipe a) by (unfold is_pipe; congruence). rewrite (decide_True (P := ~ is_pipe a)) by done.
    destruct (replay_append_file a blobs s path Hg Ha Hb) as (s1 & -> & Hs1 & Hd1 & Hl1). cbn [mbind outcome_bind].
    assert (Hne : forall a', a' ∈ l -> forall p, append_path a' = Some p -> p ∉ [path]).
    { intros a' Hin p Hp ->%list_elem_of_singleton. apply Hn, list_elem_of_omap. by exists a'. }
    set (s1' := emit _ s1). destruct (IH (no_blob_left a blobs) s1') as (s2 & evs & -> & Hs2 & Hd2 & Hl2 & Hp2); [|done|done|].
    { rewrite Forall_forall in Hready |- *. intros a' Hin. eapply append_ready_step; [exact Hs1|by apply Hne|by apply Hready]. }
    cbn [mbind outcome_bind]. exists s2, ([EvInheritedWrite (a_fd a)] :: evs). split; [done|]. split_and!.
    + eapply Fs.same_but_trans; eapply Fs.same_but_mono; [|exact Hs1| |exact Hs2]; set_solver.
    + constructor.
      * intros p Hp. assert (p = path) as -> by congruence. destruct (Hd1 path Hpath) as (i0 & i & data & H1' & H2' & H3').
        exists i0, i, data. split; [done|]. by rewrite Hs2.
      * rewrite Forall_forall in Hd2 |- *. intros a' Hin. eapply append_done_step; [exact Hs1|by apply Hne|by apply Hd2].
    + eapply noted_app; [|exact Hl2]. unfold s1', noted. cbn. by rewrite Hl1.
    + constructor; [|done]. destruct (Hd1 path Hpath) as (_ & _ & data & _ & _ & _ & Hc & _). exists data. split; [done|].
      unfold append_effects. by rewrite decide_False by done.
  - cbn [omap list_omap] in Hnd |- *. rewrite Hpath in Hnd |- *.
    rewrite (decide_False (P := ~ is_pipe a)) by (unfold is_pipe; tauto).
    destruct (replay_append_pipe a blobs s name Hg Hb) as (s1 & data & -> & Hf1 & Hl1 & Hc1). cbn [mbind outcome_bind].
    set (s1' := emit _ s1). assert (Hfs : fs s1' = fs s) by done.
    destruct (IH (no_blob_left a blobs) s1') as (s2 & evs & -> & Hs2 & Hd2 & Hl2 & Hp2); [by rewrite Hfs|done|done|]. rewrite Hfs in *.
    cbn [mbind outcome_bind]. exists s2, (append_effects a data :: evs). split; [done|]. split_and!; [done| | |].
    + constructor; [|done]. intros p Hp. congruence.
    + by eapply noted_app; [exact Hl1|].
    + constructor; [by exists data|done].
Qed.

(** ** Applying a shortcut *)

Lemma Forall2_fmap_filter {A B D} (P : A -> Prop) `{forall x, Decision (P x)} (g : A -> B) (R : B -> D -> Prop) (R' : A -> D -> Prop) l k :
  (forall x y, P x -> R (g x) y -> R' x y) -> Forall2 R (g <$> filter P l) k -> Forall2 R' (filter P l) k.
Proof.
  intros HR. revert k. induction l as [|x l IH]; intros k; [by inversion 1|]. rewrite list.filter_cons. destruct (decide (P x)); [|apply IH].
  cbn. inversion 1; subst. constructor; auto.
Qed.

Lemma fold_register {A} at_ (path : A -> cstr) (u : A -> update) l s :
  fold_left (fun s x => register at_ (path x) (u x) s) l s =
    mkSt (fs s) (log s ++ match at_ with Some p => (fun x => EvRegister p (path x) (u x)) <$> l | None => [] end).
Proof.
  revert s. induction l as [|x l IH]; intros s; cbn [fold_left]; [destruct s, at_; cbn; by rewrite app_nil_r|].
  rewrite IH. destruct at_ as [p|]; [|done]. cbn. by rewrite <- app_assoc.
Qed.

(** The updates for the outputs of the entry, in the order in which they are restored. *)
Definition output_updates (po : process_outputs) : list effect :=
  flat_map dir_note (merge_sort shorter (po_path_isdir po)) ++ flat_map file_note (po_path_isreg po) ++
  flat_map gone_note (merge_sort longer (po_path_notexist po)).

(** The updates for the inputs of the entry. *)
Definition input_updates (pi : process_inputs) : list effect :=
  match registration_point proc with
  | Some p => ((fun f => EvRegister p (f_path f) (UInfo (file_to_file_info f))) <$> pi_path pi) ++
              ((fun path => EvRegister p path (UType NOTEXIST false false)) <$> pi_path_notexist pi)
  | None => []
  end.

Lemma register_inputs_correct pi s : register_inputs proc pi s = mkSt (fs s) (log s ++ input_updates pi).
Proof.
  unfold register_inputs, input_updates. rewrite !fold_register. cbn. destruct (registration_point proc); [by rewrite <- app_assoc|].
  by rewrite !app_nil_r.
Qed.

Section Apply.
Context (e : process_inputs_outputs) (blobs : BlobCache.t) (disk : Fs.t).
Let outputs := pio_outputs e.
Let files := po_path_isreg outputs.
Let dirs := po_path_isdir outputs.
Let created := (f_path <$> files) ++ (f_path <$> dirs).
Let gone := po_path_notexist outputs.
Let appends := po_append_to_fd outputs.

(** The file can be restored once the directories are there. *)
Definition restorable (f : file) : Prop :=
  (forall disk, Fs.may_chmod disk (f_path f) = true) /\
  ((f_type f = ISREG /\ no_dir_at disk (f_path f) /\ may_change (f_path f) /\
    (exists d, FileName.parent_dir (f_path f) = Some d /\ (is_dir_at disk d \/ d ∈ f_path <$> dirs)) /\
    ((forall disk, Fs.may_write disk (f_path f) = true) \/ (f_inline_data f = [] /\ replaceable (pio_inputs e) f = true))) \/
   (f_type f = EXIST /\ is_Some (disk !! f_path f))).

(** The outputs are consistent, can be created where they are recorded, and their contents are
    in the cache. *)
Record applicable : Prop := {
  ap_blobs : Forall (in_cache blobs) (wanted outputs);
  ap_names : NoDup (created ++ gone);
  ap_dirs : Forall (dir_ready disk (f_path <$> dirs)) dirs;
  ap_files : Forall restorable files;
  ap_gone : Forall (fun n => gone_ready disk gone n /\ forall p, p ∈ created -> FileName.parent_dir p <> Some n) gone;
  ap_appends : Forall (append_ready disk) appends;
  ap_append_paths : NoDup (omap append_path appends) /\ forall p, p ∈ omap append_path appends -> p ∉ created ++ gone
}.

Context (Hap : applicable).

Lemma open_all_blobs :
  exists bf ba, open_blobs blobs (wanted outputs) = Ret (Some (bf ++ ba)) /\ Forall2 blob_for (filter needs_blob files) bf /\
    Forall2 blob_for_append (filter (fun a => a_inline_data a = []) appends) ba.
Proof.
  destruct (open_blobs_correct blobs _ (ap_blobs Hap)) as (data & Ho & Hall). unfold wanted in Hall.
  apply Forall2_app_inv_l in Hall as (bf & ba & Hf & Ha & ->). exists bf, ba. split; [done|].
  assert (Hkind : forall (h : Hash.t) (ch hh : option Hash.t), (ch, hh) = (if compress_cache then (Some h, None) else (None, Some h)) ->
    bool_decide (is_Some ch) = compress_cache /\ match ch with Some h => Some h | None => hh end = Some h /\ (compress_cache = true <-> is_Some ch)).
  { intros h ch hh Heq. destruct compress_cache; injection Heq as -> ->;
      [rewrite bool_decide_true by (by eexists)|rewrite bool_decide_false by (by intros [? ?])]; (split; [done|]); (split; [done|]); by split. }
  split.
  - eapply Forall2_fmap_filter; [|exact Hf]. intros f blob [Ht Hin] (h & Hw & Hg & Hb). destruct (Hkind _ _ _ Hw) as (Hd & Hh & _).
    destruct (blob_contents blobs h blob Hg Hb) as (contents & Hc & _ & Hr & _). exists contents. rewrite Hd. split; [done|].
    unfold file_blob. rewrite !bool_decide_true by done. cbn [andb]. by rewrite Hh, Hc.
  - eapply Forall2_fmap_filter; [|exact Ha]. intros a blob Hin (h & Hw & Hg & Hb). cbn beta in Hin. destruct (Hkind _ _ _ Hw) as (_ & Hh & Hcomp).
    destruct (blob_contents blobs h blob Hg Hb) as (contents & Hc & Hu & _ & Happ). exists contents. unfold carries, append_blob, BlobCache.unpack in *.
    rewrite decide_True, bool_decide_true by done. split; [by rewrite Hh, Hc|]. destruct (a_compressed_hash a) as [ch|].
    + rewrite (proj2 Hcomp) in Hu by (by eexists). done.
    + destruct compress_cache; [by destruct (proj1 Hcomp eq_refl)|]. split; [by injection Hu|]. intros _. by apply Happ.
Qed.
Lemma created_elem f : f ∈ files -> f_path f ∈ created.
Proof. intros Hf. apply elem_of_app. left. apply list_elem_of_fmap. by exists f. Qed.
Lemma dir_created d : d ∈ dirs -> f_path d ∈ created.
Proof. intros Hf. apply elem_of_app. right. apply list_elem_of_fmap. by exists d. Qed.

(** The directories. *)
Lemma apply_dirs s :
  fs s = disk ->
  exists s', restore_dirs proc outputs s = Ret s' /\ noted (flat_map dir_note (merge_sort shorter dirs)) s s' /\ Fs.same_but (f_path <$> dirs) disk (fs s') /\
    Forall (dir_done disk (fs s')) dirs /\ (forall d, is_dir_at disk d -> is_dir_at (fs s') d).
Proof.
  intros Hfs. unfold restore_dirs. set (sorted := merge_sort shorter (po_path_isdir outputs)).
  assert (Hperm : sorted ≡ₚ dirs) by apply merge_sort_Permutation.
  pose proof (ap_names Hap) as Hnd. apply NoDup_app in Hnd as (Hnd & _). apply NoDup_app in Hnd as (_ & _ & Hnd).
  destruct (restore_each_correct sorted s) as (s' & Hr & Hreg & Hs & Hd).
  - apply StronglySorted_merge_sort; apply _.
  - by rewrite Hperm.
  - rewrite Hfs, Forall_forall. intros d Hin. rewrite Hperm in Hin. pose proof (ap_dirs Hap) as Hdirs. rewrite Forall_forall in Hdirs.
    destruct (Hdirs d Hin) as (? & ? & ? & ? & p & Hp & Hpd). split_and!; [done..|]. exists p. by rewrite Hperm.
  - rewrite Hfs in *. exists s'. rewrite Hperm in Hd, Hs. split_and!; [done..|]. intros d (i & Hi & Hdi).
    destruct (decide (d ∈ f_path <$> dirs)) as [Hin|Hin].
    + apply list_elem_of_fmap in Hin as (dir & -> & Hin). rewrite Forall_forall in Hd. destruct (Hd dir Hin) as (j & m & Hj & Hdj & _). by exists j.
    + exists i. by rewrite Hs.
Qed.

(** The regular files. *)
Lemma apply_files s bf ba :
  Fs.same_but (f_path <$> dirs) disk (fs s) -> Forall (dir_done disk (fs s)) dirs -> (forall d, is_dir_at disk d -> is_dir_at (fs s) d) ->
  Forall2 blob_for (filter needs_blob files) bf ->
  exists s', restore_files CE proc (pio_inputs e) files (bf ++ ba) s = Ret (Some ba, s') /\ noted (flat_map file_note files) s s' /\
    Fs.same_but created disk (fs s') /\ (forall d, is_dir_at disk d -> is_dir_at (fs s') d) /\
    Forall (dir_done disk (fs s')) dirs /\ Forall (file_done disk (fs s')) files.
Proof.
  intros Hs Hd Hdir Hb. pose proof (ap_names Hap) as Hnd. apply NoDup_app in Hnd as (Hnd & _). apply NoDup_app in Hnd as (Hnf & Hdisj & _).
  assert (Hout : forall f, f ∈ files -> f_path f ∉ f_path <$> dirs).
  { intros f Hf. apply Hdisj, list_elem_of_fmap. by exists f. }
  destruct (restore_files_correct (pio_inputs e) files bf ba s Hnf) as (s' & Hr & Hreg & Hs' & Hdir' & Hdone); [|done|].
  { rewrite Forall_forall. intros f Hf. pose proof (ap_files Hap) as Hfiles. rewrite Forall_forall in Hfiles. specialize (Hfiles f Hf).
    destruct Hfiles as [Hc Hcase]. split; [done|]. specialize (Hs (f_path f) (Hout f Hf)).
    destruct Hcase as [(Ht & Hnd & Hm & (d & Hp & Hpd) & Hw)|(Ht & He)]; [left|right; by rewrite Hs]. split; [done|]. split_and!; [|..|done|done].
    - intros i Hi. apply Hnd. congruence.
    - exists d. split; [done|]. destruct Hpd as [Hpd|Hpd]; [by apply Hdir|]. apply list_elem_of_fmap in Hpd as (dir & -> & Hin).
      rewrite Forall_forall in Hd. destruct (Hd dir Hin) as (j & m & Hj & Hdj & _). by exists j. }
  exists s'. split_and!; [done|done| |by intros d ?; apply Hdir', Hdir| |].
  - eapply Fs.same_but_trans; eapply Fs.same_but_mono; [|exact Hs| |exact Hs']; unfold created; set_solver.
  - rewrite Forall_forall in Hd |- *. intros d Hin. destruct (Hd d Hin) as (i & m & Hi & Hrest). exists i, m. rewrite Hs'; [done|].
    intros (f & Heq & Hf)%list_elem_of_fmap. apply (Hout f Hf). rewrite <- Heq. apply list_elem_of_fmap. by exists d.
  - rewrite Forall_forall in Hdone |- *. intros f Hf. specialize (Hdone f Hf). unfold file_done in *. rewrite (Hs _ (Hout f Hf)) in Hdone. done.
Qed.

(** What is removed. *)
Lemma apply_gone s :
  Fs.same_but created disk (fs s) -> (forall d, is_dir_at disk d -> is_dir_at (fs s) d) ->
  let s' := remove_files_and_dirs proc outputs s in
  noted (flat_map gone_note (merge_sort longer gone)) s s' /\ Fs.same_but gone (fs s) (fs s') /\ Forall (fun path => fs s' !! path = None) gone.
Proof.
  intros Hs Hdir. unfold remove_files_and_dirs. set (sorted := merge_sort longer (po_path_notexist outputs)).
  change (fold_left _ sorted s) with (remove_all sorted s). assert (Hperm : sorted ≡ₚ gone) by apply merge_sort_Permutation.
  pose proof (ap_names Hap) as Hnd. apply NoDup_app in Hnd as (_ & Hdisj & Hng).
  destruct (remove_all_correct sorted s) as (R1 & R2 & R3).
  - apply StronglySorted_merge_sort; apply _.
  - by rewrite Hperm.
  - rewrite Forall_forall. intros n Hin. rewrite Hperm in Hin. pose proof (ap_gone Hap) as Hgone. rewrite Forall_forall in Hgone.
    destruct (Hgone n Hin) as ((Hm & Hp & Hbelow) & Hnew). assert (Hn : n ∉ created) by (intros Hc; by apply (Hdisj n Hc)).
    split_and!; [done|..].
    + rewrite Hs by done. intros Hsome. destruct (Hp Hsome) as (d & Hpd & Hd). exists d. auto.
    + intros p Hsome Hpp. rewrite Hperm. apply Hbelow; [|done]. rewrite <- Hs; [done|]. intros Hc. by apply (Hnew p Hc).
  - revert R1 R2 R3. generalize (remove_all sorted s). intros s' R1 R2 R3. rewrite Hperm in R2, R3. done.
Qed.
End Apply.


End Restore.

(** ** An instance *)
#[local] Existing Instances Hashing.demo_xxhash Hashing.demo_xxhash_ok.

(** A file system where everything is allowed, but maybe writing files without the permission bit. *)
Definition demo_kernel (umask : Z) (strict : bool) : Fs.Kernel :=
  {| Fs.k_umask := umask; Fs.k_now := (5, 0);
     Fs.may_write disk path := if strict then match disk !! path with Some i => negb (Z.land (Fs.i_mode i) 128 =? 0) | None => true end else true;
     Fs.may_change_dir _ _ := true; Fs.may_chmod _ _ := true; Fs.write_n _ := 1 |}.

Lemma demo_writes umask strict : @Fs.writes_progress (demo_kernel umask strict).
Proof. intros k Hk. cbn. lia. Qed.

Definition demo_serializer : Serializer := {| serialize _ := [1]; deserialize _ := None |}.
Definition demo_proc : proc_t := mkProc (Some 3%nat) (Some 3%nat) true (fun fd => if fd =? 1 then Some (FD_PIPE_OUT, None) else None).
Definition demo_disk : Fs.t :=
  {[cs "/" := Fs.mkInode true [] 493 (0, 0); cs "/old" := Fs.mkInode true [] 493 (0, 0); cs "/old/f" := Fs.mkInode false [9] 420 (0, 0)]}.

(** A directory is created with a file that is in the blob cache, another one is removed with
    what is in it, and a byte is sent to the output. *)
Definition demo_pio : process_inputs_outputs :=
  mkPio (mkInputs [] [cs "/d"])
    (mkOutputs [mkFile (cs "/d/a") ISREG (Some 3) (Some (XXH3_128bits [1; 2; 3])) None (Some 420) (Some 4095) [] None]
       [mkFile (cs "/d") ISDIR None None None (Some 493) (Some 4095) [] None] [cs "/old"; cs "/old/f"] [mkAppend 1 None None [7]] 3) None.

Lemma demo_blob : exists b, @BlobCache.has_blob _ (BlobCache.demo_config false) (XXH3_128bits [1; 2; 3]) (BlobCache.root b).
Proof.
  destruct (@BlobCache.store_file_correct _ (BlobCache.demo_config false) _ (BlobCache.demo_config_ok false) BlobCache.demo_store_env 0 0 [1; 2; 3] 0
    (BlobCache.mk (CacheDir.Dir []) 0) BlobCache.demo_store_env_ok eq_refl BlobCache.empty_inv ltac:(lia)) as (r & s' & Hs & Hr).
  vm_compute in Hs. injection Hs as <- <-. destruct Hr as [(_ & _ & Hb & _) _]. eexists. exact Hb.
Qed.

Lemma decide_all {A} (P : A -> Prop) `{!forall x, Decision (P x)} (l : list A) : bool_decide (Forall P l) = true -> forall p, p ∈ l -> P p.
Proof. intros E. apply Forall_forall. by apply bool_decide_eq_true in E. Qed.

Lemma demo_applicable b :
  @BlobCache.has_blob _ (BlobCache.demo_config false) (XXH3_128bits [1; 2; 3]) (BlobCache.root b) ->
  @applicable _ (BlobCache.demo_config false) (demo_kernel 0 false) demo_proc demo_pio b demo_disk.
Proof.
  intros Hb. assert (Hroot : is_dir_at demo_disk (cs "/")) by (by eexists).
  split; cbn [pio_outputs demo_pio po_path_isreg po_path_isdir po_path_notexist po_append_to_fd].
  - apply Forall_singleton. exists (XXH3_128bits [1; 2; 3]). done.
  - apply (bool_decide_eq_true_1 _). vm_compute. reflexivity.
  - apply Forall_singleton. split_and!; [by eexists|by intros i Hi|done|done|]. exists (cs "/"). split; [done|by left].
  - apply Forall_singleton. split; [done|]. left. split_and!; [done|by intros i Hi|done| |by left]. exists (cs "/d"). split; [done|right; by left].
  - assert (Hall : forall p, is_Some (demo_disk !! p) -> p ∈ [cs "/"; cs "/old"; cs "/old/f"]).
    { intros p Hp. apply elem_of_dom in Hp. revert Hp. unfold demo_disk. rewrite !dom_insert_L, dom_singleton_L. set_solver. }
    apply Forall_cons; split; [|apply Forall_singleton]; (split; [split; [done|split; [intros _; eexists; split; [reflexivity|by eexists]|]]|]).
    1, 3: intros p Hp%Hall; revert p Hp.
    all: refine (decide_all (fun p => _) _ _); vm_compute; reflexivity.
  - apply Forall_singleton. done.
  - split; [constructor|]. intros p Hp. by apply elem_of_nil in Hp.
Qed.


(** ** Some behaviours that are surprising *)

(** A directory that is created again has the mode that it was recorded with only as far as the
    umask of the supervisor allows. *)
Theorem restored_dir_mode_masked :
  exists s', @restore_dir (demo_kernel 18 false) demo_proc (mkFile (cs "/d") ISDIR None None None (Some 511) (Some 4095) [] None) (mkSt demo_disk []) = Ret s' /\
    fs s' !! cs "/d" = Some (Fs.mkInode true [] 493 (5, 0)).
Proof. eexists. split; vm_compute; reflexivity. Qed.

(** A file that is not writable and that the entry expects to replace is replaced when its new
    contents come from the blob cache, but not when they are in the entry. *)
Theorem inlined_output_not_replaced :
  let disk : Fs.t := {[cs "/" := Fs.mkInode true [] 493 (0, 0); cs "/a" := Fs.mkInode false [9] 292 (0, 0)]} in
  let pi := mkInputs [mkFile (cs "/a") ISREG None None None (Some 292) (Some 4095) [] None] [] in
  let f hash inline := mkFile (cs "/a") ISREG (Some 1) hash None (Some 420) (Some 4095) inline None in
  @output_applicable (demo_kernel 18 true) pi disk (f None [7]) = true /\
  (exists disk', @restore_contents (BlobCache.demo_config false) (demo_kernel 18 true) Copy.demo_copy_env pi
     (f (Some (XXH3_128bits [7])) []) [[7]] disk = Ret (Some ([], disk'), disk') /\ disk' !! cs "/a" = Some (Fs.mkInode false [7] 420 (5, 0))) /\
  @restore_contents (BlobCache.demo_config false) (demo_kernel 18 true) Copy.demo_copy_env pi (f None [7]) [] disk = Ret (None, disk).
Proof. split; [vm_compute; reflexivity|]. split; [eexists; split; vm_compute; reflexivity|vm_compute; reflexivity]. Qed.

(** Data that is replayed to a pipe from a compressed blob is not recorded for the parent. *)
Theorem compressed_pipe_data_not_recorded :
  let a compressed := mkAppend 1 (if compressed : bool then None else Some (XXH3_128bits [7])) (if compressed then Some (XXH3_128bits [7]) else None) [] in
  let s := mkSt demo_disk [] in
  @replay_append (BlobCache.demo_config false) (demo_kernel 18 false) Copy.demo_copy_env demo_proc (a false) [[7]] s
    = Ret ([], [], mkSt demo_disk [EvPipeData 1 [7]; EvRecord 1 [7]]) /\
  @replay_append (BlobCache.demo_config true) (demo_kernel 18 false) Copy.demo_copy_env demo_proc (a true) [BlobCache.zstd_magic ++ [7]] s
    = Ret ([], [], mkSt demo_disk [EvPipeData 1 [7]]).
Proof. split; vm_compute; reflexivity. Qed.


End Restore.
