(* ===== verification/Fbb.v ===== *)
(** The serializer of structured messages (src/common/fbb/tpl.{h,c}), which is generated for a
    list of message definitions: builders and their setters and getters, measuring,
    serializing to memory, and the getters that work on the serialized form. *)

From Stdlib Require Import ZArith Lia Ascii.
From stdpp Require Import base list strings option gmap.
From S2P Require Import Prelude Framing.

Local Open Scope Z_scope.

Module Fbb.
Import Frame.

(** ** Memory *)

Definition peek (off len : Z) (m : list Z) : outcome (list Z) :=
  if (0 <=? off) && (0 <=? len) && (off + len <=? Z.of_nat (length m))
  then Ret (take (Z.to_nat len) (drop (Z.to_nat off) m)) else Abort.

(** [memcpy()] to [m + off]. *)
Definition poke (off : Z) (data : list Z) (m : list Z) : outcome (list Z) :=
  if (0 <=? off) && (off + Z.of_nat (length data) <=? Z.of_nat (length m))
  then Ret (take (Z.to_nat off) m ++ data ++ drop (Z.to_nat off + length data) m) else Abort.

Definition zeros (n : Z) : list Z := replicate (Z.to_nat n) 0.

Definition peek_u32 (off : Z) (m : list Z) : outcome Z := bytes ← peek off 4 m; Ret (le bytes).
Definition poke_u32 (off n : Z) (m : list Z) : outcome (list Z) := poke off (le_bytes 4 n) m.

(** [strlen()] of the string that memory starts with. *)
Fixpoint strlen (mem : list Z) : outcome Z :=
  match mem with
  | [] => Abort
  | c :: mem => if c =? 0 then Ret 0 else n ← strlen mem; Ret (n + 1)
  end.

(** [fbb_size_t] is an unsigned 32-bit integer. *)
Definition u32 (n : Z) : Z := n mod 2 ^ 32.

(** ** Message definitions *)

Inductive quantity := REQUIRED | OPTIONAL | ARRAY.
(** A scalar has a size and an alignment. *)
Inductive type := SCALAR (size align : Z) | STRING | FBB.
Record field := mkField { quant : quantity; ftype : type; var : string }.
Abbreviation schema := (list (list field)).

#[global] Instance quantity_eq : EqDecision quantity.
Proof. solve_decision. Defined.
#[global] Instance type_eq : EqDecision type.
Proof. solve_decision. Defined.

Definition is_scalar (f : field) : bool := match ftype f with SCALAR _ _ => true | _ => false end.
Definition is_array (f : field) : bool := bool_decide (quant f = ARRAY).
Definition is_string (f : field) : bool := bool_decide (ftype f = STRING).
Definition is_fbb (f : field) : bool := bool_decide (ftype f = FBB).
Definition sizeof (f : field) : Z := match ftype f with SCALAR size _ => size | _ => 0 end.
Definition alignof (f : field) : Z := match ftype f with SCALAR _ align => align | _ => 1 end.

(** The positions of the fields of some kind, in order. *)
Definition indices (p : field -> bool) (fields : list field) : list nat :=
  concat (imap (fun i f => if p f then [i] else []) fields).

(** ** The layout of the wire structure *)

Definition align_up (n a : Z) : Z := (n + a - 1) / a * a.

Inductive member := MTag | MScalar (i : nat) | MLen (i : nat) | MCount (i : nat).
#[global] Instance member_eq : EqDecision member.
Proof. solve_decision. Defined.

(** Its members with size and alignment: the tag, the scalars, the lengths of strings, the
    numbers of items of arrays. *)
Definition members (fields : list field) : list (member * (Z * Z)) :=
  (MTag, (4, 4)) ::
  concat (imap (fun i f => if negb (is_array f) && is_scalar f then [(MScalar i, (sizeof f, alignof f))] else []) fields) ++
  ((fun i => (MLen i, (4, 4))) <$> indices (fun f => negb (is_array f) && is_string f) fields) ++
  ((fun i => (MCount i, (4, 4))) <$> indices is_array fields).

(** The members with offset and size, and where they end. *)
Fixpoint place (off : Z) (l : list (member * (Z * Z))) : list (member * (Z * Z)) * Z :=
  match l with
  | [] => ([], off)
  | (m, (size, align)) :: l =>
      let start := align_up off align in
      let '(placed, end_) := place (start + size) l in ((m, (start, size)) :: placed, end_)
  end.

Fixpoint find_member (m : member) (l : list (member * (Z * Z))) : option (Z * Z) :=
  match l with [] => None | (m', p) :: l => if bool_decide (m = m') then Some p else find_member m l end.
Definition offsetof (fields : list field) (m : member) : option (Z * Z) := find_member m (place 0 (members fields)).1.

(** The [has_] bits of the optional scalars come last. *)
Definition has_bits (fields : list field) : list nat :=
  indices (fun f => bool_decide (quant f = OPTIONAL) && is_scalar f) fields.
Fixpoint index_of (i : nat) (l : list nat) : option nat :=
  match l with [] => None | j :: l => if (i =? j)%nat then Some 0%nat else S <$> index_of i l end.
Definition has_bit_at (fields : list field) (i : nat) : option (Z * Z) :=
  k ← index_of i (has_bits fields);
  Some ((place 0 (members fields)).2 + Z.of_nat k / 8, Z.of_nat k mod 8).

Definition struct_align (fields : list field) : Z := foldr (fun m a => Z.max m.2.2 a) 1 (members fields).
Definition wire_size (fields : list field) : Z :=
  align_up ((place 0 (members fields)).2 + (Z.of_nat (length (has_bits fields)) + 7) / 8) (struct_align fields).

(** The members of the structure with the relative pointers that follows it. *)
Definition relptr_fields : list field -> list nat := indices (fun f => is_array f || is_string f || is_fbb f).
Definition relptrs_size (fields : list field) : Z := 4 * Z.of_nat (length (relptr_fields fields)).

(** Access to the members of the structure at [mem + msg]; a [u32] member is a length or a
    number of items. *)
Definition get_member (fields : list field) (m : member) (mem : list Z) (msg : Z) : outcome (list Z) :=
  match offsetof fields m with Some (off, size) => peek (msg + off) size mem | None => Abort end.
Definition set_member (fields : list field) (m : member) (value : list Z) (wire : list Z) : outcome (list Z) :=
  match offsetof fields m with Some (off, _) => poke off value wire | None => Abort end.
Definition get_u32 (fields : list field) (m : member) (mem : list Z) (msg : Z) : outcome Z :=
  bytes ← get_member fields m mem msg; Ret (le bytes).
Definition set_u32 (fields : list field) (m : member) (n : Z) (wire : list Z) : outcome (list Z) :=
  set_member fields m (le_bytes 4 n) wire.
Definition get_has (fields : list field) (i : nat) (mem : list Z) (msg : Z) : outcome bool :=
  match has_bit_at fields i with
  | Some (off, bit) => byte ← peek (msg + off) 1 mem; Ret (Z.testbit (le byte) bit)
  | None => Abort
  end.
Definition set_has (fields : list field) (i : nat) (wire : list Z) : outcome (list Z) :=
  match has_bit_at fields i with
  | Some (off, bit) => byte ← peek off 1 wire; poke off [Z.setbit (le byte) bit] wire
  | None => Abort
  end.

(** ** Builders *)

(** In what form the items of an array of strings are given. *)
Inductive input_format := FORMAT_ARRAY | FORMAT_CSTRING_VIEW_ARRAY | FORMAT_CXX_STRING_ARRAY | FORMAT_CALLBACK.

(** What the pointer of a field points to: the memory of an array of scalars or of a string,
    another builder, or the items of an array, strings with their memory and, unless they are
    plain C strings, their length.  A scalar has no pointer. *)
Inductive pointer (B : Type) :=
| PNone
| PScalars (data : list Z)
| PString (value : option (list Z))
| PFbb (value : option B)
| PStrings (how : input_format) (items : list (list Z * Z))
| PFbbs (items : list B).
Arguments PNone {B}.
Arguments PScalars {B} data.
Arguments PString {B} value.
Arguments PFbb {B} value.
Arguments PStrings {B} how items.
Arguments PFbbs {B} items.

Definition pointer_map {A B} (f : A -> B) (p : pointer A) : pointer B :=
  match p with
  | PNone => PNone
  | PScalars data => PScalars data
  | PString value => PString value
  | PFbb value => PFbb (match value with Some b => Some (f b) | None => None end)
  | PStrings how items => PStrings how items
  | PFbbs items => PFbbs (map f items)
  end.

(** A builder: the part that is serialized as it is, and the pointers. *)
#[warnings="-register-all"] Inductive builder := mkBuilder (wire_ : list Z) (pointers_ : list (pointer builder)).
Definition wire (b : builder) : list Z := match b with mkBuilder w _ => w end.
Definition pointers (b : builder) : list (pointer builder) := match b with mkBuilder _ p => p end.

(** The tag is the first member of both forms. *)
Definition get_tag (m : list Z) (msg : Z) : outcome Z := peek_u32 msg m.

(** [init()] of message [tag]: the memory is zeroed, so all pointers are null. *)
Definition null_pointer (f : field) : pointer builder :=
  match quant f, ftype f with
  | ARRAY, SCALAR _ _ => PScalars []
  | ARRAY, STRING => PStrings FORMAT_ARRAY []
  | ARRAY, FBB => PFbbs []
  | _, SCALAR _ _ => PNone
  | _, STRING => PString None
  | _, FBB => PFbb None
  end.

Section Messages.
Context (msgs : schema).

Definition fields_of (tag : Z) : option (list field) := if 1 <=? tag then msgs !! Z.to_nat (tag - 1) else None.

Definition builder_init (tag : Z) : outcome builder :=
  match fields_of tag with
  | None => Abort
  | Some fields =>
      w ← set_u32 fields MTag tag (zeros (wire_size fields));
      Ret (mkBuilder w (null_pointer <$> fields))
  end.

(** *** Setters *)

(** All setters check the tag of the message, and change the wire structure or a pointer. *)
Definition update (tag : Z) (b : builder) (i : nat) (f : list field -> field -> list Z -> outcome (list Z))
    (p : option (pointer builder)) : outcome builder :=
  t ← get_tag (wire b) 0;
  _ ← assert (t =? tag);
  match fields_of tag with
  | None => Abort
  | Some fields =>
      match fields !! i with
      | None => Abort
      | Some fd =>
          w ← f fields fd (wire b);
          Ret (mkBuilder w (match p with Some p => <[i := p]> (pointers b) | None => pointers b end))
      end
  end.

(** Required or optional scalars; arrays of scalars. *)
Definition set_scalar (tag : Z) (i : nat) (value : list Z) (b : builder) : outcome builder :=
  update tag b i (fun fields fd w =>
    w ← set_member fields (MScalar i) value w;
    if bool_decide (quant fd = OPTIONAL) then set_has fields i w else Ret w) None.
Definition set_scalars (tag : Z) (i : nat) (values : list Z) (count : Z) (b : builder) : outcome builder :=
  update tag b i (fun fields _ w => set_u32 fields (MCount i) count w) (Some (PScalars values)).

(** Strings, with their length, or as C strings. *)
Definition set_string_with_length (tag : Z) (i : nat) (value : option (list Z)) (len : Z) (b : builder) : outcome builder :=
  update tag b i (fun fields _ w => set_u32 fields (MLen i) len w) (Some (PString value)).
Definition set_string (tag : Z) (i : nat) (value : option (list Z)) (b : builder) : outcome builder :=
  len ← match value with Some mem => strlen mem | None => Ret 0 end;
  set_string_with_length tag i value (u32 len) b.

(** Nested messages. *)
Definition set_fbb (tag : Z) (i : nat) (value : option builder) (b : builder) : outcome builder :=
  update tag b i (fun _ _ w => Ret w) (Some (PFbb value)).

(** Arrays of strings in all formats, and of nested messages from an array or a callback. *)
Definition set_strings (how : input_format) (tag : Z) (i : nat) (values : list (list Z * Z)) (count : Z) (b : builder) : outcome builder :=
  update tag b i (fun fields _ w => set_u32 fields (MCount i) count w) (Some (PStrings how values)).
Definition set_fbbs (tag : Z) (i : nat) (values : list builder) (count : Z) (b : builder) : outcome builder :=
  update tag b i (fun fields _ w => set_u32 fields (MCount i) count w) (Some (PFbbs values)).

(** An array of strings that ends with a null pointer is counted. *)
Fixpoint count_items {A} (values : list (option A)) : outcome Z :=
  match values with
  | [] => Abort
  | None :: _ => Ret 0
  | Some _ :: values => n ← count_items values; Ret (n + 1)
  end.
Definition set_strings_until_null (tag : Z) (i : nat) (values : option (list (option (list Z)))) (b : builder) : outcome builder :=
  count ← match values with Some values => count_items values | None => Ret 0 end;
  set_strings FORMAT_ARRAY tag i ((fun mem => (mem, 0)) <$> omap id (default [] values)) (u32 count) b.

(** *** Getters of a builder *)

(** The length of an item of an array of strings. *)
Definition item_len (how : input_format) (item : list Z * Z) : outcome Z :=
  match how with FORMAT_ARRAY => n ← strlen item.1; Ret (u32 n) | _ => Ret item.2 end.

(** The fields of the message at [mem + msg], whose tag is checked. *)
Definition checked (tag : Z) (mem : list Z) (msg : Z) : outcome (list field) :=
  t ← get_tag mem msg;
  _ ← assert (t =? tag);
  match fields_of tag with Some fields => Ret fields | None => Abort end.

(** What both forms have in common: scalars, lengths and numbers of items.  A scalar that is not
    set is [None]. *)
Definition get_scalar (tag : Z) (i : nat) (mem : list Z) (msg : Z) : outcome (list Z) :=
  fields ← checked tag mem msg;
  match fields !! i with
  | Some fd =>
      _ ← (if bool_decide (quant fd = OPTIONAL) then has ← get_has fields i mem msg; assert has else Ret tt);
      get_member fields (MScalar i) mem msg
  | None => Abort
  end.
Definition has_scalar (tag : Z) (i : nat) (mem : list Z) (msg : Z) : outcome bool :=
  fields ← checked tag mem msg; get_has fields i mem msg.
(** What [get_var_ptr()] points to, if it is not null. *)
Definition get_scalar_ptr (tag : Z) (i : nat) (mem : list Z) (msg : Z) : outcome (option (list Z)) :=
  fields ← checked tag mem msg;
  match fields !! i with
  | Some fd =>
      has ← (if bool_decide (quant fd = OPTIONAL) then get_has fields i mem msg else Ret true);
      if has : bool then v ← get_member fields (MScalar i) mem msg; Ret (Some v) else Ret None
  | None => Abort
  end.
Definition get_scalar_with_fallback (tag : Z) (i : nat) (fallback : list Z) (mem : list Z) (msg : Z) : outcome (list Z) :=
  match fields_of tag with
  | Some fields => has ← get_has fields i mem msg; if has : bool then get_member fields (MScalar i) mem msg else Ret fallback
  | None => Abort
  end.
Definition get_len (tag : Z) (i : nat) (mem : list Z) (msg : Z) : outcome Z :=
  fields ← checked tag mem msg; get_u32 fields (MLen i) mem msg.
Definition get_count (tag : Z) (i : nat) (mem : list Z) (msg : Z) : outcome Z :=
  fields ← checked tag mem msg; get_u32 fields (MCount i) mem msg.

(** The pointers of a builder. *)
Definition builder_pointer (tag : Z) (i : nat) (b : builder) : outcome (pointer builder) :=
  _ ← checked tag (wire b) 0;
  match pointers b !! i with Some p => Ret p | None => Abort end.
Definition builder_has (tag : Z) (i : nat) (b : builder) : outcome bool :=
  p ← builder_pointer tag i b;
  match p with
  | PString value => Ret (bool_decide (is_Some value))
  | PFbb value => Ret (match value with Some _ => true | None => false end)
  | _ => has_scalar tag i (wire b) 0
  end.
Definition builder_get_string_as_string (tag : Z) (i : nat) (b : builder) : outcome (list Z) :=
  p ← builder_pointer tag i b;
  match p with
  | PString (Some mem) => len ← get_len tag i (wire b) 0; peek 0 len mem
  | _ => Abort
  end.
Definition builder_get_fbb (tag : Z) (i : nat) (b : builder) : outcome (option builder) :=
  p ← builder_pointer tag i b;
  match p with PFbb value => Ret value | _ => Abort end.

(** One item of an array. *)
Definition in_range (tag : Z) (i : nat) (idx : Z) (mem : list Z) (msg : Z) : outcome unit :=
  count ← get_count tag i mem msg; assert (idx <? count).
Definition builder_get_scalar_at (tag : Z) (i : nat) (idx : Z) (b : builder) : outcome (list Z) :=
  _ ← in_range tag i idx (wire b) 0;
  p ← builder_pointer tag i b;
  match p, fields_of tag ≫= lookup i with
  | PScalars data, Some fd => peek (idx * sizeof fd) (sizeof fd) data
  | _, _ => Abort
  end.
Definition builder_get_string_with_len_at (tag : Z) (i : nat) (idx : Z) (b : builder) : outcome (list Z * Z) :=
  _ ← in_range tag i idx (wire b) 0;
  p ← builder_pointer tag i b;
  match p with
  | PStrings how items =>
      match items !! Z.to_nat idx with
      | Some item => len ← item_len how item; Ret (item.1, len)
      | None => Abort
      end
  | _ => Abort
  end.
Definition builder_get_fbb_at (tag : Z) (i : nat) (idx : Z) (b : builder) : outcome builder :=
  _ ← in_range tag i idx (wire b) 0;
  p ← builder_pointer tag i b;
  match p with
  | PFbbs items => match items !! Z.to_nat idx with Some item => Ret item | None => Abort end
  | _ => Abort
  end.

(** The items of an array one after the other. *)
Definition items_of {A} (count : Z) (at_ : Z -> outcome A) : outcome (list A) :=
  mapM (fun idx => at_ (Z.of_nat idx)) (seq 0 (Z.to_nat count)).

(** An array of strings as C++ strings, which are made from plain pointers: they end at the first
    NUL character. *)
Definition builder_get_string_at (tag : Z) (i : nat) (idx : Z) (b : builder) : outcome (list Z) :=
  _ ← in_range tag i idx (wire b) 0;
  p ← builder_pointer tag i b;
  match p with
  | PStrings _ items => match items !! Z.to_nat idx with Some item => Ret item.1 | None => Abort end
  | _ => Abort
  end.
Definition builder_get_strings_as_vector (tag : Z) (i : nat) (b : builder) : outcome (list (list Z)) :=
  n ← get_count tag i (wire b) 0;
  items_of n (fun idx => str ← builder_get_string_at tag i idx b; len ← strlen str; peek 0 len str).

(** *** Getters of the serialized form *)

(** [relptrs->var_relptr_] of the message at [mem + msg]. *)
Definition relptr_at (fields : list field) (i : nat) (msg : Z) : outcome Z :=
  match index_of i (relptr_fields fields) with
  | Some r => Ret (msg + wire_size fields + 4 * Z.of_nat r)
  | None => Abort
  end.
Definition relptr (tag : Z) (i : nat) (mem : list Z) (msg : Z) : outcome Z :=
  fields ← checked tag mem msg;
  at_ ← relptr_at fields i msg;
  peek_u32 at_ mem.

Definition serialized_has (tag : Z) (i : nat) (mem : list Z) (msg : Z) : outcome bool :=
  fields ← checked tag mem msg;
  match fields !! i with
  | Some fd => if is_scalar fd then get_has fields i mem msg else r ← relptr tag i mem msg; Ret (negb (r =? 0))
  | None => Abort
  end.
(** A required or optional string or nested message: its address. *)
Definition serialized_get (tag : Z) (i : nat) (mem : list Z) (msg : Z) : outcome (option Z) :=
  fields ← checked tag mem msg;
  r ← relptr tag i mem msg;
  if r =? 0 then
    match fields !! i with
    | Some fd => if bool_decide (quant fd = REQUIRED) then Abort else Ret None
    | None => Abort
    end
  else Ret (Some (msg + r)).
Definition serialized_get_string_as_string (tag : Z) (i : nat) (mem : list Z) (msg : Z) : outcome (list Z) :=
  p ← serialized_get tag i mem msg;
  match p with
  | Some p => len ← get_len tag i mem msg; peek p len mem
  | None => Abort
  end.

Definition serialized_get_scalar_at (tag : Z) (i : nat) (idx : Z) (mem : list Z) (msg : Z) : outcome (list Z) :=
  _ ← in_range tag i idx mem msg;
  r ← relptr tag i mem msg;
  match fields_of tag ≫= lookup i with
  | Some fd => peek (msg + r + idx * sizeof fd) (sizeof fd) mem
  | None => Abort
  end.
Definition serialized_get_string_at (tag : Z) (i : nat) (idx : Z) (mem : list Z) (msg : Z) : outcome Z :=
  _ ← in_range tag i idx mem msg;
  r ← relptr tag i mem msg;
  second ← peek_u32 (msg + r + 4 * (2 * idx)) mem;
  Ret (msg + second).
Definition serialized_get_len_at (tag : Z) (i : nat) (idx : Z) (mem : list Z) (msg : Z) : outcome Z :=
  _ ← in_range tag i idx mem msg;
  r ← relptr tag i mem msg;
  peek_u32 (msg + r + 4 * (2 * idx + 1)) mem.
Definition serialized_get_fbb_at (tag : Z) (i : nat) (idx : Z) (mem : list Z) (msg : Z) : outcome Z :=
  _ ← in_range tag i idx mem msg;
  r ← relptr tag i mem msg;
  second ← peek_u32 (msg + r + 4 * idx) mem;
  Ret (msg + second).

(** ** Measuring *)

Definition ADD_PADDING_LEN (offset : Z) : Z := Z.ldiff (u32 (offset + 7)) 7.

(** [for (idx = 0; idx < count; idx++)]. *)
Fixpoint loop {S} (n : nat) (idx : nat) (body : nat -> S -> outcome S) (s : S) : outcome S :=
  match n with O => Ret s | Datatypes.S n => s ← body idx s; loop n (Datatypes.S idx) body s end.
Definition for_count {S} (count : Z) (body : nat -> S -> outcome S) (s : S) : outcome S := loop (Z.to_nat count) 0 body s.
(** The fields some code is generated for. *)
Fixpoint for_fields {S} (l : list nat) (body : nat -> S -> outcome S) (s : S) : outcome S :=
  match l with [] => Ret s | i :: l => s ← body i s; for_fields l body s end.

(** Variable sized data is laid out by kind: arrays of scalars, strings, nested messages, arrays
    of strings, arrays of nested messages. *)
Definition order (fields : list field) : list nat :=
  indices (fun f => is_array f && is_scalar f) fields ++
  indices (fun f => negb (is_array f) && is_string f) fields ++
  indices (fun f => negb (is_array f) && is_fbb f) fields ++
  indices (fun f => is_array f && is_string f) fields ++
  indices (fun f => is_array f && is_fbb f) fields.

Definition item_at {A} (items : list A) (idx : nat) : outcome A := match items !! idx with Some x => Ret x | None => Abort end.

(** A nested message is measured by what it points to. *)
Definition measure_field (fields : list field) (w : list Z) (ps : list (pointer (outcome Z))) (i : nat) (len : Z) : outcome Z :=
  match ps !! i, fields !! i with
  | Some (PScalars _), Some fd =>
      count ← get_u32 fields (MCount i) w 0;
      Ret (ADD_PADDING_LEN (u32 (len + count * sizeof fd)))
  | Some (PString (Some _)), _ =>
      l ← get_u32 fields (MLen i) w 0;
      Ret (ADD_PADDING_LEN (u32 (len + u32 (l + 1))))
  | Some (PFbb (Some size)), _ => n ← size; Ret (u32 (len + n))
  | Some (PString None), _ | Some (PFbb None), _ => Ret len
  | Some (PStrings how items), _ =>
      count ← get_u32 fields (MCount i) w 0;
      for_count count (fun idx len =>
        item ← item_at items idx;
        l ← item_len how item;
        Ret (ADD_PADDING_LEN (u32 (len + u32 (l + 1)))))
        (ADD_PADDING_LEN (u32 (len + u32 (2 * count) * 4)))
  | Some (PFbbs sizes), _ =>
      count ← get_u32 fields (MCount i) w 0;
      for_count count (fun idx len => size ← item_at sizes idx; n ← size; Ret (u32 (len + n)))
        (ADD_PADDING_LEN (u32 (len + count * 4)))
  | _, _ => Abort
  end.
Definition measure_msg (w : list Z) (ps : list (pointer (outcome Z))) : outcome Z :=
  tag ← get_tag w 0;
  match fields_of tag with
  | None => Abort
  | Some fields =>
      len ← for_fields (order fields) (measure_field fields w ps) (ADD_PADDING_LEN (u32 (wire_size fields + relptrs_size fields)));
      Ret (ADD_PADDING_LEN len)
  end.

(** [builder_measure(msgbldr)]. *)
Fixpoint measure (b : builder) : outcome Z :=
  match b with mkBuilder w ps => measure_msg w (map (pointer_map measure) ps) end.

(** ** Serializing *)

Definition PAD (p offset : Z) (m : list Z) : outcome (Z * list Z) :=
  let len := 7 - Z.land (u32 (offset + 7)) 7 in
  m ← poke (p + offset) (zeros len) m;
  Ret (u32 (offset + len), m).

(** [memcpy(dst + offset, src, size)], after which the offset is advanced and padding is added. *)
Definition put (dst : Z) (src : list Z) (size : Z) (s : Z * list Z) : outcome (Z * list Z) :=
  let '(offset, m) := s in
  data ← peek 0 size src;
  m ← poke (dst + offset) data m;
  PAD dst (u32 (offset + size)) m.

(** Serializing to an address returns the size. *)
Abbreviation serializer := (Z -> list Z -> outcome (Z * list Z)).

Definition set_relptr (fields : list field) (i : nat) (dst value : Z) (m : list Z) : outcome (list Z) :=
  at_ ← relptr_at fields i dst;
  poke_u32 at_ value m.

(** The items of an array of strings, and of nested messages; [hops] is where the next offset is
    written. *)
Definition put_string (dst : Z) (how : input_format) (items : list (list Z * Z)) (idx : nat) (s : Z * (Z * list Z))
    : outcome (Z * (Z * list Z)) :=
  let '(hops, (offset, m)) := s in
  item ← item_at items idx;
  len ← item_len how item;
  m ← poke_u32 hops offset m;
  m ← poke_u32 (hops + 4) len m;
  s ← put dst item.1 (u32 (len + 1)) (offset, m);
  Ret (hops + 8, s).
Definition put_fbb (dst : Z) (items : list serializer) (idx : nat) (s : Z * (Z * list Z)) : outcome (Z * (Z * list Z)) :=
  let '(hops, (offset, m)) := s in
  m ← poke_u32 hops offset m;
  item ← item_at items idx;
  '(size, m) ← item (dst + offset) m;
  Ret (hops + 4, (u32 (offset + size), m)).

Definition serialize_field (fields : list field) (w : list Z) (ps : list (pointer serializer)) (dst : Z) (i : nat) (s : Z * list Z)
    : outcome (Z * list Z) :=
  let '(offset, m) := s in
  let null := m ← set_relptr fields i dst 0 m; Ret (offset, m) in
  match ps !! i, fields !! i with
  | Some (PScalars data), Some fd =>
      count ← get_u32 fields (MCount i) w 0;
      if 0 <? count then
        m ← set_relptr fields i dst offset m;
        put dst data (u32 (count * sizeof fd)) (offset, m)
      else null
  | Some (PString (Some str)), _ =>
      m ← set_relptr fields i dst offset m;
      len ← get_u32 fields (MLen i) w 0;
      put dst str (u32 (len + 1)) (offset, m)
  | Some (PFbb (Some item)), _ =>
      m ← set_relptr fields i dst offset m;
      '(size, m) ← item (dst + offset) m;
      Ret (u32 (offset + size), m)
  | Some (PString None), _ | Some (PFbb None), _ => null
  | Some (PStrings how items), _ =>
      count ← get_u32 fields (MCount i) w 0;
      if 0 <? count then
        m ← set_relptr fields i dst offset m;
        s ← PAD dst (u32 (offset + u32 (u32 (2 * count) * 4))) m;
        '(_, s) ← for_count count (put_string dst how items) (dst + offset, s);
        Ret s
      else null
  | Some (PFbbs items), _ =>
      count ← get_u32 fields (MCount i) w 0;
      if 0 <? count then
        m ← set_relptr fields i dst offset m;
        s ← PAD dst (u32 (offset + u32 (count * 4))) m;
        '(_, s) ← for_count count (put_fbb dst items) (dst + offset, s);
        Ret s
      else null
  | _, _ => Abort
  end.

Definition serialize_msg (w : list Z) (ps : list (pointer serializer)) (dst : Z) (m : list Z) : outcome (Z * list Z) :=
  tag ← get_tag w 0;
  match fields_of tag with
  | None => Abort
  | Some fields =>
      m ← poke dst w m;
      m ← poke (dst + wire_size fields) (zeros (relptrs_size fields)) m;
      s ← PAD dst (u32 (u32 (wire_size fields) + relptrs_size fields)) m;
      '(offset, m) ← for_fields (order fields) (serialize_field fields w ps dst) s;
      PAD dst offset m
  end.

(** [builder_serialize(msgbldr, dst)]. *)
Fixpoint serialize (b : builder) : serializer :=
  match b with mkBuilder w ps => serialize_msg w (map (pointer_map serialize) ps) end.

(** ** What a message says *)

(** The contents of a message, as a traversal with the getters finds it (like the one that prints
    it, [debug_indent()]). *)
Inductive value :=
| VScalar (v : option (list Z))
| VScalars (l : list (list Z))
| VString (v : option (list Z))
| VFbb (v : option message)
| VStrings (l : list (list Z))
| VFbbs (l : list message)
with message := mkMessage (tag : Z) (values : list value).

(** A traversal, for each of the forms; [nested] follows a pointer to a nested message. *)
Definition value_of {P} (fd : field) (has : outcome bool) (scalar : outcome (list Z)) (count : outcome Z) (scalar_at : Z -> outcome (list Z))
    (str : outcome (list Z)) (fbb : outcome (option P)) (str_at : Z -> outcome (list Z)) (fbb_at : Z -> outcome P)
    (nested : P -> outcome message) : outcome value :=
  let present : outcome bool := if bool_decide (quant fd = OPTIONAL) then has else Ret true in
  match quant fd, ftype fd with
  | ARRAY, SCALAR _ _ => n ← count; l ← items_of n scalar_at; Ret (VScalars l)
  | ARRAY, STRING => n ← count; l ← items_of n str_at; Ret (VStrings l)
  | ARRAY, FBB => n ← count; l ← items_of n (fun idx => p ← fbb_at idx; nested p); Ret (VFbbs l)
  | _, SCALAR _ _ => b ← present; if b : bool then v ← scalar; Ret (VScalar (Some v)) else Ret (VScalar None)
  | _, STRING => b ← present; if b : bool then v ← str; Ret (VString (Some v)) else Ret (VString None)
  | _, FBB =>
      b ← present;
      if b : bool then
        p ← fbb;
        match p with Some p => v ← nested p; Ret (VFbb (Some v)) | None => Abort end
      else Ret (VFbb None)
  end.

Definition message_of (value_at : Z -> nat -> field -> outcome value) (tag : outcome Z) : outcome message :=
  tag ← tag;
  match fields_of tag with
  | None => Abort
  | Some fields => l ← mapM id (imap (value_at tag) fields); Ret (mkMessage tag l)
  end.

Definition builder_field (nested : builder -> outcome message) (b : builder) (tag : Z) (i : nat) (fd : field) : outcome value :=
  value_of fd (builder_has tag i b) (get_scalar tag i (wire b) 0) (get_count tag i (wire b) 0)
    (fun idx => builder_get_scalar_at tag i idx b) (builder_get_string_as_string tag i b) (builder_get_fbb tag i b)
    (fun idx => '(str, len) ← builder_get_string_with_len_at tag i idx b; peek 0 len str)
    (fun idx => builder_get_fbb_at tag i idx b) nested.
Fixpoint builder_value (fuel : nat) (b : builder) : outcome message :=
  match fuel with
  | O => OutOfFuel
  | S fuel => message_of (builder_field (builder_value fuel) b) (get_tag (wire b) 0)
  end.

Definition serialized_field (nested : Z -> outcome message) (mem : list Z) (msg : Z) (tag : Z) (i : nat) (fd : field) : outcome value :=
  value_of fd (serialized_has tag i mem msg) (get_scalar tag i mem msg) (get_count tag i mem msg)
    (fun idx => serialized_get_scalar_at tag i idx mem msg) (serialized_get_string_as_string tag i mem msg)
    (serialized_get tag i mem msg)
    (fun idx => str ← serialized_get_string_at tag i idx mem msg; len ← serialized_get_len_at tag i idx mem msg; peek str len mem)
    (fun idx => serialized_get_fbb_at tag i idx mem msg) nested.
Fixpoint serialized_value (fuel : nat) (mem : list Z) (msg : Z) : outcome message :=
  match fuel with
  | O => OutOfFuel
  | S fuel => message_of (serialized_field (serialized_value fuel mem) mem msg) (get_tag mem msg)
  end.

End Messages.
End Fbb.
