(* ===== verification/FbbFormat.v ===== *)
(** The serialized form of messages: serializing fills exactly the measured memory with an image
    of the builder, and the getters find in it what they find in the builder. *)

From Stdlib Require Import ZArith Lia Ascii.
From stdpp Require Import base list strings option gmap.
From S2P Require Import Prelude Framing Fbb.

Local Open Scope Z_scope.

Module FbbFormat.
Import Frame Fbb.

Abbreviation zlen l := (Z.of_nat (length l)).

(** ** Memory *)

Lemma peek_mid a b c : peek (zlen a) (zlen b) (a ++ b ++ c) = Ret b.
Proof.
  unfold peek. rewrite !length_app, !Nat2Z.id.
  replace (_ && _ && _) with true by (symmetry; rewrite !andb_true_iff, !Z.leb_le; lia).
  by rewrite drop_app_length, take_app_length.
Qed.

Lemma peek_app off len a b c :
  0 <= off -> 0 <= len -> off + len <= zlen b -> peek (zlen a + off) len (a ++ b ++ c) = peek off len b.
Proof.
  intros Ho Hl Hb. unfold peek. rewrite !length_app.
  do 2 (replace (_ && _ && _) with true by (symmetry; rewrite !andb_true_iff, !Z.leb_le; lia)). f_equal.
  rewrite Z2Nat.inj_add, Nat2Z.id by lia. rewrite <- drop_drop, drop_app_length, drop_app_le, take_app_le; [done| |]; rewrite ?length_drop; lia.
Qed.

Lemma poke_mid a b c d : length d = length b -> poke (zlen a) d (a ++ b ++ c) = Ret (a ++ d ++ c).
Proof.
  intros Hd. unfold poke. rewrite !length_app, Nat2Z.id.
  replace (_ && _) with true by (symmetry; rewrite andb_true_iff, !Z.leb_le; lia).
  rewrite take_app_length, Hd, <- drop_drop, drop_app_length, drop_app_length. done.
Qed.

Lemma peek_u32_mid a n c : 0 <= n < 2 ^ 32 -> peek_u32 (zlen a) (a ++ le_bytes 4 n ++ c) = Ret n.
Proof.
  intros Hn. unfold peek_u32. pose proof (peek_mid a (le_bytes 4 n) c) as E. rewrite length_le_bytes in E.
  change (Z.of_nat 4) with 4 in E. rewrite E. cbn [mbind outcome_bind]. by rewrite le_le_bytes.
Qed.

Lemma poke_u32_mid a b n c : length b = 4%nat -> poke_u32 (zlen a) n (a ++ b ++ c) = Ret (a ++ le_bytes 4 n ++ c).
Proof. intros Hb. apply poke_mid. by rewrite length_le_bytes. Qed.

Lemma split_at (n : nat) (l : list Z) : (n <= length l)%nat -> exists b c, l = b ++ c /\ length b = n /\ drop n l = c.
Proof. intros Hn. exists (take n l), (drop n l). rewrite take_drop, length_take. split_and!; [done|lia|done]. Qed.

Lemma length_zeros n : 0 <= n -> zlen (zeros n) = n.
Proof. intros Hn. unfold zeros. rewrite length_replicate. lia. Qed.

(** ** Padding *)

Definition pad8 (l : list Z) : list Z := l ++ zeros ((- zlen l) mod 8).

Lemma length_pad8 l : zlen (pad8 l) = zlen l + (- zlen l) mod 8.
Proof. unfold pad8. rewrite length_app, Nat2Z.inj_add, length_zeros; [done|]. apply Z.mod_pos_bound. lia. Qed.
Lemma pad8_mod l : zlen (pad8 l) mod 8 = 0.
Proof. rewrite length_pad8. dlia. Qed.
Lemma pad8_aligned l : zlen l mod 8 = 0 -> pad8 l = l.
Proof. intros H. unfold pad8. replace ((- zlen l) mod 8) with 0 by dlia. apply app_nil_r. Qed.

Lemma add_padding_correct n : 0 <= n -> n + (- n) mod 8 < 2 ^ 32 -> ADD_PADDING_LEN n = n + (- n) mod 8.
Proof.
  intros Hn Hb. unfold ADD_PADDING_LEN, u32. rewrite Z.mod_small by dlia. change 7 with (Z.ones 3) at 2.
  rewrite Z.ldiff_ones_r by lia. rewrite Z.shiftl_mul_pow2, Z.shiftr_div_pow2 by lia. change (2 ^ 3) with 8. dlia.
Qed.
Lemma add_padding_aligned n : 0 <= n < 2 ^ 32 -> n mod 8 = 0 -> ADD_PADDING_LEN n = n.
Proof. intros Hn Hm. rewrite add_padding_correct; dlia. Qed.

Lemma pad_correct p off a rest :
  0 <= off -> off + (- off) mod 8 < 2 ^ 32 -> zlen a = p + off -> (- off) mod 8 <= zlen rest ->
  PAD p off (a ++ rest) = Ret (off + (- off) mod 8, a ++ zeros ((- off) mod 8) ++ drop (Z.to_nat ((- off) mod 8)) rest).
Proof.
  intros Ho Hb Ha Hr. unfold PAD, u32.
  assert (E : 7 - Z.land ((off + 7) mod 2 ^ 32) 7 = (- off) mod 8).
  { change 7 with (Z.ones 3) at 3. rewrite Z.land_ones by lia. change (2 ^ 3) with 8. change (2 ^ 32) with (8 * 536870912). dlia. }
  rewrite E. pose proof (Z.mod_pos_bound (- off) 8 ltac:(lia)) as Hm.
  destruct (split_at (Z.to_nat ((- off) mod 8)) rest) as (b & c & E' & Hlb & Hc); [lia|]. rewrite Hc. subst rest. rewrite <- Ha.
  rewrite poke_mid by (unfold zeros; by rewrite length_replicate). cbn [mbind outcome_bind]. rewrite (Z.mod_small (off + _)) by lia. done.
Qed.
Lemma pad_aligned p off a rest :
  0 <= off < 2 ^ 32 -> off mod 8 = 0 -> zlen a = p + off -> PAD p off (a ++ rest) = Ret (off, a ++ rest).
Proof. intros Ho Hm Ha. assert (E : (- off) mod 8 = 0) by dlia. rewrite pad_correct; rewrite ?E; [by rewrite Z.add_0_r|lia..]. Qed.

(** Data is put behind what is there, with padding. *)
Lemma put_correct dst src size off a rest :
  let blk := pad8 (take (Z.to_nat size) src) in
  0 <= size <= zlen src -> 0 <= off -> off mod 8 = 0 -> off + zlen blk < 2 ^ 32 -> zlen a = dst + off -> zlen blk <= zlen rest ->
  put dst src size (off, a ++ rest) = Ret (off + zlen blk, a ++ blk ++ drop (length blk) rest).
Proof.
  intros blk Hs Ho Hm Hb Ha Hr. unfold put.
  assert (Hd : zlen (take (Z.to_nat size) src) = size) by (rewrite length_take; lia).
  assert (Hlen : zlen blk = size + (- size) mod 8) by (unfold blk; rewrite length_pad8, Hd; done).
  pose proof (Z.mod_pos_bound (- size) 8 ltac:(lia)) as Hp.
  replace (peek 0 size src) with (Ret (take (Z.to_nat size) src)).
  2: { rewrite <- (take_drop (Z.to_nat size) src) at 2. pose proof (peek_mid [] (take (Z.to_nat size) src) (drop (Z.to_nat size) src)) as E.
       cbn [length app] in E. by rewrite Hd in E. }
  cbn [mbind outcome_bind]. destruct (split_at (Z.to_nat size) rest) as (b & c & -> & Hlb & Hc); [lia|]. rewrite <- Ha.
  rewrite poke_mid by (rewrite length_take; lia). cbn [mbind outcome_bind]. unfold u32. rewrite Z.mod_small by lia.
  assert (Em : (- (off + size)) mod 8 = (- size) mod 8) by dlia. rewrite length_app in Hr.
  rewrite app_assoc, pad_correct; rewrite ?Em; [|lia..|rewrite length_app; lia|lia].
  rewrite Hlen. f_equal. f_equal; [lia|]. unfold blk, pad8. rewrite Hd, <- !app_assoc. do 3 f_equal.
  rewrite length_app, <- drop_drop. rewrite drop_app_length' by (rewrite length_take; lia). f_equal.
  unfold zeros. by rewrite length_replicate.
Qed.

(** ** The image of a builder *)

Definition u32s (l : list Z) : list Z := concat (le_bytes 4 <$> l).

Lemma u32s_app l k : u32s (l ++ k) = u32s l ++ u32s k.
Proof. unfold u32s. by rewrite fmap_app, concat_app. Qed.
Lemma u32s_cons n l : u32s (n :: l) = le_bytes 4 n ++ u32s l.
Proof. done. Qed.
Lemma length_u32s l : zlen (u32s l) = 4 * zlen l.
Proof. induction l as [|n l IH]; [done|]. rewrite u32s_cons, length_app, length_le_bytes. cbn [length]. lia. Qed.

(** Where consecutive pieces of data start. *)
Fixpoint offsets (start : Z) (l : list (list Z)) : list Z :=
  match l with [] => [] | b :: l => start :: offsets (start + zlen b) l end.
Lemma length_offsets start l : length (offsets start l) = length l.
Proof. revert start. induction l as [|b l IH]; intros start; cbn; [done|]. by rewrite IH. Qed.

Definition ret_or {A} (d : A) (o : outcome A) : A := match o with Ret a => a | _ => d end.
Definition count_of (fields : list field) (w : list Z) (i : nat) : Z := ret_or 0 (get_u32 fields (MCount i) w 0).
Definition len_of (fields : list field) (w : list Z) (i : nat) : Z := ret_or 0 (get_u32 fields (MLen i) w 0).
Definition item_size (how : input_format) (item : list Z * Z) : Z := ret_or 0 (item_len how item).

Definition string_blk (how : input_format) (item : list Z * Z) : list Z := pad8 (take (Z.to_nat (item_size how item + 1)) item.1).
Definition string_hops (off : Z) (how : input_format) (l : list (list Z * Z)) : list Z :=
  concat (zip_with (fun o n => [o; n]) (offsets off (string_blk how <$> l)) (item_size how <$> l)).

(** The data of a field that starts at an offset; none if it is null or empty. *)
Definition block (fields : list field) (w : list Z) (i : nat) (q : pointer (list Z)) (off : Z) : option (list Z) :=
  let count := count_of fields w i in
  match q, fields !! i with
  | PScalars data, Some fd => if 0 <? count then Some (pad8 (take (Z.to_nat (count * sizeof fd)) data)) else None
  | PString (Some mem), _ => Some (pad8 (take (Z.to_nat (len_of fields w i + 1)) mem))
  | PFbb (Some img), _ => Some img
  | PStrings how items, _ =>
      let l := take (Z.to_nat count) items in
      if 0 <? count then Some (u32s (string_hops (off + 8 * count) how l) ++ concat (string_blk how <$> l)) else None
  | PFbbs items, _ =>
      let l := take (Z.to_nat count) items in
      if 0 <? count then Some (pad8 (u32s (offsets (off + 4 * count + (- (4 * count)) mod 8) l)) ++ concat l) else None
  | _, _ => None
  end.

(** The relative pointers and the data so far. *)
Definition rel_index (fields : list field) (i : nat) : nat := default 0%nat (index_of i (relptr_fields fields)).
Definition data_start (fields : list field) : Z := wire_size fields + relptrs_size fields.
Definition image_step (fields : list field) (w : list Z) (qs : list (pointer (list Z))) (s : list Z * list Z) (i : nat) : list Z * list Z :=
  let '(rels, out) := s in
  let off := data_start fields + zlen out in
  match qs !! i ≫= fun q => block fields w i q off with
  | Some blk => (<[rel_index fields i := off]> rels, out ++ blk)
  | None => (<[rel_index fields i := 0]> rels, out)
  end.
Definition image_init (fields : list field) : list Z * list Z :=
  (replicate (length (relptr_fields fields)) 0, zeros ((- data_start fields) mod 8)).

Section Format.
Context (msgs : schema).

Definition image_msg (w : list Z) (qs : list (pointer (list Z))) : list Z :=
  match get_tag w 0 with
  | Ret tag =>
      match fields_of msgs tag with
      | Some fields => let '(rels, out) := foldl (image_step fields w qs) (image_init fields) (order fields) in w ++ u32s rels ++ out
      | None => []
      end
  | _ => []
  end.
Fixpoint image (b : builder) : list Z :=
  match b with mkBuilder w ps => image_msg w (map (pointer_map image) ps) end.

(** ** Builders that can be serialized *)

Definition subs (p : pointer builder) : list builder :=
  match p with PFbb (Some b) => [b] | PFbbs items => items | _ => [] end.

Definition item_ok (how : input_format) (item : list Z * Z) : Prop :=
  exists len, item_len how item = Ret len /\ 0 <= len < zlen item.1.

(** What is needed of one field: required fields are set, and the lengths and numbers of items are
    those of the memory that is pointed to. *)
Definition wf_pointer (fields : list field) (w : list Z) (i : nat) (fd : field) (p : pointer builder) : Prop :=
  match quant fd, ftype fd, p with
  | ARRAY, SCALAR size _, PScalars data =>
      exists count, get_u32 fields (MCount i) w 0 = Ret count /\ 0 <= count /\ 0 < size /\ count * size <= zlen data
  | ARRAY, STRING, PStrings how items =>
      exists count, get_u32 fields (MCount i) w 0 = Ret count /\ 0 <= count <= zlen items /\ Forall (item_ok how) items
  | ARRAY, FBB, PFbbs items => exists count, get_u32 fields (MCount i) w 0 = Ret count /\ 0 <= count <= zlen items
  | ARRAY, _, _ => False
  | _, SCALAR _ _, PNone =>
      (exists v, get_member fields (MScalar i) w 0 = Ret v) /\ (quant fd = OPTIONAL -> exists b, get_has fields i w 0 = Ret b)
  | q, STRING, PString v =>
      (q = REQUIRED -> v <> None) /\
      exists len, get_u32 fields (MLen i) w 0 = Ret len /\ forall mem, v = Some mem -> 0 <= len < zlen mem
  | q, FBB, PFbb v => q = REQUIRED -> v <> None
  | _, _, _ => False
  end.

Inductive wf : builder -> Prop :=
| wf_intro w ps tag fields :
    get_tag w 0 = Ret tag -> fields_of msgs tag = Some fields -> zlen w = wire_size fields -> length ps = length fields ->
    (forall i fd p, fields !! i = Some fd -> ps !! i = Some p -> wf_pointer fields w i fd p) ->
    (forall p b, p ∈ ps -> b ∈ subs p -> wf b) ->
    wf (mkBuilder w ps).

(** ** The order of the fields *)

Lemma elem_of_indices p fields i : i ∈ indices p fields <-> exists fd, fields !! i = Some fd /\ p fd = true.
Proof.
  unfold indices. rewrite list_elem_of_In, in_concat. setoid_rewrite <- list_elem_of_In. split.
  - intros (l & Hl & Hi). apply elem_of_lookup_imap in Hl as (j & fd & -> & Hf).
    destruct (p fd) eqn:Hp; [|by apply elem_of_nil in Hi]. apply list_elem_of_singleton in Hi as ->. by exists fd.
  - intros (fd & Hf & Hp). exists [i]. split; [|by left]. apply elem_of_lookup_imap. exists i, fd. by rewrite Hp.
Qed.

Lemma imap_filter_NoDup (p : field -> bool) fields (g : nat -> nat) :
  (forall i j, g i = g j -> i = j) -> NoDup (concat (imap (fun i f => if p f then [g i] else []) fields)).
Proof.
  revert g. induction fields as [|f fields IH]; intros g Hg; cbn [imap concat]; [constructor|].
  assert (IH' : NoDup (concat (imap (fun i f => if p f then [g (S i)] else []) fields))) by (apply (IH (fun i => g (S i))); intros i j E%Hg; lia).
  destruct (p f); [|done]. apply list.NoDup_app. split; [apply NoDup_singleton|]. split; [|done]. intros x ->%list_elem_of_singleton.
  rewrite list_elem_of_In, in_concat. intros (l & Hl & Hi). apply list_elem_of_In in Hl, Hi.
  apply elem_of_lookup_imap in Hl as (j & fd & -> & _). cbn in Hi. destruct (p fd); [|by apply elem_of_nil in Hi].
  apply list_elem_of_singleton in Hi. apply Hg in Hi. done.
Qed.
Lemma NoDup_indices p fields : NoDup (indices p fields).
Proof. by apply (imap_filter_NoDup p fields id). Qed.

Lemma NoDup_order fields : NoDup (order fields).
Proof.
  unfold order. rewrite !list.NoDup_app. split_and!; try apply NoDup_indices; intros i; rewrite ?elem_of_app, !elem_of_indices;
    intros (fd & Hf & Hp) Hq; repeat destruct Hq as [Hq|Hq]; destruct Hq as (fd' & Hf' & Hp'); rewrite Hf in Hf'; injection Hf' as <-;
    destruct (is_array fd); cbn in *; try done; unfold is_scalar, is_string, is_fbb in *; destruct (ftype fd); try done.
Qed.

Lemma elem_of_order fields i : i ∈ order fields <-> i ∈ relptr_fields fields.
Proof.
  unfold order, relptr_fields. rewrite !elem_of_app, !elem_of_indices. split.
  - intros Hi. repeat destruct Hi as [Hi|Hi]; destruct Hi as (fd & Hf & Hp); exists fd; (split; [done|]);
      destruct (is_array fd); cbn in *; try done; rewrite Hp; by rewrite ?orb_true_r.
  - intros (fd & Hf & Hp). unfold is_array, is_scalar, is_string, is_fbb in *.
    destruct (quant fd) eqn:Eq, (ftype fd) eqn:Et; cbn in Hp; try done;
      repeat first [by left; exists fd; rewrite Eq, Et|by exists fd; rewrite Eq, Et|right].
Qed.

Lemma index_of_elem i l : i ∈ l -> exists r, index_of i l = Some r /\ l !! r = Some i.
Proof.
  induction l as [|j l IH]; intros Hi; [by apply elem_of_nil in Hi|]. cbn. destruct (Nat.eqb_spec i j) as [->|Hne]; [by exists O|].
  apply elem_of_cons in Hi as [->|Hi]; [done|]. destruct (IH Hi) as (r & -> & Hr). by exists (S r).
Qed.

Lemma rel_index_spec fields i : i ∈ order fields ->
  index_of i (relptr_fields fields) = Some (rel_index fields i) /\ relptr_fields fields !! rel_index fields i = Some i.
Proof.
  intros Hi%elem_of_order. destruct (index_of_elem _ _ Hi) as (r & E & Hr). unfold rel_index. by rewrite E.
Qed.
Lemma rel_index_lt fields i : i ∈ order fields -> (rel_index fields i < length (relptr_fields fields))%nat.
Proof. intros [_ H]%rel_index_spec. by apply lookup_lt_Some in H. Qed.
Lemma rel_index_inj fields i j : i ∈ order fields -> j ∈ order fields -> rel_index fields i = rel_index fields j -> i = j.
Proof. intros [_ Hi]%rel_index_spec [_ Hj]%rel_index_spec E. rewrite E in Hi. congruence. Qed.

(** ** Writing *)

Lemma set_relptr_correct fields i dst v pre w rels rest :
  i ∈ order fields -> zlen pre = dst -> zlen w = wire_size fields -> length rels = length (relptr_fields fields) ->
  set_relptr fields i dst v (pre ++ w ++ u32s rels ++ rest) = Ret (pre ++ w ++ u32s (<[rel_index fields i := v]> rels) ++ rest).
Proof.
  intros Hi Hpre Hw Hr. unfold set_relptr, relptr_at. rewrite (proj1 (rel_index_spec _ _ Hi)). cbn [mbind outcome_bind].
  pose proof (rel_index_lt _ _ Hi) as Hlt. rewrite <- Hr in Hlt. set (r := rel_index fields i) in *.
  rewrite insert_take_drop by done. destruct (lookup_lt_is_Some_2 _ _ Hlt) as [x Hx].
  rewrite <- (take_drop_middle rels r x Hx) at 1. rewrite !u32s_app, !u32s_cons.
  assert (L : zlen (pre ++ w ++ u32s (take r rels)) = dst + wire_size fields + 4 * Z.of_nat r).
  { rewrite !length_app, !Nat2Z.inj_add, length_u32s, length_take. lia. }
  replace (pre ++ w ++ (u32s (take r rels) ++ le_bytes 4 x ++ u32s (drop (S r) rels)) ++ rest)
    with ((pre ++ w ++ u32s (take r rels)) ++ le_bytes 4 x ++ (u32s (drop (S r) rels) ++ rest)) by (by rewrite <- !app_assoc).
  rewrite <- L, poke_u32_mid by apply length_le_bytes. by rewrite <- !app_assoc.
Qed.

Lemma item_at_mid {A} (before : list A) x after : item_at (before ++ x :: after) (length before) = Ret x.
Proof. unfold item_at. by rewrite list_lookup_middle. Qed.

Lemma item_at_map {A B} (f : A -> B) before x after : item_at (map f (before ++ x :: after)) (length before) = Ret (f x).
Proof. rewrite map_app, <- (length_map f before). apply item_at_mid. Qed.

Lemma string_hops_cons off how item l :
  string_hops off how (item :: l) = [off; item_size how item] ++ string_hops (off + zlen (string_blk how item)) how l.
Proof. done. Qed.
Lemma length_string_hops off how l : zlen (string_hops off how l) = 2 * zlen l.
Proof.
  revert off. induction l as [|item l IH]; intros off; [done|]. rewrite string_hops_cons, length_app, Nat2Z.inj_add, IH. cbn [length]. lia.
Qed.

Lemma string_blk_size how item : item_ok how item -> item_size how item + 1 <= zlen (string_blk how item).
Proof.
  intros (len & E & Hl). unfold string_blk, item_size. rewrite E. cbn [ret_or]. rewrite length_pad8, length_take.
  pose proof (Z.mod_pos_bound (- Z.of_nat (Z.to_nat (len + 1) `min` length item.1)) 8 ltac:(lia)). lia.
Qed.

Lemma concat_zlen_cons (b : list Z) l : zlen (concat (b :: l)) = zlen b + zlen (concat l).
Proof. cbn [concat]. rewrite length_app. lia. Qed.

(** One item of an array of strings: its offset and length go to [h], the string behind
    everything. *)
Lemma put_string_correct dst how items idx item a h hr mid rest off :
  items !! idx = Some item -> item_ok how item -> length h = 8%nat -> zlen (a ++ h ++ hr ++ mid) = dst + off -> 0 <= off -> off mod 8 = 0 ->
  off + zlen (string_blk how item) < 2 ^ 32 -> zlen (string_blk how item) <= zlen rest ->
  put_string dst how items idx (zlen a, (off, a ++ h ++ hr ++ mid ++ rest)) =
  Ret (zlen a + 8, (off + zlen (string_blk how item),
    a ++ u32s [off; item_size how item] ++ hr ++ mid ++ string_blk how item ++ drop (length (string_blk how item)) rest)).
Proof.
  intros Hit Hi Hh Hlen Ho Hm Hb Hr. pose proof Hi as (len & El & Hlen'). pose proof (string_blk_size _ _ Hi) as Hsz.
  assert (Es : item_size how item = len) by (unfold item_size; by rewrite El).
  assert (Eu : u32 (len + 1) = len + 1) by (unfold u32; apply Z.mod_small; lia).
  destruct (split_at 4 h) as (h1 & h2 & -> & Hh1 & _); [lia|]. rewrite length_app in Hh.
  unfold put_string, item_at. rewrite Hit. cbn [mbind outcome_bind]. rewrite El. cbn [mbind outcome_bind].
  rewrite <- !app_assoc, poke_u32_mid by done. cbn [mbind outcome_bind].
  replace (zlen a + 4) with (zlen (a ++ le_bytes 4 off)) by (rewrite length_app, length_le_bytes; lia).
  rewrite app_assoc, poke_u32_mid by lia. cbn [mbind outcome_bind].
  replace ((a ++ le_bytes 4 off) ++ le_bytes 4 len ++ hr ++ mid ++ rest)
    with ((a ++ le_bytes 4 off ++ le_bytes 4 len ++ hr ++ mid) ++ rest) by (by rewrite <- !app_assoc).
  rewrite Eu, put_correct; rewrite <- ?Es; fold (string_blk how item);
    [|lia..|revert Hlen; rewrite !length_app, !length_le_bytes; lia|lia].
  cbn [mbind outcome_bind]. unfold u32s. cbn [fmap list_fmap concat]. by rewrite app_nil_r, <- !app_assoc.
Qed.

Lemma string_blk_mod how item : zlen (string_blk how item) mod 8 = 0.
Proof. apply pad8_mod. Qed.

Lemma put_strings_correct dst how l : forall before after a hr mid rest off,
  Forall (item_ok how) l -> zlen hr = 8 * zlen l -> zlen (a ++ hr ++ mid) = dst + off -> 0 <= off -> off mod 8 = 0 ->
  off + zlen (concat (string_blk how <$> l)) < 2 ^ 32 -> zlen (concat (string_blk how <$> l)) <= zlen rest ->
  loop (length l) (length before) (put_string dst how (before ++ l ++ after)) (zlen a, (off, a ++ hr ++ mid ++ rest)) =
  Ret (zlen a + 8 * zlen l, (off + zlen (concat (string_blk how <$> l)),
    a ++ u32s (string_hops off how l) ++ mid ++ concat (string_blk how <$> l) ++ drop (length (concat (string_blk how <$> l))) rest)).
Proof.
  induction l as [|item l IH]; intros before after a hr mid rest off Hok Hhr Hlen Ho Hm Hb Hr.
  { destruct hr; [|cbn in Hhr; lia]. cbn. by rewrite !Z.add_0_r. }
  cbn [loop length]. cbn [fmap list_fmap] in Hb, Hr |- *. rewrite concat_zlen_cons in Hb, Hr. apply Forall_cons in Hok as [Hi Hok].
  destruct (split_at 8 hr) as (h & hr' & -> & Hh & _); [cbn [length] in Hhr; lia|].
  rewrite <- !app_assoc in Hlen |- *. rewrite (put_string_correct _ _ _ _ item); [|by apply list_lookup_middle|done..|lia|lia].
  change ((item :: l) ++ after) with (item :: l ++ after). cbn [mbind outcome_bind]. pose proof (string_blk_mod how item) as Hbm.
  set (a' := a ++ u32s [off; item_size how item]).
  assert (La : zlen a' = zlen a + 8) by (unfold a'; rewrite length_app, Nat2Z.inj_add, length_u32s; cbn [length]; lia).
  specialize (IH (before ++ [item]) after a' hr' (mid ++ string_blk how item) (drop (length (string_blk how item)) rest)
    (off + zlen (string_blk how item)) Hok).
  replace (length (before ++ [item])) with (S (length before)) in IH by (rewrite length_app; cbn; lia). replace ((before ++ [item]) ++ l ++ after) with (before ++ item :: l ++ after) in IH by (by rewrite <- app_assoc).
  replace (a' ++ hr' ++ (mid ++ string_blk how item) ++ drop (length (string_blk how item)) rest)
    with (a ++ u32s [off; item_size how item] ++ hr' ++ mid ++ string_blk how item ++ drop (length (string_blk how item)) rest) in IH
    by (unfold a'; by rewrite <- !app_assoc).
  rewrite length_app in Hhr. cbn [length] in Hhr. rewrite <- La, IH; clear IH.
  - f_equal. f_equal; [lia|]. f_equal; [rewrite concat_zlen_cons; lia|].
    rewrite string_hops_cons, u32s_app. unfold a'. cbn [concat]. by rewrite <- !app_assoc, drop_drop, length_app.
  - lia.
  - revert Hlen. clearbody a'. rewrite !length_app. lia.
  - lia.
  - by rewrite Z.add_mod, Hm, Hbm by lia.
  - lia.
  - rewrite length_drop. lia.
Qed.

(** What is proved of nested messages first. *)
Definition ser_ok (b : builder) : Prop :=
  zlen (image b) mod 8 = 0 /\
  forall pre old post, length old = length (image b) -> zlen (image b) < 2 ^ 32 ->
    serialize msgs b (zlen pre) (pre ++ old ++ post) = Ret (zlen (image b), pre ++ image b ++ post).

(** Serializing a nested message behind everything. *)
Lemma nested_correct dst b off a rest :
  ser_ok b -> zlen a = dst + off -> 0 <= off -> off + zlen (image b) < 2 ^ 32 -> zlen (image b) <= zlen rest ->
  serialize msgs b (dst + off) (a ++ rest) = Ret (zlen (image b), a ++ image b ++ drop (length (image b)) rest).
Proof.
  intros [_ Hs] Ha Ho Hb Hr. destruct (split_at (length (image b)) rest) as (old & post & -> & Ho' & ->); [lia|].
  rewrite <- Ha. apply Hs; [done|lia].
Qed.

Lemma put_fbb_correct dst items idx b a h hr mid rest off :
  items !! idx = Some b -> ser_ok b -> length h = 4%nat -> zlen (a ++ h ++ hr ++ mid) = dst + off -> 0 <= off ->
  off + zlen (image b) < 2 ^ 32 -> zlen (image b) <= zlen rest ->
  put_fbb dst (map (serialize msgs) items) idx (zlen a, (off, a ++ h ++ hr ++ mid ++ rest)) =
  Ret (zlen a + 4, (off + zlen (image b), a ++ le_bytes 4 off ++ hr ++ mid ++ image b ++ drop (length (image b)) rest)).
Proof.
  intros Hit Hs Hh Hlen Ho Hb Hr. unfold put_fbb. rewrite poke_u32_mid by done. cbn [mbind outcome_bind].
  unfold item_at. change (map (serialize msgs) items) with (serialize msgs <$> items). rewrite list_lookup_fmap, Hit. cbn [fmap option_fmap option_map mbind outcome_bind].
  replace (a ++ le_bytes 4 off ++ hr ++ mid ++ rest) with ((a ++ le_bytes 4 off ++ hr ++ mid) ++ rest) by (by rewrite <- !app_assoc).
  rewrite nested_correct; [|done|revert Hlen; rewrite !length_app, !length_le_bytes; lia|done..].
  cbn [mbind outcome_bind]. unfold u32. rewrite Z.mod_small by lia. by rewrite <- !app_assoc.
Qed.

Lemma put_fbbs_correct dst l : forall before after a hr mid rest off,
  Forall ser_ok l -> zlen hr = 4 * zlen l -> zlen (a ++ hr ++ mid) = dst + off -> 0 <= off ->
  off + zlen (concat (image <$> l)) < 2 ^ 32 -> zlen (concat (image <$> l)) <= zlen rest ->
  loop (length l) (length before) (put_fbb dst (map (serialize msgs) (before ++ l ++ after))) (zlen a, (off, a ++ hr ++ mid ++ rest)) =
  Ret (zlen a + 4 * zlen l, (off + zlen (concat (image <$> l)),
    a ++ u32s (offsets off (image <$> l)) ++ mid ++ concat (image <$> l) ++ drop (length (concat (image <$> l))) rest)).
Proof.
  induction l as [|b l IH]; intros before after a hr mid rest off Hok Hhr Hlen Ho Hb Hr.
  { destruct hr; [|cbn in Hhr; lia]. cbn. by rewrite !Z.add_0_r. }
  cbn [loop length]. cbn [fmap list_fmap] in Hb, Hr |- *. rewrite concat_zlen_cons in Hb, Hr. apply Forall_cons in Hok as [Hi Hok].
  destruct (split_at 4 hr) as (h & hr' & -> & Hh & _); [cbn [length] in Hhr; lia|].
  rewrite <- !app_assoc in Hlen |- *. rewrite (put_fbb_correct _ _ _ b); [|by apply list_lookup_middle|done..|lia|lia].
  change ((b :: l) ++ after) with (b :: l ++ after). cbn [mbind outcome_bind].
  set (a' := a ++ le_bytes 4 off). assert (La : zlen a' = zlen a + 4) by (unfold a'; rewrite length_app, length_le_bytes; lia).
  specialize (IH (before ++ [b]) after a' hr' (mid ++ image b) (drop (length (image b)) rest) (off + zlen (image b)) Hok).
  replace (length (before ++ [b])) with (S (length before)) in IH by (rewrite length_app; cbn; lia).
  replace ((before ++ [b]) ++ l ++ after) with (before ++ b :: l ++ after) in IH by (by rewrite <- app_assoc).
  replace (a' ++ hr' ++ (mid ++ image b) ++ drop (length (image b)) rest)
    with (a ++ le_bytes 4 off ++ hr' ++ mid ++ image b ++ drop (length (image b)) rest) in IH by (unfold a'; by rewrite <- !app_assoc).
  rewrite length_app in Hhr. cbn [length] in Hhr. rewrite <- La, IH; clear IH.
  - f_equal. f_equal; [lia|]. f_equal; [rewrite concat_zlen_cons; lia|].
    cbn [offsets concat]. rewrite u32s_cons. unfold a'. by rewrite <- !app_assoc, drop_drop, length_app.
  - lia.
  - revert Hlen. clearbody a'. rewrite !length_app. lia.
  - lia.
  - lia.
  - rewrite length_drop. lia.
Qed.

(** *** One field *)

(** [r] puts a block behind everything. *)
Definition emits (off : Z) (a rest blk : list Z) (r : outcome (Z * list Z)) : Prop :=
  r = Ret (off + zlen blk, a ++ blk ++ drop (length blk) rest).

Lemma emit_strings dst how items count off a rest :
  let l := take (Z.to_nat count) items in
  let blk := u32s (string_hops (off + 8 * count) how l) ++ concat (string_blk how <$> l) in
  0 <= count <= zlen items -> Forall (item_ok how) items -> zlen a = dst + off -> 0 <= off -> off mod 8 = 0 ->
  off + zlen blk < 2 ^ 32 -> zlen blk <= zlen rest ->
  emits off a rest blk
    (s ← PAD dst (u32 (off + u32 (u32 (2 * count) * 4))) (a ++ rest); '(_, s) ← for_count count (put_string dst how items) (dst + off, s); Ret s).
Proof.
  intros l blk Hc Hok Ha Ho Hm Hb Hr.
  assert (Hl : zlen l = count) by (unfold l; rewrite length_take; lia).
  assert (Hlb : zlen blk = 8 * count + zlen (concat (string_blk how <$> l))).
  { unfold blk. rewrite length_app, Nat2Z.inj_add, length_u32s, length_string_hops. lia. }
  assert (Eu : u32 (off + u32 (u32 (2 * count) * 4)) = off + 8 * count).
  { unfold u32. rewrite (Z.mod_small (2 * count)), (Z.mod_small (2 * count * 4)), Z.mod_small by lia. lia. }
  rewrite Eu. destruct (split_at (Z.to_nat (8 * count)) rest) as (hr & rest' & -> & Hhr & _); [lia|]. rewrite length_app in Hr.
  rewrite app_assoc, pad_aligned; [|lia|dlia|rewrite length_app; lia].
  cbn [mbind outcome_bind]. unfold for_count. replace (Z.to_nat count) with (length l) by lia. rewrite <- Ha.
  pose proof (put_strings_correct dst how l [] (drop (Z.to_nat count) items) a hr [] rest' (off + 8 * count)) as P.
  assert (Eit : l ++ drop (Z.to_nat count) items = items) by apply take_drop.
  cbn [length app] in P. rewrite Eit, !app_nil_r, app_assoc in P. rewrite P; clear P.
  - cbn [mbind outcome_bind]. unfold emits. f_equal. f_equal; [lia|]. unfold blk. rewrite <- !app_assoc. do 3 f_equal.
    rewrite !length_app. rewrite <- drop_drop. f_equal. rewrite drop_app_length'; [done|]. pose proof (length_u32s (string_hops (off + 8 * count) how l)) as E.
    rewrite length_string_hops in E. lia.
  - unfold l. by apply Forall_take.
  - lia.
  - rewrite length_app. lia.
  - lia.
  - dlia.
  - lia.
  - lia.
Qed.

Lemma emit_fbbs dst items count off a rest :
  let l := take (Z.to_nat count) (image <$> items) in
  let blk := pad8 (u32s (offsets (off + 4 * count + (- (4 * count)) mod 8) l)) ++ concat l in
  0 <= count <= zlen items -> Forall ser_ok items -> zlen a = dst + off -> 0 <= off -> off mod 8 = 0 ->
  off + zlen blk < 2 ^ 32 -> zlen blk <= zlen rest ->
  emits off a rest blk
    (s ← PAD dst (u32 (off + u32 (count * 4))) (a ++ rest);
     '(_, s) ← for_count count (put_fbb dst (map (serialize msgs) items)) (dst + off, s); Ret s).
Proof.
  intros l blk Hc Hok Ha Ho Hm Hb Hr. set (n := (- (4 * count)) mod 8) in *. set (start := off + 4 * count + n) in *.
  assert (Hn : 0 <= n < 8) by (apply Z.mod_pos_bound; lia).
  assert (Hl : zlen l = count) by (unfold l; rewrite length_take, length_fmap; lia).
  assert (Lu : zlen (u32s (offsets start l)) = 4 * count) by (rewrite length_u32s, length_offsets; lia).
  assert (Lp : zlen (pad8 (u32s (offsets start l))) = 4 * count + n) by (rewrite length_pad8, Lu; done).
  assert (Hlb : zlen blk = 4 * count + n + zlen (concat l)) by (unfold blk; rewrite length_app; lia).
  assert (Eu : u32 (off + u32 (count * 4)) = off + 4 * count) by (unfold u32; rewrite (Z.mod_small (count * 4)), Z.mod_small by lia; lia).
  assert (En : (- (off + 4 * count)) mod 8 = n) by (unfold n; dlia).
  rewrite Eu. destruct (split_at (Z.to_nat (4 * count)) rest) as (hr & rest' & -> & Hhr & _); [lia|]. rewrite length_app in Hr.
  rewrite app_assoc, pad_correct; rewrite ?En; [|lia|lia|rewrite length_app; lia|lia].
  cbn [mbind outcome_bind]. unfold for_count. rewrite <- Ha.
  assert (El : l = image <$> take (Z.to_nat count) items) by (unfold l; by rewrite fmap_take).
  replace (Z.to_nat count) with (length (take (Z.to_nat count) items)) by (rewrite length_take; lia).
  pose proof (put_fbbs_correct dst (take (Z.to_nat count) items) [] (drop (Z.to_nat count) items) a hr (zeros n) (drop (Z.to_nat n) rest') start) as P.
  cbn [length app] in P. rewrite take_drop, <- El in P. rewrite <- !app_assoc. change (off + 4 * count + n) with start. rewrite P; clear P.
  - cbn [mbind outcome_bind]. unfold emits. f_equal. f_equal; [lia|]. unfold blk, pad8. rewrite Lu. fold n. rewrite <- !app_assoc. do 4 f_equal.
    rewrite !length_app, drop_drop, <- !drop_drop. rewrite (drop_app_length' hr); [|lia]. f_equal. unfold zeros. by rewrite length_replicate.
  - by apply Forall_take.
  - rewrite length_take. lia.
  - rewrite !length_app, !Nat2Z.inj_add, length_zeros; lia.
  - lia.
  - lia.
  - rewrite length_drop. lia.
Qed.

Lemma concat_mod l : Forall (fun b : list Z => zlen b mod 8 = 0) l -> zlen (concat l) mod 8 = 0.
Proof. induction 1 as [|b l Hb _ IH]; [done|]. rewrite concat_zlen_cons. by rewrite Z.add_mod, Hb, IH by lia. Qed.

Lemma ser_ok_mod l : Forall ser_ok l -> Forall (fun b : list Z => zlen b mod 8 = 0) (image <$> l).
Proof. intros Hl. apply Forall_fmap. eapply Forall_impl; [exact Hl|]. by intros b [Hb _]. Qed.

Lemma lookup_pointers {B} (f : builder -> B) ps i p : ps !! i = Some p -> map (pointer_map f) ps !! i = Some (pointer_map f p).
Proof. intros Hp. change (map (pointer_map f) ps) with (pointer_map f <$> ps). by rewrite list_lookup_fmap, Hp. Qed.

Lemma block_mod fields w i fd p off blk :
  fields !! i = Some fd -> wf_pointer fields w i fd p -> Forall ser_ok (subs p) -> block fields w i (pointer_map image p) off = Some blk ->
  zlen blk mod 8 = 0.
Proof.
  intros Hf Hw Hs. unfold block. rewrite Hf. destruct p as [|data|[mem|]|[b|]|how items|items]; cbn [pointer_map]; try done.
  - case_match; [|done]. intros [= <-]. apply pad8_mod.
  - intros [= <-]. apply pad8_mod.
  - intros [= <-]. apply Forall_singleton in Hs as [Hs _]. done.
  - case_match; [|done]. intros [= <-]. rewrite length_app, Nat2Z.inj_add, length_u32s, length_string_hops.
    pose proof (concat_mod (string_blk how <$> take (Z.to_nat (count_of fields w i)) items)) as E. rewrite Forall_fmap in E.
    specialize (E ltac:(apply Forall_forall; intros item _; apply string_blk_mod)). dlia.
  - case_match; [|done]. intros [= <-]. rewrite length_app, Nat2Z.inj_add. cbn [subs] in Hs. change (map image items) with (image <$> items).
    rewrite Z.add_mod, pad8_mod, concat_mod by (lia || apply Forall_take, ser_ok_mod, Hs). done.
Qed.

(** What the code does with a field, given its block. *)
Lemma serialize_field_cases fields w ps dst i fd p off rest :
  fields !! i = Some fd -> ps !! i = Some p -> wf_pointer fields w i fd p -> Forall ser_ok (subs p) -> i ∈ order fields ->
  0 <= off -> off mod 8 = 0 ->
  match block fields w i (pointer_map image p) off with
  | None => forall m, serialize_field fields w (map (pointer_map (serialize msgs)) ps) dst i (off, m) = (m ← set_relptr fields i dst 0 m; Ret (off, m))
  | Some blk =>
      off + zlen blk < 2 ^ 32 -> zlen blk <= zlen rest ->
      exists f, (forall m, serialize_field fields w (map (pointer_map (serialize msgs)) ps) dst i (off, m) = (m ← set_relptr fields i dst off m; f m)) /\
        forall a, zlen a = dst + off -> emits off a rest blk (f (a ++ rest))
  end.
Proof.
  intros Hf Hp Hw Hs Hi Ho Hm. unfold block, serialize_field. rewrite (lookup_pointers _ _ _ _ Hp), Hf.
  unfold wf_pointer in Hw.
  assert (Hno : p <> PNone).
  { intros ->. unfold order in Hi. rewrite !elem_of_app, !elem_of_indices in Hi.
    repeat destruct Hi as [Hi|Hi]; destruct Hi as (fd' & Hf' & Hq); rewrite Hf in Hf'; injection Hf' as <-;
      unfold is_array, is_scalar, is_string, is_fbb in Hq; destruct (quant fd), (ftype fd); done. }
  destruct p as [|data|[mem|]|[b|]|how items|items]; cbn [pointer_map]; try done.
  - destruct (quant fd), (ftype fd) as [size align| |] eqn:Et; try done. destruct Hw as (count & Hc & H0 & Hsz & Hle).
    unfold count_of, sizeof. rewrite Hc, Et. cbn [ret_or mbind outcome_bind]. destruct (Z.ltb_spec 0 count) as [Hpos|_]; [|done].
    intros Hb Hr. eexists. split; [done|]. intros a Ha.
    assert (L : zlen (take (Z.to_nat (count * size)) data) = count * size) by (rewrite length_take; nia).
    assert (Lp := length_pad8 (take (Z.to_nat (count * size)) data)). pose proof (Z.mod_pos_bound (- (count * size)) 8 ltac:(lia)).
    rewrite L in Lp. unfold u32. rewrite Z.mod_small by nia. apply put_correct; try done; nia.
  - intros Hb Hr. assert (Hw' : exists len, get_u32 fields (MLen i) w 0 = Ret len /\ 0 <= len < zlen mem).
    { destruct (quant fd), (ftype fd); try done; destruct Hw as (_ & len & E & Hl); eauto. }
    destruct Hw' as (len & E & Hl). unfold len_of in Hb, Hr |- *. rewrite E in Hb, Hr |- *. cbn [ret_or] in Hb, Hr |- *. eexists. split; [done|]. intros a Ha.
    cbn [mbind outcome_bind].
    assert (L : zlen (take (Z.to_nat (len + 1)) mem) = len + 1) by (rewrite length_take; lia).
    assert (Lp := length_pad8 (take (Z.to_nat (len + 1)) mem)). pose proof (Z.mod_pos_bound (- (len + 1)) 8 ltac:(lia)).
    rewrite L in Lp. unfold u32. rewrite Z.mod_small by lia. apply put_correct; try done; lia.
  - intros Hb Hr. eexists. split; [done|]. intros a Ha. cbn [subs] in Hs. apply Forall_cons in Hs as [Hs _].
    cbv beta. rewrite nested_correct by done. cbn [mbind outcome_bind]. unfold u32. by rewrite Z.mod_small by lia.
  - destruct (quant fd), (ftype fd) as [size align| |] eqn:Et; try done. destruct Hw as (count & Hc & Hle & Hok).
    unfold count_of. rewrite Hc. cbn [ret_or mbind outcome_bind]. destruct (Z.ltb_spec 0 count) as [Hpos|_]; [|done].
    intros Hb Hr. eexists. split; [done|]. intros a Ha. by apply emit_strings.
  - destruct (quant fd), (ftype fd) as [size align| |] eqn:Et; try done. destruct Hw as (count & Hc & Hle).
    unfold count_of. rewrite Hc. cbn [ret_or mbind outcome_bind]. destruct (Z.ltb_spec 0 count) as [Hpos|_]; [|done].
    intros Hb Hr. eexists. split; [done|]. intros a Ha. by apply emit_fbbs.
Qed.

(** *** One message *)
Section Message.
Context (fields : list field) (w : list Z) (ps : list (pointer builder)).
Context (Hw : zlen w = wire_size fields) (Hps : length ps = length fields).
Context (Hwf : forall i fd p, fields !! i = Some fd -> ps !! i = Some p -> wf_pointer fields w i fd p).
Context (Hsubs : forall p, p ∈ ps -> Forall ser_ok (subs p)).

Abbreviation step := (image_step fields w (map (pointer_map image) ps)).

Lemma order_field i : i ∈ order fields ->
  exists fd p, fields !! i = Some fd /\ ps !! i = Some p /\ wf_pointer fields w i fd p /\ Forall ser_ok (subs p).
Proof.
  intros Hi%elem_of_order. apply elem_of_indices in Hi as (fd & Hf & _).
  destruct (lookup_lt_is_Some_2 ps i) as [p Hp]; [rewrite Hps; by eapply lookup_lt_Some|].
  exists fd, p. split_and!; [done|done|by apply Hwf|]. apply Hsubs. by apply list_elem_of_lookup_2 in Hp.
Qed.

Lemma step_mono s i : exists ext, (step s i).2 = s.2 ++ ext.
Proof. destruct s as [rels out]. cbn. case_match; cbn; [by eexists|exists []; by rewrite app_nil_r]. Qed.
Lemma steps_mono l s : exists ext, (foldl step s l).2 = s.2 ++ ext.
Proof.
  revert s. induction l as [|i l IH]; intros s; cbn [foldl]; [exists []; by rewrite app_nil_r|].
  destruct (IH (step s i)) as [e ->]. destruct (step_mono s i) as [e' ->]. exists (e' ++ e). by rewrite app_assoc.
Qed.
Lemma step_rels s i : length (step s i).1 = length s.1.
Proof. destruct s as [rels out]. cbn. case_match; cbn; by rewrite length_insert. Qed.

Lemma steps_mod l s : (forall i, i ∈ l -> i ∈ order fields) -> (data_start fields + zlen s.2) mod 8 = 0 -> (data_start fields + zlen (foldl step s l).2) mod 8 = 0.
Proof.
  revert s. induction l as [|i l IH]; intros [rels out] Hl Hm; cbn [foldl]; [done|]. apply IH; [intros j Hj; apply Hl; by right|].
  destruct (order_field i) as (fd & p & Hf & Hp & Hwp & Hs); [apply Hl; by left|]. cbn. rewrite (lookup_pointers _ _ _ _ Hp). cbn.
  case_match eqn:Eb; cbn in *; [|done]. rewrite length_app. pose proof (block_mod _ _ _ _ _ _ _ Hf Hwp Hs Eb). dlia.
Qed.

Lemma serialize_step dst i pre rels out rest :
  i ∈ order fields -> zlen pre = dst -> length rels = length (relptr_fields fields) -> (data_start fields + zlen out) mod 8 = 0 ->
  let s' := step (rels, out) i in
  data_start fields + zlen s'.2 < 2 ^ 32 -> zlen s'.2 - zlen out <= zlen rest ->
  serialize_field fields w (map (pointer_map (serialize msgs)) ps) dst i (data_start fields + zlen out, pre ++ w ++ u32s rels ++ out ++ rest) =
    Ret (data_start fields + zlen s'.2, pre ++ w ++ u32s s'.1 ++ s'.2 ++ drop (length s'.2 - length out) rest) /\
  (data_start fields + zlen s'.2) mod 8 = 0.
Proof.
  intros Hi Hpre Hr Hm s' Hb Hrest. destruct (order_field i Hi) as (fd & p & Hf & Hp & Hwp & Hs).
  assert (H0 : 0 <= data_start fields) by (unfold data_start, relptrs_size; lia). set (off := data_start fields + zlen out) in *.
  pose proof (serialize_field_cases fields w ps dst i fd p off rest Hf Hp Hwp Hs Hi ltac:(unfold off; lia) Hm) as C.
  assert (Es : s' = match block fields w i (pointer_map image p) off with
    | Some blk => (<[rel_index fields i := off]> rels, out ++ blk) | None => (<[rel_index fields i := 0]> rels, out) end)
    by (unfold s', image_step; by rewrite (lookup_pointers _ _ _ _ Hp)).
  clearbody s'. destruct (block fields w i (pointer_map image p) off) as [blk|] eqn:Eb; subst s'; cbn [fst snd] in *.
  - rewrite length_app, Nat2Z.inj_add in Hb, Hrest |- *. pose proof (block_mod _ _ _ _ _ _ _ Hf Hwp Hs Eb) as Hbm.
    destruct C as (f & -> & Hem); [unfold off; lia|lia|]. rewrite set_relptr_correct by done. cbn [mbind outcome_bind].
    set (a := pre ++ w ++ u32s (<[rel_index fields i := off]> rels) ++ out).
    replace (pre ++ w ++ u32s (<[rel_index fields i := off]> rels) ++ out ++ rest) with (a ++ rest) by (unfold a; by rewrite <- !app_assoc).
    rewrite Hem; [|unfold a, off, data_start, relptrs_size; rewrite !length_app, !Nat2Z.inj_add, length_u32s, length_insert; lia].
    split; [|unfold off in Hm; dlia]. f_equal. f_equal; [unfold off; lia|]. unfold a. rewrite <- !app_assoc.
    by replace (length out + length blk - length out)%nat with (length blk) by lia.
  - rewrite C, set_relptr_correct by done. cbn [mbind outcome_bind]. split; [|done]. by rewrite Nat.sub_diag.
Qed.

Lemma serialize_steps dst pre l : forall rels out rest,
  (forall i, i ∈ l -> i ∈ order fields) -> zlen pre = dst -> length rels = length (relptr_fields fields) -> (data_start fields + zlen out) mod 8 = 0 ->
  let s' := foldl step (rels, out) l in
  data_start fields + zlen s'.2 < 2 ^ 32 -> zlen s'.2 - zlen out <= zlen rest ->
  for_fields l (serialize_field fields w (map (pointer_map (serialize msgs)) ps) dst) (data_start fields + zlen out, pre ++ w ++ u32s rels ++ out ++ rest) =
    Ret (data_start fields + zlen s'.2, pre ++ w ++ u32s s'.1 ++ s'.2 ++ drop (length s'.2 - length out) rest) /\
  (data_start fields + zlen s'.2) mod 8 = 0 /\ length s'.1 = length rels.
Proof.
  induction l as [|i l IH]; intros rels out rest Hl Hpre Hr Hm s' Hb Hrest.
  { unfold s'. cbn. by rewrite Nat.sub_diag. }
  unfold s' in *. clear s'. cbn [foldl for_fields] in *. destruct (steps_mono l (step (rels, out) i)) as [e E].
  destruct (step_mono (rels, out) i) as [e1 E1]. cbn [snd] in E1. pose proof (step_rels (rels, out) i) as Hrels. cbn [fst] in Hrels.
  rewrite E, E1, !length_app in Hb, Hrest.
  destruct (serialize_step dst i pre rels out rest) as [E2 Hm2]; [apply Hl; by left|done|done|done|rewrite E1, length_app; lia|rewrite E1, length_app; lia|].
  rewrite E2. cbn [mbind outcome_bind]. destruct (step (rels, out) i) as [rels1 out1] eqn:Est. cbn [fst snd] in *. subst out1.
  destruct (IH rels1 (out ++ e1) (drop (length (out ++ e1) - length out) rest)) as (E3 & Hm3 & Hr3).
  - intros j Hj. apply Hl. by right.
  - done.
  - congruence.
  - done.
  - rewrite E, !length_app. lia.
  - rewrite E, length_drop, !length_app. lia.
  - rewrite E3, E. split_and!; [|by rewrite E in Hm3|congruence]. rewrite drop_drop. rewrite !length_app. replace (length out + length e1 - length out + (length out + length e1 + length e - (length out + length e1)))%nat with (length out + length e1 + length e - length out)%nat by lia. done.
Qed.
End Message.

Lemma image_msg_eq w ps tag fields :
  get_tag w 0 = Ret tag -> fields_of msgs tag = Some fields ->
  image (mkBuilder w ps) = w ++ u32s (foldl (image_step fields w (map (pointer_map image) ps)) (image_init fields) (order fields)).1 ++
    (foldl (image_step fields w (map (pointer_map image) ps)) (image_init fields) (order fields)).2.
Proof. intros Ht Hf. cbn [image]. unfold image_msg. rewrite Ht, Hf. by destruct (foldl _ _ _). Qed.

Lemma steps_rels fields w qs l s : length (foldl (image_step fields w qs) s l).1 = length s.1.
Proof.
  revert s. induction l as [|i l IH]; intros s; cbn [foldl]; [done|]. rewrite IH. destruct s as [rels out]. cbn. case_match; cbn; by rewrite length_insert.
Qed.

(** The image has the alignment and size it is said to have. *)
Lemma length_image w ps tag fields :
  get_tag w 0 = Ret tag -> fields_of msgs tag = Some fields -> zlen w = wire_size fields ->
  zlen (image (mkBuilder w ps)) =
    data_start fields + zlen (foldl (image_step fields w (map (pointer_map image) ps)) (image_init fields) (order fields)).2.
Proof.
  intros Ht Hf Hw. rewrite (image_msg_eq _ _ _ _ Ht Hf), !length_app, !Nat2Z.inj_add, length_u32s, steps_rels. cbn [fst image_init].
  rewrite length_replicate. unfold data_start, relptrs_size. lia.
Qed.

Lemma image_init_zeros fields : zeros (relptrs_size fields) = u32s (image_init fields).1.
Proof.
  cbn. unfold relptrs_size, zeros, u32s. rewrite fmap_replicate. induction (length (relptr_fields fields)) as [|n IHn]; [done|].
  replace (Z.to_nat (4 * Z.of_nat (S n))) with (4 + Z.to_nat (4 * Z.of_nat n))%nat by lia. cbn. by rewrite IHn.
Qed.
Lemma image_init_pad fields : zlen (image_init fields).2 = (- data_start fields) mod 8.
Proof. apply length_zeros, Z.mod_pos_bound. lia. Qed.

(** Serializing up to the variable sized data. *)
Lemma serialize_msg_start w ss tag fields pre old :
  get_tag w 0 = Ret tag -> fields_of msgs tag = Some fields -> zlen w = wire_size fields ->
  data_start fields + zlen (image_init fields).2 < 2 ^ 32 -> data_start fields + zlen (image_init fields).2 <= zlen old ->
  serialize_msg msgs w ss (zlen pre) (pre ++ old) =
    ('(offset, m) ← for_fields (order fields) (serialize_field fields w ss (zlen pre))
      (data_start fields + zlen (image_init fields).2,
       pre ++ w ++ u32s (image_init fields).1 ++ (image_init fields).2 ++ drop (Z.to_nat (data_start fields + zlen (image_init fields).2)) old);
     PAD (zlen pre) offset m).
Proof.
  intros Ht Hf Hw Hb Hold. unfold serialize_msg. rewrite Ht. cbn [mbind outcome_bind]. rewrite Hf.
  pose proof (image_init_pad fields) as Hz. pose proof (image_init_zeros fields) as Ez. unfold data_start in *.
  assert (Hr0 : 0 <= relptrs_size fields) by (unfold relptrs_size; lia).
  destruct (split_at (length w) old) as (o1 & o2 & -> & Ho1 & _); [lia|]. rewrite length_app in Hold.
  destruct (split_at (Z.to_nat (relptrs_size fields)) o2) as (o3 & rest & -> & Ho3 & _); [lia|]. rewrite length_app in Hold.
  rewrite poke_mid by done. cbn [mbind outcome_bind].
  replace (zlen pre + wire_size fields) with (zlen (pre ++ w)) by (rewrite length_app; lia).
  rewrite app_assoc, poke_mid by (unfold zeros; rewrite length_replicate; lia). cbn [mbind outcome_bind].
  assert (Eu : u32 (u32 (wire_size fields) + relptrs_size fields) = wire_size fields + relptrs_size fields).
  { unfold u32. rewrite (Z.mod_small (wire_size fields)), Z.mod_small by lia. done. }
  assert (Lpre : zlen ((pre ++ w) ++ u32s (image_init fields).1) = zlen pre + (wire_size fields + relptrs_size fields)).
  { rewrite <- Ez, !length_app, !Nat2Z.inj_add, length_zeros; lia. }
  rewrite Eu, Ez, app_assoc, pad_correct; rewrite <- ?Hz; [|lia|lia|done|lia].
  cbn [mbind outcome_bind]. rewrite <- !app_assoc.
  replace (Z.to_nat (wire_size fields + relptrs_size fields + zlen (image_init fields).2))
    with (length o1 + (length o3 + length (image_init fields).2))%nat by lia.
  rewrite <- !drop_drop, !drop_app_length, Nat2Z.id. unfold zeros at 1. rewrite Nat2Z.id. cbn [image_init snd]. unfold zeros. by rewrite length_replicate.
Qed.

Lemma wf_ser_ok b : wf b -> ser_ok b.
Proof.
  induction 1 as [w ps tag fields Ht Hf Hw Hps Hwf Hsub IH].
  assert (Hsubs : forall p, p ∈ ps -> Forall ser_ok (subs p)) by (intros p Hp; apply Forall_forall; intros b; by apply IH).
  assert (H0 : 0 <= data_start fields) by (unfold data_start, relptrs_size; lia). pose proof (image_init_pad fields) as Hz.
  assert (Hm : (data_start fields + zlen (image_init fields).2) mod 8 = 0) by (rewrite Hz; dlia).
  pose proof (length_image _ ps _ _ Ht Hf Hw) as Hlen. destruct (steps_mono fields w ps (order fields) (image_init fields)) as [ext Eext].
  pose proof (image_msg_eq w ps tag fields Ht Hf) as Eimg.
  pose proof (steps_mod fields w ps Hps Hwf Hsubs (order fields) (image_init fields) ltac:(done) Hm) as Hb0.
  split; [by rewrite Hlen|]. intros pre old post Hold Hb. cbn [serialize].
  pose proof (serialize_steps fields w ps Hw Hps Hwf Hsubs (zlen pre) pre (order fields) (image_init fields).1 (image_init fields).2
    (drop (Z.to_nat (data_start fields + zlen (image_init fields).2)) (old ++ post)) ltac:(done) eq_refl) as S.
  rewrite <- surjective_pairing in S. set (s' := foldl _ (image_init fields) (order fields)) in *.
  assert (Ls : zlen s'.2 = zlen (image_init fields).2 + zlen ext) by (rewrite Eext, length_app; lia).
  rewrite (serialize_msg_start _ _ _ _ _ _ Ht Hf Hw) by (rewrite ?length_app; lia).
  destruct S as (-> & _ & _); [cbn; by rewrite length_replicate|done|lia|rewrite length_drop, length_app; lia|].
  cbn [mbind outcome_bind]. replace (drop (length s'.2 - length (image_init fields).2) (drop (Z.to_nat (data_start fields + zlen (image_init fields).2)) (old ++ post)))
    with post.
  2: { rewrite drop_drop. symmetry. apply drop_app_length'. lia. }
  rewrite !app_assoc, pad_aligned; [|lia|done|].
  - rewrite Hlen, Eimg. by rewrite <- !app_assoc.
  - apply (f_equal length) in Eimg. rewrite !length_app in Eimg. rewrite !length_app. lia.
Qed.

(** ** Measuring *)

Definition meas_ok (b : builder) : Prop := zlen (image b) < 2 ^ 32 -> measure msgs b = Ret (zlen (image b)).

(** Adding the size of data and of its padding. *)
Lemma add_data off size : 0 <= off -> off mod 8 = 0 -> 0 <= size -> off + size + (- size) mod 8 < 2 ^ 32 ->
  ADD_PADDING_LEN (u32 (off + size)) = off + size + (- size) mod 8.
Proof.
  intros Ho Hm Hs Hb. pose proof (Z.mod_pos_bound (- size) 8 ltac:(lia)). unfold u32. rewrite Z.mod_small by lia.
  assert (E : (- (off + size)) mod 8 = (- size) mod 8) by dlia. rewrite add_padding_correct; rewrite ?E; lia.
Qed.

Lemma string_blk_length how item len : item_len how item = Ret len -> 0 <= len < zlen item.1 ->
  zlen (string_blk how item) = len + 1 + (- (len + 1)) mod 8.
Proof.
  intros E Hl. unfold string_blk, item_size. rewrite E. cbn [ret_or]. rewrite length_pad8.
  replace (zlen (take (Z.to_nat (len + 1)) item.1)) with (len + 1) by (rewrite length_take; lia). done.
Qed.

Lemma measure_strings_correct how l : forall before after off,
  Forall (item_ok how) l -> 0 <= off -> off mod 8 = 0 -> off + zlen (concat (string_blk how <$> l)) < 2 ^ 32 ->
  loop (length l) (length before) (fun idx len =>
    item ← item_at (before ++ l ++ after) idx; n ← item_len how item; Ret (ADD_PADDING_LEN (u32 (len + u32 (n + 1))))) off =
  Ret (off + zlen (concat (string_blk how <$> l))).
Proof.
  induction l as [|item l IH]; intros before after off Hok Ho Hm Hb; cbn [loop length fmap list_fmap].
  { cbn. by rewrite Z.add_0_r. }
  cbn [fmap list_fmap] in Hb. rewrite concat_zlen_cons in Hb |- *. apply Forall_cons in Hok as [Hi Hok]. pose proof Hi as (len & El & Hl).
  pose proof (string_blk_length _ _ _ El Hl) as Lb. pose proof (Z.mod_pos_bound (- (len + 1)) 8 ltac:(lia)).
  change ((item :: l) ++ after) with (item :: l ++ after). rewrite item_at_mid. cbn [mbind outcome_bind]. rewrite El. cbn [mbind outcome_bind].
  replace (u32 (len + 1)) with (len + 1) by (unfold u32; rewrite Z.mod_small; lia). rewrite add_data by lia.
  specialize (IH (before ++ [item]) after (off + (len + 1) + (- (len + 1)) mod 8) Hok).
  replace (length (before ++ [item])) with (S (length before)) in IH by (rewrite length_app; cbn; lia).
  replace ((before ++ [item]) ++ l ++ after) with (before ++ item :: l ++ after) in IH by (by rewrite <- app_assoc).
  rewrite IH; [f_equal; lia|lia|dlia|lia].
Qed.

Lemma measure_fbbs_correct l : forall before after off,
  Forall meas_ok l -> 0 <= off -> off + zlen (concat (image <$> l)) < 2 ^ 32 ->
  loop (length l) (length before) (fun idx len => size ← item_at (map (measure msgs) (before ++ l ++ after)) idx; n ← size; Ret (u32 (len + n))) off =
  Ret (off + zlen (concat (image <$> l))).
Proof.
  induction l as [|b l IH]; intros before after off Hok Ho Hb; cbn [loop length fmap list_fmap].
  { cbn. by rewrite Z.add_0_r. }
  cbn [fmap list_fmap] in Hb. rewrite concat_zlen_cons in Hb |- *. apply Forall_cons in Hok as [Hi Hok].
  change ((b :: l) ++ after) with (b :: l ++ after). rewrite item_at_map. cbn [mbind outcome_bind]. rewrite Hi by lia. cbn [mbind outcome_bind].
  replace (u32 (off + zlen (image b))) with (off + zlen (image b)) by (unfold u32; rewrite Z.mod_small; lia).
  specialize (IH (before ++ [b]) after (off + zlen (image b)) Hok).
  replace (length (before ++ [b])) with (S (length before)) in IH by (rewrite length_app; cbn; lia).
  replace ((before ++ [b]) ++ l ++ after) with (before ++ b :: l ++ after) in IH by (by rewrite <- app_assoc).
  rewrite IH; [f_equal; lia|lia|lia].
Qed.

Definition block_size (o : option (list Z)) : Z := match o with Some blk => zlen blk | None => 0 end.

Lemma measure_field_correct fields w ps i fd p off :
  fields !! i = Some fd -> ps !! i = Some p -> wf_pointer fields w i fd p -> Forall meas_ok (subs p) -> i ∈ order fields ->
  0 <= off -> off mod 8 = 0 -> off + block_size (block fields w i (pointer_map image p) off) < 2 ^ 32 ->
  measure_field fields w (map (pointer_map (measure msgs)) ps) i off = Ret (off + block_size (block fields w i (pointer_map image p) off)).
Proof.
  intros Hf Hp Hw Hs Hi Ho Hm. unfold block, measure_field. rewrite (lookup_pointers _ _ _ _ Hp), Hf. unfold wf_pointer in Hw.
  assert (Hz : off = off + 0) by lia.
  destruct p as [|data|[mem|]|[b|]|how items|items]; cbn [pointer_map block_size]; rewrite <- ?Hz; try done.
  - unfold order in Hi. rewrite !elem_of_app, !elem_of_indices in Hi.
    repeat destruct Hi as [Hi|Hi]; destruct Hi as (fd' & Hf' & Hq); rewrite Hf in Hf'; injection Hf' as <-;
      unfold is_array, is_scalar, is_string, is_fbb in Hq; destruct (quant fd), (ftype fd); done.
  - destruct (quant fd), (ftype fd) as [size align| |] eqn:Et; try done. destruct Hw as (count & Hc & H0 & Hsz & Hle).
    unfold count_of, sizeof. rewrite Hc, Et. cbn [ret_or mbind outcome_bind]. intros Hb. f_equal.
    assert (L : zlen (take (Z.to_nat (count * size)) data) = count * size) by (rewrite length_take; nia).
    assert (Lp := length_pad8 (take (Z.to_nat (count * size)) data)). rewrite L in Lp. pose proof (Z.mod_pos_bound (- (count * size)) 8 ltac:(lia)).
    destruct (Z.ltb_spec 0 count) as [Hpos|H0']; cbn [block_size] in *; [rewrite add_data by nia; lia|].
    assert (count = 0) as -> by lia. cbn. unfold u32. rewrite Z.add_0_r, Z.mod_small, add_padding_aligned by lia. done.
  - assert (Hw' : exists len, get_u32 fields (MLen i) w 0 = Ret len /\ 0 <= len < zlen mem).
    { destruct (quant fd), (ftype fd); try done; destruct Hw as (_ & len & E & Hl); eauto. }
    destruct Hw' as (len & E & Hl). unfold len_of. rewrite E. cbn [ret_or mbind outcome_bind]. intros Hb. f_equal.
    assert (L : zlen (take (Z.to_nat (len + 1)) mem) = len + 1) by (rewrite length_take; lia).
    assert (Lp := length_pad8 (take (Z.to_nat (len + 1)) mem)). rewrite L in Lp. pose proof (Z.mod_pos_bound (- (len + 1)) 8 ltac:(lia)).
    replace (u32 (len + 1)) with (len + 1) by (unfold u32; rewrite Z.mod_small; lia). rewrite add_data by lia. lia.
  - intros Hb. cbn [subs] in Hs. apply Forall_cons in Hs as [Hs _]. rewrite Hs by lia. cbn [mbind outcome_bind]. unfold u32.
    rewrite Z.mod_small by lia. done.
  - destruct (quant fd), (ftype fd) as [size align| |] eqn:Et; try done. destruct Hw as (count & Hc & Hle & Hok).
    unfold count_of. rewrite Hc. cbn [ret_or mbind outcome_bind]. set (l := take (Z.to_nat count) items).
    assert (Hl : zlen l = count) by (unfold l; rewrite length_take; lia). assert (Eit : l ++ drop (Z.to_nat count) items = items) by apply take_drop.
    destruct (Z.ltb_spec 0 count) as [Hpos|H0']; cbn [block_size].
    + rewrite length_app, Nat2Z.inj_add, length_u32s, length_string_hops. intros Hb.
      replace (u32 (2 * count) * 4) with (8 * count) by (unfold u32; rewrite Z.mod_small; lia).
      rewrite add_data by dlia. replace ((- (8 * count)) mod 8) with 0 by dlia. unfold for_count. replace (Z.to_nat count) with (length l) by lia.
      pose proof (measure_strings_correct how l [] (drop (Z.to_nat count) items) (off + 8 * count + 0)) as P. cbn [length app] in P. rewrite Eit in P.
      rewrite P; [f_equal; lia|unfold l; by apply Forall_take|lia|dlia|lia].
    + intros Hb. assert (count = 0) as -> by lia. change (u32 (2 * 0) * 4) with 0. rewrite add_data by dlia. unfold for_count. cbn [loop Z.to_nat]. f_equal. dlia.
  - destruct (quant fd), (ftype fd) as [size align| |] eqn:Et; try done. destruct Hw as (count & Hc & Hle).
    unfold count_of. rewrite Hc. cbn [ret_or mbind outcome_bind]. change (map image items) with (image <$> items). rewrite <- fmap_take.
    set (l := take (Z.to_nat count) items).
    assert (Hl : zlen l = count) by (unfold l; rewrite length_take; lia). assert (Eit : l ++ drop (Z.to_nat count) items = items) by apply take_drop.
    destruct (Z.ltb_spec 0 count) as [Hpos|H0']; cbn [block_size].
    + rewrite length_app, Nat2Z.inj_add, length_pad8, length_u32s, length_offsets, length_fmap, Hl. intros Hb.
      pose proof (Z.mod_pos_bound (- (4 * count)) 8 ltac:(lia)). rewrite (Z.mul_comm count 4), add_data by lia. unfold for_count.
      replace (Z.to_nat count) with (length l) by lia.
      pose proof (measure_fbbs_correct l [] (drop (Z.to_nat count) items) (off + 4 * count + (- (4 * count)) mod 8)) as P. cbn [length app] in P.
      rewrite Eit in P. rewrite P; [f_equal; lia|unfold l; by apply Forall_take|lia|lia].
    + intros Hb. assert (count = 0) as -> by lia. rewrite Z.mul_0_l, add_data by dlia. unfold for_count. cbn [loop Z.to_nat]. f_equal. dlia.
Qed.

Lemma measure_steps fields w ps l :
  length ps = length fields -> zlen w = wire_size fields ->
  (forall i fd p, fields !! i = Some fd -> ps !! i = Some p -> wf_pointer fields w i fd p) ->
  (forall p, p ∈ ps -> Forall ser_ok (subs p) /\ Forall meas_ok (subs p)) -> (forall i, i ∈ l -> i ∈ order fields) ->
  forall s, (data_start fields + zlen s.2) mod 8 = 0 ->
  let s' := foldl (image_step fields w (map (pointer_map image) ps)) s l in
  data_start fields + zlen s'.2 < 2 ^ 32 ->
  for_fields l (measure_field fields w (map (pointer_map (measure msgs)) ps)) (data_start fields + zlen s.2) = Ret (data_start fields + zlen s'.2).
Proof.
  intros Hps Hw Hwf Hsub Hl. induction l as [|i l IH]; intros s Hm s' Hb; [done|]. unfold s' in *. clear s'. cbn [foldl for_fields] in *.
  destruct (order_field fields w ps Hps Hwf (fun p Hp => proj1 (Hsub p Hp)) i) as (fd & p & Hf & Hp & Hwp & Hs); [apply Hl; by left|].
  assert (Hms : Forall meas_ok (subs p)) by (apply Hsub; by apply list_elem_of_lookup_2 in Hp).
  assert (H0 : 0 <= data_start fields) by (unfold data_start, relptrs_size; lia).
  destruct (steps_mono fields w ps l (image_step fields w (map (pointer_map image) ps) s i)) as [e E].
  assert (Es : data_start fields + zlen (image_step fields w (map (pointer_map image) ps) s i).2 =
    data_start fields + zlen s.2 + block_size (block fields w i (pointer_map image p) (data_start fields + zlen s.2))).
  { destruct s as [rels out]. cbn. rewrite (lookup_pointers _ _ _ _ Hp). cbn. destruct (block _ _ _ _ _); cbn; [rewrite length_app|]; lia. }
  pose proof (steps_mod fields w ps Hps Hwf (fun p Hp => proj1 (Hsub p Hp)) [i] s) as Hm1. cbn [foldl] in Hm1.
  rewrite (measure_field_correct _ _ _ _ fd p) by first [done|apply Hl; by left|lia|rewrite <- Es; rewrite E, length_app in Hb; lia].
  cbn [mbind outcome_bind]. rewrite <- Es. apply IH; [intros j Hj; apply Hl; by right| |done].
  apply Hm1; [|done]. intros j ->%list_elem_of_singleton. apply Hl. by left.
Qed.

Lemma wf_meas_ok b : wf b -> meas_ok b.
Proof.
  intros Hb. induction Hb as [w ps tag fields Ht Hf Hw Hps Hwf Hsub IH]. intros Hlt. cbn [measure]. unfold measure_msg. rewrite Ht.
  cbn [mbind outcome_bind]. rewrite Hf.
  assert (Hsubs : forall p, p ∈ ps -> Forall ser_ok (subs p) /\ Forall meas_ok (subs p)).
  { intros p Hp. split; apply Forall_forall; intros b Hin; [apply wf_ser_ok; by apply (Hsub p)|by apply (IH p)]. }
  pose proof (length_image _ ps _ _ Ht Hf Hw) as Hlen. destruct (steps_mono fields w ps (order fields) (image_init fields)) as [ext Eext].
  assert (H0 : 0 <= data_start fields) by (unfold data_start, relptrs_size; lia). pose proof (image_init_pad fields) as Hz.
  assert (Hm : (data_start fields + zlen (image_init fields).2) mod 8 = 0) by (rewrite Hz; dlia).
  pose proof (steps_mod fields w ps Hps Hwf (fun p Hp => proj1 (Hsubs p Hp)) (order fields) (image_init fields) ltac:(done) Hm) as Hm'.
  pose proof Hlen as Hl'. rewrite Eext, length_app in Hl'.
  replace (ADD_PADDING_LEN (u32 (wire_size fields + relptrs_size fields))) with (data_start fields + zlen (image_init fields).2).
  2: { change (wire_size fields + relptrs_size fields) with (data_start fields). unfold u32.
       rewrite Z.mod_small, add_padding_correct by (rewrite <- ?Hz; lia). by rewrite Hz. }
  rewrite (measure_steps fields w ps) by first [done|lia]. cbn [mbind outcome_bind]. by rewrite <- Hlen, add_padding_aligned by (rewrite Hlen in *; lia || done).
Qed.

(** ** Reading *)

Lemma peek_ret off len m v : peek off len m = Ret v -> 0 <= off /\ 0 <= len /\ off + len <= zlen m.
Proof. unfold peek. case_match eqn:E; [|done]. rewrite !andb_true_iff, !Z.leb_le in E. lia. Qed.
Lemma peek_l off len a b : 0 <= off -> 0 <= len -> off + len <= zlen a -> peek off len (a ++ b) = peek off len a.
Proof. intros. by apply (peek_app off len [] a b). Qed.
Lemma peek_take off len n m : 0 <= off -> 0 <= len -> off + len <= n -> n <= zlen m -> peek off len (take (Z.to_nat n) m) = peek off len m.
Proof. intros. rewrite <- (take_drop (Z.to_nat n) m) at 2. rewrite peek_l; [done|lia|lia|]. rewrite length_take. lia. Qed.

(** Memory that holds some data at an address. *)
Definition holds_at (m : list Z) (at_ : Z) (data : list Z) : Prop := exists pre post, m = pre ++ data ++ post /\ zlen pre = at_.

Lemma holds_peek m at_ data off len : holds_at m at_ data -> 0 <= off -> 0 <= len -> off + len <= zlen data -> peek (at_ + off) len m = peek off len data.
Proof. intros (pre & post & -> & <-) ???. by apply peek_app. Qed.
Lemma holds_ret m at_ data off len v : holds_at m at_ data -> peek off len data = Ret v -> peek (at_ + off) len m = Ret v.
Proof. intros Hh Hp. apply peek_ret in Hp as Hr. rewrite (holds_peek _ _ data); [done|done|lia..]. Qed.
Lemma holds_sub m at_ a b c : holds_at m at_ (a ++ b ++ c) -> holds_at m (at_ + zlen a) b.
Proof.
  intros (pre & post & -> & <-). exists (pre ++ a), (c ++ post). split; [by rewrite <- !app_assoc|]. rewrite length_app. lia.
Qed.
Lemma holds_head m at_ a b : holds_at m at_ (a ++ b) -> holds_at m at_ a.
Proof. intros H. apply (holds_sub _ _ [] a b) in H. by rewrite Z.add_0_r in H. Qed.

Lemma holds_u32s m at_ l k n : holds_at m at_ (u32s l) -> l !! k = Some n -> 0 <= n < 2 ^ 32 -> peek_u32 (at_ + 4 * Z.of_nat k) m = Ret n.
Proof.
  intros Hh Hk Hn. rewrite <- (take_drop_middle l k n Hk), u32s_app, u32s_cons in Hh. apply holds_sub in Hh as (pre & post & -> & Hpre).
  rewrite length_u32s, length_take in Hpre. apply lookup_lt_Some in Hk. replace (at_ + 4 * Z.of_nat k) with (zlen pre) by lia. by apply peek_u32_mid.
Qed.

(** The members of the wire structure. *)
Lemma holds_member fields mb w m msg v : holds_at m msg w -> get_member fields mb w 0 = Ret v -> get_member fields mb m msg = Ret v.
Proof. intros Hh. unfold get_member. destruct (offsetof fields mb) as [[off size]|]; [|done]. by apply holds_ret. Qed.
Lemma holds_u32 fields mb w m msg n : holds_at m msg w -> get_u32 fields mb w 0 = Ret n -> get_u32 fields mb m msg = Ret n.
Proof.
  intros Hh. unfold get_u32. destruct (get_member fields mb w 0) as [v| |] eqn:E; cbn; [|done|done].
  by rewrite (holds_member _ _ _ _ _ _ Hh E).
Qed.
Lemma holds_has fields i w m msg b : holds_at m msg w -> get_has fields i w 0 = Ret b -> get_has fields i m msg = Ret b.
Proof.
  intros Hh. unfold get_has. destruct (has_bit_at fields i) as [[off bit]|]; [|done]. change (0 + off) with off.
  destruct (peek off 1 w) as [v| |] eqn:E; cbn; [|done|done]. by rewrite (holds_ret _ _ _ _ _ _ Hh E).
Qed.
Lemma holds_tag w m msg t : holds_at m msg w -> get_tag w 0 = Ret t -> get_tag m msg = Ret t.
Proof.
  intros Hh. unfold get_tag, peek_u32. destruct (peek 0 4 w) as [v| |] eqn:E; cbn; [|done|done].
  apply (holds_ret _ _ _ _ _ _ Hh) in E. rewrite Z.add_0_r in E. by rewrite E.
Qed.

Lemma lookup_offsets start l k b : l !! k = Some b -> offsets start l !! k = Some (start + zlen (concat (take k l))).
Proof.
  revert start k. induction l as [|c l IH]; intros start k Hk; [done|]. destruct k as [|k]; cbn; [by rewrite Z.add_0_r|].
  rewrite (IH _ _ Hk), length_app. f_equal. lia.
Qed.
Lemma lookup_string_hops off how l k item : l !! k = Some item ->
  string_hops off how l !! (2 * k)%nat = Some (off + zlen (concat (take k (string_blk how <$> l)))) /\
  string_hops off how l !! (2 * k + 1)%nat = Some (item_size how item).
Proof.
  revert off k. induction l as [|c l IH]; intros off k Hk; [done|]. destruct k as [|k]; rewrite string_hops_cons.
  { cbn in Hk. injection Hk as ->. cbn. by rewrite Z.add_0_r. }
  replace (2 * S k)%nat with (S (S (2 * k))) by lia. cbn [app lookup list_lookup Nat.add].
  destruct (IH (off + zlen (string_blk how c)) k Hk) as [E1 E2]. split; [|exact E2].
  etrans; [exact E1|]. cbn [fmap list_fmap take concat]. rewrite length_app. f_equal. lia.
Qed.

(** A piece of consecutive data. *)
Lemma holds_concat m at_ l k b : holds_at m at_ (concat l) -> l !! k = Some b -> holds_at m (at_ + zlen (concat (take k l))) b.
Proof. intros Hh Hk. rewrite <- (take_drop_middle l k b Hk), concat_app in Hh. cbn [concat] in Hh. by apply holds_sub in Hh. Qed.

(** Where the data of a field is. *)
Section Placed.
Context (fields : list field) (w : list Z) (qs : list (pointer (list Z))).
Abbreviation step := (image_step fields w qs).
Definition block_at (i : nat) (off : Z) : option (list Z) := qs !! i ≫= fun q => block fields w i q off.

Lemma step_eq s i : step s i =
  match block_at i (data_start fields + zlen s.2) with
  | Some blk => (<[rel_index fields i := data_start fields + zlen s.2]> s.1, s.2 ++ blk)
  | None => (<[rel_index fields i := 0]> s.1, s.2)
  end.
Proof. by destruct s. Qed.

Lemma steps_other l s j :
  (forall i, i ∈ l -> i ∈ order fields) -> j ∈ order fields -> j ∉ l -> (foldl step s l).1 !! rel_index fields j = s.1 !! rel_index fields j.
Proof.
  revert s. induction l as [|i l IH]; intros s Hl Hj Hn; cbn [foldl]; [done|].
  rewrite IH; [|intros k Hk; apply Hl; by right|done|intros Hin; apply Hn; by right].
  assert (Hne : rel_index fields i <> rel_index fields j).
  { intros E. apply rel_index_inj in E as ->; [apply Hn; by left|apply Hl; by left|done]. }
  rewrite step_eq. destruct (block_at i _); cbn [fst]; by rewrite list_lookup_insert_ne.
Qed.

Lemma steps_placed l s i :
  NoDup l -> (forall i, i ∈ l -> i ∈ order fields) -> length s.1 = length (relptr_fields fields) -> i ∈ l ->
  exists off, data_start fields + zlen s.2 <= off /\
    match block_at i off with
    | Some blk => (foldl step s l).1 !! rel_index fields i = Some off /\
        exists before after, (foldl step s l).2 = before ++ blk ++ after /\ data_start fields + zlen before = off
    | None => (foldl step s l).1 !! rel_index fields i = Some 0
    end.
Proof.
  revert s. induction l as [|j l IH]; intros s Hnd Hl Hs Hi; [by apply elem_of_nil in Hi|]. apply NoDup_cons in Hnd as [Hn Hnd]. cbn [foldl].
  assert (Hl' : forall k, k ∈ l -> k ∈ order fields) by (intros k Hk; apply Hl; by right). pose proof (step_eq s j) as E.
  assert (Hs' : length (step s j).1 = length (relptr_fields fields)) by (rewrite E; destruct (block_at j _); cbn [fst]; by rewrite length_insert).
  apply elem_of_cons in Hi as [->|Hi].
  - exists (data_start fields + zlen s.2). split; [lia|]. assert (Hj : j ∈ order fields) by (apply Hl; by left).
    pose proof (rel_index_lt fields j Hj) as Hlt. destruct (block_at j (data_start fields + zlen s.2)) as [blk|]; rewrite (steps_other l _ j Hl' Hj Hn), E; cbn [fst].
    + split; [by rewrite list_lookup_insert_eq by lia|]. clear IH. 
      assert (Em : forall t, exists ext, (foldl step t l).2 = t.2 ++ ext).
      { clear. induction l as [|k l IH]; intros t; cbn [foldl]; [exists []; by rewrite app_nil_r|]. destruct (IH (step t k)) as [e ->]. rewrite step_eq.
        destruct (block_at k _); cbn [snd]; [rewrite <- app_assoc; by eexists|by eexists]. }
      destruct (Em (<[rel_index fields j:=data_start fields + zlen s.2]> s.1, s.2 ++ blk)) as [ext ->]. exists s.2, ext. cbn [snd]. by rewrite <- app_assoc.
    + by rewrite list_lookup_insert_eq by lia.
  - destruct (IH (step s j) Hnd Hl' Hs' Hi) as (off & Hle & Hoff). exists off. split; [|done]. etrans; [|exact Hle].
    rewrite E. destruct (block_at j _); cbn [snd]; [rewrite length_app|]; lia.
Qed.
End Placed.

(** The relative pointer of a field, and the data it points to. *)
Lemma image_field w ps tag fields i fd p m msg :
  get_tag w 0 = Ret tag -> fields_of msgs tag = Some fields -> zlen w = wire_size fields -> length ps = length fields -> i ∈ order fields ->
  fields !! i = Some fd -> ps !! i = Some p -> holds_at m msg (image (mkBuilder w ps)) -> zlen (image (mkBuilder w ps)) < 2 ^ 32 ->
  exists off, 0 < off /\
    match block fields w i (pointer_map image p) off with
    | Some blk => relptr msgs tag i m msg = Ret off /\ holds_at m (msg + off) blk /\ off + zlen blk <= zlen (image (mkBuilder w ps))
    | None => relptr msgs tag i m msg = Ret 0
    end.
Proof.
  intros Ht Hf Hw Hps Hi Hfd Hp Hh Hb. rewrite (image_msg_eq _ _ _ _ Ht Hf) in Hh, Hb |- *.
  destruct (steps_placed fields w (map (pointer_map image) ps) (order fields) (image_init fields) i (NoDup_order fields) ltac:(done)) as (off & Hle & Hoff);
    [cbn; by rewrite length_replicate|done|].
  set (s' := foldl _ _ _) in *. unfold block_at in Hoff. rewrite (lookup_pointers _ _ _ _ Hp) in Hoff. cbn [option_bind mbind] in Hoff.
  assert (Hr : forall n, s'.1 !! rel_index fields i = Some n -> 0 <= n < 2 ^ 32 -> relptr msgs tag i m msg = Ret n).
  { intros n Hn Hrange. unfold relptr, checked. rewrite (holds_tag w _ _ tag); [|by apply holds_head in Hh|done]. cbn [mbind outcome_bind].
    rewrite Z.eqb_refl. cbn. rewrite Hf. cbn. unfold relptr_at. rewrite (proj1 (rel_index_spec _ _ Hi)). cbn.
    apply (holds_u32s _ _ s'.1); [|done|done]. apply holds_sub in Hh. by rewrite Hw in Hh. }
  assert (Hw4 : 4 <= zlen w).
  { unfold get_tag, peek_u32 in Ht. destruct (peek 0 4 w) as [v| |] eqn:E; [|done|done]. apply peek_ret in E. lia. }
  exists off. split; [unfold data_start, relptrs_size in Hle; lia|]. destruct (block fields w i _ off) as [blk|] eqn:Eb; [|by apply Hr].
  destruct Hoff as (Hri & before & after & Es & Hoff).
  assert (Lr : zlen (w ++ u32s s'.1) = data_start fields).
  { rewrite length_app, Nat2Z.inj_add, length_u32s. unfold s'. rewrite steps_rels. cbn. rewrite length_replicate. unfold data_start, relptrs_size. lia. }
  rewrite Es, app_assoc in Hh, Hb |- *. rewrite length_app, Nat2Z.inj_add, Lr, !length_app in Hb |- *.
  split; [|split; [|lia]].
  - apply Hr; [done|lia].
  - rewrite app_assoc in Hh. apply holds_sub in Hh. by replace (zlen ((w ++ u32s s'.1) ++ before)) with off in Hh by (rewrite length_app; lia).
Qed.

Lemma mapM_ext {A B} (f g : A -> outcome B) l : (forall x, x ∈ l -> f x = g x) -> mapM f l = mapM g l.
Proof.
  induction l as [|x l IH]; intros Hl; [done|]. cbn. rewrite (Hl x) by (by left). destruct (g x); cbn; [|done|done].
  rewrite IH; [done|]. intros y Hy. apply Hl. by right.
Qed.
Lemma items_ext {A} n (f g : Z -> outcome A) : (forall idx, 0 <= idx < n -> f idx = g idx) -> items_of n f = items_of n g.
Proof. intros H. apply mapM_ext. intros k Hk. apply elem_of_seq in Hk. apply H. lia. Qed.

Lemma mapM_ret {A B} (f : A -> outcome B) l : (forall x, x ∈ l -> exists v, f x = Ret v) -> exists vs, mapM f l = Ret vs.
Proof.
  induction l as [|x l IH]; intros Hl; [by exists []|]. destruct (Hl x ltac:(by left)) as [v Hv].
  destruct IH as [vs Hvs]; [intros y Hy; apply Hl; by right|]. exists (v :: vs). cbn. by rewrite Hv, Hvs.
Qed.
Lemma items_ret {A} n (f : Z -> outcome A) : (forall idx, 0 <= idx < n -> exists v, f idx = Ret v) -> exists vs, items_of n f = Ret vs.
Proof. intros H. apply mapM_ret. intros k Hk. apply elem_of_seq in Hk. apply H. lia. Qed.

(** The getters on a builder and on its image. *)
Section Read.
Context (w : list Z) (ps : list (pointer builder)) (tag : Z) (fields : list field) (m : list Z) (msg : Z).
Context (Ht : get_tag w 0 = Ret tag) (Hf : fields_of msgs tag = Some fields) (Hw : zlen w = wire_size fields) (Hps : length ps = length fields).
Context (Hwf : forall i fd p, fields !! i = Some fd -> ps !! i = Some p -> wf_pointer fields w i fd p).
Context (Hh : holds_at m msg (image (mkBuilder w ps))) (Hb : zlen (image (mkBuilder w ps)) < 2 ^ 32).
Abbreviation b := (mkBuilder w ps).

Lemma holds_wire : holds_at m msg w.
Proof. rewrite (image_msg_eq _ _ _ _ Ht Hf) in Hh. by apply holds_head in Hh. Qed.
Lemma checked_builder : checked msgs tag w 0 = Ret fields.
Proof. unfold checked. rewrite Ht. cbn. by rewrite Z.eqb_refl, Hf. Qed.
Lemma checked_serialized : checked msgs tag m msg = Ret fields.
Proof. unfold checked. rewrite (holds_tag _ _ _ _ holds_wire Ht). cbn. by rewrite Z.eqb_refl, Hf. Qed.

Context (i : nat) (fd : field) (p : pointer builder) (Hi : fields !! i = Some fd) (Hp : ps !! i = Some p).

Lemma builder_pointer_eq : builder_pointer msgs tag i b = Ret p.
Proof. unfold builder_pointer. cbn [wire]. rewrite checked_builder. cbn. by rewrite Hp. Qed.

Lemma count_eq n : get_u32 fields (MCount i) w 0 = Ret n -> get_count msgs tag i w 0 = Ret n /\ get_count msgs tag i m msg = Ret n.
Proof.
  intros E. unfold get_count. rewrite checked_builder, checked_serialized. cbn. rewrite E. split; [done|]. by apply (holds_u32 _ _ w _ _ _ holds_wire).
Qed.
Lemma len_eq n : get_u32 fields (MLen i) w 0 = Ret n -> get_len msgs tag i w 0 = Ret n /\ get_len msgs tag i m msg = Ret n.
Proof.
  intros E. unfold get_len. rewrite checked_builder, checked_serialized. cbn. rewrite E. split; [done|]. by apply (holds_u32 _ _ w _ _ _ holds_wire).
Qed.
Lemma in_range_eq n idx : get_u32 fields (MCount i) w 0 = Ret n -> idx < n -> in_range msgs tag i idx w 0 = Ret tt /\ in_range msgs tag i idx m msg = Ret tt.
Proof.
  intros [E1 E2]%count_eq Hidx. unfold in_range. rewrite E1, E2. cbn. by rewrite (proj2 (Z.ltb_lt idx n) Hidx).
Qed.

Lemma scalar_eq :
  quant fd <> ARRAY -> is_scalar fd = true -> wf_pointer fields w i fd p ->
  (quant fd = OPTIONAL -> serialized_has msgs tag i m msg = builder_has msgs tag i b) /\ get_scalar msgs tag i m msg = get_scalar msgs tag i w 0.
Proof.
  intros Hna Hsc Hwp. unfold wf_pointer in Hwp. unfold is_scalar in Hsc. destruct (ftype fd) as [size align| |] eqn:Et; try done.
  assert (Hpn : p = PNone /\ (exists v, get_member fields (MScalar i) w 0 = Ret v) /\ (quant fd = OPTIONAL -> exists h, get_has fields i w 0 = Ret h))
    by (destruct (quant fd), p; done).
  destruct Hpn as (Ep & (v & Ev) & Hhas). split.
  - intros Ho. destruct (Hhas Ho) as [h Eh]. unfold serialized_has, builder_has, has_scalar. rewrite builder_pointer_eq, Ep, checked_serialized. cbn.
    rewrite Hi, checked_builder. unfold is_scalar. rewrite Et. cbn. rewrite Eh. by apply (holds_has _ _ w _ _ _ holds_wire).
  - unfold get_scalar. rewrite checked_builder, checked_serialized. cbn. rewrite Hi. pose proof (holds_member _ _ w _ _ _ holds_wire Ev) as Ev'.
    case_bool_decide as Ho; [|by rewrite Ev, Ev']. destruct (Hhas Ho) as [h Eh]. rewrite Eh, (holds_has _ _ w _ _ _ holds_wire Eh). cbn.
    destruct h; cbn; [by rewrite Ev, Ev'|done].
Qed.

(** What the traversals find, given that they agree on nested messages. *)
Context (sn : Z -> outcome message) (bn : builder -> outcome message).
Context (Hnested : forall sub at_, sub ∈ subs p -> holds_at m at_ (image sub) -> zlen (image sub) < zlen (image b) -> exists v, sn at_ = Ret v /\ bn sub = Ret v).
Definition agree {A} (x y : outcome A) : Prop := exists v, x = Ret v /\ y = Ret v.
Abbreviation field_agrees := (agree (serialized_field msgs sn m msg tag i fd) (builder_field msgs bn b tag i fd)).

Lemma scalar_agrees : quant fd <> ARRAY -> is_scalar fd = true -> wf_pointer fields w i fd p -> field_agrees.
Proof.
  intros Hna Hsc Hwp. destruct (scalar_eq Hna Hsc Hwp) as [Hhas Hsca]. unfold is_scalar in Hsc. unfold wf_pointer in Hwp.
  destruct (ftype fd) as [size align| |] eqn:Et; try done.
  assert (Hpn : p = PNone /\ (exists v, get_member fields (MScalar i) w 0 = Ret v) /\ (quant fd = OPTIONAL -> exists h, get_has fields i w 0 = Ret h))
    by (destruct (quant fd), p; done).
  destruct Hpn as (Ep & (v & Ev) & Hh'). unfold serialized_field, builder_field, value_of. cbn [wire]. rewrite Et, Hsca. clear Hsca.
  assert (Hg : get_scalar msgs tag i w 0 = (_ ← (if bool_decide (quant fd = OPTIONAL) then has ← get_has fields i w 0; assert has else Ret tt); Ret v)).
  { unfold get_scalar. rewrite checked_builder. cbn. rewrite Hi. by rewrite Ev. }
  destruct (quant fd) eqn:Eq; [|rewrite (Hhas eq_refl)|done]; cbn [bool_decide] in *.
  - exists (VScalar (Some v)). cbn. by rewrite Hg.
  - destruct (Hh' eq_refl) as [h Eh].
    assert (Ebh : builder_has msgs tag i b = Ret h).
    { unfold builder_has, has_scalar. rewrite builder_pointer_eq, Ep. cbn. by rewrite checked_builder. }
    rewrite Ebh. rewrite Eh in Hg. destruct h; cbn in *; [exists (VScalar (Some v)); by rewrite Hg|by exists (VScalar None)].
Qed.

Context (Ho : i ∈ order fields).

Lemma field_data : exists off, 0 < off /\
  match block fields w i (pointer_map image p) off with
  | Some blk => relptr msgs tag i m msg = Ret off /\ holds_at m (msg + off) blk /\ off + zlen blk <= zlen (image b)
  | None => relptr msgs tag i m msg = Ret 0
  end.
Proof. by eapply image_field. Qed.

Lemma scalars_at_eq data n size align idx :
  p = PScalars data -> ftype fd = SCALAR size align -> get_u32 fields (MCount i) w 0 = Ret n -> 0 < size -> n * size <= zlen data -> 0 <= idx < n ->
  serialized_get_scalar_at msgs tag i idx m msg = builder_get_scalar_at msgs tag i idx b.
Proof.
  intros Ep Et En Hs Hd Hidx. destruct (in_range_eq n idx En ltac:(lia)) as [E1 E2]. destruct field_data as (off & Hoff & Hdata).
  unfold serialized_get_scalar_at, builder_get_scalar_at. cbn [wire]. rewrite E1, E2, builder_pointer_eq, Ep, Hf. cbn [mbind outcome_bind option_bind]. rewrite Hi.
  unfold block in Hdata. rewrite Ep, Hi in Hdata. cbn [pointer_map] in Hdata. unfold count_of in Hdata. rewrite En in Hdata. cbn [ret_or] in Hdata.
  rewrite (proj2 (Z.ltb_lt 0 n)) in Hdata by lia. destruct Hdata as (-> & Hblk & _). cbn [mbind outcome_bind]. unfold sizeof in Hblk |- *. rewrite Et in Hblk |- *.
  apply holds_head in Hblk.
  assert (L : zlen (take (Z.to_nat (n * size)) data) = n * size) by (rewrite length_take; nia).
  rewrite (holds_peek _ _ _ _ _ Hblk), peek_take by nia. done.
Qed.

Lemma string_eq v len :
  p = PString v -> is_scalar fd = false -> get_u32 fields (MLen i) w 0 = Ret len -> (forall mem, v = Some mem -> 0 <= len < zlen mem) ->
  serialized_has msgs tag i m msg = builder_has msgs tag i b /\
  (is_Some v -> serialized_get_string_as_string msgs tag i m msg = builder_get_string_as_string msgs tag i b).
Proof.
  intros Ep Hns El Hlen. destruct (len_eq len El) as [E1 E2]. destruct field_data as (off & Hoff & Hdata).
  unfold block in Hdata. rewrite Ep, Hi in Hdata. cbn [pointer_map] in Hdata.
  unfold serialized_has, builder_has, serialized_get_string_as_string, serialized_get, builder_get_string_as_string. cbn [wire].
  rewrite builder_pointer_eq, checked_serialized, Ep. cbn [mbind outcome_bind]. rewrite Hi, Hns. destruct v as [mem|].
  - destruct Hdata as (-> & Hblk & _). cbn [mbind outcome_bind]. rewrite (proj2 (Z.eqb_neq off 0)) by lia. split; [by rewrite bool_decide_true|].
    intros _. rewrite E1, E2. cbn [mbind outcome_bind]. unfold len_of in Hblk. rewrite El in Hblk. cbn [ret_or] in Hblk. apply holds_head in Hblk.
    specialize (Hlen mem eq_refl). assert (L : zlen (take (Z.to_nat (len + 1)) mem) = len + 1) by (rewrite length_take; lia).
    pose proof (holds_peek _ _ _ 0 len Hblk ltac:(lia) ltac:(lia) ltac:(lia)) as E. rewrite Z.add_0_r in E. by rewrite E, peek_take by lia.
  - rewrite Hdata. cbn. split; [done|]. by intros [? ?].
Qed.

Lemma fbb_eq v :
  p = PFbb v -> is_scalar fd = false ->
  serialized_has msgs tag i m msg = builder_has msgs tag i b /\ builder_get_fbb msgs tag i b = Ret v /\
  forall sub, v = Some sub -> exists at_, serialized_get msgs tag i m msg = Ret (Some at_) /\ holds_at m at_ (image sub) /\ zlen (image sub) < zlen (image b).
Proof.
  intros Ep Hns. destruct field_data as (off & Hoff & Hdata). unfold block in Hdata. rewrite Ep, Hi in Hdata. cbn [pointer_map] in Hdata.
  unfold serialized_has, builder_has, builder_get_fbb, serialized_get. rewrite builder_pointer_eq, checked_serialized, Ep. cbn [mbind outcome_bind].
  rewrite Hi, Hns. destruct v as [sub|].
  - destruct Hdata as (-> & Hblk & Hle). cbn [mbind outcome_bind]. rewrite (proj2 (Z.eqb_neq off 0)) by lia. split; [done|]. split; [done|].
    intros sub' [= <-]. exists (msg + off). split_and!; [done|done|lia].
  - rewrite Hdata. cbn. split; [done|]. split; [done|]. done.
Qed.

Lemma strings_at_eq how items n idx :
  p = PStrings how items -> get_u32 fields (MCount i) w 0 = Ret n -> n <= zlen items -> Forall (item_ok how) items -> 0 <= idx < n ->
  (str ← serialized_get_string_at msgs tag i idx m msg; len ← serialized_get_len_at msgs tag i idx m msg; peek str len m) =
  ('(str, len) ← builder_get_string_with_len_at msgs tag i idx b; peek 0 len str).
Proof.
  intros Ep En Hn Hok Hidx. destruct (in_range_eq n idx En ltac:(lia)) as [E1 E2]. destruct field_data as (off & Hoff & Hdata).
  unfold block in Hdata. rewrite Ep, Hi in Hdata. cbn [pointer_map] in Hdata. unfold count_of in Hdata. rewrite En in Hdata. cbn [ret_or] in Hdata.
  rewrite (proj2 (Z.ltb_lt 0 n)) in Hdata by lia. destruct Hdata as (Er & Hblk & Hle). set (l := take (Z.to_nat n) items) in *.
  destruct (lookup_lt_is_Some_2 l (Z.to_nat idx)) as [item Hitem]; [unfold l; rewrite length_take; lia|].
  pose proof Hitem as Hit. unfold l in Hit. apply lookup_take_Some in Hit as [Hit _].
  destruct (Forall_lookup_1 _ _ _ _ Hok Hit) as (len & El & Hlen). destruct (lookup_string_hops (off + 8 * n) how l _ _ Hitem) as [K1 K2].
  assert (Hl : zlen l = n) by (unfold l; rewrite length_take; lia).
  assert (Hsplit : string_blk how <$> l !! Z.to_nat idx = Some (string_blk how item)) by (by rewrite Hitem).
  rewrite <- list_lookup_fmap in Hsplit. pose proof Hblk as Hhops. apply holds_head in Hhops.
  assert (Hstrs : holds_at m (msg + off + 8 * n) (concat (string_blk how <$> l))).
  { rewrite <- (app_nil_r (concat _)) in Hblk. apply holds_sub in Hblk. rewrite length_u32s, length_string_hops, Hl in Hblk.
    by replace (msg + off + 8 * n) with (msg + off + 4 * (2 * n)) by lia. }
  rewrite length_app, Nat2Z.inj_add, length_u32s, length_string_hops, Hl in Hle.
  pose proof (holds_concat _ _ _ _ _ Hstrs Hsplit) as Hstr. set (k := zlen (concat (take (Z.to_nat idx) (string_blk how <$> l)))) in *.
  assert (Hk : 0 <= k /\ k + zlen (string_blk how item) <= zlen (concat (string_blk how <$> l))).
  { rewrite <- (take_drop_middle _ _ _ Hsplit) at 1. rewrite concat_app, length_app. unfold k. cbn [concat]. rewrite length_app. lia. }
  pose proof (string_blk_length _ _ _ El Hlen) as Lb. pose proof (Z.mod_pos_bound (- (len + 1)) 8 ltac:(lia)).
  assert (Es : item_size how item = len) by (unfold item_size; by rewrite El).
  unfold serialized_get_string_at, serialized_get_len_at, builder_get_string_with_len_at. cbn [wire].
  rewrite E1, E2, Er, builder_pointer_eq, Ep. cbn [mbind outcome_bind]. rewrite Hit, El. cbn [mbind outcome_bind].
  replace (4 * (2 * idx)) with (4 * Z.of_nat (2 * Z.to_nat idx)) by lia. rewrite (holds_u32s _ _ _ _ _ Hhops K1) by lia. cbn [mbind outcome_bind].
  replace (4 * (2 * idx + 1)) with (4 * Z.of_nat (2 * Z.to_nat idx + 1)) by lia. rewrite (holds_u32s _ _ _ _ _ Hhops K2) by lia. cbn [mbind outcome_bind].
  apply holds_head in Hstr. rewrite Es in Hstr |- *. assert (L : zlen (take (Z.to_nat (len + 1)) item.1) = len + 1) by (rewrite length_take; lia).
  pose proof (holds_peek _ _ _ 0 len Hstr ltac:(lia) ltac:(lia) ltac:(lia)) as E. rewrite Z.add_0_r, peek_take in E by lia.
  rewrite <- E. f_equal. lia.
Qed.

Lemma fbbs_at_eq items n idx :
  p = PFbbs items -> get_u32 fields (MCount i) w 0 = Ret n -> n <= zlen items -> 0 <= idx < n ->
  exists at_ sub, serialized_get_fbb_at msgs tag i idx m msg = Ret at_ /\ builder_get_fbb_at msgs tag i idx b = Ret sub /\
    sub ∈ items /\ holds_at m at_ (image sub) /\ zlen (image sub) < zlen (image b).
Proof.
  intros Ep En Hn Hidx. destruct (in_range_eq n idx En ltac:(lia)) as [E1 E2]. destruct field_data as (off & Hoff & Hdata).
  unfold block in Hdata. rewrite Ep, Hi in Hdata. cbn [pointer_map] in Hdata. unfold count_of in Hdata. rewrite En in Hdata. cbn [ret_or] in Hdata.
  rewrite (proj2 (Z.ltb_lt 0 n)) in Hdata by lia. destruct Hdata as (Er & Hblk & Hle).
  destruct (lookup_lt_is_Some_2 items (Z.to_nat idx)) as [sub Hsub]; [lia|].
  change (map image items) with (image <$> items) in Hblk, Hle. set (l := take (Z.to_nat n) (image <$> items)) in *.
  assert (Hlk : l !! Z.to_nat idx = Some (image sub)) by (unfold l; rewrite lookup_take_lt, list_lookup_fmap, Hsub by lia; done).
  assert (Hl : zlen l = n) by (unfold l; rewrite length_take, length_fmap; lia).
  set (start := off + 4 * n + (- (4 * n)) mod 8) in *. pose proof (lookup_offsets start l _ _ Hlk) as K.
  assert (Lp : zlen (pad8 (u32s (offsets start l))) = start - off) by (rewrite length_pad8, length_u32s, length_offsets, Hl; unfold start; lia).
  assert (Himgs : holds_at m (msg + start) (concat l)).
  { rewrite <- (app_nil_r (concat l)) in Hblk. apply holds_sub in Hblk. by replace (msg + start) with (msg + off + zlen (pad8 (u32s (offsets start l)))) by lia. }
  apply holds_head in Hblk. unfold pad8 in Hblk. apply holds_head in Hblk. rewrite length_app, Nat2Z.inj_add, Lp in Hle.
  pose proof (holds_concat _ _ _ _ _ Himgs Hlk) as Himg. set (k := zlen (concat (take (Z.to_nat idx) l))) in *.
  assert (Hk : 0 <= k /\ k + zlen (image sub) <= zlen (concat l)).
  { rewrite <- (take_drop_middle _ _ _ Hlk) at 1. rewrite concat_app, length_app. unfold k. cbn [concat]. rewrite length_app. lia. }
  pose proof (Z.mod_pos_bound (- (4 * n)) 8 ltac:(lia)). exists (msg + (start + k)), sub.
  unfold serialized_get_fbb_at, builder_get_fbb_at. cbn [wire]. rewrite E1, E2, Er, builder_pointer_eq, Ep. cbn [mbind outcome_bind]. rewrite Hsub.
  replace (4 * idx) with (4 * Z.of_nat (Z.to_nat idx)) by lia. rewrite (holds_u32s _ _ _ _ _ Hblk K) by (unfold start in *; lia). cbn [mbind outcome_bind].
  split_and!; [done|done|by apply list_elem_of_lookup_2 in Hsub| |unfold start in *; lia]. by replace (msg + (start + k)) with (msg + start + k) by lia.
Qed.


Lemma scalars_agree data n size align :
  p = PScalars data -> quant fd = ARRAY -> ftype fd = SCALAR size align -> get_u32 fields (MCount i) w 0 = Ret n -> 0 < size -> n * size <= zlen data ->
  field_agrees.
Proof.
  intros Ep Eq Et En Hs Hd. destruct (count_eq n En) as [E1 E2]. unfold serialized_field, builder_field, value_of. cbn [wire].
  rewrite Eq, Et, E1, E2. cbn [mbind outcome_bind]. rewrite (items_ext n _ (fun idx => builder_get_scalar_at msgs tag i idx b)) by (intros; by eapply scalars_at_eq).
  destruct (items_ret n (fun idx => builder_get_scalar_at msgs tag i idx b)) as [vs ->]; [|by exists (VScalars vs)].
  intros idx Hidx. destruct (in_range_eq n idx En ltac:(lia)) as [E3 _]. unfold builder_get_scalar_at. cbn [wire].
  rewrite E3, builder_pointer_eq, Ep, Hf. cbn [mbind outcome_bind option_bind]. rewrite Hi. unfold sizeof. rewrite Et. unfold peek.
  replace (_ && _ && _) with true by (symmetry; rewrite !andb_true_iff, !Z.leb_le; nia). by eexists.
Qed.

Lemma string_agrees v len :
  p = PString v -> quant fd <> ARRAY -> ftype fd = STRING -> (quant fd = REQUIRED -> v <> None) -> get_u32 fields (MLen i) w 0 = Ret len ->
  (forall mem, v = Some mem -> 0 <= len < zlen mem) -> field_agrees.
Proof.
  intros Ep Hna Et Hreq El Hlen. destruct (string_eq v len Ep) as [Eh Es]; [unfold is_scalar; by rewrite Et|done|done|].
  unfold serialized_field, builder_field, value_of. rewrite Et, Eh.
  assert (Ebh : builder_has msgs tag i b = Ret (bool_decide (is_Some v))) by (unfold builder_has; by rewrite builder_pointer_eq, Ep).
  rewrite Ebh. destruct v as [mem|].
  - rewrite Es by done. specialize (Hlen mem eq_refl). destruct (len_eq len El) as [E1 _].
    assert (Ev : builder_get_string_as_string msgs tag i b = Ret (take (Z.to_nat len) mem)).
    { unfold builder_get_string_as_string. cbn [wire]. rewrite builder_pointer_eq, Ep. cbn [mbind outcome_bind]. rewrite E1. cbn [mbind outcome_bind]. unfold peek.
      replace (_ && _ && _) with true by (symmetry; rewrite !andb_true_iff, !Z.leb_le; lia). done. }
    rewrite Ev. exists (VString (Some (take (Z.to_nat len) mem))). destruct (quant fd); done.
  - exists (VString None). destruct (quant fd); [by destruct (Hreq eq_refl)|done|done].
Qed.

Lemma fbb_agrees v : p = PFbb v -> quant fd <> ARRAY -> ftype fd = FBB -> (quant fd = REQUIRED -> v <> None) -> field_agrees.
Proof.
  intros Ep Hna Et Hreq. destruct (fbb_eq v Ep) as (Eh & Eg & Es); [unfold is_scalar; by rewrite Et|].
  unfold serialized_field, builder_field, value_of. rewrite Et, Eh, Eg.
  assert (Ebh : builder_has msgs tag i b = Ret (match v with Some _ => true | None => false end)) by (unfold builder_has; by rewrite builder_pointer_eq, Ep).
  rewrite Ebh. destruct v as [sub|].
  - destruct (Es sub eq_refl) as (at_ & -> & Hat & Hlt). destruct (Hnested sub at_) as (r & E1 & E2); [rewrite Ep; by left|done|done|].
    exists (VFbb (Some r)). destruct (quant fd); cbn; by rewrite ?E1, ?E2.
  - exists (VFbb None). destruct (quant fd); [by destruct (Hreq eq_refl)|done|done].
Qed.

Lemma strings_agree how items n :
  p = PStrings how items -> quant fd = ARRAY -> ftype fd = STRING -> get_u32 fields (MCount i) w 0 = Ret n -> n <= zlen items ->
  Forall (item_ok how) items -> field_agrees.
Proof.
  intros Ep Eq Et En Hle Hok. destruct (count_eq n En) as [E1 E2]. unfold serialized_field, builder_field, value_of. cbn [wire].
  rewrite Eq, Et, E1, E2. cbn [mbind outcome_bind].
  rewrite (items_ext n _ (fun idx => '(str, len) ← builder_get_string_with_len_at msgs tag i idx b; peek 0 len str)) by (intros; by eapply strings_at_eq).
  edestruct (items_ret n (fun idx => '(str, len) ← builder_get_string_with_len_at msgs tag i idx b; peek 0 len str)) as [vs ->]; [|by exists (VStrings vs)].
  intros idx Hidx. destruct (in_range_eq n idx En ltac:(lia)) as [E3 _]. unfold builder_get_string_with_len_at. cbn [wire].
  destruct (lookup_lt_is_Some_2 items (Z.to_nat idx)) as [item Hit]; [lia|]. destruct (Forall_lookup_1 _ _ _ _ Hok Hit) as (len & El & Hlen).
  rewrite E3, builder_pointer_eq, Ep. cbn [mbind outcome_bind]. rewrite Hit, El. cbn [mbind outcome_bind]. unfold peek.
  replace (_ && _ && _) with true by (symmetry; rewrite !andb_true_iff, !Z.leb_le; lia). by eexists.
Qed.

Lemma fbbs_agree items n :
  p = PFbbs items -> quant fd = ARRAY -> ftype fd = FBB -> get_u32 fields (MCount i) w 0 = Ret n -> n <= zlen items -> field_agrees.
Proof.
  intros Ep Eq Et En Hle. destruct (count_eq n En) as [E1 E2]. unfold serialized_field, builder_field, value_of. cbn [wire].
  rewrite Eq, Et, E1, E2. cbn [mbind outcome_bind].
  assert (Hall : forall idx, 0 <= idx < n -> agree (at_ ← serialized_get_fbb_at msgs tag i idx m msg; sn at_) (sub ← builder_get_fbb_at msgs tag i idx b; bn sub)).
  { intros idx Hidx. destruct (fbbs_at_eq items n idx Ep En Hle Hidx) as (at_ & sub & -> & -> & Hin & Hat & Hlt). apply Hnested; [|done|done]. by rewrite Ep. }
  rewrite (items_ext n _ (fun idx => sub ← builder_get_fbb_at msgs tag i idx b; bn sub)) by (intros idx Hidx; by destruct (Hall idx Hidx) as (v & -> & ->)).
  edestruct (items_ret n (fun idx => sub ← builder_get_fbb_at msgs tag i idx b; bn sub)) as [vs ->]; [|by exists (VFbbs vs)].
  intros idx Hidx. destruct (Hall idx Hidx) as (v & _ & E). by exists v.
Qed.
End Read.


Lemma order_kinds fields i fd : fields !! i = Some fd -> quant fd = ARRAY \/ is_scalar fd = false -> i ∈ order fields.
Proof.
  intros Hf Hk. apply elem_of_order, elem_of_indices. exists fd. split; [done|]. unfold is_array, is_scalar, is_string, is_fbb in *.
  destruct (quant fd), (ftype fd), Hk; done.
Qed.

Lemma fields_agree w ps tag fields m msg sn bn i fd p :
  get_tag w 0 = Ret tag -> fields_of msgs tag = Some fields -> zlen w = wire_size fields -> length ps = length fields ->
  holds_at m msg (image (mkBuilder w ps)) -> zlen (image (mkBuilder w ps)) < 2 ^ 32 -> fields !! i = Some fd -> ps !! i = Some p ->
  wf_pointer fields w i fd p ->
  (forall sub at_, sub ∈ subs p -> holds_at m at_ (image sub) -> zlen (image sub) < zlen (image (mkBuilder w ps)) -> exists v, sn at_ = Ret v /\ bn sub = Ret v) ->
  agree (serialized_field msgs sn m msg tag i fd) (builder_field msgs bn (mkBuilder w ps) tag i fd).
Proof.
  intros Ht Hf Hw Hps Hh Hb Hi Hp Hwp Hn. pose proof (order_kinds fields i fd Hi) as Ho. unfold is_scalar in Ho.
  destruct (quant fd) eqn:Eq, (ftype fd) as [size align| |] eqn:Et; pose proof Hwp as Hwp'; unfold wf_pointer in Hwp'; rewrite Eq, Et in Hwp';
    destruct p as [|data|v|v|how items|items] eqn:Ep; try done.
  - eapply scalar_agrees; try done; [by rewrite Eq|unfold is_scalar; by rewrite Et].
  - destruct Hwp' as (Hreq & len & El & Hlen). eapply string_agrees; try done; [by apply Ho; right|by rewrite Eq|].
    intros _. by apply Hreq.
  - eapply fbb_agrees; try done; [by apply Ho; right|by rewrite Eq|]. intros _. by apply Hwp'.
  - eapply scalar_agrees; try done; [by rewrite Eq|unfold is_scalar; by rewrite Et].
  - destruct Hwp' as (Hreq & len & El & Hlen). eapply string_agrees; try done; [by apply Ho; right|by rewrite Eq|by rewrite Eq].
  - eapply fbb_agrees; try done; [by apply Ho; right|by rewrite Eq|by rewrite Eq].
  - destruct Hwp' as (n & En & H0 & Hs & Hd). eapply scalars_agree; try done. by apply Ho; left.
  - destruct Hwp' as (n & En & Hle & Hok). eapply strings_agree; try done; [by apply Ho; left|lia].
  - destruct Hwp' as (n & En & Hle). eapply fbbs_agree; try done; [by apply Ho; left|lia].
Qed.

Lemma mapM_agree {A} (l : list A) (f g : nat -> A -> outcome value) :
  (forall i x, l !! i = Some x -> agree (f i x) (g i x)) -> agree (mapM id (imap f l)) (mapM id (imap g l)).
Proof.
  revert f g. induction l as [|x l IH]; intros f g Hl; [by exists []|]. destruct (Hl 0%nat x eq_refl) as (v & E1 & E2).
  destruct (IH (f ∘ S) (g ∘ S)) as (vs & E3 & E4); [intros i y Hy; by apply (Hl (S i))|]. exists (v :: vs). cbn. by rewrite E1, E2, E3, E4.
Qed.

Lemma wf_values b : wf b -> forall fuel m msg,
  holds_at m msg (image b) -> zlen (image b) < 2 ^ 32 -> (length (image b) <= fuel)%nat -> agree (serialized_value msgs fuel m msg) (builder_value msgs fuel b).
Proof.
  induction 1 as [w ps tag fields Ht Hf Hw Hps Hwf Hsub IH]. intros fuel m msg Hh Hb Hfuel.
  assert (Hne : 4 <= zlen w) by (unfold get_tag, peek_u32 in Ht; destruct (peek 0 4 w) eqn:E; try done; apply peek_ret in E; lia).
  assert (Hh' : holds_at m msg w) by (rewrite (image_msg_eq _ _ _ _ Ht Hf) in Hh; by apply holds_head in Hh).
  assert (Hi : (length w <= length (image (mkBuilder w ps)))%nat) by (rewrite (image_msg_eq _ _ _ _ Ht Hf), length_app; lia).
  destruct fuel as [|fuel]; [lia|]. cbn [serialized_value builder_value wire]. unfold message_of. rewrite (holds_tag _ _ _ _ Hh' Ht), Ht.
  cbn [mbind outcome_bind]. rewrite Hf.
  destruct (mapM_agree fields (serialized_field msgs (serialized_value msgs fuel m) m msg tag) (builder_field msgs (builder_value msgs fuel) (mkBuilder w ps) tag))
    as (vs & -> & ->); [|by exists (mkMessage tag vs)].
  intros i fd Hi'. destruct (lookup_lt_is_Some_2 ps i) as [p Hp]; [rewrite Hps; by eapply lookup_lt_Some|].
  apply (fields_agree w ps tag fields m msg _ _ i fd p); try done; [by apply Hwf|].
  intros sub at_ Hin Hat Hlt. apply (IH p); [by apply list_elem_of_lookup_2 in Hp|done|done|lia|lia].
Qed.

(** C20. A message is serialized to exactly the memory that it was measured to need: the returned
    sizes agree, nothing around it is changed, and what is written does not depend on what was
    there before. *)
Theorem serialize_measured b :
  wf b -> zlen (image b) < 2 ^ 32 ->
  exists size img, measure msgs b = Ret size /\ zlen img = size /\ size mod 8 = 0 /\
    forall before old after, zlen old = size ->
      serialize msgs b (zlen before) (before ++ old ++ after) = Ret (size, before ++ img ++ after).
Proof.
  intros Hwf Hb. destruct (wf_ser_ok b Hwf) as [Hm Hs]. exists (zlen (image b)), (image b). split_and!; [by apply wf_meas_ok|done|done|].
  intros before old after Hold. apply Hs; [lia|done].
Qed.

(** C19. The getters of the serialized form of a message find in it, wherever it is in memory, what
    the getters of the builder find, in all fields and in nested messages. *)
Theorem fbb_roundtrip b size before old after :
  wf b -> zlen (image b) < 2 ^ 32 -> measure msgs b = Ret size -> zlen old = size ->
  exists mem v, serialize msgs b (zlen before) (before ++ old ++ after) = Ret (size, mem) /\
    serialized_value msgs (Z.to_nat size) mem (zlen before) = Ret v /\ builder_value msgs (Z.to_nat size) b = Ret v.
Proof.
  intros Hwf Hb Hm Hold. rewrite (wf_meas_ok b Hwf Hb) in Hm. injection Hm as <-. destruct (wf_ser_ok b Hwf) as [_ Hs].
  exists (before ++ image b ++ after).
  destruct (wf_values b Hwf (Z.to_nat (zlen (image b))) (before ++ image b ++ after) (zlen before)) as (v & E1 & E2); [by exists before, after|done|lia|].
  exists v. split_and!; [|done|done]. apply Hs; [lia|done].
Qed.

End Format.

(** ** A message with fields of all kinds *)

Definition sample_schema : schema :=
  [[mkField REQUIRED STRING "path"; mkField OPTIONAL (SCALAR 8 8) "size"; mkField ARRAY (SCALAR 1 1) "hash"; mkField OPTIONAL (SCALAR 4 4) "mode"];
   [mkField ARRAY FBB "file"; mkField ARRAY STRING "path_notexist"; mkField REQUIRED FBB "first"; mkField OPTIONAL STRING "cwd"]]%string.

Definition sample_file : builder := Eval vm_compute in
  ret_or (mkBuilder [] [])
    (b ← builder_init sample_schema 1;
     b ← set_string sample_schema 1 0 (Some [47; 97; 0]) b;
     b ← set_scalar sample_schema 1 1 (le_bytes 8 1000) b;
     set_scalars sample_schema 1 2 [1; 2; 3] 3 b).
Definition sample_message : builder := Eval vm_compute in
  ret_or (mkBuilder [] [])
    (b ← builder_init sample_schema 2;
     b ← set_fbbs sample_schema 2 0 [sample_file; sample_file] 2 b;
     b ← set_strings sample_schema FORMAT_ARRAY 2 1 [([47; 98; 0], 0); ([0], 0)] 2 b;
     set_fbb sample_schema 2 2 (Some sample_file) b).

(** One field of a concrete builder. *)
Ltac wf_field :=
  unfold wf_pointer, item_ok; cbn [quant ftype];
  repeat match goal with
    | |- _ /\ _ => split
    | |- _ -> _ => intros ?
    | |- exists _, _ => eexists
    | |- Forall _ _ => constructor
    | H : Some _ = _ |- _ => injection H as <-
    | |- _ = Ret _ => vm_compute; reflexivity
    | |- _ => first [discriminate | cbn; lia]
    end.
Ltac wf_fields := intros i fd p Hf Hp; do 4 (destruct i as [|i]; [injection Hf as <-; injection Hp as <-; wf_field|]); discriminate Hf.

Lemma wf_sample_file : wf sample_schema sample_file.
Proof.
  apply (wf_intro _ _ _ 1 (nth 0 sample_schema [])); [vm_compute; reflexivity..|wf_fields|].
  intros p b Hp Hb. repeat (apply elem_of_cons in Hp as [->|Hp]; [by apply elem_of_nil in Hb|]). by apply elem_of_nil in Hp.
Qed.
Lemma wf_sample_message : wf sample_schema sample_message.
Proof.
  apply (wf_intro _ _ _ 2 (nth 1 sample_schema [])); [vm_compute; reflexivity..|wf_fields|].
  intros p b Hp Hb. assert (b = sample_file) as ->; [|apply wf_sample_file].
  change (pointers sample_message) with [PFbbs [sample_file; sample_file]; PStrings FORMAT_ARRAY [([47; 98; 0], 0); ([0], 0)]; PFbb (Some sample_file); PString None] in Hp.
  rewrite !elem_of_cons in Hp. destruct Hp as [->|[->|[->|[->|Hp]]]]; cbn in Hb; [set_solver..|by apply elem_of_nil in Hp].
Qed.

Lemma serialize_measured_witness :
  exists size img, measure sample_schema sample_message = Ret size /\ zlen img = size /\ size mod 8 = 0 /\
    forall before old after, zlen old = size ->
      serialize sample_schema sample_message (zlen before) (before ++ old ++ after) = Ret (size, before ++ img ++ after).
Proof. apply (serialize_measured sample_schema sample_message); [apply wf_sample_message|vm_compute; reflexivity]. Defined.

Lemma fbb_roundtrip_witness :
  exists mem v, serialize sample_schema sample_message 3 ([7; 7; 7] ++ zeros 240 ++ [9]) = Ret (240, mem) /\
    serialized_value sample_schema 240 mem 3 = Ret v /\ builder_value sample_schema 240 sample_message = Ret v.
Proof.
  apply (fbb_roundtrip sample_schema sample_message 240 [7; 7; 7] (zeros 240) [9]); [apply wf_sample_message|vm_compute; reflexivity..].
Defined.

End FbbFormat.
