(* ===== verification/FbbBuild.v ===== *)
(** Building messages: the members of the wire structure do not overlap, so every setter changes
    the field it is for and nothing else, and a message that is built from [init()] by setters can
    be serialized. *)

From Stdlib Require Import ZArith Lia Ascii.
From stdpp Require Import base list strings option gmap.
From S2P Require Import Prelude Framing Fbb FbbFormat.

Local Open Scope Z_scope.

Module FbbBuild.
Import Frame Fbb FbbFormat.

(** ** Memory *)

Lemma poke_ret off d w : 0 <= off -> off + zlen d <= zlen w -> exists w', poke off d w = Ret w' /\ length w' = length w.
Proof.
  intros Ho Hl. unfold poke. replace (_ && _) with true by (symmetry; rewrite andb_true_iff, !Z.leb_le; lia).
  eexists. split; [done|]. rewrite !length_app, length_take, length_drop. lia.
Qed.
Lemma peek_poke_same off d w w' : poke off d w = Ret w' -> peek off (zlen d) w' = Ret d.
Proof.
  unfold poke. destruct (_ && _) eqn:E; intros [=<-]. apply andb_true_iff in E as [?%Z.leb_le ?%Z.leb_le].
  pose proof (peek_mid (take (Z.to_nat off) w) d (drop (Z.to_nat off + length d) w)) as E.
  rewrite length_take in E. by replace (Z.of_nat _) with off in E by lia.
Qed.
Lemma peek_poke_other off d w w' o len :
  poke off d w = Ret w' -> 0 <= o -> 0 <= len -> o + len <= off \/ off + zlen d <= o -> peek o len w' = peek o len w.
Proof.
  unfold poke. destruct (_ && _) eqn:E; intros [=<-] Ho Hlen Hdis. apply andb_true_iff in E as [?%Z.leb_le ?%Z.leb_le].
  unfold peek. rewrite !length_app, length_take, length_drop.
  replace (Z.of_nat _) with (zlen w) by lia. destruct (_ && _ && _) eqn:E; [|done]. rewrite !andb_true_iff, !Z.leb_le in E. f_equal.
  destruct Hdis as [Hd|Hd].
  - rewrite drop_app_le, take_app_le by (rewrite ?length_drop, ?length_take; lia).
    rewrite <- (take_drop (Z.to_nat off) w) at 2. by rewrite drop_app_le, take_app_le by (rewrite ?length_drop, ?length_take; lia).
  - rewrite !drop_app_ge by (rewrite ?length_take; lia). rewrite length_take, drop_drop. do 2 f_equal. lia.
Qed.

(** ** The layout *)

Definition field_ok (fd : field) : Prop := match ftype fd with SCALAR size align => 0 < size /\ 0 < align | _ => True end.
Definition schema_ok (msgs : schema) : Prop := Forall (Forall field_ok) msgs.
#[global] Instance field_ok_dec fd : Decision (field_ok fd).
Proof. unfold field_ok. destruct (ftype fd); apply _. Defined.

Definition member_ok (m : member * (Z * Z)) : Prop := 0 <= m.2.1 /\ 0 < m.2.2.

Lemma align_up_ge n a : 0 < a -> n <= align_up n a.
Proof. intros Ha. unfold align_up. pose proof (Z.div_mod (n + a - 1) a ltac:(lia)). pose proof (Z.mod_pos_bound (n + a - 1) a Ha). lia. Qed.

Lemma place_end off l : Forall member_ok l -> off <= (place off l).2.
Proof.
  revert off. induction l as [|[m [size align]] l IH]; intros off; [cbn; lia|]. intros [[Hs Ha] Hl]%Forall_cons. cbn in *.
  pose proof (align_up_ge off align Ha). specialize (IH (align_up off align + size) Hl). destruct (place _ l). cbn in *. lia.
Qed.

Lemma find_member_place off l m s z : Forall member_ok l -> find_member m (place off l).1 = Some (s, z) ->
  off <= s /\ 0 <= z /\ s + z <= (place off l).2 /\ exists align, (m, (z, align)) ∈ l.
Proof.
  revert off. induction l as [|[m' [size align]] l IH]; intros off; [done|]. intros [[Hs Ha] Hl]%Forall_cons. cbn in *.
  pose proof (align_up_ge off align Ha). pose proof (place_end (align_up off align + size) l Hl) as He.
  specialize (IH (align_up off align + size) Hl). destruct (place _ l) as [placed end_]. cbn in *. case_bool_decide as Em.
  - intros [= <- <-]. subst m'. split_and!; [lia..|]. exists align. left.
  - intros (? & ? & ? & al & Hin)%IH. split_and!; [lia..|]. exists al. by right.
Qed.

Lemma find_member_disjoint off l m m' s z s' z' : Forall member_ok l -> m <> m' ->
  find_member m (place off l).1 = Some (s, z) -> find_member m' (place off l).1 = Some (s', z') -> s + z <= s' \/ s' + z' <= s.
Proof.
  intros Hl Hne. revert off. induction l as [|[n [size align]] l IH]; intros off; [done|]. apply Forall_cons in Hl as [[Hs Ha] Hl]. cbn in *.
  specialize (IH Hl (align_up off align + size)). pose proof (fun m s z => find_member_place (align_up off align + size) l m s z Hl) as Hf.
  destruct (place _ l) as [placed end_]. cbn in *. do 2 case_bool_decide; subst; try done.
  - intros [= <- <-] (? & ? & ? & _)%Hf. lia.
  - intros (? & ? & ? & _)%Hf [= <- <-]. lia.
Qed.

Lemma find_member_some off l m : m ∈ l.*1 -> is_Some (find_member m (place off l).1).
Proof.
  revert off. induction l as [|[n [size align]] l IH]; intros off; cbn; [by intros ?%elem_of_nil|].
  specialize (IH (align_up off align + size)). destruct (place _ l) as [placed end_]. cbn in *.
  case_bool_decide; [by eexists|]. intros [->|Hin]%elem_of_cons; [done|by apply IH].
Qed.

Lemma elem_of_members fields m z a : (m, (z, a)) ∈ members fields <->
  (m = MTag /\ z = 4 /\ a = 4) \/
  (exists i fd, m = MScalar i /\ fields !! i = Some fd /\ is_array fd = false /\ is_scalar fd = true /\ z = sizeof fd /\ a = alignof fd) \/
  (exists i fd, m = MLen i /\ fields !! i = Some fd /\ is_array fd = false /\ is_string fd = true /\ z = 4 /\ a = 4) \/
  (exists i fd, m = MCount i /\ fields !! i = Some fd /\ is_array fd = true /\ z = 4 /\ a = 4).
Proof.
  unfold members. rewrite elem_of_cons, !elem_of_app, !list_elem_of_fmap. setoid_rewrite elem_of_indices. apply Morphisms_Prop.or_iff_morphism; [naive_solver|].
  apply Morphisms_Prop.or_iff_morphism; [|apply Morphisms_Prop.or_iff_morphism].
  - rewrite list_elem_of_In, in_concat. setoid_rewrite <- list_elem_of_In. split.
    + intros (l & Hl & Hi). apply elem_of_lookup_imap in Hl as (j & fd & -> & Hf).
      destruct (negb (is_array fd) && is_scalar fd) eqn:E; [|by apply elem_of_nil in Hi]. apply list_elem_of_singleton in Hi as [= -> -> ->].
      apply andb_true_iff in E as [?%negb_true_iff ?]. by exists j, fd.
    + intros (i & fd & -> & Hf & Ha & Hs & -> & ->). eexists. rewrite elem_of_lookup_imap. split; [exists i, fd; split; [reflexivity|done]|].
      rewrite Ha, Hs. by left.
  - split.
    + intros (i & [= -> -> ->] & fd & Hf & [?%negb_true_iff ?]%andb_true_iff). by exists i, fd.
    + intros (i & fd & -> & Hf & Ha & Hs & -> & ->). exists i. split; [done|]. exists fd. by rewrite Ha, Hs.
  - split.
    + intros (i & [= -> -> ->] & fd & Hf & ?). by exists i, fd.
    + intros (i & fd & -> & Hf & Ha & -> & ->). exists i. split; [done|]. by exists fd.
Qed.

Section Layout.
Context (fields : list field) (Hok : Forall field_ok fields).

Lemma members_ok : Forall member_ok (members fields).
Proof using Hok.
  apply Forall_forall. intros [m [z a]] Hin. apply elem_of_members in Hin. unfold member_ok. cbn.
  destruct Hin as [(-> & -> & ->)|[(i & fd & -> & Hf & _ & Hs & -> & ->)|[(i & fd & -> & _ & _ & _ & -> & ->)|(i & fd & -> & _ & _ & -> & ->)]]]; try lia.
  apply (Forall_lookup_1 _ _ _ _ Hok) in Hf. unfold field_ok, is_scalar, sizeof, alignof in *. destruct (ftype fd); [lia|done..].
Qed.

Definition members_end : Z := (place 0 (members fields)).2.

Lemma struct_align_pos : 0 < struct_align fields.
Proof. clear Hok. unfold struct_align. induction (members fields) as [|m l IH]; cbn; lia. Qed.

Lemma wire_size_bound : members_end + (zlen (has_bits fields) + 7) / 8 <= wire_size fields.
Proof. apply align_up_ge, struct_align_pos. Qed.

Lemma offsetof_bounds m off z : offsetof fields m = Some (off, z) -> 0 <= off /\ 0 <= z /\ off + z <= members_end.
Proof using Hok. intros E. apply find_member_place in E as (? & ? & ? & _); [done|apply members_ok]. Qed.
Lemma offsetof_disjoint m m' off z off' z' : m <> m' ->
  offsetof fields m = Some (off, z) -> offsetof fields m' = Some (off', z') -> off + z <= off' \/ off' + z' <= off.
Proof using Hok. intros Hne. apply find_member_disjoint; [apply members_ok|done]. Qed.
Lemma offsetof_size m off z : offsetof fields m = Some (off, z) -> exists a, (m, (z, a)) ∈ members fields.
Proof using Hok. intros E. apply find_member_place in E as (_ & _ & _ & ?); [done|apply members_ok]. Qed.
Lemma offsetof_some m z a : (m, (z, a)) ∈ members fields -> is_Some (offsetof fields m).
Proof. intros Hin. apply find_member_some, list_elem_of_fmap. by exists (m, (z, a)). Qed.

(** Which members there are, and their sizes. *)
Lemma offsetof_tag : offsetof fields MTag = Some (0, 4).
Proof. unfold offsetof, members. cbn [place]. change (align_up 0 4) with 0. by destruct (place (0 + 4)). Qed.
Lemma offsetof_scalar i fd : fields !! i = Some fd -> is_array fd = false -> is_scalar fd = true -> exists off, offsetof fields (MScalar i) = Some (off, sizeof fd).
Proof using Hok.
  intros Hf Ha Hs. destruct (offsetof_some (MScalar i) (sizeof fd) (alignof fd)) as [[off z] E].
  { apply elem_of_members. right. left. by exists i, fd. }
  exists off. rewrite E. destruct (offsetof_size _ _ _ E) as [a Hin]. apply elem_of_members in Hin. naive_solver.
Qed.
Lemma offsetof_len i fd : fields !! i = Some fd -> is_array fd = false -> is_string fd = true -> exists off, offsetof fields (MLen i) = Some (off, 4).
Proof using Hok.
  intros Hf Ha Hs. destruct (offsetof_some (MLen i) 4 4) as [[off z] E].
  { apply elem_of_members. right. right. left. by exists i, fd. }
  exists off. rewrite E. destruct (offsetof_size _ _ _ E) as [a Hin]. apply elem_of_members in Hin. naive_solver.
Qed.
Lemma offsetof_count i fd : fields !! i = Some fd -> is_array fd = true -> exists off, offsetof fields (MCount i) = Some (off, 4).
Proof using Hok.
  intros Hf Ha. destruct (offsetof_some (MCount i) 4 4) as [[off z] E].
  { apply elem_of_members. right. right. right. by exists i, fd. }
  exists off. rewrite E. destruct (offsetof_size _ _ _ E) as [a Hin]. apply elem_of_members in Hin. naive_solver.
Qed.

Lemma index_of_lookup i l k : index_of i l = Some k -> l !! k = Some i.
Proof.
  revert k. induction l as [|j l IH]; intros k; [done|]. cbn. destruct (Nat.eqb_spec i j) as [->|Hne]; [by intros [= <-]|].
  destruct (index_of i l) as [k'|]; [|done]. intros [= <-]. by apply IH.
Qed.
Lemma has_bit_bounds i off bit : has_bit_at fields i = Some (off, bit) -> members_end <= off /\ off + 1 <= wire_size fields /\ 0 <= bit.
Proof.
  unfold has_bit_at. fold members_end. destruct (index_of i (has_bits fields)) as [k|] eqn:E; intros [= <- <-].
  apply index_of_lookup, lookup_lt_Some in E. pose proof wire_size_bound. dlia.
Qed.
Lemma has_bit_disjoint i j off bit off' bit' : i <> j ->
  has_bit_at fields i = Some (off, bit) -> has_bit_at fields j = Some (off', bit') -> off <> off' \/ (off = off' /\ bit <> bit').
Proof.
  unfold has_bit_at. fold members_end. intros Hne. destruct (index_of i _) as [k|] eqn:E; intros [= <- <-]. destruct (index_of j _) as [k'|] eqn:E'; intros [= <- <-].
  apply index_of_lookup in E, E'. assert (k <> k') by (intros ->; congruence). dlia.
Qed.
Lemma has_bit_some i fd : fields !! i = Some fd -> quant fd = OPTIONAL -> is_scalar fd = true -> is_Some (has_bit_at fields i).
Proof.
  intros Hf Hq Hs. destruct (index_of_elem i (has_bits fields)) as (k & E & _).
  { apply elem_of_indices. exists fd. split; [done|]. rewrite Hs. by rewrite bool_decide_true. }
  unfold has_bit_at. rewrite E. by eexists.
Qed.

(** Writing a member or a bit changes nothing else. *)
Definition same_members (except : member -> Prop) (w w' : list Z) : Prop :=
  length w' = length w /\ forall m, ~ except m -> get_member fields m w' 0 = get_member fields m w 0.
Definition same_bits (except : nat -> Prop) (w w' : list Z) : Prop := forall i, ~ except i -> get_has fields i w' 0 = get_has fields i w 0.

Lemma set_member_correct m value w off : zlen w = wire_size fields -> offsetof fields m = Some (off, zlen value) ->
  exists w', set_member fields m value w = Ret w' /\ get_member fields m w' 0 = Ret value /\ same_members (eq m) w w' /\ same_bits (fun _ => False) w w'.
Proof using Hok.
  intros Hw E. pose proof (offsetof_bounds _ _ _ E) as Hb. pose proof wire_size_bound as Hs.
  assert (0 <= (zlen (has_bits fields) + 7) / 8) by (apply Z.div_pos; lia).
  destruct (poke_ret off value w) as (w' & Ep & Hl); [lia..|]. exists w'. unfold set_member, get_member. rewrite E. split_and!; [done| |split; [done|]|].
  - by apply peek_poke_same in Ep.
  - intros m' Hne. unfold get_member. destruct (offsetof fields m') as [[off' z']|] eqn:E'; [|done]. pose proof (offsetof_bounds _ _ _ E').
    eapply peek_poke_other; [done|lia|lia|]. destruct (offsetof_disjoint m m' off (zlen value) off' z'); [done..|lia|lia].
  - intros i _. unfold get_has. destruct (has_bit_at fields i) as [[off' bit]|] eqn:E'; [|done]. pose proof (has_bit_bounds _ _ _ E').
    erewrite peek_poke_other; [done|done|lia..].
Qed.

Lemma peek_one off w : 0 <= off -> off + 1 <= zlen w -> exists b, peek off 1 w = Ret [b].
Proof.
  intros Ho Hl. unfold peek. replace (_ && _ && _) with true by (symmetry; rewrite !andb_true_iff, !Z.leb_le; lia).
  destruct (drop (Z.to_nat off) w) as [|b l] eqn:E; [|by exists b]. apply (f_equal length) in E. rewrite length_drop in E. cbn in E. lia.
Qed.

Lemma set_has_correct i w fd : zlen w = wire_size fields -> fields !! i = Some fd -> quant fd = OPTIONAL -> is_scalar fd = true ->
  exists w', set_has fields i w = Ret w' /\ get_has fields i w' 0 = Ret true /\ same_members (fun _ => False) w w' /\ same_bits (eq i) w w'.
Proof using Hok.
  intros Hw Hf Hq Hs. destruct (has_bit_some i fd Hf Hq Hs) as [[off bit] E]. pose proof (has_bit_bounds _ _ _ E) as Hb.
  assert (0 <= members_end) by (apply place_end, members_ok). destruct (peek_one off w) as [b Eb]; [lia..|].
  destruct (poke_ret off [Z.setbit (le [b]) bit] w) as (w' & Ep & Hl); [lia|cbn; lia|]. exists w'. unfold set_has, get_has.
  rewrite E, Eb. cbn [mbind outcome_bind]. rewrite Ep. pose proof (peek_poke_same _ _ _ _ Ep) as Es. cbn [length] in Es. change (Z.of_nat 1) with 1 in Es.
  split_and!; [done| |split; [done|]|].
  - rewrite Z.add_0_l, Es. cbn [mbind outcome_bind le]. by rewrite Z.mul_0_r, Z.add_0_r, Z.setbit_eq by lia.
  - intros m _. unfold get_member. destruct (offsetof fields m) as [[off' z']|] eqn:E'; [|done]. pose proof (offsetof_bounds _ _ _ E').
    eapply peek_poke_other; [done|lia..].
  - intros j Hne. unfold get_has. destruct (has_bit_at fields j) as [[off' bit']|] eqn:E'; [|done]. pose proof (has_bit_bounds _ _ _ E').
    rewrite !Z.add_0_l. destruct (has_bit_disjoint i j off bit off' bit') as [Hd|[<- Hd]]; [done..| |].
    + erewrite peek_poke_other; [done|done|lia|lia|cbn; lia].
    + rewrite Es, Eb. cbn [mbind outcome_bind le]. rewrite Z.mul_0_r, !Z.add_0_r. by rewrite Z.setbit_neq by lia.
Qed.

End Layout.

(** ** Setters *)

(** The setters of all kinds of fields. *)
Inductive op :=
| SetScalar (value : list Z)
| SetScalars (values : list Z) (count : Z)
| SetStringWithLength (value : option (list Z)) (len : Z)
| SetString (value : option (list Z))
| SetFbb (value : option builder)
| SetStrings (how : input_format) (values : list (list Z * Z)) (count : Z)
| SetFbbs (values : list builder) (count : Z).

Section Setters.
Context (msgs : schema).

Definition apply_op (tag : Z) (i : nat) (o : op) (b : builder) : outcome builder :=
  match o with
  | SetScalar value => set_scalar msgs tag i value b
  | SetScalars values count => set_scalars msgs tag i values count b
  | SetStringWithLength value len => set_string_with_length msgs tag i value len b
  | SetString value => set_string msgs tag i value b
  | SetFbb value => set_fbb msgs tag i value b
  | SetStrings how values count => set_strings msgs how tag i values count b
  | SetFbbs values count => set_fbbs msgs tag i values count b
  end.

(** What the type of the setter and its caller must provide: the memory is as large as it is said
    to be. *)
Definition op_fits (fd : field) (o : op) : Prop :=
  match quant fd, ftype fd, o with
  | ARRAY, SCALAR size _, SetScalars values count => 0 <= count < 2 ^ 32 /\ count * size <= zlen values
  | ARRAY, STRING, SetStrings how values count => 0 <= count < 2 ^ 32 /\ count <= zlen values /\ Forall (item_ok how) values
  | ARRAY, FBB, SetFbbs values count => 0 <= count < 2 ^ 32 /\ count <= zlen values
  | ARRAY, _, _ => False
  | _, SCALAR size _, SetScalar value => zlen value = size
  | _, STRING, SetStringWithLength value len => 0 <= len < 2 ^ 32 /\ forall mem, value = Some mem -> len < zlen mem
  | _, STRING, SetString value => forall mem, value = Some mem -> exists len, strlen mem = Ret len /\ len < 2 ^ 32
  | _, FBB, SetFbb _ => True
  | _, _, _ => False
  end.

(** The value of a field that has been set, and of one that has not; [nested] is the value of a
    nested message. *)
Definition missing (fd : field) (v : value) : outcome value := if bool_decide (quant fd = OPTIONAL) then Ret v else Abort.
Definition op_value (nested : builder -> outcome message) (fd : field) (o : op) : outcome value :=
  match o with
  | SetScalar value => Ret (VScalar (Some value))
  | SetScalars values count => l ← items_of count (fun idx => peek (idx * sizeof fd) (sizeof fd) values); Ret (VScalars l)
  | SetStringWithLength (Some mem) len => v ← peek 0 len mem; Ret (VString (Some v))
  | SetString (Some mem) => len ← strlen mem; v ← peek 0 len mem; Ret (VString (Some v))
  | SetStringWithLength None _ | SetString None => missing fd (VString None)
  | SetFbb (Some b) => v ← nested b; Ret (VFbb (Some v))
  | SetFbb None => missing fd (VFbb None)
  | SetStrings how values count =>
      l ← items_of count (fun idx => item ← item_at values (Z.to_nat idx); len ← item_len how item; peek 0 len item.1); Ret (VStrings l)
  | SetFbbs values count => l ← items_of count (fun idx => item ← item_at values (Z.to_nat idx); nested item); Ret (VFbbs l)
  end.
Definition default_value (fd : field) : outcome value :=
  match quant fd, ftype fd with
  | ARRAY, SCALAR _ _ => Ret (VScalars [])
  | ARRAY, STRING => Ret (VStrings [])
  | ARRAY, FBB => Ret (VFbbs [])
  | OPTIONAL, SCALAR _ _ => Ret (VScalar None)
  | _, SCALAR size _ => Ret (VScalar (Some (zeros size)))
  | _, STRING => missing fd (VString None)
  | _, FBB => missing fd (VFbb None)
  end.

(** *** A builder under construction *)

(** As for a builder that can be serialized, but required fields need not be set yet. *)
Definition fits (fields : list field) (w : list Z) (i : nat) (fd : field) (p : pointer builder) : Prop :=
  match quant fd, ftype fd, p with
  | ARRAY, SCALAR size _, PScalars data =>
      exists count, get_u32 fields (MCount i) w 0 = Ret count /\ 0 <= count /\ 0 < size /\ count * size <= zlen data
  | ARRAY, STRING, PStrings how items =>
      exists count, get_u32 fields (MCount i) w 0 = Ret count /\ 0 <= count <= zlen items /\ Forall (item_ok how) items
  | ARRAY, FBB, PFbbs items => exists count, get_u32 fields (MCount i) w 0 = Ret count /\ 0 <= count <= zlen items
  | ARRAY, _, _ => False
  | _, SCALAR _ _, PNone =>
      (exists v, get_member fields (MScalar i) w 0 = Ret v) /\ (quant fd = OPTIONAL -> exists b, get_has fields i w 0 = Ret b)
  | _, STRING, PString v => exists len, get_u32 fields (MLen i) w 0 = Ret len /\ forall mem, v = Some mem -> 0 <= len < zlen mem
  | _, FBB, PFbb _ => True
  | _, _, _ => False
  end.
Definition is_set (fd : field) (p : pointer builder) : Prop := quant fd = REQUIRED -> p <> PString None /\ p <> PFbb None.

Lemma fits_wf fields w i fd p : fits fields w i fd p -> is_set fd p -> wf_pointer fields w i fd p.
Proof. unfold fits, is_set, wf_pointer. destruct (quant fd), (ftype fd), p; naive_solver. Qed.

Record consistent (tag : Z) (fields : list field) (b : builder) : Prop := {
  c_tag : get_tag (wire b) 0 = Ret tag;
  c_fields : fields_of msgs tag = Some fields;
  c_wire : zlen (wire b) = wire_size fields;
  c_length : length (pointers b) = length fields;
  c_fits i fd p : fields !! i = Some fd -> pointers b !! i = Some p -> fits fields (wire b) i fd p
}.

Lemma consistent_wf tag fields b : consistent tag fields b ->
  (forall i fd p, fields !! i = Some fd -> pointers b !! i = Some p -> is_set fd p /\ Forall (wf msgs) (subs p)) -> wf msgs b.
Proof.
  intros [Ht Hf Hw Hl Hfit] Hset. destruct b as [w ps]. cbn in *. apply (wf_intro _ _ _ tag fields); try done.
  - intros i fd p Hi Hp. apply fits_wf; [by apply Hfit|by apply (Hset i)].
  - intros p b [i Hp]%list_elem_of_lookup Hb. destruct (lookup_lt_is_Some_2 fields i) as [fd Hi]; [rewrite <- Hl; by eapply lookup_lt_Some|].
    destruct (Hset i fd p Hi Hp) as [_ Hs]. rewrite Forall_forall in Hs. by apply Hs.
Qed.

(** What the getters find in a field, in terms of the part of the builder that belongs to it. *)
Definition field_value (nested : builder -> outcome message) (fields : list field) (w : list Z) (i : nat) (fd : field) (p : pointer builder) : outcome value :=
  match quant fd, ftype fd, p with
  | ARRAY, SCALAR size _, PScalars data =>
      n ← get_u32 fields (MCount i) w 0; l ← items_of n (fun idx => peek (idx * size) size data); Ret (VScalars l)
  | ARRAY, STRING, PStrings how items =>
      n ← get_u32 fields (MCount i) w 0;
      l ← items_of n (fun idx => item ← item_at items (Z.to_nat idx); len ← item_len how item; peek 0 len item.1); Ret (VStrings l)
  | ARRAY, FBB, PFbbs items =>
      n ← get_u32 fields (MCount i) w 0; l ← items_of n (fun idx => item ← item_at items (Z.to_nat idx); nested item); Ret (VFbbs l)
  | OPTIONAL, SCALAR _ _, PNone =>
      has ← get_has fields i w 0; if has : bool then v ← get_member fields (MScalar i) w 0; Ret (VScalar (Some v)) else Ret (VScalar None)
  | _, SCALAR _ _, PNone => v ← get_member fields (MScalar i) w 0; Ret (VScalar (Some v))
  | _, STRING, PString (Some mem) => len ← get_u32 fields (MLen i) w 0; v ← peek 0 len mem; Ret (VString (Some v))
  | _, STRING, PString None => missing fd (VString None)
  | _, FBB, PFbb (Some b) => v ← nested b; Ret (VFbb (Some v))
  | _, FBB, PFbb None => missing fd (VFbb None)
  | _, _, _ => Abort
  end.

Lemma consistent_checked tag fields b : consistent tag fields b -> checked msgs tag (wire b) 0 = Ret fields.
Proof. intros [Ht Hf _ _ _]. unfold checked. rewrite Ht. cbn. by rewrite Z.eqb_refl, Hf. Qed.
Lemma consistent_pointer tag fields b i p : consistent tag fields b -> pointers b !! i = Some p -> builder_pointer msgs tag i b = Ret p.
Proof. intros Hc Hp. unfold builder_pointer. rewrite (consistent_checked _ _ _ Hc). cbn. by rewrite Hp. Qed.
Lemma consistent_in_range tag fields b i n idx : consistent tag fields b ->
  get_u32 fields (MCount i) (wire b) 0 = Ret n -> idx < n -> in_range msgs tag i idx (wire b) 0 = Ret tt.
Proof.
  intros Hc En Hn. unfold in_range, get_count. rewrite (consistent_checked _ _ _ Hc). cbn [mbind outcome_bind]. rewrite En. cbn.
  by replace (idx <? n) with true by (symmetry; apply Z.ltb_lt; lia).
Qed.

Lemma builder_field_eq nested tag fields b i fd p : consistent tag fields b -> fields !! i = Some fd -> pointers b !! i = Some p ->
  builder_field msgs nested b tag i fd = field_value nested fields (wire b) i fd p.
Proof.
  intros Hc Hi Hp. pose proof (c_fits _ _ _ Hc i fd p Hi Hp) as Hfit. pose proof (consistent_checked _ _ _ Hc) as Hch.
  pose proof (consistent_pointer _ _ _ _ _ Hc Hp) as Hbp. pose proof (c_fields _ _ _ Hc) as Hf.
  unfold builder_field, value_of, field_value, missing, fits in *.
  destruct (quant fd) eqn:Eq, (ftype fd) as [size align| |] eqn:Et; cbn [bool_decide decide_rel]; try rewrite (bool_decide_false (_ = _)) by done;
    destruct p as [|data|[mem|]|[sub|]|how items|items]; try done.
  all: rewrite ?bool_decide_true by done; unfold builder_has, builder_get_string_as_string, builder_get_fbb, get_scalar, get_count, get_len, has_scalar;
    rewrite ?Hbp, ?Hch; cbn [mbind outcome_bind]; rewrite ?Hi, ?Eq; cbn [mbind outcome_bind]; try done.
  - by destruct (get_u32 fields (MLen i) (wire b) 0).
  - rewrite bool_decide_true by done. by destruct (get_has fields i (wire b) 0) as [[]| |].
  - rewrite bool_decide_true by done. by destruct (get_u32 fields (MLen i) (wire b) 0).
  - destruct Hfit as (n & En & Hn). rewrite En. cbn [mbind outcome_bind]. f_equal. apply items_ext. intros idx Hidx.
    unfold builder_get_scalar_at, sizeof. rewrite (consistent_in_range _ _ _ _ _ _ Hc En), Hbp by lia. cbn [mbind outcome_bind].
    rewrite Hf. cbn. by rewrite Hi, Et.
  - destruct Hfit as (n & En & Hn). rewrite En. cbn [mbind outcome_bind]. f_equal. apply items_ext. intros idx Hidx.
    unfold builder_get_string_with_len_at, item_at. rewrite (consistent_in_range _ _ _ _ _ _ Hc En), Hbp by lia. cbn [mbind outcome_bind].
    destruct (items !! _) as [item|]; [|done]. cbn. by destruct (item_len how item).
  - destruct Hfit as (n & En & Hn). rewrite En. cbn [mbind outcome_bind]. f_equal. apply items_ext. intros idx Hidx.
    unfold builder_get_fbb_at, item_at. rewrite (consistent_in_range _ _ _ _ _ _ Hc En), Hbp by lia. cbn [mbind outcome_bind].
    by destruct (items !! _).
Qed.

(** The part of the wire structure that belongs to a field. *)
Definition same_slot (fields : list field) (w w' : list Z) (i : nat) : Prop :=
  get_has fields i w' 0 = get_has fields i w 0 /\
  get_member fields (MScalar i) w' 0 = get_member fields (MScalar i) w 0 /\
  get_u32 fields (MLen i) w' 0 = get_u32 fields (MLen i) w 0 /\
  get_u32 fields (MCount i) w' 0 = get_u32 fields (MCount i) w 0.

Lemma same_slot_fits fields w w' i fd p : same_slot fields w w' i -> fits fields w i fd p -> fits fields w' i fd p.
Proof. intros (E1 & E2 & E3 & E4). unfold fits. by rewrite E1, E2, E3, E4. Qed.
Lemma same_slot_value nested fields w w' i fd p : same_slot fields w w' i -> field_value nested fields w' i fd p = field_value nested fields w i fd p.
Proof. intros (E1 & E2 & E3 & E4). unfold field_value. by rewrite E1, E2, E3, E4. Qed.
Lemma same_slot_refl fields w i : same_slot fields w w i.
Proof. done. Qed.
Lemma same_slot_trans fields w1 w2 w3 i : same_slot fields w1 w2 i -> same_slot fields w2 w3 i -> same_slot fields w1 w3 i.
Proof. unfold same_slot. intuition congruence. Qed.

Definition member_of (i : nat) (m : member) : Prop := match m with MTag => False | MScalar j | MLen j | MCount j => i = j end.
Lemma same_members_slot fields P Q w w' j : same_members fields P w w' -> same_bits fields Q w w' ->
  (forall m, member_of j m -> ~ P m) -> ~ Q j -> same_slot fields w w' j.
Proof.
  intros [_ Hm] Hb HP HQ. unfold same_slot, get_u32. rewrite !Hm, Hb; [done|done|..]; by apply HP.
Qed.
Lemma same_members_tag fields P w w' : same_members fields P w w' -> ~ P MTag -> get_tag w' 0 = get_tag w 0.
Proof.
  intros [_ Hm] HP. unfold get_tag, peek_u32. specialize (Hm MTag HP). unfold get_member in Hm. rewrite offsetof_tag in Hm.
  change (0 + 0) with 0 in Hm. by rewrite Hm.
Qed.

(** A setter that changes only the part of its field. *)
Lemma update_correct tag fields b i fd f p : consistent tag fields b -> fields !! i = Some fd ->
  (exists w', f fields fd (wire b) = Ret w' /\ length w' = length (wire b) /\ get_tag w' 0 = get_tag (wire b) 0 /\
     (forall j, j <> i -> same_slot fields (wire b) w' j) /\
     forall q, (if p is Some p then q = p else pointers b !! i = Some q) -> fits fields w' i fd q) ->
  exists b', update msgs tag b i f p = Ret b' /\ consistent tag fields b' /\ f fields fd (wire b) = Ret (wire b') /\
    (forall j, j <> i -> pointers b' !! j = pointers b !! j /\ same_slot fields (wire b) (wire b') j) /\
    (if p is Some p then pointers b' !! i = Some p else pointers b' = pointers b).
Proof.
  intros [Ht Hf Hw Hl Hfit] Hi (w' & Ew & Hlen & Htag & Hother & Hp). unfold update. rewrite Ht. cbn [mbind outcome_bind].
  rewrite Z.eqb_refl. cbn. rewrite Hf, Hi, Ew. cbn. eexists. split; [done|].
  assert (Hii : (i < length (pointers b))%nat) by (rewrite Hl; by eapply lookup_lt_Some).
  assert (Hps : forall j, j <> i -> (if p is Some p then <[i := p]> (pointers b) else pointers b) !! j = pointers b !! j).
  { intros j Hj. destruct p; [by rewrite list_lookup_insert_ne|done]. }
  split_and!; [|done|intros j Hj; split; [by apply Hps|by apply Hother]|destruct p; [by apply list_lookup_insert_eq|done]].
  split; cbn [wire pointers]; [by rewrite Htag|done|by rewrite Hlen|destruct p; by rewrite ?length_insert|].
  intros j fd' q Hj Hq. destruct (decide (j = i)) as [->|Hne].
  - rewrite Hi in Hj. injection Hj as <-. apply Hp. destruct p; [|done]. rewrite list_lookup_insert_eq in Hq by done. by injection Hq as <-.
  - rewrite Hps in Hq by done. eapply same_slot_fits; [by apply Hother|by apply Hfit].
Qed.

Definition op_pointer (o : op) : pointer builder :=
  match o with
  | SetScalar _ => PNone
  | SetScalars values _ => PScalars values
  | SetStringWithLength value _ | SetString value => PString value
  | SetFbb value => PFbb value
  | SetStrings how values _ => PStrings how values
  | SetFbbs values _ => PFbbs values
  end.

(** [b'] is [b] with field [i] changed: its pointer is [p], and its value [v]. *)
Definition changed (tag : Z) (fields : list field) (b b' : builder) (i : nat) (fd : field) (p : pointer builder)
    (v : (builder -> outcome message) -> outcome value) : Prop :=
  consistent tag fields b' /\ pointers b' !! i = Some p /\ (forall nested, builder_field msgs nested b' tag i fd = v nested) /\
  forall j fd', j <> i -> fields !! j = Some fd' ->
    pointers b' !! j = pointers b !! j /\ forall nested, builder_field msgs nested b' tag j fd' = builder_field msgs nested b tag j fd'.

Lemma changed_intro tag fields b b' i fd p v : consistent tag fields b -> consistent tag fields b' -> fields !! i = Some fd ->
  pointers b' !! i = Some p -> (forall j, j <> i -> pointers b' !! j = pointers b !! j /\ same_slot fields (wire b) (wire b') j) ->
  (forall nested, field_value nested fields (wire b') i fd p = v nested) -> changed tag fields b b' i fd p v.
Proof.
  intros Hc Hc' Hi Hp Hother Hv. split_and!; [done..| |].
  - intros nested. by rewrite (builder_field_eq nested tag fields b' i fd p).
  - intros j fd' Hj Hf. destruct (Hother j Hj) as [Hpj Hs]. split; [done|]. intros nested.
    destruct (lookup_lt_is_Some_2 (pointers b) j) as [q Hq]; [rewrite (c_length _ _ _ Hc); by eapply lookup_lt_Some|].
    rewrite (builder_field_eq nested tag fields b' j fd' q), (builder_field_eq nested tag fields b j fd' q) by congruence.
    by apply same_slot_value.
Qed.

Context (Hschema : schema_ok msgs).

Lemma fields_ok tag fields : fields_of msgs tag = Some fields -> Forall field_ok fields.
Proof using Hschema. unfold fields_of. destruct (1 <=? tag); [|done]. intros E. by apply (Forall_lookup_1 _ _ _ _ Hschema) in E. Qed.

(** A setter that writes a length or a number of items. *)
Lemma set_u32_update tag fields b i fd m off n p v : consistent tag fields b -> fields !! i = Some fd ->
  m = MLen i \/ m = MCount i -> offsetof fields m = Some (off, 4) -> 0 <= n < 2 ^ 32 ->
  (forall w, get_u32 fields m w 0 = Ret n -> fits fields w i fd p /\ forall nested, field_value nested fields w i fd p = v nested) ->
  exists b', update msgs tag b i (fun fields _ w => set_u32 fields m n w) (Some p) = Ret b' /\ changed tag fields b b' i fd p v.
Proof using Hschema.
  intros Hc Hi Hm Ho Hn Hp. pose proof (fields_ok _ _ (c_fields _ _ _ Hc)) as Hok.
  destruct (set_member_correct fields Hok m (le_bytes 4 n) (wire b) off) as (w' & Ew & Hg & Hs & Hb).
  { apply Hc. } { by rewrite length_le_bytes. }
  assert (Hg' : get_u32 fields m w' 0 = Ret n) by (unfold get_u32; rewrite Hg; cbn [mbind outcome_bind]; by rewrite le_le_bytes).
  destruct (update_correct tag fields b i fd (fun fields _ w => set_u32 fields m n w) (Some p)) as (b' & Eb & Hc' & Ew' & Hother & Hpi); [done|done| |].
  { exists w'. split_and!; [done|apply Hs|eapply same_members_tag; [done|by destruct Hm as [-> | ->]]| |intros q ->; by apply Hp].
    intros j Hj. eapply same_members_slot; [done|done| |by intros []]. intros m' Hm' <-. destruct Hm as [-> | ->]; cbn in Hm'; congruence. }
  exists b'. split; [done|]. change (set_u32 fields m n (wire b) = Ret (wire b')) in Ew'. unfold set_u32 in Ew'. rewrite Ew in Ew'. injection Ew' as ->.
  apply changed_intro; [done..|]. intros nested. by apply Hp.
Qed.

Lemma set_scalar_correct tag fields b i fd value : consistent tag fields b -> fields !! i = Some fd ->
  is_array fd = false -> is_scalar fd = true -> zlen value = sizeof fd ->
  exists b', set_scalar msgs tag i value b = Ret b' /\ changed tag fields b b' i fd PNone (fun _ => Ret (VScalar (Some value))).
Proof using Hschema.
  intros Hc Hi Ha Hs Hv. pose proof (fields_ok _ _ (c_fields _ _ _ Hc)) as Hok.
  destruct (offsetof_scalar fields Hok i fd Hi Ha Hs) as [off Ho]. rewrite <- Hv in Ho.
  destruct (set_member_correct fields Hok (MScalar i) value (wire b) off) as (w1 & E1 & Hg1 & Hs1 & Hb1); [apply Hc|done|].
  set (f := fun fields fd w => w ← set_member fields (MScalar i) value w; if bool_decide (quant fd = OPTIONAL) then set_has fields i w else Ret w).
  assert (exists w', f fields fd (wire b) = Ret w' /\ length w' = length (wire b) /\ get_tag w' 0 = get_tag (wire b) 0 /\
     get_member fields (MScalar i) w' 0 = Ret value /\ (quant fd = OPTIONAL -> get_has fields i w' 0 = Ret true) /\
     (forall j, j <> i -> same_slot fields (wire b) w' j)) as (w' & Ew & Hlen & Htag & Hg & Hh & Hother).
  { assert (Hj1 : forall j, j <> i -> same_slot fields (wire b) w1 j).
    { intros j Hj. eapply same_members_slot; [done|done| |by intros []]. intros m Hm <-. cbn in Hm. congruence. }
    unfold f. rewrite E1. cbn [mbind outcome_bind]. destruct (decide (quant fd = OPTIONAL)) as [Hq|Hq].
    - rewrite bool_decide_true by done. destruct (set_has_correct fields Hok i w1 fd) as (w2 & E2 & Hg2 & Hs2 & Hb2); [destruct Hs1 as [-> _]; apply Hc|done..|].
      exists w2. split_and!; [done|by rewrite (proj1 Hs2), (proj1 Hs1)| |by rewrite (proj2 Hs2) by tauto|done|].
      + etrans; eapply same_members_tag; [exact Hs2|tauto|exact Hs1|done].
      + intros j Hj. eapply same_slot_trans; [by apply Hj1|]. eapply same_members_slot; [done|done|tauto|congruence].
    - rewrite bool_decide_false by done. exists w1. split_and!; [done|apply Hs1|by eapply same_members_tag|done|done|done]. }
  assert (Hfit : forall q, pointers b !! i = Some q -> q = PNone).
  { intros q Hq. pose proof (c_fits _ _ _ Hc i fd q Hi Hq) as Hfit. unfold fits, is_array, is_scalar in *. destruct (quant fd), (ftype fd), q; done. }
  destruct (update_correct tag fields b i fd f None) as (b' & Eb & Hc' & Ew' & Hot & Hp); [done|done| |].
  { exists w'. split_and!; [done..|]. intros q ->%Hfit. unfold fits, is_array, is_scalar in *.
    destruct (quant fd), (ftype fd); try done; (split; [by eexists|]); intros Hq; try done. eexists. by apply Hh. }
  exists b'. split; [done|]. rewrite Ew in Ew'. injection Ew' as ->.
  destruct (lookup_lt_is_Some_2 (pointers b) i) as [q Hq]; [rewrite (c_length _ _ _ Hc); by eapply lookup_lt_Some|]. pose proof (Hfit q Hq) as ->.
  apply changed_intro; [done..|congruence|done|]. intros nested. unfold field_value, is_array, is_scalar in *.
  destruct (quant fd), (ftype fd); try done; rewrite ?Hh by done; cbn [mbind outcome_bind]; by rewrite Hg.
Qed.

Lemma strlen_bounds mem len : strlen mem = Ret len -> 0 <= len < zlen mem.
Proof.
  revert len. induction mem as [|c mem IH]; intros len; [done|]. cbn [strlen length]. destruct (c =? 0); [intros [= <-]; lia|].
  destruct (strlen mem) as [n| |]; [|done..]. cbn. intros [= <-]. specialize (IH n eq_refl). lia.
Qed.

(** By cases on what kind of field it is. *)
Ltac by_kind fd :=
  unfold op_fits, fits, field_value, field_ok, op_value, is_array, is_string, is_scalar, sizeof in *; destruct (quant fd), (ftype fd); try done.

(** Every setter does what it is for. *)
Lemma apply_op_correct tag fields b i fd o : consistent tag fields b -> fields !! i = Some fd -> op_fits fd o ->
  exists b', apply_op tag i o b = Ret b' /\ changed tag fields b b' i fd (op_pointer o) (fun nested => op_value nested fd o).
Proof using Hschema.
  intros Hc Hi Hfit. pose proof (fields_ok _ _ (c_fields _ _ _ Hc)) as Hok. pose proof (Forall_lookup_1 _ _ _ _ Hok Hi) as Hfd.
  assert (Hlen : is_array fd = false -> is_string fd = true -> exists off, offsetof fields (MLen i) = Some (off, 4)) by (intros; by eapply offsetof_len).
  assert (Hcount : is_array fd = true -> exists off, offsetof fields (MCount i) = Some (off, 4)) by (intros; by eapply offsetof_count).
  destruct o as [value|values count|value len|value|value|how values count|values count]; cbn [apply_op op_pointer].
  - apply set_scalar_correct; try done; by_kind fd.
  - destruct Hcount as [off Ho]; [by_kind fd|]. eapply set_u32_update; [done|done|by right|done|by_kind fd; lia|].
    intros w Hw. by_kind fd. split; [exists count; by split_and!; [done|lia..]|]. intros nested. by rewrite Hw.
  - destruct Hlen as [off Ho]; [by_kind fd..|]. eapply set_u32_update; [done|done|by left|done|by_kind fd; lia|].
    intros w Hw. by_kind fd; destruct Hfit as [Hl Hm]; (split; [exists len; split; [done|]; intros mem ->; specialize (Hm mem eq_refl); lia|]);
      intros nested; destruct value; rewrite ?Hw; done.
  - destruct Hlen as [off Ho]; [by_kind fd..|].
    assert (exists len, match value with Some mem => strlen mem | None => Ret 0 end = Ret len /\ 0 <= len < 2 ^ 32) as (len & El & Hlb).
    { destruct value as [mem|]; [|by exists 0]. assert (exists len, strlen mem = Ret len /\ len < 2 ^ 32) as (len & E & Hl) by (by_kind fd; by apply Hfit).
      exists len. split; [done|]. apply strlen_bounds in E. lia. }
    unfold set_string. rewrite El. cbn [mbind outcome_bind]. unfold u32. rewrite Z.mod_small by done.
    eapply set_u32_update; [done|done|by left|done|done|]. intros w Hw.
    by_kind fd; (split; [exists len; split; [done|]; intros mem ->; by apply strlen_bounds|]); intros nested; destruct value; rewrite ?Hw, ?El; done.
  - destruct (update_correct tag fields b i fd (fun _ _ w => Ret w) (Some (PFbb value))) as (b' & Eb & Hc' & Ew & Hot & Hp); [done|done| |].
    { exists (wire b). split_and!; [done..|]. intros q ->. by_kind fd. }
    exists b'. split; [done|]. apply changed_intro; [done..|]. intros nested. by_kind fd; by destruct value.
  - destruct Hcount as [off Ho]; [by_kind fd|]. eapply set_u32_update; [done|done|by right|done|by_kind fd; lia|].
    intros w Hw. by_kind fd. destruct Hfit as (? & ? & ?). split; [exists count; by split_and!; [done|lia..|done]|]. intros nested. by rewrite Hw.
  - destruct Hcount as [off Ho]; [by_kind fd|]. eapply set_u32_update; [done|done|by right|done|by_kind fd; lia|].
    intros w Hw. by_kind fd. split; [exists count; by split_and!; [done|lia..]|]. intros nested. by rewrite Hw.
Qed.

(** *** A new builder *)

Lemma zeros_lookup n i : (i < Z.to_nat n)%nat -> zeros n !! i = Some 0.
Proof. intros Hi. unfold zeros. by apply lookup_replicate_2. Qed.
Lemma peek_zeros off len n : 0 <= off -> 0 <= len -> off + len <= n -> peek off len (zeros n) = Ret (zeros len).
Proof.
  intros Ho Hl Hn. unfold peek, zeros. rewrite length_replicate.
  replace (_ && _ && _) with true by (symmetry; rewrite !andb_true_iff, !Z.leb_le; lia). f_equal.
  rewrite drop_replicate, take_replicate. f_equal. lia.
Qed.
Lemma le_zeros n : le (zeros n) = 0.
Proof. unfold zeros. induction (Z.to_nat n) as [|k IH]; [done|]. cbn. lia. Qed.

Lemma members_end_size fields : Forall field_ok fields -> 0 <= members_end fields <= wire_size fields.
Proof.
  intros Hok. split; [by apply place_end, members_ok|]. pose proof (wire_size_bound fields).
  assert (0 <= (zlen (has_bits fields) + 7) / 8) by (apply Z.div_pos; lia). lia.
Qed.
Lemma get_member_zeros fields m off z : Forall field_ok fields -> offsetof fields m = Some (off, z) ->
  get_member fields m (zeros (wire_size fields)) 0 = Ret (zeros z).
Proof.
  intros Hok E. unfold get_member. rewrite E. pose proof (offsetof_bounds fields Hok _ _ _ E). pose proof (members_end_size fields Hok).
  apply peek_zeros; lia.
Qed.
Lemma get_has_zeros fields i fd : Forall field_ok fields -> fields !! i = Some fd -> quant fd = OPTIONAL -> is_scalar fd = true ->
  get_has fields i (zeros (wire_size fields)) 0 = Ret false.
Proof.
  intros Hok Hi Hq Hs. destruct (has_bit_some fields i fd Hi Hq Hs) as [[off bit] E]. unfold get_has. rewrite E.
  pose proof (has_bit_bounds fields _ _ _ E). pose proof (members_end_size fields Hok). rewrite peek_zeros by lia. cbn. by rewrite Z.testbit_0_l.
Qed.

Lemma init_fits nested fields i fd w : Forall field_ok fields -> fields !! i = Some fd -> same_slot fields (zeros (wire_size fields)) w i ->
  fits fields w i fd (null_pointer fd) /\ field_value nested fields w i fd (null_pointer fd) = default_value fd.
Proof.
  intros Hok Hi (Hh & Hm & Hl & Hn). unfold get_u32 in *. pose proof (Forall_lookup_1 _ _ _ _ Hok Hi) as Hfd.
  assert (Hc : is_array fd = true -> get_u32 fields (MCount i) w 0 = Ret 0).
  { intros Ha. destruct (offsetof_count fields Hok i fd Hi Ha) as [off E]. unfold get_u32. rewrite Hn, (get_member_zeros _ _ _ _ Hok E). cbn. by rewrite le_zeros. }
  assert (Hl' : is_array fd = false -> is_string fd = true -> get_u32 fields (MLen i) w 0 = Ret 0).
  { intros Ha Hs. destruct (offsetof_len fields Hok i fd Hi Ha Hs) as [off E]. unfold get_u32. rewrite Hl, (get_member_zeros _ _ _ _ Hok E). cbn. by rewrite le_zeros. }
  assert (Hm' : is_array fd = false -> is_scalar fd = true -> get_member fields (MScalar i) w 0 = Ret (zeros (sizeof fd))).
  { intros Ha Hs. destruct (offsetof_scalar fields Hok i fd Hi Ha Hs) as [off E]. by rewrite Hm, (get_member_zeros _ _ _ _ Hok E). }
  assert (Hh' : quant fd = OPTIONAL -> is_scalar fd = true -> get_has fields i w 0 = Ret false) by (intros; rewrite Hh; by eapply get_has_zeros).
  unfold null_pointer, default_value. clear Hh Hm Hl Hn. by_kind fd.
  all: rewrite ?Hc, ?Hl', ?Hm', ?Hh' by done; split; try done; cbn [length].
  all: first [exists 0; split_and!; first [done | lia | constructor] | exists 0; split; [done|]; intros mem [=] | split; [by eexists|]; intros ?; try done; by eexists | idtac].
Qed.

Lemma init_correct tag fields : fields_of msgs tag = Some fields -> tag < 2 ^ 32 ->
  exists b, builder_init msgs tag = Ret b /\ consistent tag fields b /\ pointers b = null_pointer <$> fields /\
    forall i fd nested, fields !! i = Some fd -> builder_field msgs nested b tag i fd = default_value fd.
Proof using Hschema.
  intros Hf Ht. pose proof (fields_ok _ _ Hf) as Hok. assert (1 <= tag) by (unfold fields_of in Hf; destruct (Z.leb_spec 1 tag); done).
  destruct (set_member_correct fields Hok MTag (le_bytes 4 tag) (zeros (wire_size fields)) 0) as (w & Ew & Hg & Hs & Hb).
  { apply length_zeros. pose proof (members_end_size fields Hok). lia. } { by rewrite offsetof_tag, length_le_bytes. }
  assert (Hslot : forall j, same_slot fields (zeros (wire_size fields)) w j).
  { intros j. eapply same_members_slot; [done|done| |by intros []]. by intros m Hm <-. }
  assert (Hfit : forall i fd nested, fields !! i = Some fd ->
    fits fields w i fd (null_pointer fd) /\ field_value nested fields w i fd (null_pointer fd) = default_value fd) by (intros; by apply init_fits).
  exists (mkBuilder w (null_pointer <$> fields)). unfold builder_init, set_u32. rewrite Hf, Ew. split; [done|].
  assert (Hc : consistent tag fields (mkBuilder w (null_pointer <$> fields))).
  { split; cbn [wire pointers]; [|done| |by rewrite length_fmap|].
    - unfold get_member in Hg. rewrite offsetof_tag in Hg. unfold get_tag, peek_u32. change (0 + 0) with 0 in Hg. rewrite Hg. cbn [mbind outcome_bind].
      by rewrite le_le_bytes by (change (256 ^ Z.of_nat 4) with (2 ^ 32); lia).
    - destruct Hs as [-> _]. apply length_zeros. pose proof (members_end_size fields Hok). lia.
    - intros i fd p Hi Hp. rewrite list_lookup_fmap, Hi in Hp. injection Hp as <-. by apply (Hfit i fd (fun _ => Abort)). }
  split_and!; [done|done|]. intros i fd nested Hi. rewrite (builder_field_eq nested tag fields _ i fd (null_pointer fd)); [by apply Hfit|done..|].
  cbn. by rewrite list_lookup_fmap, Hi.
Qed.

(** *** Building a message *)

Fixpoint apply_ops (tag : Z) (ops : list (nat * op)) (b : builder) : outcome builder :=
  match ops with [] => Ret b | (i, o) :: ops => b ← apply_op tag i o b; apply_ops tag ops b end.
Definition build (tag : Z) (ops : list (nat * op)) : outcome builder := b ← builder_init msgs tag; apply_ops tag ops b.

Fixpoint last_op (i : nat) (ops : list (nat * op)) : option op :=
  match ops with
  | [] => None
  | (j, o) :: ops => match last_op i ops with Some o' => Some o' | None => if (j =? i)%nat then Some o else None end
  end.

(** All setters are used on the fields they are for. *)
Definition ops_fit (fields : list field) (ops : list (nat * op)) : Prop := Forall (fun '(i, o) => exists fd, fields !! i = Some fd /\ op_fits fd o) ops.

Lemma apply_ops_correct tag fields ops b : consistent tag fields b -> ops_fit fields ops ->
  exists b', apply_ops tag ops b = Ret b' /\ consistent tag fields b' /\
    forall i fd, fields !! i = Some fd ->
      pointers b' !! i = match last_op i ops with Some o => Some (op_pointer o) | None => pointers b !! i end /\
      forall nested, builder_field msgs nested b' tag i fd = match last_op i ops with Some o => op_value nested fd o | None => builder_field msgs nested b tag i fd end.
Proof using Hschema.
  revert b. induction ops as [|[i o] ops IH]; intros b Hc Hops; [by exists b|]. apply Forall_cons in Hops as [(fd & Hi & Hfit) Hops].
  destruct (apply_op_correct tag fields b i fd o Hc Hi Hfit) as (b1 & E1 & Hc1 & Hp1 & Hv1 & Hother).
  destruct (IH b1 Hc1 Hops) as (b' & E' & Hc' & Hf'). exists b'. cbn [apply_ops]. rewrite E1. split_and!; [done..|].
  intros j fd' Hj. destruct (Hf' j fd' Hj) as [Hp Hv]. cbn [last_op]. destruct (last_op j ops); [done|]. destruct (Nat.eqb_spec i j) as [<-|Hne].
  - rewrite Hi in Hj. injection Hj as <-. split; [congruence|]. intros nested. by rewrite Hv.
  - destruct (Hother j fd') as [Hpj Hvj]; [done..|]. split; [congruence|]. intros nested. by rewrite Hv.
Qed.

(** What the fields of the message are, and what it takes to serialize it. *)
Lemma build_fields tag fields ops : fields_of msgs tag = Some fields -> tag < 2 ^ 32 -> ops_fit fields ops ->
  exists b, build tag ops = Ret b /\ consistent tag fields b /\
    forall i fd, fields !! i = Some fd ->
      pointers b !! i = Some (match last_op i ops with Some o => op_pointer o | None => null_pointer fd end) /\
      forall nested, builder_field msgs nested b tag i fd = match last_op i ops with Some o => op_value nested fd o | None => default_value fd end.
Proof using Hschema.
  intros Hf Ht Hops. destruct (init_correct tag fields Hf Ht) as (b0 & E0 & Hc0 & Hp0 & Hv0).
  destruct (apply_ops_correct tag fields ops b0 Hc0 Hops) as (b & E & Hc & Hb). exists b. unfold build. rewrite E0. split_and!; [done..|].
  intros i fd Hi. destruct (Hb i fd Hi) as [Hp Hv]. split; [rewrite Hp, Hp0, list_lookup_fmap, Hi; by destruct (last_op i ops)|].
  intros nested. rewrite Hv. destruct (last_op i ops); [done|by apply Hv0].
Qed.

Definition complete (fields : list field) (ops : list (nat * op)) : Prop :=
  forall i fd, fields !! i = Some fd -> quant fd = REQUIRED -> is_scalar fd = false ->
    exists o, last_op i ops = Some o /\ op_pointer o <> PString None /\ op_pointer o <> PFbb None.

Lemma last_op_elem i ops o : last_op i ops = Some o -> (i, o) ∈ ops.
Proof.
  induction ops as [|[j p] ops IH]; [done|]. cbn. destruct (last_op i ops); [intros [= ->]; right; by apply IH|].
  destruct (Nat.eqb_spec j i) as [->|]; [intros [= ->]; left|done].
Qed.

Lemma build_wf tag fields ops b : fields_of msgs tag = Some fields -> tag < 2 ^ 32 -> ops_fit fields ops -> complete fields ops ->
  (forall i o sub, (i, o) ∈ ops -> sub ∈ subs (op_pointer o) -> wf msgs sub) -> build tag ops = Ret b -> wf msgs b.
Proof using Hschema.
  intros Hf Ht Hops Hcomp Hsub Hb. destruct (build_fields tag fields ops Hf Ht Hops) as (b' & E & Hc & Hv). rewrite Hb in E. injection E as <-.
  apply (consistent_wf tag fields b Hc). intros i fd p Hi Hp. destruct (Hv i fd Hi) as [Hp' _]. rewrite Hp in Hp'. injection Hp' as ->. split.
  - intros Hq. destruct (is_scalar fd) eqn:Hs.
    + pose proof (c_fits _ _ _ Hc i fd _ Hi Hp) as Hfit. unfold fits, is_scalar in *. destruct (quant fd), (ftype fd); try done.
      by destruct (match last_op i ops with Some _ => _ | None => _ end).
    + destruct (Hcomp i fd Hi Hq Hs) as (o & -> & ?). done.
  - destruct (last_op i ops) as [o|] eqn:Eo; [|unfold null_pointer; by destruct (quant fd), (ftype fd)].
    apply Forall_forall. intros sub Hin. eapply Hsub; [by apply last_op_elem|done].
Qed.

(** C21. In a message that is built by [init()] and any sequence of setters, the getters find in
    every field what was set last, or that it has not been set: the members of the wire structure
    do not overlap, so setting a field never changes another one.  A message whose required
    fields are set, and whose nested messages are, can be serialized. *)
Theorem builder_setters tag fields ops :
  fields_of msgs tag = Some fields -> tag < 2 ^ 32 -> ops_fit fields ops ->
  exists b, build tag ops = Ret b /\
    (forall nested i fd, fields !! i = Some fd ->
       builder_field msgs nested b tag i fd = match last_op i ops with Some o => op_value nested fd o | None => default_value fd end) /\
    (complete fields ops -> (forall i o sub, (i, o) ∈ ops -> sub ∈ subs (op_pointer o) -> wf msgs sub) -> wf msgs b).
Proof using Hschema.
  intros Hf Ht Hops. destruct (build_fields tag fields ops Hf Ht Hops) as (b & Eb & Hc & Hb). exists b. split_and!; [done| |].
  - intros nested i fd Hi. by destruct (Hb i fd Hi) as [_ ->].
  - intros Hcomp Hsub. by eapply build_wf.
Qed.

End Setters.

Lemma sample_schema_ok : schema_ok sample_schema.
Proof. apply (bool_decide_eq_true_1 (Forall (Forall field_ok) sample_schema)). vm_compute. reflexivity. Qed.

(** The path is set twice. *)
Definition sample_ops : list (nat * op) :=
  [(0%nat, SetString (Some [47; 97; 0])); (3%nat, SetScalar (le_bytes 4 420)); (0%nat, SetStringWithLength (Some [47; 98; 99; 0]) 3)].

Lemma builder_setters_witness :
  exists b, build sample_schema 1 sample_ops = Ret b /\
    builder_field sample_schema (fun _ => Abort) b 1 0 (mkField REQUIRED STRING "path"%string) = Ret (VString (Some [47; 98; 99])) /\
    builder_field sample_schema (fun _ => Abort) b 1 1 (mkField OPTIONAL (SCALAR 8 8) "size"%string) = Ret (VScalar None) /\
    wf sample_schema b.
Proof.
  destruct (builder_setters sample_schema sample_schema_ok 1 (nth 0 sample_schema []) sample_ops) as (b & Eb & Hv & Hwf); [reflexivity|reflexivity| |].
  { repeat constructor; (eexists; split; [reflexivity|]); cbn; try done.
    - intros mem [= <-]. by exists 2.
    - split; [done|]. by intros mem [= <-]. }
  exists b. split_and!; [done|by rewrite Hv|by rewrite Hv|]. apply Hwf.
  - intros [|[|[|[|i]]]] fd [= <-]; try done. intros _ _. by eexists.
  - intros i o sub Hin. unfold sample_ops in Hin. rewrite !elem_of_cons in Hin. destruct Hin as [[= -> ->]|[[= -> ->]|[[= -> ->]|Hin]]]; [by intros ?%elem_of_nil..|].
    by apply elem_of_nil in Hin.
Defined.

End FbbBuild.
