(* ===== verification/FbbStore.v ===== *)
(** Cache entries in their serialized form: the messages of src/firebuild/fbbstore.def, how an
    entry is built with their setters (src/firebuild/execed_process_cacher.cc) and serialized
    (src/firebuild/obj_cache.cc), and how it is read back with the getters. *)

From Stdlib Require Import ZArith Lia Ascii.
From stdpp Require Import base list strings option gmap.
From S2P Require Import Prelude Base64 Framing FileUsage Hashing Entries Fbb FbbFormat FbbBuild.

Local Open Scope Z_scope.

(** ** Building messages with known values *)
Module FbbMessage.
Import Frame Fbb FbbFormat FbbBuild.

Section Message.
Context (msgs : schema) (Hschema : schema_ok msgs).

(** [b] can be serialized, and reads as [m] where messages are nested at most [depth] deep. *)
Definition builds (depth : nat) (b : builder) (m : message) : Prop :=
  wf msgs b /\ forall fuel, (depth <= fuel)%nat -> builder_value msgs fuel b = Ret m.

(** The value of a field after some setters. *)
Definition final_value (nested : builder -> outcome message) (ops : list (nat * op)) (i : nat) (fd : field) : outcome value :=
  match last_op i ops with Some o => op_value nested fd o | None => default_value fd end.

Lemma mapM_imap_values (f : nat -> field -> outcome value) fields vs :
  length vs = length fields -> (forall i fd v, fields !! i = Some fd -> vs !! i = Some v -> f i fd = Ret v) -> mapM id (imap f fields) = Ret vs.
Proof.
  revert f vs. induction fields as [|fd fields IH]; intros f [|v vs] Hl Hv; try done. cbn [imap mapM].
  assert (E : mapM id (imap (f ∘ S) fields) = Ret vs); [|cbn; rewrite (Hv 0%nat fd v) by done; cbn; by rewrite E].
  apply IH; [cbn in Hl; lia|]. intros i fd' v' Hf Hv'. by apply (Hv (S i)).
Qed.

Lemma build_builds depth tag fields ops vs :
  fields_of msgs tag = Some fields -> tag < 2 ^ 32 -> ops_fit fields ops -> complete fields ops ->
  (forall i o sub, (i, o) ∈ ops -> sub ∈ subs (op_pointer o) -> exists m, builds depth sub m) ->
  length vs = length fields ->
  (forall nested, (forall sub m, builds depth sub m -> nested sub = Ret m) ->
     forall i fd v, fields !! i = Some fd -> vs !! i = Some v -> final_value nested ops i fd = Ret v) ->
  exists b, build msgs tag ops = Ret b /\ builds (S depth) b (mkMessage tag vs).
Proof using Hschema.
  intros Hf Ht Hops Hcomp Hsub Hl Hv. destruct (build_fields msgs Hschema tag fields ops Hf Ht Hops) as (b & Eb & Hc & Hb).
  exists b. split; [done|]. split.
  - eapply build_wf; [done..| |done]. intros i o sub Hin Hs. destruct (Hsub i o sub Hin Hs) as (m & Hm & _). done.
  - intros [|fuel] Hfuel; [lia|]. cbn [builder_value]. unfold message_of. rewrite (c_tag _ _ _ _ Hc). cbn [mbind outcome_bind]. rewrite Hf.
    rewrite (mapM_imap_values _ fields vs); [done|done|]. intros i fd v Hi Hvi. destruct (Hb i fd Hi) as [_ ->].
    apply (Hv (builder_value msgs fuel)); [|done..]. intros sub m [_ Hm]. apply Hm. lia.
Qed.

(** Serialized to new memory and read again. *)
Lemma builds_serialized depth b m : builds depth b m -> (depth <= 8)%nat -> zlen (image msgs b) < 2 ^ 32 ->
  exists size img, measure msgs b = Ret size /\ serialize msgs b 0 (zeros size) = Ret (size, img) /\ zlen img = size /\ 0 < size /\
    serialized_value msgs (length img) img 0 = Ret m.
Proof.
  intros [Hwf Hm] Hd Hb. destruct (wf_ser_ok msgs b Hwf) as [Hmod Hs]. set (size := zlen (image msgs b)) in *.
  assert (Hpos : 0 < size).
  { destruct Hwf as [w ps tag fields Ht Hf Hw _ _ _]. unfold size. rewrite (image_msg_eq _ _ _ _ _ Ht Hf), length_app.
    unfold get_tag, peek_u32 in Ht. destruct (peek 0 4 w) eqn:E; try done. apply peek_ret in E. lia. }
  exists size, (image msgs b). split_and!; [by apply wf_meas_ok| |done|done|].
  - pose proof (Hs [] (zeros size) []) as E. cbn [length app] in E. rewrite !app_nil_r in E. apply E; [|done]. apply Nat2Z.inj. apply length_zeros. lia.
  - destruct (wf_values msgs b Hwf (length (image msgs b)) (image msgs b) 0) as (v & E1 & E2); [|done|lia|].
    { exists [], []. by rewrite app_nil_r. }
    rewrite Hm in E2; [congruence|]. unfold size in *. dlia.
Qed.

End Message.

(** Setters that are used only when there is a value. *)
Definition opt {A} (i : nat) (f : A -> op) (o : option A) : list (nat * op) := match o with Some a => [(i, f a)] | None => [] end.

Lemma last_op_app i a b : last_op i (a ++ b) = match last_op i b with Some o => Some o | None => last_op i a end.
Proof.
  induction a as [|[j o] a IH]; cbn [app last_op]; [by destruct (last_op i b)|]. rewrite IH. by destruct (last_op i b).
Qed.
Lemma last_op_opt {A} i j (f : A -> op) o : last_op i (opt j f o) = if (j =? i)%nat then f <$> o else None.
Proof. destruct o; cbn; by destruct (j =? i)%nat. Qed.
Lemma last_op_one i j o : last_op i [(j, o)] = if (j =? i)%nat then Some o else None.
Proof. done. Qed.
Lemma ops_fit_app fields a b : ops_fit fields a -> ops_fit fields b -> ops_fit fields (a ++ b).
Proof. apply Forall_app_2. Qed.
Lemma ops_fit_opt {A} fields i fd (f : A -> op) o : fields !! i = Some fd -> (forall a, o = Some a -> op_fits fd (f a)) -> ops_fit fields (opt i f o).
Proof. intros Hi Hf. destruct o as [a|]; [|constructor]. apply Forall_singleton. exists fd. split; [done|]. by apply Hf. Qed.
Lemma ops_fit_one fields i fd o : fields !! i = Some fd -> op_fits fd o -> ops_fit fields [(i, o)].
Proof. intros Hi Hf. apply Forall_singleton. by exists fd. Qed.

(** Arrays of bytes, strings and nested messages. *)
Lemma mapM_seq_items {A B} (l : list A) (f : A -> outcome B) (g : A -> B) :
  (forall x, x ∈ l -> f x = Ret (g x)) -> items_of (zlen l) (fun idx => x ← item_at l (Z.to_nat idx); f x) = Ret (g <$> l).
Proof.
  intros Hf. unfold items_of. rewrite Nat2Z.id.
  assert (forall a b, l = a ++ b -> mapM (fun idx => x ← item_at l (Z.to_nat (Z.of_nat idx)); f x) (seq (length a) (length b)) = Ret (g <$> b)) as E.
  { intros a b. revert a. induction b as [|x b IH]; intros a ->; [done|]. cbn [length seq mapM]. rewrite Nat2Z.id.
    rewrite item_at_mid. cbn [mbind outcome_bind]. rewrite Hf by (apply elem_of_app; right; left). cbn [mbind outcome_bind].
    specialize (IH (a ++ [x])). rewrite <- app_assoc in IH. cbn [app] in IH. rewrite length_app, Nat.add_1_r in IH. by rewrite IH. }
  by apply (E [] l).
Qed.
Lemma peek_byte l idx : peek (idx * 1) 1 l = b ← (if 0 <=? idx then item_at l (Z.to_nat idx) else Abort); Ret [b].
Proof.
  unfold peek, item_at. rewrite Z.mul_1_r. destruct (Z.leb_spec 0 idx) as [Hi|Hi]; [|done]. cbn [andb]. destruct (Z.leb_spec (idx + 1) (zlen l)) as [Hl|Hl].
  - destruct (lookup_lt_is_Some_2 l (Z.to_nat idx)) as [b Hb]; [lia|]. rewrite Hb. cbn. f_equal. erewrite drop_S by done. done.
  - by rewrite lookup_ge_None_2 by lia.
Qed.
Lemma items_bytes l : items_of (zlen l) (fun idx => peek (idx * 1) 1 l) = Ret ((fun b => [b]) <$> l).
Proof.
  rewrite <- (mapM_seq_items l (fun b => Ret [b])) by done. apply items_ext. intros idx Hi. rewrite peek_byte.
  by destruct (Z.leb_spec 0 idx); [|lia].
Qed.

End FbbMessage.

Module FbbStore.
Import Frame Fbb FbbFormat FbbBuild FbbMessage FileInfo Code Entry.

(** ** fbbstore.def *)

Definition INT : type := SCALAR 4 4.
Definition HASH : type := SCALAR 16 8.

Definition TAG_file : Z := 1.
Definition TAG_dir : Z := 2.
Definition TAG_append_to_fd : Z := 3.
Definition TAG_process_inputs : Z := 4.
Definition TAG_process_outputs : Z := 5.
Definition TAG_process_inputs_outputs : Z := 6.

Definition file_fields : list field :=
  [mkField REQUIRED STRING "path"; mkField REQUIRED INT "type"; mkField OPTIONAL (SCALAR 8 8) "size"; mkField OPTIONAL HASH "hash";
   mkField OPTIONAL HASH "compressed_hash"; mkField OPTIONAL INT "mode"; mkField OPTIONAL INT "mode_mask";
   mkField ARRAY (SCALAR 1 1) "inline_data"; mkField OPTIONAL STRING "timestamp_source"]%string.
Definition dir_fields : list field := [mkField REQUIRED STRING "path"; mkField ARRAY STRING "entry"]%string.
Definition append_fields : list field :=
  [mkField REQUIRED INT "fd"; mkField OPTIONAL HASH "hash"; mkField OPTIONAL HASH "compressed_hash"; mkField ARRAY (SCALAR 1 1) "inline_data"]%string.
Definition inputs_fields : list field := [mkField ARRAY FBB "path"; mkField ARRAY STRING "path_notexist"]%string.
Definition outputs_fields : list field :=
  [mkField ARRAY FBB "path_isreg"; mkField ARRAY FBB "path_isdir"; mkField ARRAY STRING "path_notexist"; mkField ARRAY FBB "append_to_fd";
   mkField REQUIRED INT "exit_status"]%string.
Definition pio_fields : list field := [mkField REQUIRED FBB "inputs"; mkField REQUIRED FBB "outputs"; mkField OPTIONAL INT "cpu_time_ms"]%string.

Definition fbbstore : schema := [file_fields; dir_fields; append_fields; inputs_fields; outputs_fields; pio_fields].

Lemma fbbstore_ok : schema_ok fbbstore.
Proof. apply (bool_decide_eq_true_1 (Forall (Forall field_ok) fbbstore)). vm_compute. reflexivity. Qed.

(** ** Scalars in memory *)

Definition hash_bytes (h : Hash.t) : list Z := le_bytes 8 (Hash.low64 h) ++ le_bytes 8 (Hash.high64 h).
Definition hash_of (l : list Z) : Hash.t := Hash.mk (le (drop 8 l)) (le (take 8 l)).
Definition int_of (l : list Z) : Z := (le l + 2 ^ 31) mod 2 ^ 32 - 2 ^ 31.

(** [c_str()] is the string with its terminator, [length()] is without. *)
Definition bytes_of (s : cstr) : list Z := byte_of <$> s.
Definition text_of (l : list Z) : cstr := (fun b => ascii_of_N (Z.to_N b)) <$> l.
Definition set_str (s : cstr) : op := SetStringWithLength (Some (enc_str s)) (u32 (zlen s)).

(** ** Building an entry *)

(** The setters that [add_file()] uses for a file. *)
Definition file_ops (f : file) : list (nat * op) :=
  [(0%nat, set_str (f_path f))] ++ [(1%nat, SetScalar (le_bytes 4 (file_type_to_int (f_type f))))] ++
  opt 2 (fun size => SetScalar (le_bytes 8 size)) (f_size f) ++
  opt 4 (fun h => SetScalar (hash_bytes h)) (f_compressed_hash f) ++ opt 3 (fun h => SetScalar (hash_bytes h)) (f_hash f) ++
  opt 5 (fun m => SetScalar (le_bytes 4 m)) (f_mode f) ++ opt 6 (fun m => SetScalar (le_bytes 4 m)) (f_mode_mask f) ++
  opt 7 (fun d => SetScalars d (u32 (zlen d))) (if bool_decide (f_inline_data f = []) then None else Some (f_inline_data f)) ++
  opt 8 set_str (f_timestamp_source f).
Definition build_file (f : file) : outcome builder := build fbbstore TAG_file (file_ops f).

Definition append_ops (a : append_to_fd) : list (nat * op) :=
  [(0%nat, SetScalar (le_bytes 4 (a_fd a)))] ++
  opt 3 (fun d => SetScalars d (u32 (zlen d))) (if bool_decide (a_inline_data a = []) then None else Some (a_inline_data a)) ++
  opt 2 (fun h => SetScalar (hash_bytes h)) (a_compressed_hash a) ++ opt 1 (fun h => SetScalar (hash_bytes h)) (a_hash a).
Definition build_append (a : append_to_fd) : outcome builder := build fbbstore TAG_append_to_fd (append_ops a).

(** The end of [store()]: missing inputs are given with their lengths, missing outputs as plain C
    strings. *)
Definition set_fbb_items (items : list builder) : op := SetFbbs items (u32 (zlen items)).
Definition inputs_ops (files : list builder) (notexist : list cstr) : list (nat * op) :=
  [(0%nat, set_fbb_items files); (1%nat, SetStrings FORMAT_CSTRING_VIEW_ARRAY ((fun s => (enc_str s, u32 (zlen s))) <$> notexist) (u32 (zlen notexist)))].
Definition build_inputs (pi : process_inputs) : outcome builder :=
  files ← mapM build_file (pi_path pi);
  build fbbstore TAG_process_inputs (inputs_ops files (pi_path_notexist pi)).
Definition outputs_ops (isreg isdir : list builder) (notexist : list cstr) (appends : list builder) (exit_status : Z) : list (nat * op) :=
  [(0%nat, set_fbb_items isreg); (1%nat, set_fbb_items isdir); (2%nat, SetStrings FORMAT_ARRAY ((fun s => (enc_str s, 0)) <$> notexist) (u32 (zlen notexist)));
   (3%nat, set_fbb_items appends); (4%nat, SetScalar (le_bytes 4 exit_status))].
Definition build_outputs (po : process_outputs) : outcome builder :=
  isreg ← mapM build_file (po_path_isreg po);
  isdir ← mapM build_file (po_path_isdir po);
  appends ← mapM build_append (po_append_to_fd po);
  build fbbstore TAG_process_outputs (outputs_ops isreg isdir (po_path_notexist po) appends (po_exit_status po)).
Definition pio_ops (inputs outputs : builder) (cpu_time_ms : option Z) : list (nat * op) :=
  [(0%nat, SetFbb (Some inputs))] ++ [(1%nat, SetFbb (Some outputs))] ++ opt 2 (fun t => SetScalar (le_bytes 4 t)) cpu_time_ms.
Definition build_pio (e : process_inputs_outputs) : outcome builder :=
  inputs ← build_inputs (pio_inputs e);
  outputs ← build_outputs (pio_outputs e);
  build fbbstore TAG_process_inputs_outputs (pio_ops inputs outputs (pio_cpu_time_ms e)).

(** [ObjCache::store()] measures the entry, allocates memory and serializes it there. *)
Definition serialize_pio (e : process_inputs_outputs) : outcome (list Z) :=
  b ← build_pio e;
  len ← measure fbbstore b;
  '(_, mem) ← Fbb.serialize fbbstore b 0 (zeros len);
  Ret mem.

(** ** Reading an entry *)

Definition file_of (m : message) : option file :=
  match m with
  | mkMessage tag [VString (Some path); VScalar (Some ty); VScalar size; VScalar hash; VScalar compressed_hash; VScalar mode; VScalar mode_mask;
                   VScalars inline_data; VString timestamp_source] =>
      if tag =? TAG_file then
        ty ← int_to_file_type (le ty);
        Some (mkFile (text_of path) ty (le <$> size) (hash_of <$> hash) (hash_of <$> compressed_hash) (le <$> mode) (le <$> mode_mask)
                (le <$> inline_data) (text_of <$> timestamp_source))
      else None
  | _ => None
  end.
Definition append_of (m : message) : option append_to_fd :=
  match m with
  | mkMessage tag [VScalar (Some fd); VScalar hash; VScalar compressed_hash; VScalars inline_data] =>
      if tag =? TAG_append_to_fd then Some (mkAppend (int_of fd) (hash_of <$> hash) (hash_of <$> compressed_hash) (le <$> inline_data)) else None
  | _ => None
  end.
Definition inputs_of (m : message) : option process_inputs :=
  match m with
  | mkMessage tag [VFbbs path; VStrings path_notexist] =>
      if tag =? TAG_process_inputs then path ← mapM file_of path; Some (mkInputs path (text_of <$> path_notexist)) else None
  | _ => None
  end.
Definition outputs_of (m : message) : option process_outputs :=
  match m with
  | mkMessage tag [VFbbs isreg; VFbbs isdir; VStrings notexist; VFbbs appends; VScalar (Some exit_status)] =>
      if tag =? TAG_process_outputs then
        isreg ← mapM file_of isreg;
        isdir ← mapM file_of isdir;
        appends ← mapM append_of appends;
        Some (mkOutputs isreg isdir (text_of <$> notexist) appends (int_of exit_status))
      else None
  | _ => None
  end.
Definition pio_of (m : message) : option process_inputs_outputs :=
  match m with
  | mkMessage tag [VFbb (Some inputs); VFbb (Some outputs); VScalar cpu_time_ms] =>
      if tag =? TAG_process_inputs_outputs then
        inputs ← inputs_of inputs;
        outputs ← outputs_of outputs;
        Some (mkPio inputs outputs (int_of <$> cpu_time_ms))
      else None
  | _ => None
  end.

(** The whole entry, with the getters of the serialized form. *)
Definition deserialize_pio (mem : list Z) : option process_inputs_outputs :=
  match serialized_value fbbstore (length mem) mem 0 with Ret m => pio_of m | _ => None end.

#[global] Instance fbbstore_serializer : Serializer :=
  {| Entry.serialize e := ret_or [] (serialize_pio e); Entry.deserialize := deserialize_pio |}.

(** ** Entries whose data fits *)

Definition str_ok (s : cstr) : Prop := zlen s < 2 ^ 32.
Definition u32_ok (n : Z) : Prop := 0 <= n < 2 ^ 32.
Definition int_ok (n : Z) : Prop := - 2 ^ 31 <= n < 2 ^ 31.
Definition data_ok (d : list Z) : Prop := zlen d < 2 ^ 32.
Definition if_some {A} (P : A -> Prop) (o : option A) : Prop := forall a, o = Some a -> P a.

Definition file_ok (f : file) : Prop :=
  str_ok (f_path f) /\ if_some (fun n => 0 <= n < 2 ^ 64) (f_size f) /\ if_some Hash.wf (f_hash f) /\ if_some Hash.wf (f_compressed_hash f) /\
  if_some u32_ok (f_mode f) /\ if_some u32_ok (f_mode_mask f) /\ data_ok (f_inline_data f) /\ if_some str_ok (f_timestamp_source f).
Definition append_ok (a : append_to_fd) : Prop :=
  int_ok (a_fd a) /\ if_some Hash.wf (a_hash a) /\ if_some Hash.wf (a_compressed_hash a) /\ data_ok (a_inline_data a).
Definition inputs_ok (pi : process_inputs) : Prop :=
  Forall file_ok (pi_path pi) /\ zlen (pi_path pi) < 2 ^ 32 /\ Forall str_ok (pi_path_notexist pi) /\ zlen (pi_path_notexist pi) < 2 ^ 32.
Definition outputs_ok (po : process_outputs) : Prop :=
  Forall file_ok (po_path_isreg po) /\ zlen (po_path_isreg po) < 2 ^ 32 /\ Forall file_ok (po_path_isdir po) /\ zlen (po_path_isdir po) < 2 ^ 32 /\
  Forall (fun s => str_ok s /\ no_nul s) (po_path_notexist po) /\ zlen (po_path_notexist po) < 2 ^ 32 /\
  Forall append_ok (po_append_to_fd po) /\ zlen (po_append_to_fd po) < 2 ^ 32 /\ int_ok (po_exit_status po).
Definition pio_ok (e : process_inputs_outputs) : Prop :=
  inputs_ok (pio_inputs e) /\ outputs_ok (pio_outputs e) /\ if_some int_ok (pio_cpu_time_ms e).

#[global] Instance if_some_dec {A} (P : A -> Prop) `{!forall a, Decision (P a)} o : Decision (if_some P o).
Proof.
  destruct o as [a|]; [|left; by intros b [=]]. destruct (decide (P a)) as [Hp|Hn]; [left; by intros b [= <-]|right; intros Hi; by apply Hn, Hi].
Defined.
#[global] Instance hash_wf_dec h : Decision (Hash.wf h).
Proof. unfold Hash.wf. apply _. Defined.
#[global] Instance file_ok_dec f : Decision (file_ok f).
Proof. unfold file_ok, str_ok, u32_ok, data_ok. apply _. Defined.
#[global] Instance append_ok_dec a : Decision (append_ok a).
Proof. unfold append_ok, int_ok, data_ok. apply _. Defined.
#[global] Instance pio_ok_dec e : Decision (pio_ok e).
Proof. unfold pio_ok, inputs_ok, outputs_ok, str_ok, int_ok, no_nul. apply _. Defined.

(** ** What the messages say *)

Definition file_message (f : file) : message :=
  mkMessage TAG_file
    [VString (Some (bytes_of (f_path f))); VScalar (Some (le_bytes 4 (file_type_to_int (f_type f)))); VScalar (le_bytes 8 <$> f_size f);
     VScalar (hash_bytes <$> f_hash f); VScalar (hash_bytes <$> f_compressed_hash f); VScalar (le_bytes 4 <$> f_mode f);
     VScalar (le_bytes 4 <$> f_mode_mask f); VScalars ((fun b => [b]) <$> f_inline_data f); VString (bytes_of <$> f_timestamp_source f)].
Definition append_message (a : append_to_fd) : message :=
  mkMessage TAG_append_to_fd
    [VScalar (Some (le_bytes 4 (a_fd a))); VScalar (hash_bytes <$> a_hash a); VScalar (hash_bytes <$> a_compressed_hash a);
     VScalars ((fun b => [b]) <$> a_inline_data a)].
Definition inputs_message (pi : process_inputs) : message :=
  mkMessage TAG_process_inputs [VFbbs (file_message <$> pi_path pi); VStrings (bytes_of <$> pi_path_notexist pi)].
Definition outputs_message (po : process_outputs) : message :=
  mkMessage TAG_process_outputs
    [VFbbs (file_message <$> po_path_isreg po); VFbbs (file_message <$> po_path_isdir po); VStrings (bytes_of <$> po_path_notexist po);
     VFbbs (append_message <$> po_append_to_fd po); VScalar (Some (le_bytes 4 (po_exit_status po)))].
Definition pio_message (e : process_inputs_outputs) : message :=
  mkMessage TAG_process_inputs_outputs
    [VFbb (Some (inputs_message (pio_inputs e))); VFbb (Some (outputs_message (pio_outputs e))); VScalar (le_bytes 4 <$> pio_cpu_time_ms e)].

(** *** Reading them *)

Lemma le_le_bytes_mod n v : le (le_bytes n v) = v mod 256 ^ Z.of_nat n.
Proof.
  revert v. induction n as [|n IH]; intros v; [by rewrite Z.mod_1_r|]. cbn [le le_bytes]. rewrite IH, Nat2Z.inj_succ, Z.pow_succ_r by lia.
  rewrite Z.rem_mul_r; lia.
Qed.
Lemma int_of_bytes n : int_ok n -> int_of (le_bytes 4 n) = n.
Proof. unfold int_ok, int_of. intros Hn. rewrite le_le_bytes_mod. change (256 ^ Z.of_nat 4) with (2 ^ 32). dlia. Qed.
Lemma hash_of_bytes h : Hash.wf h -> hash_of (hash_bytes h) = h.
Proof.
  intros [Hh Hl]. unfold hash_of, hash_bytes. rewrite drop_app_length', take_app_length' by (by rewrite length_le_bytes).
  rewrite !le_le_bytes by done. by destruct h.
Qed.
Lemma text_of_bytes s : text_of (bytes_of s) = s.
Proof.
  unfold text_of, bytes_of. induction s as [|c s IH]; [done|]. cbn [fmap list_fmap]. rewrite IH. f_equal. unfold byte_of.
  by rewrite N2Z.id, ascii_N_embedding.
Qed.
Lemma data_of_bytes (d : list Z) : le <$> ((fun b => [b]) <$> d) = d.
Proof. induction d as [|b d IH]; [done|]. cbn [fmap list_fmap le]. f_equal; [lia|exact IH]. Qed.
Lemma fmap_if_some {A B} (f : A -> B) (g : B -> A) P (o : option A) : (forall a, P a -> g (f a) = a) -> if_some P o -> g <$> (f <$> o) = o.
Proof. intros Hg Ho. destruct o as [a|]; [|done]. cbn. f_equal. by apply Hg, Ho. Qed.
Lemma int_to_file_type_bytes t : int_to_file_type (le (le_bytes 4 (file_type_to_int t))) = Some t.
Proof. by destruct t. Qed.
Lemma mapM_of {A B} (f : A -> B) (g : B -> option A) P (l : list A) : (forall a, P a -> g (f a) = Some a) -> Forall P l -> mapM g (f <$> l) = Some l.
Proof. intros Hg. induction 1 as [|a l Ha _ IH]; [done|]. cbn. rewrite Hg by done. cbn. by rewrite IH. Qed.
Lemma texts_of_bytes (l : list cstr) : text_of <$> (bytes_of <$> l) = l.
Proof. induction l as [|s l IH]; [done|]. cbn. by rewrite text_of_bytes, IH. Qed.

Lemma file_of_message f : file_ok f -> file_of (file_message f) = Some f.
Proof.
  intros (_ & Hs & Hh & Hc & Hm & Hk & _ & _). unfold file_of, file_message. rewrite Z.eqb_refl, int_to_file_type_bytes. cbn [mbind option_bind].
  rewrite text_of_bytes, data_of_bytes, !(fmap_if_some hash_bytes hash_of Hash.wf) by (done || apply hash_of_bytes).
  rewrite (fmap_if_some (le_bytes 8) le (fun n => 0 <= n < 2 ^ 64)), !(fmap_if_some (le_bytes 4) le u32_ok) by (done || (intros; by apply le_le_bytes)).
  rewrite (fmap_if_some bytes_of text_of (fun _ => True)) by (done || (intros; apply text_of_bytes)). by destruct f.
Qed.
Lemma append_of_message a : append_ok a -> append_of (append_message a) = Some a.
Proof.
  intros (Hf & Hh & Hc & _). unfold append_of, append_message. rewrite Z.eqb_refl, int_of_bytes by done.
  rewrite data_of_bytes, !(fmap_if_some hash_bytes hash_of Hash.wf) by (done || apply hash_of_bytes). by destruct a.
Qed.
Lemma pio_of_message e : pio_ok e -> pio_of (pio_message e) = Some e.
Proof.
  intros ((Hp & _) & (Hr & _ & Hd & _ & _ & _ & Ha & _ & He) & Ht). unfold pio_of, pio_message, inputs_of, inputs_message, outputs_of, outputs_message.
  rewrite !Z.eqb_refl, !(mapM_of file_message file_of file_ok) by (done || apply file_of_message). cbn [mbind option_bind].
  rewrite (mapM_of append_message append_of append_ok) by (done || apply append_of_message). cbn [mbind option_bind].
  rewrite !texts_of_bytes, int_of_bytes, (fmap_if_some (le_bytes 4) int_of int_ok) by (done || apply int_of_bytes).
  by destruct e as [[] [] ?].
Qed.

(** *** Writing them *)

Lemma length_enc_str s : zlen (enc_str s) = zlen s + 1.
Proof. unfold enc_str. rewrite length_app, length_fmap. cbn. lia. Qed.
Lemma peek_enc_str s : peek 0 (zlen s) (enc_str s) = Ret (bytes_of s).
Proof. unfold enc_str. pose proof (peek_mid [] (bytes_of s) [0]) as E. cbn [app length] in E. unfold bytes_of in E at 1. by rewrite length_fmap in E. Qed.
Lemma u32_small n : 0 <= n < 2 ^ 32 -> u32 n = n.
Proof. intros Hn. by apply Z.mod_small. Qed.

Lemma set_str_fits fd s : quant fd <> ARRAY -> ftype fd = STRING -> str_ok s -> op_fits fd (set_str s).
Proof.
  intros Hq Ht Hs. unfold op_fits, set_str, str_ok in *. rewrite Ht, u32_small by lia.
  destruct (quant fd); [| |done]; (split; [lia|]); intros mem [= <-]; rewrite length_enc_str; lia.
Qed.
Lemma set_str_value nested fd s : str_ok s -> op_value nested fd (set_str s) = Ret (VString (Some (bytes_of s))).
Proof. unfold str_ok. intros Hs. cbn. by rewrite u32_small, peek_enc_str by lia. Qed.

Definition set_data (d : list Z) : op := SetScalars d (u32 (zlen d)).
Lemma set_data_fits fd d : quant fd = ARRAY -> ftype fd = SCALAR 1 1 -> data_ok d -> op_fits fd (set_data d).
Proof. intros Hq Ht Hd. unfold op_fits, data_ok, set_data in *. rewrite Hq, Ht, u32_small by lia. lia. Qed.
Lemma set_data_value nested fd d : ftype fd = SCALAR 1 1 -> data_ok d -> op_value nested fd (set_data d) = Ret (VScalars ((fun b => [b]) <$> d)).
Proof. intros Ht Hd. unfold data_ok in Hd. cbn [op_value set_data]. unfold sizeof. rewrite Ht, u32_small by lia. by rewrite items_bytes. Qed.
Lemma final_data nested fd ops i d : ftype fd = SCALAR 1 1 -> quant fd = ARRAY -> data_ok d ->
  last_op i ops = set_data <$> (if bool_decide (d = []) then None else Some d) -> final_value nested ops i fd = Ret (VScalars ((fun b => [b]) <$> d)).
Proof.
  intros Ht Hq Hd Hl. unfold final_value. rewrite Hl. case_bool_decide as E; cbn [fmap option_fmap option_map].
  - subst d. unfold default_value. by rewrite Hq, Ht.
  - by apply set_data_value.
Qed.

Definition no_subs (ops : list (nat * op)) : Prop := Forall (fun io => subs (op_pointer io.2) = []) ops.
Lemma no_subs_builds ops : no_subs ops -> forall i o sub, (i, o) ∈ ops -> sub ∈ subs (op_pointer o) -> exists m, builds fbbstore 0 sub m.
Proof. unfold no_subs. rewrite Forall_forall. intros Hn i o sub Hin. specialize (Hn _ Hin). cbn in Hn. rewrite Hn. by intros ?%elem_of_nil. Qed.
Lemma no_subs_opt {A} i (f : A -> op) o : (forall a, subs (op_pointer (f a)) = []) -> no_subs (opt i f o).
Proof. intros Hf. destruct o; [|constructor]. apply Forall_singleton, Hf. Qed.

(** The last setter of a concrete field. *)
Ltac last_op := rewrite ?last_op_app, ?last_op_opt, ?last_op_one; cbn [Nat.eqb].
Ltac each_field i Hi Hv := first [discriminate Hi | destruct i as [|i]; [injection Hi as <-; injection Hv as <-|each_field i Hi Hv]].

Lemma build_file_correct f : file_ok f -> exists b, build_file f = Ret b /\ builds fbbstore 1 b (file_message f).
Proof.
  intros (Hp & Hs & Hh & Hc & Hm & Hk & Hd & Ht). apply (build_builds fbbstore fbbstore_ok 0 TAG_file file_fields); [done|done| | | |done|].
  - unfold file_ops. repeat apply ops_fit_app; first [eapply ops_fit_one; [reflexivity|] | eapply ops_fit_opt; [reflexivity|]; intros a Ha];
      try (by apply set_str_fits); try (cbn; by rewrite ?length_app, ?length_le_bytes).
    + apply set_data_fits; [done..|]. case_bool_decide; [done|]. by injection Ha as <-.
    + apply set_str_fits; [done..|by apply Ht].
  - intros i fd Hi Hq Hn. unfold file_ops. destruct i as [|i].
    + last_op. by eexists.
    + do 8 (destruct i as [|i]; [injection Hi as <-; done|]). done.
  - apply no_subs_builds. unfold no_subs, file_ops. repeat apply Forall_app_2; try (by apply no_subs_opt); by constructor.
  - intros nested _ i fd v Hi Hv. each_field i Hi Hv.
    all: try (apply final_data; [done..|]; unfold file_ops; last_op; by case_bool_decide). all: unfold final_value, file_ops; last_op.
    + by apply set_str_value.
    + done.
    + by destruct (f_size f).
    + by destruct (f_hash f).
    + by destruct (f_compressed_hash f).
    + by destruct (f_mode f).
    + by destruct (f_mode_mask f).
    + destruct (f_timestamp_source f) as [ts|]; [|done]. cbn [fmap option_fmap option_map]. apply set_str_value. by apply Ht.
Qed.

Lemma build_append_correct a : append_ok a -> exists b, build_append a = Ret b /\ builds fbbstore 1 b (append_message a).
Proof.
  intros (Hf & Hh & Hc & Hd). apply (build_builds fbbstore fbbstore_ok 0 TAG_append_to_fd append_fields); [done|done| | | |done|].
  - unfold append_ops. repeat apply ops_fit_app; first [eapply ops_fit_one; [reflexivity|] | eapply ops_fit_opt; [reflexivity|]; intros d Hd'];
      try (cbn; by rewrite ?length_app, ?length_le_bytes).
    apply set_data_fits; [done..|]. case_bool_decide; [done|]. by injection Hd' as <-.
  - intros i fd Hi Hq Hn. do 4 (destruct i as [|i]; [injection Hi as <-; done|]). done.
  - apply no_subs_builds. unfold no_subs, append_ops. repeat apply Forall_app_2; try (by apply no_subs_opt); by constructor.
  - intros nested _ i fd v Hi Hv. each_field i Hi Hv.
    all: try (apply final_data; [done..|]; unfold append_ops; last_op; by case_bool_decide). all: unfold final_value, append_ops; last_op.
    + done.
    + by destruct (a_hash a).
    + by destruct (a_compressed_hash a).
Qed.

Lemma strlen_enc_str s : no_nul s -> strlen (enc_str s) = Ret (zlen s).
Proof.
  unfold no_nul. intros Hn. induction s as [|c s IH]; [done|]. apply not_elem_of_cons in Hn as [Hc Hn]. cbn [enc_str fmap list_fmap app strlen].
  destruct (Z.eqb_spec (byte_of c) 0) as [E|_]; [by apply byte_of_NUL in E|]. unfold enc_str in IH. rewrite IH by done. cbn. f_equal. lia.
Qed.

(** Arrays of strings. *)
Section Strings.
Context (how : input_format) (item : cstr -> list Z * Z) (l : list cstr).
Context (Hitem : Forall (fun s => item_len how (item s) = Ret (zlen s) /\ (item s).1 = enc_str s) l) (Hl : zlen l < 2 ^ 32).

Lemma strings_fit fd : quant fd = ARRAY -> ftype fd = STRING -> op_fits fd (SetStrings how (item <$> l) (u32 (zlen l))).
Proof using Hitem Hl.
  intros Hq Ht. unfold op_fits. rewrite Hq, Ht, u32_small, length_fmap by lia. split_and!; [lia..|]. apply Forall_fmap.
  eapply Forall_impl; [exact Hitem|]. intros s [E1 E2]. exists (zlen s). cbn. rewrite E1, E2, length_enc_str. split; [done|lia].
Qed.
Lemma strings_value nested fd : op_value nested fd (SetStrings how (item <$> l) (u32 (zlen l))) = Ret (VStrings (bytes_of <$> l)).
Proof using Hitem Hl.
  cbn [op_value]. rewrite u32_small by lia. rewrite <- (length_fmap item l).
  rewrite (mapM_seq_items (item <$> l) (fun x => len ← item_len how x; peek 0 len x.1) (fun x => ret_or [] (len ← item_len how x; peek 0 len x.1))).
  - cbn [mbind outcome_bind]. rewrite <- list_fmap_compose. do 2 f_equal. apply Forall_fmap_ext_1. eapply Forall_impl; [exact Hitem|].
    intros s [E1 E2]. cbn. rewrite E1. cbn. by rewrite E2, peek_enc_str.
  - intros x Hx. apply list_elem_of_fmap in Hx as (s & -> & Hin). rewrite Forall_forall in Hitem. destruct (Hitem s Hin) as [E1 E2].
    rewrite E1. cbn [mbind outcome_bind]. by rewrite E2, peek_enc_str.
Qed.
End Strings.

(** Arrays of nested messages. *)
Lemma builds_mono d d' b m : builds fbbstore d b m -> (d <= d')%nat -> builds fbbstore d' b m.
Proof. intros [Hw Hv] Hd. split; [done|]. intros fuel Hf. apply Hv. lia. Qed.
Lemma mapM_builds {A} (f : A -> outcome builder) (g : A -> message) P d l :
  (forall a, P a -> exists b, f a = Ret b /\ builds fbbstore d b (g a)) -> Forall P l ->
  exists bs, mapM f l = Ret bs /\ Forall2 (builds fbbstore d) bs (g <$> l).
Proof.
  intros Hf. induction 1 as [|a l Ha _ (bs & E & Hbs)]; [exists []; by repeat constructor|]. destruct (Hf a Ha) as (b & Eb & Hb). exists (b :: bs).
  cbn. rewrite Eb. cbn. rewrite E. cbn. split; [done|by constructor].
Qed.
Lemma fbb_items_fit fd items : quant fd = ARRAY -> ftype fd = FBB -> zlen items < 2 ^ 32 -> op_fits fd (set_fbb_items items).
Proof. intros Hq Ht Hl. unfold op_fits, set_fbb_items. rewrite Hq, Ht, u32_small; lia. Qed.
Lemma fbb_items_value d nested fd items ms : (forall sub m, builds fbbstore d sub m -> nested sub = Ret m) -> Forall2 (builds fbbstore d) items ms ->
  zlen items < 2 ^ 32 -> op_value nested fd (set_fbb_items items) = Ret (VFbbs ms).
Proof.
  intros Hn Hf Hl. cbn [op_value set_fbb_items]. rewrite u32_small by lia.
  rewrite (mapM_seq_items items nested (fun b => ret_or (mkMessage 0 []) (nested b))).
  - cbn [mbind outcome_bind]. do 2 f_equal. clear Hl. induction Hf as [|b m items ms Hb _ IH]; [done|]. cbn. by rewrite (Hn b m Hb), IH.
  - intros b Hb. apply list_elem_of_lookup in Hb as [i Hi]. destruct (Forall2_lookup_l _ _ _ _ _ Hf Hi) as (m & _ & Hm). by rewrite (Hn b m Hm).
Qed.
Lemma fbb_items_subs d i (items : list builder) ms (ops : list (nat * op)) : Forall2 (builds fbbstore d) items ms ->
  (forall j o sub, (j, o) ∈ ops -> sub ∈ subs (op_pointer o) -> exists m, builds fbbstore d sub m) ->
  forall j o sub, (j, o) ∈ (i, set_fbb_items items) :: ops -> sub ∈ subs (op_pointer o) -> exists m, builds fbbstore d sub m.
Proof.
  intros Hf Hops j o sub [[= -> ->]|Hin]%elem_of_cons; [|by eapply Hops]. cbn. intros [k Hk]%list_elem_of_lookup.
  destruct (Forall2_lookup_l _ _ _ _ _ Hf Hk) as (m & _ & Hm). by exists m.
Qed.

Lemma view_items l : Forall str_ok l -> Forall (fun s => item_len FORMAT_CSTRING_VIEW_ARRAY (enc_str s, u32 (zlen s)) = Ret (zlen s) /\ enc_str s = enc_str s) l.
Proof. intros Hl. eapply Forall_impl; [exact Hl|]. unfold str_ok. intros s Hs. cbn. by rewrite u32_small by lia. Qed.
Lemma plain_items l : Forall (fun s => str_ok s /\ no_nul s) l -> Forall (fun s => item_len FORMAT_ARRAY (enc_str s, 0) = Ret (zlen s) /\ enc_str s = enc_str s) l.
Proof. intros Hl. eapply Forall_impl; [exact Hl|]. unfold str_ok. intros s [Hs Hn]. cbn. rewrite strlen_enc_str by done. cbn. by rewrite u32_small by lia. Qed.

Lemma build_inputs_correct pi : inputs_ok pi -> exists b, build_inputs pi = Ret b /\ builds fbbstore 2 b (inputs_message pi).
Proof.
  intros (Hp & Hpl & Hn & Hnl). destruct (mapM_builds build_file file_message file_ok 1 _ build_file_correct Hp) as (files & Ef & Hf).
  unfold build_inputs. rewrite Ef. cbn [mbind outcome_bind]. assert (Hfl : zlen files < 2 ^ 32) by (apply Forall2_length in Hf; rewrite length_fmap in Hf; lia).
  apply (build_builds fbbstore fbbstore_ok 1 TAG_process_inputs inputs_fields); [done|done| | | |done|].
  - repeat apply Forall_cons_2; [..|constructor]; (eexists; split; [reflexivity|]).
    + by apply fbb_items_fit.
    + apply strings_fit; [|done..]. by apply view_items.
  - intros i fd Hi Hq Hs. do 2 (destruct i as [|i]; [injection Hi as <-; done|]). done.
  - eapply fbb_items_subs; [done|]. intros j o sub [[= -> ->]|Hin%elem_of_nil]%elem_of_cons; [|done]. by intros ?%elem_of_nil.
  - intros nested Hnest i fd v Hi Hv. each_field i Hi Hv; cbn -[op_value u32].
    + by eapply fbb_items_value.
    + apply strings_value; [|done]. by apply view_items.
Qed.

Lemma build_outputs_correct po : outputs_ok po -> exists b, build_outputs po = Ret b /\ builds fbbstore 2 b (outputs_message po).
Proof.
  intros (Hr & Hrl & Hd & Hdl & Hn & Hnl & Ha & Hal & He). unfold build_outputs.
  destruct (mapM_builds build_file file_message file_ok 1 _ build_file_correct Hr) as (isreg & Er & Hfr).
  destruct (mapM_builds build_file file_message file_ok 1 _ build_file_correct Hd) as (isdir & Ed & Hfd).
  destruct (mapM_builds build_append append_message append_ok 1 _ build_append_correct Ha) as (appends & Ea & Hfa).
  rewrite Er. cbn [mbind outcome_bind]. rewrite Ed. cbn [mbind outcome_bind]. rewrite Ea. cbn [mbind outcome_bind].
  assert (Hlr : zlen isreg < 2 ^ 32) by (apply Forall2_length in Hfr; rewrite length_fmap in Hfr; lia).
  assert (Hld : zlen isdir < 2 ^ 32) by (apply Forall2_length in Hfd; rewrite length_fmap in Hfd; lia).
  assert (Hla : zlen appends < 2 ^ 32) by (apply Forall2_length in Hfa; rewrite length_fmap in Hfa; lia).
  apply (build_builds fbbstore fbbstore_ok 1 TAG_process_outputs outputs_fields); [done|done| | | |done|].
  - repeat apply Forall_cons_2; [..|constructor]; (eexists; split; [reflexivity|]); try (by apply fbb_items_fit).
    + apply strings_fit; [|done..]. by apply plain_items.
    + done.
  - intros i fd Hi Hq Hs. do 5 (destruct i as [|i]; [injection Hi as <-; done|]). done.
  - do 2 (eapply fbb_items_subs; [done|]). intros j o sub [[= -> ->]|Hin]%elem_of_cons; [by intros ?%elem_of_nil|]. revert j o sub Hin.
    eapply fbb_items_subs; [done|]. intros j o sub [[= -> ->]|Hin%elem_of_nil]%elem_of_cons; [|done]. by intros ?%elem_of_nil.
  - intros nested Hnest i fd v Hi Hv. each_field i Hi Hv; cbn -[op_value u32]; try (by eapply fbb_items_value); [|done].
    apply strings_value; [|done]. by apply plain_items.
Qed.

Lemma build_pio_correct e : pio_ok e -> exists b, build_pio e = Ret b /\ builds fbbstore 3 b (pio_message e).
Proof.
  intros (Hi & Ho & Ht). destruct (build_inputs_correct _ Hi) as (bi & Ei & Hbi). destruct (build_outputs_correct _ Ho) as (bo & Eo & Hbo).
  unfold build_pio. rewrite Ei. cbn [mbind outcome_bind]. rewrite Eo. cbn [mbind outcome_bind].
  apply (build_builds fbbstore fbbstore_ok 2 TAG_process_inputs_outputs pio_fields); [done|done| | | |done|].
  - unfold pio_ops. repeat apply ops_fit_app; first [eapply ops_fit_one; [reflexivity|exact I] | eapply ops_fit_opt; [reflexivity|]; intros t _; cbn; by rewrite ?length_le_bytes].
  - intros i fd Hf Hq Hs. unfold pio_ops. destruct i as [|[|[|i]]]; [last_op; by destruct (pio_cpu_time_ms e); eexists..|by injection Hf as <-|done].
  - intros i o sub Hin Hs. unfold pio_ops in Hin. rewrite !elem_of_app, !list_elem_of_singleton in Hin. destruct Hin as [[= -> ->]|[[= -> ->]|Hin]].
    + apply list_elem_of_singleton in Hs as ->. by eexists.
    + apply list_elem_of_singleton in Hs as ->. by eexists.
    + destruct (pio_cpu_time_ms e); [|by apply elem_of_nil in Hin]. apply list_elem_of_singleton in Hin as [= -> ->]. by apply elem_of_nil in Hs.
  - intros nested Hn i fd v Hf Hv. each_field i Hf Hv; unfold final_value, pio_ops; last_op.
    + destruct (pio_cpu_time_ms e); cbn; by rewrite (Hn _ _ Hbi).
    + destruct (pio_cpu_time_ms e); cbn; by rewrite (Hn _ _ Hbo).
    + by destruct (pio_cpu_time_ms e).
Qed.

(** ** The serializer keeps its promise *)

(** Everything in the entry fits, and the whole message too. *)
Definition entry_fits (e : process_inputs_outputs) : Prop := pio_ok e /\ forall b, build_pio e = Ret b -> zlen (image fbbstore b) < 2 ^ 32.

Lemma serialize_pio_correct e : entry_fits e ->
  exists b buf, build_pio e = Ret b /\ measure fbbstore b = Ret (zlen buf) /\ serialize_pio e = Ret buf /\ 0 < zlen buf /\ deserialize_pio buf = Some e.
Proof.
  intros [Hok Hsize]. destruct (build_pio_correct e Hok) as (b & Eb & Hb).
  destruct (builds_serialized fbbstore 3 b (pio_message e)) as (size & img & Em & Es & <- & Hpos & Hv); [done|lia|by apply Hsize|].
  exists b, img. unfold serialize_pio, deserialize_pio. rewrite Eb. cbn [mbind outcome_bind]. rewrite Em. cbn [mbind outcome_bind]. rewrite Es, Hv.
  split_and!; [done..|]. by apply pio_of_message.
Qed.

#[global] Instance fbbstore_serializer_ok : SerializerOk entry_fits.
Proof.
  split; intros e He; destruct (serialize_pio_correct e He) as (b & buf & _ & _ & Es & Hpos & Hd).
  - change (deserialize_pio (ret_or [] (serialize_pio e)) = Some e). by rewrite Es.
  - change (ret_or [] (serialize_pio e) <> []). rewrite Es. cbn. by intros ->.
Qed.

(** C22. A cache entry survives its serialized form: when its numbers and sizes fit, an entry that
    is built with the setters of its messages can be serialized to the memory that it is measured
    to need, and reading it with the getters of the serialized form gives the same entry, with all
    its files, paths, appended data and the exit status. *)
Theorem entry_roundtrip e : entry_fits e ->
  exists b buf, build_pio e = Ret b /\ measure fbbstore b = Ret (zlen buf) /\ serialize_pio e = Ret buf /\ deserialize_pio buf = Some e.
Proof. intros He. destruct (serialize_pio_correct e He) as (b & buf & ? & ? & ? & _ & ?). by exists b, buf. Qed.

Definition sample_entry : process_inputs_outputs :=
  mkPio
    (mkInputs [mkFile (cs "/usr/bin/cc") ISREG (Some 1000) (Some (Hash.mk 1 2)) None (Some 493) (Some 4095) [] None] [cs "/a.h"; cs "/b.h"])
    (mkOutputs [mkFile (cs "/a.o") ISREG (Some 3) None None (Some 420) (Some 4095) [7; 8; 9] (Some (cs "/a.c"))]
       [mkFile (cs "/d") ISDIR None None None (Some 493) (Some 4095) [] None] [cs "/tmp/x"] [mkAppend 2 None (Some (Hash.mk 5 6)) []] (-1))
    (Some 250).

Lemma sample_entry_fits : entry_fits sample_entry.
Proof.
  split.
  - apply (bool_decide_eq_true_1 (pio_ok sample_entry)). vm_compute. reflexivity.
  - assert (E : match build_pio sample_entry with Ret b => zlen (image fbbstore b) <? 2 ^ 32 | _ => false end = true) by (vm_compute; reflexivity).
    intros b Hb. rewrite Hb in E. by apply Z.ltb_lt.
Qed.

Lemma entry_roundtrip_witness : exists buf, serialize_pio sample_entry = Ret buf /\ deserialize_pio buf = Some sample_entry.
Proof. destruct (entry_roundtrip sample_entry sample_entry_fits) as (b & buf & _ & _ & Hs & Hd). exists buf. exact (conj Hs Hd). Defined.

End FbbStore.
