(* ===== verification/Cycle.v ===== *)
(** What is stored is used: the entry that is stored for a process is found when a process with
    the same fingerprint is started while the files are as the first one found them.  This is
    proved for any serializer that keeps its promise, and holds for the one of [FbbStore]. *)

From Stdlib Require Import ZArith Lia Ascii.
From stdpp Require Import base list strings option gmap sorting.
From S2P Require Import Prelude Base64 Paths FileNames FileUsage World Framing Recorder Hashing Storage ObjCache HashCache Entries StoreEntry FileSystem Replay Restore Fbb FbbFormat FbbStore.

Local Open Scope Z_scope.

Module Cycle.
Import FileInfo Entry StoreEntry Replay.

Section Cycle.
Context `{XXHash} `{CacheConfig} `{Serializer} `{StoreConfig} `{Fs.Kernel} `{!XXHashOk} `{!CacheConfigOk}.
Context (valid : process_inputs_outputs -> Prop) `{!SerializerOk valid}.
Context (max_inline_blob_size : Z) (SE : BlobCache.store_env).
Context (is_in_read_only_location is_in_ignore_location : cstr -> bool) (generation : cstr -> Z).
Context (Hdebug : debug_cache = false).

(** ** Storing *)

(** Only the object cache is written to at the end. *)
Lemma append_of_objs E f total s r s' : StoreEntry.append_of SE E f total s = Ret (r, s') -> StoreEntry.objs s' = StoreEntry.objs s.
Proof.
  unfold StoreEntry.append_of. destruct (if_fds f); [done|]. destruct (if_type f), (if_recorder f) as [i|]; try (by intros [= <- <-]).
  all: try (destruct (if_filename f) as [name|]; [|done]; destruct (HashCache.stat64 E name) as [t|]; [|by intros [= <- <-]];
    destruct (S_ISREG _); [|by intros [= <- <-]]; cbn [negb]; destruct (_ <? _); [by intros [= <- <-]|]; destruct (_ <? _); [|by intros [= <- <-]];
    intros Hs; apply outcome_bind_Ret in Hs as ([key blobs] & _ & Hs); destruct key; [destruct (_ <? _)|]; by injection Hs as <- <-).
  intros Hs. apply outcome_bind_Ret in Hs as ([stored s1] & Hr & Hs).
  assert (Ho : StoreEntry.objs s1 = StoreEntry.objs s).
  { unfold recorder_store in Hr. apply outcome_bind_Ret in Hr as (rec & _ & Hr). apply outcome_bind_Ret in Hr as ([key blobs] & _ & Hr).
    by apply outcome_bind_Ret in Hr as ([r1 st1] & _ & [= <- <-]). }
  rewrite <- Ho. destruct stored as [st|]; [|by injection Hs as <- <-]. destruct (_ <? _); by injection Hs as <- <-.
Qed.
Lemma collect_appends_objs E files total s r s' : collect_appends SE E files total s = Ret (r, s') -> StoreEntry.objs s' = StoreEntry.objs s.
Proof.
  revert total s r s'. induction files as [|f files IH]; intros total s r s'; cbn [collect_appends]; [by intros [= <- <-]|].
  destruct (is_write (if_flags f)); [|apply IH]. unfold continue at 1. intros Hs. apply outcome_bind_Ret in Hs as ([r1 s1] & H1' & Hs).
  rewrite <- (append_of_objs _ _ _ _ _ _ H1'). destruct r1 as [e|[append total1]]; [by injection Hs as <- <-|].
  unfold continue in Hs. apply outcome_bind_Ret in Hs as ([r2 s2] & H2' & Hs). rewrite <- (IH _ _ _ _ H2').
  destruct r2 as [e|[appends total2]]; by injection Hs as <- <-.
Qed.

Lemma store_objs no_store E OE fingerprint exit_status x parent usages s entry written s' :
  store max_inline_blob_size SE is_in_read_only_location is_in_ignore_location generation no_store E OE fingerprint exit_status
    x parent usages s = Ret (Stored entry written, s') ->
  exists total, ObjCache.store deterministic_cache OE fingerprint (serialize entry) total (StoreEntry.objs s) = Ret (written, StoreEntry.objs s').
Proof.
  unfold store, store_itself. destruct no_store; [intros Hs; by apply outcome_bind_Ret in Hs as (h & _ & [=])|].
  destruct (parent ≫= _); [done|]. intros Hs. apply outcome_bind_Ret in Hs as ([e|pi0] & E0 & Hs); [done|].
  apply outcome_bind_Ret in Hs as ([e|pi1] & E1 & Hs); [done|]. apply outcome_bind_Ret in Hs as ([[e|[o total]] h] & _ & Hs); [done|].
  apply outcome_bind_Ret in Hs as ([[e|[appends total']] s2] & Ha & Hs); [done|]. apply outcome_bind_Ret in Hs as ([] & _ & Hs); [|done].
  apply outcome_bind_Ret in Hs as ([w objs2] & Ho & [= <- <- <-]). exists total'.
  pose proof (collect_appends_objs _ _ _ _ _ _ Ha) as Eo. cbn in Eo. by rewrite <- Eo.
Qed.

(** A stored entry was small enough, and could be compressed. *)
Lemma stored_fits OE key entry total o o' : ObjCache.store deterministic_cache OE key entry total o = Ret (true, o') ->
  (exists dirs, ObjCache.construct_cached_dir_name key = Ret dirs) /\ is_Some (ObjCache.oe_mkstemp OE) /\
  total + Z.of_nat (length entry) <= max_entry_size /\ (compress_cache = true -> is_Some (zstd_compress (ObjCache.kMagicHeader ++ entry))) /\
  exists subkey, ObjCache.new_subkey deterministic_cache (ObjCache.oe_now OE) (ObjCache.kMagicHeader ++ entry) = Ret subkey.
Proof.
  unfold ObjCache.store. intros Hs. apply outcome_bind_Ret in Hs as (dirs & Ed & Hs). split; [by exists dirs|].
  destruct (ObjCache.oe_mkstemp OE) as [tmp|]; [|done]. split; [done|]. destruct (Z.ltb_spec max_entry_size (total + Z.of_nat (length entry))) as [|Hl]; [done|].
  split; [done|]. destruct (if compress_cache then _ else _) as [data|] eqn:Ez; [|done]. split; [intros Ec; rewrite Ec in Ez; by eexists|].
  apply outcome_bind_Ret in Hs as (subkey & Ek & _). by exists subkey.
Qed.

(** ** Finding *)

Context (Hist : cstr -> HashCache.view -> Prop) (E2 : HashCache.Env) (V : cstr -> HashCache.view) (disk : Fs.t).
Context (Hhonest : HashCache.honest is_in_read_only_location Hist) (HV : forall path, Hist path (V path)).
Context (Hfaithful : HashCache.faithful E2 V).

Abbreviation fits := (Replay.fits V disk).
Abbreviation inv := (HashCache.inv is_in_read_only_location Hist).

(** When some entry fits, one that is listed no later is found. *)
Lemma first_fit_found fingerprint o l r own e : StronglySorted ObjCache.not_older l -> own ∈ l ->
  candidate fingerprint o own e -> fits e -> first_fit V disk fingerprint o l r ->
  exists k e', r = Some (k, e') /\ candidate fingerprint o k e' /\ fits e' /\ ((k, e') = (own, e) \/ ObjCache.not_older k own).
Proof.
  intros Hs Hin Hc Hf Hr. induction Hr as [|k e' l Hk Hfk|k l r Hno Hr IH]; [by apply elem_of_nil in Hin| |].
  - exists k, e'. split_and!; [done..|]. apply StronglySorted_inv in Hs as [_ Hall]. apply elem_of_cons in Hin as [->|Hin].
    + left. destruct Hk as (buf & cl & E1 & D1), Hc as (buf' & cl' & E2' & D2). rewrite E1 in E2'. injection E2' as -> ->. congruence.
    + right. rewrite Forall_forall in Hall. by apply Hall.
  - apply StronglySorted_inv in Hs as [Hs _]. apply elem_of_cons in Hin as [->|Hin]; [by destruct (Hno e Hc)|by apply IH].
Qed.

(** The tree of the object cache, before the entry is stored. *)
Definition room (key : Hash.t) (OE : ObjCache.store_env) (entry : list Z) (n : CacheDir.node) : Prop :=
  CacheDir.wf n /\ forall dirs subkey, ObjCache.construct_cached_dir_name key = Ret dirs ->
    ObjCache.new_subkey deterministic_cache (ObjCache.oe_now OE) (ObjCache.kMagicHeader ++ entry) = Ret subkey ->
    (forall q, q `prefix_of` dirs -> CacheDir.see q n = CacheDir.SDir \/ (q <> [] /\ CacheDir.see q n = CacheDir.SNone)) /\
    CacheDir.see (dirs ++ [subkey]) n = CacheDir.SNone.

(** Documented format of zstd. *)
Context (zstd_frame : forall data z, (ObjCache.kMagicHeaderSize < length data)%nat -> zstd_compress data = Some z ->
           take 4 z = ObjCache.kZstdMagicHeader /\ (ObjCache.kMagicHeaderSize < length z)%nat).

(** C12. What is stored is found: after the entry of a process has been stored, for a process with
    the same fingerprint that is started when every file that the first one used is again as the
    first one found it, and when the recorded outputs can be written or replaced, an entry that
    fits is found, this one or one that is not older, unless more than
    [shortcut_tries] others are listed before this one, none of which is older.  It is assumed that the entries
    of the fingerprint can be read, and that the files they ask about can be looked at and are
    not being written. *)
Theorem stored_then_found no_store E OE fingerprint exit_status x parent usages s entry s' h before own after :
  store max_inline_blob_size SE is_in_read_only_location is_in_ignore_location generation no_store E OE fingerprint exit_status
    x parent usages s = Ret (Stored entry true, s') ->
  Forall (fun e => known_usage e.2) usages -> valid entry -> room fingerprint OE (serialize entry) (BlobCache.root (StoreEntry.objs s)) ->
  ObjCache.list_subkeys fingerprint (StoreEntry.objs s') = Ret (before ++ own :: after) ->
  ObjCache.new_subkey deterministic_cache (ObjCache.oe_now OE) (ObjCache.kMagicHeader ++ serialize entry) = Ret own ->
  Z.of_nat (length before) <= shortcut_tries ->
  sound_entries is_in_ignore_location E2 V fingerprint (StoreEntry.objs s') (before ++ own :: after) -> inv h ->
  (forall name fu, (name, fu) ∈ usages -> FileUsage.initial_type fu <> DONTKNOW -> HashCache.matches (expectation (args_ x) name fu) (V name)) ->
  forallb (output_applicable (pio_inputs entry) disk) (po_path_isreg (pio_outputs entry)) = true ->
  exists subkey e h', find_shortcut SE is_in_read_only_location is_in_ignore_location E2 disk fingerprint (StoreEntry.objs s') h = Ret (Some (subkey, e), h') /\
    inv h' /\ fits e /\ candidate fingerprint (StoreEntry.objs s') own entry /\
    ((subkey, e) = (own, entry) \/ ObjCache.not_older subkey own) /\ Forall (fun k => ObjCache.not_older k own) before.
Proof using All.
  intros Hst Hk Hval [Hwf Hroom] Hl Hown Htries Hsound Hinv Hfiles Houts.
  destruct (store_objs _ _ _ _ _ _ _ _ _ _ _ _ Hst) as [total Ho]. destruct (stored_fits _ _ _ _ _ _ Ho) as ((dirs & Ed) & Htmp & Hmax & Hz & subkey & Ek).
  rewrite Hown in Ek. injection Ek as <-. destruct (Hroom dirs own Ed Hown) as [Hdirs Hfree].
  destruct (ObjCache.stored_is_listed deterministic_cache zstd_frame OE fingerprint (serialize entry) total (StoreEntry.objs s) dirs own)
    as (o' & subkeys' & cl & Ho' & Hl' & Hin & Hsort & Hret & _); [done|done|done|done|by apply serialize_ne|done..|].
  rewrite Ho in Ho'. injection Ho' as <-. rewrite Hl in Hl'. injection Hl' as <-.
  assert (Hc : candidate fingerprint (StoreEntry.objs s') own entry) by (exists (serialize entry), cl; split; [done|by apply deserialize_serialize]).
  assert (Hf : fits entry).
  { split; [|done]. by apply (stored_inputs _ _ _ _ _ _ _ _ _ _ _ _ _ _ _ _ _ Hk Hst). }
  unfold find_shortcut. rewrite Hl. cbn [mbind outcome_bind].
  destruct (try_subkeys_correct SE is_in_read_only_location is_in_ignore_location Hist E2 V disk Hhonest HV Hfaithful fingerprint (StoreEntry.objs s') 0 _ h Hsound Hinv)
    as (r & h' & Er & Hi' & _ & Hfirst). rewrite Er.
  assert (Hin' : own ∈ take (Z.to_nat (shortcut_tries + 1 - 0)) (before ++ own :: after)).
  { rewrite take_app_ge by lia. apply elem_of_app. right. destruct (Z.to_nat _ - _)%nat eqn:En; [lia|]. by left. }
  assert (Hsort' : StronglySorted ObjCache.not_older (take (Z.to_nat (shortcut_tries + 1 - 0)) (before ++ own :: after))).
  { pose proof Hsort as Hs. rewrite <- (take_drop (Z.to_nat (shortcut_tries + 1 - 0))) in Hs. by apply StronglySorted_app_1_l in Hs. }
  destruct (first_fit_found _ _ _ _ own entry Hsort' Hin' Hc Hf Hfirst) as (k & e' & -> & Hck & Hfk & Hor). exists k, e', h'.
  split_and!; [done..|]. rewrite Forall_forall. intros k' Hk'. eapply StronglySorted_app_1_elem_of; [exact Hsort|done|by left].
Qed.

End Cycle.

(** ** An instance *)
#[local] Existing Instances Hashing.demo_xxhash Hashing.demo_xxhash_ok.

(** A process that found [/in] to be missing and wrote a byte to its output; its entry is stored
    in the serialized form of fbbstore.def. *)
Definition demo_key : Hash.t := XXH3_128bits [9].
Definition demo_env1 : HashCache.Env := HashCache.demo_env [1; 2; 3] 33188 10 0.
Definition demo_usages : list (cstr * FileUsage.t) := [(cs "/in", StoreEntry.demo_usage (of_type NOTEXIST) false)].
Definition demo_run : outcome (result * StoreEntry.st) :=
  @store _ StoreEntry.demo_config FbbStore.fbbstore_serializer StoreEntry.demo_store_config 0 BlobCache.demo_store_env (fun _ => false) (fun _ => false)
    (fun _ => 0) false demo_env1 ObjCache.demo_env demo_key 0 StoreEntry.demo_process None demo_usages StoreEntry.demo_st.
Definition demo_entry : process_inputs_outputs :=
  mkPio (mkInputs [] [cs "/in"]) (mkOutputs [] [] [] [mkAppend 1 None None [7]] 0) (Some 0).
Definition demo_stored : StoreEntry.st := match demo_run with Ret (_, s') => s' | _ => StoreEntry.demo_st end.
Definition demo_subkeys : list cstr :=
  match @ObjCache.list_subkeys _ StoreEntry.demo_config demo_key (StoreEntry.objs demo_stored) with Ret l => l | _ => [] end.

Lemma demo_entry_fits : FbbStore.entry_fits demo_entry.
Proof.
  split; [apply (bool_decide_eq_true_1 (FbbStore.pio_ok demo_entry)); vm_compute; reflexivity|].
  assert (E : match FbbStore.build_pio demo_entry with Ret b => FbbFormat.zlen (FbbFormat.image FbbStore.fbbstore b) <? 2 ^ 32 | _ => false end = true)
    by (vm_compute; reflexivity).
  intros b Hb. rewrite Hb in E. by apply Z.ltb_lt.
Qed.

Lemma demo_room : @room _ StoreEntry.demo_store_config demo_key ObjCache.demo_env
  (@serialize FbbStore.fbbstore_serializer demo_entry) (CacheDir.Dir []).
Proof.
  split; [apply BlobCache.wf_empty|]. intros dirs subkey Ed _. vm_compute in Ed. injection Ed as <-. split; [|reflexivity].
  intros q Hq. destruct q; [by left|right]. split; [done|reflexivity].
Qed.

Lemma demo_sound : @sound_entries _ StoreEntry.demo_config FbbStore.fbbstore_serializer (fun _ => false) demo_env1 (HashCache.demo_view [1; 2; 3] 33188 10)
  demo_key (StoreEntry.objs demo_stored) demo_subkeys.
Proof.
  assert (El : exists k, demo_subkeys = [k]) by (eexists; vm_compute; reflexivity). intros subkey Hin.
  assert (Hk : demo_subkeys = [subkey]) by (destruct El as [k Ek]; rewrite Ek in Hin |- *; by apply list_elem_of_singleton in Hin as ->).
  vm_compute in Hk. injection Hk as <-. eexists. split; [vm_compute; reflexivity|]. intros buf cl [= <- <-]. exists demo_entry. split; [vm_compute; reflexivity|].
  apply Forall_singleton. split_and!; [|done|done|by intros a [=]|done]. apply (bool_decide_eq_true_1 _). vm_compute. reflexivity.
Qed.

Lemma stored_then_found_witness :
  exists subkey e h', @find_shortcut _ StoreEntry.demo_config FbbStore.fbbstore_serializer (Restore.demo_kernel 18 false) BlobCache.demo_store_env (fun _ => false) (fun _ => false)
    demo_env1 ∅ demo_key (StoreEntry.objs demo_stored) HashCache.demo_state = Ret (Some (subkey, e), h') /\
    @Replay.fits (Restore.demo_kernel 18 false) (HashCache.demo_view [1; 2; 3] 33188 10) ∅ e.
Proof.
  assert (Hrun : demo_run = Ret (Stored demo_entry true, demo_stored)) by (vm_compute; reflexivity).
  destruct (@stored_then_found _ StoreEntry.demo_config FbbStore.fbbstore_serializer StoreEntry.demo_store_config (Restore.demo_kernel 18 false) _
    (BlobCache.demo_config_ok false) FbbStore.entry_fits _ 0 BlobCache.demo_store_env (fun _ => false) (fun _ => false) (fun _ => 0) eq_refl
    HashCache.demo_hist demo_env1 (HashCache.demo_view [1; 2; 3] 33188 10) ∅ HashCache.demo_honest (fun _ => or_introl eq_refl)
    (HashCache.demo_faithful [1; 2; 3] 33188 10 0 eq_refl eq_refl) ObjCache.demo_frame
    false demo_env1 ObjCache.demo_env demo_key 0 StoreEntry.demo_process None demo_usages StoreEntry.demo_st demo_entry demo_stored HashCache.demo_state [] (hd [] demo_subkeys) []) as (subkey & e & h' & Hf & _ & Hfit & _).
  - exact Hrun.
  - repeat constructor; cbn; try done; by intros [=].
  - apply demo_entry_fits.
  - apply demo_room.
  - vm_compute. reflexivity.
  - vm_compute. reflexivity.
  - vm_compute. discriminate.
  - apply demo_sound.
  - apply HashCache.demo_inv.
  - intros name fu Hin _. apply list_elem_of_singleton in Hin as [= -> ->]. clear Hrun. split; vm_compute; exact I.
  - reflexivity.
  - exists subkey, e, h'. exact (conj Hf Hfit).
Defined.

End Cycle.
