(* ===== verification/Signals.v ===== *)
(** Signals in an intercepted thread (src/interceptor/intercept.{h,c}): the wrappers of signal
    handlers, the danger zones in which signals are delayed, and the global lock.  A signal may
    arrive between any two statements, and its handler may run intercepted functions again, so
    the thread is a stack of activities that are interleaved step by step. *)

From Stdlib Require Import ZArith Lia ZifyBool.
From stdpp Require Import base list option.
From S2P Require Import Prelude.

Local Open Scope Z_scope.

Module Signals.

(** ** State *)

(** What a function of the interceptor does next. *)
Inductive pc :=
| Run                                     (** outside of these functions *)
| Wrapper (signum : Z)                    (** wrapper_signal_handler: the test of the depth *)
| SetBit (signum : Z)                     (** its delaying branch *)
| Leaving                                 (** thread_signal_danger_zone_leave, after the decrement *)
| Raising (signum : Z)                    (** thread_raise_delayed_signals: the test in a round *)
| Clear (signum : Z)
| RaiseNow (signum : Z)
| Grab1 | Grab2 | Grab3 | Grab4 | Grab5   (** grab_global_lock: assertions, lock, the assignments *)
| Rel1 | Rel2 | Rel3.                     (** release_global_lock *)

(** An activity: the thread's own or that of a signal handler; the danger zones that it is in, its
    variable [i_locked], and whether the depth is asserted to be 0 after leaving. *)
Record frame := mkFrame { f_pc : pc; f_handler : bool; zones : nat; i_locked : bool; f_assert : bool }.

Inductive event := EvArrived (signum : Z) | EvHandled (signum depth : Z).

Record t := mk {
  signal_danger_zone_depth : Z;
  interception_recursion_depth : Z;
  delayed_signals_bitmap : Z;
  has_global_lock : bool;
  intercept_on : bool;                    (** is not null *)
  held : bool;                            (** ic_global_lock is locked by this thread *)
  failed : bool;                          (** an assertion failed, or the thread waits for its own lock *)
  frames : list frame;                    (** the current one first *)
  log : list event
}.

Definition IC_WRAP_SIGRTMAX : Z := 64.
Definition signal_is_wrappable (signum : Z) : bool := negb ((signum <? 1) || (IC_WRAP_SIGRTMAX <? signum)).

Definition bit (signum : Z) : Z := Z.shiftl 1 (signum - 1).

(** ** Steps *)

Definition set_pc (p : pc) (f : frame) : frame := mkFrame p (f_handler f) (zones f) (i_locked f) (f_assert f).
Definition with_frames (l : list frame) (s : t) : t :=
  mk (signal_danger_zone_depth s) (interception_recursion_depth s) (delayed_signals_bitmap s) (has_global_lock s) (intercept_on s) (held s) (failed s) l (log s).
Definition fail (s : t) : t :=
  mk (signal_danger_zone_depth s) (interception_recursion_depth s) (delayed_signals_bitmap s) (has_global_lock s) (intercept_on s) (held s) true (frames s) (log s).
Definition set_depth (d : Z) (s : t) : t :=
  mk d (interception_recursion_depth s) (delayed_signals_bitmap s) (has_global_lock s) (intercept_on s) (held s) (failed s) (frames s) (log s).
Definition set_recursion (d : Z) (s : t) : t :=
  mk (signal_danger_zone_depth s) d (delayed_signals_bitmap s) (has_global_lock s) (intercept_on s) (held s) (failed s) (frames s) (log s).
Definition set_bitmap (b : Z) (s : t) : t :=
  mk (signal_danger_zone_depth s) (interception_recursion_depth s) b (has_global_lock s) (intercept_on s) (held s) (failed s) (frames s) (log s).
Definition set_lock (h on m : bool) (s : t) : t :=
  mk (signal_danger_zone_depth s) (interception_recursion_depth s) (delayed_signals_bitmap s) h on m (failed s) (frames s) (log s).
Definition emit (e : event) (s : t) : t :=
  mk (signal_danger_zone_depth s) (interception_recursion_depth s) (delayed_signals_bitmap s) (has_global_lock s) (intercept_on s) (held s) (failed s) (frames s) (log s ++ [e]).

(** A signal arrives, or is raised: its wrapper runs on top. *)
Definition deliver (signum : Z) (s : t) : t :=
  emit (EvArrived signum) (with_frames (mkFrame (Wrapper signum) true 0 false false :: frames s) s).

(** [thread_signal_danger_zone_enter()], and the decrement of [thread_signal_danger_zone_leave()]. *)
Definition danger_zone_enter (p : pc) (f : frame) (l : list frame) (s : t) : t :=
  with_frames (mkFrame p (f_handler f) (S (zones f)) (i_locked f) (f_assert f) :: l) (set_depth (signal_danger_zone_depth s + 1) s).
Definition danger_zone_leave (final : bool) (f : frame) (l : list frame) (s : t) : t :=
  with_frames (mkFrame Leaving (f_handler f) (Nat.pred (zones f)) (i_locked f) final :: l) (set_depth (signal_danger_zone_depth s - 1) s).

(** The end of a function that has left a danger zone. *)
Definition left_zone (f : frame) (l : list frame) (s : t) : t :=
  let s' := with_frames (mkFrame Run (f_handler f) (zones f) (i_locked f) false :: l) s in
  if f_assert f && negb (signal_danger_zone_depth s =? 0) then fail s' else s'.

(** The wrappers of signal handlers: the test of the depth, delaying the signal, or running the
    program's handler. *)
Definition wrapper_test (signum : Z) (f : frame) (l : list frame) (s : t) : t :=
  if 0 <? signal_danger_zone_depth s then with_frames (set_pc (SetBit signum) f :: l) s
  else emit (EvHandled signum (signal_danger_zone_depth s))
         (with_frames (set_pc Run f :: l) (set_recursion (interception_recursion_depth s + 1) s)).
Definition wrapper_delay (signum : Z) (l : list frame) (s : t) : t :=
  with_frames l (set_bitmap (Z.lor (delayed_signals_bitmap s) (bit signum)) s).

(** [thread_signal_danger_zone_leave()] after the decrement. *)
Definition leave_test (f : frame) (l : list frame) (s : t) : t :=
  if negb (delayed_signals_bitmap s =? 0) && (signal_danger_zone_depth s =? 0) then with_frames (set_pc (Raising 1) f :: l) s
  else left_zone f l s.

(** [thread_raise_delayed_signals()]: the test in a round of the loop, clearing the bit, and
    raising the signal. *)
Definition raise_test (signum : Z) (f : frame) (l : list frame) (s : t) : t :=
  if signum <=? IC_WRAP_SIGRTMAX then
    with_frames (set_pc (if Z.land (delayed_signals_bitmap s) (bit signum) =? 0 then Raising (signum + 1) else Clear signum) f :: l) s
  else left_zone f l s.
Definition raise_clear (signum : Z) (f : frame) (l : list frame) (s : t) : t :=
  with_frames (set_pc (RaiseNow signum) f :: l) (set_bitmap (Z.ldiff (delayed_signals_bitmap s) (bit signum)) s).
Definition raise_now (signum : Z) (f : frame) (l : list frame) (s : t) : t :=
  deliver signum (with_frames (set_pc (Raising (signum + 1)) f :: l) s).

(** [grab_global_lock()] after entering its danger zone: the assertions and whether the lock is
    held, then the statements that take it. *)
Definition grab_global_lock (p : pc) (f : frame) (l : list frame) (s : t) : option t :=
  match p with
  | Grab1 =>
      if negb (eqb (has_global_lock s) (intercept_on s)) || ((interception_recursion_depth s =? 0) && intercept_on s) then Some (fail s)
      else Some (if has_global_lock s then danger_zone_leave true f l s else with_frames (set_pc Grab2 f :: l) s)
  | Grab2 => Some (if held s then fail s else with_frames (set_pc Grab3 f :: l) (set_lock (has_global_lock s) (intercept_on s) true s))
  | Grab3 => Some (with_frames (set_pc Grab4 f :: l) (set_lock true (intercept_on s) (held s) s))
  | Grab4 => Some (with_frames (set_pc Grab5 f :: l) (set_lock (has_global_lock s) true (held s) s))
  | Grab5 => Some (danger_zone_leave true (mkFrame Grab5 (f_handler f) (zones f) true (f_assert f)) l s)
  | _ => None
  end.

(** [release_global_lock()] after entering its danger zone. *)
Definition release_global_lock (p : pc) (f : frame) (l : list frame) (s : t) : option t :=
  match p with
  | Rel1 => Some (with_frames (set_pc Rel2 f :: l) (set_lock (has_global_lock s) (intercept_on s) false s))
  | Rel2 => Some (with_frames (set_pc Rel3 f :: l) (set_lock false (intercept_on s) (held s) s))
  | Rel3 => Some (danger_zone_leave true f l (set_lock (has_global_lock s) false (held s) s))
  | _ => None
  end.

(** The next statement of the current activity. *)
Definition next (f : frame) (l : list frame) (s : t) : option t :=
  match f_pc f with
  | Run => None
  | Wrapper signum => Some (wrapper_test signum f l s)
  | SetBit signum => Some (wrapper_delay signum l s)
  | Leaving => Some (leave_test f l s)
  | Raising signum => Some (raise_test signum f l s)
  | Clear signum => Some (raise_clear signum f l s)
  | RaiseNow signum => Some (raise_now signum f l s)
  | Grab1 | Grab2 | Grab3 | Grab4 | Grab5 => grab_global_lock (f_pc f) f l s
  | Rel1 | Rel2 | Rel3 => release_global_lock (f_pc f) f l s
  end.

(** What the thread may do: a signal arrives, the current activity goes on, or, outside of these
    functions, it enters or leaves a danger zone, grabs or releases the lock, or, if it is a
    handler, returns.  Intercepted functions take the lock outside of danger zones, release what
    they took, and do not call each other; that is [None] here. *)
Inductive label := Signal (signum : Z) | Next | Enter | Leave | Grab | Release | Return.

Definition exec (a : label) (s : t) : option t :=
  if failed s then None
  else
    match a, frames s with
    | Signal signum, _ :: _ => if signal_is_wrappable signum then Some (deliver signum s) else None
    | Next, f :: l => next f l s
    | _, [] => None
    | _, f :: l =>
        if negb (match f_pc f with Run => true | _ => false end) then None
        else
          match a with
          | Enter => Some (danger_zone_enter Run f l s)
          | Leave => if (zones f =? 0)%nat then None else Some (danger_zone_leave false f l s)
          | Grab => if (zones f =? 0)%nat && negb (i_locked f) then Some (danger_zone_enter Grab1 f l s) else None
          | Release =>
              if (zones f =? 0)%nat && i_locked f
              then Some (danger_zone_enter Rel1 (mkFrame Run (f_handler f) (zones f) false (f_assert f)) l s) else None
          | Return =>
              if (zones f =? 0)%nat && negb (i_locked f) && f_handler f
              then Some (with_frames l (set_recursion (interception_recursion_depth s - 1) s)) else None
          | _ => None
          end
    end.

Definition init : t := mk 0 0 0 false false false false [mkFrame Run false 0 false false] [].

Inductive reachable : t -> Prop :=
| reach_init : reachable init
| reach_step s a s' : reachable s -> exec a s = Some s' -> reachable s'.

Fixpoint execs (l : list label) (s : t) : option t :=
  match l with [] => Some s | a :: l => exec a s ≫= execs l end.

Lemma reachable_execs l s s' : reachable s -> execs l s = Some s' -> reachable s'.
Proof.
  revert s. induction l as [|a l IH]; intros s Hs; cbn; [by intros [= <-]|]. destruct (exec a s) as [s1|] eqn:E; [|done].
  intros Hl. apply (IH s1); [by eapply reach_step|done].
Qed.

(** ** The invariant *)

Definition wrapping (p : pc) : bool := match p with Wrapper _ | SetBit _ => true | _ => false end.
Definition depth_of (l : list frame) : nat := sum_list_with zones l.
Definition recursion_of (l : list frame) : nat :=
  sum_list_with (fun f => if f_handler f && negb (wrapping (f_pc f)) then 1%nat else 0%nat) l.

Definition frame_ok (f : frame) : Prop :=
  match f_pc f with
  | Run => f_assert f = false
  | Wrapper n | SetBit n => (1 <= n <= 64) /\ zones f = 0%nat /\ i_locked f = false /\ f_handler f = true /\ f_assert f = false
  | Leaving => f_assert f = true -> zones f = 0%nat
  | Raising n => (1 <= n <= 65) /\ zones f = 0%nat
  | Clear n | RaiseNow n => (1 <= n <= 64) /\ zones f = 0%nat
  | _ => zones f = 1%nat /\ i_locked f = false
  end.

(** Only a wrapper that is about to return runs on top of a danger zone. *)
Definition on_top (f : frame) (l : list frame) : Prop :=
  match f_pc f with Wrapper _ => True | SetBit _ => (0 < depth_of l)%nat | _ => depth_of l = 0%nat end.

Fixpoint stack_ok (fs : list frame) : Prop :=
  match fs with
  | [] => True
  | f :: l => frame_ok f /\ f_handler f = negb (bool_decide (l = [])) /\ on_top f l /\ stack_ok l
  end.

(** What an activity has made of the lock: [has_global_lock], [intercept_on], [held]. *)
Definition lock_part (f : frame) : option (bool * bool * bool) :=
  match f_pc f with
  | Grab2 => Some (false, false, false)
  | Grab3 => Some (false, false, true)
  | Grab4 => Some (true, false, true)
  | Grab5 | Rel1 => Some (true, true, true)
  | Rel2 => Some (true, true, false)
  | Rel3 => Some (false, true, false)
  | _ => if i_locked f then Some (true, true, true) else None
  end.
Definition lock_parts (l : list frame) : list (bool * bool * bool) := omap lock_part l.
Definition lock_ok (s : t) : Prop :=
  match lock_parts (frames s) with
  | [] => (has_global_lock s, intercept_on s, held s) = (false, false, false)
  | [c] => (has_global_lock s, intercept_on s, held s) = c
  | _ => False
  end.

(** The activities that will still look at bit [n] of the bitmap. *)
Definition covers (n : Z) (f : frame) : Prop :=
  match f_pc f with
  | Leaving => True
  | Raising k | Clear k => k <= n
  | RaiseNow k => k < n
  | _ => False
  end.
Definition bitmap_ok (s : t) : Prop :=
  forall n, Z.testbit (delayed_signals_bitmap s) (n - 1) = true ->
    1 <= n <= 64 /\ (0 < signal_danger_zone_depth s \/ Exists (covers n) (frames s)).

(** Signal [n] has arrived and not been handled since. *)
Definition unhandled (n : Z) (l : list event) : bool :=
  foldl (fun b e => match e with
                    | EvArrived m => (m =? n) || b
                    | EvHandled m _ => negb (m =? n) && b
                    end) false l.
Definition carries (n : Z) (f : frame) : Prop :=
  match f_pc f with Wrapper k | SetBit k | RaiseNow k => k = n | _ => False end.
Definition log_ok (s : t) : Prop :=
  forall n, unhandled n (log s) = true ->
    Z.testbit (delayed_signals_bitmap s) (n - 1) = true \/ Exists (carries n) (frames s).
Definition handled_ok (s : t) : Prop := forall n d, EvHandled n d ∈ log s -> d = 0.

Record inv (s : t) : Prop := {
  inv_ok : failed s = false;
  inv_top : frames s <> [];
  inv_depth : signal_danger_zone_depth s = Z.of_nat (depth_of (frames s));
  inv_recursion : interception_recursion_depth s = Z.of_nat (recursion_of (frames s));
  inv_stack : stack_ok (frames s);
  inv_lock : lock_ok s;
  inv_bitmap : bitmap_ok s;
  inv_log : log_ok s;
  inv_handled : handled_ok s
}.

(** ** Preservation *)

Lemma depth_zero_locked l : stack_ok l -> depth_of l = 0%nat -> Forall (fun c => c = (true, true, true)) (lock_parts l).
Proof.
  induction l as [|[p h z il fa] l IH]; cbn; [constructor|]. intros (Hf & _ & _ & Hl) H0.
  specialize (IH Hl ltac:(unfold depth_of in *; cbn in *; lia)). unfold lock_parts in *. cbn in *.
  destruct p; cbn in *; try (destruct Hf; lia); destruct il; cbn; auto.
Qed.

(** Below an activity that is not a wrapper, the lock is held and marked as such, or free. *)
Lemma lock_below s f l : inv s -> frames s = f :: l -> wrapping (f_pc f) = false -> lock_part f = None ->
  has_global_lock s = intercept_on s /\ held s = has_global_lock s /\
  (has_global_lock s = false -> lock_parts l = []) /\ (has_global_lock s = true -> l <> []).
Proof.
  intros I Hfs Hw Hp. pose proof (inv_stack s I) as Hst. pose proof (inv_lock s I) as Hlk. unfold lock_ok in Hlk.
  rewrite Hfs in Hst, Hlk. cbn in Hlk. rewrite Hp in Hlk. destruct Hst as (_ & _ & Ht & Hst). fold (lock_parts l) in Hlk.
  assert (Hd : depth_of l = 0%nat) by (unfold on_top in Ht; destruct (f_pc f); cbn in Hw; congruence).
  pose proof (depth_zero_locked l Hst Hd) as Hall.
  destruct (lock_parts l) as [|c [|]] eqn:El; [| |done].
  - injection Hlk as -> -> ->. done.
  - apply Forall_inv in Hall as ->. injection Hlk as -> -> ->. repeat split; try done. intros _ ->. done.
Qed.

Lemma grab_never_fails s f l : inv s -> frames s = f :: l -> f_pc f = Grab1 ->
  negb (eqb (has_global_lock s) (intercept_on s)) || ((interception_recursion_depth s =? 0) && intercept_on s) = false.
Proof.
  intros I Hfs Hp. pose proof (inv_stack s I) as Hst. rewrite Hfs in Hst. destruct Hst as (Hf & Hh & _).
  unfold frame_ok in Hf. rewrite Hp in Hf.
  destruct (lock_below s f l I Hfs) as (He & _ & _ & Hl); [by rewrite Hp|unfold lock_part; rewrite Hp; destruct Hf as [_ ->]; done|].
  rewrite <- He, eqb_reflx. cbn. destruct (has_global_lock s); [|apply andb_false_r]. rewrite andb_true_r.
  apply Z.eqb_neq. rewrite (inv_recursion s I), Hfs. unfold recursion_of. cbn. rewrite Hp. cbn.
  rewrite Hh, bool_decide_eq_false_2 by auto. cbn. lia.
Qed.

(** The current activity goes on as another one on the same stack. *)
Ltac step_cases :=
  match goal with
  | H : exec ?a ?s = Some ?s' |- _ =>
      unfold exec in H; destruct (failed s) eqn:?; [discriminate|];
      destruct (frames s) as [|[p h z il fa] l] eqn:Hfs; [destruct a; discriminate|];
      destruct a; cbn in H;
      [ idtac
      | unfold next in H; cbn in H; destruct p; unfold wrapper_test, leave_test, raise_test, grab_global_lock, left_zone in H; cbn in H
      | destruct p; try discriminate H; cbn in H .. ];
      repeat match type of H with
             | context [if ?b then _ else _] => destruct b eqn:?
             end; try discriminate H; injection H as <-
  end.

(** The facts about the state before a step, unfolded at its stack. *)
Ltac before I :=
  let Hf := fresh "Hf" in let Hh := fresh "Hh" in let Ht := fresh "Ht" in let Hst := fresh "Hst" in
  let Hd := fresh "Hd" in let Hr := fresh "Hr" in
  pose proof (inv_stack _ I) as Hst; pose proof (inv_depth _ I) as Hd; pose proof (inv_recursion _ I) as Hr;
  match goal with Hfs : frames _ = _ :: _ |- _ => rewrite Hfs in Hst, Hd, Hr end;
  unfold depth_of, recursion_of in *; cbn in Hst, Hd, Hr; destruct Hst as (Hf & Hh & Ht & Hst);
  unfold frame_ok in Hf; unfold on_top, depth_of in Ht; cbn in Hf, Ht.

Lemma exec_top a s s' : inv s -> exec a s = Some s' -> frames s' <> [].
Proof.
  intros I H. step_cases; cbn; rewrite ?Hfs; try done; before I.
  - destruct l; cbn in *; [lia|done].
  - destruct l; [|done]. rewrite bool_decide_eq_true_2 in Hh by done. cbn in Hh. subst h.
    rewrite andb_false_r in *. done.
Qed.

Lemma exec_ok a s s' : inv s -> exec a s = Some s' -> failed s' = false.
Proof.
  intros I H. step_cases; cbn; try done; try (pose proof (grab_never_fails _ _ _ I Hfs eq_refl); cbn in *; congruence).
  1, 2: before I; lia.
  pose proof (inv_lock s I) as Hlk. unfold lock_ok in Hlk. rewrite Hfs in Hlk. cbn in Hlk.
  destruct (omap lock_part l); [|done]. congruence.
Qed.

Lemma exec_depth a s s' : inv s -> exec a s = Some s' -> signal_danger_zone_depth s' = Z.of_nat (depth_of (frames s')).
Proof. intros I H. step_cases; unfold depth_of; cbn; before I; rewrite ?Hfs; cbn; lia. Qed.

Lemma exec_recursion a s s' : inv s -> exec a s = Some s' -> interception_recursion_depth s' = Z.of_nat (recursion_of (frames s')).
Proof. intros I H. step_cases; unfold recursion_of; cbn; before I; rewrite ?Hfs; cbn; destruct h; cbn in *; lia. Qed.

Lemma exec_stack a s s' : inv s -> exec a s = Some s' -> stack_ok (frames s').
Proof.
  intros I H. step_cases; cbn; before I; rewrite ?Hfs; cbn; unfold frame_ok, on_top, depth_of, signal_is_wrappable, IC_WRAP_SIGRTMAX in *;
    cbn in *; repeat split; try done; try lia; tauto.
Qed.

Lemma exec_lock a s s' : inv s -> exec a s = Some s' -> lock_ok s'.
Proof.
  intros I H. pose proof (inv_lock s I) as Hlk. unfold lock_ok, lock_parts in *.
  step_cases; cbn; rewrite ?Hfs in *; cbn in *; try done; before I; destruct_and?; subst; cbn in *.
  all: try (destruct il; cbn in * ); try lia; try done; destruct (omap lock_part l) as [|? [|]] eqn:El; cbn in *; try done; try congruence.
  pose proof (depth_zero_locked l Hst Ht) as Hall. unfold lock_parts in Hall. rewrite El in Hall. apply Forall_inv in Hall. congruence.
Qed.

Lemma testbit_bit n k : 1 <= n -> 1 <= k -> Z.testbit (bit n) (k - 1) = (k =? n).
Proof. intros Hn Hk. unfold bit. rewrite Z.shiftl_1_l, Z.pow2_bits_eqb by lia. lia. Qed.

Lemma testbit_pos x n : Z.testbit x (n - 1) = true -> 1 <= n.
Proof. intros H. destruct (Z_lt_le_dec n 1); [|done]. rewrite Z.testbit_neg_r in H by lia. done. Qed.

Lemma land_bit x n : 1 <= n -> (Z.land x (bit n) =? 0) = negb (Z.testbit x (n - 1)).
Proof.
  intros Hn. destruct (Z.testbit x (n - 1)) eqn:E; cbn; [apply Z.eqb_neq|apply Z.eqb_eq].
  - intros H. assert (Hb : Z.testbit (Z.land x (bit n)) (n - 1) = true) by (rewrite Z.land_spec, E, testbit_bit by lia; lia).
    rewrite H, Z.bits_0 in Hb. done.
  - apply Z.bits_inj'. intros k Hk. rewrite Z.land_spec, Z.bits_0. replace k with (k + 1 - 1) by lia.
    rewrite testbit_bit by lia. destruct (Z.eqb_spec (k + 1) n) as [<-|]; [by rewrite E|apply andb_false_r].
Qed.

Lemma exec_bitmap a s s' : inv s -> exec a s = Some s' -> bitmap_ok s'.
Proof.
  intros I H n Hn. pose proof (inv_bitmap s I n) as Hb. pose proof (testbit_pos _ _ Hn) as Hp.
  step_cases; cbn in *; rewrite ?Hfs in *; before I; rewrite ?Exists_cons in *; unfold covers in *; cbn in *; try solve [specialize (Hb Hn); tauto].
  all: rewrite ?Z.lor_spec, ?Z.ldiff_spec, ?testbit_bit in Hn by lia; rewrite ?land_bit in * by lia.
  all: match type of Hb with ?b = true -> _ => destruct b eqn:Eb; cbn in Hn; [specialize (Hb eq_refl)|clear Hb; try done; intuition lia] end.
  all: unfold IC_WRAP_SIGRTMAX in *; try (intuition lia).
  - destruct (Z.eqb_spec (delayed_signals_bitmap s) 0) as [E|]; [rewrite E, Z.bits_0 in Eb; done|]. cbn in *. lia.
  - destruct (Z.eq_dec n signum) as [->|]; [by rewrite Eb in *|]. intuition lia.
Qed.

Lemma unhandled_snoc n l e : unhandled n (l ++ [e]) =
  match e with EvArrived m => (m =? n) || unhandled n l | EvHandled m _ => negb (m =? n) && unhandled n l end.
Proof. unfold unhandled. by rewrite foldl_app. Qed.
Local Opaque unhandled.

Lemma exec_log a s s' : inv s -> exec a s = Some s' -> log_ok s'.
Proof.
  intros I H n Hn. pose proof (inv_log s I n) as Hb. 
  step_cases; cbn in *; rewrite ?unhandled_snoc, ?Hfs in *; before I; rewrite ?Exists_cons in *; unfold carries in *; cbn in *; try solve [specialize (Hb Hn); tauto].
  all: try (destruct (Z.eqb_spec signum n) as [->|]; cbn in Hn; [tauto || idtac|specialize (Hb Hn); tauto || idtac]); try done.
  - left. rewrite Z.lor_spec, testbit_bit, Z.eqb_refl, orb_true_r by lia. done.
  - destruct Hb as [Hb|Hb]; [left; by rewrite Z.lor_spec, Hb|tauto].
  - destruct Hb as [Hb|Hb]; [left|tauto]. pose proof (testbit_pos _ _ Hb). rewrite Z.ldiff_spec, Hb, testbit_bit by lia. lia.
Qed.

Lemma exec_handled a s s' : inv s -> exec a s = Some s' -> handled_ok s'.
Proof.
  intros I H n d. pose proof (inv_handled s I n d) as Hb. 
  step_cases; cbn in *; rewrite ?elem_of_app, ?list_elem_of_singleton; before I;  try done; intros [?|[=]]; auto; lia.
Qed.

Lemma exec_inv a s s' : inv s -> exec a s = Some s' -> inv s'.
Proof.
  intros I H. constructor;
    eauto using exec_ok, exec_top, exec_depth, exec_recursion, exec_stack, exec_lock, exec_bitmap, exec_log, exec_handled.
Qed.

Lemma init_inv : inv init.
Proof.
  constructor; cbn; try done.
  - intros n. cbn. rewrite Z.bits_0. done.
  - intros n d H. by apply not_elem_of_nil in H.
Qed.

Lemma reachable_inv s : reachable s -> inv s.
Proof. induction 1; eauto using init_inv, exec_inv. Qed.

(** Outside of danger zones the lock, [has_global_lock] and [intercept_on] say the same, namely
    whether some activity has set its [i_locked]. *)
Lemma lock_agrees s : inv s -> signal_danger_zone_depth s = 0 ->
  has_global_lock s = existsb i_locked (frames s) /\ intercept_on s = has_global_lock s /\ held s = has_global_lock s.
Proof.
  intros I Hd. pose proof (inv_lock s I) as Hl. pose proof (inv_depth s I) as Hdd. pose proof (inv_stack s I) as Hst.
  assert (Hz : depth_of (frames s) = 0%nat) by lia. pose proof (depth_zero_locked _ Hst Hz) as Hall. unfold lock_ok in Hl.
  assert (He : existsb i_locked (frames s) = negb (bool_decide (lock_parts (frames s) = []))).
  { clear Hl Hall Hd Hdd I. induction (frames s) as [|[p h z il fa] l IH]; [done|]. unfold lock_parts, depth_of in *. cbn in *.
    destruct Hst as (Hf & _ & _ & Hst). rewrite IH by (done || lia).
    destruct p, il; cbn in *; try done; unfold frame_ok in Hf; cbn in Hf; lia. }
  rewrite He. destruct (lock_parts (frames s)) as [|c [|]]; [|apply Forall_inv in Hall as ->|done]; injection Hl as -> -> ->; done.
Qed.

(** When nothing is under way, nothing is left to be raised. *)
Definition quiet (s : t) : Prop := signal_danger_zone_depth s = 0 /\ Forall (fun f => f_pc f = Run) (frames s).

Lemma quiet_bit s n : inv s -> quiet s -> Z.testbit (delayed_signals_bitmap s) (n - 1) = false.
Proof.
  intros I [Hd Hq]. apply not_true_is_false. intros Hb. apply (inv_bitmap s I) in Hb as [_ [?|Hb]]; [lia|].
  apply Exists_exists in Hb as (f & Hf & Hc). unfold covers in Hc. rewrite Forall_forall in Hq. by rewrite (Hq f Hf) in Hc.
Qed.

Lemma quiet_handled s n : inv s -> quiet s -> unhandled n (log s) = false.
Proof.
  intros I Hq. apply not_true_is_false. intros Hb. apply (inv_log s I) in Hb as [Hb|Hb]; [by rewrite quiet_bit in Hb|].
  apply Exists_exists in Hb as (f & Hf & Hc). unfold carries in Hc. destruct Hq as [_ Hq]. rewrite Forall_forall in Hq. by rewrite (Hq f Hf) in Hc.
Qed.

(** C5. In a thread whose signals are handled through the wrappers, with signals arriving between
    any two statements and handlers that run intercepted functions themselves: no assertion of
    grab_global_lock() and release_global_lock() fails and the thread never waits for a lock that
    it holds; a handler is only ever run outside of danger zones; outside of danger zones the
    lock, has_global_lock and intercept_on agree and tell whether one of the activities has taken
    the lock; and whenever all activities are outside of the interceptor's functions and of danger
    zones, no signal is left in the bitmap: every signal that arrived has been handled since. *)
Theorem signals_are_safe_and_not_lost s : reachable s ->
  failed s = false /\
  (forall n d, EvHandled n d ∈ log s -> d = 0) /\
  (signal_danger_zone_depth s = 0 ->
     has_global_lock s = existsb i_locked (frames s) /\ intercept_on s = has_global_lock s /\ held s = has_global_lock s) /\
  (signal_danger_zone_depth s = 0 -> Forall (fun f => f_pc f = Run) (frames s) ->
     delayed_signals_bitmap s = 0 /\ forall n, unhandled n (log s) = false).
Proof.
  intros I%reachable_inv. split; [apply I|]. split; [apply I|]. split; [by apply lock_agrees|].
  intros Hd Hr. assert (Hq : quiet s) by done. split; [|intros n; by apply quiet_handled].
  apply Z.bits_inj'. intros k _. rewrite Z.bits_0. replace k with (k + 1 - 1) by lia. by apply quiet_bit.
Qed.

Definition summary (s : t) : list frame * list event * Z * Z * bool :=
  (frames s, log s, delayed_signals_bitmap s, signal_danger_zone_depth s, has_global_lock s).

(** A thread takes the lock; signal 10 arrives in the middle of that and is delayed, then raised on
    leaving; its handler runs an intercepted function, which finds the lock taken. *)
Definition delayed_run : list label :=
  [Grab; Next; Signal 10] ++ replicate 20 Next ++ [Grab; Next; Next; Return] ++ replicate 55 Next.

Lemma delayed_run_ends : summary <$> execs delayed_run init =
  Some ([mkFrame Run false 0 true false], [EvArrived 10; EvArrived 10; EvHandled 10 0], 0, 0, true).
Proof. vm_compute. reflexivity. Qed.

Lemma signals_are_safe_and_not_lost_witness : exists s,
  execs delayed_run init = Some s /\ failed s = false /\ delayed_signals_bitmap s = 0 /\ unhandled 10 (log s) = false.
Proof.
  destruct (execs delayed_run init) as [s|] eqn:E; [|pose proof delayed_run_ends as H; rewrite E in H; discriminate].
  pose proof delayed_run_ends as H. rewrite E in H. injection H as Hf _ _ Hd _.
  destruct (signals_are_safe_and_not_lost s (reachable_execs _ _ _ reach_init E)) as (H1 & _ & _ & H2).
  destruct (H2 Hd) as [Hb Hn]; [rewrite Hf; repeat constructor|]. exists s. repeat split; [exact H1|exact Hb|apply Hn].
Defined.

(** The bitmap is not stable while its signals are being raised: signal 1 arrives once, in a danger
    zone; between the test of its bit and the clearing of it signal 2 arrives, whose handler runs
    an intercepted function, which raises signal 1; then it is raised again. *)
Definition twice_run : list label :=
  [Enter; Signal 1; Next; Next; Leave; Next; Next; Signal 2; Next; Enter; Leave] ++ replicate 5 Next ++ [Return]
  ++ replicate 64 Next ++ [Return; Next; Next; Next].

Theorem delayed_signal_handled_twice : log <$> execs twice_run init =
  Some [EvArrived 1; EvArrived 2; EvHandled 2 0; EvArrived 1; EvHandled 1 0; EvArrived 1; EvHandled 1 0].
Proof. vm_compute. reflexivity. Qed.

End Signals.
