(* ===== verification/IcEnv.v ===== *)
(** The environment of intercepted processes (src/interceptor/env.c and the start of fb_ic_init()
    in src/interceptor/intercept.c): finding the variables that must be set for the interception of
    a child, the copy of the environment that is placed in a buffer for exec(), removing the
    variables, and the location lists that the supervisor passes in variables. *)

From Stdlib Require Import ZArith Lia Ascii.
From stdpp Require Import base list strings sorting.
From S2P Require Import Prelude Paths Hashing.

Module IcEnv.
Import Paths.

(** ** Variables *)

(** config.h on Linux. *)
Definition LD_PRELOAD : cstr := cs "LD_PRELOAD".
Definition FB_INSERT_TRACE_MARKERS : cstr := cs "FB_INSERT_TRACE_MARKERS".
Definition FB_SOCKET : cstr := cs "FB_SOCKET".

(** An environment is the array of its strings, without the terminating null pointer. *)
Abbreviation environ := (list cstr).

Definition equals : ascii := "="%char.
Definition colon : ascii := ":"%char.
Definition is_sep (c : ascii) : bool := bool_decide (c = colon) || bool_decide (c = " "%char).

(** [getenv_from()]: the characters of an entry up to the length of the name are the name (its
    terminator differs from all characters of the name), followed by an equals sign. *)
Fixpoint getenv_from (env : environ) (name : cstr) : option cstr :=
  match env with
  | [] => None
  | e :: env' =>
      if is_prefix name e && bool_decide (char_at e (length name) = equals)
      then Some (drop (length name + 1) e) else getenv_from env' name
  end.

Definition begins_with (str prefix : cstr) : bool := is_prefix prefix str.

(** ** Lemmas on prefixes and variables *)

Lemma is_prefix_app n s : is_prefix n s = true <-> exists r, s = n ++ r.
Proof.
  revert s. induction n as [|c n IH]; intros [|d s]; cbn; try (split; [eauto|done]).
  - split; [done|]. intros [r [=]].
  - rewrite andb_true_iff, bool_decide_eq_true, IH. split.
    + intros [-> [r ->]]. by exists r.
    + intros [r [= -> ->]]. eauto.
Qed.

(** The string of a variable. *)
Definition var (name value : cstr) : cstr := name ++ equals :: value.

Lemma var_inj n v v' : var n v = var n v' -> v = v'.
Proof. unfold var. intros H%app_inv_head. by injection H. Qed.

Lemma var_app n v : n ++ cs "=" ++ v = var n v.
Proof. done. Qed.

Lemma getenv_cons n e env : getenv_from (e :: env) n = match getenv_from [e] n with Some v => Some v | None => getenv_from env n end.
Proof. cbn. destruct (is_prefix n e), (bool_decide _); cbn; by destruct (getenv_from env n). Qed.

Lemma getenv_one n e v : getenv_from [e] n = Some v <-> e = var n v.
Proof.
  cbn. destruct (is_prefix n e) eqn:E; cbn.
  - apply is_prefix_app in E as [r ->]. unfold char_at, var. rewrite app_nth2, Nat.sub_diag by lia.
    destruct r as [|c r]; cbn.
    + rewrite bool_decide_eq_false_2 by done. split; [done|]. intros H%(f_equal length). rewrite !length_app in H. cbn in H. lia.
    + case_bool_decide as H.
      * subst. assert (drop (length n + 1) (n ++ equals :: r) = r) as -> by (rewrite drop_app_add; done).
        split; [by intros [= <-]|]. intros H%app_inv_head. by injection H as ->.
      * split; [done|]. intros H'%app_inv_head. by injection H' as ->.
  - split; [done|]. intros ->. assert (is_prefix n (var n v) = true) by (apply is_prefix_app; unfold var; eauto). congruence.
Qed.

Lemma getenv_some n env v : getenv_from env n = Some v -> var n v ∈ env.
Proof.
  induction env as [|e env IH]; [done|]. rewrite getenv_cons. destruct (getenv_from [e] n) as [w|] eqn:E.
  - intros [= ->]. apply getenv_one in E as ->. left.
  - intros H. right. by apply IH.
Qed.

Lemma getenv_none n env : getenv_from env n = None <-> forall v, var n v ∉ env.
Proof.
  induction env as [|e env IH]; [split; [intros _ v H; by apply not_elem_of_nil in H|done]|].
  rewrite getenv_cons. destruct (getenv_from [e] n) as [w|] eqn:E.
  - split; [done|]. intros H. apply getenv_one in E as ->. destruct (H w). left.
  - rewrite IH. split; intros H v Hv; [|by apply (H v); right].
    apply elem_of_cons in Hv as [Hv|Hv]; [|by apply (H v)]. symmetry in Hv. apply getenv_one in Hv. congruence.
Qed.

(** A variable that is not set to two values. *)
Definition single (n : cstr) (env : environ) : Prop := forall v v', var n v ∈ env -> var n v' ∈ env -> v = v'.

Lemma getenv_in n env v : single n env -> getenv_from env n = Some v <-> var n v ∈ env.
Proof.
  intros Hs. split; [apply getenv_some|]. intros Hv. destruct (getenv_from env n) as [w|] eqn:E.
  - f_equal. apply Hs; [by apply getenv_some|done].
  - by destruct (proj1 (getenv_none _ _) E v).
Qed.

(** Environments with the same settings of a variable. *)
Lemma getenv_same n env env' : single n env -> (forall v, var n v ∈ env' <-> var n v ∈ env) -> getenv_from env' n = getenv_from env n.
Proof.
  intros Hs H. assert (Hs' : single n env') by (intros v v' ?%H ?%H; by apply Hs).
  apply option_eq. intros v. rewrite !getenv_in by done. apply H.
Qed.

Lemma begins_with_var n e : begins_with e (n ++ cs "=") = true <-> exists v, e = var n v.
Proof.
  unfold begins_with. rewrite is_prefix_app. unfold var. split; intros [r ->]; exists r; by rewrite <- app_assoc.
Qed.

Lemma var_name_inj n n' v v' : equals ∉ n -> equals ∉ n' -> var n v = var n' v' -> n = n'.
Proof.
  unfold var. revert n'. induction n as [|c n IH]; intros [|c' n'] Hn Hn'; cbn; try done.
  - intros [= <- _]. destruct Hn'. left.
  - intros [= -> _]. destruct Hn. left.
  - intros [= -> H]. f_equal. apply IH; [intros ?; apply Hn; by right|intros ?; apply Hn'; by right|done].
Qed.

Section interceptor.
(** Whether the interceptor is built with FB_EXTRA_DEBUG, and its variables [insert_trace_markers],
    [libfirebuild_so] and [fb_conn_string], which are set when it starts. *)
Context (extra_debug insert_trace_markers : bool) (libfirebuild_so fb_conn_string : cstr).

Definition fb_insert_trace_markers_needs_fixup (env : environ) : bool :=
  if extra_debug then
    let current_value := getenv_from env FB_INSERT_TRACE_MARKERS in
    if bool_decide (current_value = None) && negb insert_trace_markers then false
    else if bool_decide (current_value = None) || negb insert_trace_markers then true
    else negb (bool_decide (current_value = Some (cs "1")))
  else false.

Definition fb_socket_needs_fixup (env : environ) : bool :=
  match getenv_from env FB_SOCKET with
  | None => true
  | Some current_value => negb (bool_decide (strcmp current_value fb_conn_string = Eq))
  end.

Definition ld_preload_needs_fixup (env : environ) : bool :=
  match getenv_from env LD_PRELOAD with
  | None => true
  | Some current_value =>
      match strstr current_value libfirebuild_so with
      | Some loc =>
          let loc_end := (loc + length libfirebuild_so)%nat in
          negb (((loc =? 0)%nat || is_sep (char_at current_value (loc - 1)))
                && (bool_decide (char_at current_value loc_end = NUL) || is_sep (char_at current_value loc_end)))
      | None => true
      end
  end.

Definition env_needs_fixup (env : environ) : bool :=
  fb_insert_trace_markers_needs_fixup env || fb_socket_needs_fixup env || ld_preload_needs_fixup env.

(** ** The copy for exec() *)

Definition sizeof_ptr : Z := 8.
Definition to_int (z : Z) : Z := ((z + 2 ^ 31) mod 2 ^ 32 - 2 ^ 31)%Z.

(** [get_env_fixup_size()]: the size_t that is computed, returned as an int. *)
Definition env_fixup_ret (env : environ) : Z :=
  let ret := ((Z.of_nat (length env) + 5) * sizeof_ptr)%Z in
  let ret := (if extra_debug then ret + Z.of_nat (length (FB_INSERT_TRACE_MARKERS ++ cs "=1")) + 1 else ret)%Z in
  let ret := (ret + Z.of_nat (length (FB_SOCKET ++ cs "=")) + Z.of_nat (length fb_conn_string) + 1)%Z in
  let e := getenv_from env LD_PRELOAD in
  (ret + Z.of_nat (length (LD_PRELOAD ++ cs "=")) + Z.of_nat (from_option length 0%nat e) + 1
   + Z.of_nat (length libfirebuild_so) + 1)%Z.
Definition get_env_fixup_size (env : environ) : Z := to_int (env_fixup_ret env).

(** A pointer of the new array: to a string of the environment, or into the second part of the
    buffer. *)
Inductive ptr := Orig (i : nat) | Copy (off : nat).

(** The buffer: the pointers written so far, the offset of [buf2] in the second part, and the
    bytes of the second part. *)
Record buffer := mkBuf { ptrs : list ptr; buf2 : nat; bytes : cstr }.

(** [sprintf()] to an offset of the second part. *)
Definition put (off : nat) (s bytes : cstr) : cstr :=
  take off bytes ++ s ++ [NUL] ++ drop (off + length s + 1) bytes.

(** These return the bytes and the number of bytes placed. *)
Definition fixup_fb_insert_trace_markers (p : nat) (bytes : cstr) : cstr * nat :=
  if negb insert_trace_markers then (bytes, 0%nat)
  else let s := FB_INSERT_TRACE_MARKERS ++ cs "=1" in (put p s bytes, length s + 1)%nat.
Definition fixup_fb_socket (p : nat) (bytes : cstr) : cstr * nat :=
  let s := FB_SOCKET ++ cs "=" ++ fb_conn_string in (put p s bytes, length s + 1)%nat.
Definition fixup_ld_preload (current_value : option cstr) (p : nat) (bytes : cstr) : cstr * nat :=
  let s := match current_value with
           | None => LD_PRELOAD ++ cs "=" ++ libfirebuild_so
           | Some v => LD_PRELOAD ++ cs "=" ++ v ++ cs ":" ++ libfirebuild_so
           end in
  (put p s bytes, length s + 1)%nat.

(** [*buf1++ = buf2; buf2 += size;] after placing a string. *)
Definition place (r : cstr * nat) (b : buffer) : buffer :=
  mkBuf (ptrs b ++ [Copy (buf2 b)]) (buf2 b + snd r)%nat (fst r).

Definition skipped (trace_fixed socket_fixed preload_fixed : bool) (e : cstr) : bool :=
  (trace_fixed && begins_with e (FB_INSERT_TRACE_MARKERS ++ cs "=")) ||
  (socket_fixed && begins_with e (FB_SOCKET ++ cs "=")) ||
  (preload_fixed && begins_with e (LD_PRELOAD ++ cs "=")).

(** The loop that copies the pointers of the environment. *)
Fixpoint copy_env (skip : cstr -> bool) (i : nat) (env : environ) (buf1 : list ptr) : list ptr :=
  match env with
  | [] => buf1
  | e :: env' => copy_env skip (S i) env' (if skip e then buf1 else buf1 ++ [Orig i])
  end.

(** The string at a pointer. *)
Fixpoint c_string (b : cstr) : cstr :=
  match b with [] => [] | c :: b' => if bool_decide (c = NUL) then [] else c :: c_string b' end.
Definition deref (env : environ) (bytes : cstr) (p : ptr) : cstr :=
  match p with Orig i => nth i env [] | Copy off => c_string (drop off bytes) end.

(** [qsort()] with [cmpstringpp()]. *)
Definition ptr_le (env : environ) (bytes : cstr) (p q : ptr) : Prop := str_le (deref env bytes p) (deref env bytes q).
#[global] Instance ptr_le_dec env bytes : RelDecision (ptr_le env bytes).
Proof. intros p q. apply str_le_dec. Defined.

Definition env_fixup (env : environ) : buffer :=
  let b := mkBuf [] 0 [] in
  let trace_fixed := extra_debug && fb_insert_trace_markers_needs_fixup env in
  let b :=
    if trace_fixed then
      let r := fixup_fb_insert_trace_markers (buf2 b) (bytes b) in
      if (0 <? snd r)%nat then place r b else b
    else b in
  let socket_fixed := fb_socket_needs_fixup env in
  let b := if socket_fixed then place (fixup_fb_socket (buf2 b) (bytes b)) b else b in
  let preload_fixed := ld_preload_needs_fixup env in
  let b :=
    if preload_fixed then
      let r := fixup_ld_preload (getenv_from env LD_PRELOAD) (buf2 b) (bytes b) in
      mkBuf (ptrs b ++ [Copy (buf2 b)]) (buf2 b) (fst r)
    else b in
  let l := copy_env (skipped trace_fixed socket_fixed preload_fixed) 0 env (ptrs b) in
  mkBuf (merge_sort (ptr_le env (bytes b)) l) (buf2 b) (bytes b).

(** The strings of the new environment. *)
Definition fixed_up (env : environ) : environ :=
  let b := env_fixup env in deref env (bytes b) <$> ptrs b.

(** ** Removing the variables *)

(** What becomes of a string of the array: dropped, or left, possibly with its library removed by
    moving the rest of it. *)
Definition purge_entry (e : cstr) : option cstr :=
  if begins_with e (FB_INSERT_TRACE_MARKERS ++ cs "=") || begins_with e (FB_SOCKET ++ cs "=") then None
  else if begins_with e (LD_PRELOAD ++ cs "=") then
    if bool_decide (strcmp (drop (length (LD_PRELOAD ++ cs "=")) e) libfirebuild_so = Eq) then None
    else
      match strstr e libfirebuild_so with
      | None => Some e
      | Some start =>
          let move_len := length libfirebuild_so in
          let '(start, move_len) :=
            if (0 <? start)%nat && is_sep (char_at e (start - 1)) then (start - 1, move_len + 1)%nat
            else if is_sep (char_at e (start + move_len)) then (start, move_len + 1)%nat
            else (start, move_len) in
          Some (take start e ++ drop (start + move_len) e)
      end
  else Some e.

(** [env_purge()]: the array is compacted in place; [cur] never passes [i]. *)
Definition env_purge (env : environ) : environ := omap purge_entry env.

End interceptor.

(** ** The buffer *)

Section interceptor_proofs.
Context (extra_debug insert_trace_markers : bool) (libfirebuild_so fb_conn_string : cstr).
Local Abbreviation needs_fixup := (env_needs_fixup extra_debug insert_trace_markers libfirebuild_so fb_conn_string).
Local Abbreviation trace_fixup := (fb_insert_trace_markers_needs_fixup extra_debug insert_trace_markers).
Local Abbreviation socket_fixup := (fb_socket_needs_fixup fb_conn_string).
Local Abbreviation preload_fixup := (ld_preload_needs_fixup libfirebuild_so).
Local Abbreviation fixup := (env_fixup extra_debug insert_trace_markers libfirebuild_so fb_conn_string).
Local Abbreviation result := (fixed_up extra_debug insert_trace_markers libfirebuild_so fb_conn_string).
Local Abbreviation fixup_size := (get_env_fixup_size extra_debug libfirebuild_so fb_conn_string).

Lemma trace_fixup_debug env : extra_debug && trace_fixup env = trace_fixup env.
Proof. unfold fb_insert_trace_markers_needs_fixup. by destruct extra_debug. Qed.

(** The values that are placed, in order. *)
Definition preload_value (current_value : option cstr) : cstr :=
  match current_value with None => libfirebuild_so | Some v => v ++ cs ":" ++ libfirebuild_so end.
Definition new_vars (env : environ) : environ :=
  (if trace_fixup env && insert_trace_markers then [var FB_INSERT_TRACE_MARKERS (cs "1")] else [])
  ++ (if socket_fixup env then [var FB_SOCKET fb_conn_string] else [])
  ++ (if preload_fixup env then [var LD_PRELOAD (preload_value (getenv_from env LD_PRELOAD))] else []).
Definition kept_vars (env : environ) : environ :=
  filter (fun e => skipped (trace_fixup env) (socket_fixup env) (preload_fixup env) e = false) env.

Definition nul_free (s : cstr) : Prop := NUL ∉ s.

Lemma c_string_app s r : nul_free s -> c_string (s ++ NUL :: r) = s.
Proof.
  unfold nul_free. induction s as [|c s IH]; cbn; intros H.
  - by rewrite bool_decide_eq_true_2.
  - apply not_elem_of_cons in H as [Hc H]. rewrite bool_decide_eq_false_2 by auto. by rewrite IH.
Qed.

Definition area (strs : list cstr) : cstr := mjoin ((fun s => s ++ [NUL]) <$> strs).

(** The strings [strs] have been placed one after the other, with a pointer to each. *)
Record placed (env : environ) (strs : list cstr) (b : buffer) : Prop := {
  placed_bytes : bytes b = area strs;
  placed_end : buf2 b = length (bytes b);
  placed_ptrs : forall more, deref env (bytes b ++ more) <$> ptrs b = strs
}.

Lemma put_end s b : put (length b) s b = b ++ s ++ [NUL].
Proof. unfold put. rewrite firstn_all, drop_ge by lia. by rewrite app_nil_r. Qed.

Lemma place_placed env strs b s n : placed env strs b -> nul_free s -> n = (length s + 1)%nat ->
  placed env (strs ++ [s]) (place (put (buf2 b) s (bytes b), n) b).
Proof.
  intros [Hb He Hp] Hs ->. unfold place. cbn. rewrite He, put_end. constructor; cbn.
  - rewrite Hb. unfold area. rewrite fmap_app, join_app. cbn. by rewrite app_nil_r.
  - rewrite !length_app. cbn. lia.
  - intros more. rewrite fmap_app. f_equal; [rewrite <- app_assoc; apply Hp|]. cbn.
    rewrite <- !app_assoc, drop_app_length. f_equal. by apply c_string_app.
Qed.

Lemma length_area strs : length (area strs) = sum_list_with (fun s => length s + 1)%nat strs.
Proof.
  induction strs as [|s strs IH]; [done|]. assert (E : area (s :: strs) = (s ++ [NUL]) ++ area strs) by done.
  rewrite E, !length_app, IH. cbn. lia.
Qed.

(** The pointers that are copied lead to the strings that are kept. *)
Lemma copy_env_deref skip full bs env i buf1 : drop i full = env ->
  deref full bs <$> copy_env skip i env buf1 = (deref full bs <$> buf1) ++ filter (fun e => skip e = false) env.
Proof.
  revert i buf1. induction env as [|e env IH]; intros i buf1 Hd; cbn; [by rewrite app_nil_r|].
  rewrite (IH (S i)); [|by rewrite <- Nat.add_1_r, <- drop_drop, Hd].
  assert (Hn : nth i full [] = e) by (rewrite <- (Nat.add_0_r i), <- nth_skipn, Hd; done).
  destruct (skip e) eqn:E; [done|]. rewrite decide_True by done. rewrite fmap_app, <- app_assoc. cbn. by rewrite Hn.
Qed.

Lemma copy_env_length skip env i buf1 : (length (copy_env skip i env buf1) <= length buf1 + length env)%nat.
Proof.
  revert i buf1. induction env as [|e env IH]; intros i buf1; cbn; [lia|]. etrans; [apply IH|].
  destruct (skip e); rewrite ?length_app; cbn; lia.
Qed.

(** [buf1] before the environment is copied, and all that is placed in the second part. *)
Definition place_string (s : cstr) (b : buffer) : buffer := place (put (buf2 b) s (bytes b), length s + 1)%nat b.
Definition copied (env : environ) : buffer := foldl (fun b s => place_string s b) (mkBuf [] 0 []) (new_vars env).

Lemma fixup_copied env :
  ptrs (fixup env) = merge_sort (ptr_le env (bytes (copied env)))
    (copy_env (skipped (trace_fixup env) (socket_fixup env) (preload_fixup env)) 0 env (ptrs (copied env))) /\
  bytes (fixup env) = bytes (copied env).
Proof.
  unfold env_fixup, copied, new_vars. rewrite trace_fixup_debug. unfold fixup_fb_insert_trace_markers, fixup_ld_preload.
  destruct (trace_fixup env), insert_trace_markers; cbn [andb negb snd Nat.ltb Nat.leb];
    destruct (socket_fixup env), (preload_fixup env), (getenv_from env LD_PRELOAD); done.
Qed.

Lemma foldl_placed env l strs b : placed env strs b -> Forall nul_free l ->
  placed env (strs ++ l) (foldl (fun b s => place_string s b) b l).
Proof.
  revert strs b. induction l as [|s l IH]; intros strs b Hb Hl; cbn; [by rewrite app_nil_r|].
  apply Forall_cons in Hl as [Hs Hl]. rewrite cons_middle, app_assoc. apply IH; [|done]. by apply place_placed.
Qed.

Definition env_ok (env : environ) : Prop := Forall nul_free env /\ nul_free libfirebuild_so /\ nul_free fb_conn_string.

Lemma nul_free_app a b : nul_free (a ++ b) <-> nul_free a /\ nul_free b.
Proof. unfold nul_free. rewrite elem_of_app. tauto. Qed.

Lemma new_vars_nul_free env : env_ok env -> Forall nul_free (new_vars env).
Proof.
  intros (He & Hl & Hc). assert (Hlit : forall s, bool_decide (NUL ∉ s) = true -> nul_free s) by (intros s; apply bool_decide_eq_true_1).
  assert (Hv : forall n v, bool_decide (NUL ∉ n) = true -> nul_free v -> nul_free (var n v)).
  { intros n v Hn Hv. apply (nul_free_app n). split; [by apply Hlit|]. apply (nul_free_app [equals]). split; [by apply Hlit|done]. }
  unfold new_vars. rewrite !Forall_app. repeat split.
  - destruct (_ && _); repeat constructor. by apply Hv; [|apply Hlit].
  - destruct (socket_fixup env); repeat constructor. by apply Hv.
  - destruct (preload_fixup env); repeat constructor. apply Hv; [done|]. unfold preload_value.
    destruct (getenv_from env LD_PRELOAD) as [v|] eqn:E; [|done]. apply getenv_some in E.
    rewrite Forall_forall in He. apply He in E. apply nul_free_app in E as [_ [_ E]%(nul_free_app [equals])].
    rewrite !nul_free_app. split; [done|]. split; [by apply Hlit|done].
Qed.

Lemma copied_placed env : env_ok env -> placed env (new_vars env) (copied env).
Proof.
  intros H. apply (foldl_placed env _ []); [|by apply new_vars_nul_free]. by constructor.
Qed.

(** The new environment is made of the variables that were placed and those that were kept. *)
Lemma fixed_up_sorted env : env_ok env -> result env = sort_strings (new_vars env ++ kept_vars env).
Proof.
  intros H. pose proof (copied_placed env H) as [_ _ Hp]. destruct (fixup_copied env) as [E1 E2]. unfold fixed_up. rewrite E1, E2.
  specialize (Hp []). rewrite app_nil_r in Hp.
  apply (StronglySorted_unique str_le).
  - apply (StronglySorted_fmap _ (ptr_le env (bytes (copied env)))); [done|]. apply StronglySorted_merge_sort.
    + intros a b c. apply str_le_trans.
    + intros a b. apply str_le_total.
  - apply StronglySorted_merge_sort; apply _.
  - unfold sort_strings. rewrite !merge_sort_Permutation, copy_env_deref by done. by rewrite Hp.
Qed.


(** ** What the new environment says *)

Lemma elem_result env e : env_ok env ->
  e ∈ result env <-> e ∈ new_vars env \/ (e ∈ env /\ skipped (trace_fixup env) (socket_fixup env) (preload_fixup env) e = false).
Proof.
  intros H. rewrite (fixed_up_sorted env H). unfold sort_strings. rewrite merge_sort_Permutation, elem_of_app.
  unfold kept_vars. rewrite list_elem_of_filter. tauto.
Qed.

Lemma begins_with_bool n m v : equals ∉ n -> equals ∉ m -> begins_with (var m v) (n ++ cs "=") = bool_decide (m = n).
Proof.
  intros Hn Hm. apply eq_true_iff_eq. rewrite bool_decide_eq_true, begins_with_var. split.
  - intros [w E]. by apply var_name_inj in E.
  - intros ->. by exists v.
Qed.

Lemma names_plain : equals ∉ FB_INSERT_TRACE_MARKERS /\ equals ∉ FB_SOCKET /\ equals ∉ LD_PRELOAD.
Proof. repeat split; by apply (bool_decide_eq_true_1 _). Qed.

Lemma skipped_var t s p n v : equals ∉ n ->
  skipped t s p (var n v) = (t && bool_decide (n = FB_INSERT_TRACE_MARKERS)) || (s && bool_decide (n = FB_SOCKET)) || (p && bool_decide (n = LD_PRELOAD)).
Proof. destruct names_plain as (H1 & H2 & H3). intros Hn. unfold skipped. by rewrite !begins_with_bool by done. Qed.

Lemma new_vars_elem env n v : equals ∉ n -> var n v ∈ new_vars env <->
  (n = FB_INSERT_TRACE_MARKERS /\ trace_fixup env = true /\ insert_trace_markers = true /\ v = cs "1") \/
  (n = FB_SOCKET /\ socket_fixup env = true /\ v = fb_conn_string) \/
  (n = LD_PRELOAD /\ preload_fixup env = true /\ v = preload_value (getenv_from env LD_PRELOAD)).
Proof.
  intros Hn. destruct names_plain as (H1 & H2 & H3).
  assert (Hv : forall (b : bool) m w, equals ∉ m -> var n v ∈ (if b then [var m w] else []) <-> n = m /\ b = true /\ v = w).
  { intros b m w Hm. destruct b; [|split; [intros H; by apply not_elem_of_nil in H|by intros (_ & [=] & _)]].
    rewrite list_elem_of_singleton. split; [|by intros (-> & _ & ->)]. intros E. pose proof E as E'.
    apply var_name_inj in E as ->; [|done..]. by apply var_inj in E'. }
  unfold new_vars. rewrite !elem_of_app, !Hv, andb_true_iff by done. tauto.
Qed.

(** A variable of the new environment, by whether it was fixed up. *)
Lemma elem_result_var env n v : env_ok env -> equals ∉ n ->
  var n v ∈ result env <->
    (n = FB_INSERT_TRACE_MARKERS /\ trace_fixup env = true /\ insert_trace_markers = true /\ v = cs "1") \/
    (n = FB_SOCKET /\ socket_fixup env = true /\ v = fb_conn_string) \/
    (n = LD_PRELOAD /\ preload_fixup env = true /\ v = preload_value (getenv_from env LD_PRELOAD)) \/
    (var n v ∈ env /\ (n = FB_INSERT_TRACE_MARKERS -> trace_fixup env = false) /\ (n = FB_SOCKET -> socket_fixup env = false)
     /\ (n = LD_PRELOAD -> preload_fixup env = false)).
Proof.
  intros H Hn. rewrite elem_result, new_vars_elem, skipped_var, !orb_false_iff, !andb_false_iff, !bool_decide_eq_false by done.
  assert (Hi : forall (b : bool) (P : Prop) `{Decision P}, (b = false \/ ~ P) <-> (P -> b = false)).
  { intros b P D. destruct b, (decide P); intuition congruence. }
  rewrite !Hi by apply _. tauto.
Qed.

(** The library is one of the elements of a list that is separated by colons or spaces. *)
Definition listed (lib v : cstr) : Prop := exists a b, v = a ++ lib ++ b /\
  (a = [] \/ exists a' c, a = a' ++ [c] /\ is_sep c = true) /\ (b = [] \/ exists c b', b = c :: b' /\ is_sep c = true).

Lemma preload_listed env v : getenv_from env LD_PRELOAD = Some v -> nul_free v -> preload_fixup env = false -> listed libfirebuild_so v.
Proof.
  unfold ld_preload_needs_fixup. intros -> Hv. destruct (strstr v libfirebuild_so) as [loc|] eqn:E; [|done].
  apply strstr_some in E as (Hp & Hle & _). apply is_prefix_app in Hp as [b Hb]. rewrite negb_false_iff, andb_true_iff. intros [H1 H2].
  pose proof (take_drop loc v) as Hs. rewrite Hb in Hs. exists (take loc v), b. split; [by rewrite Hs|]. split.
  - apply orb_true_iff in H1 as [H1|H1]; [apply Nat.eqb_eq in H1 as ->; by left|]. destruct loc as [|loc]; [by left|]. right.
    assert (Hl : (loc < length v)%nat) by lia. cbn in H1. rewrite Nat.sub_0_r in H1.
    destruct (lookup_lt_is_Some_2 v loc Hl) as [c Hc]. unfold char_at in H1. rewrite (nth_lookup_Some v loc NUL c Hc) in H1.
    exists (take loc v), c. split; [by apply take_S_r|done].
  - assert (Hc : char_at v (loc + length libfirebuild_so) = char_at b 0).
    { unfold char_at. rewrite <- Hs. rewrite app_assoc, app_nth2; rewrite length_app, length_take_le by lia; [|lia]. f_equal. lia. }
    rewrite Hc in H2. destruct b as [|c b]; [by left|]. right. exists c, b. split; [done|].
    apply orb_true_iff in H2 as [H2|H2]; [|done]. apply bool_decide_eq_true in H2. cbn in H2. subst c.
    destruct Hv. rewrite <- Hs. rewrite !elem_of_app. right. right. left.
Qed.


Lemma preload_value_listed cur : listed libfirebuild_so (preload_value cur).
Proof.
  destruct cur as [v|]; cbn.
  - exists (v ++ cs ":"), []. split; [by rewrite app_nil_r, <- app_assoc|]. split; [|by left]. right. by exists v, colon.
  - exists [], []. split; [by rewrite app_nil_r|]. split; by left.
Qed.

Lemma result_single env n : env_ok env -> equals ∉ n -> single n env -> single n (result env).
Proof.
  intros H Hn Hs v v' Hv Hv'. apply elem_result_var in Hv, Hv'; [|done..].
  destruct Hv as [(-> & ? & ? & ->)|[(-> & ? & ->)|[(-> & ? & ->)|(? & ? & ? & ?)]]],
    Hv' as [(? & ? & ? & ->)|[(? & ? & ->)|[(? & ? & ->)|(? & ? & ? & ?)]]]; try done; try (by apply Hs); subst; intuition congruence.
Qed.

Lemma result_socket env : env_ok env -> single FB_SOCKET env -> getenv_from (result env) FB_SOCKET = Some fb_conn_string.
Proof.
  destruct names_plain as (_ & Hp & _). intros H Hs. apply getenv_in; [by apply result_single|]. apply elem_result_var; [done..|].
  destruct (socket_fixup env) eqn:E; [by right; left|]. right. right. right. split; [|done].
  unfold fb_socket_needs_fixup in E. destruct (getenv_from env FB_SOCKET) as [v|] eqn:Ev; [|done].
  apply negb_false_iff, bool_decide_eq_true, memcmp_eq in E as ->. by apply getenv_some.
Qed.

Lemma result_trace env : env_ok env -> single FB_INSERT_TRACE_MARKERS env -> extra_debug = true ->
  getenv_from (result env) FB_INSERT_TRACE_MARKERS = if insert_trace_markers then Some (cs "1") else None.
Proof.
  destruct names_plain as (Hp & _ & _). intros H Hs Hd.
  assert (E : forall v, var FB_INSERT_TRACE_MARKERS v ∈ result env <-> insert_trace_markers = true /\ v = cs "1").
  { intros v. rewrite elem_result_var by done. unfold fb_insert_trace_markers_needs_fixup. rewrite Hd. rewrite <- (getenv_in _ env v Hs).
    destruct (getenv_from env FB_INSERT_TRACE_MARKERS) as [w|], insert_trace_markers; cbn;
      repeat case_bool_decide; cbn; intuition congruence. }
  pose proof (result_single env _ H Hp Hs) as Hr. destruct insert_trace_markers.
  - apply getenv_in; [done|]. by apply E.
  - apply getenv_none. intros v [? _]%E. done.
Qed.

Lemma result_preload env : env_ok env -> single LD_PRELOAD env -> exists v,
  getenv_from (result env) LD_PRELOAD = Some v /\ listed libfirebuild_so v /\
  (preload_fixup env = true -> v = preload_value (getenv_from env LD_PRELOAD)) /\ (preload_fixup env = false -> getenv_from env LD_PRELOAD = Some v).
Proof.
  destruct names_plain as (_ & _ & Hp). intros H Hs. destruct (preload_fixup env) eqn:E.
  - exists (preload_value (getenv_from env LD_PRELOAD)). split; [|split; [apply preload_value_listed|done]].
    apply getenv_in; [by apply result_single|]. apply elem_result_var; [done..|]. by right; right; left.
  - destruct (getenv_from env LD_PRELOAD) as [v|] eqn:Ev; [|by unfold ld_preload_needs_fixup in E; rewrite Ev in E].
    exists v. pose proof (getenv_some _ _ _ Ev) as Hv. split; [|split; [|done]].
    + apply getenv_in; [by apply result_single|]. apply elem_result_var; [done..|]. right. right. right. split; [done|]. split; [done|]. split; done.
    + apply (preload_listed env); [done| |done]. destruct H as [He _]. rewrite Forall_forall in He. apply He in Hv.
      unfold var in Hv. apply nul_free_app in Hv as [_ [_ Hv]%(nul_free_app [equals])]. done.
Qed.

Lemma result_others env n : env_ok env -> equals ∉ n -> n ∉ [FB_INSERT_TRACE_MARKERS; FB_SOCKET; LD_PRELOAD] -> single n env ->
  getenv_from (result env) n = getenv_from env n.
Proof.
  intros H Hn Ho Hs. rewrite !not_elem_of_cons in Ho. apply getenv_same; [done|]. intros v. rewrite elem_result_var by done. intuition congruence.
Qed.

(** The pointers with the terminating null pointer stay in the first part of the buffer. *)
Lemma fixup_ptrs_fit env : (length (ptrs (fixup env)) + 1 <= length env + 5)%nat.
Proof.
  destruct (fixup_copied env) as [-> _]. rewrite merge_sort_Permutation.
  pose proof (copy_env_length (skipped (trace_fixup env) (socket_fixup env) (preload_fixup env)) env 0 (ptrs (copied env))).
  assert (length (ptrs (copied env)) <= 3)%nat; [|lia]. unfold copied, new_vars.
  destruct (trace_fixup env && _), (socket_fixup env), (preload_fixup env); cbn; lia.
Qed.

Lemma fixup_bytes_fit env : env_ok env -> (env_fixup_ret extra_debug libfirebuild_so fb_conn_string env < 2 ^ 31)%Z ->
  ((Z.of_nat (length env) + 5) * sizeof_ptr + Z.of_nat (length (bytes (fixup env))) <= fixup_size env)%Z.
Proof.
  intros H Hlt. destruct (fixup_copied env) as [_ ->]. destruct (copied_placed env H) as [-> _ _]. rewrite length_area.
  unfold get_env_fixup_size, to_int. assert (0 <= env_fixup_ret extra_debug libfirebuild_so fb_conn_string env)%Z
    by (unfold env_fixup_ret, sizeof_ptr; destruct extra_debug; lia).
  rewrite Z.mod_small by lia. unfold env_fixup_ret, new_vars, preload_value, sizeof_ptr.
  rewrite !sum_list_with_app. 
  assert (Ht : trace_fixup env && insert_trace_markers = true -> extra_debug = true)
    by (unfold fb_insert_trace_markers_needs_fixup; by destruct extra_debug).
  destruct (trace_fixup env && insert_trace_markers), (socket_fixup env), (preload_fixup env), (getenv_from env LD_PRELOAD);
    try rewrite Ht by done; cbn [sum_list_with from_option]; unfold var; rewrite ?length_app; cbn; rewrite ?length_app; cbn; destruct extra_debug; lia.
Qed.

End interceptor_proofs.


(** ** Finding the library again *)

Lemma is_prefix_before l p c r : is_prefix l (p ++ c :: r) = true -> c ∉ l -> is_prefix l p = true.
Proof.
  revert p. induction l as [|d l IH]; intros [|e p]; cbn; try done; rewrite andb_true_iff, bool_decide_eq_true.
  - intros [-> _] H. destruct H. left.
  - intros [-> H] Hc. rewrite bool_decide_eq_true_2 by done. cbn. apply IH; [done|]. intros ?. apply Hc. by right.
Qed.

Lemma is_prefix_refl l : is_prefix l l = true.
Proof. apply is_prefix_app. exists []. by rewrite app_nil_r. Qed.

Lemma strstr_intro s n k : is_prefix n (drop k s) = true -> (k <= length s)%nat -> (forall j, (j < k)%nat -> is_prefix n (drop j s) = false) ->
  strstr s n = Some k.
Proof.
  intros H Hk Hl. destruct (strstr s n) as [k'|] eqn:E.
  - apply strstr_some in E as (H1 & H2 & H3). f_equal. destruct (Nat.lt_trichotomy k k') as [Hlt|[|Hlt]]; [|done|].
    + by rewrite (H3 k Hlt) in H.
    + by rewrite (Hl k' Hlt) in H1.
  - by rewrite (strstr_none s n E k Hk) in H.
Qed.

(** In a list that did not mention a library before it, the library is found. *)
Lemma strstr_inserted p c l r : strstr p l = None -> c ∉ l -> strstr (p ++ c :: l ++ r) l = Some (length p + 1)%nat.
Proof.
  intros Hn Hc. apply strstr_intro.
  - rewrite drop_app_add. cbn. apply is_prefix_app. by exists r.
  - rewrite length_app. cbn. lia.
  - intros j Hj. rewrite drop_app_le by lia. apply not_true_is_false. intros H%is_prefix_before; [|done].
    by rewrite (strstr_none p l Hn j) in H by lia.
Qed.

Lemma strstr_first l r : strstr (l ++ r) l = Some 0%nat.
Proof. apply strstr_intro; [apply is_prefix_app; by exists r|lia|lia]. Qed.

Lemma strstr_suffix_none p v l : strstr (p ++ v) l = None -> strstr v l = None.
Proof.
  intros H. destruct (strstr v l) as [k|] eqn:E; [|done]. apply strstr_some in E as (H1 & H2 & _).
  pose proof (strstr_none _ _ H (length p + k)) as H3. rewrite drop_app_add in H3. rewrite H3 in H1; [done|rewrite length_app; lia].
Qed.

Section purge.
Context (extra_debug insert_trace_markers : bool) (libfirebuild_so fb_conn_string : cstr).
Local Abbreviation result := (fixed_up extra_debug insert_trace_markers libfirebuild_so fb_conn_string).
Local Abbreviation preload_fixup := (ld_preload_needs_fixup libfirebuild_so).

(** [original v o]: the value [v] of LD_PRELOAD does not mention the library, or lists it at some
    place for the first time; without that it would be [o]. *)
Inductive original : cstr -> option cstr -> Prop :=
| original_absent v : strstr (var LD_PRELOAD v) libfirebuild_so = None -> original v (Some v)
| original_only : original libfirebuild_so None
| original_first d x : is_sep d = true -> original (libfirebuild_so ++ d :: x) (Some x)
| original_last w c : strstr (var LD_PRELOAD w) libfirebuild_so = None -> is_sep c = true ->
    original (w ++ c :: libfirebuild_so) (Some w)
| original_inner w c d x : strstr (var LD_PRELOAD w) libfirebuild_so = None -> is_sep c = true -> is_sep d = true ->
    original (w ++ c :: libfirebuild_so ++ d :: x) (Some (w ++ d :: x)).

(** The variables are set to one value each, and LD_PRELOAD was [o] before the library was added, if
    it has been. *)
Record plain_env (env : environ) (o : option cstr) : Prop := {
  plain_ok : env_ok libfirebuild_so fb_conn_string env;
  plain_sep : forall c, is_sep c = true \/ c = equals -> c ∉ libfirebuild_so;
  plain_name : strstr LD_PRELOAD libfirebuild_so = None;
  plain_single : forall n, n ∈ [FB_INSERT_TRACE_MARKERS; FB_SOCKET; LD_PRELOAD] -> single n env;
  plain_original : match getenv_from env LD_PRELOAD with None => o = None | Some v => original v o end
}.

Lemma mention_value v : strstr (var LD_PRELOAD v) libfirebuild_so = None -> strstr v libfirebuild_so = None.
Proof.
  unfold var. rewrite (cons_middle equals LD_PRELOAD v), app_assoc. apply strstr_suffix_none.
Qed.

Lemma nth_app_end a (c : ascii) b : char_at (a ++ c :: b) (length a) = c.
Proof. unfold char_at. by rewrite app_nth2, Nat.sub_diag by lia. Qed.
Lemma char_at_end (a : cstr) : char_at a (length a) = NUL.
Proof. unfold char_at. by rewrite nth_overflow by lia. Qed.
Lemma char_at_inserted p (c : ascii) l r : char_at (p ++ c :: l ++ r) (length p + 1 + length l) = char_at r 0.
Proof.
  unfold char_at. rewrite app_nth2 by lia. replace (length p + 1 + length l - length p)%nat with (S (length l)) by lia. cbn.
  by rewrite app_nth2, Nat.sub_diag by lia.
Qed.

(** What follows a listed library. *)
Definition ends (r : cstr) : Prop := r = [] \/ exists d x, r = d :: x /\ is_sep d = true.

(** A list with the library needs no fixup. *)
Lemma settled_first env r : getenv_from env LD_PRELOAD = Some (libfirebuild_so ++ r) -> ends r -> preload_fixup env = false.
Proof.
  unfold ld_preload_needs_fixup. intros -> Hr. rewrite strstr_first. cbn [Nat.add Nat.eqb orb andb].
  destruct Hr as [->|(d & x & -> & Hd)].
  - by rewrite app_nil_r, char_at_end, (bool_decide_eq_true_2 (NUL = NUL)).
  - by rewrite nth_app_end, Hd, orb_true_r.
Qed.
Lemma settled_later env w c r : getenv_from env LD_PRELOAD = Some (w ++ c :: libfirebuild_so ++ r) ->
  strstr w libfirebuild_so = None -> is_sep c = true -> c ∉ libfirebuild_so -> ends r -> preload_fixup env = false.
Proof.
  unfold ld_preload_needs_fixup. intros -> Hw Hc Hn Hr. rewrite strstr_inserted by done.
  rewrite Nat.add_sub, nth_app_end, Hc, orb_true_r, char_at_inserted. destruct Hr as [->|(d & x & -> & Hd)]; [done|].
  cbn [char_at nth]. change (char_at (d :: x) 0) with d. by rewrite Hd, orb_true_r.
Qed.

(** Whether the library has to be added. *)
Lemma plain_preload env o : plain_env env o ->
  (preload_fixup env = true /\ getenv_from env LD_PRELOAD = o /\
     forall v, o = Some v -> strstr (var LD_PRELOAD v) libfirebuild_so = None) \/
  (preload_fixup env = false /\ exists v, getenv_from env LD_PRELOAD = Some v /\ original v o).
Proof.
  intros [_ Hsep _ _ Ho]. destruct (getenv_from env LD_PRELOAD) as [v|] eqn:E.
  2:{ subst o. left. split_and!; [|done|done]. unfold ld_preload_needs_fixup. by rewrite E. }
  pose proof Ho as Ho'. destruct Ho as [v Ha| |d x Hd|w c Hw Hc|w c d x Hw Hc Hd].
  - left. split_and!; [|done|by intros ? [= <-]]. unfold ld_preload_needs_fixup. by rewrite E, mention_value.
  - right. split; [|by eauto]. apply (settled_first env []); [by rewrite app_nil_r|by left].
  - right. split; [|by eauto]. apply (settled_first env (d :: x)); [done|right; eauto].
  - right. split; [|by eauto]. apply (settled_later env w c []); [by rewrite app_nil_r|by apply mention_value|done|apply Hsep; auto|by left].
  - right. split; [|by eauto]. apply (settled_later env w c (d :: x)); [done|by apply mention_value|done|apply Hsep; auto|right; eauto].
Qed.

Lemma result_settled env o : plain_env env o -> preload_fixup (result env) = false.
Proof.
  intros H. destruct (plain_preload env o H) as [(Hf & Ho & Ha)|(Hf & v & Hv & _)]; destruct H as [Hok Hsep _ Hs _];
    destruct (result_preload extra_debug insert_trace_markers libfirebuild_so fb_conn_string env Hok (Hs _ ltac:(right; right; left)))
      as (v' & Hv' & _ & Hn & Hk).
  - rewrite (Hn Hf), Ho in Hv'. destruct o as [w|]; cbn [preload_value] in Hv'.
    + apply (settled_later _ w colon []); [by rewrite app_nil_r|by apply mention_value, Ha|done|apply Hsep; by left|by left].
    + apply (settled_first _ []); [by rewrite app_nil_r|by left].
  - unfold ld_preload_needs_fixup in *. rewrite Hv'. by rewrite (Hk Hf) in Hf.
Qed.

(** What env_purge() leaves of the variables. *)
Definition is_own (e : cstr) : bool := begins_with e (FB_INSERT_TRACE_MARKERS ++ cs "=") || begins_with e (FB_SOCKET ++ cs "=").

Lemma purge_plain e : is_own e = false -> begins_with e (LD_PRELOAD ++ cs "=") = false -> purge_entry libfirebuild_so e = Some e.
Proof. unfold is_own, purge_entry. by intros -> ->. Qed.

Lemma preload_not_own v : is_own (var LD_PRELOAD v) = false /\ begins_with (var LD_PRELOAD v) (LD_PRELOAD ++ cs "=") = true.
Proof.
  destruct names_plain as (H1 & H2 & H3). unfold is_own. rewrite !begins_with_bool by done. split; [|by apply bool_decide_eq_true_2].
  by rewrite !bool_decide_eq_false_2 by done.
Qed.

Lemma drop_var n v : drop (length (n ++ cs "=")) (var n v) = v.
Proof. unfold var. rewrite length_app. by rewrite drop_app_add. Qed.

(** Removing the library gives the original value. *)
Lemma purge_preload_entry e r p c t : e = var LD_PRELOAD r -> r <> libfirebuild_so -> e = p ++ c :: libfirebuild_so ++ t ->
  strstr p libfirebuild_so = None -> c ∉ libfirebuild_so ->
  purge_entry libfirebuild_so e = Some (if is_sep c then p ++ t else p ++ c :: if is_sep (char_at t 0) then drop 1 t else t).
Proof.
  intros Er Hne Ep Hp Hc. destruct (preload_not_own r) as [E1 E2]. unfold purge_entry. unfold is_own in E1.
  rewrite Er, E1, E2, drop_var, (bool_decide_eq_false_2 (strcmp _ _ = Eq)) by (by intros H%memcmp_eq).
  rewrite <- Er, Ep, strstr_inserted by done. rewrite Nat.add_sub, nth_app_end, (proj2 (Nat.ltb_lt _ _)) by lia. cbn [andb].
  rewrite char_at_inserted. destruct (is_sep c).
  - rewrite take_app_length. do 2 f_equal. rewrite app_comm_cons, app_assoc, drop_app_ge by (rewrite length_app; cbn; lia).
    replace (length p + (length libfirebuild_so + 1) - _)%nat with 0%nat by (rewrite length_app; cbn; lia). done.
  - assert (Ht : take (length p + 1) (p ++ c :: libfirebuild_so ++ t) = p ++ [c]).
    { rewrite take_app_ge by lia. by replace (length p + 1 - length p)%nat with 1%nat by lia. }
    assert (Hd : forall k, drop (length p + 1 + (length libfirebuild_so + k)) (p ++ c :: libfirebuild_so ++ t) = drop k t).
    { intros k. rewrite app_comm_cons, app_assoc, drop_app_ge by (rewrite length_app; cbn; lia). f_equal. rewrite length_app. cbn. lia. }
    destruct (is_sep (char_at t 0)).
    + by rewrite Ht, (Hd 1%nat), <- app_assoc.
    + rewrite <- (Nat.add_0_r (length libfirebuild_so)), Ht, (Hd 0%nat), <- app_assoc. done.
Qed.

Lemma purge_original v o : (forall c, is_sep c = true \/ c = equals -> c ∉ libfirebuild_so) -> strstr LD_PRELOAD libfirebuild_so = None ->
  original v o -> purge_entry libfirebuild_so (var LD_PRELOAD v) = var LD_PRELOAD <$> o.
Proof.
  intros Hsep Hname Ho.
  assert (Hlong : forall r, (length libfirebuild_so < length r)%nat -> r <> libfirebuild_so) by (intros r Hr ->; lia).
  destruct Ho as [v Ha| |d x Hd|w c Hw Hc|w c d x Hw Hc Hd]; cbn [fmap option_fmap option_map].
  - destruct (preload_not_own v) as [E1 E2]. unfold purge_entry. unfold is_own in E1. rewrite E1, E2, drop_var, Ha.
    rewrite bool_decide_eq_false_2; [done|]. intros E%memcmp_eq. apply mention_value in Ha. subst v.
    by rewrite <- (app_nil_r libfirebuild_so), strstr_first in Ha at 1.
  - destruct (preload_not_own libfirebuild_so) as [E1 E2]. unfold purge_entry. unfold is_own in E1.
    by rewrite E1, E2, drop_var, bool_decide_eq_true_2 by (by apply memcmp_eq).
  - rewrite (purge_preload_entry _ (libfirebuild_so ++ d :: x) LD_PRELOAD equals (d :: x)); [|done|apply Hlong; rewrite length_app; cbn; lia|done|done|apply Hsep; by right].
    change (char_at (d :: x) 0) with d. by rewrite Hd.
  - rewrite (purge_preload_entry _ (w ++ c :: libfirebuild_so) (var LD_PRELOAD w) c []);
      [by rewrite Hc, app_nil_r|done|apply Hlong; rewrite length_app; cbn; lia|unfold var; by rewrite <- app_assoc, app_nil_r|done|apply Hsep; by left].
  - rewrite (purge_preload_entry _ (w ++ c :: libfirebuild_so ++ d :: x) (var LD_PRELOAD w) c (d :: x));
      [|done|apply Hlong; rewrite length_app; cbn; rewrite length_app; cbn; lia|unfold var; by rewrite <- app_assoc|done|apply Hsep; by left].
    rewrite Hc. unfold var. by rewrite <- app_assoc.
Qed.

(** The variables of the interceptor are removed, whether the fixup replaced them or not. *)
Lemma purge_own e : is_own e = true -> purge_entry libfirebuild_so e = None.
Proof. unfold is_own, purge_entry. by intros ->. Qed.

Lemma purge_kept env : omap (purge_entry libfirebuild_so) (kept_vars extra_debug insert_trace_markers libfirebuild_so fb_conn_string env)
  = omap (purge_entry libfirebuild_so) (filter (fun e => is_own e = false /\ preload_fixup env && begins_with e (LD_PRELOAD ++ cs "=") = false) env).
Proof.
  unfold kept_vars. generalize (fb_insert_trace_markers_needs_fixup extra_debug insert_trace_markers env) as t,
    (fb_socket_needs_fixup fb_conn_string env) as s, (preload_fixup env) as p.
  intros t s p. induction env as [|e env IH]; [done|]. rewrite !filter_cons. destruct (is_own e) eqn:Eo.
  - rewrite (decide_False (P := true = false /\ _)) by (by intros [? _]). destruct (decide _) as [_|_]; [|done].
    cbn. by rewrite purge_own.
  - assert (E : skipped t s p e = p && begins_with e (LD_PRELOAD ++ cs "=")).
    { unfold is_own in Eo. apply orb_false_iff in Eo as [E1 E2]. unfold skipped. by rewrite E1, E2, !andb_false_r. }
    rewrite E. destruct (p && _) eqn:E3.
    + rewrite decide_False by done. rewrite decide_False by (by intros [_ ?]). done.
    + rewrite !decide_True by done. cbn. rewrite IH. by destruct (purge_entry libfirebuild_so e).
Qed.

Lemma purge_new env : omap (purge_entry libfirebuild_so) (new_vars extra_debug insert_trace_markers libfirebuild_so fb_conn_string env)
  = if preload_fixup env then omap (purge_entry libfirebuild_so) [var LD_PRELOAD (preload_value libfirebuild_so (getenv_from env LD_PRELOAD))] else [].
Proof.
  unfold new_vars. rewrite !omap_app.
  assert (Hb1 : is_own (var FB_INSERT_TRACE_MARKERS (cs "1")) = true) by (vm_compute; reflexivity).
  assert (Hb2 : is_own (var FB_SOCKET fb_conn_string) = true) by (vm_compute; reflexivity).
  destruct (_ && _), (fb_socket_needs_fixup fb_conn_string env), (preload_fixup env); cbn [omap list_omap];
    rewrite ?(purge_own _ Hb1), ?(purge_own _ Hb2); done.
Qed.

Lemma purge_rest (env : environ) : omap (purge_entry libfirebuild_so) (filter (fun e => is_own e = false /\ begins_with e (LD_PRELOAD ++ cs "=") = false) env)
  = filter (fun e => is_own e = false /\ begins_with e (LD_PRELOAD ++ cs "=") = false) env.
Proof.
  induction env as [|e env IH]; [done|]. rewrite filter_cons. destruct (decide _) as [[H1 H2]|_]; [|done].
  cbn [omap list_omap]. rewrite purge_plain by done. f_equal. apply IH.
Qed.

(** The variables other than LD_PRELOAD, and that one. *)
Lemma preload_apart env : NoDup env -> single LD_PRELOAD env ->
  filter (fun e => is_own e = false) env ≡ₚ
  from_option (fun v => [var LD_PRELOAD v]) [] (getenv_from env LD_PRELOAD) ++ filter (fun e => is_own e = false /\ begins_with e (LD_PRELOAD ++ cs "=") = false) env.
Proof.
  intros Hnd Hs. apply NoDup_Permutation.
  - by apply NoDup_filter.
  - apply NoDup_app. split; [destruct (getenv_from env LD_PRELOAD); cbn; [apply NoDup_singleton|constructor]|]. split; [|by apply NoDup_filter].
    intros e He Hf. rewrite list_elem_of_filter in Hf. destruct (getenv_from env LD_PRELOAD) as [v|]; cbn [from_option] in He; [|by apply not_elem_of_nil in He].
    apply list_elem_of_singleton in He as ->. destruct (preload_not_own v) as [_ E]. destruct Hf as [[_ Hf] _]. congruence.
  - intros e. rewrite elem_of_app, !list_elem_of_filter. destruct (begins_with e (LD_PRELOAD ++ cs "=")) eqn:E.
    + apply begins_with_var in E as [v ->]. rewrite <- (getenv_in _ _ v Hs). destruct (preload_not_own v) as [-> _].
      destruct (getenv_from env LD_PRELOAD) as [w|]; cbn [from_option].
      * rewrite list_elem_of_singleton. split; [intros [_ [= ->]]; by left|]. intros [->%var_inj|[[_ ?] _]]; done.
      * rewrite elem_of_nil. split; [by intros [_ ?]|]. intros [[]|[[_ ?] _]]; done.
    + split; [tauto|]. intros [H|H]; [|tauto]. destruct (getenv_from env LD_PRELOAD) as [w|]; cbn [from_option] in H; [|by apply not_elem_of_nil in H].
      apply list_elem_of_singleton in H as ->. destruct (preload_not_own w) as [_ E']. congruence.
Qed.
(** env_purge() gives the environment back that the fixup started from. *)
Lemma purge_result env o : plain_env env o -> NoDup env ->
  env_purge libfirebuild_so (result env) ≡ₚ
  from_option (fun v => [var LD_PRELOAD v]) [] o ++ filter (fun e => is_own e = false /\ begins_with e (LD_PRELOAD ++ cs "=") = false) env.
Proof.
  intros H Hnd. pose proof (plain_preload env o H) as Hp. destruct H as [Hok Hsep Hname Hs Ho].
  assert (Hone : forall v, original v o -> omap (purge_entry libfirebuild_so) [var LD_PRELOAD v] = from_option (fun v => [var LD_PRELOAD v]) [] o).
  { intros v Hv. cbn [omap list_omap]. rewrite (purge_original v o Hsep Hname Hv). by destruct o. }
  unfold env_purge. rewrite fixed_up_sorted by done. unfold sort_strings.
  rewrite merge_sort_Permutation, omap_app, purge_new, purge_kept. destruct Hp as [(-> & -> & Ha)|(-> & v & Hv & Hvo)].
  - rewrite Hone, <- (purge_rest env); [done|]. destruct o as [w|]; [|constructor]. apply (original_last w colon); [by apply Ha|done].
  - cbn [app andb]. etrans.
    + apply omap_Permutation. etrans; [|by apply preload_apart; [|apply Hs; right; right; left]].
      apply reflexive_eq, list_filter_iff. intros e. tauto.
    + rewrite Hv, omap_app, purge_rest. cbn [from_option]. by rewrite Hone.
Qed.
End purge.


(** ** Claims *)

(** C25. The environment that env_fixup() prepares for exec() fits into the buffer: the pointers
    with their terminator into the first part, and the strings into the size that
    get_env_fixup_size() returns, if that is an int.  It is sorted.  For a variable that is not set
    to two values, it sets FB_SOCKET to the supervisor's socket, it lists the interceptor's library
    in LD_PRELOAD, it sets FB_INSERT_TRACE_MARKERS as in this process where that is built in, and
    it leaves all other variables as they are. *)
Theorem env_fixup_correct extra_debug insert_trace_markers libfirebuild_so fb_conn_string env :
  env_ok libfirebuild_so fb_conn_string env ->
  let b := env_fixup extra_debug insert_trace_markers libfirebuild_so fb_conn_string env in
  let new := fixed_up extra_debug insert_trace_markers libfirebuild_so fb_conn_string env in
  ((Z.of_nat (length (ptrs b)) + 1) * sizeof_ptr <= (Z.of_nat (length env) + 5) * sizeof_ptr)%Z /\
  ((env_fixup_ret extra_debug libfirebuild_so fb_conn_string env < 2 ^ 31)%Z ->
     ((Z.of_nat (length env) + 5) * sizeof_ptr + Z.of_nat (length (bytes b)) <= get_env_fixup_size extra_debug libfirebuild_so fb_conn_string env)%Z) /\
  StronglySorted str_le new /\
  (single FB_SOCKET env -> getenv_from new FB_SOCKET = Some fb_conn_string) /\
  (single LD_PRELOAD env -> exists v, getenv_from new LD_PRELOAD = Some v /\ listed libfirebuild_so v) /\
  (single FB_INSERT_TRACE_MARKERS env -> extra_debug = true ->
     getenv_from new FB_INSERT_TRACE_MARKERS = if insert_trace_markers then Some (cs "1") else None) /\
  (forall n, single n env -> equals ∉ n -> n ∉ [FB_INSERT_TRACE_MARKERS; FB_SOCKET; LD_PRELOAD] -> getenv_from new n = getenv_from env n).
Proof.
  intros H b new. pose proof (fixup_ptrs_fit extra_debug insert_trace_markers libfirebuild_so fb_conn_string env) as Hp.
  split; [unfold b, sizeof_ptr; lia|]. split; [by apply fixup_bytes_fit|].
  split; [unfold new; rewrite fixed_up_sorted by done; apply StronglySorted_merge_sort; apply _|].
  split; [by apply result_socket|]. split; [|split; [by apply result_trace|intros n Hs Hn Ho; by apply result_others]].
  intros Hs. destruct (result_preload extra_debug insert_trace_markers libfirebuild_so fb_conn_string env H Hs) as (v & Hv & Hl & _). by exists v.
Qed.

(** C24. env_fixup() is settled and undone by env_purge().  Take an environment without duplicates
    in which LD_PRELOAD does not mention the interceptor's library at all, or lists it at some
    place and does not mention it before that (the environment of an intercepted process), and let
    [o] be LD_PRELOAD without that element.  The environment that env_fixup() prepares from it needs
    no fixup again, and env_purge() leaves of it exactly the variables of the original one other than
    LD_PRELOAD, FB_SOCKET and FB_INSERT_TRACE_MARKERS, and LD_PRELOAD with the value [o], or without
    it when the library would be its only element.  FB_SOCKET and FB_INSERT_TRACE_MARKERS are
    removed whatever they were.  Values in which the library's name is first found inside a longer
    one are not covered: [fixup_not_settled] and [purge_damages_other_library] show both halves to
    fail there. *)
Theorem env_purge_undoes_fixup extra_debug insert_trace_markers libfirebuild_so fb_conn_string env o :
  plain_env libfirebuild_so fb_conn_string env o -> NoDup env ->
  let new := fixed_up extra_debug insert_trace_markers libfirebuild_so fb_conn_string env in
  env_needs_fixup extra_debug insert_trace_markers libfirebuild_so fb_conn_string new = false /\
  env_purge libfirebuild_so new ≡ₚ
    from_option (fun v => [var LD_PRELOAD v]) [] o ++ filter (fun e => is_own e = false /\ begins_with e (LD_PRELOAD ++ cs "=") = false) env.
Proof.
  intros H Hnd new. pose proof (plain_ok _ _ _ _ H) as Hok. pose proof (plain_single _ _ _ _ H) as Hs. split; [|by apply purge_result].
  unfold env_needs_fixup, new. rewrite (result_settled _ _ _ _ env o), orb_false_r by done. apply orb_false_iff. split.
  - unfold fb_insert_trace_markers_needs_fixup. destruct extra_debug eqn:Ed; [|done].
    rewrite result_trace by (done || (apply Hs; left)). by destruct insert_trace_markers.
  - unfold fb_socket_needs_fixup. rewrite result_socket by (done || (apply Hs; right; left)). by rewrite bool_decide_eq_true_2 by (by apply memcmp_eq).
Qed.

Definition example_env : environ := [cs "PATH=/bin"; cs "LD_PRELOAD=/usr/lib/libeatmydata.so"; cs "FB_SOCKET=/tmp/old"; cs "HOME=/"].
(** The environment of an intercepted process. *)
Definition intercepted_env : environ :=
  [cs "FB_SOCKET=/run/fb"; cs "HOME=/"; cs "LD_PRELOAD=/usr/lib/libeatmydata.so libfirebuild.so"; cs "PATH=/bin"].
Definition example_lib : cstr := cs "libfirebuild.so".
Definition example_socket : cstr := cs "/run/fb".

(** The values of a variable, and deciding that there is one at most. *)
Definition values (n : cstr) (env : environ) : list cstr := omap (fun e => getenv_from [e] n) env.

Lemma single_values n env : (forall v v', v ∈ values n env -> v' ∈ values n env -> v = v') -> single n env.
Proof.
  intros H v v' Hv Hv'. apply H; apply list_elem_of_omap; [exists (var n v)|exists (var n v')]; by split; [|apply getenv_one].
Qed.

Lemma single_one n env w : Forall (fun v => v = w) (values n env) -> single n env.
Proof. rewrite Forall_forall. intros H. apply single_values. intros v v' Hv Hv'. by rewrite (H v Hv), (H v' Hv'). Qed.

Lemma example_ok : env_ok example_lib example_socket example_env.
Proof. split; [|split]; [|by apply (bool_decide_eq_true_1 _)..]. repeat constructor; by apply (bool_decide_eq_true_1 _). Qed.

Lemma example_sep c : is_sep c = true \/ c = equals -> c ∉ example_lib.
Proof.
  intros H Hc. assert (Ha : Forall (fun d => is_sep d = false /\ d <> equals) example_lib) by (by apply (bool_decide_eq_true_1 _)).
  rewrite Forall_forall in Ha. destruct (Ha c Hc) as [H1 H2]. destruct H as [H|H]; congruence.
Qed.

Lemma example_plain : plain_env example_lib example_socket example_env (Some (cs "/usr/lib/libeatmydata.so")).
Proof.
  constructor; [apply example_ok|apply example_sep|vm_compute; reflexivity| |].
  - intros n Hn. rewrite !elem_of_cons, elem_of_nil in Hn. destruct Hn as [->|[->|[->|[]]]].
    + apply (single_one _ _ []). vm_compute. constructor.
    + apply (single_one _ _ (cs "/tmp/old")). vm_compute. repeat constructor.
    + apply (single_one _ _ (cs "/usr/lib/libeatmydata.so")). vm_compute. repeat constructor.
  - apply original_absent. vm_compute. reflexivity.
Qed.

Lemma intercepted_plain : plain_env example_lib example_socket intercepted_env (Some (cs "/usr/lib/libeatmydata.so")).
Proof.
  constructor; [|apply example_sep|vm_compute; reflexivity| |].
  - split; [|split]; [|by apply (bool_decide_eq_true_1 _)..]. repeat constructor; by apply (bool_decide_eq_true_1 _).
  - intros n Hn. rewrite !elem_of_cons, elem_of_nil in Hn. destruct Hn as [->|[->|[->|[]]]].
    + apply (single_one _ _ []). vm_compute. constructor.
    + apply (single_one _ _ (cs "/run/fb")). vm_compute. repeat constructor.
    + apply (single_one _ _ (cs "/usr/lib/libeatmydata.so libfirebuild.so")). vm_compute. repeat constructor.
  - apply (original_last example_lib (cs "/usr/lib/libeatmydata.so") " "%char); vm_compute; reflexivity.
Qed.

Lemma env_fixup_correct_witness :
  let new := fixed_up true true example_lib example_socket example_env in
  getenv_from new FB_SOCKET = Some (cs "/run/fb") /\ getenv_from new (cs "PATH") = Some (cs "/bin") /\
  exists v, getenv_from new LD_PRELOAD = Some v /\ listed example_lib v.
Proof.
  destruct (env_fixup_correct true true example_lib example_socket example_env example_ok) as (_ & _ & _ & H1 & H2 & _ & H3).
  split; [apply H1, (plain_single _ _ _ _ example_plain); right; left|]. split.
  - rewrite H3; [vm_compute; reflexivity| |by apply (bool_decide_eq_true_1 _)..].
    apply (single_one _ _ (cs "/bin")). vm_compute. repeat constructor.
  - apply H2, (plain_single _ _ _ _ example_plain). right. right. left.
Defined.

Lemma env_purge_undoes_fixup_witness :
  (let new := fixed_up false false example_lib example_socket example_env in
   env_needs_fixup false false example_lib example_socket new = false /\
   env_purge example_lib new ≡ₚ [cs "LD_PRELOAD=/usr/lib/libeatmydata.so"; cs "PATH=/bin"; cs "HOME=/"]) /\
  env_purge example_lib (fixed_up false false example_lib example_socket intercepted_env)
    ≡ₚ [cs "LD_PRELOAD=/usr/lib/libeatmydata.so"; cs "HOME=/"; cs "PATH=/bin"].
Proof.
  assert (Hnd : NoDup example_env) by (by apply (bool_decide_eq_true_1 _)).
  assert (Hni : NoDup intercepted_env) by (by apply (bool_decide_eq_true_1 _)).
  split; [exact (env_purge_undoes_fixup false false example_lib example_socket example_env _ example_plain Hnd)|].
  exact (proj2 (env_purge_undoes_fixup false false example_lib example_socket intercepted_env _ intercepted_plain Hni)).
Defined.

(** ** Divergences *)

(** When the preloaded libraries mention a name that the library's is a part of, the environment
    needs a fixup again after each one, so that the library is appended once per exec(). *)
Theorem fixup_not_settled :
  let env := [cs "LD_PRELOAD=/opt/libfirebuild.so.1"; cs "FB_SOCKET=/run/fb"] in
  let new := fixed_up false false example_lib example_socket env in
  env_needs_fixup false false example_lib example_socket new = true /\
  getenv_from (fixed_up false false example_lib example_socket new) LD_PRELOAD
  = Some (cs "/opt/libfirebuild.so.1:libfirebuild.so:libfirebuild.so").
Proof. vm_compute. split; reflexivity. Qed.

(** Removing the library damages such a name. *)
Theorem purge_damages_other_library :
  env_purge example_lib [cs "LD_PRELOAD=/opt/libfirebuild.so.1:libfirebuild.so"] = [cs "LD_PRELOAD=/opt/.1:libfirebuild.so"].
Proof. vm_compute. reflexivity. Qed.

(** A variable that is set twice: getenv_from() looks at the first setting, and sorting for
    another reason brings the other one to the front. *)
Theorem fixup_duplicate_socket :
  let env := [cs "FB_SOCKET=/run/fb"; cs "FB_SOCKET=/a"] in
  let new := fixed_up false false example_lib example_socket env in
  getenv_from env FB_SOCKET = Some example_socket /\ getenv_from new FB_SOCKET = Some (cs "/a").
Proof. vm_compute. split; reflexivity. Qed.

End IcEnv.
