(* ===== verification/Startup.v ===== *)
(** What the supervisor passes to intercepted processes in their environment
    (src/firebuild/config.cc) and how the interceptor picks it up when it starts (fb_ic_init() of
    src/interceptor/intercept.c): the sorted lists of locations, and the name of the library. *)

From Stdlib Require Import ZArith Lia Ascii.
From stdpp Require Import base list strings sorting.
From S2P Require Import Prelude Paths Hashing IcEnv.

Module Startup.
Import Paths IcEnv.

(** ** Strings *)

(** [strchr()] and [strrchr()]: the offset of the first and the last occurrence. *)
Fixpoint strchr (s : cstr) (c : ascii) : option nat :=
  match s with
  | [] => None
  | d :: s' => if bool_decide (d = c) then Some 0%nat else S <$> strchr s' c
  end.
Fixpoint strrchr (s : cstr) (c : ascii) : option nat :=
  match s with
  | [] => None
  | d :: s' =>
      match strrchr s' c with
      | Some k => Some (S k)
      | None => if bool_decide (d = c) then Some 0%nat else None
      end
  end.

(** ** The supervisor *)

(** The loop of [export_sorted()] that appends the entries to a string. *)
Definition append_entry (entries_appended entry : cstr) : cstr :=
  if bool_decide (length entries_appended = 0)%nat then entries_appended ++ entry else entries_appended ++ cs ":" ++ entry.

(** [export_sorted()]: the value of the variable, if there are entries. *)
Definition export_sorted (entries : list cstr) : option cstr :=
  if (0 <? length entries)%nat then Some (foldl append_entry [] (sort_strings entries)) else None.

(** The value that [get_sanitized_env()] gives to LD_PRELOAD. *)
Definition export_ld_preload (libfirebuild_so : cstr) (ld_preload_value : option cstr) : cstr :=
  match ld_preload_value with
  | Some v => libfirebuild_so ++ cs ":" ++ v
  | None => libfirebuild_so
  end.

(** ** The interceptor *)

(** The value as copied to the static buffer, trimmed to the parts that fit. *)
Definition entries_env_buf (buffer_size : nat) (env_entries : cstr) : cstr :=
  if (buffer_size <? length env_entries + 1)%nat then
    let buf := take (buffer_size - 1) env_entries in
    match strrchr buf colon with
    | None => []
    | Some last_separator => take last_separator buf
    end
  else env_entries.

(** The loop of [store_entries()]: [prefix] is the rest of the buffer, up to its terminator; the
    separator that is found is overwritten. *)
Fixpoint entries_loop (fuel size_alloc : nat) (prefix : option cstr) (entries : list cstr) : outcome (list cstr) :=
  match fuel with
  | O => OutOfFuel
  | S fuel' =>
      match prefix with
      | None => Ret entries
      | Some p =>
          if (length entries =? size_alloc)%nat then Ret entries
          else
            let '(p, next_prefix) :=
              match strchr p colon with
              | Some k => (take k p, Some (drop (k + 1) p))
              | None => (p, None)
              end in
            if bool_decide (char_at p 0 = NUL) then entries_loop fuel' size_alloc (Some p) entries
            else entries_loop fuel' size_alloc next_prefix (entries ++ [p])
      end
  end.

(** [store_entries()] into an empty static array. *)
Definition store_entries (fuel size_alloc buffer_size : nat) (env_entries : option cstr) : outcome (list cstr) :=
  match env_entries with
  | Some v => entries_loop fuel size_alloc (Some (entries_env_buf buffer_size v)) []
  | None => Ret []
  end.

(** The search back to the previous separator. *)
Fixpoint search_back (ld_preload : cstr) (libfirebuild : nat) : nat :=
  match libfirebuild with
  | O => O
  | S k => if is_sep (char_at ld_preload k) then S k else search_back ld_preload k
  end.

(** [libfirebuild_so] as set by [fb_ic_init()] from LD_PRELOAD; [so] is LIBFIREBUILD_SO. *)
Definition init_libfirebuild_so (so ld_preload : cstr) (sizeof : nat) : outcome cstr :=
  match strstr ld_preload so with
  | None => Abort
  | Some libfirebuild =>
      let libfirebuild_end := (libfirebuild + length so)%nat in
      let libfirebuild := search_back ld_preload libfirebuild in
      let len := (libfirebuild_end - libfirebuild)%nat in
      if (len <? sizeof)%nat then Ret (take len (drop libfirebuild ld_preload)) else Abort
  end.

(** ** Lists as they are written *)

(** The parts between the separators. *)
Fixpoint split (s : cstr) : list cstr :=
  match s with
  | [] => [[]]
  | c :: s' =>
      if bool_decide (c = colon) then [] :: split s'
      else match split s' with h :: t => (c :: h) :: t | [] => [[c]] end
  end.

Lemma split_nonempty s : split s <> [].
Proof. destruct s as [|c s]; cbn; [done|]. case_bool_decide; [done|]. by destruct (split s). Qed.

Lemma split_at_colon a r : split (a ++ colon :: r) = split a ++ split r.
Proof.
  induction a as [|c a IH]; [done|]. cbn [app split]. case_bool_decide; [by rewrite IH|]. rewrite IH.
  destruct (split a) eqn:E; [by apply split_nonempty in E|done].
Qed.

Lemma split_plain a : colon ∉ a -> split a = [a].
Proof.
  induction a as [|c a IH]; [done|]. intros [Hc Ha]%not_elem_of_cons. cbn.
  rewrite bool_decide_eq_false_2 by auto. by rewrite IH.
Qed.

Lemma strchr_spec s c : match strchr s c with
  | Some k => exists a r, s = a ++ c :: r /\ k = length a /\ c ∉ a
  | None => c ∉ s
  end.
Proof.
  induction s as [|d s IH]; cbn; [by apply not_elem_of_nil|]. case_bool_decide as Hc.
  - subst. exists [], s. split; [done|]. split; [done|]. apply not_elem_of_nil.
  - destruct (strchr s c) as [k|]; cbn.
    + destruct IH as (a & r & -> & -> & Ha). exists (d :: a), r. split; [done|]. split; [done|]. apply not_elem_of_cons. auto.
    + apply not_elem_of_cons. auto.
Qed.

Lemma strrchr_spec s : match strrchr s colon with
  | Some k => exists r, s = take k s ++ colon :: r
  | None => colon ∉ s
  end.
Proof.
  induction s as [|c s IH]; cbn; [by apply not_elem_of_nil|]. destruct (strrchr s colon) as [k|]; cbn.
  - destruct IH as [r E]. exists r. by rewrite <- E.
  - case_bool_decide as Hc; [subst; by exists s|]. apply not_elem_of_cons. auto.
Qed.

(** ** The loop over the entries *)

(** It never gets past an empty entry. *)
Lemma loop_stuck fuel size_alloc entries : length entries <> size_alloc -> entries_loop fuel size_alloc (Some []) entries = OutOfFuel.
Proof.
  intros H. induction fuel as [|fuel IH]; [done|]. cbn. rewrite (proj2 (Nat.eqb_neq _ _)) by done. exact IH.
Qed.

Lemma split_cases p :
  (strchr p colon = None /\ split p = [p]) \/
  (exists a r, p = a ++ colon :: r /\ strchr p colon = Some (length a) /\ split p = a :: split r).
Proof.
  pose proof (strchr_spec p colon) as H. destruct (strchr p colon) as [k|].
  - destruct H as (a & r & -> & -> & Ha). right. exists a, r. split; [done|]. split; [done|]. by rewrite split_at_colon, split_plain.
  - left. by rewrite split_plain.
Qed.

Lemma head_nul p : nul_free p -> bool_decide (char_at p 0 = NUL) = bool_decide (p = []).
Proof.
  intros H. apply bool_decide_ext. split; [|by intros ->]. destruct p as [|c p]; [done|]. cbn. intros ->. destruct H. left.
Qed.

Definition filled (size_alloc : nat) (p : cstr) (entries : list cstr) : list cstr := take (size_alloc - length entries) (split p).

(** One round on a list whose first entry is [h]. *)
Lemma loop_round fuel size_alloc p entries : nul_free p -> length entries <> size_alloc ->
  (exists h, split p = [h] /\ nul_free h /\
     entries_loop (S fuel) size_alloc (Some p) entries =
       if bool_decide (h = []) then OutOfFuel else entries_loop fuel size_alloc None (entries ++ [h])) \/
  (exists h r, split p = h :: split r /\ nul_free r /\ (length r < length p)%nat /\
     entries_loop (S fuel) size_alloc (Some p) entries =
       if bool_decide (h = []) then OutOfFuel else entries_loop fuel size_alloc (Some r) (entries ++ [h])).
Proof.
  intros Hp Hlen. cbn [entries_loop]. rewrite (proj2 (Nat.eqb_neq _ _)) by done.
  destruct (split_cases p) as [[-> Hs]|(a & r & -> & -> & Hs)].
  - left. exists p. split; [done|]. split; [done|]. rewrite head_nul by done. case_bool_decide; [|done]. subst. by apply loop_stuck.
  - apply nul_free_app in Hp as [Ha [_ Hr]%(nul_free_app [colon])]. right. exists a, r. split; [done|]. split; [done|].
    split; [rewrite length_app; cbn; lia|]. rewrite take_app_length, drop_app_add, head_nul by done. cbn [drop].
    case_bool_decide; [|done]. subst. by apply loop_stuck.
Qed.

(** The loop is done when no entry that it gets to is empty. *)
Lemma loop_done n fuel size_alloc p entries : (length p <= n)%nat -> (length p + 1 < fuel)%nat -> nul_free p -> (length entries <= size_alloc)%nat ->
  Forall (fun e => e <> []) (filled size_alloc p entries) ->
  entries_loop fuel size_alloc (Some p) entries = Ret (entries ++ filled size_alloc p entries).
Proof.
  unfold filled. revert fuel p entries. induction n as [n IH] using lt_wf_ind. intros fuel p entries Hn Hf Hp Hle.
  destruct fuel as [|fuel]; [lia|]. destruct (Nat.eq_dec (length entries) size_alloc) as [Heq|Hne].
  { cbn [entries_loop]. rewrite Heq, Nat.eqb_refl, Nat.sub_diag. cbn. by rewrite app_nil_r. }
  destruct (size_alloc - length entries)%nat as [|m] eqn:Em; [lia|].
  destruct (loop_round fuel size_alloc p entries Hp Hne) as [(h & -> & _ & ->)|(h & r & -> & Hr & Hlt & ->)]; cbn [take];
    intros [Hh Ht]%Forall_cons; rewrite bool_decide_eq_false_2 by done.
  - destruct fuel; [lia|]. cbn. by rewrite take_nil.
  - assert (E : (size_alloc - length (entries ++ [h]) = m)%nat) by (rewrite length_app; cbn; lia).
    rewrite (IH (length r)) by (try rewrite E; try done; try lia; rewrite length_app; cbn; lia). rewrite E, <- app_assoc. done.
Qed.

(** It is never done otherwise. *)
Lemma loop_hangs fuel size_alloc p entries : nul_free p -> (length entries <= size_alloc)%nat ->
  [] ∈ filled size_alloc p entries -> entries_loop fuel size_alloc (Some p) entries = OutOfFuel.
Proof.
  unfold filled. revert p entries. induction fuel as [|fuel IH]; intros p entries Hp Hle; [done|].
  destruct (size_alloc - length entries)%nat as [|m] eqn:Em; [intros H; by apply not_elem_of_nil in H|].
  assert (Hne : length entries <> size_alloc) by lia.
  destruct (loop_round fuel size_alloc p entries Hp Hne) as [(h & -> & _ & ->)|(h & r & -> & Hr & Hlt & ->)]; cbn [take];
    intros [<-|H]%elem_of_cons; try (by rewrite bool_decide_eq_true_2).
  - rewrite take_nil in H. by apply not_elem_of_nil in H.
  - case_bool_decide; [done|]. apply IH; [done|rewrite length_app; cbn; lia|].
    by replace (size_alloc - length (entries ++ [h]))%nat with m by (rewrite length_app; cbn; lia).
Qed.

Lemma entries_env_buf_nul_free buffer_size v : nul_free v -> nul_free (entries_env_buf buffer_size v).
Proof.
  unfold nul_free, entries_env_buf. intros H. destruct (_ <? _)%nat; [|done].
  destruct (strrchr _ _) as [k|]; [|by apply not_elem_of_nil]. intros Hin. apply H.
  apply elem_of_take in Hin as (i & Hi & _). apply lookup_take_Some in Hi as [Hi _]. by eapply list_elem_of_lookup_2.
Qed.

Definition stored (size_alloc buffer_size : nat) (v : cstr) : list cstr := take size_alloc (split (entries_env_buf buffer_size v)).

Lemma store_entries_done size_alloc buffer_size v fuel : nul_free v -> Forall (fun e => e <> []) (stored size_alloc buffer_size v) ->
  (length v + 1 < fuel)%nat -> store_entries fuel size_alloc buffer_size (Some v) = Ret (stored size_alloc buffer_size v).
Proof.
  intros Hv Hne Hf. pose proof (entries_env_buf_nul_free buffer_size v Hv) as Hb. cbn [store_entries].
  assert (E : stored size_alloc buffer_size v = filled size_alloc (entries_env_buf buffer_size v) []) by (unfold filled; cbn; by rewrite Nat.sub_0_r).
  rewrite E in *. apply (loop_done (length (entries_env_buf buffer_size v))); [done| |done|cbn; lia|done].
  unfold entries_env_buf. destruct (_ <? _)%nat; [|lia]. destruct (strrchr _ _); cbn; rewrite ?length_take; lia.
Qed.

(** ** The list as it was exported *)

Definition plain_entry (e : cstr) : Prop := e <> [] /\ colon ∉ e /\ nul_free e.

(** The entries with a separator before each but the first. *)
Lemma append_entries acc l : acc <> [] -> foldl append_entry acc l = acc ++ mjoin ((fun e => colon :: e) <$> l).
Proof.
  revert acc. induction l as [|e l IH]; intros acc Hacc; [by rewrite app_nil_r|]. cbn [foldl]. unfold append_entry at 2.
  rewrite bool_decide_eq_false_2 by (by destruct acc). rewrite IH; [by rewrite <- app_assoc|]. by destruct acc.
Qed.

Lemma split_joined e l : Forall plain_entry (e :: l) -> split (foldl append_entry [] (e :: l)) = e :: l.
Proof.
  intros [(He & Hc & _) Hl]%Forall_cons.
  change (foldl append_entry [] (e :: l)) with (foldl append_entry e l). rewrite append_entries by done. clear He.
  revert e Hc. induction Hl as [|e' l (He' & Hc' & _) Hl IH]; intros e Hc; [by rewrite app_nil_r, split_plain|].
  assert (E : e ++ mjoin ((fun e => colon :: e) <$> e' :: l) = e ++ colon :: (e' ++ mjoin ((fun e => colon :: e) <$> l))) by done.
  rewrite E, split_at_colon, split_plain, IH by done. done.
Qed.

Lemma joined_nul_free acc l : nul_free acc -> Forall nul_free l -> nul_free (foldl append_entry acc l).
Proof.
  intros Ha Hl. revert acc Ha. induction Hl as [|e l He Hl IH]; intros acc Ha; [done|]. cbn. apply IH. unfold append_entry.
  case_bool_decide; rewrite !nul_free_app; [done|]. split; [done|]. split; [|done]. by apply (bool_decide_eq_true_1 _).
Qed.

(** What is trimmed are whole entries at the end. *)
Lemma trimmed_entries buffer_size v e t : split v = e :: t -> colon ∉ e -> (length e + 1 < buffer_size)%nat -> exists k, (0 < k)%nat /\
  split (entries_env_buf buffer_size v) = take k (split v) /\ ((length v < buffer_size)%nat -> k = length (split v)).
Proof.
  intros Hsplit He Hfit. unfold entries_env_buf. destruct (Nat.ltb_spec buffer_size (length v + 1)) as [Hlt|Hle].
  2:{ exists (length (split v)). rewrite Hsplit. cbn. rewrite firstn_all. split; [lia|done]. }
  pose proof (strrchr_spec (take (buffer_size - 1) v)) as H. destruct (strrchr _ _) as [k|].
  - destruct H as [r Hr]. set (buf := take (buffer_size - 1) v) in *.
    assert (Hv : v = take k buf ++ colon :: (r ++ drop (buffer_size - 1) v)).
    { rewrite <- (take_drop (buffer_size - 1) v) at 1. fold buf. rewrite Hr at 1. by rewrite <- app_assoc. }
    assert (Hsp : split v = split (take k buf) ++ split (r ++ drop (buffer_size - 1) v)) by (rewrite Hv at 1; apply split_at_colon).
    exists (length (split (take k buf))). rewrite Hsp, take_app_length. split; [|split; [done|lia]].
    destruct (split (take k buf)) eqn:E; [by apply split_nonempty in E|cbn; lia].
  - exfalso. destruct (split_cases v) as [[_ Hs]|(a & r & Hv & _ & Hs)]; rewrite Hsplit in Hs; injection Hs as -> _.
    + lia.
    + apply H. subst v. rewrite take_app_ge by lia. apply elem_of_app. right.
      destruct (buffer_size - 1 - length a)%nat eqn:En; [lia|]. left.
Qed.

(** ** The library *)

Definition no_sep (s : cstr) : Prop := Forall (fun c => is_sep c = false) s.

Lemma no_sep_colon s : no_sep s -> colon ∉ s.
Proof. unfold no_sep. rewrite Forall_forall. intros H Hin. by apply H in Hin. Qed.

Lemma strstr_extended l so k r : colon ∉ so -> strstr l so = Some k -> strstr (l ++ colon :: r) so = Some k.
Proof.
  intros Hc (Hp & Hk & Hl)%strstr_some. apply strstr_intro.
  - rewrite drop_app_le by done. apply is_prefix_app in Hp as [t ->]. apply is_prefix_app. exists (t ++ colon :: r). by rewrite app_assoc.
  - rewrite length_app. lia.
  - intros j Hj. rewrite drop_app_le by lia. apply not_true_is_false. intros H%is_prefix_before; [|done]. by rewrite (Hl j Hj) in H.
Qed.

Lemma search_back_start l r k : no_sep l -> (k <= length l)%nat -> search_back (l ++ r) k = 0%nat.
Proof.
  intros Hl. induction k as [|k IH]; [done|]. intros Hk. cbn.
  assert (E : is_sep (char_at (l ++ r) k) = false); [|rewrite E; apply IH; lia].
  unfold char_at. rewrite app_nth1 by lia. unfold no_sep in Hl. rewrite Forall_nth in Hl. by apply Hl.
Qed.

Lemma exported_form lib old : exists r, export_ld_preload lib old = lib ++ r /\ (r = [] \/ exists v, r = colon :: v).
Proof. destruct old as [v|]; cbn; [exists (colon :: v)|exists []; rewrite app_nil_r]; eauto. Qed.

Lemma fixup_of_exported lib old env : no_sep lib -> getenv_from env LD_PRELOAD = Some (export_ld_preload lib old) -> ld_preload_needs_fixup lib env = false.
Proof.
  intros Hsep. destruct (exported_form lib old) as (r & -> & Hr). unfold ld_preload_needs_fixup. intros ->.
  rewrite strstr_first. cbn. destruct Hr as [->|[v ->]].
  - rewrite app_nil_r. rewrite bool_decide_eq_true_2; [done|]. unfold char_at. by rewrite nth_overflow by lia.
  - rewrite nth_app_end. by rewrite orb_true_r.
Qed.

(** The interceptor finds the library as the supervisor named it, whatever was preloaded before. *)
Theorem library_as_exported dir so old sizeof : let lib := dir ++ so in
  no_sep lib -> strstr lib so = Some (length dir) -> (length lib < sizeof)%nat ->
  init_libfirebuild_so so (export_ld_preload lib old) sizeof = Ret lib.
Proof.
  intros lib Hsep Hfound Hsize. destruct (exported_form lib old) as (r & -> & Hr).
  assert (Hs : strstr (lib ++ r) so = Some (length dir)).
  { destruct Hr as [->|[v ->]]; [by rewrite app_nil_r|]. apply strstr_extended; [|done].
    pose proof (no_sep_colon _ Hsep) as Hc. unfold lib in Hc. rewrite elem_of_app in Hc. tauto. }
  unfold init_libfirebuild_so. rewrite Hs, search_back_start; [|done|unfold lib; rewrite length_app; lia].
  rewrite Nat.sub_0_r. unfold lib in *. rewrite length_app in Hsize. rewrite (proj2 (Nat.ltb_lt _ _)) by done.
  rewrite drop_0. rewrite <- length_app, take_app_length. done.
Qed.

(** ** Claims *)

(** C26. store_entries() returns exactly if none of the entries that it gets to is empty: the
    entries that fit into the buffer and the array.  Then it has stored these; otherwise it runs
    forever, whatever the fuel: an empty entry is never skipped. *)
Theorem store_entries_returns size_alloc buffer_size v : nul_free v ->
  let entries := take size_alloc (split (entries_env_buf buffer_size v)) in
  (Forall (fun e => e <> []) entries ->
     forall fuel, (length v + 1 < fuel)%nat -> store_entries fuel size_alloc buffer_size (Some v) = Ret entries) /\
  ([] ∈ entries -> forall fuel, store_entries fuel size_alloc buffer_size (Some v) = OutOfFuel).
Proof.
  intros Hv entries. split; [intros; by apply store_entries_done|]. intros Hin fuel.
  apply loop_hangs; [by apply entries_env_buf_nul_free|cbn; lia|]. unfold filled. cbn. by rewrite Nat.sub_0_r.
Qed.

Lemma store_entries_returns_witness :
  store_entries 20 32 4096 (Some (cs "/usr:/etc")) = Ret [cs "/usr"; cs "/etc"] /\
  (forall fuel, store_entries fuel 32 4096 (Some (cs "/usr::/etc")) = OutOfFuel) /\
  (forall fuel, store_entries fuel 32 8 (Some (cs "/a/long/path")) = OutOfFuel).
Proof.
  assert (Hn : forall s, bool_decide (NUL ∉ s) = true -> nul_free s) by (intros s; apply bool_decide_eq_true_1).
  split; [|split].
  - apply (proj1 (store_entries_returns 32 4096 (cs "/usr:/etc") (Hn (cs "/usr:/etc") eq_refl))); [repeat constructor; discriminate|vm_compute; lia].
  - apply (proj2 (store_entries_returns 32 4096 (cs "/usr::/etc") (Hn (cs "/usr::/etc") eq_refl))). apply (bool_decide_eq_true_1 _). vm_compute. reflexivity.
  - apply (proj2 (store_entries_returns 32 8 (cs "/a/long/path") (Hn (cs "/a/long/path") eq_refl))). apply (bool_decide_eq_true_1 _). vm_compute. reflexivity.
Defined.

(** C27. The locations that the supervisor exports arrive: for entries that are not empty and have
    no colons, of which the first one fits into the interceptor's buffer, store_entries() returns
    the sorted entries or an initial part of them, and all of them if the variable's value fits
    into the buffer and their number into the array. *)
Theorem locations_as_exported size_alloc buffer_size entries e t :
  sort_strings entries = e :: t -> Forall plain_entry entries -> (length e + 1 < buffer_size)%nat ->
  exists v k, export_sorted entries = Some v /\
    (forall fuel, (length v + 1 < fuel)%nat ->
       store_entries fuel size_alloc buffer_size (export_sorted entries) = Ret (take k (sort_strings entries))) /\
    ((length v < buffer_size)%nat -> (length entries <= size_alloc)%nat -> take k (sort_strings entries) = sort_strings entries).
Proof.
  intros Hs Hp Hfit. assert (Hperm : sort_strings entries ≡ₚ entries) by apply merge_sort_Permutation.
  rewrite <- Hperm, Hs in Hp. pose proof (Permutation_length Hperm) as Hlen. set (v := foldl append_entry [] (e :: t)).
  assert (Hexp : export_sorted entries = Some v).
  { unfold export_sorted. rewrite Hs. rewrite (proj2 (Nat.ltb_lt _ _)); [done|]. rewrite Hs in Hlen. cbn in Hlen. lia. }
  pose proof (split_joined e t Hp) as Hv. fold v in Hv.
  destruct (trimmed_entries buffer_size v e t Hv) as (k & Hk & Hsplit & Hall); [by apply Forall_inv in Hp as (_ & ? & _)|done|].
  exists v, (size_alloc `min` k)%nat. rewrite Hexp. split; [done|].
  assert (Hst : stored size_alloc buffer_size v = take (size_alloc `min` k) (e :: t)) by (unfold stored; by rewrite Hsplit, Hv, take_take).
  rewrite Hs. split.
  - intros fuel Hf. rewrite <- Hst. apply store_entries_done; [|rewrite Hst|done].
    + apply joined_nul_free; [apply not_elem_of_nil|]. eapply Forall_impl; [exact Hp|]. by intros ? (_ & _ & ?).
    + apply Forall_take. eapply Forall_impl; [exact Hp|]. by intros ? (? & _).
  - intros Hvl Hn. apply take_ge. rewrite (Hall Hvl), Hv. rewrite <- Hs at 1. rewrite Hlen. rewrite Hs in Hlen. lia.
Qed.

Lemma locations_as_exported_witness : exists v k, export_sorted [cs "/usr"; cs "/etc"; cs "/opt/x"] = Some v /\
  (forall fuel, (length v + 1 < fuel)%nat ->
     store_entries fuel 32 4096 (export_sorted [cs "/usr"; cs "/etc"; cs "/opt/x"]) = Ret (take k [cs "/etc"; cs "/opt/x"; cs "/usr"])) /\
  ((length v < 4096)%nat -> (3 <= 32)%nat -> take k [cs "/etc"; cs "/opt/x"; cs "/usr"] = [cs "/etc"; cs "/opt/x"; cs "/usr"]).
Proof.
  apply (locations_as_exported 32 4096 [cs "/usr"; cs "/etc"; cs "/opt/x"] (cs "/etc") [cs "/opt/x"; cs "/usr"]).
  - vm_compute. reflexivity.
  - repeat constructor; try discriminate; apply (bool_decide_eq_true_1 _); vm_compute; reflexivity.
  - apply Nat.ltb_lt. vm_compute. reflexivity.
Defined.

End Startup.
