(* ===== verification/FileActions.v ===== *)
(** The interceptor's record of posix_spawn file actions (src/interceptor/intercept.c) and the
    growing arrays it is made of (src/common/firebuild_common.c).  The program's objects are
    identified by their bytes only, which libc changes and which several objects may share. *)

From Stdlib Require Import ZArith Lia.
From stdpp Require Import base list option gmap.
From S2P Require Import Prelude.

(** * Growing arrays *)
Module PtrArray.
Section with_A.
Context {A : Type}.

(** A slot of an allocated array: not yet written, the null pointer, or a pointer. *)
Inductive slot := Fresh | Null | Ptr (a : A).

(** [voidp_array]: the allocated slots (none for the null pointer), [len] and [size_alloc]. *)
Record t := mk { p : list slot; len : nat; size_alloc : nat }.

Definition voidp_array_init : t := mk [] 0 0.

(** Writing outside of the allocated array is undefined. *)
Definition write (i : nat) (s : slot) (l : list slot) : outcome (list slot) :=
  if (i <? length l)%nat then Ret (<[i := s]> l) else Abort.

Definition grow (array : t) : t :=
  if (size_alloc array =? 0)%nat then mk (replicate 16 Fresh) (len array) 16
  else if (len array + 1 =? size_alloc array)%nat
       then mk (p array ++ replicate (size_alloc array) Fresh) (len array) (size_alloc array * 2)
       else array.

Definition voidp_array_append (array : t) (a : A) : outcome t :=
  let array := grow array in
  p1 ← write (len array) (Ptr a) (p array);
  p2 ← write (len array + 1) Null p1;
  Ret (mk p2 (len array + 1) (size_alloc array)).

(** [voidp_array_deep_free()] calls [fn_free] on these and frees the array. *)
Definition freed (array : t) : list slot := take (len array) (p array).

(** Reading the array up to its null pointer. *)
Fixpoint until_null (l : list slot) : option (list A) :=
  match l with
  | Ptr a :: l' => cons a <$> until_null l'
  | Null :: _ => Some []
  | _ => None
  end.

(** The array holds the elements [l]. *)
Record rep (array : t) (l : list A) : Prop := {
  rep_alloc : length (p array) = size_alloc array;
  rep_len : len array = length l;
  rep_slots : (size_alloc array = 0%nat /\ l = []) \/
              exists rest, p array = (Ptr <$> l) ++ Null :: rest
}.

Lemma init_rep : rep voidp_array_init [].
Proof. constructor; [done..|]. by left. Qed.

Lemma write_end l s rest x : write (length l) s (l ++ x :: rest) = Ret (l ++ s :: rest).
Proof.
  unfold write. rewrite (proj2 (Nat.ltb_lt _ _)) by (rewrite length_app; cbn; lia).
  replace (length l) with (length l + 0)%nat at 1 by lia. by rewrite insert_app_r.
Qed.

Lemma grow_rep array l : rep array l -> exists x y rest, p (grow array) = (Ptr <$> l) ++ x :: y :: rest /\
  length (p (grow array)) = size_alloc (grow array) /\ len (grow array) = length l.
Proof.
  intros [Ha Hl Hs]. unfold grow. destruct (Nat.eqb_spec (size_alloc array) 0) as [E|E].
  - assert (l = []) as ->.
    { destruct Hs as [[_ ?]|[rest Hp]]; [done|]. rewrite Hp, length_app in Ha. cbn in Ha. lia. }
    cbn. exists Fresh, Fresh, (replicate 14 Fresh). done.
  - destruct Hs as [[? _]|[rest Hp]]; [lia|]. rewrite Hp, length_app, length_fmap in Ha. cbn in Ha.
    destruct (Nat.eqb_spec (len array + 1) (size_alloc array)) as [E2|E2]; cbn.
    + assert (rest = []) as -> by (destruct rest; [done|cbn in Ha; lia]). rewrite Hp.
      destruct (size_alloc array) as [|n] eqn:En; [lia|]. exists Null, Fresh, (replicate n Fresh). rewrite <- app_assoc.
      split; [done|]. rewrite !length_app, length_fmap, length_replicate. cbn in *. lia.
    + destruct rest as [|y rest]; [cbn in Ha; lia|]. exists Null, y, rest. split; [done|]. rewrite Hp, length_app, length_fmap. cbn in *. lia.
Qed.

(** Appending never writes outside of the array, and the array holds one more element. *)
Lemma append_rep array l a : rep array l -> exists array', voidp_array_append array a = Ret array' /\ rep array' (l ++ [a]).
Proof.
  intros H. destruct (grow_rep array l H) as (x & y & rest & Hp & Ha & Hl). unfold voidp_array_append.
  assert (Hw : write (length l) (Ptr a) ((Ptr <$> l) ++ x :: y :: rest) = Ret ((Ptr <$> l) ++ Ptr a :: y :: rest))
    by (rewrite <- (write_end (Ptr <$> l) (Ptr a) (y :: rest) x); by rewrite length_fmap).
  rewrite Hl, Hp, Hw. cbn [mbind outcome_bind].
  assert (E : (Ptr <$> l) ++ Ptr a :: y :: rest = (Ptr <$> l ++ [a]) ++ y :: rest) by (rewrite fmap_app, <- app_assoc; done).
  assert (Hn : (length l + 1 = length (Ptr <$> l ++ [a]))%nat) by (rewrite length_fmap, length_app; done).
  rewrite E, Hn, write_end. cbn. eexists. split; [done|]. constructor; cbn.
  - rewrite <- Ha, Hp, !length_app, !length_fmap, length_app. cbn. lia.
  - by rewrite length_fmap.
  - right. by exists rest.
Qed.

Lemma rep_read array l : rep array l -> size_alloc array <> 0%nat -> until_null (p array) = Some l.
Proof.
  intros [_ _ [[E _]|[rest ->]]] Hne; [done|]. clear Hne. induction l as [|a l IH]; [done|]. cbn. by rewrite IH.
Qed.

Lemma rep_freed array l : rep array l -> freed array = Ptr <$> l.
Proof.
  intros [Ha Hl Hs]. unfold freed. rewrite Hl. destruct Hs as [[E ->]|[rest ->]]; [done|]. by rewrite <- (length_fmap Ptr l), take_app_length.
Qed.
End with_A.
Arguments slot : clear implicits.
Arguments t : clear implicits.
End PtrArray.

(** * File actions of posix_spawn() *)
Module FileActions.

(** The builders that are appended for each kind of action. *)
Inductive action :=
| posix_spawn_file_action_open (fd : Z) (pathname : cstr) (flags mode : Z)
| posix_spawn_file_action_close (fd : Z)
| posix_spawn_file_action_closefrom (lowfd : Z)
| posix_spawn_file_action_dup2 (oldfd newfd : Z)
| posix_spawn_file_action_chdir (pathname : cstr)
| posix_spawn_file_action_fchdir (fd : Z)
| posix_spawn_file_action_inherit (fd : Z).

(** The calls that add an action. *)
Inductive add_call :=
| addopen (fd : Z) (pathname : cstr) (flags mode : Z)
| addclose (fd : Z)
| addclosefrom_np (lowfd : Z)
| adddup2 (oldfd newfd : Z)
| addchdir_np (pathname : cstr)
| addfchdir_np (fd : Z)
| addinherit_np (fd : Z)
| addtcsetpgrp_np (fd : Z).

(** The bytes of a posix_spawn_file_actions_t. *)
Abbreviation handle := (list Z).

Record psfa := mkPsfa { h_bytes : handle; actions : PtrArray.t action }.

(** [psfas], [psfas_num] and [psfas_alloc]; a slot that was not written is [None]. *)
Record table := mkTable { psfas : list (option psfa); psfas_num : nat; psfas_alloc : nat }.

Definition init : table := mkTable [] 0 0.

Definition write (i : nat) (x : psfa) (l : list (option psfa)) : outcome (list (option psfa)) :=
  if (i <? length l)%nat then Ret (<[i := Some x]> l) else Abort.

(** The loops over the first [psfas_num] entries: the index of the first one with these bytes.
    Comparing an entry that was not written is undefined. *)
Fixpoint scan (fuel i : nat) (l : list (option psfa)) (bytes : handle) : outcome (option nat) :=
  match fuel with
  | O => Ret None
  | S fuel' =>
      match l !! i with
      | Some (Some x) => if bool_decide (h_bytes x = bytes) then Ret (Some i) else scan fuel' (S i) l bytes
      | _ => Abort
      end
  end.
Definition lookup_entry (t : table) (bytes : handle) : outcome (option nat) := scan (psfas_num t) 0 (psfas t) bytes.

Definition psfa_grow (t : table) : table :=
  if (psfas_alloc t =? 0)%nat then mkTable (replicate 4 None) (psfas_num t) 4
  else if (psfas_num t =? psfas_alloc t)%nat then mkTable (psfas t ++ replicate (psfas_alloc t) None) (psfas_num t) (psfas_alloc t * 2)
  else t.

Definition psfa_init (bytes : handle) (t : table) : outcome table :=
  let t := psfa_grow t in
  l ← write (psfas_num t) (mkPsfa bytes PtrArray.voidp_array_init) (psfas t);
  Ret (mkTable l (psfas_num t + 1) (psfas_alloc t)).

Definition psfa_destroy (bytes : handle) (t : table) : outcome table :=
  i ← lookup_entry t bytes;
  match i with
  | None => Ret t
  | Some i =>
      l ← (if (i <? psfas_num t - 1)%nat
           then match psfas t !! (psfas_num t - 1)%nat with
                | Some (Some last) => write i last (psfas t)
                | _ => Abort
                end
           else Ret (psfas t));
      Ret (mkTable l (psfas_num t - 1) (psfas_alloc t))
  end.

Definition psfa_update_actions (old_bytes new_bytes : handle) (t : table) : outcome table :=
  i ← lookup_entry t old_bytes;
  match i with
  | None => Abort
  | Some i =>
      if negb (bool_decide (old_bytes = new_bytes)) then
        match psfas t !! i with
        | Some (Some x) => l ← write i (mkPsfa new_bytes (actions x)) (psfas t); Ret (mkTable l (psfas_num t) (psfas_alloc t))
        | _ => Abort
        end
      else Ret t
  end.

(** [psfa_find()]: the array of the entry. *)
Definition psfa_find (t : table) (bytes : handle) : outcome (option (PtrArray.t action)) :=
  i ← lookup_entry t bytes;
  match i with
  | None => Ret None
  | Some i => match psfas t !! i with Some (Some x) => Ret (Some (actions x)) | _ => Abort end
  end.

Definition append_action (bytes : handle) (a : action) (t : table) : outcome table :=
  i ← lookup_entry t bytes;
  match i with
  | None => Abort
  | Some i =>
      match psfas t !! i with
      | Some (Some x) =>
          arr ← PtrArray.voidp_array_append (actions x) a;
          l ← write i (mkPsfa (h_bytes x) arr) (psfas t);
          Ret (mkTable l (psfas_num t) (psfas_alloc t))
      | _ => Abort
      end
  end.

(** [psfa_addopen()] and the like. *)
Definition psfa_add (bytes : handle) (c : add_call) (t : table) : outcome table :=
  match c with
  | addopen fd pathname flags mode => append_action bytes (posix_spawn_file_action_open fd pathname flags mode) t
  | addclose fd => append_action bytes (posix_spawn_file_action_close fd) t
  | addclosefrom_np lowfd => append_action bytes (posix_spawn_file_action_closefrom lowfd) t
  | adddup2 oldfd newfd => append_action bytes (posix_spawn_file_action_dup2 oldfd newfd) t
  | addchdir_np pathname => append_action bytes (posix_spawn_file_action_chdir pathname) t
  | addfchdir_np fd => append_action bytes (posix_spawn_file_action_fchdir fd) t
  | addinherit_np fd => append_action bytes (posix_spawn_file_action_inherit fd) t
  | addtcsetpgrp_np fd => Ret t
  end.

(** The bookkeeping after a successful call of the program (tpl_posix_spawn_file_actions.c): on
    an object whose bytes were [old] before and are [new] after it. *)
Definition after_add (old new : handle) (c : add_call) (t : table) : outcome table :=
  t ← psfa_update_actions old new t; psfa_add new c t.


(** ** The table as a list of entries *)

Abbreviation entry := (handle * list action)%type.
Definition holds (x : psfa) (e : entry) : Prop := h_bytes x = e.1 /\ PtrArray.rep (actions x) e.2.
Definition has_bytes (bytes : handle) (e : entry) : Prop := e.1 = bytes.
#[global] Instance has_bytes_dec bytes e : Decision (has_bytes bytes e).
Proof. unfold has_bytes. apply _. Defined.

Record trep (t : table) (es : list entry) : Prop := {
  trep_alloc : length (psfas t) = psfas_alloc t;
  trep_num : psfas_num t = length es;
  trep_slots : exists xs rest, psfas t = (Some <$> xs) ++ rest /\ Forall2 holds xs es
}.

Lemma init_trep : trep init [].
Proof. constructor; [done..|]. by exists [], []. Qed.

Lemma scan_find pre xs es rest bytes : Forall2 holds xs es ->
  scan (length es) (length pre) (pre ++ (Some <$> xs) ++ rest) bytes = Ret ((fun r => length pre + r.1)%nat <$> list_find (has_bytes bytes) es).
Proof.
  intros H. revert pre. induction H as [|x e xs es [Hb _] H IH]; intros pre; [done|]. cbn [length scan].
  replace (length pre) with (length pre + 0)%nat at 1 by lia. rewrite lookup_app_r by lia.
  replace (length pre + 0 - length pre)%nat with 0%nat by lia. cbn [fmap list_fmap app lookup list_lookup list_find].
  unfold has_bytes at 1. rewrite Hb. destruct (decide (e.1 = bytes)) as [E|E].
  - rewrite bool_decide_eq_true_2 by done. cbn. f_equal. f_equal. lia.
  - rewrite bool_decide_eq_false_2 by done. specialize (IH (pre ++ [Some x])). rewrite length_app, <- app_assoc in IH. cbn [length app] in IH.
    replace (S (length pre)) with (length pre + 1)%nat by lia. etrans; [exact IH|]. f_equal.
    destruct (list_find _ es) as [[i e']|]; cbn; [|done]. f_equal. lia.
Qed.

Lemma lookup_entry_find t es bytes : trep t es -> lookup_entry t bytes = Ret (fst <$> list_find (has_bytes bytes) es).
Proof. intros [_ Hn (xs & rest & Hp & H)]. unfold lookup_entry. rewrite Hn, Hp. apply (scan_find []). done. Qed.

(** The entry at an index. *)
Lemma trep_lookup t es i e : trep t es -> es !! i = Some e -> exists x, psfas t !! i = Some (Some x) /\ holds x e.
Proof.
  intros [_ _ (xs & rest & Hp & H)] Hi. destruct (Forall2_lookup_r _ _ _ _ _ H Hi) as (x & Hx & Hh). exists x. split; [|done].
  rewrite Hp, lookup_app_l by (rewrite length_fmap; by eapply lookup_lt_Some). by rewrite list_lookup_fmap, Hx.
Qed.

Lemma trep_write t es i x e n : trep t es -> (i < length es)%nat -> holds x e -> n = length es -> exists l,
  write i x (psfas t) = Ret l /\ trep (mkTable l n (psfas_alloc t)) (<[i := e]> es).
Proof.
  intros [Ha Hn (xs & rest & Hp & H)] Hi Hh ->. pose proof (Forall2_length _ _ _ H) as Hlen. unfold write.
  rewrite (proj2 (Nat.ltb_lt _ _)) by (rewrite Hp, length_app, length_fmap; lia). eexists. split; [done|]. constructor; cbn.
  - by rewrite length_insert.
  - by rewrite length_insert.
  - exists (<[i := x]> xs), rest. split; [|by apply Forall2_insert].
    rewrite Hp, insert_app_l by (rewrite length_fmap; lia). by rewrite list_fmap_insert.
Qed.

Lemma grow_trep t es : trep t es -> trep (psfa_grow t) es /\ (length es < length (psfas (psfa_grow t)))%nat.
Proof.
  intros [Ha Hn (xs & rest & Hp & H)]. pose proof (Forall2_length _ _ _ H) as Hlen.
  assert (Hle : (length es <= psfas_alloc t)%nat) by (rewrite <- Ha, Hp, length_app, length_fmap; lia). unfold psfa_grow.
  destruct (Nat.eqb_spec (psfas_alloc t) 0) as [E|E]; [|destruct (Nat.eqb_spec (psfas_num t) (psfas_alloc t)) as [E2|E2]]; cbn.
  - assert (es = []) as -> by (by apply nil_length_inv; lia). split; [|cbn; lia]. constructor; [done..|]. exists [], (replicate 4 None). split; [done|constructor].
  - split; [|rewrite length_app, length_replicate; lia]. constructor; cbn; [rewrite length_app, length_replicate; lia|done|].
    exists xs, (rest ++ replicate (psfas_alloc t) None). split; [by rewrite Hp, <- app_assoc|done].
  - split; [|lia]. constructor; [done..|]. by exists xs, rest.
Qed.

Lemma psfa_init_trep t es bytes : trep t es -> exists t', psfa_init bytes t = Ret t' /\ trep t' (es ++ [(bytes, [])]).
Proof.
  intros H. destruct (grow_trep t es H) as [[Ha Hn (xs & rest & Hp & Hf)] Hlt]. unfold psfa_init, write.
  pose proof (Forall2_length _ _ _ Hf) as Hlen. rewrite Hn, (proj2 (Nat.ltb_lt _ _)) by done. cbn [mbind outcome_bind]. eexists. split; [done|].
  rewrite Hp in Hlt |- *. rewrite length_app, length_fmap in Hlt. destruct rest as [|r rest]; [cbn in Hlt; lia|]. constructor; cbn.
  - rewrite length_insert, <- Ha, Hp. done.
  - rewrite length_app. done.
  - exists (xs ++ [mkPsfa bytes PtrArray.voidp_array_init]), rest. split.
    + rewrite insert_app_r_alt by (rewrite length_fmap; lia). rewrite length_fmap, Hlen, Nat.sub_diag, fmap_app, <- app_assoc. done.
    + apply Forall2_app; [done|]. constructor; [|constructor]. split; [done|apply PtrArray.init_rep].
Qed.

Lemma psfa_update_trep t es old new i e : trep t es -> list_find (has_bytes old) es = Some (i, e) ->
  exists t', psfa_update_actions old new t = Ret t' /\ trep t' (<[i := (new, e.2)]> es).
Proof.
  intros H Hf. pose proof (proj1 (list_find_Some _ _ _ _) Hf) as (Hi & He & _). unfold psfa_update_actions.
  rewrite (lookup_entry_find t es old H), Hf. cbn [mbind outcome_bind fmap option_fmap option_map fst].
  destruct (trep_lookup t es i e H Hi) as (x & Hx & Hh & Hr). case_bool_decide as E; cbn [negb].
  - exists t. split; [done|]. rewrite list_insert_id; [done|]. rewrite Hi. unfold has_bytes in He. destruct e as [b l]. cbn in *. congruence.
  - rewrite Hx. destruct (trep_write t es i (mkPsfa new (actions x)) (new, e.2) (psfas_num t) H) as (l & Hw & Ht); [by eapply lookup_lt_Some|done|apply H|].
    rewrite Hw. cbn. by eexists.
Qed.

Lemma append_action_trep t es bytes a i e : trep t es -> list_find (has_bytes bytes) es = Some (i, e) ->
  exists t', append_action bytes a t = Ret t' /\ trep t' (<[i := (e.1, e.2 ++ [a])]> es).
Proof.
  intros H Hf. pose proof (proj1 (list_find_Some _ _ _ _) Hf) as (Hi & He & _). unfold append_action.
  rewrite (lookup_entry_find t es bytes H), Hf. cbn [mbind outcome_bind fmap option_fmap option_map fst].
  destruct (trep_lookup t es i e H Hi) as (x & Hx & Hh & Hr). rewrite Hx.
  destruct (PtrArray.append_rep (actions x) e.2 a Hr) as (arr & Harr & Hr'). rewrite Harr. cbn [mbind outcome_bind].
  destruct (trep_write t es i (mkPsfa (h_bytes x) arr) (e.1, e.2 ++ [a]) (psfas_num t) H) as (l & Hw & Ht); [by eapply lookup_lt_Some|done|apply H|].
  rewrite Hw. cbn. by eexists.
Qed.

Lemma psfa_find_trep t es bytes i e : trep t es -> list_find (has_bytes bytes) es = Some (i, e) ->
  exists arr, psfa_find t bytes = Ret (Some arr) /\ PtrArray.rep arr e.2.
Proof.
  intros H Hf. pose proof (proj1 (list_find_Some _ _ _ _) Hf) as (Hi & _ & _). unfold psfa_find.
  rewrite (lookup_entry_find t es bytes H), Hf. cbn [mbind outcome_bind fmap option_fmap option_map fst].
  destruct (trep_lookup t es i e H Hi) as (x & Hx & _ & Hr). rewrite Hx. by eexists.
Qed.


Lemma insert_perm {A} (l : list A) i x : (i < length l)%nat -> <[i := x]> l ≡ₚ x :: delete i l.
Proof. intros H. rewrite insert_take_drop by done. rewrite delete_take_drop. by rewrite Permutation_middle. Qed.

(** The first entries of the table, as when the last one is dropped. *)
Lemma trep_shrink t es e : trep t (es ++ [e]) -> trep (mkTable (psfas t) (psfas_num t - 1) (psfas_alloc t)) es.
Proof.
  intros [Ha Hn (xs & rest & Hp & H)]. apply Forall2_app_inv_r in H as (xs1 & xs2 & H1 & _ & ->). constructor; cbn.
  - done.
  - rewrite Hn, length_app. cbn. lia.
  - exists xs1, ((Some <$> xs2) ++ rest). split; [by rewrite Hp, fmap_app, <- app_assoc|done].
Qed.

Lemma psfa_destroy_trep t es bytes i e : trep t es -> list_find (has_bytes bytes) es = Some (i, e) ->
  exists t' es', psfa_destroy bytes t = Ret t' /\ trep t' es' /\ es ≡ₚ e :: es'.
Proof.
  intros H Hf. pose proof (proj1 (list_find_Some _ _ _ _) Hf) as (Hi & _ & _). unfold psfa_destroy.
  rewrite (lookup_entry_find t es bytes H), Hf. cbn [mbind outcome_bind fmap option_fmap option_map fst].
  pose proof (lookup_lt_Some _ _ _ Hi) as Hlt. pose proof (trep_num t es H) as Hn. rewrite Hn.
  destruct es as [|last es _] using rev_ind; [cbn in Hlt; lia|]. rewrite length_app in *. cbn [length] in *.
  replace (length es + 1 - 1)%nat with (length es) by lia. destruct (Nat.ltb_spec i (length es)) as [Hl|Hl].
  - assert (Hlast : (es ++ [last]) !! length es = Some last) by (by rewrite lookup_app_r, Nat.sub_diag).
    destruct (trep_lookup t _ _ _ H Hlast) as (x & Hx & Hh). rewrite Hx.
    destruct (trep_write t _ i x last (psfas_num t) H) as (l & Hw & Ht); [rewrite length_app; cbn; lia|done|apply H|].
    rewrite Hw. cbn. rewrite insert_app_l in Ht by done. apply trep_shrink in Ht. cbn in Ht. rewrite Hn, Nat.add_sub in Ht.
    eexists _, _. split; [done|]. split; [done|]. rewrite lookup_app_l in Hi by done.
    rewrite (insert_perm es i last) by done. rewrite (delete_Permutation es i e) at 1 by done. cbn.
    by rewrite <- Permutation_cons_append.
  - assert (i = length es) as -> by lia. rewrite lookup_app_r, Nat.sub_diag in Hi by lia. injection Hi as ->.
    apply trep_shrink in H. rewrite Hn, Nat.add_sub in H. cbn. eexists _, _. split; [done|]. split; [done|]. symmetry. apply Permutation_cons_append.
Qed.

(** ** The program's objects *)

(** What the program has: for each object its bytes and the actions that were added to it. *)
Abbreviation objects := (gmap nat entry).

Definition action_of (c : add_call) : list action :=
  match c with
  | addopen fd pathname flags mode => [posix_spawn_file_action_open fd pathname flags mode]
  | addclose fd => [posix_spawn_file_action_close fd]
  | addclosefrom_np lowfd => [posix_spawn_file_action_closefrom lowfd]
  | adddup2 oldfd newfd => [posix_spawn_file_action_dup2 oldfd newfd]
  | addchdir_np pathname => [posix_spawn_file_action_chdir pathname]
  | addfchdir_np fd => [posix_spawn_file_action_fchdir fd]
  | addinherit_np fd => [posix_spawn_file_action_inherit fd]
  | addtcsetpgrp_np _ => []
  end.

(** Calls of the program with the bytes that libc leaves in the object. *)
Inductive call := Init (o : nat) (bytes : handle) | Add (o : nat) (bytes : handle) (c : add_call) | Destroy (o : nat).

(** What libc does: a fresh object may look like others that have no actions; an object that was
    added to looks like no other. *)
Definition libc (c : call) (m : objects) : option objects :=
  match c with
  | Init o bytes =>
      if decide (m !! o = None /\ map_Forall (fun _ e => e.1 = bytes -> e.2 = []) m) then Some (<[o := (bytes, [])]> m) else None
  | Add o bytes a =>
      match m !! o with
      | Some (_, l) => if decide (map_Forall (fun o' e => o' <> o -> e.1 <> bytes) m) then Some (<[o := (bytes, l ++ action_of a)]> m) else None
      | None => None
      end
  | Destroy o => match m !! o with Some _ => Some (delete o m) | None => None end
  end.

(** The bookkeeping for the call. *)
Definition bookkeeping (c : call) (m : objects) (t : table) : outcome table :=
  match c with
  | Init _ bytes => psfa_init bytes t
  | Add o bytes a => match m !! o with Some (old, _) => after_add old bytes a t | None => Abort end
  | Destroy o => match m !! o with Some (bytes, _) => psfa_destroy bytes t | None => Abort end
  end.

Fixpoint run (cs : list call) (m : objects) (t : table) : option (objects * outcome table) :=
  match cs with
  | [] => Some (m, Ret t)
  | c :: cs =>
      match libc c m with
      | None => None
      | Some m' => match bookkeeping c m t with Ret t' => run cs m' t' | o => Some (m', o) end
      end
  end.

Definition same_only_if_empty (m : objects) : Prop :=
  forall o o' e e', m !! o = Some e -> m !! o' = Some e' -> o <> o' -> e.1 = e'.1 -> e.2 = [] /\ e'.2 = [].

Record inv (m : objects) (t : table) : Prop := {
  inv_same : same_only_if_empty m;
  inv_rep : exists es, trep t es /\ es ≡ₚ (map_to_list m).*2
}.

(** The first entry with an object's bytes has its actions, even if it was made for another. *)
Lemma find_object m es o e : same_only_if_empty m -> es ≡ₚ (map_to_list m).*2 -> m !! o = Some e ->
  exists i, list_find (has_bytes e.1) es = Some (i, e).
Proof.
  intros Hs Hp Ho. assert (Hin : e ∈ es).
  { rewrite Hp. apply list_elem_of_fmap. exists (o, e). split; [done|]. by apply elem_of_map_to_list. }
  destruct (list_find_elem_of (has_bytes e.1) es e Hin eq_refl) as [[i e'] Hf]. exists i. rewrite Hf. do 2 f_equal.
  apply list_find_Some in Hf as (Hi & Hb & _). unfold has_bytes in Hb.
  apply list_elem_of_lookup_2 in Hi. rewrite Hp in Hi. apply list_elem_of_fmap in Hi as ([o' e''] & -> & Hm). apply elem_of_map_to_list in Hm.
  cbn in *. destruct (decide (o = o')) as [->|Hne]; [congruence|].
  destruct (Hs o o' e e'' Ho Hm Hne (eq_sym Hb)) as [E1 E2]. destruct e, e''. cbn in *. congruence.
Qed.

Lemma objects_insert (m : objects) o e : (map_to_list (<[o := e]> m)).*2 ≡ₚ e :: (map_to_list (delete o m)).*2.
Proof. rewrite <- insert_delete_eq. rewrite map_to_list_insert by apply lookup_delete_eq. done. Qed.

Lemma objects_delete (m : objects) o e : m !! o = Some e -> (map_to_list m).*2 ≡ₚ e :: (map_to_list (delete o m)).*2.
Proof. intros H. rewrite <- (map_to_list_delete m o e) by done. done. Qed.

(** Changing an entry of the table and the object. *)
Lemma change_object (m : objects) es o e i e' : es ≡ₚ (map_to_list m).*2 -> m !! o = Some e -> es !! i = Some e ->
  <[i := e']> es ≡ₚ (map_to_list (<[o := e']> m)).*2.
Proof.
  intros Hp Ho Hi. rewrite insert_perm by (by eapply lookup_lt_Some). rewrite objects_insert. constructor.
  rewrite (delete_Permutation es i e) in Hp by done. rewrite (objects_delete m o e) in Hp by done. by apply Permutation_cons_inv in Hp.
Qed.


Lemma init_call_inv m t bytes o : inv m t -> m !! o = None -> map_Forall (fun _ e => e.1 = bytes -> e.2 = []) m ->
  exists t', psfa_init bytes t = Ret t' /\ inv (<[o := (bytes, [])]> m) t'.
Proof.
  intros [Hs (es & Ht & Hp)] Ho Hf. destruct (psfa_init_trep t es bytes Ht) as (t' & E & Ht'). exists t'. split; [done|]. constructor.
  - intros o1 o2 e1 e2. rewrite !lookup_insert. destruct (decide (o = o1)), (decide (o = o2)); subst; try done; try (by apply Hs).
    + intros [= <-] H2 _ E1. split; [done|]. by apply (Hf o2).
    + intros H1 [= <-] _ E1. split; [by apply (Hf o1)|done].
  - exists (es ++ [(bytes, [])]). split; [done|]. rewrite map_to_list_insert by done. cbn. by rewrite Hp, <- Permutation_cons_append.
Qed.

Lemma change_same m o bytes l : same_only_if_empty m -> map_Forall (fun o' e => o' <> o -> e.1 <> bytes) m ->
  same_only_if_empty (<[o := (bytes, l)]> m).
Proof.
  intros Hs Hf o1 o2 e1 e2. rewrite !lookup_insert. destruct (decide (o = o1)), (decide (o = o2)); subst; try done; try (by apply Hs).
  - intros [= <-] H2 Hne E. cbn in E. by destruct (Hf o2 e2 H2).
  - intros H1 [= <-] Hne E. cbn in E. by destruct (Hf o1 e1 H1).
Qed.

(** An object of which libc changes the bytes and the program adds an action. *)
Lemma add_inv m t o old l bytes c : inv m t -> m !! o = Some (old, l) -> map_Forall (fun o' e => o' <> o -> e.1 <> bytes) m ->
  exists t', after_add old bytes c t = Ret t' /\ inv (<[o := (bytes, l ++ action_of c)]> m) t'.
Proof.
  intros [Hs (es & Ht & Hp)] Ho Hf. destruct (find_object m es o _ Hs Hp Ho) as [i Hi].
  pose proof (proj1 (list_find_Some _ _ _ _) Hi) as (Hl & _ & _).
  destruct (psfa_update_trep t es old bytes i (old, l) Ht Hi) as (t1 & E1 & Ht1). cbn in Ht1.
  pose proof (change_object m es o _ i (bytes, l) Hp Ho Hl) as Hp1.
  destruct (find_object (<[o := (bytes, l)]> m) _ o (bytes, l) (change_same m o bytes l Hs Hf) Hp1 (lookup_insert_eq _ _ _)) as [j Hj].
  pose proof (proj1 (list_find_Some _ _ _ _) Hj) as (Hlj & _ & _). unfold after_add. rewrite E1. cbn [mbind outcome_bind].
  assert (Ha : forall a, exists t', append_action bytes a t1 = Ret t' /\ inv (<[o := (bytes, l ++ [a])]> m) t').
  { intros a. destruct (append_action_trep t1 _ bytes a j _ Ht1 Hj) as (t2 & E2 & Ht2). exists t2. split; [done|].
    constructor; [by apply change_same|]. eexists. split; [exact Ht2|].
    rewrite (change_object _ _ o _ j (bytes, l ++ [a]) Hp1 (lookup_insert_eq _ _ _) Hlj). by rewrite insert_insert_eq. }
  destruct c; cbn [psfa_add action_of]; try apply Ha.
  rewrite app_nil_r. exists t1. split; [done|]. constructor; [by apply change_same|]. by eexists.
Qed.

Lemma destroy_inv m t o bytes l : inv m t -> m !! o = Some (bytes, l) -> exists t', psfa_destroy bytes t = Ret t' /\ inv (delete o m) t'.
Proof.
  intros [Hs (es & Ht & Hp)] Ho. destruct (find_object m es o _ Hs Hp Ho) as [i Hi].
  destruct (psfa_destroy_trep t es bytes i _ Ht Hi) as (t' & es' & E & Ht' & Hp'). exists t'. split; [done|]. constructor.
  - intros o1 o2 e1 e2. rewrite !lookup_delete. destruct (decide (o = o1)), (decide (o = o2)); try done. apply Hs.
  - exists es'. split; [done|]. rewrite Hp', (objects_delete m o _ Ho) in Hp. by apply Permutation_cons_inv in Hp.
Qed.

Lemma step_inv c m m' t : inv m t -> libc c m = Some m' -> exists t', bookkeeping c m t = Ret t' /\ inv m' t'.
Proof.
  intros I. destruct c as [o bytes|o bytes a|o]; cbn.
  - case_decide as H; [|done]. destruct H. intros [= <-]. by apply init_call_inv.
  - destruct (m !! o) as [[old l]|] eqn:Ho; [|done]. case_decide as H; [|done]. intros [= <-]. by apply add_inv.
  - destruct (m !! o) as [[bytes l]|] eqn:Ho; [|done]. intros [= <-]. by eapply destroy_inv.
Qed.

Lemma run_inv cs m t m' r : inv m t -> run cs m t = Some (m', r) -> exists t', r = Ret t' /\ inv m' t'.
Proof.
  revert m t. induction cs as [|c cs IH]; intros m t I; cbn; [intros [= <- <-]; by exists t|].
  destruct (libc c m) as [m1|] eqn:E; [|done]. destruct (step_inv c m m1 t I E) as (t1 & -> & I1). by apply IH.
Qed.

(** C23. The interceptor's table of posix_spawn file actions refines the map from the program's
    objects to the actions that were added to them: whatever sequence of calls the program makes,
    the bookkeeping never fails an assertion, never accesses an entry or a slot that was not
    written, and finds for each object that was initialized and not destroyed the array of exactly
    its actions in the order in which they were added, though objects are looked up by their bytes
    and fresh objects may have the same bytes. *)
Theorem file_actions_refine cs m r : run cs ∅ init = Some (m, r) ->
  exists t, r = Ret t /\
    forall o bytes l, m !! o = Some (bytes, l) ->
      exists arr, psfa_find t bytes = Ret (Some arr) /\ PtrArray.rep arr l /\ (l <> [] -> PtrArray.until_null (PtrArray.p arr) = Some l).
Proof.
  intros H. destruct (run_inv cs ∅ init m r) as (t & -> & [Hs (es & Ht & Hp)]); [|done|].
  { constructor; [intros ? ? ? ? He; by rewrite lookup_empty in He|]. exists []. split; [apply init_trep|]. by rewrite map_to_list_empty. }
  exists t. split; [done|]. intros o bytes l Ho. destruct (find_object m es o _ Hs Hp Ho) as [i Hi].
  destruct (psfa_find_trep t es bytes i _ Ht Hi) as (arr & E & Hr). exists arr. split; [done|]. split; [done|]. intros Hne.
  apply PtrArray.rep_read; [done|]. destruct Hr as [Hal _ [[_ ?]|[rest Hq]]]; [done|]. rewrite <- Hal, Hq, length_app. cbn. lia.
Qed.

(** Two objects that look alike when they are initialized; actions are added to the second one and
    then the first one is destroyed. *)
Definition example_calls : list call :=
  [Init 1 [0; 0]; Init 2 [0; 0]; Add 2 [1; 7] (addclose 3); Add 2 [2; 7] (adddup2 4 1); Destroy 1]%Z.

Lemma file_actions_refine_witness : exists m t arr, run example_calls ∅ init = Some (m, Ret t) /\
  psfa_find t [2; 7]%Z = Ret (Some arr) /\ PtrArray.rep arr [posix_spawn_file_action_close 3; posix_spawn_file_action_dup2 4 1]%Z.
Proof.
  destruct (run example_calls ∅ init) as [[m r]|] eqn:E; [|exfalso; vm_compute in E; discriminate E].
  destruct (file_actions_refine example_calls m r E) as (t & -> & H).
  assert (Ho : m !! 2%nat = Some ([2; 7], [posix_spawn_file_action_close 3; posix_spawn_file_action_dup2 4 1])%Z).
  { vm_compute in E. injection E as <- _. vm_compute. reflexivity. }
  destruct (H 2%nat _ _ Ho) as (arr & Hf & Hr & _). exists m, t, arr. split; [reflexivity|]. split; [exact Hf|exact Hr].
Defined.

End FileActions.
