(* ===== verification/IcFileOps.v ===== *)
(** File operations of the interceptor (src/interceptor/ic_file_ops.c): the open() flags that
    fopen() modes and popen() types stand for, and the states that tell which operations on a file
    descriptor are still to be reported. *)

From Stdlib Require Import ZArith Lia Ascii.
From stdpp Require Import base list strings.
From S2P Require Import Prelude.

Local Open Scope Z_scope.

Module IcFileOps.

(** ** Modes *)

(** The loop over the extensions. *)
Fixpoint mode_extensions (p : cstr) (flags : Z) : Z :=
  match p with
  | [] => flags
  | c :: p' =>
      if bool_decide (c = "e"%char) then mode_extensions p' (Z.lor flags O_CLOEXEC)
      else if bool_decide (c = "x"%char) then mode_extensions p' (Z.lor flags O_EXCL)
      else if bool_decide (c = ","%char) then flags
      else mode_extensions p' flags
  end.

(** The flags for the first character, without and with a plus sign after it. *)
Definition mode_flags (c : ascii) : option (Z * Z) :=
  if bool_decide (c = "r"%char) then Some (O_RDONLY, O_RDWR)
  else if bool_decide (c = "w"%char) then Some (Z.lor (Z.lor O_WRONLY O_CREAT) O_TRUNC, Z.lor (Z.lor O_RDWR O_CREAT) O_TRUNC)
  else if bool_decide (c = "a"%char) then Some (Z.lor (Z.lor O_WRONLY O_CREAT) O_APPEND, Z.lor (Z.lor O_RDWR O_CREAT) O_APPEND)
  else None.

(** [intercept_fopen_mode_to_open_flags_helper()]. *)
Definition intercept_fopen_mode_to_open_flags_helper (mode : option cstr) : Z :=
  match mode with
  | None => -1
  | Some p =>
      match mode_flags (char_at p 0) with
      | None => -1
      | Some (plain, plus) =>
          let p := drop 1 p in
          if negb (bool_decide (char_at p 0 = "+"%char)) then mode_extensions p plain else mode_extensions (drop 1 p) plus
      end
  end.

(** [popen_type_to_flags()]. *)
Definition popen_type_to_flags (type : option cstr) : Z :=
  foldl (fun type_flags c =>
    if bool_decide (c = "w"%char) then Z.lor type_flags O_WRONLY
    else if bool_decide (c = "r"%char) then Z.lor type_flags O_RDONLY
    else if bool_decide (c = "e"%char) then Z.lor type_flags O_CLOEXEC
    else type_flags) 0 (default [] type).

(** What fopen(3) documents: a plus sign anywhere in the mode asks for reading and writing, and the
    letters e and x for these flags; what follows a comma does not count. *)
Fixpoint before_comma (p : cstr) : cstr :=
  match p with [] => [] | c :: p' => if bool_decide (c = ","%char) then [] else c :: before_comma p' end.
Definition fopen_flags (mode : cstr) : option Z :=
  '(plain, plus) ← mode_flags (char_at mode 0);
  let opts := before_comma (drop 1 mode) in
  Some (Z.lor (if bool_decide ("+"%char ∈ opts) then plus else plain)
          (Z.lor (if bool_decide ("e"%char ∈ opts) then O_CLOEXEC else 0) (if bool_decide ("x"%char ∈ opts) then O_EXCL else 0))).

(** ** File descriptors *)

Record fd_state := mkFd {
  st_read : bool; st_pread : bool; st_write : bool; st_pwrite : bool; st_tell : bool; st_seek : bool
}.
Definition IC_FD_STATES_SIZE : Z := 4096.
Abbreviation states := (list fd_state).

Definition in_range (fd : Z) : bool := (0 <=? fd) && (fd <? IC_FD_STATES_SIZE).
Definition set_state (fd : Z) (s : fd_state) (l : states) : states := if in_range fd then <[Z.to_nat fd := s]> l else l.
Definition all_set (b : bool) : fd_state := mkFd b b b b b b.
Definition get (l : states) (fd : Z) : fd_state := nth (Z.to_nat fd) l (all_set false).

Definition clear_notify_on_read_write_state (fd : Z) (l : states) : states := set_state fd (all_set false) l.
Definition set_notify_on_read_write_state (fd : Z) (l : states) : states := set_state fd (all_set true) l.
Definition set_all_notify_on_read_write_states : states := replicate (Z.to_nat IC_FD_STATES_SIZE) (all_set true).
Definition copy_notify_on_read_write_state (to_fd from_fd : Z) (l : states) : states :=
  if in_range to_fd && in_range from_fd then <[Z.to_nat to_fd := get l from_fd]> l else l.
Definition set_notify_on_read_state (fd : Z) (is_pread : bool) (l : states) : states :=
  let s := get l fd in
  set_state fd (mkFd false (if is_pread then false else st_pread s) (st_write s) (st_pwrite s) (st_tell s) (st_seek s)) l.
Definition set_notify_on_write_state (fd : Z) (is_pwrite : bool) (l : states) : states :=
  let s := get l fd in
  set_state fd (mkFd (st_read s) (st_pread s) false (if is_pwrite then false else st_pwrite s) (st_tell s) (st_seek s)) l.
Definition notify_on_read (l : states) (fd : Z) (is_pread : bool) : bool :=
  negb (in_range fd) || (negb is_pread && st_read (get l fd)) || (is_pread && st_pread (get l fd)).
Definition notify_on_write (l : states) (fd : Z) (is_pwrite : bool) : bool :=
  negb (in_range fd) || (negb is_pwrite && st_write (get l fd)) || (is_pwrite && st_pwrite (get l fd)).


(** ** Theorems *)

Definition opt_flags (opts : cstr) : Z :=
  Z.lor (if bool_decide ("e"%char ∈ opts) then O_CLOEXEC else 0) (if bool_decide ("x"%char ∈ opts) then O_EXCL else 0).

Lemma mode_extensions_flags p flags : mode_extensions p flags = Z.lor flags (opt_flags (before_comma p)).
Proof.
  revert flags. induction p as [|c p IH]; intros flags; [by rewrite Z.lor_0_r|]. cbn [mode_extensions before_comma].
  assert (Hin : forall d, d <> c -> bool_decide (d ∈ c :: before_comma p) = bool_decide (d ∈ before_comma p)).
  { intros d Hd. apply bool_decide_ext. rewrite elem_of_cons. intuition congruence. }
  destruct (decide (c = "e"%char)) as [->|He].
  { change (bool_decide ("e"%char = "e"%char)) with true. change (bool_decide ("e"%char = ","%char)) with false. cbn iota. rewrite IH.
    unfold opt_flags. rewrite (Hin "x"%char), (bool_decide_eq_true_2 ("e"%char ∈ "e"%char :: before_comma p)) by (done || left).
    rewrite <- Z.lor_assoc. f_equal. by repeat case_bool_decide. }
  rewrite (bool_decide_eq_false_2 (c = "e"%char)) by done. destruct (decide (c = "x"%char)) as [->|Hx].
  { change (bool_decide ("x"%char = "x"%char)) with true. change (bool_decide ("x"%char = ","%char)) with false. cbn iota. rewrite IH.
    unfold opt_flags. rewrite (Hin "e"%char), (bool_decide_eq_true_2 ("x"%char ∈ "x"%char :: before_comma p)) by (done || left).
    rewrite <- Z.lor_assoc. f_equal. by repeat case_bool_decide. }
  rewrite (bool_decide_eq_false_2 (c = "x"%char)) by done. case_bool_decide as Hc; [by rewrite Z.lor_0_r|].
  rewrite IH. unfold opt_flags. by rewrite !Hin by congruence.
Qed.

(** The flags are those that fopen(3) documents for modes in which the plus sign, if there is one,
    follows the first letter. *)
Theorem fopen_flags_correct mode : "+"%char ∉ before_comma (drop 2 mode) ->
  intercept_fopen_mode_to_open_flags_helper (Some mode) = default (-1) (fopen_flags mode).
Proof.
  intros Hplus. unfold intercept_fopen_mode_to_open_flags_helper, fopen_flags. destruct (mode_flags (char_at mode 0)) as [[plain plus]|]; [|done].
  cbn. fold (opt_flags (before_comma (drop 1 mode))). destruct mode as [|c [|d mode]]; [cbn; by rewrite Z.lor_0_r..|].
  cbn [drop] in *. unfold char_at. cbn [nth]. case_bool_decide as Hd; cbn [negb].
  - subst d. cbn [before_comma]. rewrite (bool_decide_eq_false_2 ("+"%char = _)) by done.
    rewrite bool_decide_eq_true_2 by left. rewrite mode_extensions_flags. f_equal. unfold opt_flags.
    rewrite drop_0. assert (Hin : forall d, d <> "+"%char -> bool_decide (d ∈ "+"%char :: before_comma mode) = bool_decide (d ∈ before_comma mode))
      by (intros d Hd; apply bool_decide_ext; rewrite elem_of_cons; intuition congruence).
    by rewrite !Hin by done.
  - rewrite mode_extensions_flags. rewrite (bool_decide_eq_false_2 ("+"%char ∈ _)); [done|]. cbn.
    case_bool_decide; [by apply not_elem_of_nil|]. rewrite not_elem_of_cons. split; [congruence|done].
Qed.

(** For "rb+", which asks for reading and writing as well, they are those for reading only. *)
Theorem fopen_update_taken_for_read :
  intercept_fopen_mode_to_open_flags_helper (Some (cs "rb+")) = O_RDONLY /\ fopen_flags (cs "rb+") = Some O_RDWR /\
  intercept_fopen_mode_to_open_flags_helper (Some (cs "r+b")) = O_RDWR.
Proof. vm_compute. repeat split. Qed.

Lemma get_set_state fd fd' s l : length l = Z.to_nat IC_FD_STATES_SIZE -> in_range fd = true -> in_range fd' = true ->
  get (set_state fd s l) fd' = if bool_decide (fd' = fd) then s else get l fd'.
Proof.
  intros Hl Hr Hr'. unfold set_state, get. rewrite Hr. unfold in_range, IC_FD_STATES_SIZE in *. case_bool_decide as E.
  - subst. apply nth_lookup_Some. apply list_lookup_insert_eq. lia.
  - rewrite !nth_lookup. by rewrite list_lookup_insert_ne by lia.
Qed.

Lemma length_set_state fd s l : length (set_state fd s l) = length l.
Proof. unfold set_state. destruct (in_range fd); [apply length_insert|done]. Qed.

(** A read that was reported is not reported again, unless the descriptor's state is not kept; it
    does not hide a read of the stronger kind, writes, or operations on other descriptors; and the
    descriptor that is closed is reported again. *)
Theorem reads_reported_once fd is_pread l : length l = Z.to_nat IC_FD_STATES_SIZE ->
  let l' := set_notify_on_read_state fd is_pread l in
  length l' = length l /\
  notify_on_read l' fd is_pread = negb (in_range fd) /\
  (in_range fd = true -> notify_on_read l' fd false = false) /\
  (is_pread = false -> notify_on_read l' fd true = notify_on_read l fd true) /\
  (forall w, notify_on_write l' fd w = notify_on_write l fd w) /\
  (forall fd' r, fd' <> fd -> notify_on_read l' fd' r = notify_on_read l fd' r /\ notify_on_write l' fd' r = notify_on_write l fd' r) /\
  (forall r, notify_on_read (set_notify_on_read_write_state fd l') fd r = true).
Proof.
  intros Hl l'. unfold l', set_notify_on_read_state, set_notify_on_read_write_state, notify_on_read, notify_on_write.
  rewrite length_set_state. split; [done|]. destruct (in_range fd) eqn:Hr; cbn [negb orb].
  - rewrite !get_set_state, bool_decide_eq_true_2 by (rewrite ?length_set_state; done).
    split; [by destruct is_pread|]. split; [done|]. split; [by intros ->|]. split; [done|]. split; [|by intros []].
    intros fd' r Hne. destruct (in_range fd') eqn:Hr'; cbn; [|done]. by rewrite get_set_state, bool_decide_eq_false_2 by done.
  - unfold set_state. rewrite Hr. repeat split; done.
Qed.

End IcFileOps.
