(* ===== verification/Settings.v ===== *)
(** The environment in which the supervisor starts the build (get_sanitized_env() of
    src/firebuild/config.cc), the options that modify the configuration, and the environment that
    an intercepted process reports (fb_ic_init() of src/interceptor/intercept.c).  The configuration
    file is read by libconfig; its settings are the parameters here, and regular expressions are
    those of the C++ library. *)

From Stdlib Require Import ZArith Lia Ascii.
From stdpp Require Import base list strings option gmap sorting.
From S2P Require Import Prelude Paths Hashing IcEnv Startup.

Module Settings.
Import Paths IcEnv Startup.

(** ** Options *)

(** What an option does to a setting. *)
Inductive operation := Set_ | Append | Remove.
#[global] Instance operation_eq_dec : EqDecision operation.
Proof. solve_decision. Defined.

(** [while (name_end_pos > 0 && str[name_end_pos - 1] == ' ') name_end_pos--;] *)
Fixpoint trim_end (str : cstr) (name_end_pos : nat) : nat :=
  match name_end_pos with
  | O => O
  | S k => if bool_decide (char_at str k = " "%char) then trim_end str k else S k
  end.

(** The end of the name and the operator. *)
Definition operator_at (str : cstr) (eq_pos : nat) : nat * operation :=
  if (0 <? eq_pos)%nat then
    if bool_decide (char_at str (eq_pos - 1) = "+"%char) then (eq_pos - 1, Append)%nat
    else if bool_decide (char_at str (eq_pos - 1) = "-"%char) then (eq_pos - 1, Remove)%nat
    else (eq_pos, Set_)
  else (eq_pos, Set_).

(** The parsing of [modify_config()]: the operation, the name and the value, if there is an equals
    sign. *)
Definition parse_option (str : cstr) : option (operation * cstr * cstr) :=
  match strchr str equals with
  | None => None
  | Some eq_pos =>
      let '(name_end_pos, op) := operator_at str eq_pos in
      Some (op, take (trim_end str name_end_pos) str, drop (eq_pos + 1) str)
  end.

(** The loop that removes a value from an array of strings; [i] is decremented after a removal. *)
Fixpoint remove_loop (fuel i : nat) (x : cstr) (array : list cstr) : outcome (list cstr) :=
  match fuel with
  | O => OutOfFuel
  | S fuel' =>
      match array !! i with
      | None => Ret array
      | Some item => if bool_decide (item = x) then remove_loop fuel' i x (delete i array) else remove_loop fuel' (S i) x array
      end
  end.

(** ** The environment of the build *)

Abbreviation env_map := (gmap cstr cstr).

Definition LIBFIREBUILD_SO : cstr := cs "libfirebuild.so".
Definition FB_READ_ONLY_LOCATIONS : cstr := cs "FB_READ_ONLY_LOCATIONS".
Definition FB_IGNORE_LOCATIONS : cstr := cs "FB_IGNORE_LOCATIONS".

(** The regular expression ^[a-zA-Z_0-9]+$. *)
Definition is_word (c : ascii) : bool :=
  let n := byte_of c in
  ((97 <=? n) && (n <=? 122) || (65 <=? n) && (n <=? 90) || (48 <=? n) && (n <=? 57) || (n =? 95))%Z.
Definition exact_env_var (s : cstr) : bool := negb (bool_decide (s = [])) && forallb is_word s.

(** The settings of the configuration file; [None] where a setting is missing. *)
Record settings := mkSettings {
  pass_through : option (list cstr);
  preset : option (list cstr);
  read_only_locations : option (list cstr);
  ignore_locations : option (list cstr)
}.

(** [libfirebuild_so()] from the path of the running executable. *)
Definition libfirebuild_so (self_path : option cstr) : cstr :=
  match self_path with
  | None => LIBFIREBUILD_SO
  | Some p =>
      if is_prefix (reverse (cs "src/firebuild/firebuild")) (reverse p)
      then take (length p - length (cs "firebuild/firebuild")) p ++ cs "interceptor/" ++ LIBFIREBUILD_SO
      else LIBFIREBUILD_SO
  end.

Section build_env.
(** Matching of regular expressions by [std::regex_match()]. *)
Context (regex_match : cstr -> cstr -> bool).
Context (extra_debug : bool).

Definition combined_regex (regexps : list cstr) : cstr :=
  match regexps with
  | [] => []
  | r :: regexps => foldl (fun acc r => acc ++ cs "|(^" ++ r ++ cs "$)") (cs "(^" ++ r ++ cs "$)") regexps
  end.

(** [add_pass_through_regex_matched_env_vars()]. *)
Definition add_matched (environ : environ) (regexps : list cstr) (env : env_map) : env_map :=
  if (length regexps <? 1)%nat then env
  else
    foldl (fun env e =>
      match strchr e equals with
      | Some name_end =>
          let name := take name_end e in
          if regex_match (combined_regex regexps) name then
            match env !! name with None => <[name := drop (name_end + 1) e]> env | Some _ => env end
          else env
      | None => env
      end) env environ.

(** The loop over the variables to pass through, and the regular expressions among them. *)
Definition add_exact (environ : environ) (acc : env_map * list cstr) (pass_through_env : cstr) : env_map * list cstr :=
  let '(env, regexps) := acc in
  if exact_env_var pass_through_env then
    (match getenv_from environ pass_through_env with Some v => <[pass_through_env := v]> env | None => env end, regexps)
  else (env, regexps ++ [pass_through_env]).

Definition add_pass_through (environ : environ) (l : option (list cstr)) (env : env_map) : env_map :=
  match l with
  | None => env
  | Some l =>
      let '(env, regexps) := foldl (add_exact environ) (env, []) l in
      if (0 <? length regexps)%nat then add_matched environ regexps env else env
  end.

(** The loop over the preset variables; one without an equals sign aborts. *)
Fixpoint add_presets (l : list cstr) (env : env_map) : outcome env_map :=
  match l with
  | [] => Ret env
  | str :: l' =>
      match strchr str equals with
      | None => Abort
      | Some eq_pos => add_presets l' (<[take eq_pos str := drop (eq_pos + 1) str]> env)
      end
  end.

Definition add_locations (name : cstr) (l : option (list cstr)) (env : env_map) : env_map :=
  match l ≫= export_sorted with Some v => <[name := v]> env | None => env end.

(** The order of the map. *)
Definition key_le (a b : cstr * cstr) : Prop := str_le a.1 b.1.
#[global] Instance key_le_dec : RelDecision key_le.
Proof. intros a b. apply str_le_dec. Defined.
Definition env_strings (env : env_map) : environ := (fun kv => var kv.1 kv.2) <$> merge_sort key_le (map_to_list env).

Definition own_variables (lib fb_conn_string : cstr) (insert_trace_markers : bool) (environ : environ) (env : env_map) : env_map :=
  let env := <[LD_PRELOAD := export_ld_preload lib (getenv_from environ LD_PRELOAD)]> env in
  let env := <[FB_SOCKET := fb_conn_string]> env in
  if extra_debug && insert_trace_markers then <[FB_INSERT_TRACE_MARKERS := cs "1"]> env else env.

(** [get_sanitized_env()]. *)
Definition get_sanitized_env (cfg : settings) (environ : environ) (self_path : option cstr) (fb_conn_string : cstr) (insert_trace_markers : bool) : outcome (list cstr) :=
  let env := add_pass_through environ (pass_through cfg) ∅ in
  env ← add_presets (default [] (preset cfg)) env;
  let env := add_locations FB_READ_ONLY_LOCATIONS (read_only_locations cfg) env in
  let env := add_locations FB_IGNORE_LOCATIONS (ignore_locations cfg) env in
  Ret (env_strings (own_variables (libfirebuild_so self_path) fb_conn_string insert_trace_markers environ env)).
End build_env.

(** ** The environment that is reported *)

(** The variables that a process reports when it starts. *)
Definition reported_env (env : environ) : environ :=
  sort_strings (filter (fun e => negb (begins_with e (FB_SOCKET ++ cs "=")) && negb (begins_with e (FB_READ_ONLY_LOCATIONS ++ cs "="))
                                 && negb (begins_with e (FB_IGNORE_LOCATIONS ++ cs "=")) = true) env).


(** ** Options as they are written *)

Definition op_text (op : operation) : cstr := match op with Set_ => [] | Append => cs "+" | Remove => cs "-" end.

(** A name that an option can be about: with no equals sign, and not ending in a character that is
    taken for a part of the operator. *)
Definition option_name (name : cstr) : Prop :=
  equals ∉ name /\ forall n c, name = n ++ [c] -> c <> " "%char /\ c <> "+"%char /\ c <> "-"%char.

Lemma strchr_first a r : equals ∉ a -> strchr (a ++ equals :: r) equals = Some (length a).
Proof.
  intros Ha. induction a as [|c a IH]; [done|]. apply not_elem_of_cons in Ha as [Hc Ha]. cbn. rewrite bool_decide_eq_false_2 by auto. by rewrite IH.
Qed.

Lemma replicate_shift k r : " "%char :: replicate k " "%char ++ r = replicate k " "%char ++ " "%char :: r.
Proof. induction k as [|k IH]; [done|]. cbn. by rewrite IH. Qed.

Lemma trim_end_app name spaces r : (forall n c, name = n ++ [c] -> c <> " "%char) ->
  trim_end (name ++ replicate spaces " "%char ++ r) (length name + spaces) = length name.
Proof.
  intros Hn. revert r. induction spaces as [|k IH]; intros r; cbn [replicate app].
  - rewrite Nat.add_0_r. destruct name as [|c n _] using rev_ind; [done|]. rewrite length_app, Nat.add_comm. cbn.
    rewrite <- app_assoc. change ([c] ++ r) with (c :: r). rewrite nth_app_end. rewrite bool_decide_eq_false_2; [done|]. by apply (Hn n).
  - rewrite Nat.add_succ_r, replicate_shift. cbn [trim_end].
    assert (Hc : char_at (name ++ replicate k " "%char ++ " "%char :: r) (length name + k) = " "%char).
    { rewrite app_assoc. replace (length name + k)%nat with (length (name ++ replicate k " "%char)) by (rewrite length_app, length_replicate; done).
      apply nth_app_end. }
    rewrite bool_decide_eq_true_2 by exact Hc. apply IH.
Qed.

Lemma operator_at_op op body r : op <> Set_ -> operator_at (body ++ op_text op ++ r) (length body + 1) = (length body, op).
Proof.
  intros Hop. unfold operator_at. rewrite (proj2 (Nat.ltb_lt _ _)) by lia. rewrite Nat.add_sub.
  destruct op; [done| |]; cbn [op_text cs String.list_ascii_of_string app]; rewrite nth_app_end; done.
Qed.

Lemma operator_at_set name spaces r : option_name name ->
  operator_at ((name ++ replicate spaces " "%char) ++ r) (length (name ++ replicate spaces " "%char)) = (length (name ++ replicate spaces " "%char), Set_).
Proof.
  intros [_ Hend]. unfold operator_at. set (body := name ++ replicate spaces " "%char).
  assert (Hlast : body = [] \/ exists b c, body = b ++ [c] /\ c <> "+"%char /\ c <> "-"%char).
  { unfold body. destruct spaces as [|k].
    - rewrite app_nil_r. destruct name as [|c n _] using rev_ind; [by left|]. right. exists n, c. split; [done|]. by apply (Hend n c).
    - right. exists (name ++ replicate k " "%char), " "%char. split; [|done]. rewrite <- app_assoc. f_equal.
      rewrite <- replicate_cons_app. done. }
  destruct Hlast as [->|(b & c & -> & H1 & H2)]; [done|]. rewrite (proj2 (Nat.ltb_lt _ _)) by (rewrite length_app; cbn; lia).
  replace (length (b ++ [c]) - 1)%nat with (length b) by (rewrite length_app; cbn; lia). rewrite <- app_assoc. cbn [app].
  rewrite nth_app_end. by rewrite !bool_decide_eq_false_2 by done.
Qed.

(** An option is parsed as it was written. *)
Theorem option_parsed op name spaces value : option_name name ->
  parse_option (name ++ replicate spaces " "%char ++ op_text op ++ equals :: value) = Some (op, name, value).
Proof.
  intros Hname. pose proof Hname as [Heq Hend]. set (body := name ++ replicate spaces " "%char).
  assert (Hbody : equals ∉ body).
  { unfold body. rewrite elem_of_app. intros [?|H]; [done|]. apply elem_of_replicate in H as [H _]. done. }
  assert (Hpre : equals ∉ body ++ op_text op).
  { rewrite elem_of_app. intros [?|H]; [done|]. revert H. by destruct op; apply (bool_decide_eq_true_1 (_ ∉ _)). }
  assert (E : name ++ replicate spaces " "%char ++ op_text op ++ equals :: value = (body ++ op_text op) ++ equals :: value)
    by (unfold body; by rewrite <- !app_assoc).
  unfold parse_option. rewrite E, strchr_first by done.
  assert (Hop : operator_at ((body ++ op_text op) ++ equals :: value) (length (body ++ op_text op)) = (length body, op)).
  { rewrite <- app_assoc. destruct (decide (op = Set_)) as [->|Hne].
    - cbn [op_text app]. rewrite app_nil_r. apply operator_at_set. done.
    - rewrite <- (operator_at_op op body (equals :: value) Hne). f_equal. rewrite length_app. by destruct op. }
  rewrite Hop, drop_app_add. cbn [drop].
  assert (Ht : trim_end ((body ++ op_text op) ++ equals :: value) (length body) = length name).
  { unfold body. rewrite <- !app_assoc, length_app, length_replicate. apply trim_end_app. intros n c Hn. by apply (Hend n). }
  rewrite Ht. unfold body. rewrite <- !app_assoc, take_app_length. done.
Qed.

(** Removing a value from an array. *)
Lemma remove_loop_filter fuel pre post x : Forall (fun y => y <> x) pre -> (length post < fuel)%nat ->
  remove_loop fuel (length pre) x (pre ++ post) = Ret (pre ++ filter (fun y => y <> x) post).
Proof.
  revert pre post. induction fuel as [|fuel IH]; intros pre post Hpre Hf; [lia|]. cbn [remove_loop]. destruct post as [|y post].
  - rewrite lookup_ge_None_2 by (rewrite app_nil_r; done). done.
  - rewrite lookup_app_r, Nat.sub_diag by lia. cbn [lookup list_lookup]. rewrite filter_cons. cbn in Hf. case_bool_decide as E.
    + rewrite decide_False by auto. rewrite delete_middle. apply IH; [done|lia].
    + rewrite decide_True by auto. rewrite cons_middle, app_assoc. replace (S (length pre)) with (length (pre ++ [y])) by (rewrite length_app; cbn; lia).
      rewrite IH by first [lia|by apply Forall_app; split; [|constructor]]. by rewrite <- app_assoc.
Qed.

Theorem remove_loop_removes fuel x array : (length array < fuel)%nat -> remove_loop fuel 0 x array = Ret (filter (fun y => y <> x) array).
Proof. apply (remove_loop_filter fuel []). constructor. Qed.


(** ** Variables as a map *)

Definition plain_keys (env : env_map) : Prop := forall k v, env !! k = Some v -> equals ∉ k.

Lemma plain_insert k v env : equals ∉ k -> plain_keys env -> plain_keys (<[k := v]> env).
Proof. intros Hk H k' v'. rewrite lookup_insert. case_decide; [by subst|apply H]. Qed.

Lemma plain_empty : plain_keys ∅.
Proof. intros k v. by rewrite lookup_empty. Qed.

(** An entry with a name. *)
Lemma strchr_var e : match strchr e equals with
  | Some k => e = var (take k e) (drop (k + 1) e) /\ equals ∉ take k e
  | None => forall n v, e <> var n v
  end.
Proof.
  pose proof (strchr_spec e equals) as H. destruct (strchr e equals) as [k|].
  - destruct H as (a & r & -> & -> & Ha). rewrite take_app_length, drop_app_add. done.
  - intros n v ->. apply H. unfold var. apply elem_of_app. right. left.
Qed.

Lemma getenv_one_name n name v : equals ∉ n -> equals ∉ name -> getenv_from [var name v] n = if decide (n = name) then Some v else None.
Proof.
  intros Hn Hm. destruct (getenv_from [var name v] n) as [w|] eqn:E.
  - apply getenv_one in E. pose proof (var_name_inj _ _ _ _ Hm Hn E) as ->. rewrite decide_True by done. by apply var_inj in E as ->.
  - case_decide as D; [|done]. subst. assert (getenv_from [var name v] name = Some v) by (by apply getenv_one). congruence.
Qed.

Lemma elem_env_strings env e : e ∈ env_strings env <-> exists k v, env !! k = Some v /\ e = var k v.
Proof.
  unfold env_strings. rewrite list_elem_of_fmap. setoid_rewrite merge_sort_Permutation. split.
  - intros ([k v] & -> & H). exists k, v. split; [|done]. by apply elem_of_map_to_list.
  - intros (k & v & H & ->). exists (k, v). split; [done|]. by apply elem_of_map_to_list.
Qed.

Lemma getenv_strings env n : plain_keys env -> equals ∉ n -> getenv_from (env_strings env) n = env !! n.
Proof.
  intros Hp Hn. assert (Hin : forall v, var n v ∈ env_strings env <-> env !! n = Some v).
  { intros v. rewrite elem_env_strings. split; [|by exists n, v]. intros (k & w & Hk & E). pose proof (Hp k w Hk) as Hkk.
    pose proof (var_name_inj _ _ _ _ Hn Hkk E) as ->. apply var_inj in E as ->. done. }
  apply option_eq. intros v. rewrite getenv_in by (intros ? ? H1%Hin H2%Hin; congruence). apply Hin.
Qed.

Section build_proofs.
Context (regex_match : cstr -> cstr -> bool).

(** Which variables of the environment are passed through. *)
Definition passes (l : list cstr) (n : cstr) : bool :=
  let regexps := filter (fun r => exact_env_var r = false) l in
  (exact_env_var n && bool_decide (n ∈ l)) || (negb (bool_decide (regexps = [])) && regex_match (combined_regex regexps) n).
Definition passed (environ : list cstr) (l : option (list cstr)) (n : cstr) : option cstr :=
  if passes (default [] l) n then getenv_from environ n else None.

Lemma add_matched_lookup environ regexps env n : equals ∉ n -> plain_keys env ->
  let env' := add_matched regex_match environ regexps env in
  plain_keys env' /\
  env' !! n = match env !! n with
              | Some v => Some v
              | None => if negb (bool_decide (regexps = [])) && regex_match (combined_regex regexps) n then getenv_from environ n else None
              end.
Proof.
  intros Hn Hp. unfold add_matched. destruct regexps as [|r0 rs]; [split; [done|]; rewrite (bool_decide_eq_true_2 ([] = [])) by done; cbn; by destruct (env !! n)|].
  rewrite (bool_decide_eq_false_2 (r0 :: rs = [])) by done. cbn [length Nat.ltb Nat.leb negb andb].
  generalize (combined_regex (r0 :: rs)) as rx. intros rx. revert env Hp. induction environ as [|e environ IH]; intros env Hp.
  { cbn. split; [done|]. destruct (env !! n); [done|]. by destruct (regex_match rx n). }
  cbn [foldl]. rewrite (getenv_cons n e environ). pose proof (strchr_var e) as He. destruct (strchr e equals) as [k|].
  - destruct He as [He Hk]. set (name := take k e) in *.
    assert (Hg : getenv_from [e] n = if decide (n = name) then Some (drop (k + 1) e) else None) by (rewrite He at 1; by apply getenv_one_name).
    rewrite Hg.
    destruct (regex_match rx name) eqn:Er.
    + destruct (env !! name) as [w|] eqn:Ew.
      * destruct (IH env Hp) as [H1 H2]. split; [done|]. rewrite H2. destruct (decide (n = name)) as [->|]; [by rewrite Ew|done].
      * destruct (IH (<[name := drop (k + 1) e]> env) (plain_insert _ _ _ Hk Hp)) as [H1 H2]. split; [done|]. rewrite H2, lookup_insert.
        destruct (decide (n = name)) as [->|Hne]; [by rewrite decide_True, Ew, Er|]. rewrite decide_False by congruence. done.
    + destruct (IH env Hp) as [H1 H2]. split; [done|]. rewrite H2. destruct (decide (n = name)) as [->|]; [by rewrite Er|done].
  - destruct (IH env Hp) as [H1 H2]. split; [done|]. rewrite H2. destruct (getenv_from [e] n) as [v|] eqn:Ev; [|done].
    apply getenv_one in Ev. by destruct (He n v).
Qed.

Lemma exact_plain n : exact_env_var n = true -> equals ∉ n.
Proof.
  unfold exact_env_var. rewrite andb_true_iff, forallb_forall. intros [_ H] Hin. apply list_elem_of_In, H in Hin. vm_compute in Hin. done.
Qed.

Lemma add_exact_fold environ l env regexps : plain_keys env ->
  let r := foldl (add_exact environ) (env, regexps) l in
  plain_keys r.1 /\ r.2 = regexps ++ filter (fun x => exact_env_var x = false) l /\
  forall n, r.1 !! n = if exact_env_var n && bool_decide (n ∈ l) then match getenv_from environ n with Some v => Some v | None => env !! n end else env !! n.
Proof.
  revert env regexps. induction l as [|x l IH]; intros env regexps Hp.
  { cbn. split; [done|]. split; [by rewrite app_nil_r|]. intros n. rewrite bool_decide_eq_false_2 by apply not_elem_of_nil. by rewrite andb_false_r. }
  cbn [foldl add_exact]. destruct (exact_env_var x) eqn:Ex.
  - set (env' := match getenv_from environ x with Some v => <[x := v]> env | None => env end).
    assert (Hp' : plain_keys env') by (unfold env'; destruct (getenv_from environ x); [apply plain_insert; [by apply exact_plain|done]|done]).
    destruct (IH env' regexps Hp') as (H1 & H2 & H3). split; [done|]. rewrite filter_cons, decide_False by congruence. split; [done|].
    intros n. rewrite H3. destruct (decide (n = x)) as [->|Hne].
    + rewrite Ex, (bool_decide_eq_true_2 (x ∈ x :: l)) by left. cbn [andb]. unfold env'.
      destruct (getenv_from environ x) as [v|]; [rewrite lookup_insert_eq; by destruct (bool_decide _)|by destruct (bool_decide _)].
    + assert (E : env' !! n = env !! n) by (unfold env'; destruct (getenv_from environ x); [by rewrite lookup_insert_ne|done]).
      rewrite E. rewrite (bool_decide_ext (n ∈ x :: l) (n ∈ l)); [done|]. rewrite elem_of_cons. intuition congruence.
  - destruct (IH env (regexps ++ [x]) Hp) as (H1 & H2 & H3). split; [done|]. rewrite filter_cons, decide_True by done.
    split; [by rewrite H2, <- app_assoc|]. intros n. rewrite H3. destruct (exact_env_var n) eqn:En; [|done]. cbn [andb].
    rewrite (bool_decide_ext (n ∈ x :: l) (n ∈ l)); [done|]. rewrite elem_of_cons. intuition congruence.
Qed.

Lemma add_pass_through_lookup environ l n : equals ∉ n ->
  let env := add_pass_through regex_match environ l ∅ in plain_keys env /\ env !! n = passed environ l n.
Proof.
  intros Hn. unfold add_pass_through, passed, passes. destruct l as [l|]; cbn [default from_option]; unfold id.
  2:{ split; [apply plain_empty|]. cbn. rewrite bool_decide_eq_false_2 by apply not_elem_of_nil. rewrite andb_false_r. cbn. by rewrite lookup_empty. }
  pose proof plain_empty as H0.
  destruct (add_exact_fold environ l ∅ [] H0) as (H1 & H2 & H3). destruct (foldl _ _ _) as [env regexps]. cbn in H1, H2, H3. subst regexps.
  set (rs := filter (fun x => exact_env_var x = false) l).
  assert (E : (if (0 <? length rs)%nat then add_matched regex_match environ rs env else env) = add_matched regex_match environ rs env) by (by destruct rs).
  rewrite E. destruct (add_matched_lookup environ rs env n Hn H1) as [H4 H5]. split; [done|]. rewrite H5, H3, lookup_empty.
  destruct (exact_env_var n && bool_decide (n ∈ l)); cbn [orb]; [|done]. destruct (getenv_from environ n); [done|]. by destruct (_ && _).
Qed.
End build_proofs.


(** The value that the presets give to a variable: the last one counts. *)
Fixpoint preset_value (l : list cstr) (n : cstr) : option cstr :=
  match l with
  | [] => None
  | str :: l' => match preset_value l' n with Some v => Some v | None => getenv_from [str] n end
  end.

Lemma add_presets_lookup l env : plain_keys env ->
  match add_presets l env with
  | Ret env' => plain_keys env' /\ Forall (fun str => equals ∈ str) l /\
      forall n, equals ∉ n -> env' !! n = match preset_value l n with Some v => Some v | None => env !! n end
  | Abort => Exists (fun str => equals ∉ str) l
  | OutOfFuel => False
  end.
Proof.
  revert env. induction l as [|str l IH]; intros env Hp; [cbn; by repeat split|]. cbn [add_presets preset_value].
  pose proof (strchr_var str) as Hs. pose proof (strchr_spec str equals) as Hc. destruct (strchr str equals) as [k|]; [|by left].
  destruct Hs as [Hs Hk]. specialize (IH (<[take k str := drop (k + 1) str]> env) (plain_insert _ _ _ Hk Hp)).
  destruct (add_presets l _) as [env'| |]; [|by right|done]. destruct IH as (H1 & H2 & H3). split; [done|]. split.
  - constructor; [|done]. destruct Hc as (a & r & -> & _). apply elem_of_app. right. left.
  - intros n Hn. rewrite H3 by done. destruct (preset_value l n); [done|]. rewrite lookup_insert.
    assert (Hg : getenv_from [str] n = if decide (n = take k str) then Some (drop (k + 1) str) else None) by (rewrite Hs at 1; by apply getenv_one_name).
    rewrite Hg. destruct (decide (n = take k str)) as [->|Hne]; [by rewrite decide_True|]. by rewrite decide_False by congruence.
Qed.

Lemma add_locations_plain name l env : equals ∉ name -> plain_keys env -> plain_keys (add_locations name l env).
Proof. intros Hn Hp. unfold add_locations. destruct (l ≫= export_sorted); [by apply plain_insert|done]. Qed.

Lemma add_locations_lookup name l env n :
  add_locations name l env !! n = if decide (n = name) then match l ≫= export_sorted with Some v => Some v | None => env !! n end else env !! n.
Proof.
  unfold add_locations. destruct (l ≫= export_sorted) as [v|]; [|by case_decide]. rewrite lookup_insert.
  destruct (decide (n = name)) as [->|]; [by rewrite decide_True|]. by rewrite decide_False by congruence.
Qed.

Lemma location_names_plain : equals ∉ FB_READ_ONLY_LOCATIONS /\ equals ∉ FB_IGNORE_LOCATIONS.
Proof. split; by apply (bool_decide_eq_true_1 _). Qed.

(** The map from which the strings are made. *)
Definition final_env (extra_debug : bool) (cfg : settings) (environ : list cstr) (lib fb_conn_string : cstr) (insert_trace_markers : bool) (env : env_map) : env_map :=
  own_variables extra_debug lib fb_conn_string insert_trace_markers environ
    (add_locations FB_IGNORE_LOCATIONS (ignore_locations cfg) (add_locations FB_READ_ONLY_LOCATIONS (read_only_locations cfg) env)).

Lemma final_plain extra_debug cfg environ lib conn itm env : plain_keys env -> plain_keys (final_env extra_debug cfg environ lib conn itm env).
Proof.
  destruct names_plain as (H1 & H2 & H3). destruct location_names_plain as [H4 H5]. intros H. unfold final_env, own_variables.
  destruct (extra_debug && itm); repeat (apply plain_insert; [done|]); by repeat (apply add_locations_plain; [done|]).
Qed.

Lemma final_lookup extra_debug cfg environ lib conn itm env n : final_env extra_debug cfg environ lib conn itm env !! n =
  if decide (n = FB_INSERT_TRACE_MARKERS) then (if extra_debug && itm then Some (cs "1") else env !! n)
  else if decide (n = FB_SOCKET) then Some conn
  else if decide (n = LD_PRELOAD) then Some (export_ld_preload lib (getenv_from environ LD_PRELOAD))
  else if decide (n = FB_IGNORE_LOCATIONS) then match ignore_locations cfg ≫= export_sorted with Some v => Some v | None => env !! n end
  else if decide (n = FB_READ_ONLY_LOCATIONS) then match read_only_locations cfg ≫= export_sorted with Some v => Some v | None => env !! n end
  else env !! n.
Proof.
  unfold final_env, own_variables. destruct (extra_debug && itm); rewrite ?lookup_insert, !add_locations_lookup;
    repeat (case_decide; subst; try done); congruence.
Qed.


(** What get_sanitized_env() computes, in terms of the map. *)
Lemma sanitized_env_map regex_match extra_debug cfg environ self_path conn itm :
  match get_sanitized_env regex_match extra_debug cfg environ self_path conn itm with
  | Ret l => exists env, plain_keys env /\ Forall (fun str => equals ∈ str) (default [] (preset cfg)) /\
      add_presets (default [] (preset cfg)) (add_pass_through regex_match environ (pass_through cfg) ∅) = Ret env /\
      (forall n, equals ∉ n -> env !! n = match preset_value (default [] (preset cfg)) n with Some v => Some v | None => passed regex_match environ (pass_through cfg) n end) /\
      l = env_strings (final_env extra_debug cfg environ (libfirebuild_so self_path) conn itm env)
  | Abort => Exists (fun str => equals ∉ str) (default [] (preset cfg))
  | OutOfFuel => False
  end.
Proof.
  unfold get_sanitized_env. destruct (add_pass_through_lookup regex_match environ (pass_through cfg) [] (not_elem_of_nil _)) as [Hp _].
  pose proof (add_presets_lookup (default [] (preset cfg)) _ Hp) as H. destruct (add_presets _ _) as [env| |]; [|done..].
  destruct H as (H1 & H2 & H3). cbn [mbind outcome_bind]. exists env. split; [done|]. split; [done|]. split; [done|]. split; [|done].
  intros n Hn. rewrite H3 by done. by rewrite (proj2 (add_pass_through_lookup regex_match environ (pass_through cfg) n Hn)).
Qed.

Lemma final_getenv extra_debug cfg environ lib conn itm env n : plain_keys env -> equals ∉ n ->
  getenv_from (env_strings (final_env extra_debug cfg environ lib conn itm env)) n = final_env extra_debug cfg environ lib conn itm env !! n.
Proof. intros Hp Hn. by apply getenv_strings; [apply final_plain|]. Qed.

Lemma libfirebuild_so_form self_path : exists dir, libfirebuild_so self_path = dir ++ LIBFIREBUILD_SO.
Proof.
  unfold libfirebuild_so. destruct self_path as [p|]; [|by exists []]. destruct (is_prefix _ _); [|by exists []].
  eexists. by rewrite app_assoc.
Qed.

(** The value that a variable has to have for the build: the interceptor's own ones first, then the
    last preset, then the supervisor's own environment if the variable is passed through. *)
Definition configured (regex_match : cstr -> cstr -> bool) (cfg : settings) (environ : list cstr) (n : cstr) : option cstr :=
  match preset_value (default [] (preset cfg)) n with Some v => Some v | None => passed regex_match environ (pass_through cfg) n end.
Definition intended (regex_match : cstr -> cstr -> bool) (extra_debug insert_trace_markers : bool) (cfg : settings)
    (environ : list cstr) (lib fb_conn_string n : cstr) : option cstr :=
  let own :=
    if decide (n = FB_SOCKET) then Some fb_conn_string
    else if decide (n = LD_PRELOAD) then Some (export_ld_preload lib (getenv_from environ LD_PRELOAD))
    else if decide (n = FB_INSERT_TRACE_MARKERS) then (if extra_debug && insert_trace_markers then Some (cs "1") else None)
    else if decide (n = FB_READ_ONLY_LOCATIONS) then read_only_locations cfg ≫= export_sorted
    else if decide (n = FB_IGNORE_LOCATIONS) then ignore_locations cfg ≫= export_sorted
    else None in
  match own with Some v => Some v | None => configured regex_match cfg environ n end.

Lemma final_intended regex_match extra_debug cfg environ lib conn itm env n : env !! n = configured regex_match cfg environ n ->
  final_env extra_debug cfg environ lib conn itm env !! n = intended regex_match extra_debug itm cfg environ lib conn n.
Proof.
  intros E. rewrite final_lookup, E. unfold intended.
  destruct (decide (n = FB_INSERT_TRACE_MARKERS)) as [->|]; [by destruct (extra_debug && itm)|].
  destruct (decide (n = FB_SOCKET)) as [->|]; [done|]. destruct (decide (n = LD_PRELOAD)) as [->|]; [done|].
  destruct (decide (n = FB_IGNORE_LOCATIONS)) as [->|]; [|by repeat case_decide].
  rewrite decide_False by (by apply (bool_decide_eq_true_1 _)). done.
Qed.



Definition example_settings : settings :=
  mkSettings (Some [cs "PATH"; cs "HOME"; cs "LC_.*"]) (Some [cs "CCACHE_DISABLE=1"; cs "HOME=/build"]) (Some [cs "/usr"; cs "/etc"]) None.
Definition example_environ : list cstr := [cs "PATH=/bin"; cs "HOME=/home/u"; cs "LC_ALL=C"; cs "SECRET=x"; cs "LD_PRELOAD=/lib/a.so"].

(** A stand-in for the regular expression of the example. *)
Definition example_match (r s : cstr) : bool := is_prefix (cs "LC_") s.

Lemma example_sanitized : exists l, get_sanitized_env example_match false example_settings example_environ None (cs "/run/fb") false = Ret l /\
  l = [cs "CCACHE_DISABLE=1"; cs "FB_READ_ONLY_LOCATIONS=/etc:/usr"; cs "FB_SOCKET=/run/fb"; cs "HOME=/build"; cs "LC_ALL=C";
       cs "LD_PRELOAD=libfirebuild.so:/lib/a.so"; cs "PATH=/bin"].
Proof. eexists. split; [vm_compute; reflexivity|]. vm_compute. reflexivity. Qed.

Lemma library_no_sep : no_sep LIBFIREBUILD_SO.
Proof. repeat constructor. Qed.


(** ** What is reported does not depend on this run of the supervisor *)

Lemma env_strings_nodup env : plain_keys env -> NoDup (env_strings env).
Proof.
  intros Hp. unfold env_strings. rewrite merge_sort_Permutation. apply NoDup_fmap_2_strong; [|apply NoDup_map_to_list].
  intros [k v] [k' v'] H H' E. apply elem_of_map_to_list in H, H'. cbn in E.
  pose proof (var_name_inj _ _ _ _ (Hp _ _ H) (Hp _ _ H') E) as ->. apply var_inj in E as ->. done.
Qed.

Definition is_reported (e : cstr) : bool :=
  negb (begins_with e (FB_SOCKET ++ cs "=")) && negb (begins_with e (FB_READ_ONLY_LOCATIONS ++ cs "=")) && negb (begins_with e (FB_IGNORE_LOCATIONS ++ cs "=")).

Lemma is_reported_var k v : equals ∉ k -> is_reported (var k v) = bool_decide (k ∉ [FB_SOCKET; FB_READ_ONLY_LOCATIONS; FB_IGNORE_LOCATIONS]).
Proof.
  intros Hk. destruct names_plain as (_ & H2 & _). destruct location_names_plain as [H4 H5]. unfold is_reported.
  rewrite !begins_with_bool by done. rewrite <- !bool_decide_not, <- !bool_decide_and. apply bool_decide_ext.
  rewrite !not_elem_of_cons. pose proof (not_elem_of_nil k). tauto.
Qed.

Lemma reported_same env env' : plain_keys env -> plain_keys env' ->
  (forall k, k ∉ [FB_SOCKET; FB_READ_ONLY_LOCATIONS; FB_IGNORE_LOCATIONS] -> env !! k = env' !! k) ->
  reported_env (env_strings env) = reported_env (env_strings env').
Proof.
  intros Hp Hp' Hk. unfold reported_env. apply sort_strings_perm. apply NoDup_Permutation; [by apply NoDup_filter, env_strings_nodup..|].
  assert (Hone : forall m1 m2, plain_keys m1 -> (forall k, k ∉ [FB_SOCKET; FB_READ_ONLY_LOCATIONS; FB_IGNORE_LOCATIONS] -> m1 !! k = m2 !! k) ->
            forall e, is_reported e = true -> e ∈ env_strings m1 -> e ∈ env_strings m2).
  { intros m1 m2 Hm H e Hr (k & v & Hkv & ->)%elem_env_strings. apply elem_env_strings. exists k, v. split; [|done]. rewrite <- H; [done|].
    rewrite is_reported_var in Hr by (by eapply Hm). by apply bool_decide_eq_true in Hr. }
  intros e. rewrite !list_elem_of_filter. fold (is_reported e). split; intros [Hr He]; (split; [done|]).
  - by apply (Hone env env').
  - apply (Hone env' env); try done. intros k Hk'. symmetry. by apply Hk.
Qed.

(** C29. What an intercepted process reports of its environment, and what its fingerprint is made
    of, does not depend on the run of the supervisor: with the same presets and variables to pass
    through, in the same environment, two runs with different sockets and lists of locations
    start the build in environments that are reported alike. *)
Theorem reported_env_independent regex_match extra_debug cfg cfg' environ self_path conn conn' insert_trace_markers l l' :
  pass_through cfg = pass_through cfg' -> preset cfg = preset cfg' ->
  get_sanitized_env regex_match extra_debug cfg environ self_path conn insert_trace_markers = Ret l ->
  get_sanitized_env regex_match extra_debug cfg' environ self_path conn' insert_trace_markers = Ret l' ->
  reported_env l = reported_env l'.
Proof.
  intros Hpt Hpre E E'.
  pose proof (sanitized_env_map regex_match extra_debug cfg environ self_path conn insert_trace_markers) as H. rewrite E in H.
  pose proof (sanitized_env_map regex_match extra_debug cfg' environ self_path conn' insert_trace_markers) as H'. rewrite E' in H'.
  destruct H as (env & Hp & _ & Ha & _ & ->), H' as (env' & Hp' & _ & Ha' & _ & ->). rewrite Hpt, Hpre in Ha.
  assert (env' = env) as -> by congruence. apply reported_same; [by apply final_plain..|].
  intros k Hk. rewrite !not_elem_of_cons in Hk. destruct Hk as (H1 & H2 & H3 & _). rewrite !final_lookup. by repeat (case_decide; [done|]).
Qed.

Lemma reported_env_independent_witness : exists l l',
  get_sanitized_env example_match false example_settings example_environ None (cs "/run/fb") false = Ret l /\
  get_sanitized_env example_match false (mkSettings (pass_through example_settings) (preset example_settings) None (Some [cs "/tmp"]))
    example_environ None (cs "/run/other") false = Ret l' /\
  l <> l' /\ reported_env l = reported_env l'.
Proof.
  eexists _, _. split; [vm_compute; reflexivity|]. split; [vm_compute; reflexivity|]. split; [discriminate|].
  eapply (reported_env_independent example_match false example_settings (mkSettings (pass_through example_settings) (preset example_settings) None (Some [cs "/tmp"]))
            example_environ None (cs "/run/fb") (cs "/run/other") false); vm_compute; reflexivity.
Defined.

End Settings.
