(* ===== verification/IcInit.v ===== *)
(** The start of an intercepted process (fb_ic_init() of src/interceptor/intercept.c): collecting the
    names of the shared libraries in arrays of fixed or computed sizes, and reopening the file
    descriptors that the supervisor has replaced. *)

From Stdlib Require Import ZArith Lia Ascii.
From stdpp Require Import base list strings option gmap sorting.
From S2P Require Import Prelude Paths Hashing.

(** * Shared libraries *)
Module SharedLibs.
Import Paths.

Definition VDSO_NAME : cstr := cs "linux-vdso.so.1".
Definition libfirebuild : cstr := cs "/libfirebuild.so".

(** [skip_shared_lib()]. *)
Definition skip_shared_lib (name : cstr) : bool :=
  if bool_decide (char_at name 0 = NUL) then true
  else if (length libfirebuild <=? length name)%nat && bool_decide (strcmp (drop (length name - length libfirebuild) name) libfirebuild = Eq) then true
  else bool_decide (strcmp name VDSO_NAME = Eq).

(** The sizes of a cstring_view, which is a pointer and a length, and of a pointer to char. *)
Definition sizeof_view : nat := 16.
Definition sizeof_ptr : nat := 8.

(** The array of names: its contents, [size_alloc], and the bytes that are allocated for it. *)
Record array := mkArray { names : list cstr; size_alloc : nat; alloc_bytes : nat }.

(** [cstring_view_array_append_noalloc()]; writing past the allocated bytes is undefined. *)
Definition append_noalloc (s : cstr) (a : array) : outcome array :=
  if (length (names a) <? size_alloc a)%nat && ((length (names a) + 1) * sizeof_view <=? alloc_bytes a)%nat
  then Ret (mkArray (names a ++ [s]) (size_alloc a) (alloc_bytes a)) else Abort.

Definition append_unless_full (s : cstr) (a : array) : outcome array :=
  if (length (names a) =? size_alloc a)%nat then Ret a else append_noalloc s a.

(** [shared_libs_as_cstring_view_array_cb_data_t]. *)
Record cb_data := mkCb {
  arr : array;
  collectable_entries : nat;
  not_canonical_entries : nat;
  canonized_libs_size : nat;
  canonized_libs_count : nat
}.

(** [shared_libs_as_cstring_view_array_cb()] for a library. *)
Definition callback (d : cb_data) (name : cstr) : outcome cb_data :=
  if skip_shared_lib name then Ret d
  else
    let collectable := (collectable_entries d + 1)%nat in
    if is_canonical name then
      a ← append_unless_full name (arr d);
      Ret (mkCb a collectable (not_canonical_entries d) (canonized_libs_size d) (canonized_libs_count d))
    else
      let not_canonical := (not_canonical_entries d + 1)%nat in
      _ ← assert (canonized_libs_count d <=? canonized_libs_size d)%nat;
      if (canonized_libs_count d <? canonized_libs_size d)%nat then
        a ← append_unless_full (make_canonical name) (arr d);
        Ret (mkCb a collectable not_canonical (canonized_libs_size d) (canonized_libs_count d + 1))
      else Ret (mkCb (arr d) collectable not_canonical (canonized_libs_size d) (canonized_libs_count d)).

(** [dl_iterate_phdr()] calls it for each library. *)
Fixpoint iterate (libs : list cstr) (d : cb_data) : outcome cb_data :=
  match libs with
  | [] => Ret d
  | name :: libs => d ← callback d name; iterate libs d
  end.

(** The part of [fb_ic_init()] that collects the libraries. *)
Definition collect_libs (libs : list cstr) : outcome (list cstr) :=
  let size := 64%nat in
  d ← iterate libs (mkCb (mkArray [] size (size * sizeof_view)) 0 0 8 0);
  a ← (if (length (names (arr d)) <? collectable_entries d)%nat then
         let canonized_size := if (8 <? not_canonical_entries d)%nat then not_canonical_entries d else 8%nat in
         let a := if (size_alloc (arr d) - 1 <? collectable_entries d)%nat
                  then mkArray [] (collectable_entries d + 1) ((collectable_entries d + 1) * sizeof_ptr)
                  else mkArray [] (size_alloc (arr d)) (alloc_bytes (arr d)) in
         d2 ← iterate libs (mkCb a 0 0 canonized_size 0);
         _ ← assert (collectable_entries d =? length (names (arr d2)))%nat;
         Ret (arr d2)
       else Ret (arr d));
  Ret (sort_strings (names a)).

(** ** What is collected *)

Definition reported (libs : list cstr) : list cstr := filter (fun name => skip_shared_lib name = false) libs.
Definition irregular (libs : list cstr) : list cstr := filter (fun name => is_canonical name = false) (reported libs).
Definition canonized (name : cstr) : cstr := if is_canonical name then name else make_canonical name.

(** After the libraries [libs]: what is counted, and what is in the array if there was room. *)
Record collected (libs : list cstr) (size csize : nat) (d : cb_data) : Prop := {
  col_entries : collectable_entries d = length (reported libs);
  col_irregular : not_canonical_entries d = length (irregular libs);
  col_csize : canonized_libs_size d = csize;
  col_count : canonized_libs_count d = (csize `min` length (irregular libs))%nat;
  col_size : size_alloc (arr d) = size;
  col_le : (length (names (arr d)) <= size)%nat;
  col_all : (length (reported libs) <= size)%nat -> (length (irregular libs) <= csize)%nat -> names (arr d) = canonized <$> reported libs;
  col_less : (size < length (reported libs))%nat \/ (csize < length (irregular libs))%nat -> (length (names (arr d)) < length (reported libs))%nat
}.

Lemma reported_snoc libs name : reported (libs ++ [name]) = reported libs ++ (if skip_shared_lib name then [] else [name]).
Proof. unfold reported. rewrite filter_app. f_equal. rewrite filter_cons. by destruct (skip_shared_lib name). Qed.

Lemma irregular_snoc libs name : irregular (libs ++ [name]) =
  irregular libs ++ (if skip_shared_lib name then [] else if is_canonical name then [] else [name]).
Proof.
  unfold irregular. rewrite reported_snoc, filter_app. f_equal. destruct (skip_shared_lib name); [done|]. rewrite filter_cons. by destruct (is_canonical name).
Qed.

(** Appending where there is memory for all slots. *)
Lemma append_room s a : (size_alloc a * sizeof_view <= alloc_bytes a)%nat -> (length (names a) <= size_alloc a)%nat ->
  exists a', append_unless_full s a = Ret a' /\ size_alloc a' = size_alloc a /\ alloc_bytes a' = alloc_bytes a /\
    names a' = if (length (names a) =? size_alloc a)%nat then names a else names a ++ [s].
Proof.
  intros Hb Hl. unfold append_unless_full, append_noalloc, sizeof_view in *. destruct (Nat.eqb_spec (length (names a)) (size_alloc a)) as [E|E]; [by exists a|].
  rewrite (proj2 (Nat.ltb_lt _ _)), (proj2 (Nat.leb_le _ _)) by lia. cbn. by eexists.
Qed.

Lemma collected_le libs size csize d : collected libs size csize d ->
  (length (names (arr d)) <= length (reported libs))%nat /\ (length (irregular libs) <= length (reported libs))%nat.
Proof.
  intros [_ _ _ _ _ _ H7 H8]. split; [|apply length_filter].
  destruct (decide (length (reported libs) <= size /\ length (irregular libs) <= csize)%nat) as [[Ha Hc]|Hn]; [rewrite H7 by done; by rewrite length_fmap|lia].
Qed.

(** A library whose name is appended if the array is not full. *)
Lemma collected_append libs size csize d name notc count : collected libs size csize d -> (size * sizeof_view <= alloc_bytes (arr d))%nat ->
  skip_shared_lib name = false -> notc = length (irregular (libs ++ [name])) -> count = (csize `min` notc)%nat ->
  (is_canonical name = true \/ notc <= csize)%nat ->
  exists a, append_unless_full (canonized name) (arr d) = Ret a /\ alloc_bytes a = alloc_bytes (arr d) /\
    collected (libs ++ [name]) size csize (mkCb a (collectable_entries d + 1) notc csize count).
Proof.
  intros C Hb Hs -> -> Hor. destruct (collected_le _ _ _ _ C) as [Hle Hir]. destruct C as [H1 H2 H3 H4 H5 H6 H7 H8].
  pose proof (reported_snoc libs name) as Er. rewrite Hs in Er. pose proof (irregular_snoc libs name) as Ei. rewrite Hs in Ei.
  destruct (append_room (canonized name) (arr d)) as (a & E & Ha1 & Ha2 & Ha3); [by rewrite H5|by rewrite H5|]. exists a.
  split; [done|]. split; [done|]. rewrite H5 in Ha1, Ha3.
  assert (Hn : length (names a) = if (length (names (arr d)) =? size)%nat then length (names (arr d)) else (length (names (arr d)) + 1)%nat)
    by (rewrite Ha3; destruct (_ =? _)%nat; [done|rewrite length_app; done]).
  assert (Hi : (length (irregular libs) <= length (irregular (libs ++ [name])))%nat) by (rewrite Ei, length_app; lia).
  constructor; cbn; rewrite ?Er, ?length_app; cbn; try done; try lia.
  - destruct (Nat.eqb_spec (length (names (arr d))) size); lia.
  - intros Hsz Hc. rewrite Ha3, H7 by lia. rewrite length_fmap. destruct (Nat.eqb_spec (length (reported libs)) size); [lia|]. by rewrite fmap_app.
  - intros Hor2. rewrite Hn. destruct (Nat.eqb_spec (length (names (arr d))) size); [lia|].
    destruct Hor as [Hc|Hc]; [rewrite Hc, app_nil_r in Ei; rewrite Ei in Hor2|]; destruct Hor2; lia.
Qed.

Lemma callback_collected libs size csize d name : collected libs size csize d -> (size * sizeof_view <= alloc_bytes (arr d))%nat ->
  exists d', callback d name = Ret d' /\ collected (libs ++ [name]) size csize d' /\ alloc_bytes (arr d') = alloc_bytes (arr d).
Proof.
  intros C Hb. pose proof (reported_snoc libs name) as Er. pose proof (irregular_snoc libs name) as Ei. pose proof C as [H1 H2 H3 H4 H5 H6 H7 H8].
  pose proof (collected_le _ _ _ _ C) as [Hle Hir]. unfold callback. destruct (skip_shared_lib name) eqn:Es.
  { rewrite app_nil_r in Er, Ei. exists d. split; [done|]. split; [|done]. constructor; rewrite ?Er, ?Ei; done. }
  destruct (is_canonical name) eqn:Ec.
  - rewrite app_nil_r in Ei. destruct (collected_append libs size csize d name (not_canonical_entries d) (canonized_libs_count d) C Hb Es) as (a & E & Hab & Hc);
      [by rewrite Ei|by rewrite H4, H2|by left|]. unfold canonized in E. rewrite Ec in E. rewrite E, H3. cbn [mbind outcome_bind]. by eexists.
  - rewrite (proj2 (Nat.leb_le _ _)) by lia. cbn [assert mbind outcome_bind]. rewrite H3, H4.
    assert (Hn : (not_canonical_entries d + 1)%nat = length (irregular (libs ++ [name]))) by (rewrite Ei, H2, length_app; done). rewrite Hn.
    destruct (Nat.ltb_spec (csize `min` length (irregular libs)) csize) as [Hl|Hl].
    + destruct (collected_append libs size csize d name (length (irregular (libs ++ [name]))) (csize `min` length (irregular libs) + 1) C Hb Es) as (a & E & Hab & Hc);
        [done|rewrite Ei, length_app; cbn; lia|right; rewrite Ei, length_app; cbn; lia|].
      unfold canonized in E. rewrite Ec in E. rewrite E. cbn [mbind outcome_bind]. by eexists.
    + eexists. split; [done|]. split; [|done]. constructor; cbn; rewrite ?Er, ?Ei, ?length_app; cbn; try done; lia.
Qed.

Lemma iterate_collected libs pre size csize d : collected pre size csize d -> (size * sizeof_view <= alloc_bytes (arr d))%nat ->
  exists d', iterate libs d = Ret d' /\ collected (pre ++ libs) size csize d' /\ alloc_bytes (arr d') = alloc_bytes (arr d).
Proof.
  revert pre d. induction libs as [|name libs IH]; intros pre d C Hb; [rewrite app_nil_r; by exists d|]. cbn [iterate].
  destruct (callback_collected pre size csize d name C Hb) as (d1 & -> & C1 & Hb1). cbn [mbind outcome_bind].
  rewrite <- Hb1 in Hb. destruct (IH (pre ++ [name]) d1 C1 Hb) as (d2 & E2 & C2 & Hb2). exists d2. split; [done|].
  rewrite <- app_assoc in C2. split; [done|congruence].
Qed.

Lemma collected_nil size bytes csize : collected [] size csize (mkCb (mkArray [] size bytes) 0 0 csize 0).
Proof. constructor; cbn; try done; lia. Qed.

Lemma iterate_from_empty libs size bytes csize : (size * sizeof_view <= bytes)%nat ->
  exists d, iterate libs (mkCb (mkArray [] size bytes) 0 0 csize 0) = Ret d /\ collected libs size csize d /\ alloc_bytes (arr d) = bytes.
Proof. intros Hb. apply (iterate_collected libs [] size csize); [apply collected_nil|done]. Qed.


(** Where the allocated bytes are not enough, a write gets past them. *)
Lemma iterate_overflow libs d : (length (names (arr d)) + length (reported libs) <= size_alloc (arr d))%nat ->
  (canonized_libs_count d + length (irregular libs) <= canonized_libs_size d)%nat ->
  (length (names (arr d)) * sizeof_view <= alloc_bytes (arr d))%nat ->
  (alloc_bytes (arr d) < (length (names (arr d)) + length (reported libs)) * sizeof_view)%nat -> iterate libs d = Abort.
Proof.
  revert d. induction libs as [|name libs IH]; intros d Hs Hc Hb Ho; [cbn in Ho; lia|]. cbn [iterate]. unfold callback.
  pose proof (reported_snoc [] name) as Er. pose proof (irregular_snoc [] name) as Ei. change (reported []) with (@nil cstr) in Er. change (irregular []) with (@nil cstr) in Ei. cbn [app] in Er, Ei.
  assert (Er' : reported (name :: libs) = reported [name] ++ reported libs) by apply (filter_app _ [name]).
  assert (Ei' : irregular (name :: libs) = irregular [name] ++ irregular libs) by (unfold irregular; by rewrite Er', filter_app).
  rewrite Er' in Hs, Ho. rewrite Ei' in Hc. rewrite Er in Hs, Ho. rewrite Ei in Hc. destruct (skip_shared_lib name); [by apply IH|].
  rewrite length_app in Hs, Ho, Hc. cbn [length] in *.
  assert (Happ : forall s, append_unless_full s (arr d) =
    if ((length (names (arr d)) + 1) * sizeof_view <=? alloc_bytes (arr d))%nat then Ret (mkArray (names (arr d) ++ [s]) (size_alloc (arr d)) (alloc_bytes (arr d))) else Abort).
  { intros s. unfold append_unless_full, append_noalloc. rewrite (proj2 (Nat.eqb_neq _ _)), (proj2 (Nat.ltb_lt _ _)) by lia. done. }
  destruct (is_canonical name); [|rewrite (proj2 (Nat.leb_le _ _)) by (cbn in Hc; lia); cbn [assert mbind outcome_bind];
    rewrite (proj2 (Nat.ltb_lt (canonized_libs_count d) _)) by (cbn in Hc; lia)]; rewrite Happ;
    (destruct (Nat.leb_spec ((length (names (arr d)) + 1) * sizeof_view) (alloc_bytes (arr d))); [|done]); cbn [mbind outcome_bind];
    apply IH; cbn in *; rewrite ?length_app; cbn; lia.
Qed.

(** C30. The names of the shared libraries are collected, made canonical and sorted, whatever their
    number and that of the names that are not canonical, up to 63 libraries, and for 64 of which at
    most 8 names are not canonical.  For more of them the array is allocated again by the size of
    pointers while its elements are of twice that size, and the names are written past its end. *)
Theorem collect_libs_bounds libs :
  let fits := (length (reported libs) <= 63 \/ length (reported libs) = 64 /\ length (irregular libs) <= 8)%nat in
  (fits -> collect_libs libs = Ret (sort_strings (canonized <$> reported libs))) /\ (~ fits -> collect_libs libs = Abort).
Proof.
  intros fits. unfold collect_libs. destruct (iterate_from_empty libs 64 (64 * sizeof_view) 8) as (d & -> & C & Hb); [done|].
  cbn [mbind outcome_bind]. pose proof (collected_le _ _ _ _ C) as [Hle Hir]. destruct C as [H1 H2 H3 H4 H5 H6 H7 H8]. rewrite H1, H2, H5.
  destruct (Nat.ltb_spec (length (names (arr d))) (length (reported libs))) as [Hl|Hl].
  2:{ destruct (decide (length (reported libs) <= 64 /\ length (irregular libs) <= 8)%nat) as [[? ?]|?]; [|exfalso; lia].
      cbn [mbind outcome_bind]. rewrite H7 by done. split; [done|]. unfold fits. lia. }
  assert (Hno : ~ (length (reported libs) <= 64 /\ length (irregular libs) <= 8)%nat).
  { intros [? ?]. rewrite H7, length_fmap in Hl by done. lia. }
  set (csize := if (8 <? length (irregular libs))%nat then length (irregular libs) else 8%nat).
  assert (Hcs : (length (irregular libs) <= csize)%nat) by (unfold csize; destruct (Nat.ltb_spec 8 (length (irregular libs))); lia).
  destruct (Nat.ltb_spec (64 - 1) (length (reported libs))) as [Hn|Hn]; (split; [intros Hf|intros Hf]); try (unfold fits in Hf; lia).
  - rewrite iterate_overflow; [done|cbn; lia|cbn; lia|cbn; lia|]. cbn [arr names alloc_bytes length]. unfold sizeof_view, sizeof_ptr. lia.
  - rewrite Hb. destruct (iterate_from_empty libs 64 (64 * sizeof_view) csize) as (d2 & -> & C2 & _); [done|]. cbn [mbind outcome_bind].
    pose proof (col_all _ _ _ _ C2 ltac:(lia) Hcs) as Hall. rewrite Hall, length_fmap, Nat.eqb_refl. cbn [assert mbind outcome_bind]. by rewrite Hall.
Qed.

Lemma collect_libs_bounds_witness :
  collect_libs [cs ""; cs "linux-vdso.so.1"; cs "/usr/lib/libfirebuild.so"; cs "/lib/libz.so"; cs "/lib//libc.so.6"] = Ret [cs "/lib/libc.so.6"; cs "/lib/libz.so"] /\
  collect_libs (replicate 65 (cs "/lib/libz.so")) = Abort.
Proof.
  split.
  - rewrite (proj1 (collect_libs_bounds _)); [vm_compute; reflexivity|]. left. apply Nat.leb_le. vm_compute. reflexivity.
  - apply (proj2 (collect_libs_bounds _)).
    assert (E : length (reported (replicate 65 (cs "/lib/libz.so"))) = 65%nat) by (vm_compute; reflexivity). rewrite E. lia.
Defined.

End SharedLibs.

(** * Reopening file descriptors *)
Module ReopenFds.
Local Open Scope Z_scope.

(** The kernel's table of the process: descriptors refer to open file descriptions, which have the
    flags of fcntl(). *)
Record ktable := mkK { fds : gmap Z nat; oflags : gmap nat Z }.

Definition getfl (t : ktable) (fd : Z) : option Z := fds t !! fd ≫= fun o => oflags t !! o.
Definition setfl (fd flags : Z) (t : ktable) : outcome ktable :=
  match fds t !! fd with Some o => Ret (mkK (fds t) (<[o := flags]> (oflags t))) | None => Abort end.
Definition dup2 (src_fd dst_fd : Z) (t : ktable) : outcome ktable :=
  match fds t !! src_fd with Some o => Ret (mkK (<[dst_fd := o]> (fds t)) (oflags t)) | None => Abort end.
Definition close (fd : Z) (t : ktable) : ktable := mkK (delete fd (fds t)) (oflags t).

Fixpoint dup_all (src_fd : Z) (dst_fds : list Z) (t : ktable) : outcome ktable :=
  match dst_fds with
  | [] => Ret t
  | dst_fd :: dst_fds => t ← dup2 src_fd dst_fd t; dup_all src_fd dst_fds t
  end.

(** One round of the loop over the descriptors that were received: the flags of the first target
    are kept, the source is duplicated to the targets and closed. *)
Definition reopen_one (src_fd : Z) (dst_fds : list Z) (t : ktable) : outcome ktable :=
  match dst_fds with
  | [] => Abort
  | first :: _ =>
      match getfl t first with
      | None => Abort
      | Some flags => t ← setfl src_fd flags t; t ← dup_all src_fd dst_fds t; Ret (close src_fd t)
      end
  end.

Fixpoint reopen_fds (l : list (Z * list Z)) (t : ktable) : outcome ktable :=
  match l with
  | [] => Ret t
  | (src_fd, dst_fds) :: l => t ← reopen_one src_fd dst_fds t; reopen_fds l t
  end.

(** ** Theorems *)

Lemma dup_all_ok src o dsts t : fds t !! src = Some o -> src ∉ dsts ->
  exists t', dup_all src dsts t = Ret t' /\ oflags t' = oflags t /\
    forall x, fds t' !! x = if decide (x ∈ dsts) then Some o else fds t !! x.
Proof.
  revert t. induction dsts as [|d dsts IH]; intros t Hs Hn; cbn [dup_all].
  - exists t. split; [done|]. split; [done|]. intros x. rewrite decide_False by apply not_elem_of_nil. done.
  - apply not_elem_of_cons in Hn as [Hd Hn]. unfold dup2. rewrite Hs. cbn [mbind outcome_bind].
    destruct (IH (mkK (<[d := o]> (fds t)) (oflags t))) as (t' & E & Hf & Ht); [cbn; by rewrite lookup_insert_ne|done|].
    exists t'. split; [done|]. split; [done|]. intros x. rewrite Ht. cbn. rewrite lookup_insert.
    destruct (decide (x ∈ d :: dsts)) as [Hin|Hin].
    + apply elem_of_cons in Hin as [->|Hin]; [|by rewrite decide_True]. case_decide; [done|]. by rewrite decide_True.
    + apply not_elem_of_cons in Hin as [? ?]. rewrite decide_False by done. by rewrite decide_False by congruence.
Qed.

(** What is expected of the message and the table: the sources are open, not among the targets, and
    their descriptions are their own; each source has a first target that is open. *)
Record well_formed (l : list (Z * list Z)) (t : ktable) : Prop := {
  wf_nodup : NoDup (l.*1 ++ concat l.*2);
  wf_src : forall s ds, (s, ds) ∈ l -> exists o, fds t !! s = Some o /\ forall x, x <> s -> x ∈ l.*1 ++ concat l.*2 -> fds t !! x <> Some o;
  wf_dst : forall s ds, (s, ds) ∈ l -> exists d ds' flags, ds = d :: ds' /\ getfl t d = Some flags
}.

Lemma reopen_one_ok s d ds o flags t : fds t !! s = Some o -> s ∉ d :: ds -> getfl t d = Some flags ->
  exists t', reopen_one s (d :: ds) t = Ret t' /\ oflags t' = <[o := flags]> (oflags t) /\
    forall x, fds t' !! x = if decide (x = s) then None else if decide (x ∈ d :: ds) then Some o else fds t !! x.
Proof.
  intros Hs Hn Hg. unfold reopen_one. rewrite Hg. unfold setfl. rewrite Hs. cbn [mbind outcome_bind].
  destruct (dup_all_ok s o (d :: ds) (mkK (fds t) (<[o := flags]> (oflags t)))) as (t' & -> & Hf & Ht); [done|done|]. cbn [mbind outcome_bind].
  eexists. split; [done|]. split; [done|]. intros x. cbn [close fds]. rewrite lookup_delete. rewrite Ht. cbn [fds].
  destruct (decide (x = s)) as [->|]; [by rewrite decide_True|]. by rewrite decide_False by congruence.
Qed.

Lemma elem_in_concat {A} (x : A) ls : x ∈ concat ls <-> exists l, x ∈ l /\ l ∈ ls.
Proof.
  induction ls as [|l ls IH]; cbn; [split; [intros H; by apply not_elem_of_nil in H|intros (? & _ & H); by apply not_elem_of_nil in H]|].
  rewrite elem_of_app, IH. split.
  - intros [H|(l' & H & H')]; [exists l; split; [done|left]|exists l'; split; [done|by right]].
  - intros (l' & H & [->|H']%elem_of_cons); [by left|]. right. by exists l'.
Qed.

Lemma in_tail x s ds (l : list (Z * list Z)) : x ∈ l.*1 ++ concat l.*2 -> x ∈ ((s, ds) :: l).*1 ++ concat ((s, ds) :: l).*2.
Proof. cbn. rewrite elem_of_app. intros [H|H]; right; apply elem_of_app; [by left|right; apply elem_of_app; by right]. Qed.

Lemma well_formed_step s d ds l t t1 o flags : well_formed ((s, d :: ds) :: l) t -> fds t !! s = Some o ->
  (forall x, x <> s -> x ∈ (((s, d :: ds) :: l).*1 ++ concat ((s, d :: ds) :: l).*2) -> fds t !! x <> Some o) ->
  oflags t1 = <[o := flags]> (oflags t) ->
  (forall x, fds t1 !! x = if decide (x = s) then None else if decide (x ∈ d :: ds) then Some o else fds t !! x) ->
  well_formed l t1 /\
  (forall x, x ∈ l.*1 ++ concat l.*2 -> x <> s /\ x ∉ d :: ds /\ fds t1 !! x = fds t !! x /\ getfl t1 x = getfl t x).
Proof.
  intros [Hnd Hsrc Hdst] Ho Hown Hf Ht. cbn [fmap list_fmap fst snd concat] in Hnd, Hown, Hsrc.
  assert (Hrest : forall x, x ∈ l.*1 ++ concat l.*2 -> x <> s /\ x ∉ d :: ds /\ fds t1 !! x = fds t !! x /\ getfl t1 x = getfl t x).
  { intros x Hx. assert (Hxs : x <> s /\ x ∉ d :: ds).
    { rewrite <- app_comm_cons in Hnd. apply NoDup_cons in Hnd as [Hns Hnd]. rewrite !elem_of_app in Hns. rewrite elem_of_app in Hx. split; [intros ->; tauto|].
      intros Hxd. apply NoDup_app in Hnd as (_ & Hdis & Hnd).
      apply NoDup_app in Hnd as (_ & Hdis2 & _). destruct Hx as [Hx|Hx]; [apply (Hdis x Hx); apply elem_of_app; by left|by apply (Hdis2 x)]. }
    destruct Hxs as [Hxs Hxd]. split; [done|]. split; [done|]. assert (E : fds t1 !! x = fds t !! x) by (by rewrite Ht, !decide_False).
    split; [done|]. unfold getfl. rewrite E, Hf. destruct (fds t !! x) as [o'|] eqn:Eo; [|done]. cbn. apply lookup_insert_ne. intros ->.
    by apply (Hown x Hxs); [apply (in_tail x s (d :: ds) l)|]. }
  split; [|done]. constructor.
  - rewrite <- app_comm_cons in Hnd. apply NoDup_cons in Hnd as [_ Hnd].
    rewrite app_assoc, (Permutation_app_comm l.*1), <- app_assoc in Hnd. by apply NoDup_app in Hnd as (_ & _ & Hnd).
  - intros s' ds' Hin. destruct (Hsrc s' ds') as (o' & Ho' & Hne); [by right|]. exists o'.
    assert (Hs' : s' ∈ l.*1 ++ concat l.*2) by (apply elem_of_app; left; apply list_elem_of_fmap; by exists (s', ds')).
    destruct (Hrest s' Hs') as (_ & _ & E & _). split; [by rewrite E|]. intros x Hx Hin'. destruct (Hrest x Hin') as (_ & _ & -> & _). apply Hne; [done|].
    by apply (in_tail x s (d :: ds) l).
  - intros s' ds' Hin. destruct (Hdst s' ds') as (d' & ds'' & fl & -> & Hg); [by right|]. exists d', ds'', fl. split; [done|].
    assert (Hd' : d' ∈ l.*1 ++ concat l.*2).
    { apply elem_of_app. right. apply elem_in_concat. exists (d' :: ds''). split; [left|]. apply list_elem_of_fmap. by exists (s', d' :: ds''). }
    destruct (Hrest d' Hd') as (_ & _ & _ & ->). done.
Qed.

Definition reopened (l : list (Z * list Z)) (t t' : ktable) : Prop :=
  (forall s ds d, (s, ds) ∈ l -> d ∈ ds -> fds t' !! d = fds t !! s) /\
  (forall s ds, (s, ds) ∈ l -> fds t' !! s = None) /\
  (forall x, x ∉ l.*1 ++ concat l.*2 -> fds t' !! x = fds t !! x) /\
  (forall s d ds, (s, d :: ds) ∈ l -> getfl t' d = getfl t d) /\
  (forall o, (forall s, s ∈ l.*1 -> fds t !! s <> Some o) -> oflags t' !! o = oflags t !! o).

Lemma in_rest s ds d (l : list (Z * list Z)) : (s, ds) ∈ l -> s ∈ l.*1 ++ concat l.*2 /\ (d ∈ ds -> d ∈ l.*1 ++ concat l.*2).
Proof.
  intros H. split; [|intros Hd]; apply elem_of_app; [left|right].
  - apply list_elem_of_fmap. by exists (s, ds).
  - apply elem_in_concat. exists ds. split; [done|]. apply list_elem_of_fmap. by exists (s, ds).
Qed.

(** Each target then refers to what its source referred to, with the flags that the first target
    had; the sources are closed, and nothing else changes. *)
Theorem reopen_fds_correct l t : well_formed l t -> exists t', reopen_fds l t = Ret t' /\ reopened l t t'.
Proof.
  revert t. induction l as [|[s ds0] l IH]; intros t Hwf.
  { exists t. split; [done|]. unfold reopened. split; [intros ? ? ? H; by apply not_elem_of_nil in H|].
    split; [intros ? ? H; by apply not_elem_of_nil in H|]. split; [done|]. split; [intros ? ? ? H; by apply not_elem_of_nil in H|done]. }
  destruct (wf_src _ _ Hwf s ds0) as (o & Ho & Hown); [left|]. destruct (wf_dst _ _ Hwf s ds0) as (d & ds & flags & -> & Hg); [left|].
  assert (Hsd : s ∉ d :: ds).
  { pose proof (wf_nodup _ _ Hwf) as Hnd. cbn in Hnd. apply NoDup_cons in Hnd as [Hns _]. intros Hin. apply Hns. apply elem_of_app. right.
    change (d :: ds ++ concat l.*2) with ((d :: ds) ++ concat l.*2). apply elem_of_app. by left. }
  destruct (reopen_one_ok s d ds o flags t Ho Hsd Hg) as (t1 & E1 & Hf & Ht). cbn [reopen_fds]. rewrite E1. cbn [mbind outcome_bind].
  destruct (well_formed_step s d ds l t t1 o flags Hwf Ho Hown Hf Ht) as [Hwf1 Hrest].
  destruct (IH t1 Hwf1) as (t' & E' & R1 & R2 & R3 & R4 & R5). exists t'. split; [done|].
  assert (Hs : s ∉ l.*1 ++ concat l.*2) by (intros Hin; by destruct (Hrest s Hin)).
  assert (Hd : forall x, x ∈ d :: ds -> fds t' !! x = Some o).
  { intros x Hx. rewrite R3 by (intros Hin; by destruct (Hrest x Hin) as (_ & ? & _)). rewrite Ht, decide_False by congruence. by rewrite decide_True. }
  assert (Ho' : oflags t' !! o = Some flags).
  { rewrite R5, Hf, lookup_insert_eq; [done|]. intros s' Hs'. destruct (Hrest s') as (Hne & _ & -> & _); [apply elem_of_app; by left|].
    apply Hown; [done|]. cbn. right. apply elem_of_app. by left. }
  repeat split.
  - intros s' ds' x Hin Hx. apply elem_of_cons in Hin as [[= -> ->]|Hin]; [by rewrite Hd, Ho|]. rewrite (R1 s' ds') by done.
    by destruct (Hrest s') as (_ & _ & -> & _); [by apply (in_rest s' ds' x)|].
  - intros s' ds' Hin. apply elem_of_cons in Hin as [[= -> ->]|Hin]; [|by eapply R2]. by rewrite R3, Ht, decide_True.
  - intros x Hx. cbn in Hx. rewrite not_elem_of_cons, not_elem_of_app in Hx. destruct Hx as (Hxs & Hx1 & Hx2).
    change (d :: ds ++ concat l.*2) with ((d :: ds) ++ concat l.*2) in Hx2. rewrite not_elem_of_app in Hx2. destruct Hx2 as [Hx2 Hx3].
    rewrite R3 by (rewrite not_elem_of_app; done). by rewrite Ht, !decide_False.
  - intros s' d' ds' Hin. apply elem_of_cons in Hin as [[= -> -> ->]|Hin].
    + unfold getfl at 1. rewrite Hd by left. cbn. by rewrite Ho', Hg.
    + rewrite (R4 s' d' ds') by done. destruct (Hrest d') as (_ & _ & _ & E); [|done]. apply (in_rest s' (d' :: ds') d'); [done|left].
  - intros o' Hno. rewrite R5, Hf.
    + apply lookup_insert_ne. intros ->. apply (Hno s); [left|done].
    + intros s' Hs'. destruct (Hrest s') as (_ & _ & -> & _); [apply elem_of_app; by left|]. apply Hno. by right.
Qed.

End ReopenFds.
